(* ===== verification/_CoqProject ===== *)
-Q . S2P
Prelude.v
Text.v
Std.v
Domain.v
ContentContract.v
Foreign.v
CredentialContract.v
Cursor.v
Dedup.v
Router.v
RouterFacts.v
Policy.v
PolicyFacts.v
HttpProxy.v
HttpFacts.v
CredentialSecret.v
CookieJar.v
CookieJarFacts.v
CookieJarProps.v
CredentialProxy.v
CredentialProxyFacts.v
CredentialProxyProps.v
Crypto.v
Stateful.v
Vault.v
Database.v
CredentialStore.v
CredentialStoreFacts.v
CredentialStoreProps.v
PluginStore.v
StorageOps.v
StorageHistory.v
GrantProps.v
SqliteVault.v
VaultProps.v
ProxyGateway.v
ProxyGatewayProps.v
ProxyBackend.v
ProxyBackendProps.v
SupervisorProtocol.v
Fs.v
InstallOperation.v
InstallOperationProps.v
InstallFiles.v
InstallRecovery.v
Program.v
Redaction.v
PluginManager.v
PluginManagerTasks.v
PluginManagerInstall.v
PluginManagerFaults.v
StoreAdapter.v
StoreAdapterProps.v
RuntimeAdapter.v
RuntimeAdapterProps.v
ContainerPolicy.v
SupervisorHost.v
InstallRecord.v
Docker.v
SupervisorServer.v
SupervisorConfined.v
SupervisorServing.v
SupervisorTasks.v
PluginArchive.v
PluginRepository.v
PluginRepositoryProps.v
SnapshotStore.v
PreparedInstall.v
PreparedInstallProps.v
StagedInstall.v
PluginBuild.v
PluginBuildProps.v
BuildProxy.v
Concrete.v
Witnesses.v
CredentialWitnesses.v
StorageWitnesses.v
InstallWitnesses.v
RepositoryWitnesses.v
SupervisorWitnesses.v
