(* ===== verification/Prelude.v ===== *)
(** * AudioDown Core: a verification development

    AudioDown Core runs plugins that search and stream audio.  A plugin is an
    untrusted container without network access; the core asks it for content,
    performs its HTTP requests through a proxy, keeps the user's credentials for
    it, and installs it through a privileged supervisor.  This development models
    the Rust code under src/crates and proves what keeps the user safe: where
    requests may go, who may use which credential, what is stored and can be read
    back, what an installation leaves behind, and that the bounds hold.

    ** The parts and where they are

    Plugin contract.  Domain.v (audiodown-domain): identifiers, scopes, kinds.
    ContentContract.v and CredentialContract.v (audiodown-plugin-api): requests,
    results, manifests and their validators.

    Content.  Cursor.v, Dedup.v, Router.v (audiodown-content): aggregated search,
    discovery and categories over several platforms, fallback between plugins of
    a platform, cursors for the next page.  Plugin calls complete in any order.
    RouterFacts.v has the theorems.

    Egress.  Policy.v, HttpProxy.v, CredentialSecret.v, CookieJar.v,
    CredentialProxy.v (audiodown-network-proxy and secret.rs of
    audiodown-credential-vault): host patterns and address classes, one HTTP
    exchange with redirects, hooks and limits, temporary cookie jars, and the
    credential proxy that adds stored secrets.  Their theorems are in
    PolicyFacts.v, HttpFacts.v, CookieJarFacts.v, CookieJarProps.v,
    CredentialProxyFacts.v and CredentialProxyProps.v.

    Storage.  Crypto.v and Vault.v (crypto.rs and service.rs of
    audiodown-credential-vault), Database.v (the tables of migrations/),
    CredentialStore.v and PluginStore.v (audiodown-storage), SqliteVault.v (the
    vault on the database, proxy_adapters.rs).  CredentialStoreFacts.v,
    CredentialStoreProps.v, StorageOps.v, StorageHistory.v, GrantProps.v,
    SqliteVault.v and VaultProps.v have the theorems.

    Gateway.  ProxyGateway.v (proxy_gateway.rs of audiodown-server): the registry
    of runtime tokens, framing, wire messages, dispatch.  ProxyBackend.v
    (proxy_adapters.rs): the backend that loads the plugin, selects its
    credential and runs the exchange.  ProxyGatewayProps.v and
    ProxyBackendProps.v have the theorems; the last composes gateway, proxy,
    vault and database.

    Supervisor.  SupervisorProtocol.v (audiodown-supervisor-protocol): messages
    and validators.  Fs.v: the file system calls the supervisor uses.
    InstallOperation.v (install_operation.rs of audiodown-supervisor): the
    manager of install operations.  InstallOperationProps.v, InstallFiles.v and
    InstallRecovery.v have the theorems.  ContainerPolicy.v (policy.rs),
    InstallRecord.v (install_record.rs), Docker.v (docker.rs) and
    SupervisorServer.v (server.rs): the socket server, which authenticates a
    request and starts, stops, calls or removes the containers of a plugin, as
    programs over the calls of SupervisorHost.v (the Docker API, files, locks).
    SupervisorConfined.v has the rules of what it may do, SupervisorServing.v the
    proof that a connection keeps to them and SupervisorTasks.v the theorems.

    From a repository to the supervisor.  PluginArchive.v (archive.rs of
    audiodown-plugin-manager) unpacks an archive, PluginRepository.v (github.rs,
    validation.rs, package.rs) downloads and validates a repository,
    SnapshotStore.v (staging.rs, and inspecting in service.rs) keeps it as a
    snapshot and prepares an installation; PreparedInstall.v (prepared_install.rs
    and trusted_images.rs of audiodown-supervisor) is the supervisor's own check
    of what was prepared.  PluginRepositoryProps.v and PreparedInstallProps.v have
    the theorems on each side, StagedInstall.v those on both together.

    Builds.  PluginBuild.v (builder.rs and docker_build.rs of
    audiodown-supervisor): the policies of the build containers, the archives of
    the sources and of the output, the labels of the image, and the build with its
    guards and its clean-up as a program over the calls of [BuildCall].  BuildProxy.v
    (build_proxy.rs): the proxy through which a build reaches the npm registry, with
    its theorems; those on builds are in PluginBuildProps.v.

    Plugin manager.  PluginManager.v (service.rs of audiodown-plugin-manager):
    installing, starting, stopping, calling, configuring and removing plugins,
    the background task and what is done with operations left by an earlier run.
    Program.v has the programs it is written in, Redaction.v (audiodown-logging)
    the redaction of logs.  PluginManagerTasks.v, PluginManagerInstall.v and
    PluginManagerFaults.v have the theorems; the last composes the manager with
    the supervisor of InstallOperation.v.  StoreAdapter.v and RuntimeAdapter.v
    (plugin_manager_adapters.rs of audiodown-server) are the manager's store on
    the database and its runtime port, which gives out the proxy tokens; their
    theorems are in StoreAdapterProps.v and RuntimeAdapterProps.v.

    Shared.  This file has results, orders, sorting, lists and the notation;
    Text.v strings and bytes; Std.v addresses, UTF-8, lines and paths of the
    Standard Library of Rust, and regular expressions; Foreign.v the interfaces
    of crates; Stateful.v the monad of stateful fallible code.
    Concrete.v instantiates every interface by small executable functions
    with their laws, and the files ending in Witnesses apply each theorem at such
    an instance.

    ** How the code is modelled

    A fallible function returns [result E A], [?] is the bind.  Stateful code is
    a function [act S E A] from a state to a result and a state ([M], [Jar] and
    [Svc] in the proxy are the same with their own state), so an error keeps the
    effects that came before it.  Integers are [Z] with their width written where
    it matters (revisions up to 2^63, saturating counters, byte lengths).
    Strings are byte strings, maps [gmap], a [BTreeMap] is read in key order and
    a [HashMap] in an arbitrary order ([hash_iter]).

    The crates the program calls (url, reqwest, cookie_store, base64, serde_json,
    uuid, chrono, AES-GCM, SHA-256 where no digest is computed) are type classes:
    operations with laws that state their documented behaviour.  Concrete
    instances show that the laws can hold together.

    Effects from outside are part of the state and arbitrary: the transport,
    resolver and clock (class [World]), the vault and grants of the proxy
    ([CredentialEnv]), the database faults ([Store]: a schedule; a statement
    fails when it says so and a transaction takes effect as a whole or not at
    all), the disk faults of Fs.v, the build adapter.  Other tasks run between
    any two steps that touch shared state: jars ([core_jar_tasks]), the database
    ([core_others]), in the supervisor the critical sections of the mutex as
    steps ([critical]), and in the plugin manager every single call: there an
    operation is a tree of calls and answers ([prog]), [wp] runs it against every
    answer a protocol allows, and [pool_step] interleaves any number of them.  A mutex that a panic could poison carries a flag.

    ** Loops and fuel

    The redirect loop [http_loop] takes fuel; six turns are enough for any run,
    because the code counts redirects up to five ([http_loop_terminates]), and
    [execute_with_hook] gives six.  The scan of a plugin's tree takes one
    turn per entry of the disk and the collection of its files one level per name
    of the longest path, which is enough ([tree_scans_end]).  The polling loops of an installation
    ([wait_until_built], [recover_ambiguous_begin]) take [install_fuel], the
    timeout divided by the poll interval plus two turns: every turn sleeps for
    the interval, so the deadline comes first ([install_ends]).  The scan for the
    end of an archive takes a turn per byte although each turn passes a block
    ([tar_length_agree]: more fuel gives the same); waiting for a build takes 3001
    turns of 100 ms, by then the timer of five minutes has fired; reading a header
    takes a turn per byte up to its limit; a direction of a tunnel may be dropped
    at any time and takes any number of turns.  All other recursion is structural.

    ** What the theorems show

    Egress: a URL the policy admits is https, to an allowed host, pinned to
    global addresses; redirects stay on host and addresses; an exchange sends at
    most six requests within the limits, and its answer is filtered.
    Credentials: a stored secret is only sent on a hop that declaration,
    credential and grant authorize, never comes back in the answer, and across
    the whole backend call belongs to the record in the database, going to targets
    of the plugin's own manifest (the cache of services is keyed by its hash, so a
    parameter [published] says which manifest a hash stands for).  Jars: bounds,
    isolation by binding, exclusive commits.  Storage: what was
    stored can be read back under every operation and fault (for times in the
    years 0 to 9999, which the code does not check), round trips,
    compare-and-swap, revisions, grants.  Encryption: round trip and injective associated data.  Gateway: the
    registry refines a map from plugins to their current token, frames, answers
    within the limit, only authenticated requests reach the backend.  Content:
    independence of completion order, soundness, cursors that can be continued.
    Supervisor: bounds on operations under every interleaving, what a successful
    finalize has installed, recovery from the record files after a crash; every
    connection of the server keeps to the rules whatever Docker answers, and no
    request is accepted twice.
    Repositories: unpacking stays inside its destination, writes exactly the
    files of the archive within the limits, and cleans up after a failure; what a
    validated repository satisfies; the hash of the sources determines them; the
    supervisor's checks of packages and hashes agree with the core's; what it
    accepts is what was asked for, and what the core has validated and staged is
    accepted.  The two checks of wildcard hosts differ, and how.  Builds: a build
    keeps to the rules of what it creates, starts and commits and always cleans up;
    one build works at a time (checking what was prepared comes before the guards
    and does not count); the output that becomes an image is safe, and within the
    limit how it is read does not depend on the chunks it comes in; the build proxy
    connects to
    global addresses of the registry only and keeps to its byte limits under every
    interleaving; its address filter and the plugin proxy's differ on four blocks.
    Plugin manager: under every interleaving of its operations a plugin is
    managed by one of them at a time and not removed during a call, and its
    runtime is stopped during a call only by the rollback of a failed start;
    an installation keeps to the order of calls that is safe and ends; two ways
    in which a failure leaves the system in a state the code does not intend;
    what a successful installation has left in the database; the token registry
    and the runtimes stay in step under every interleaving.

    ** Not modelled

    Sockets and processes (the accept loops, main files), HTTP routes (app.rs),
    audit log calls, permissions of files, symbolic links and special files (a
    disk of Fs.v has directories and regular files only, so the refusals of links
    in staging.rs, validation.rs, prepared_install.rs and docker_build.rs have
    nothing to refuse), fsync ordering (what a completed call wrote survives), the web interface and the plugin SDK
    (not Rust).  A task that is dropped between two calls (a cancelled request) is not
    modelled.  Zeroizing of secrets and serde derives have no counterpart: the
    wire formats are interfaces. *)

From Stdlib Require Export Ascii.
From stdpp Require Export base option strings gmap numbers sorting sets list.
Open Scope Z_scope.

(** ** Results

    Rust's [Result<A, E>]; the error type comes first so that [result E] is a
    monad and the [?] operator is the bind [x ← e; k]. *)

Inductive result (E A : Type) : Type :=
| Ok (a : A)
| Err (e : E).
Global Arguments Ok {_ _} _.
Global Arguments Err {_ _} _.

Global Instance result_ret {E} : MRet (result E) := λ A a, Ok a.
Global Instance result_bind {E} : MBind (result E) := λ A B f r,
  match r with Ok a => f a | Err e => Err e end.
Global Instance result_fmap {E} : FMap (result E) := λ A B f r,
  match r with Ok a => Ok (f a) | Err e => Err e end.
Global Instance result_eq_dec {E A} `{EqDecision E, EqDecision A} :
  EqDecision (result E A).
Proof. solve_decision. Defined.

(** [Option::ok_or], [Result::map_err], [Result::ok], [Result::is_ok]. *)
Definition ok_or {E A} (o : option A) (e : E) : result E A :=
  match o with Some a => Ok a | None => Err e end.

Definition map_err {E F A} (f : E → F) (r : result E A) : result F A :=
  match r with Ok a => Ok a | Err e => Err (f e) end.

(** [Option::map(f).transpose()] *)
Definition transpose_map {E A B} (f : A → result E B) (o : option A) : result E (option B) :=
  match o with
  | Some a => b ← f a; Ok (Some b)
  | None => Ok None
  end.

Definition to_option {E A} (r : result E A) : option A :=
  match r with Ok a => Some a | Err _ => None end.

Definition is_ok {E A} (r : result E A) : bool :=
  match r with Ok _ => true | Err _ => false end.

(** A loop [for x in l { f(x)?; }]. *)
Fixpoint for_each {E A} (f : A → result E unit) (l : list A) : result E unit :=
  match l with
  | [] => Ok tt
  | x :: l => f x;; for_each f l
  end.

(** [Option::is_none_or] and [Option::is_some_and]. *)
Definition is_none_or {A} (p : A → bool) (o : option A) : bool :=
  match o with None => true | Some a => p a end.
Definition is_some_and {A} (p : A → bool) (o : option A) : bool :=
  match o with None => false | Some a => p a end.
Definition is_some {A} (o : option A) : bool :=
  match o with None => false | Some _ => true end.
Definition is_none {A} (o : option A) : bool := negb (is_some o).

(** [slice::contains] and [==] on types with decidable equality. *)
Definition eqb {A} `{EqDecision A} (a b : A) : bool := bool_decide (a = b).
Definition list_contains {A} `{EqDecision A} (l : list A) (a : A) : bool :=
  existsb (eqb a) l.

(** Lengths are compared at [Z], so that the byte limits of the code are
    ordinary binary constants. *)
Definition zlen {A} (l : list A) : Z := Z.of_nat (length l).

(** The sum of [f] over a list. *)
Fixpoint sum_list_with_Z {A} (f : A → Z) (l : list A) : Z :=
  match l with
  | [] => 0
  | x :: l => f x + sum_list_with_Z f l
  end.

(** [usize::checked_add] on a 64-bit target. *)
Definition usize_max : Z := 2 ^ 64 - 1.
Definition checked_add (a b : Z) : option Z :=
  if a + b <=? usize_max then Some (a + b) else None.

(** ** Comparators and stable sorting

    [slice::sort_by] is a stable sort by a comparator; [Ordering::then_with]
    chains comparators.  Insertion sort is the executable reference: a stable
    sort's result is unique, see [sort_by_unique]. *)

Definition then_with (c1 c2 : comparison) : comparison :=
  match c1 with Eq => c2 | c => c end.

Definition cmp_on {A B} (f : A → B) (cmp : B → B → comparison) (x y : A) : comparison :=
  cmp (f x) (f y).

Definition cmp_rev {A} (cmp : A → A → comparison) (x y : A) : comparison := cmp y x.
Definition cmp_then {A} (c1 c2 : A → A → comparison) (x y : A) : comparison :=
  then_with (c1 x y) (c2 x y).

Definition bool_cmp (a b : bool) : comparison :=
  match a, b with
  | false, true => Lt
  | true, false => Gt
  | _, _ => Eq
  end.

Definition cmp_leb {A} (cmp : A → A → comparison) (x y : A) : bool :=
  match cmp x y with Gt => false | _ => true end.

Fixpoint insert_by {A} (cmp : A → A → comparison) (x : A) (l : list A) : list A :=
  match l with
  | [] => [x]
  | y :: l' => if cmp_leb cmp x y then x :: l else y :: insert_by cmp x l'
  end.

Fixpoint sort_by {A} (cmp : A → A → comparison) (l : list A) : list A :=
  match l with
  | [] => []
  | x :: l => insert_by cmp x (sort_by cmp l)
  end.

(** [Vec::dedup]: drop consecutive equal elements. *)
Fixpoint dedup {A} `{EqDecision A} (l : list A) : list A :=
  match l with
  | [] => []
  | x :: l' =>
      match l' with
      | [] => [x]
      | y :: _ => if decide (x = y) then dedup l' else x :: dedup l'
      end
  end.

(** The combinators are told apart by name, not by unfolding. *)
Global Typeclasses Opaque cmp_on cmp_rev cmp_then bool_cmp.

(** A comparator that orders a type totally up to its own equivalence. *)
Class CmpPreorder {A} (cmp : A → A → comparison) : Prop := {
  cmp_flip x y : cmp y x = CompOpp (cmp x y);
  cmp_le_trans x y z : cmp x y ≠ Gt → cmp y z ≠ Gt → cmp x z ≠ Gt;
}.

Global Arguments cmp_flip {_} _ {_}.
Global Arguments cmp_le_trans {_} _ {_}.

(** A comparator whose [Eq] is equality. *)
Class CmpStrict {A} (cmp : A → A → comparison) : Prop :=
  cmp_eq x y : cmp x y = Eq → x = y.

Global Arguments cmp_eq {_} _ {_}.

Definition cmp_le {A} (cmp : A → A → comparison) (x y : A) : Prop := cmp x y ≠ Gt.
Definition cmp_lt {A} (cmp : A → A → comparison) (x y : A) : Prop := cmp x y = Lt.

(** ** Tactics *)

(** Split the equation of a monadic computation into the equations of its
    steps, refuting the branches that cannot produce the value. *)
Lemma bind_Ok {E A B} (r : result E A) (f : A → result E B) b :
  r ≫= f = Ok b ↔ ∃ a, r = Ok a ∧ f a = Ok b.
Proof. destruct r; simpl; naive_solver. Qed.

Lemma bind_Err {E A B} (r : result E A) (f : A → result E B) e :
  r ≫= f = Err e ↔ r = Err e ∨ ∃ a, r = Ok a ∧ f a = Err e.
Proof. destruct r; simpl; naive_solver. Qed.

Lemma ok_or_Ok {E A} (o : option A) (e : E) a : ok_or o e = Ok a ↔ o = Some a.
Proof. destruct o; simpl; naive_solver. Qed.

Lemma ok_or_Err {E A} (o : option A) (e e' : E) :
  ok_or o e = Err e' ↔ o = None ∧ e' = e.
Proof. destruct o; simpl; naive_solver. Qed.

Lemma map_err_Ok {E F A} (f : E → F) (r : result E A) a :
  map_err f r = Ok a ↔ r = Ok a.
Proof. destruct r; simpl; naive_solver. Qed.

Lemma map_err_Err {E F A} (f : E → F) (r : result E A) x :
  map_err f r = Err x ↔ ∃ e, r = Err e ∧ x = f e.
Proof. destruct r; simpl; naive_solver. Qed.

Ltac result_step :=
  match goal with
  | H : Ok _ = Ok _ |- _ => injection H as H; subst
  | H : Err _ = Err _ |- _ => injection H as H; subst
  | H : Ok _ = Err _ |- _ => discriminate H
  | H : Err _ = Ok _ |- _ => discriminate H
  | H : mret _ = _ |- _ => unfold mret, result_ret in H
  | H : _ ≫= _ = Ok _ |- _ => apply bind_Ok in H as (? & ? & H)
  | H : ok_or _ _ = Ok _ |- _ => apply ok_or_Ok in H
  | H : ok_or _ _ = Err _ |- _ => apply ok_or_Err in H as [? ?]
  | H : map_err _ _ = Ok _ |- _ => apply map_err_Ok in H
  | H : map_err _ _ = Err _ |- _ => apply map_err_Err in H as (? & ? & ?)
  | H : (if ?b then Err _ else _) = Ok _ |- _ =>
      let Hb := fresh "Hguard" in destruct b eqn:Hb; [discriminate H|]
  | H : (if ?b then _ else Err _) = Ok _ |- _ =>
      let Hb := fresh "Hguard" in destruct b eqn:Hb; [|discriminate H]
  | H : (match ?o with Some _ => _ | None => Err _ end) = Ok _ |- _ =>
      let Ho := fresh "Hopt" in destruct o eqn:Ho; [|discriminate H]
  | u : unit |- _ => destruct u
  end.
Ltac simplify_result := repeat (result_step; simplify_eq/=).

(** Turn boolean tests in the context into propositions. *)
Ltac bool_prop :=
  repeat match goal with
  | H : _ && _ = true |- _ => apply andb_prop in H as [? ?]
  | H : _ || _ = false |- _ => apply orb_false_elim in H as [? ?]
  | H : negb _ = true |- _ => apply negb_true_iff in H
  | H : negb _ = false |- _ => apply negb_false_iff in H
  | H : bool_decide _ = true |- _ => apply bool_decide_eq_true in H
  | H : bool_decide _ = false |- _ => apply bool_decide_eq_false in H
  | H : eqb _ _ = true |- _ => apply bool_decide_eq_true in H
  | H : eqb _ _ = false |- _ => apply bool_decide_eq_false in H
  | H : (_ <=? _) = true |- _ => apply Z.leb_le in H
  | H : (_ <=? _) = false |- _ => apply Z.leb_gt in H
  | H : (_ <? _) = true |- _ => apply Z.ltb_lt in H
  | H : (_ <? _) = false |- _ => apply Z.ltb_ge in H
  | H : (_ >? _) = true |- _ => rewrite Z.gtb_ltb in H; apply Z.ltb_lt in H
  | H : (_ >? _) = false |- _ => rewrite Z.gtb_ltb in H; apply Z.ltb_ge in H
  | H : (_ =? _) = true |- _ => apply Z.eqb_eq in H
  | H : (_ =? _) = false |- _ => apply Z.eqb_neq in H
  end.

(** ** Lemmas on results and booleans *)

Lemma eqb_eq {A} `{EqDecision A} (a b : A) : eqb a b = true ↔ a = b.
Proof. apply bool_decide_eq_true. Qed.

Lemma eqb_refl {A} `{EqDecision A} (a : A) : eqb a a = true.
Proof. by apply eqb_eq. Qed.

Lemma eqb_sym {A} `{EqDecision A} (a b : A) : eqb a b = eqb b a.
Proof. apply bool_decide_ext. naive_solver. Qed.

Lemma list_contains_elem {A} `{EqDecision A} (l : list A) a :
  list_contains l a = true ↔ a ∈ l.
Proof.
  unfold list_contains. rewrite existsb_exists. setoid_rewrite eqb_eq.
  rewrite list_elem_of_In. naive_solver.
Qed.

Lemma list_contains_not_elem {A} `{EqDecision A} (l : list A) a :
  list_contains l a = false ↔ a ∉ l.
Proof. rewrite <- list_contains_elem. by destruct (list_contains l a). Qed.

Lemma for_each_Ok {E A} (f : A → result E unit) l :
  for_each f l = Ok tt ↔ Forall (λ x, f x = Ok tt) l.
Proof.
  induction l as [|x l IH]; simpl.
  - split; [constructor | done].
  - rewrite bind_Ok, Forall_cons, <- IH. split; [intros ([] & ? & ?)|exists tt]; naive_solver.
Qed.

(** The loop stops at the first failing element. *)
Lemma for_each_Err {E A} (f : A → result E unit) l e :
  for_each f l = Err e ↔
  ∃ l1 x l2, l = l1 ++ x :: l2 ∧ Forall (λ y, f y = Ok tt) l1 ∧ f x = Err e.
Proof.
  induction l as [|x l IH]; simpl.
  - split; [done|]. intros ([|? ?] & ? & ? & ? & _); simplify_eq/=.
  - rewrite bind_Err. setoid_rewrite IH. split.
    + intros [Hx | ([] & Hx & l1 & y & l2 & -> & ? & ?)].
      * by exists [], x, l.
      * exists (x :: l1), y, l2. by repeat constructor.
    + intros ([|z l1] & y & l2 & Heq & Hall & Hy); simplify_eq/=; [by left|].
      apply Forall_cons in Hall as [? ?]. right. exists tt. naive_solver.
Qed.

Lemma mapM_Ok {E A B} (f : A → result E B) l k :
  mapM f l = Ok k ↔ Forall2 (λ x y, f x = Ok y) l k.
Proof.
  revert k. induction l as [|x l IH]; intros k; simpl.
  - unfold mret, result_ret. split; intros H.
    + injection H as <-. constructor.
    + by inversion H.
  - rewrite bind_Ok. setoid_rewrite bind_Ok. split.
    + intros (y & Hy & k' & Hk & Hret). injection Hret as <-.
      constructor; [done|]. by apply IH.
    + inversion 1 as [|? y ? k' Hy Hk]; subst.
      exists y. split; [done|]. exists k'. split; [by apply IH|done].
Qed.

Lemma mapM_Err {E A B} (f : A → result E B) l e :
  mapM f l = Err e → ∃ x, x ∈ l ∧ f x = Err e.
Proof.
  induction l as [|x l IH]; simpl; [done|].
  rewrite bind_Err. setoid_rewrite bind_Err.
  intros [?|(y & ? & [Hl|(k & _ & Hk)])]; [| |done].
  - exists x. split; [left|done].
  - destruct (IH Hl) as (z & ? & ?). exists z. split; [by right|done].
Qed.

Lemma checked_add_Some a b c :
  checked_add a b = Some c ↔ c = a + b ∧ a + b ≤ usize_max.
Proof.
  unfold checked_add. destruct (a + b <=? usize_max) eqn:E; bool_prop.
  - split; [intros [= <-]|intros [-> ?]]; auto with lia.
  - split; [done|lia].
Qed.

(** ** Lemmas on comparators *)

Section comparators.
Context {A : Type}.
Implicit Types cmp : A → A → comparison.

Lemma cmp_refl cmp `{!CmpPreorder cmp} x : cmp x x = Eq.
Proof. pose proof (cmp_flip cmp x x) as H. by destruct (cmp x x). Qed.

Lemma cmp_flip_Gt cmp `{!CmpPreorder cmp} x y : cmp x y = Gt ↔ cmp y x = Lt.
Proof. rewrite (cmp_flip cmp x y). by destruct (cmp x y). Qed.

Lemma cmp_eq_trans cmp `{!CmpPreorder cmp} x y z :
  cmp x y = Eq → cmp y z = Eq → cmp x z = Eq.
Proof.
  intros Hxy Hyz.
  assert (cmp x z ≠ Gt) by (eapply (cmp_le_trans cmp x y z); congruence).
  assert (cmp z x ≠ Gt).
  { apply (cmp_le_trans cmp z y x); rewrite (cmp_flip cmp y z) || rewrite (cmp_flip cmp x y);
      [by rewrite Hyz|by rewrite Hxy]. }
  rewrite (cmp_flip cmp x z) in *. by destruct (cmp x z).
Qed.

Lemma cmp_lt_le_trans cmp `{!CmpPreorder cmp} x y z :
  cmp x y = Lt → cmp y z ≠ Gt → cmp x z = Lt.
Proof.
  intros Hxy Hyz.
  assert (cmp x z ≠ Gt) by (eapply (cmp_le_trans cmp x y z); congruence).
  destruct (cmp x z) eqn:E; [exfalso|done..].
  assert (cmp z x = Eq) as Hzx by (by rewrite (cmp_flip cmp x z), E).
  assert (cmp y x ≠ Gt) as Hyx by (apply (cmp_le_trans cmp y z x); congruence).
  rewrite (cmp_flip cmp x y), Hxy in Hyx. done.
Qed.

Lemma cmp_le_lt_trans cmp `{!CmpPreorder cmp} x y z :
  cmp x y ≠ Gt → cmp y z = Lt → cmp x z = Lt.
Proof.
  intros Hxy Hyz. apply cmp_flip_Gt; [done|].
  destruct (cmp z x) eqn:E; [exfalso|exfalso|done].
  all: assert (cmp z y ≠ Gt) as Hzy by (apply (cmp_le_trans cmp z x y); congruence).
  all: by rewrite (cmp_flip cmp y z), Hyz in Hzy.
Qed.

Global Instance cmp_le_preorder cmp `{!CmpPreorder cmp} : PreOrder (cmp_le cmp).
Proof.
  split.
  - intros x. unfold cmp_le. by rewrite cmp_refl.
  - intros x y z. by apply (cmp_le_trans cmp).
Qed.

Global Instance cmp_le_total cmp `{!CmpPreorder cmp} : Total (cmp_le cmp).
Proof.
  intros x y. unfold cmp_le. rewrite (cmp_flip cmp x y).
  destruct (cmp x y); naive_solver.
Qed.

Global Instance cmp_lt_trans cmp `{!CmpPreorder cmp} : Transitive (cmp_lt cmp).
Proof. intros x y z Hxy Hyz. eapply cmp_lt_le_trans; [done..|]. by rewrite Hyz. Qed.

Lemma cmp_leb_le cmp x y : cmp_leb cmp x y = true ↔ cmp_le cmp x y.
Proof. unfold cmp_leb, cmp_le. destruct (cmp x y); naive_solver. Qed.

Global Instance then_with_preorder (c1 c2 : A → A → comparison)
  `{!CmpPreorder c1, !CmpPreorder c2} :
  CmpPreorder (cmp_then c1 c2).
Proof.
  split; unfold cmp_then.
  - intros x y. rewrite (cmp_flip c1 x y), (cmp_flip c2 x y).
    by destruct (c1 x y).
  - intros x y z Hxy Hyz.
    destruct (c1 x y) eqn:E1, (c1 y z) eqn:E2; simpl in *; try done.
    + rewrite (cmp_eq_trans c1 x y z) by done. simpl.
      by apply (cmp_le_trans c2 x y z).
    + by rewrite (cmp_le_lt_trans c1 x y z) by congruence.
    + by rewrite (cmp_lt_le_trans c1 x y z) by congruence.
    + by rewrite (cmp_lt_le_trans c1 x y z) by congruence.
Qed.
End comparators.

Global Instance cmp_on_preorder {A B} (f : A → B) cmp `{!CmpPreorder cmp} :
  CmpPreorder (cmp_on f cmp).
Proof.
  split; unfold cmp_on; intros.
  - by apply (cmp_flip cmp).
  - by eapply (cmp_le_trans cmp).
Qed.

Global Instance cmp_rev_preorder {A} (cmp : A → A → comparison) `{!CmpPreorder cmp} :
  CmpPreorder (cmp_rev cmp).
Proof.
  split; unfold cmp_rev; intros.
  - by apply (cmp_flip cmp).
  - by eapply (cmp_le_trans cmp).
Qed.

Global Instance bool_cmp_preorder : CmpPreorder bool_cmp.
Proof. split; [by intros [] []|by intros [] [] []]. Qed.

Global Instance Z_compare_preorder : CmpPreorder Z.compare.
Proof. split; [intros; apply Z.compare_antisym|]. intros ???. apply Z.le_trans. Qed.

Global Instance Z_compare_strict : CmpStrict Z.compare.
Proof. intros x y. apply Z.compare_eq. Qed.

Global Instance Nat_compare_preorder : CmpPreorder Nat.compare.
Proof.
  split; [intros; apply Nat.compare_antisym|].
  intros x y z. rewrite !Nat.compare_gt_iff. lia.
Qed.

Global Instance Nat_compare_strict : CmpStrict Nat.compare.
Proof. intros x y. apply Nat.compare_eq. Qed.

Global Instance string_compare_preorder : CmpPreorder String.compare.
Proof.
  split.
  - intros x y. apply String.compare_antisym.
  - intros x y z Hxy Hyz.
    assert (∀ a b, String.compare a b ≠ Gt ↔ String.le a b) as Hle.
    { intros a b. unfold String.le, String.leb.
      destruct (String.compare a b); naive_solver. }
    rewrite Hle in *. by etrans.
Qed.

Global Instance string_compare_strict : CmpStrict String.compare.
Proof. intros x y. apply String.compare_eq_iff. Qed.

(** ** Lemmas on sorting *)

Section sorting.
Context {A : Type} (cmp : A → A → comparison).
Implicit Types l : list A.

Lemma insert_by_perm x l : insert_by cmp x l ≡ₚ x :: l.
Proof.
  induction l as [|y l IH]; simpl; [done|].
  destruct (cmp_leb cmp x y); [done|]. rewrite IH. apply Permutation_swap.
Qed.

Lemma sort_by_perm l : sort_by cmp l ≡ₚ l.
Proof. induction l as [|x l IH]; simpl; [done|]. by rewrite insert_by_perm, IH. Qed.

Lemma elem_of_sort_by x l : x ∈ sort_by cmp l ↔ x ∈ l.
Proof. by rewrite sort_by_perm. Qed.

Lemma length_sort_by l : length (sort_by cmp l) = length l.
Proof. by rewrite sort_by_perm. Qed.

Context `{!CmpPreorder cmp}.

Lemma insert_by_sorted x l :
  StronglySorted (cmp_le cmp) l → StronglySorted (cmp_le cmp) (insert_by cmp x l).
Proof.
  induction 1 as [|y l Hl IH Hy]; simpl; [repeat constructor|].
  destruct (cmp_leb cmp x y) eqn:E.
  - apply cmp_leb_le in E. constructor; [by constructor|].
    constructor; [done|]. eapply Forall_impl; [done|]. intros z Hyz. by etrans.
  - constructor; [done|]. rewrite insert_by_perm. constructor; [|done].
    destruct (total (cmp_le cmp) x y) as [Hle|Hle]; [|done].
    apply cmp_leb_le in Hle. congruence.
Qed.

Lemma sort_by_sorted l : StronglySorted (cmp_le cmp) (sort_by cmp l).
Proof. induction l; simpl; [constructor|by apply insert_by_sorted]. Qed.

(** Stability: the elements equivalent to [x] keep their relative order. *)
Definition equiv_to (x y : A) : bool :=
  match cmp x y with Eq => true | _ => false end.

Lemma insert_by_stable x y l :
  List.filter (equiv_to x) (insert_by cmp y l) =
  List.filter (equiv_to x) (y :: l).
Proof.
  induction l as [|z l IH]; simpl; [done|].
  destruct (cmp_leb cmp y z) eqn:E; [done|].
  simpl. rewrite IH. simpl.
  destruct (equiv_to x y) eqn:Ey, (equiv_to x z) eqn:Ez; try done.
  exfalso. unfold equiv_to, cmp_leb in *.
  destruct (cmp x y) eqn:Hy, (cmp x z) eqn:Hz; try done.
  rewrite (cmp_eq_trans cmp y x z) in E; [done| |done].
  by rewrite (cmp_flip cmp x y), Hy.
Qed.

Lemma sort_by_stable x l :
  List.filter (equiv_to x) (sort_by cmp l) = List.filter (equiv_to x) l.
Proof.
  induction l as [|y l IH]; simpl; [done|].
  rewrite insert_by_stable. simpl. by rewrite IH.
Qed.

Lemma equiv_to_refl x : equiv_to x x = true.
Proof. unfold equiv_to. by rewrite cmp_refl. Qed.

Lemma filter_equiv_elem l1 l2 x :
  (∀ z, List.filter (equiv_to z) l1 = List.filter (equiv_to z) l2) → x ∈ l1 → x ∈ l2.
Proof.
  intros Heq Hx. apply list_elem_of_In.
  apply (filter_In (equiv_to x)). rewrite <- Heq.
  apply filter_In. split; [by apply list_elem_of_In|apply equiv_to_refl].
Qed.

(** A sorted list is determined by the order of its equivalence classes. *)
Lemma sorted_classes_unique l1 l2 :
  StronglySorted (cmp_le cmp) l1 → StronglySorted (cmp_le cmp) l2 →
  (∀ x, List.filter (equiv_to x) l1 = List.filter (equiv_to x) l2) → l1 = l2.
Proof.
  intros H1. revert l2. induction H1 as [|x l1 H1 IH Hx]; intros l2 H2 Heq.
  - destruct l2 as [|y l2]; [done|].
    assert (y ∈ []) as ?%elem_of_nil; [|done].
    apply (filter_equiv_elem (y :: l2) [] y (λ z, eq_sym (Heq z))). left.
  - destruct H2 as [|y l2 H2 Hy].
    { assert (x ∈ []) as ?%elem_of_nil; [|done].
      apply (filter_equiv_elem _ _ x Heq). left. }
    assert (cmp_le cmp x y) as Hxy.
    { assert (y ∈ x :: l1) as [->|Hin]%elem_of_cons; [|done|].
      - apply (filter_equiv_elem (y :: l2) _ y (λ z, eq_sym (Heq z))). left.
      - by eapply Forall_forall in Hx. }
    assert (cmp_le cmp y x) as Hyx.
    { assert (x ∈ y :: l2) as [->|Hin]%elem_of_cons; [|done|].
      - apply (filter_equiv_elem _ _ x Heq). left.
      - by eapply Forall_forall in Hy. }
    assert (equiv_to x y = true) as Exy.
    { unfold equiv_to, cmp_le in *. rewrite (cmp_flip cmp x y) in Hyx.
      by destruct (cmp x y). }
    pose proof (Heq x) as Hh. simpl in Hh.
    rewrite equiv_to_refl, Exy in Hh. injection Hh as <- _.
    f_equal. apply IH; [done|]. intros z. specialize (Heq z). simpl in Heq.
    destruct (equiv_to z x); by simplify_eq.
Qed.

Lemma sort_by_unique l l' :
  StronglySorted (cmp_le cmp) l' →
  (∀ x, List.filter (equiv_to x) l' = List.filter (equiv_to x) l) →
  l' = sort_by cmp l.
Proof.
  intros Hs Heq. apply sorted_classes_unique; [done|apply sort_by_sorted|].
  intros x. by rewrite sort_by_stable.
Qed.

Lemma sort_by_id l : StronglySorted (cmp_le cmp) l → sort_by cmp l = l.
Proof. intros. symmetry. by apply sort_by_unique. Qed.
End sorting.

(** With a strict comparator, sorting then removing consecutive duplicates
    leaves a strictly increasing list of the same elements. *)
Section sort_dedup.
Context {A : Type} `{EqDecision A}.

Lemma elem_of_dedup (l : list A) x : x ∈ dedup l ↔ x ∈ l.
Proof.
  induction l as [|y [|z l] IH]; simpl; [done..|].
  simpl in IH. destruct (decide (y = z)) as [->|Hne].
  - rewrite IH. set_solver.
  - set_solver.
Qed.

Context (cmp : A → A → comparison) `{!CmpPreorder cmp, !CmpStrict cmp}.

Lemma dedup_cons2 (x y : A) l :
  dedup (x :: y :: l) = if decide (x = y) then dedup (y :: l) else x :: dedup (y :: l).
Proof using Type. done. Qed.

Lemma dedup_strict l :
  StronglySorted (cmp_le cmp) l → StronglySorted (cmp_lt cmp) (dedup l).
Proof.
  induction 1 as [|x l Hl IH Hx]; [constructor|].
  destruct l as [|y l]; [repeat constructor|].
  rewrite dedup_cons2. destruct (decide (x = y)) as [->|Hne]; [done|].
  constructor; [done|]. apply Forall_forall. intros z Hz.
  rewrite elem_of_dedup in Hz.
  assert (cmp_lt cmp x y) as Hlt.
  { apply Forall_cons in Hx as [Hxy _]. unfold cmp_lt, cmp_le in *.
    destruct (cmp x y) eqn:E; [|done..]. by apply (cmp_eq cmp) in E. }
  apply elem_of_cons in Hz as [->|Hz]; [done|].
  eapply cmp_lt_le_trans; [done|exact Hlt|].
  inversion Hl as [|? ? _ Hy]; subst. by eapply Forall_forall in Hy.
Qed.

Lemma sort_dedup_strict l : StronglySorted (cmp_lt cmp) (dedup (sort_by cmp l)).
Proof. apply dedup_strict, sort_by_sorted; done. Qed.

Lemma elem_of_sort_dedup l x : x ∈ dedup (sort_by cmp l) ↔ x ∈ l.
Proof. by rewrite elem_of_dedup, elem_of_sort_by. Qed.

Lemma cmp_lt_sorted_NoDup l : StronglySorted (cmp_lt cmp) l → NoDup l.
Proof.
  induction 1 as [|x l Hl IH Hx]; constructor; [|done].
  intros Hin. eapply Forall_forall in Hx; [|done].
  unfold cmp_lt in Hx. by rewrite cmp_refl in Hx.
Qed.

(** Strictly sorted lists with the same elements are equal. *)
Lemma cmp_lt_sorted_unique l1 l2 :
  StronglySorted (cmp_lt cmp) l1 → StronglySorted (cmp_lt cmp) l2 →
  (∀ x, x ∈ l1 ↔ x ∈ l2) → l1 = l2.
Proof.
  intros H1. revert l2. induction H1 as [|x l1 H1 IH Hx]; intros l2 H2 Heq.
  - destruct l2 as [|y l2]; [done|]. specialize (Heq y). set_solver.
  - destruct H2 as [|y l2 H2 Hy]; [specialize (Heq x); set_solver|].
    rewrite Forall_forall in Hx, Hy.
    assert (x = y) as <-.
    { destruct (decide (x = y)) as [|Hne]; [done|].
      assert (x ∈ l2) as Hxl by (specialize (Heq x); set_solver).
      assert (y ∈ l1) as Hyl by (specialize (Heq y); set_solver).
      specialize (Hx y Hyl). specialize (Hy x Hxl). unfold cmp_lt in *.
      rewrite (cmp_flip cmp y x), Hy in Hx. done. }
    f_equal. apply IH; [done|]. intros z. split; intros Hz.
    + assert (z ∈ x :: l2) as Hz' by (apply Heq; by right).
      apply elem_of_cons in Hz' as [->|]; [|done].
      specialize (Hx x Hz). unfold cmp_lt in Hx. by rewrite cmp_refl in Hx.
    + assert (z ∈ x :: l1) as Hz' by (apply Heq; by right).
      apply elem_of_cons in Hz' as [->|]; [|done].
      specialize (Hy x Hz). unfold cmp_lt in Hy. by rewrite cmp_refl in Hy.
Qed.
End sort_dedup.

(** ** Concurrent collection

    [stream::iter(xs.enumerate()).map(f).buffer_unordered(n).collect()] yields
    the indexed results in the order in which they complete; the code sorts them
    by index afterwards ([sort_by_key]). *)

Definition enumerate {A} (l : list A) : list (nat * A) := imap pair l.
Definition sort_by_index {A} (l : list (nat * A)) : list (nat * A) :=
  sort_by (cmp_on fst Nat.compare) l.

Lemma enumerate_sorted {A} (l : list A) :
  StronglySorted (cmp_lt (cmp_on fst Nat.compare)) (enumerate l).
Proof.
  unfold enumerate.
  assert (∀ k, StronglySorted (cmp_lt (cmp_on fst Nat.compare))
                 (imap (λ i x, ((k + i)%nat, x)) l)) as H; [|apply (H 0%nat)].
  induction l as [|x l IH]; intros k; simpl; [constructor|].
  constructor.
  - specialize (IH (S k)). revert IH. unfold compose.
    assert (imap (λ i x, ((S k + i)%nat, x)) l = imap (λ i x, ((k + S i)%nat, x)) l) as ->; [|done].
    apply imap_ext. intros. f_equal. lia.
  - apply Forall_forall. intros [j y] Hin. unfold compose in Hin.
    apply elem_of_lookup_imap in Hin as (i & z & [= -> ->] & _).
    unfold cmp_lt, cmp_on. simpl. apply Nat.compare_lt_iff. lia.
Qed.

Lemma StronglySorted_lt_le {A} (cmp : A → A → comparison) l :
  StronglySorted (cmp_lt cmp) l → StronglySorted (cmp_le cmp) l.
Proof.
  induction 1 as [|x l Hl IH Hx]; constructor; [done|].
  eapply Forall_impl; [done|]. unfold cmp_lt, cmp_le. intros y ->. done.
Qed.

(** A list strictly sorted by a comparator is the sort of all its
    permutations. *)
Lemma sort_by_permutation {A} (cmp : A → A → comparison) `{!CmpPreorder cmp} l l' :
  StronglySorted (cmp_lt cmp) l → l' ≡ₚ l → sort_by cmp l' = l.
Proof.
  intros Hl Hp. symmetry. apply sort_by_unique; [done|by apply StronglySorted_lt_le|].
  intros x.
  assert (∀ k, StronglySorted (cmp_lt cmp) k → (length (List.filter (equiv_to cmp x) k) ≤ 1)%nat)
    as Hone.
  { clear -CmpPreorder0. intros k Hk.
    induction Hk as [|y k Hk IH Hy]; simpl; [lia|].
    destruct (equiv_to cmp x y) eqn:E; [|done]. simpl.
    destruct (List.filter (equiv_to cmp x) k) as [|z r] eqn:F; [simpl; lia|exfalso].
    assert (In z (List.filter (equiv_to cmp x) k)) as [Hz Ez]%filter_In by (rewrite F; by left).
    apply list_elem_of_In in Hz. eapply Forall_forall in Hy; [|done].
    unfold equiv_to, cmp_lt in *.
    destruct (cmp x y) eqn:E1, (cmp x z) eqn:E2; try done.
    rewrite (cmp_eq_trans cmp y x z) in Hy; [done| |done].
    by rewrite (cmp_flip cmp x y), E1. }
  assert (List.filter (equiv_to cmp x) l ≡ₚ List.filter (equiv_to cmp x) l') as Hf.
  { clear Hone Hl. induction Hp as [|y k k' _ IH|y z k|k1 k2 k3 _ IH1 _ IH2]; simpl; [done| | |].
    - destruct (equiv_to cmp x y); [by rewrite IH|done].
    - destruct (equiv_to cmp x y), (equiv_to cmp x z); try done. constructor.
    - by rewrite IH2. }
  specialize (Hone l Hl). revert Hf Hone.
  destruct (List.filter (equiv_to cmp x) l) as [|y [|z r]]; intros Hf Hone.
  - by apply Permutation_nil in Hf.
  - symmetry in Hf. by apply Permutation_singleton_r in Hf.
  - simpl in Hone. lia.
Qed.

(** The order of completion does not matter. *)
Lemma sort_by_index_completion {A} (l : list A) results :
  results ≡ₚ enumerate l → sort_by_index results = enumerate l.
Proof.
  apply (sort_by_permutation (cmp_on fst Nat.compare)), enumerate_sorted.
Qed.

Lemma enumerate_snd {A} (l : list A) : (enumerate l).*2 = l.
Proof.
  unfold enumerate. rewrite fmap_imap. induction l as [|x l IH]; simpl; [done|].
  f_equal. by rewrite <- IH at 2.
Qed.

Create HintDb audiodown discriminated.
#[export] Hint Resolve eqb_refl sort_by_sorted sort_dedup_strict : audiodown.
#[export] Hint Resolve -> list_contains_elem list_contains_not_elem eqb_eq : audiodown.
#[export] Hint Resolve <- list_contains_elem list_contains_not_elem eqb_eq : audiodown.
