(* ===== verification/Text.v ===== *)
(** * Rust strings as byte strings

    A Rust [&str] is a UTF-8 byte sequence; it is modelled by [string], one
    [ascii] per byte, so that [str::len] is [String.length] and [str::cmp] is
    the bytewise lexicographic [String.compare].  This file defines the string
    and slice operations of the standard library that the code uses, with the
    lemmas the components share.  The operations that see characters
    ([str::trim], [char::is_control]) work on the UTF-8 encodings of the
    characters concerned. *)

From S2P Require Import Prelude.

Declare Scope bytes_scope.
Delimit Scope bytes_scope with bytes.

Definition byte : Type := ascii.
Definition bytes (s : string) : list ascii := String.list_ascii_of_string s.
Definition str (l : list ascii) : string := String.string_of_list_ascii l.
Definition code (c : ascii) : Z := Z.of_N (N_of_ascii c).
Definition chr (n : Z) : ascii := ascii_of_N (Z.to_N n).

(** [str::len]. *)
Definition str_len (s : string) : Z := Z.of_nat (String.length s).
Definition str_is_empty (s : string) : bool :=
  match s with EmptyString => true | _ => false end.

(** ** [u8] classes *)

Definition in_range (lo hi : Z) (c : ascii) : bool := (lo <=? code c) && (code c <=? hi).
Definition is_ascii_lowercase : ascii → bool := in_range 97 122.
Definition is_ascii_uppercase : ascii → bool := in_range 65 90.
Definition is_ascii_digit : ascii → bool := in_range 48 57.
Definition is_ascii_byte (c : ascii) : bool := code c <=? 127.
Definition is_ascii_hexdigit (c : ascii) : bool :=
  is_ascii_digit c || in_range 97 102 c || in_range 65 70 c.

Definition str_all (p : ascii → bool) (s : string) : bool := forallb p (bytes s).
Definition str_is_ascii (s : string) : bool := str_all is_ascii_byte s.

Definition byte_to_lowercase (c : ascii) : ascii :=
  if is_ascii_uppercase c then chr (code c + 32) else c.
Definition to_ascii_lowercase (s : string) : string :=
  str (map byte_to_lowercase (bytes s)).
Definition eq_ignore_ascii_case (a b : string) : bool :=
  eqb (to_ascii_lowercase a) (to_ascii_lowercase b).

(** ** Slices *)

Fixpoint is_prefix (p l : list ascii) : bool :=
  match p, l with
  | [], _ => true
  | _, [] => false
  | x :: p, y :: l => eqb x y && is_prefix p l
  end.
Definition starts_with (s p : string) : bool := is_prefix (bytes p) (bytes s).
Definition ends_with (s p : string) : bool :=
  is_prefix (rev (bytes p)) (rev (bytes s)).
Definition strip_prefix (s p : string) : option string :=
  if starts_with s p then Some (str (drop (String.length p) (bytes s))) else None.
Definition str_contains (s : string) (c : ascii) : bool := list_contains (bytes s) c.

(** [slice::windows]: the contiguous sublists of length [n], for [n > 0]. *)
Fixpoint windows {A} (n : nat) (l : list A) : list (list A) :=
  match l with
  | [] => []
  | _ :: l' => if (n <=? length l)%nat then take n l :: windows n l' else []
  end.

(** [str::trim_end_matches(c)] and [str::trim_start_matches(c)]. *)
Fixpoint drop_while (p : ascii → bool) (l : list ascii) : list ascii :=
  match l with
  | [] => []
  | x :: l' => if p x then drop_while p l' else l
  end.
Definition trim_start_matches (c : ascii) (s : string) : string :=
  str (drop_while (eqb c) (bytes s)).
Definition trim_end_matches (c : ascii) (s : string) : string :=
  str (rev (drop_while (eqb c) (rev (bytes s)))).

(** ** [str::split] *)

Definition cons_head {A} (x : A) (ws : list (list A)) : list (list A) :=
  match ws with
  | [] => [[x]]
  | w :: ws => (x :: w) :: ws
  end.

Fixpoint split_bytes (c : ascii) (l : list ascii) : list (list ascii) :=
  match l with
  | [] => [[]]
  | x :: l => if eqb x c then [] :: split_bytes c l else cons_head x (split_bytes c l)
  end.
Definition split (c : ascii) (s : string) : list string :=
  map str (split_bytes c (bytes s)).

(** Splitting at a two-byte separator, leftmost first. *)
Fixpoint split2_bytes (a b : ascii) (l : list ascii) : list (list ascii) :=
  match l with
  | [] => [[]]
  | x :: l' =>
      match l' with
      | y :: l'' =>
          if eqb x a && eqb y b then [] :: split2_bytes a b l''
          else cons_head x (split2_bytes a b l')
      | [] => cons_head x (split2_bytes a b l')
      end
  end.
Definition split2 (a b : ascii) (s : string) : list string :=
  map str (split2_bytes a b (bytes s)).

(** [str::split_once(c)]. *)
Fixpoint split_once_bytes (c : ascii) (l : list ascii) : option (list ascii * list ascii) :=
  match l with
  | [] => None
  | x :: l =>
      if eqb x c then Some ([], l)
      else '(a, b) ← split_once_bytes c l; Some (x :: a, b)
  end.
Definition split_once (c : ascii) (s : string) : option (string * string) :=
  '(a, b) ← split_once_bytes c (bytes s); Some (str a, str b).
(** [str::rsplit_once(c)] *)
Definition rsplit_once (c : ascii) (s : string) : option (string * string) :=
  '(a, b) ← split_once_bytes c (rev (bytes s)); Some (str (rev b), str (rev a)).

Fixpoint join_bytes (c : ascii) (ws : list (list ascii)) : list ascii :=
  match ws with
  | [] => []
  | w :: ws' => match ws' with [] => w | _ => w ++ c :: join_bytes c ws' end
  end.

(** ** Characters: [str::trim] and [char::is_control] *)

(** The UTF-8 encodings of the characters with the Unicode property
    White_Space. *)
Definition whitespace_utf8 : list (list ascii) :=
  map (map chr)
    ([[9]; [10]; [11]; [12]; [13]; [32]; [194; 133]; [194; 160]; [225; 154; 128];
      [226; 128; 128]; [226; 128; 129]; [226; 128; 130]; [226; 128; 131];
      [226; 128; 132]; [226; 128; 133]; [226; 128; 134]; [226; 128; 135];
      [226; 128; 136]; [226; 128; 137]; [226; 128; 138]; [226; 128; 168];
      [226; 128; 169]; [226; 128; 175]; [226; 129; 159]; [227; 128; 128]]).

(** Drop one of the sequences of [seqs] from the front of [l]. *)
Definition strip_one (seqs : list (list ascii)) (l : list ascii) : option (list ascii) :=
  match List.find (λ w, is_prefix w l) seqs with
  | Some w => Some (drop (length w) l)
  | None => None
  end.

Fixpoint strip_all (seqs : list (list ascii)) (fuel : nat) (l : list ascii) : list ascii :=
  match fuel with
  | O => l
  | S fuel => match strip_one seqs l with
              | Some l' => strip_all seqs fuel l'
              | None => l
              end
  end.

Definition trim_start_bytes (l : list ascii) : list ascii :=
  strip_all whitespace_utf8 (length l) l.
Definition trim_end_bytes (l : list ascii) : list ascii :=
  rev (strip_all (map (@rev ascii) whitespace_utf8) (length l) (rev l)).
Definition trim_bytes (l : list ascii) : list ascii := trim_end_bytes (trim_start_bytes l).
Definition trim (s : string) : string := str (trim_bytes (bytes s)).

(** Some character of the string is in the category Cc: U+0000..U+001F, U+007F
    and U+0080..U+009F, the last encoded [C2 80]..[C2 9F]. *)
Fixpoint any_control (l : list ascii) : bool :=
  match l with
  | [] => false
  | x :: l' =>
      (code x <=? 31) || (code x =? 127)
      || ((code x =? 194) && match l' with y :: _ => in_range 128 159 y | [] => false end)
      || any_control l'
  end.

(** ** [to_be_bytes]: the last [n] bytes of a number, highest first *)

Fixpoint be_bytes (n : nat) (z : Z) : list ascii :=
  match n with
  | O => []
  | S n => be_bytes n (z / 256) ++ [chr (z mod 256)]
  end.

(** ** [str::parse::<u64>] *)

Fixpoint parse_digits (acc : Z) (l : list ascii) : option Z :=
  match l with
  | [] => Some acc
  | x :: l =>
      if is_ascii_digit x
      then let acc := acc * 10 + (code x - 48) in
           if acc <=? 2 ^ 64 - 1 then parse_digits acc l else None
      else None
  end.
Definition parse_u64 (s : string) : option Z :=
  match bytes s with
  | [] => None
  | x :: l => if (code x =? 43) && negb (eqb l []) then parse_digits 0 l
              else parse_digits 0 (x :: l)
  end.

(** ** Lemmas *)

Lemma str_bytes s : str (bytes s) = s.
Proof. apply String.string_of_list_ascii_of_string. Qed.
Lemma bytes_str l : bytes (str l) = l.
Proof. apply String.list_ascii_of_string_of_list_ascii. Qed.

Global Instance bytes_inj : Inj (=) (=) bytes.
Proof. intros a b H. by rewrite <- (str_bytes a), H, str_bytes. Qed.
Global Instance str_inj : Inj (=) (=) str.
Proof. intros a b H. by rewrite <- (bytes_str a), H, bytes_str. Qed.

Lemma bytes_app a b : bytes (a +:+ b) = bytes a ++ bytes b.
Proof. induction a as [|x a IH]; simpl; [done|]. by rewrite IH. Qed.
Lemma str_app_assoc a b c : a +:+ (b +:+ c) = (a +:+ b) +:+ c.
Proof. apply (inj bytes). by rewrite !bytes_app, app_assoc. Qed.
Lemma code_chr n : 0 ≤ n < 256 → code (chr n) = n.
Proof. intros Hn. unfold code, chr. rewrite N_ascii_embedding; lia. Qed.
Lemma length_be_bytes n z : length (be_bytes n z) = n.
Proof. revert z. induction n as [|n IH]; intros z; simpl; [done|]. rewrite length_app, IH. simpl. lia. Qed.
Lemma be_bytes_inj n z z' :
  0 ≤ z < 256 ^ Z.of_nat n → 0 ≤ z' < 256 ^ Z.of_nat n → be_bytes n z = be_bytes n z' → z = z'.
Proof.
  revert z z'. induction n as [|n IH]; intros z z' Hz Hz'; [simpl in *; lia|].
  rewrite Nat2Z.inj_succ, Z.pow_succ_r in Hz, Hz' by lia. cbn [be_bytes].
  intros [Hhi [= Hlo]]%app_inj_tail_iff.
  assert (z / 256 = z' / 256) by (apply IH; [Z.to_euclidean_division_equations; lia..|done]).
  assert (z mod 256 = z' mod 256); [|Z.to_euclidean_division_equations; lia].
  rewrite <- (code_chr (z mod 256)), <- (code_chr (z' mod 256)), Hlo by (apply Z.mod_pos_bound; lia).
  done.
Qed.
Lemma length_bytes s : length (bytes s) = String.length s.
Proof. induction s; simpl; congruence. Qed.
Lemma str_len_bytes s : str_len s = zlen (bytes s).
Proof. unfold str_len, zlen. by rewrite length_bytes. Qed.
Lemma str_is_empty_true s : str_is_empty s = true ↔ s = "".
Proof. by destruct s. Qed.
Lemma str_is_empty_false s : str_is_empty s = false ↔ s ≠ "".
Proof. by destruct s. Qed.

Lemma str_all_true p s : str_all p s = true ↔ ∀ c, c ∈ bytes s → p c = true.
Proof.
  unfold str_all. rewrite forallb_forall. setoid_rewrite list_elem_of_In. done.
Qed.

Lemma is_prefix_true p l : is_prefix p l = true ↔ ∃ k, l = p ++ k.
Proof.
  revert l. induction p as [|x p IH]; intros l; simpl.
  - naive_solver.
  - destruct l as [|y l]; [naive_solver|].
    rewrite andb_true_iff, eqb_eq, IH. naive_solver.
Qed.

Lemma starts_with_true s p : starts_with s p = true ↔ ∃ k, s = p +:+ k.
Proof.
  unfold starts_with. rewrite is_prefix_true. split.
  - intros [k Hk]. exists (str k). apply (inj bytes). by rewrite bytes_app, bytes_str.
  - intros [k ->]. exists (bytes k). apply bytes_app.
Qed.

Lemma ends_with_true s p : ends_with s p = true ↔ ∃ k, s = k +:+ p.
Proof.
  unfold ends_with. rewrite is_prefix_true. split.
  - intros [k Hk]. exists (str (rev k)). apply (inj bytes).
    rewrite bytes_app, bytes_str, <- (rev_involutive (bytes s)), Hk, rev_app_distr.
    by rewrite rev_involutive.
  - intros [k ->]. exists (rev (bytes k)). by rewrite bytes_app, rev_app_distr.
Qed.

Lemma windows_elem {A} n (l w : list A) :
  (0 < n)%nat → w ∈ windows n l ↔ length w = n ∧ ∃ a b, l = a ++ w ++ b.
Proof.
  intros Hn. induction l as [|x l IH]; cbn [windows].
  - rewrite elem_of_nil. split; [done|]. intros (Hw & a & b & Heq).
    destruct a, w; simplify_eq/=. lia.
  - destruct (n <=? length (x :: l))%nat eqn:E.
    + apply Nat.leb_le in E. rewrite elem_of_cons, IH. split.
      * intros [->|(? & a & b & ->)].
        -- split; [rewrite length_take; lia|]. exists [], (drop n (x :: l)).
           by rewrite app_nil_l, take_drop.
        -- split; [done|]. by exists (x :: a), b.
      * intros (Hw & a & b & Heq). destruct a as [|y a]; simplify_eq/=.
        -- left. rewrite Heq. by rewrite take_app_length.
        -- right. split; [done|]. by exists a, b.
    + apply Nat.leb_gt in E. rewrite elem_of_nil. split; [done|].
      intros (Hw & a & b & Heq). apply (f_equal length) in Heq.
      rewrite !length_app in Heq. lia.
Qed.

(** *** Splitting *)

Lemma split_bytes_ne c l : split_bytes c l ≠ [].
Proof.
  destruct l as [|x l]; simpl; [done|].
  destruct (eqb x c); [done|]. by destruct (split_bytes c l).
Qed.

Lemma split_bytes_join c l : join_bytes c (split_bytes c l) = l.
Proof.
  induction l as [|x l IH]; simpl; [done|].
  pose proof (split_bytes_ne c l).
  destruct (eqb x c) eqn:E; bool_prop; subst.
  - simpl. destruct (split_bytes c l); [done|]. simpl in *. by rewrite IH.
  - destruct (split_bytes c l) as [|w ws]; [done|]. simpl in *. rewrite <- IH.
    by destruct ws.
Qed.

Lemma split_bytes_free c l : Forall (λ w, c ∉ w) (split_bytes c l).
Proof.
  induction l as [|x l IH]; simpl; [repeat constructor; set_solver|].
  destruct (eqb x c) eqn:E; bool_prop.
  - constructor; [set_solver|done].
  - destruct IH as [|w ws Hw Hws]; simpl; constructor; set_solver.
Qed.

Lemma split_bytes_app c w l : c ∉ w → split_bytes c (w ++ c :: l) = w :: split_bytes c l.
Proof.
  induction w as [|x w IH]; intros Hw; simpl.
  - by rewrite eqb_refl.
  - destruct (eqb x c) eqn:E; bool_prop; [set_solver|].
    rewrite IH by set_solver. done.
Qed.

Lemma split_bytes_single c w : c ∉ w → split_bytes c w = [w].
Proof.
  induction w as [|x w IH]; intros Hw; simpl; [done|].
  destruct (eqb x c) eqn:E; bool_prop; [set_solver|].
  rewrite IH by set_solver. done.
Qed.

(** Splitting is the only decomposition into separator-free pieces. *)
Lemma split_join_bytes c ws :
  ws ≠ [] → Forall (λ w, c ∉ w) ws → split_bytes c (join_bytes c ws) = ws.
Proof.
  intros Hne Hf. induction Hf as [|w ws Hw Hws IH]; [done|].
  destruct ws as [|w' ws]; simpl.
  - by apply split_bytes_single.
  - rewrite split_bytes_app by done. f_equal. by apply IH.
Qed.

Lemma split_length c s : length (split c s) = length (split_bytes c (bytes s)).
Proof. apply length_map. Qed.

Lemma split_once_bytes_Some c l a b :
  split_once_bytes c l = Some (a, b) ↔ l = a ++ c :: b ∧ c ∉ a.
Proof.
  revert a b. induction l as [|x l IH]; intros a b; simpl.
  - split; [done|]. intros [H _]. by destruct a.
  - destruct (eqb x c) eqn:E; bool_prop; subst.
    + split; [intros; simplify_eq; set_solver|].
      intros [H ?]. destruct a as [|y a]; simplify_eq/=; [done|set_solver].
    + split.
      * destruct (split_once_bytes c l) as [[a' b']|]; [|done]. simpl.
        intros; simplify_eq. destruct (proj1 (IH a' b) eq_refl) as [-> ?]. set_solver.
      * intros [H Ha]. destruct a as [|y a]; simplify_eq/=.
        assert (split_once_bytes c (a ++ c :: b) = Some (a, b)) as ->; [|done].
        apply IH; set_solver.
Qed.

(** *** Trimming *)

(** A string of whitespace characters only. *)
Inductive whitespace_only (seqs : list (list ascii)) : list ascii → Prop :=
| ws_nil : whitespace_only seqs []
| ws_app w l : w ∈ seqs → whitespace_only seqs l → whitespace_only seqs (w ++ l).

Lemma strip_one_Some seqs l l' :
  strip_one seqs l = Some l' → ∃ w, w ∈ seqs ∧ l = w ++ l'.
Proof.
  unfold strip_one. destruct (find _ _) as [w|] eqn:E; [|done].
  apply find_some in E as [Hin Hp]. intros; simplify_eq.
  apply is_prefix_true in Hp as [k ->]. exists w.
  split; [by apply list_elem_of_In|]. by rewrite drop_app_length.
Qed.

Lemma strip_one_None seqs l w k :
  strip_one seqs l = None → w ∈ seqs → l ≠ w ++ k.
Proof.
  unfold strip_one. destruct (find _ _) as [w'|] eqn:E; [done|]. intros _ Hin ->.
  eapply find_none in E; [|by apply list_elem_of_In].
  assert (is_prefix w (w ++ k) = true) by (apply is_prefix_true; eauto). congruence.
Qed.

(** Enough fuel: with non-empty sequences, stripping ends where none applies. *)
Lemma strip_all_spec seqs fuel l :
  [] ∉ seqs → (length l ≤ fuel)%nat →
  strip_one seqs (strip_all seqs fuel l) = None ∧
  ∃ p, whitespace_only seqs p ∧ l = p ++ strip_all seqs fuel l.
Proof.
  intros Hne. revert l. induction fuel as [|fuel IH]; intros l Hl.
  - destruct l; [|simpl in Hl; lia]. simpl. split; [|exists []; by repeat constructor].
    destruct (strip_one seqs []) as [l'|] eqn:E; [|done].
    apply strip_one_Some in E as (w & Hw & Heq).
    symmetry in Heq. apply app_nil in Heq as [-> _]. done.
  - simpl. destruct (strip_one seqs l) as [l'|] eqn:E.
    + apply strip_one_Some in E as (w & Hw & ->).
      destruct w as [|x w]; [done|]. simpl in Hl. rewrite length_app in Hl.
      destruct (IH l') as (Hnone & p & Hp & Heq); [lia|]. split; [done|].
      exists ((x :: w) ++ p). split; [by constructor|]. by rewrite Heq, app_assoc at 1.
    + split; [done|]. exists []. by repeat constructor.
Qed.

Lemma whitespace_utf8_ne : [] ∉ whitespace_utf8.
Proof. by apply (bool_decide_unpack _). Qed.
Lemma whitespace_utf8_rev_ne : [] ∉ map (@rev ascii) whitespace_utf8.
Proof. by apply (bool_decide_unpack _). Qed.

(** Whitespace strings are exactly the ones that trimming empties.  It uses
    that no whitespace encoding is a proper prefix of another. *)
Lemma whitespace_utf8_prefix_free w1 w2 k1 k2 :
  w1 ∈ whitespace_utf8 → w2 ∈ whitespace_utf8 → w1 ++ k1 = w2 ++ k2 → w1 = w2.
Proof.
  assert (forallb (λ a, forallb (λ b, negb (is_prefix a b) || eqb a b) whitespace_utf8)
            whitespace_utf8 = true) as H by by vm_compute.
  assert (∀ a b, a ∈ whitespace_utf8 → b ∈ whitespace_utf8 → is_prefix a b = true → a = b)
    as Hpf.
  { intros a b Ha Hb Hp. rewrite forallb_forall in H.
    specialize (H a ltac:(by apply list_elem_of_In)). rewrite forallb_forall in H.
    specialize (H b ltac:(by apply list_elem_of_In)). rewrite Hp in H. simpl in H.
    by apply eqb_eq. }
  intros H1 H2 Heq. apply app_eq_inv in Heq as [(k & Hk & _)|(k & Hk & _)].
  - symmetry. apply Hpf; [done..|]. apply is_prefix_true. eauto.
  - apply Hpf; [done..|]. apply is_prefix_true. eauto.
Qed.

Lemma whitespace_only_suffix p l :
  whitespace_only whitespace_utf8 p → whitespace_only whitespace_utf8 (p ++ l) →
  whitespace_only whitespace_utf8 l.
Proof.
  induction 1 as [|w p Hw Hp IH]; [done|]. intros H. apply IH.
  rewrite <- app_assoc in H. inversion H as [Heq|w' l' Hw' Hl' Heq].
  - destruct w; [|done]. by apply whitespace_utf8_ne in Hw.
  - assert (w = w') as <- by (by eapply whitespace_utf8_prefix_free).
    by simplify_list_eq.
Qed.

Lemma whitespace_only_strip l :
  whitespace_only whitespace_utf8 l → strip_one whitespace_utf8 l = None → l = [].
Proof.
  destruct 1 as [|w l Hw Hl]; [done|]. intros H. exfalso.
  by eapply strip_one_None in H.
Qed.

Lemma whitespace_only_app seqs p q :
  whitespace_only seqs p → whitespace_only seqs q → whitespace_only seqs (p ++ q).
Proof.
  induction 1 as [|w p Hw Hp IH]; intros Hq; [done|].
  rewrite <- app_assoc. constructor; auto.
Qed.

Lemma whitespace_only_rev l :
  whitespace_only (map (@rev ascii) whitespace_utf8) (rev l) → whitespace_only whitespace_utf8 l.
Proof.
  intros H. rewrite <- (rev_involutive l). induction H as [|w k Hw Hk IH]; [constructor|].
  rewrite rev_app_distr. apply whitespace_only_app; [done|].
  rewrite <- (app_nil_r (rev w)). constructor; [|constructor].
  apply list_elem_of_In, in_map_iff in Hw as (v & <- & Hv%list_elem_of_In).
  by rewrite rev_involutive.
Qed.

Lemma trim_bytes_nil l : trim_bytes l = [] ↔ whitespace_only whitespace_utf8 l.
Proof.
  unfold trim_bytes, trim_end_bytes, trim_start_bytes.
  destruct (strip_all_spec whitespace_utf8 (length l) l) as (Hnone & p & Hp & Heq);
    [apply whitespace_utf8_ne|done|].
  set (r := strip_all whitespace_utf8 (length l) l) in *.
  destruct (strip_all_spec (map (@rev ascii) whitespace_utf8) (length r) (rev r))
    as (_ & q & Hq & Heq2); [apply whitespace_utf8_rev_ne|by rewrite length_rev|].
  set (t := strip_all _ (length r) (rev r)) in *. split.
  - intros Ht. apply (f_equal (@rev ascii)) in Ht. rewrite rev_involutive in Ht.
    simpl in Ht. rewrite Ht, app_nil_r in Heq2. rewrite <- Heq2 in Hq.
    rewrite Heq. apply whitespace_only_app; [done|]. by apply whitespace_only_rev.
  - intros Hl. rewrite Heq in Hl. apply whitespace_only_suffix in Hl; [|done].
    apply whitespace_only_strip in Hl; [|done].
    rewrite Hl in Heq2. simpl in Heq2. symmetry in Heq2.
    apply app_nil in Heq2 as [_ Ht]. by rewrite Ht.
Qed.

Lemma trim_empty s :
  str_is_empty (trim s) = true ↔ whitespace_only whitespace_utf8 (bytes s).
Proof.
  rewrite str_is_empty_true, <- trim_bytes_nil. unfold trim. split.
  - intros H. by rewrite <- (bytes_str (trim_bytes _)), H.
  - by intros ->.
Qed.
