(* ===== verification/Std.v ===== *)
(** * Parts of the Standard Library of Rust, and the regular expressions

    Addresses with their octets and segments, the parser, classification and
    ordering of [std::net]; UTF-8, lines and paths; the regular expressions the
    program uses. *)

From S2P Require Import Prelude Text.

(** ** IP addresses *)

Record Ipv4Addr := mkIpv4Addr { o0 : Z; o1 : Z; o2 : Z; o3 : Z }.
Record Ipv6Addr := mkIpv6Addr {
  s0 : Z; s1 : Z; s2 : Z; s3 : Z; s4 : Z; s5 : Z; s6 : Z; s7 : Z
}.
Inductive IpAddr := V4 (address : Ipv4Addr) | V6 (address : Ipv6Addr).

Global Instance Ipv4Addr_eq_dec : EqDecision Ipv4Addr.
Proof. solve_decision. Defined.
Global Instance Ipv6Addr_eq_dec : EqDecision Ipv6Addr.
Proof. solve_decision. Defined.
Global Instance IpAddr_eq_dec : EqDecision IpAddr.
Proof. solve_decision. Defined.

Definition octets (a : Ipv4Addr) : list Z := [o0 a; o1 a; o2 a; o3 a].
Definition segments (a : Ipv6Addr) : list Z :=
  [s0 a; s1 a; s2 a; s3 a; s4 a; s5 a; s6 a; s7 a].

Definition Ipv4Addr_wf (a : Ipv4Addr) : Prop := Forall (λ x, 0 ≤ x < 256) (octets a).
Definition Ipv6Addr_wf (a : Ipv6Addr) : Prop := Forall (λ x, 0 ≤ x < 65536) (segments a).
Definition IpAddr_wf (a : IpAddr) : Prop :=
  match a with V4 a => Ipv4Addr_wf a | V6 a => Ipv6Addr_wf a end.

(** ** Parsing ([str::parse::<IpAddr>])

    A parser consumes a prefix of the input and returns what is left. *)

Definition parser (A : Type) : Type := list ascii → option (A * list ascii).

Definition read_given_char (c : ascii) : parser unit := λ l,
  match l with
  | x :: l => if eqb x c then Some (tt, l) else None
  | [] => None
  end.

Definition to_digit (radix : Z) (c : ascii) : option Z :=
  let value :=
    if is_ascii_digit c then Some (code c - 48)
    else if in_range 97 102 c then Some (code c - 87)
    else if in_range 65 70 c then Some (code c - 55)
    else None in
  match value with
  | Some v => if v <? radix then Some v else None
  | None => None
  end.

(** Reads digits; gives up after more than [max_digits]. *)
Fixpoint read_digits (radix max_digits count acc : Z) (l : list ascii) :
    option (Z * Z * list ascii) :=
  match l with
  | x :: l' =>
      match to_digit radix x with
      | Some d =>
          if count + 1 >? max_digits then None
          else read_digits radix max_digits (count + 1) (acc * radix + d) l'
      | None => Some (count, acc, l)
      end
  | [] => Some (count, acc, l)
  end.

Definition read_number (radix max_digits : Z) (allow_zero_prefix : bool) (bound : Z) :
    parser Z := λ l,
  let has_leading_zero :=
    match l with x :: _ => eqb x "0"%char | [] => false end in
  '(count, value, rest) ← read_digits radix max_digits 0 0 l;
  if count =? 0 then None
  else if negb allow_zero_prefix && has_leading_zero && (count >? 1) then None
  else if value <? bound then Some (value, rest) else None.

Definition read_separator {A} (sep : ascii) (index : nat) (inner : parser A) : parser A := λ l,
  match index with
  | O => inner l
  | S _ => '(_, l) ← read_given_char sep l; inner l
  end.

Definition read_ipv4_addr : parser Ipv4Addr := λ l,
  let octet i := read_separator "."%char i (read_number 10 3 false 256) in
  '(a, l) ← octet 0%nat l; '(b, l) ← octet 1%nat l;
  '(c, l) ← octet 2%nat l; '(d, l) ← octet 3%nat l;
  Some (mkIpv4Addr a b c d, l).

(** The groups read at positions [i], [i + 1], ... below [i + left], and
    whether the last two came from a dotted quad. *)
Fixpoint read_groups (left i : nat) (l : list ascii) : list Z * bool * list ascii :=
  match left with
  | O => ([], false, l)
  | S left' =>
      let embedded :=
        match left' with
        | O => None
        | S _ => read_separator ":"%char i read_ipv4_addr l
        end in
      match embedded with
      | Some (a, rest) => ([o0 a * 256 + o1 a; o2 a * 256 + o3 a], true, rest)
      | None =>
          match read_separator ":"%char i (read_number 16 4 true 65536) l with
          | Some (g, rest) =>
              let '(gs, v4, rest) := read_groups left' (S i) rest in (g :: gs, v4, rest)
          | None => ([], false, l)
          end
      end
  end.

Definition Ipv6Addr_from (groups : list Z) : Ipv6Addr :=
  let g i := default 0 (groups !! i) in
  mkIpv6Addr (g 0%nat) (g 1%nat) (g 2%nat) (g 3%nat) (g 4%nat) (g 5%nat) (g 6%nat) (g 7%nat).

Definition read_ipv6_addr : parser Ipv6Addr := λ l,
  let '(head, head_ipv4, rest) := read_groups 8 0 l in
  if (length head =? 8)%nat then Some (Ipv6Addr_from head, rest)
  else if head_ipv4 then None
  else
    '(_, rest) ← read_given_char ":"%char rest;
    '(_, rest) ← read_given_char ":"%char rest;
    let limit := (8 - (length head + 1))%nat in
    let '(tail, _, rest) := read_groups limit 0 rest in
    let zeros := replicate (8 - length head - length tail) 0 in
    Some (Ipv6Addr_from (head ++ zeros ++ tail), rest).

Definition IpAddr_parse (s : string) : option IpAddr :=
  let parsed :=
    match read_ipv4_addr (bytes s) with
    | Some (a, rest) => Some (V4 a, rest)
    | None =>
        match read_ipv6_addr (bytes s) with
        | Some (a, rest) => Some (V6 a, rest)
        | None => None
        end
    end in
  match parsed with
  | Some (a, []) => Some a
  | _ => None
  end.

(** ** Classification *)

Definition ipv4_is_unspecified (a : Ipv4Addr) : bool := eqb (octets a) [0; 0; 0; 0].
Definition ipv4_is_broadcast (a : Ipv4Addr) : bool := eqb (octets a) [255; 255; 255; 255].
Definition ipv4_is_loopback (a : Ipv4Addr) : bool := o0 a =? 127.
Definition ipv4_is_private (a : Ipv4Addr) : bool :=
  (o0 a =? 10)
  || ((o0 a =? 172) && (16 <=? o1 a) && (o1 a <=? 31))
  || ((o0 a =? 192) && (o1 a =? 168)).
Definition ipv4_is_link_local (a : Ipv4Addr) : bool := (o0 a =? 169) && (o1 a =? 254).
Definition ipv4_is_multicast (a : Ipv4Addr) : bool := (224 <=? o0 a) && (o0 a <=? 239).

Definition ipv6_is_loopback (a : Ipv6Addr) : bool := eqb (segments a) [0; 0; 0; 0; 0; 0; 0; 1].

(** [Ipv6Addr::to_ipv4]: the IPv4-compatible and IPv4-mapped addresses. *)
Definition to_ipv4 (a : Ipv6Addr) : option Ipv4Addr :=
  if eqb (take 5 (segments a)) [0; 0; 0; 0; 0] && ((s5 a =? 0) || (s5 a =? 65535))
  then Some (mkIpv4Addr (s6 a / 256) (s6 a mod 256) (s7 a / 256) (s7 a mod 256))
  else None.

Definition ip_is_loopback (a : IpAddr) : bool :=
  match a with V4 a => ipv4_is_loopback a | V6 a => ipv6_is_loopback a end.

(** ** Ordering *)

Fixpoint lex_cmp {A} (cmp : A → A → comparison) (l k : list A) : comparison :=
  match l, k with
  | [], [] => Eq
  | [], _ => Lt
  | _, [] => Gt
  | x :: l, y :: k => then_with (cmp x y) (lex_cmp cmp l k)
  end.

(** The derived order of the enum: variant first, then the payload. *)
Definition IpAddr_key (a : IpAddr) : list Z :=
  match a with V4 a => 0 :: octets a | V6 a => 1 :: segments a end.
Definition IpAddr_cmp : IpAddr → IpAddr → comparison := cmp_on IpAddr_key (lex_cmp Z.compare).

(** ** Lemmas *)

Global Instance lex_cmp_preorder {A} (cmp : A → A → comparison) `{!CmpPreorder cmp} :
  CmpPreorder (lex_cmp cmp).
Proof.
  split.
  - induction x as [|x l IH]; intros [|y k]; simpl; [done..|].
    rewrite (cmp_flip cmp x y), IH. by destruct (cmp x y).
  - induction x as [|x l IH]; intros [|y k] [|z m]; simpl; try done.
    intros H1 H2.
    destruct (cmp x y) eqn:E1, (cmp y z) eqn:E2; simpl in *; try done.
    + rewrite (cmp_eq_trans cmp x y z) by done. by apply (IH k).
    + by rewrite (cmp_le_lt_trans cmp x y z) by congruence.
    + by rewrite (cmp_lt_le_trans cmp x y z) by congruence.
    + by rewrite (cmp_lt_le_trans cmp x y z) by congruence.
Qed.

Global Instance lex_cmp_strict {A} (cmp : A → A → comparison) `{!CmpStrict cmp} :
  CmpStrict (lex_cmp cmp).
Proof.
  intros l. induction l as [|x l IH]; intros [|y k]; simpl; try done.
  destruct (cmp x y) eqn:E; simpl; try done.
  apply (cmp_eq cmp) in E as ->. by intros ->%IH.
Qed.

Global Instance IpAddr_cmp_preorder : CmpPreorder IpAddr_cmp.
Proof. unfold IpAddr_cmp. apply _. Qed.

Global Instance IpAddr_cmp_strict : CmpStrict IpAddr_cmp.
Proof.
  intros x y H. unfold IpAddr_cmp, cmp_on in H. apply (cmp_eq (lex_cmp Z.compare)) in H.
  destruct x as [[]|[]], y as [[]|[]]; simpl in H; by simplify_eq.
Qed.

(** [x & (2^16 - 2^k)] clears the low [k] bits of a segment. *)
Lemma land_high_mask x k :
  0 ≤ k ≤ 16 → 0 ≤ x < 2 ^ 16 → Z.land x (2 ^ 16 - 2 ^ k) = x / 2 ^ k * 2 ^ k.
Proof.
  intros Hk Hx.
  replace (2 ^ 16 - 2 ^ k) with (Z.shiftl (Z.ones (16 - k)) k).
  2: { rewrite Z.shiftl_mul_pow2, Z.ones_equiv by lia.
       replace (2 ^ 16) with (2 ^ (16 - k) * 2 ^ k)
         by (rewrite <- Z.pow_add_r by lia; f_equal; lia). lia. }
  rewrite <- Z.shiftl_mul_pow2, <- Z.shiftr_div_pow2 by lia.
  apply Z.bits_inj'. intros n Hn. rewrite Z.land_spec, !Z.shiftl_spec by lia.
  destruct (decide (n < k)) as [Hlt|Hge].
  { rewrite !(Z.testbit_neg_r _ (n - k)) by lia. by rewrite andb_false_r. }
  rewrite Z.shiftr_spec, Z.testbit_ones_nonneg by lia.
  replace (n - k + k) with n by lia.
  destruct (decide (n < 16)) as [H16|H16].
  - replace (n - k <? 16 - k) with true by (symmetry; apply Z.ltb_lt; lia).
    by rewrite andb_true_r.
  - destruct (decide (x = 0)) as [->|Hx0]; [by rewrite Z.testbit_0_l|].
    rewrite (Z.bits_above_log2 x n); [done|lia|].
    assert (Z.log2 x < 16) by (apply Z.log2_lt_pow2; lia). lia.
Qed.

Lemma to_ipv4_wf a a4 : Ipv6Addr_wf a → to_ipv4 a = Some a4 → Ipv4Addr_wf a4.
Proof.
  unfold Ipv6Addr_wf, Ipv4Addr_wf, to_ipv4, segments. rewrite !Forall_cons.
  intros Hwf H. case_match; simplify_eq/=. unfold octets. simpl. destruct a; simpl in *.
  rewrite !Forall_cons. split_and!; try constructor; Z.to_euclidean_division_equations; lia.
Qed.

(** * UTF-8 and lines

    [str::from_utf8], [String::from_utf8_lossy] and [str::lines] of the Standard
    Library of Rust, on bytes that come from outside. *)

Definition continuation : ascii → bool := in_range 128 191.

(** The first character of [l]: [Ok n] if its first [n] bytes encode one, [Err n]
    if its first [n] bytes are a maximal invalid sequence. *)
Definition utf8_second (first : Z) : ascii → bool :=
  if first =? 224 then in_range 160 191
  else if first =? 237 then in_range 128 159
  else if first =? 240 then in_range 144 191
  else if first =? 244 then in_range 128 143
  else continuation.

(** How many bytes follow the first one. *)
Definition utf8_following (first : Z) : option nat :=
  if first <=? 127 then Some 0%nat
  else if (194 <=? first) && (first <=? 223) then Some 1%nat
  else if (224 <=? first) && (first <=? 239) then Some 2%nat
  else if (240 <=? first) && (first <=? 244) then Some 3%nat
  else None.

Fixpoint utf8_continue (valid : ascii → bool) (following consumed : nat) (l : list ascii) :
    result nat nat :=
  match following with
  | O => Ok consumed
  | S following =>
      match l with
      | x :: l => if valid x then utf8_continue continuation following (S consumed) l else Err consumed
      | [] => Err consumed
      end
  end.

Definition utf8_first (l : list ascii) : result nat nat :=
  match l with
  | [] => Ok 0%nat
  | x :: l =>
      match utf8_following (code x) with
      | None => Err 1%nat
      | Some following => utf8_continue (utf8_second (code x)) following 1 l
      end
  end.

(** U+FFFD *)
Definition replacement : list ascii := [chr 239; chr 191; chr 189].

Fixpoint utf8_valid (fuel : nat) (l : list ascii) : bool :=
  match fuel, l with
  | _, [] => true
  | O, _ => false
  | S fuel, l =>
      match utf8_first l with
      | Ok n => utf8_valid fuel (drop n l)
      | Err _ => false
      end
  end.
Fixpoint utf8_lossy (fuel : nat) (l : list ascii) : list ascii :=
  match fuel, l with
  | _, [] => []
  | O, _ => []
  | S fuel, l =>
      match utf8_first l with
      | Ok n => take n l ++ utf8_lossy fuel (drop n l)
      | Err n => replacement ++ utf8_lossy fuel (drop n l)
      end
  end.

Definition from_utf8 (l : list ascii) : option string :=
  if utf8_valid (length l) l then Some (str l) else None.
Definition from_utf8_lossy (l : list ascii) : string := str (utf8_lossy (length l) l).

(** [str::lines]: terminated by [\n] or [\r\n]; a last line need not be. *)
Definition strip_cr (line : list ascii) : list ascii :=
  match last line with
  | Some c => if eqb c (chr 13) then removelast line else line
  | None => line
  end.
Fixpoint lines_bytes (segments : list (list ascii)) : list (list ascii) :=
  match segments with
  | [] => []
  | [last] => match last with [] => [] | _ => [last] end
  | line :: segments => strip_cr line :: lines_bytes segments
  end.
Definition lines (s : string) : list string :=
  str <$> lines_bytes (split_bytes (chr 10) (bytes s)).

(** ** Facts *)

Lemma utf8_continue_len valid following consumed l n :
  utf8_continue valid following consumed l = Ok n ∨ utf8_continue valid following consumed l = Err n →
  (consumed ≤ n ≤ consumed + length l)%nat.
Proof.
  revert valid consumed l. induction following as [|following IH]; intros valid consumed l; simpl.
  - intros [[= ->]|?]; [lia|done].
  - destruct l as [|x l]; [intros [?|[= ->]]; [done|simpl; lia]|].
    destruct (valid x); [|intros [?|[= ->]]; [done|simpl; lia]].
    intros H%IH. simpl. lia.
Qed.

Lemma utf8_first_len x l n :
  utf8_first (x :: l) = Ok n ∨ utf8_first (x :: l) = Err n → (1 ≤ n ≤ length (x :: l))%nat.
Proof.
  unfold utf8_first. destruct (utf8_following _).
  - intros H%utf8_continue_len. simpl in *. lia.
  - intros [?|[= <-]]; [done|simpl; lia].
Qed.

(** Valid text is left alone by the lossy conversion. *)
Lemma utf8_valid_lossy fuel l : utf8_valid fuel l = true → utf8_lossy fuel l = l.
Proof.
  revert l. induction fuel as [|fuel IH]; intros [|x l]; try done.
  cbn [utf8_valid utf8_lossy]. destruct (utf8_first _); [|done]. intros H. rewrite IH by done.
  apply take_drop.
Qed.

Lemma from_utf8_lossy_valid l s : from_utf8 l = Some s → from_utf8_lossy l = s.
Proof.
  unfold from_utf8, from_utf8_lossy. destruct (utf8_valid _ _) eqn:H; [|done].
  intros [= <-]. by rewrite utf8_valid_lossy.
Qed.

(** * std::path on Unix

    Paths are strings; what the program asks of them goes through their
    components, as in the Standard Library of Rust. *)

Inductive Component := RootDir | CurDir | ParentDir | Normal (name : string).
Global Instance Component_eq_dec : EqDecision Component.
Proof. solve_decision. Defined.

(** A segment between slashes: empty ones and [.] are no components. *)
Definition segment_component (segment : string) : option Component :=
  if str_is_empty segment || eqb segment "." then None
  else if eqb segment ".." then Some ParentDir
  else Some (Normal segment).

Definition is_absolute (path : string) : bool := starts_with path "/".

(** [Path::components]: a relative path may start with one [CurDir]. *)
Definition components (path : string) : list Component :=
  (if is_absolute path then [RootDir]
   else if eqb (head (split "/"%char path)) (Some ".") then [CurDir]
   else [])
  ++ omap segment_component (split "/"%char path).

(** [Path::join] *)
Definition path_join (path other : string) : string :=
  if is_absolute other then other
  else if str_is_empty path || ends_with path "/" then path +:+ other
  else path +:+ "/" +:+ other.

(** [Path::starts_with]: by whole components. *)
Fixpoint component_prefix (base path : list Component) : bool :=
  match base, path with
  | [], _ => true
  | x :: base, y :: path => eqb x y && component_prefix base path
  | _ :: _, [] => false
  end.
Definition path_starts_with (path base : string) : bool :=
  component_prefix (components base) (components path).

(** [Path::file_name] *)
Definition file_name (path : string) : option string :=
  match last (components path) with
  | Some (Normal name) => Some name
  | _ => None
  end.

(** ** Facts *)

Lemma component_prefix_spec base path :
  component_prefix base path = true ↔ ∃ rest, path = base ++ rest.
Proof.
  revert path. induction base as [|x base IH]; intros path; simpl.
  - split; [by exists path|done].
  - destruct path as [|y path]; [split; [done|by intros (? & ?)]|].
    rewrite andb_true_iff, eqb_eq, IH. split.
    + intros [-> (rest & ->)]. by exists rest.
    + intros (rest & [= -> ->]). split; [done|]. by exists rest.
Qed.

(** Components that are plain names. *)
Definition is_normal (c : Component) : bool := match c with Normal _ => true | _ => false end.

Lemma normals l : forallb is_normal l = true → ∃ names, l = Normal <$> names.
Proof.
  induction l as [|[| | |name] l IH]; intros H; simpl in H; try done; [by exists []|].
  destruct (IH H) as (names & ->). by exists (name :: names).
Qed.

Lemma relative_components path names :
  is_absolute path = false →
  (∀ c, c ∈ components path → c ≠ ParentDir) → omap segment_component (split "/"%char path) = names →
  forallb is_normal names = true.
Proof.
  intros Habs Hc <-. apply forallb_forall. intros c Hin%list_elem_of_In.
  assert (c ∈ components path) as Hp by (unfold components; apply elem_of_app; by right).
  specialize (Hc c Hp). apply list_elem_of_omap in Hin as (segment & _ & Hseg).
  unfold segment_component in Hseg. repeat case_match; by simplify_eq.
Qed.

(** * Regular expressions

    The code validates identifiers with anchored regular expressions
    ([^...$], byte classes, concatenation, groups, [?], [*], [+] and bounded
    repetition).  A pattern is transcribed as a term of [regex], whose meaning
    is the language [re_lang]; [re_match] decides it by Brzozowski derivatives
    ([re_match_lang]).  The patterns only use ASCII classes, so matching bytes
    and matching characters coincide. *)

Inductive regex : Type :=
| RNone
| REps
| RSet (p : ascii → bool)
| RCat (r s : regex)
| RAlt (r s : regex)
| RStar (r : regex).

(** [r?] and [r{0,n}]. *)
Definition ROpt (r : regex) : regex := RAlt REps r.
Fixpoint RUpTo (n : nat) (r : regex) : regex :=
  match n with
  | O => REps
  | S n => ROpt (RCat r (RUpTo n r))
  end.

Inductive re_lang : regex → list ascii → Prop :=
| lang_eps : re_lang REps []
| lang_set p c : p c = true → re_lang (RSet p) [c]
| lang_cat r s k l : re_lang r k → re_lang s l → re_lang (RCat r s) (k ++ l)
| lang_alt_l r s l : re_lang r l → re_lang (RAlt r s) l
| lang_alt_r r s l : re_lang s l → re_lang (RAlt r s) l
| lang_star_nil r : re_lang (RStar r) []
| lang_star_app r k l :
    k ≠ [] → re_lang r k → re_lang (RStar r) l → re_lang (RStar r) (k ++ l).

Fixpoint nullable (r : regex) : bool :=
  match r with
  | RNone | RSet _ => false
  | REps | RStar _ => true
  | RCat r s => nullable r && nullable s
  | RAlt r s => nullable r || nullable s
  end.

Fixpoint deriv (c : ascii) (r : regex) : regex :=
  match r with
  | RNone | REps => RNone
  | RSet p => if p c then REps else RNone
  | RCat r s =>
      if nullable r then RAlt (RCat (deriv c r) s) (deriv c s) else RCat (deriv c r) s
  | RAlt r s => RAlt (deriv c r) (deriv c s)
  | RStar r => RCat (deriv c r) (RStar r)
  end.

Definition re_match (r : regex) (l : list ascii) : bool :=
  nullable (fold_left (λ r c, deriv c r) l r).
Definition is_match (r : regex) (s : string) : bool := re_match r (bytes s).

(** ** The matcher decides the language *)

Lemma nullable_lang r : nullable r = true ↔ re_lang r [].
Proof.
  split.
  - induction r as [| |p|r IHr s IHs|r IHr s IHs|r IHr]; simpl; intros H;
      try done; try by constructor.
    + bool_prop. rewrite <- (app_nil_l (@nil ascii)). constructor; auto.
    + apply orb_true_iff in H as [?|?]; [apply lang_alt_l|apply lang_alt_r]; auto.
  - remember [] as l eqn:Hl. intros H. revert Hl.
    induction H as [| |r s k l _ IHk _ IHl|r s l _ IH|r s l _ IH|r|r k l ? _ _ _ _];
      intros Hl; simpl; try done.
    + apply app_nil in Hl as [-> ->]. by rewrite IHk, IHl.
    + by rewrite IH.
    + rewrite IH by done. by rewrite orb_true_r.
Qed.

Lemma deriv_lang c r l : re_lang (deriv c r) l ↔ re_lang r (c :: l).
Proof.
  revert l. induction r as [| |p|r IHr s IHs|r IHr s IHs|r IHr]; intros l; simpl.
  - split; inversion 1.
  - split; inversion 1.
  - destruct (p c) eqn:E; split; inversion 1; subst; try congruence; by constructor.
  - assert (re_lang (RCat (deriv c r) s) l → re_lang (RCat r s) (c :: l)) as Hcat.
    { inversion 1 as [| |? ? k m Hk Hm| | | |]; subst.
      rewrite app_comm_cons. constructor; [by apply IHr|done]. }
    assert (re_lang (RCat r s) (c :: l) →
      re_lang (RCat (deriv c r) s) l ∨ nullable r = true ∧ re_lang (deriv c s) l) as Hinv.
    { inversion 1 as [| |? ? k m Hk Hm Heq Heq2| | | |]; subst.
      destruct k as [|x k]; simplify_eq/=.
      - right. split; [by apply nullable_lang|]. by apply IHs.
      - left. constructor; [by apply IHr|done]. }
    destruct (nullable r) eqn:E.
    + split.
      * inversion 1; subst; [by apply Hcat|].
        change (c :: l) with ([] ++ c :: l). constructor; [by apply nullable_lang|].
        by apply IHs.
      * intros [?|[_ ?]]%Hinv; [by apply lang_alt_l|by apply lang_alt_r].
    + split; [done|]. intros [?|[? _]]%Hinv; done.
  - split; inversion 1; subst.
    1: apply lang_alt_l. 2: apply lang_alt_r. 3: apply lang_alt_l. 4: apply lang_alt_r.
    all: naive_solver.
  - split.
    + inversion 1 as [| |? ? k m Hk Hm| | | |]; subst.
      rewrite app_comm_cons. constructor; [done|by apply IHr|done].
    + remember (RStar r) as r' eqn:Hr. remember (c :: l) as l' eqn:Hl.
      intros H. destruct H as [| | | | | |r'' k m Hne Hk Hm]; simplify_eq.
      destruct k as [|x k]; simplify_eq/=. constructor; [by apply IHr|done].
Qed.

Lemma re_match_lang r l : re_match r l = true ↔ re_lang r l.
Proof.
  unfold re_match. revert r. induction l as [|c l IH]; intros r; simpl.
  - apply nullable_lang.
  - rewrite IH. apply deriv_lang.
Qed.

(** ** Languages of the shapes the patterns use *)

Lemma re_lang_set p l : re_lang (RSet p) l ↔ ∃ c, l = [c] ∧ p c = true.
Proof.
  split; [inversion 1; naive_solver|]. intros (c & -> & Hc). by constructor.
Qed.

Lemma re_lang_cat r s l :
  re_lang (RCat r s) l ↔ ∃ k m, l = k ++ m ∧ re_lang r k ∧ re_lang s m.
Proof.
  split; [inversion 1; naive_solver|]. intros (k & m & -> & ? & ?). by constructor.
Qed.

Lemma re_lang_alt r s l : re_lang (RAlt r s) l ↔ re_lang r l ∨ re_lang s l.
Proof.
  split; [inversion 1; naive_solver|].
  intros [?|?]; [by apply lang_alt_l|by apply lang_alt_r].
Qed.

Lemma re_lang_eps l : re_lang REps l ↔ l = [].
Proof. split; [by inversion 1|]. intros ->. constructor. Qed.

Lemma re_lang_star_set p l : re_lang (RStar (RSet p)) l ↔ Forall (λ c, p c = true) l.
Proof.
  split.
  - remember (RStar (RSet p)) as r eqn:Hr. intros H. revert Hr.
    induction H as [| | | | | |r k l Hne Hk _ _ IH]; intros Hr; simplify_eq;
      [constructor|].
    apply re_lang_set in Hk as (c & -> & Hc). constructor; auto.
  - induction 1 as [|c l Hc Hl IH]; [constructor|].
    change (c :: l) with ([c] ++ l). constructor; [done|by constructor|done].
Qed.

Lemma re_lang_upto_set n p l :
  re_lang (RUpTo n (RSet p)) l ↔ (length l ≤ n)%nat ∧ Forall (λ c, p c = true) l.
Proof.
  revert l. induction n as [|n IH]; intros l; simpl.
  - rewrite re_lang_eps. split; [intros ->; by repeat constructor|].
    intros [? _]. destruct l; simpl in *; [done|lia].
  - unfold ROpt. rewrite re_lang_alt, re_lang_eps, re_lang_cat.
    setoid_rewrite re_lang_set. setoid_rewrite IH. split.
    + intros [->|(k & m & -> & (c & -> & Hc) & Hm & Hall)]; simpl.
      * split; [lia|constructor].
      * split; [lia|by constructor].
    + intros [Hl Hall]. destruct Hall as [|c m Hc Hm]; [by left|]. right.
      exists [c], m. simpl in Hl. split; [done|]. split; [eauto|]. split; [lia|done].
Qed.
