(* ===== verification/Domain.v ===== *)
(** * Domain types (crates/audiodown-domain)

    Identifiers with their parsers ([PluginId], [CredentialScope],
    [CredentialId]) and the enumerations the other components share.  A newtype
    with a private field is a record of one field; the only way the code builds
    one is its [parse]. *)

From S2P Require Import Prelude Text Std.

(** A timestamp ([DateTime<Utc>] or [Instant]) or a duration, in nanoseconds. *)
Definition time : Type := Z.

(** A [Uuid] is its 128-bit value. *)
Definition Uuid : Type := Z.

(** ** plugin.rs *)

Record PluginId := mkPluginId { PluginId_as_str : string }.
Global Instance PluginId_eq_dec : EqDecision PluginId.
Proof. solve_decision. Defined.
Global Instance PluginId_countable : Countable PluginId :=
  inj_countable' PluginId_as_str mkPluginId (λ '(mkPluginId _), eq_refl).

Inductive PluginIdError := PluginIdEmpty | PluginIdTooLong | PluginIdInvalidFormat.

Definition plugin_id_edge (c : ascii) : bool := is_ascii_lowercase c || is_ascii_digit c.
Definition plugin_id_inner (c : ascii) : bool :=
  plugin_id_edge c || eqb c "."%char || eqb c "_"%char || eqb c "-"%char.

(** [^[a-z0-9](?:[a-z0-9._-]*[a-z0-9])?$] *)
Definition plugin_id_pattern : regex :=
  RCat (RSet plugin_id_edge)
       (ROpt (RCat (RStar (RSet plugin_id_inner)) (RSet plugin_id_edge))).

Definition PluginId_parse (input : string) : result PluginIdError PluginId :=
  if str_is_empty input then Err PluginIdEmpty
  else if str_len input >? 128 then Err PluginIdTooLong
  else if negb (is_match plugin_id_pattern input) then Err PluginIdInvalidFormat
  else Ok (mkPluginId input).

Inductive PluginStatus :=
  Installing | Installed | Starting | Healthy | Stopped | Unhealthy | Disabled.
Global Instance PluginStatus_eq_dec : EqDecision PluginStatus.
Proof. solve_decision. Defined.

Inductive RunMode := OnDemand | Always.
Global Instance RunMode_eq_dec : EqDecision RunMode.
Proof. solve_decision. Defined.

(** ** credential.rs *)

Definition MAX_CREDENTIAL_SCOPE_BYTES : Z := 128.
Definition MAX_CREDENTIAL_SCOPE_SEGMENTS : Z := 8.
Definition MAX_CREDENTIAL_SCOPE_SEGMENT_BYTES : Z := 32.
Definition MIN_CREDENTIAL_SCOPE_SEGMENTS : Z := 2.

Record CredentialScope := mkCredentialScope { CredentialScope_as_str : string }.
Global Instance CredentialScope_eq_dec : EqDecision CredentialScope.
Proof. solve_decision. Defined.

Inductive CredentialScopeError :=
  ScopeEmpty | ScopeTooLong | ScopeInvalidSegmentCount | ScopeInvalidFormat.

Definition valid_scope_segment (segment : string) : bool :=
  if str_is_empty segment || (str_len segment >? MAX_CREDENTIAL_SCOPE_SEGMENT_BYTES)
  then false
  else
    match bytes segment with
    | [] => false
    | first :: rest =>
        is_ascii_lowercase first
        && forallb (λ byte, is_ascii_lowercase byte || is_ascii_digit byte) rest
    end.

Definition CredentialScope_parse (input : string) : result CredentialScopeError CredentialScope :=
  if str_is_empty input then Err ScopeEmpty
  else if str_len input >? MAX_CREDENTIAL_SCOPE_BYTES then Err ScopeTooLong
  else if negb (str_is_ascii input) then Err ScopeInvalidFormat
  else
    let segments := split "."%char input in
    if negb ((MIN_CREDENTIAL_SCOPE_SEGMENTS <=? zlen segments)
             && (zlen segments <=? MAX_CREDENTIAL_SCOPE_SEGMENTS))
    then Err ScopeInvalidSegmentCount
    else if existsb (λ segment, negb (valid_scope_segment segment)) segments
    then Err ScopeInvalidFormat
    else Ok (mkCredentialScope input).

Record CredentialId := mkCredentialId { CredentialId_as_uuid : Uuid }.
Global Instance CredentialId_eq_dec : EqDecision CredentialId.
Proof. solve_decision. Defined.

Inductive CredentialIdError := CredentialIdInvalidFormat | CredentialIdNil.

Definition CredentialId_from_uuid (value : Uuid) : result CredentialIdError CredentialId :=
  if value =? 0 then Err CredentialIdNil else Ok (mkCredentialId value).

(** [Uuid::parse_str] is the uuid crate's parser. *)
Definition CredentialId_parse (uuid_parse_str : string → option Uuid) (input : string) :
    result CredentialIdError CredentialId :=
  value ← ok_or (uuid_parse_str input) CredentialIdInvalidFormat;
  CredentialId_from_uuid value.

Inductive CredentialKind := Cookie | Token.
Global Instance CredentialKind_eq_dec : EqDecision CredentialKind.
Proof. solve_decision. Defined.

Inductive CredentialStatus := Active | Expired | Revoked | StatusError.
Global Instance CredentialStatus_eq_dec : EqDecision CredentialStatus.
Proof. solve_decision. Defined.

Inductive CredentialOwnership := OwnedByPlugin (plugin_id : PluginId) | Retained.
Global Instance CredentialOwnership_eq_dec : EqDecision CredentialOwnership.
Proof. solve_decision. Defined.

Definition source_plugin_id (o : CredentialOwnership) : option PluginId :=
  match o with OwnedByPlugin plugin_id => Some plugin_id | Retained => None end.
Definition is_retained (o : CredentialOwnership) : bool :=
  match o with Retained => true | _ => false end.

(** ** The identifier grammars, stated without the parsers *)

(** First and last byte a lowercase letter or a digit, [._-] allowed between. *)
Definition plugin_id_grammar (s : string) : Prop :=
  1 ≤ str_len s ≤ 128 ∧
  Forall (λ c, plugin_id_inner c = true) (bytes s) ∧
  (∃ c, hd_error (bytes s) = Some c ∧ plugin_id_edge c = true) ∧
  (∃ c, last (bytes s) = Some c ∧ plugin_id_edge c = true).

Definition scope_segment (w : list ascii) : Prop :=
  ∃ c w', w = c :: w' ∧ zlen w ≤ 32 ∧ is_ascii_lowercase c = true ∧
          Forall (λ b, is_ascii_lowercase b || is_ascii_digit b = true) w'.

(** Two to eight segments joined by dots, 128 bytes in all. *)
Definition scope_grammar (s : string) : Prop :=
  ∃ segments, bytes s = join_bytes "."%char segments ∧
    2 ≤ zlen segments ≤ 8 ∧ str_len s ≤ 128 ∧ Forall scope_segment segments.

(** ** Lemmas *)

Lemma plugin_id_edge_inner c : plugin_id_edge c = true → plugin_id_inner c = true.
Proof. unfold plugin_id_inner. by intros ->. Qed.

Lemma plugin_id_pattern_lang l :
  re_lang plugin_id_pattern l ↔
  Forall (λ c, plugin_id_inner c = true) l ∧
  (∃ c, hd_error l = Some c ∧ plugin_id_edge c = true) ∧
  (∃ c, last l = Some c ∧ plugin_id_edge c = true).
Proof.
  unfold plugin_id_pattern, ROpt.
  rewrite re_lang_cat. setoid_rewrite re_lang_set. setoid_rewrite re_lang_alt.
  setoid_rewrite re_lang_eps. setoid_rewrite re_lang_cat.
  setoid_rewrite re_lang_star_set. setoid_rewrite re_lang_set. split.
  - intros (k & m & -> & (c & -> & Hc) & [->|(u & v & -> & Hu & d & -> & Hd)]).
    + split; [|split; eauto]. repeat constructor. by apply plugin_id_edge_inner.
    + split; [|split].
      * simpl. constructor; [by apply plugin_id_edge_inner|].
        apply Forall_app. split; [done|]. repeat constructor. by apply plugin_id_edge_inner.
      * eauto.
      * exists d. split; [|done]. by rewrite app_assoc, last_snoc.
  - intros (Hall & (c & Hhead & Hc) & (d & Hlast & Hd)).
    destruct l as [|c' l]; [done|]. injection Hhead as ->.
    exists [c], l. split; [done|]. split; [eauto|].
    destruct l as [|x l _] using rev_ind; [by left|]. right.
    rewrite app_comm_cons, last_snoc in Hlast. injection Hlast as ->.
    exists l, [d]. split; [done|]. apply Forall_cons in Hall as [_ Hall].
    apply Forall_app in Hall as [Hall _]. eauto.
Qed.

Lemma valid_scope_segment_spec s :
  valid_scope_segment s = true ↔ scope_segment (bytes s).
Proof.
  unfold valid_scope_segment, scope_segment, MAX_CREDENTIAL_SCOPE_SEGMENT_BYTES.
  rewrite str_len_bytes.
  destruct (str_is_empty s) eqn:He; simpl.
  { apply str_is_empty_true in He as ->. naive_solver. }
  destruct (zlen (bytes s) >? 32) eqn:Hl; bool_prop.
  { split; [done|]. intros (c & w & Heq & ? & _). rewrite Heq in *. lia. }
  destruct (bytes s) as [|c w]; [naive_solver|].
  rewrite andb_true_iff, forallb_forall.
  setoid_rewrite <- list_elem_of_In. rewrite <- Forall_forall. naive_solver.
Qed.

Lemma scope_segment_dot_free w : scope_segment w → "."%char ∉ w.
Proof.
  intros (c & w' & -> & _ & Hc & Hw) [<-|Hin]%elem_of_cons; [done|].
  eapply Forall_forall in Hw; [|done]. done.
Qed.

Lemma scope_segment_ascii w c : scope_segment w → c ∈ w → is_ascii_byte c = true.
Proof.
  assert (∀ b, is_ascii_lowercase b || is_ascii_digit b = true → is_ascii_byte b = true) as H.
  { intros b. unfold is_ascii_lowercase, is_ascii_digit, is_ascii_byte, in_range.
    rewrite orb_true_iff, !andb_true_iff, !Z.leb_le. lia. }
  intros (d & w' & -> & _ & Hd & Hw) [->|Hin]%elem_of_cons; apply H.
  - by rewrite Hd.
  - by eapply Forall_forall in Hw.
Qed.

Lemma join_bytes_elem c x ws : x ∈ join_bytes c ws → x = c ∨ ∃ w, w ∈ ws ∧ x ∈ w.
Proof.
  induction ws as [|w ws IH]; simpl; [by intros ?%elem_of_nil|].
  destruct ws as [|w' ws]; [set_solver|].
  rewrite elem_of_app, elem_of_cons. set_solver.
Qed.

Lemma scope_segments_of_split s :
  existsb (λ segment, negb (valid_scope_segment segment)) (split "."%char s) = false ↔
  Forall scope_segment (split_bytes "."%char (bytes s)).
Proof.
  unfold split. induction (split_bytes "."%char (bytes s)) as [|w ws IH]; simpl.
  { split; [constructor|done]. }
  rewrite orb_false_iff, negb_false_iff, Forall_cons, IH, valid_scope_segment_spec.
  by rewrite bytes_str.
Qed.

(** The grammar through the decomposition the code computes. *)
Lemma scope_grammar_split s :
  scope_grammar s ↔
  2 ≤ zlen (split "."%char s) ≤ 8 ∧ str_len s ≤ 128 ∧
  Forall scope_segment (split_bytes "."%char (bytes s)).
Proof.
  unfold scope_grammar. replace (zlen (split "."%char s))
    with (zlen (split_bytes "."%char (bytes s))) by (unfold zlen; by rewrite split_length).
  split.
  - intros (segs & Heq & Hcount & Hlen & Hsegs).
    rewrite Heq, split_join_bytes; [done| |].
    + intros ->. unfold zlen in Hcount. simpl in Hcount. lia.
    + eapply Forall_impl; [done|]. apply scope_segment_dot_free.
  - intros (Hcount & Hlen & Hsegs). exists (split_bytes "."%char (bytes s)).
    by rewrite split_bytes_join.
Qed.

Lemma scope_grammar_ascii s : scope_grammar s → str_is_ascii s = true.
Proof.
  intros (segs & Heq & _ & _ & Hsegs). apply str_all_true. intros c.
  rewrite Heq. intros [->|(w & Hw & Hc)]%join_bytes_elem; [done|].
  eapply Forall_forall in Hsegs; [|done]. by eapply scope_segment_ascii.
Qed.

(** ** Properties *)

(** [PluginId::parse] accepts exactly the identifier grammar and keeps the
    input unchanged; every rejection names the first violated condition. *)
Theorem PluginId_parse_spec s :
  match PluginId_parse s with
  | Ok p => PluginId_as_str p = s ∧ plugin_id_grammar s
  | Err PluginIdEmpty => s = ""
  | Err PluginIdTooLong => 128 < str_len s
  | Err PluginIdInvalidFormat => 1 ≤ str_len s ≤ 128 ∧ ¬ plugin_id_grammar s
  end.
Proof.
  unfold PluginId_parse, plugin_id_grammar.
  destruct (str_is_empty s) eqn:He; [by apply str_is_empty_true|].
  apply str_is_empty_false in He.
  assert (1 ≤ str_len s) by (destruct s; [done|]; unfold str_len; simpl; lia).
  destruct (str_len s >? 128) eqn:Hl; bool_prop; [done|].
  unfold is_match. destruct (re_match _ _) eqn:Hm; simpl.
  - apply re_match_lang, plugin_id_pattern_lang in Hm. naive_solver.
  - split; [lia|]. intros (_ & Hg). apply plugin_id_pattern_lang, re_match_lang in Hg.
    congruence.
Qed.

(** [CredentialScope::parse] accepts exactly two to eight dot-separated
    lowercase segments of at most 32 bytes within 128 bytes; each error is
    returned in its own case. *)
Theorem CredentialScope_parse_spec s :
  match CredentialScope_parse s with
  | Ok scope => CredentialScope_as_str scope = s ∧ scope_grammar s
  | Err ScopeEmpty => s = ""
  | Err ScopeTooLong => 128 < str_len s
  | Err ScopeInvalidSegmentCount =>
      str_is_ascii s = true ∧ ¬ (2 ≤ zlen (split "."%char s) ≤ 8)
  | Err ScopeInvalidFormat => str_len s ≤ 128 ∧ ¬ scope_grammar s
  end.
Proof.
  unfold CredentialScope_parse, MAX_CREDENTIAL_SCOPE_BYTES,
    MIN_CREDENTIAL_SCOPE_SEGMENTS, MAX_CREDENTIAL_SCOPE_SEGMENTS.
  destruct (str_is_empty s) eqn:He; [by apply str_is_empty_true|].
  destruct (str_len s >? 128) eqn:Hl; bool_prop; [done|].
  destruct (str_is_ascii s) eqn:Ha; simpl.
  2: { split; [done|]. intros ?%scope_grammar_ascii. congruence. }
  destruct ((2 <=? _) && _) eqn:Hc; simpl; bool_prop.
  2: { split; [done|]. apply andb_false_iff in Hc.
       destruct Hc; bool_prop; lia. }
  destruct (existsb _ _) eqn:Hs; simpl; rewrite scope_grammar_split.
  - split; [done|]. intros (_ & _ & Hsegs).
    apply scope_segments_of_split in Hsegs. congruence.
  - split; [done|]. apply scope_segments_of_split in Hs. done.
Qed.
