(* ===== verification/ContentContract.v ===== *)
(** * The content contract (crates/audiodown-plugin-api: content.rs, error.rs, rpc.rs)

    The messages a content plugin exchanges with the core, and the validators
    that bound every field.  Field validators return the first violated
    condition; the [_spec] lemmas relate each validator to a well-formedness
    predicate stated without it. *)

From S2P Require Import Prelude Text.

(** ** content.rs: limits *)

Definition MAX_QUERY_BYTES : Z := 512.
Definition MAX_CURSOR_BYTES : Z := 4 * 1024.
Definition MAX_OPAQUE_ID_BYTES : Z := 1024.
Definition MAX_ITEMS_PER_RESPONSE : Z := 200.
Definition MAX_SECTIONS_PER_RESPONSE : Z := 32.
Definition MAX_TITLE_BYTES : Z := 512.
Definition MAX_SHORT_TEXT_BYTES : Z := 1024.
Definition MAX_DESCRIPTION_BYTES : Z := 4 * 1024.

(** ** Methods and capabilities *)

Inductive ContentMethod :=
  MSearch | MDiscover | MCategories | MAlbumGet | MTracksList.
Global Instance ContentMethod_eq_dec : EqDecision ContentMethod.
Proof. solve_decision. Defined.

Definition ContentMethod_ALL : list ContentMethod :=
  [MSearch; MDiscover; MCategories; MAlbumGet; MTracksList].

Definition ContentMethod_capability (m : ContentMethod) : string :=
  match m with
  | MSearch => "content.search"
  | MDiscover => "content.discover"
  | MCategories => "content.categories"
  | MAlbumGet => "content.album.get"
  | MTracksList => "content.tracks.list"
  end.

Definition ContentMethod_from_capability (value : string) : option ContentMethod :=
  List.find (λ method, eqb (ContentMethod_capability method) value) ContentMethod_ALL.

Inductive ContentResourceType := RTAlbum | RTTrack | RTCategory.
Global Instance ContentResourceType_eq_dec : EqDecision ContentResourceType.
Proof. solve_decision. Defined.

(** ** Errors and field validators *)

Inductive ContentContractError :=
| InvalidText (field : string)
| InvalidOpaqueValue (field : string)
| InvalidLimit
| TooManyItems
| TooManySections.
Global Instance ContentContractError_eq_dec : EqDecision ContentContractError.
Proof. solve_decision. Defined.

Abbreviation validation := (result ContentContractError unit).

Definition validate_limit (limit : Z) : validation :=
  if (1 <=? limit) && (limit <=? MAX_ITEMS_PER_RESPONSE) then Ok tt else Err InvalidLimit.

Definition validate_item_count (count : Z) : validation :=
  if count <=? MAX_ITEMS_PER_RESPONSE then Ok tt else Err TooManyItems.

Definition validate_nonempty (value : string) (maximum : Z) (field : string) : validation :=
  if str_is_empty (trim value) || (str_len value >? maximum)
  then Err (InvalidText field) else Ok tt.

Definition validate_opaque (value : string) (maximum : Z) (field : string) : validation :=
  if str_is_empty value || (str_len value >? maximum) || str_contains value "000"%char
  then Err (InvalidOpaqueValue field) else Ok tt.

Definition validate_optional_opaque (value : option string) (maximum : Z) (field : string) :
    validation :=
  match value with
  | Some value => validate_opaque value maximum field
  | None => Ok tt
  end.

Definition validate_optional_text (value : option string) (maximum : Z) (field : string) :
    validation :=
  match value with
  | Some value => validate_nonempty value maximum field
  | None => Ok tt
  end.

(** ** Items *)

Record ContentItem := mkContentItem {
  ContentItem_resource_type : ContentResourceType;
  ContentItem_resource_id : string;
  ContentItem_canonical_id : option string;
  ContentItem_title : string;
  ContentItem_subtitle : option string;
  ContentItem_description : option string;
}.

Definition ContentItem_validate (self : ContentItem) : validation :=
  validate_opaque (ContentItem_resource_id self) MAX_OPAQUE_ID_BYTES "resourceId";;
  validate_optional_opaque (ContentItem_canonical_id self) MAX_OPAQUE_ID_BYTES "canonicalId";;
  validate_nonempty (ContentItem_title self) MAX_TITLE_BYTES "title";;
  validate_optional_text (ContentItem_subtitle self) MAX_SHORT_TEXT_BYTES "subtitle";;
  validate_optional_text (ContentItem_description self) MAX_DESCRIPTION_BYTES "description".

Inductive DiscoverLayout :=
  HeroCarousel | AlbumGrid | HorizontalList | RankedList | CategoryGrid.

Record DiscoverSection := mkDiscoverSection {
  DiscoverSection_id : string;
  DiscoverSection_title : string;
  DiscoverSection_layout : DiscoverLayout;
  DiscoverSection_items : list ContentItem;
}.

Definition DiscoverSection_validate (self : DiscoverSection) : validation :=
  validate_opaque (DiscoverSection_id self) MAX_OPAQUE_ID_BYTES "sectionId";;
  validate_nonempty (DiscoverSection_title self) MAX_TITLE_BYTES "sectionTitle";;
  validate_item_count (zlen (DiscoverSection_items self));;
  for_each ContentItem_validate (DiscoverSection_items self).

Record CategoryItem := mkCategoryItem {
  CategoryItem_resource_id : string;
  CategoryItem_canonical_id : option string;
  CategoryItem_title : string;
  CategoryItem_description : option string;
}.

Definition CategoryItem_validate (self : CategoryItem) : validation :=
  validate_opaque (CategoryItem_resource_id self) MAX_OPAQUE_ID_BYTES "resourceId";;
  validate_optional_opaque (CategoryItem_canonical_id self) MAX_OPAQUE_ID_BYTES "canonicalId";;
  validate_nonempty (CategoryItem_title self) MAX_TITLE_BYTES "title";;
  validate_optional_text (CategoryItem_description self) MAX_DESCRIPTION_BYTES "description".

Record AlbumDetail := mkAlbumDetail {
  AlbumDetail_resource_id : string;
  AlbumDetail_canonical_id : option string;
  AlbumDetail_title : string;
  AlbumDetail_creator : option string;
  AlbumDetail_description : option string;
  AlbumDetail_track_count : option Z;
}.

Definition AlbumDetail_validate (self : AlbumDetail) : validation :=
  validate_opaque (AlbumDetail_resource_id self) MAX_OPAQUE_ID_BYTES "resourceId";;
  validate_optional_opaque (AlbumDetail_canonical_id self) MAX_OPAQUE_ID_BYTES "canonicalId";;
  validate_nonempty (AlbumDetail_title self) MAX_TITLE_BYTES "title";;
  validate_optional_text (AlbumDetail_creator self) MAX_SHORT_TEXT_BYTES "creator";;
  validate_optional_text (AlbumDetail_description self) MAX_DESCRIPTION_BYTES "description".

Record TrackItem := mkTrackItem {
  TrackItem_resource_id : string;
  TrackItem_canonical_id : option string;
  TrackItem_title : string;
  TrackItem_subtitle : option string;
  TrackItem_sequence : option Z;
  TrackItem_duration_seconds : option Z;
}.

Definition TrackItem_validate (self : TrackItem) : validation :=
  validate_opaque (TrackItem_resource_id self) MAX_OPAQUE_ID_BYTES "resourceId";;
  validate_optional_opaque (TrackItem_canonical_id self) MAX_OPAQUE_ID_BYTES "canonicalId";;
  validate_nonempty (TrackItem_title self) MAX_TITLE_BYTES "title";;
  validate_optional_text (TrackItem_subtitle self) MAX_SHORT_TEXT_BYTES "subtitle".

(** ** Requests and results *)

Record SearchRequest := mkSearchRequest {
  SearchRequest_query : string;
  SearchRequest_cursor : option string;
  SearchRequest_limit : Z;
}.
Definition SearchRequest_validate (self : SearchRequest) : validation :=
  validate_nonempty (SearchRequest_query self) MAX_QUERY_BYTES "query";;
  validate_limit (SearchRequest_limit self);;
  validate_optional_opaque (SearchRequest_cursor self) MAX_CURSOR_BYTES "cursor".

Record SearchResult := mkSearchResult {
  SearchResult_items : list ContentItem;
  SearchResult_next_cursor : option string;
}.
Definition SearchResult_validate (self : SearchResult) : validation :=
  validate_item_count (zlen (SearchResult_items self));;
  for_each ContentItem_validate (SearchResult_items self);;
  validate_optional_opaque (SearchResult_next_cursor self) MAX_CURSOR_BYTES "nextCursor".

Record DiscoverRequest := mkDiscoverRequest {
  DiscoverRequest_cursor : option string;
  DiscoverRequest_limit : Z;
}.
Definition DiscoverRequest_validate (self : DiscoverRequest) : validation :=
  validate_limit (DiscoverRequest_limit self);;
  validate_optional_opaque (DiscoverRequest_cursor self) MAX_CURSOR_BYTES "cursor".

Record DiscoverResult := mkDiscoverResult {
  DiscoverResult_sections : list DiscoverSection;
  DiscoverResult_next_cursor : option string;
}.
Definition DiscoverResult_validate (self : DiscoverResult) : validation :=
  if zlen (DiscoverResult_sections self) >? MAX_SECTIONS_PER_RESPONSE
  then Err TooManySections
  else
    for_each DiscoverSection_validate (DiscoverResult_sections self);;
    validate_optional_opaque (DiscoverResult_next_cursor self) MAX_CURSOR_BYTES "nextCursor".

Record CategoriesRequest := mkCategoriesRequest {}.

Record CategoriesResult := mkCategoriesResult { CategoriesResult_items : list CategoryItem }.
Definition CategoriesResult_validate (self : CategoriesResult) : validation :=
  validate_item_count (zlen (CategoriesResult_items self));;
  for_each CategoryItem_validate (CategoriesResult_items self).

Record AlbumGetRequest := mkAlbumGetRequest { AlbumGetRequest_resource_id : string }.
Definition AlbumGetRequest_validate (self : AlbumGetRequest) : validation :=
  validate_opaque (AlbumGetRequest_resource_id self) MAX_OPAQUE_ID_BYTES "resourceId".

Record AlbumGetResult := mkAlbumGetResult { AlbumGetResult_album : AlbumDetail }.
Definition AlbumGetResult_validate (self : AlbumGetResult) : validation :=
  AlbumDetail_validate (AlbumGetResult_album self).

Record TracksListRequest := mkTracksListRequest {
  TracksListRequest_album_resource_id : string;
  TracksListRequest_cursor : option string;
  TracksListRequest_limit : Z;
}.
Definition TracksListRequest_validate (self : TracksListRequest) : validation :=
  validate_opaque (TracksListRequest_album_resource_id self) MAX_OPAQUE_ID_BYTES
    "albumResourceId";;
  validate_limit (TracksListRequest_limit self);;
  validate_optional_opaque (TracksListRequest_cursor self) MAX_CURSOR_BYTES "cursor".

Record TracksListResult := mkTracksListResult {
  TracksListResult_items : list TrackItem;
  TracksListResult_next_cursor : option string;
}.
Definition TracksListResult_validate (self : TracksListResult) : validation :=
  validate_item_count (zlen (TracksListResult_items self));;
  for_each TrackItem_validate (TracksListResult_items self);;
  validate_optional_opaque (TracksListResult_next_cursor self) MAX_CURSOR_BYTES "nextCursor".

(** ** error.rs *)

Definition MAX_ERROR_SUMMARY_BYTES : Z := 512.
Definition MAX_RETRY_AFTER_SECONDS : Z := 24 * 60 * 60.

Inductive PluginErrorCode :=
| InvalidRequest | PluginNotFound | PluginDisabled | PluginCapabilityMissing
| PluginUnavailable | PluginTimeout | PluginResponseInvalid | ResourceNotFound
| ResourceAccessDenied | ResourceTemporarilyUnavailable | CredentialNotFound
| CredentialExpired | CredentialScopeNotAllowed | LoginFlowNotFound | LoginFlowExpired
| LoginPending | LoginDenied | RateLimited | PlatformResponseChanged
| PluginInternalError.
Global Instance PluginErrorCode_eq_dec : EqDecision PluginErrorCode.
Proof. solve_decision. Defined.

Definition PluginErrorCode_is_retryable (self : PluginErrorCode) : bool :=
  match self with
  | PluginUnavailable | PluginTimeout | ResourceTemporarilyUnavailable
  | LoginPending | RateLimited => true
  | _ => false
  end.

Record PluginErrorData := mkPluginErrorData {
  PluginErrorData_code : PluginErrorCode;
  PluginErrorData_summary : string;
  PluginErrorData_retry_after_seconds : option Z;
}.

Definition PluginErrorData_validate (self : PluginErrorData) : validation :=
  if str_is_empty (trim (PluginErrorData_summary self))
     || (str_len (PluginErrorData_summary self) >? MAX_ERROR_SUMMARY_BYTES)
  then Err (InvalidText "errorSummary")
  else if is_some_and (λ seconds, seconds >? MAX_RETRY_AFTER_SECONDS)
            (PluginErrorData_retry_after_seconds self)
  then Err (InvalidText "retryAfterSeconds")
  else Ok tt.

(** ** rpc.rs

    [Value] is the type of JSON values of the serde_json crate. *)

Record JsonRpcError (Value : Type) := mkJsonRpcError {
  JsonRpcError_code : Z;
  JsonRpcError_message : string;
  JsonRpcError_data : option Value;
}.
Global Arguments mkJsonRpcError {_}.
Global Arguments JsonRpcError_code {_}.
Global Arguments JsonRpcError_message {_}.
Global Arguments JsonRpcError_data {_}.

Record JsonRpcResponse (Value : Type) := mkJsonRpcResponse {
  JsonRpcResponse_jsonrpc : string;
  JsonRpcResponse_id : string;
  JsonRpcResponse_result : option Value;
  JsonRpcResponse_error : option (JsonRpcError Value);
}.
Global Arguments mkJsonRpcResponse {_}.
Global Arguments JsonRpcResponse_jsonrpc {_}.
Global Arguments JsonRpcResponse_id {_}.
Global Arguments JsonRpcResponse_result {_}.
Global Arguments JsonRpcResponse_error {_}.

(** ** Well-formed messages *)

Definition opaque_ok (maximum : Z) (s : string) : Prop :=
  s ≠ "" ∧ str_len s ≤ maximum ∧ "000"%char ∉ bytes s.
Definition text_ok (maximum : Z) (s : string) : Prop :=
  ¬ whitespace_only whitespace_utf8 (bytes s) ∧ str_len s ≤ maximum.
Definition opt_ok {A} (P : A → Prop) (o : option A) : Prop :=
  match o with None => True | Some a => P a end.

Definition ContentItem_ok (i : ContentItem) : Prop :=
  opaque_ok 1024 (ContentItem_resource_id i) ∧
  opt_ok (opaque_ok 1024) (ContentItem_canonical_id i) ∧
  text_ok 512 (ContentItem_title i) ∧
  opt_ok (text_ok 1024) (ContentItem_subtitle i) ∧
  opt_ok (text_ok 4096) (ContentItem_description i).

Definition DiscoverSection_ok (s : DiscoverSection) : Prop :=
  opaque_ok 1024 (DiscoverSection_id s) ∧ text_ok 512 (DiscoverSection_title s) ∧
  zlen (DiscoverSection_items s) ≤ 200 ∧ Forall ContentItem_ok (DiscoverSection_items s).

Definition CategoryItem_ok (i : CategoryItem) : Prop :=
  opaque_ok 1024 (CategoryItem_resource_id i) ∧
  opt_ok (opaque_ok 1024) (CategoryItem_canonical_id i) ∧
  text_ok 512 (CategoryItem_title i) ∧
  opt_ok (text_ok 4096) (CategoryItem_description i).

Definition TrackItem_ok (i : TrackItem) : Prop :=
  opaque_ok 1024 (TrackItem_resource_id i) ∧
  opt_ok (opaque_ok 1024) (TrackItem_canonical_id i) ∧
  text_ok 512 (TrackItem_title i) ∧
  opt_ok (text_ok 1024) (TrackItem_subtitle i).

Definition SearchResult_ok (r : SearchResult) : Prop :=
  zlen (SearchResult_items r) ≤ 200 ∧ Forall ContentItem_ok (SearchResult_items r) ∧
  opt_ok (opaque_ok 4096) (SearchResult_next_cursor r).

Definition DiscoverResult_ok (r : DiscoverResult) : Prop :=
  zlen (DiscoverResult_sections r) ≤ 32 ∧
  Forall DiscoverSection_ok (DiscoverResult_sections r) ∧
  opt_ok (opaque_ok 4096) (DiscoverResult_next_cursor r).

Definition CategoriesResult_ok (r : CategoriesResult) : Prop :=
  zlen (CategoriesResult_items r) ≤ 200 ∧ Forall CategoryItem_ok (CategoriesResult_items r).

Definition TracksListResult_ok (r : TracksListResult) : Prop :=
  zlen (TracksListResult_items r) ≤ 200 ∧ Forall TrackItem_ok (TracksListResult_items r) ∧
  opt_ok (opaque_ok 4096) (TracksListResult_next_cursor r).

(** ** Lemmas: each validator decides its predicate *)

Lemma seq_Ok {E} (a b : result E unit) : (a;; b) = Ok tt ↔ a = Ok tt ∧ b = Ok tt.
Proof. rewrite bind_Ok. split; [intros ([] & ? & ?)|exists tt]; naive_solver. Qed.

Lemma validate_limit_Ok limit : validate_limit limit = Ok tt ↔ 1 ≤ limit ≤ 200.
Proof.
  unfold validate_limit, MAX_ITEMS_PER_RESPONSE.
  destruct (_ && _) eqn:E; bool_prop; [naive_solver|].
  split; [done|]. apply andb_false_iff in E. destruct E; bool_prop; lia.
Qed.

Lemma validate_item_count_Ok count : validate_item_count count = Ok tt ↔ count ≤ 200.
Proof.
  unfold validate_item_count, MAX_ITEMS_PER_RESPONSE.
  destruct (_ <=? _) eqn:E; bool_prop; [naive_solver|]. split; [done|lia].
Qed.

Lemma validate_nonempty_Ok value maximum field :
  validate_nonempty value maximum field = Ok tt ↔ text_ok maximum value.
Proof.
  unfold validate_nonempty, text_ok. rewrite <- trim_empty.
  destruct (str_is_empty _); simpl; [naive_solver|].
  destruct (_ >? _) eqn:E; bool_prop; [|naive_solver]. split; [done|lia].
Qed.

Lemma validate_opaque_Ok value maximum field :
  validate_opaque value maximum field = Ok tt ↔ opaque_ok maximum value.
Proof.
  unfold validate_opaque, opaque_ok, str_contains.
  destruct (str_is_empty value) eqn:He; simpl.
  { apply str_is_empty_true in He. naive_solver. }
  apply str_is_empty_false in He.
  destruct (_ >? _) eqn:E; bool_prop; simpl; [split; [done|lia]|].
  destruct (list_contains _ _) eqn:Hc; simpl.
  - apply list_contains_elem in Hc. naive_solver.
  - apply list_contains_not_elem in Hc. naive_solver.
Qed.

Lemma validate_optional_opaque_Ok value maximum field :
  validate_optional_opaque value maximum field = Ok tt ↔ opt_ok (opaque_ok maximum) value.
Proof. destruct value; simpl; [apply validate_opaque_Ok|done]. Qed.

Lemma validate_optional_text_Ok value maximum field :
  validate_optional_text value maximum field = Ok tt ↔ opt_ok (text_ok maximum) value.
Proof. destruct value; simpl; [apply validate_nonempty_Ok|done]. Qed.

Create Rewrite HintDb validators.
#[export] Hint Rewrite @seq_Ok @for_each_Ok validate_limit_Ok validate_item_count_Ok
  validate_nonempty_Ok validate_opaque_Ok validate_optional_opaque_Ok
  validate_optional_text_Ok : validators.

Lemma ContentItem_validate_Ok i : ContentItem_validate i = Ok tt ↔ ContentItem_ok i.
Proof. unfold ContentItem_validate. by autorewrite with validators. Qed.

Lemma CategoryItem_validate_Ok i : CategoryItem_validate i = Ok tt ↔ CategoryItem_ok i.
Proof. unfold CategoryItem_validate. by autorewrite with validators. Qed.

Lemma TrackItem_validate_Ok i : TrackItem_validate i = Ok tt ↔ TrackItem_ok i.
Proof. unfold TrackItem_validate. by autorewrite with validators. Qed.

Lemma Forall_validate {A} (f : A → validation) (P : A → Prop) l :
  (∀ x, f x = Ok tt ↔ P x) → Forall (λ x, f x = Ok tt) l ↔ Forall P l.
Proof. intros H. by setoid_rewrite H. Qed.

Lemma DiscoverSection_validate_Ok s :
  DiscoverSection_validate s = Ok tt ↔ DiscoverSection_ok s.
Proof.
  unfold DiscoverSection_validate, DiscoverSection_ok. autorewrite with validators.
  by rewrite (Forall_validate _ _ _ ContentItem_validate_Ok).
Qed.

Lemma SearchResult_validate_Ok r : SearchResult_validate r = Ok tt ↔ SearchResult_ok r.
Proof.
  unfold SearchResult_validate, SearchResult_ok. autorewrite with validators.
  by rewrite (Forall_validate _ _ _ ContentItem_validate_Ok).
Qed.

Lemma DiscoverResult_validate_Ok r :
  DiscoverResult_validate r = Ok tt ↔ DiscoverResult_ok r.
Proof.
  unfold DiscoverResult_validate, DiscoverResult_ok, MAX_SECTIONS_PER_RESPONSE.
  destruct (_ >? _) eqn:E; bool_prop; [split; [done|lia]|].
  autorewrite with validators.
  rewrite (Forall_validate _ _ _ DiscoverSection_validate_Ok). naive_solver.
Qed.

Lemma CategoriesResult_validate_Ok r :
  CategoriesResult_validate r = Ok tt ↔ CategoriesResult_ok r.
Proof.
  unfold CategoriesResult_validate, CategoriesResult_ok. autorewrite with validators.
  by rewrite (Forall_validate _ _ _ CategoryItem_validate_Ok).
Qed.

Lemma TracksListResult_validate_Ok r :
  TracksListResult_validate r = Ok tt ↔ TracksListResult_ok r.
Proof.
  unfold TracksListResult_validate, TracksListResult_ok. autorewrite with validators.
  by rewrite (Forall_validate _ _ _ TrackItem_validate_Ok).
Qed.

(** ** Properties *)

(** Every list-shaped plugin response is accepted exactly when it is well
    formed: bounded item and section counts, bounded non-empty identifiers and
    texts in every item, and a bounded continuation cursor. *)
Theorem content_results_validated :
  (∀ r, SearchResult_validate r = Ok tt ↔ SearchResult_ok r) ∧
  (∀ r, DiscoverResult_validate r = Ok tt ↔ DiscoverResult_ok r) ∧
  (∀ r, CategoriesResult_validate r = Ok tt ↔ CategoriesResult_ok r) ∧
  (∀ r, TracksListResult_validate r = Ok tt ↔ TracksListResult_ok r).
Proof.
  split; [apply SearchResult_validate_Ok|]. split; [apply DiscoverResult_validate_Ok|].
  split; [apply CategoriesResult_validate_Ok|apply TracksListResult_validate_Ok].
Qed.

(** A capability string and its method determine each other. *)
Theorem content_capability_roundtrip value m :
  ContentMethod_from_capability value = Some m ↔ ContentMethod_capability m = value.
Proof.
  unfold ContentMethod_from_capability. split.
  - intros [_ H]%find_some. by apply eqb_eq.
  - intros <-. by destruct m.
Qed.
