(* ===== verification/Foreign.v ===== *)
(** * Third-party code as interfaces

    The program calls the url, serde_json, base64, sha2, http, cookie_store,
    cookie, psl and flate2 crates.  Their code is not part of the repository:
    each is a class of operations without definitions, and what a theorem needs
    of it is a separate class of laws stating documented behaviour.  The
    file Concrete.v gives one small instance of every interface, which the
    witnesses evaluate. *)

From S2P Require Import Prelude Text Domain.

(** ** The base64 and sha2 crates *)

Class Encoding := {
  (** [URL_SAFE_NO_PAD.encode] and [.decode] *)
  b64_encode : list byte → string;
  b64_decode : string → option (list byte);
  (** [Sha256::digest] *)
  sha256 : list byte → list byte;
}.

(** Unpadded base64 writes [⌈4n/3⌉] characters for [n] bytes and decodes to what
    was encoded. *)
Class EncodingLaws (B : Encoding) : Prop := {
  b64_decode_encode l : b64_decode (b64_encode l) = Some l;
  b64_encode_length l : str_len (b64_encode l) = (4 * zlen l + 2) / 3;
}.

(** ** The url crate *)

Inductive Host := HostDomain (domain : string) | HostIpv4 | HostIpv6.
Global Instance Host_eq_dec : EqDecision Host.
Proof. solve_decision. Defined.

Class UrlLib := {
  Url : Type;
  #[global] Url_eq_dec :: EqDecision Url;
  Url_parse : string → option Url;
  Url_as_str : Url → string;
  Url_scheme : Url → string;
  Url_username : Url → string;
  Url_password : Url → option string;
  Url_host : Url → option Host;
  Url_host_str : Url → option string;
  Url_path : Url → string;
  Url_query : Url → option string;
  Url_fragment : Url → option string;
  Url_port_or_known_default : Url → option Z;
  (** [url.origin().ascii_serialization()] *)
  Url_origin : Url → string;
  Url_join : Url → string → option Url;
}.

(** An [http] or [https] origin serializes to a URL without userinfo, path,
    query or fragment, and parsing that URL gives the same origin back. *)
Class UrlLaws (U : UrlLib) : Prop := {
  origin_reparse u :
    Url_scheme u = "http" ∨ Url_scheme u = "https" → is_some (Url_host_str u) = true →
    ∃ u', Url_parse (Url_origin u) = Some u' ∧
      Url_origin u' = Url_origin u ∧
      Url_scheme u' = Url_scheme u ∧ Url_host_str u' = Url_host_str u ∧
      Url_username u' = "" ∧ Url_password u' = None ∧ Url_path u' = "/" ∧
      Url_query u' = None ∧ Url_fragment u' = None;
  origin_trimmed u :
    Url_scheme u = "http" ∨ Url_scheme u = "https" → is_some (Url_host_str u) = true →
    Url_origin u ≠ "" ∧ trim (Url_origin u) = Url_origin u;
}.

(** ** The http crate: header maps *)

Class HeaderLib := {
  HeaderValue : Type;
  HeaderValue_as_bytes : HeaderValue → list byte;
  HeaderValue_to_str : HeaderValue → option string;
  HeaderValue_from_str : string → option HeaderValue;
  HeaderMap : Type;
  HeaderMap_new : HeaderMap;
  (** [iter]: every value of every name; names are lower case *)
  HeaderMap_iter : HeaderMap → list (string * HeaderValue);
  HeaderMap_len : HeaderMap → Z;
  HeaderMap_keys : HeaderMap → list string;
  HeaderMap_contains_key : HeaderMap → string → bool;
  HeaderMap_get_all : HeaderMap → string → list HeaderValue;
  HeaderMap_append : HeaderMap → string → HeaderValue → HeaderMap;
  HeaderMap_insert : HeaderMap → string → HeaderValue → HeaderMap;
}.

(** A header map is a multimap: [append] adds a value, [insert] replaces every
    value of the name; the other operations read the entries. *)
Class HeaderLaws (H : HeaderLib) : Prop := {
  header_new : HeaderMap_iter HeaderMap_new = [];
  header_append m n v : HeaderMap_iter (HeaderMap_append m n v) ≡ₚ (n, v) :: HeaderMap_iter m;
  header_insert m n v :
    HeaderMap_iter (HeaderMap_insert m n v) ≡ₚ
    (n, v) :: List.filter (λ e, negb (eqb e.1 n)) (HeaderMap_iter m);
  header_len m : HeaderMap_len m = zlen (HeaderMap_iter m);
  header_keys m n : n ∈ HeaderMap_keys m ↔ n ∈ (HeaderMap_iter m).*1;
  header_contains m n : HeaderMap_contains_key m n = true ↔ n ∈ (HeaderMap_iter m).*1;
  header_get_all m n :
    HeaderMap_get_all m n = (List.filter (λ e, eqb e.1 n) (HeaderMap_iter m)).*2;
  header_to_str v s : HeaderValue_to_str v = Some s → HeaderValue_as_bytes v = bytes s;
  header_from_str s v : HeaderValue_from_str s = Some v → HeaderValue_as_bytes v = bytes s;
}.

(** ** The flate2 crate *)

Class Gzip := {
  (** [GzDecoder::new(body).take(limit).read_to_end]: at most [limit] bytes of
      the decompressed stream, or a format error *)
  gz_read : list byte → Z → option (list byte);
}.

(** ** The cookie, cookie_store, psl, chrono and uuid crates *)

Inductive CookieError := CookieExpired | CookieRejected.

Class CookieLib {U : UrlLib} := {
  (** a parsed [Set-Cookie] value *)
  RawCookie : Type;
  RawCookie_parse : string → option RawCookie;
  RawCookie_name : RawCookie → string;
  RawCookie_value : RawCookie → string;
  RawCookie_value_trimmed : RawCookie → string;
  RawCookie_domain : RawCookie → option string;
  (** a cookie of a store *)
  CookieDomain : Type;
  CookieDomain_cmp : CookieDomain → CookieDomain → comparison;
  CookieDomain_matches : CookieDomain → Url → bool;
  StoredCookie : Type;
  StoredCookie_name : StoredCookie → string;
  StoredCookie_value : StoredCookie → string;
  StoredCookie_path : StoredCookie → string;
  StoredCookie_domain : StoredCookie → CookieDomain;
  StoredCookie_secure : StoredCookie → option bool;
  StoredCookie_http_only : StoredCookie → option bool;
  (** [expires_datetime().unix_timestamp()] *)
  StoredCookie_expires : StoredCookie → option Z;
  CookieStore : Type;
  CookieStore_default : CookieStore;
  (** the store reads the clock *)
  CookieStore_insert_raw : time → RawCookie → Url → CookieStore →
    result CookieError unit * CookieStore;
  CookieStore_iter_unexpired : time → CookieStore → list StoredCookie;
  CookieStore_matches : time → CookieStore → Url → list StoredCookie;
  (** [psl::suffix_str] *)
  psl_suffix : string → option string;
  (** [DateTime::from_timestamp(seconds, 0)] *)
  from_timestamp : Z → option time;
}.
