(* ===== verification/CredentialContract.v ===== *)
(** * The credential contract and the manifest
    (crates/audiodown-plugin-api: credential.rs, manifest.rs)

    The messages a credential plugin exchanges with the core, their
    validators, and the plugin manifest with its exact target origins. *)

From S2P Require Import Prelude Text Domain ContentContract Foreign.

(** ** credential.rs *)

Definition MAX_PLUGIN_OPAQUE_STATE_BYTES : Z := 4 * 1024.
Definition MAX_QR_PAYLOAD_BYTES : Z := 4 * 1024.
Definition MAX_COOKIE_JAR_SESSION_ID_BYTES : Z := 256.
Definition MAX_QR_DISPLAY_CODE_BYTES : Z := 128.
Definition MAX_ACCOUNT_TEXT_BYTES : Z := 256.
Definition MAX_QR_EXPIRES_SECONDS : Z := 60 * 60.
Definition MAX_POLL_INTERVAL_SECONDS : Z := 60.

Inductive CredentialMethod := QrStart | QrPoll | Import | Status | Refresh | Logout.
Global Instance CredentialMethod_eq_dec : EqDecision CredentialMethod.
Proof. solve_decision. Defined.

Definition CredentialMethod_ALL : list CredentialMethod :=
  [QrStart; QrPoll; Import; Status; Refresh; Logout].

Definition CredentialMethod_capability (m : CredentialMethod) : string :=
  match m with
  | QrStart => "credential.qr.start"
  | QrPoll => "credential.qr.poll"
  | Import => "credential.import"
  | Status => "credential.status"
  | Refresh => "credential.refresh"
  | Logout => "credential.logout"
  end.

Definition CredentialMethod_from_capability (value : string) : option CredentialMethod :=
  List.find (λ method, eqb (CredentialMethod_capability method) value) CredentialMethod_ALL.

Inductive CredentialContractError :=
| CredInvalidOpaqueValue (field : string)
| CredInvalidText (field : string)
| CredInvalidDuration (field : string)
| CredInvalidPollState
| CredInvalidAccountStatus
| CredInvalidLogoutStatus.

Abbreviation cred_validation := (result CredentialContractError unit).

Definition credential_validate_opaque (value : string) (maximum : Z) (field : string) :
    cred_validation :=
  if str_is_empty value || (str_len value >? maximum) || str_contains value "000"%char
  then Err (CredInvalidOpaqueValue field) else Ok tt.

Definition credential_validate_optional_text
    (value : option string) (maximum : Z) (field : string) : cred_validation :=
  match value with
  | Some value =>
      if str_is_empty (trim value) || (str_len value >? maximum) || any_control (bytes value)
      then Err (CredInvalidText field) else Ok tt
  | None => Ok tt
  end.

Definition validate_cookie_jar_session_id (value : string) : cred_validation :=
  credential_validate_opaque value MAX_COOKIE_JAR_SESSION_ID_BYTES "cookieJarSessionId".

Definition validate_poll_interval (value : Z) : cred_validation :=
  if (1 <=? value) && (value <=? MAX_POLL_INTERVAL_SECONDS)
  then Ok tt else Err (CredInvalidDuration "pollIntervalSeconds").

Record PluginOpaqueState := mkPluginOpaqueState { PluginOpaqueState_as_str : string }.
Definition PluginOpaqueState_parse (value : string) :
    result CredentialContractError PluginOpaqueState :=
  credential_validate_opaque value MAX_PLUGIN_OPAQUE_STATE_BYTES "pluginOpaqueState";;
  Ok (mkPluginOpaqueState value).

Record QrPresentation := mkQrPresentation {
  QrPresentation_payload : string;
  QrPresentation_display_code : option string;
  QrPresentation_expires_in_seconds : Z;
  QrPresentation_poll_interval_seconds : Z;
  QrPresentation_plugin_state : option PluginOpaqueState;
}.

Definition QrPresentation_validate (self : QrPresentation) : cred_validation :=
  credential_validate_opaque (QrPresentation_payload self) MAX_QR_PAYLOAD_BYTES "qrPayload";;
  credential_validate_optional_text (QrPresentation_display_code self)
    MAX_QR_DISPLAY_CODE_BYTES "qrDisplayCode";;
  if (QrPresentation_expires_in_seconds self =? 0)
     || (QrPresentation_expires_in_seconds self >? MAX_QR_EXPIRES_SECONDS)
  then Err (CredInvalidDuration "expiresInSeconds")
  else
    validate_poll_interval (QrPresentation_poll_interval_seconds self);;
    if QrPresentation_poll_interval_seconds self >? QrPresentation_expires_in_seconds self
    then Err (CredInvalidDuration "pollIntervalSeconds")
    else Ok tt.

Record CredentialQrStartRequest := mkCredentialQrStartRequest {
  CredentialQrStartRequest_scope : CredentialScope;
  CredentialQrStartRequest_cookie_jar_session_id : string;
}.
Definition CredentialQrStartRequest_validate (self : CredentialQrStartRequest) :
    cred_validation :=
  validate_cookie_jar_session_id (CredentialQrStartRequest_cookie_jar_session_id self).

Record CredentialQrStartResult := mkCredentialQrStartResult {
  CredentialQrStartResult_presentation : QrPresentation;
}.
Definition CredentialQrStartResult_validate (self : CredentialQrStartResult) :
    cred_validation :=
  QrPresentation_validate (CredentialQrStartResult_presentation self).

Record CredentialQrPollRequest := mkCredentialQrPollRequest {
  CredentialQrPollRequest_scope : CredentialScope;
  CredentialQrPollRequest_cookie_jar_session_id : string;
  CredentialQrPollRequest_plugin_state : option PluginOpaqueState;
}.
Definition CredentialQrPollRequest_validate (self : CredentialQrPollRequest) :
    cred_validation :=
  validate_cookie_jar_session_id (CredentialQrPollRequest_cookie_jar_session_id self).

Inductive QrPollStatus := Pending | Scanned | Confirmed | QrExpired | Denied.

Record CredentialPromotionRequest := mkCredentialPromotionRequest {
  CredentialPromotionRequest_scope : CredentialScope;
}.

Record CredentialAccountStatus := mkCredentialAccountStatus {
  CredentialAccountStatus_status : CredentialStatus;
  CredentialAccountStatus_account_id_hint : option string;
  CredentialAccountStatus_display_name : option string;
}.
Definition CredentialAccountStatus_validate (self : CredentialAccountStatus) :
    cred_validation :=
  credential_validate_optional_text (CredentialAccountStatus_account_id_hint self)
    MAX_ACCOUNT_TEXT_BYTES "accountIdHint";;
  credential_validate_optional_text (CredentialAccountStatus_display_name self)
    MAX_ACCOUNT_TEXT_BYTES "displayName".

Record CredentialQrPollResult := mkCredentialQrPollResult {
  CredentialQrPollResult_status : QrPollStatus;
  CredentialQrPollResult_next_poll_seconds : option Z;
  CredentialQrPollResult_plugin_state : option PluginOpaqueState;
  CredentialQrPollResult_promotion : option CredentialPromotionRequest;
  CredentialQrPollResult_account : option CredentialAccountStatus;
}.

Definition CredentialQrPollResult_validate (self : CredentialQrPollResult) :
    cred_validation :=
  let next_poll_seconds := CredentialQrPollResult_next_poll_seconds self in
  let promotion := CredentialQrPollResult_promotion self in
  let account := CredentialQrPollResult_account self in
  match CredentialQrPollResult_status self with
  | Pending | Scanned =>
      seconds ← ok_or next_poll_seconds CredInvalidPollState;
      validate_poll_interval seconds;;
      if is_some promotion || is_some account then Err CredInvalidPollState else Ok tt
  | Confirmed =>
      if is_some next_poll_seconds || is_none promotion || is_none account
         || is_some_and
              (λ account, negb (eqb (CredentialAccountStatus_status account) Active)) account
      then Err CredInvalidPollState else Ok tt
  | QrExpired | Denied =>
      if is_some next_poll_seconds || is_some promotion || is_some account
      then Err CredInvalidPollState else Ok tt
  end;;
  match account with
  | Some account => CredentialAccountStatus_validate account
  | None => Ok tt
  end.

(** [CredentialImportRequest], [CredentialStatusRequest] and
    [CredentialLogoutRequest] are instances of one macro. *)
Record CredentialRequest := mkCredentialRequest {
  CredentialRequest_credential_id : CredentialId;
  CredentialRequest_scope : CredentialScope;
}.
Definition CredentialRequest_validate (self : CredentialRequest) : cred_validation := Ok tt.

Record CredentialRefreshRequest := mkCredentialRefreshRequest {
  CredentialRefreshRequest_credential_id : CredentialId;
  CredentialRefreshRequest_scope : CredentialScope;
  CredentialRefreshRequest_cookie_jar_session_id : string;
}.
Definition CredentialRefreshRequest_validate (self : CredentialRefreshRequest) :
    cred_validation :=
  validate_cookie_jar_session_id (CredentialRefreshRequest_cookie_jar_session_id self).

(** [CredentialImportResult] and [CredentialStatusResult] are instances of one
    macro. *)
Record AccountResult := mkAccountResult { AccountResult_account : CredentialAccountStatus }.
Definition AccountResult_validate (self : AccountResult) : cred_validation :=
  CredentialAccountStatus_validate (AccountResult_account self).

Record CredentialRefreshResult := mkCredentialRefreshResult {
  CredentialRefreshResult_account : CredentialAccountStatus;
}.
Definition CredentialRefreshResult_validate (self : CredentialRefreshResult) :
    cred_validation :=
  CredentialAccountStatus_validate (CredentialRefreshResult_account self);;
  if eqb (CredentialAccountStatus_status (CredentialRefreshResult_account self)) Active
  then Ok tt else Err CredInvalidAccountStatus.

Record CredentialLogoutResult := mkCredentialLogoutResult {
  CredentialLogoutResult_status : CredentialStatus;
}.
Definition CredentialLogoutResult_validate (self : CredentialLogoutResult) :
    cred_validation :=
  if eqb (CredentialLogoutResult_status self) Revoked
  then Ok tt else Err CredInvalidLogoutStatus.

(** ** manifest.rs *)

Definition SYSTEM_HEALTH_CAPABILITY : string := "system.health".
Definition MAX_CREDENTIAL_SCOPE_DECLARATIONS : Z := 32.
Definition MAX_CREDENTIAL_TARGET_ORIGINS : Z := 16.
Definition MAX_CREDENTIAL_TARGET_ORIGIN_BYTES : Z := 2 * 1024.

Inductive PluginType := Content | Credential.
Global Instance PluginType_eq_dec : EqDecision PluginType.
Proof. solve_decision. Defined.

Definition capability_is_supported (plugin_type : PluginType) (capability : string) : bool :=
  eqb capability SYSTEM_HEALTH_CAPABILITY
  || (eqb plugin_type Content && is_some (ContentMethod_from_capability capability))
  || (eqb plugin_type Credential && is_some (CredentialMethod_from_capability capability)).

Inductive RuntimeKind := Nodejs.
Record RuntimeSpec := mkRuntimeSpec {
  RuntimeSpec_kind : RuntimeKind;
  RuntimeSpec_version : string;
  RuntimeSpec_entry : string;
}.
Record CompatibilitySpec := mkCompatibilitySpec {
  CompatibilitySpec_plugin_api : string;
  CompatibilitySpec_core : string;
}.
Record PlatformSpec := mkPlatformSpec { PlatformSpec_id : string; PlatformSpec_name : string }.
Record NetworkPolicy := mkNetworkPolicy { NetworkPolicy_allowed_hosts : list string }.

Record CredentialTargetOrigin := mkCredentialTargetOrigin {
  CredentialTargetOrigin_as_str : string;
}.
Global Instance CredentialTargetOrigin_eq_dec : EqDecision CredentialTargetOrigin.
Proof. solve_decision. Defined.

Inductive CredentialTargetOriginError := OriginInvalid.

Section origin_parse.
Context {U : UrlLib}.

Definition CredentialTargetOrigin_parse (value : string) :
    result CredentialTargetOriginError CredentialTargetOrigin :=
  if str_is_empty value || negb (eqb value (trim value))
     || (str_len value >? MAX_CREDENTIAL_TARGET_ORIGIN_BYTES)
  then Err OriginInvalid
  else
    parsed ← ok_or (Url_parse value) OriginInvalid;
    if negb (eqb (Url_scheme parsed) "http" || eqb (Url_scheme parsed) "https")
       || negb (eqb (Url_username parsed) "")
       || is_some (Url_password parsed)
       || is_none (Url_host_str parsed)
       || negb (eqb (Url_path parsed) "/")
       || is_some (Url_query parsed)
       || is_some (Url_fragment parsed)
       || is_some_and (λ host, str_contains host "*"%char) (Url_host_str parsed)
    then Err OriginInvalid
    else Ok (mkCredentialTargetOrigin (Url_origin parsed)).
End origin_parse.

Record CredentialScopeDeclaration := mkCredentialScopeDeclaration {
  CredentialScopeDeclaration_scope : CredentialScope;
  CredentialScopeDeclaration_target_origins : list CredentialTargetOrigin;
}.

Record CredentialDeclarations := mkCredentialDeclarations {
  CredentialDeclarations_provided_scopes : list CredentialScopeDeclaration;
  CredentialDeclarations_required_scopes : list CredentialScopeDeclaration;
  CredentialDeclarations_optional_scopes : list CredentialScopeDeclaration;
}.
Definition CredentialDeclarations_is_empty (self : CredentialDeclarations) : bool :=
  match CredentialDeclarations_provided_scopes self,
        CredentialDeclarations_required_scopes self,
        CredentialDeclarations_optional_scopes self with
  | [], [], [] => true
  | _, _, _ => false
  end.
Definition CredentialDeclarations_declaration_count (self : CredentialDeclarations) : Z :=
  zlen (CredentialDeclarations_provided_scopes self)
  + zlen (CredentialDeclarations_required_scopes self)
  + zlen (CredentialDeclarations_optional_scopes self).

Record LifecycleScriptPolicy := mkLifecycleScriptPolicy {
  LifecycleScriptPolicy_required : bool;
  LifecycleScriptPolicy_reason : option string;
}.
Record BuildSpec := mkBuildSpec {
  BuildSpec_npm_lifecycle_scripts : LifecycleScriptPolicy;
}.

Record PluginManifest := mkPluginManifest {
  PluginManifest_schema_version : string;
  PluginManifest_id : PluginId;
  PluginManifest_name : string;
  PluginManifest_version : string;
  PluginManifest_plugin_type : PluginType;
  PluginManifest_runtime : RuntimeSpec;
  PluginManifest_compatibility : CompatibilitySpec;
  PluginManifest_platform : PlatformSpec;
  PluginManifest_capabilities : list string;
  PluginManifest_network : NetworkPolicy;
  PluginManifest_credentials : CredentialDeclarations;
  PluginManifest_build : BuildSpec;
}.

(** ** Well-formed messages *)

Definition safe_text_ok (maximum : Z) (s : string) : Prop :=
  ¬ whitespace_only whitespace_utf8 (bytes s) ∧ str_len s ≤ maximum ∧
  any_control (bytes s) = false.

Definition account_ok (a : CredentialAccountStatus) : Prop :=
  opt_ok (safe_text_ok 256) (CredentialAccountStatus_account_id_hint a) ∧
  opt_ok (safe_text_ok 256) (CredentialAccountStatus_display_name a).

(** The fields each poll status carries. *)
Definition qr_poll_ok (r : CredentialQrPollResult) : Prop :=
  let next_poll := CredentialQrPollResult_next_poll_seconds r in
  let promotion := CredentialQrPollResult_promotion r in
  let account := CredentialQrPollResult_account r in
  match CredentialQrPollResult_status r with
  | Pending | Scanned =>
      (∃ n, next_poll = Some n ∧ 1 ≤ n ≤ 60) ∧ promotion = None ∧ account = None
  | Confirmed =>
      next_poll = None ∧ (∃ p, promotion = Some p) ∧
      ∃ a, account = Some a ∧ CredentialAccountStatus_status a = Active ∧ account_ok a
  | QrExpired | Denied => next_poll = None ∧ promotion = None ∧ account = None
  end.

Definition qr_presentation_ok (p : QrPresentation) : Prop :=
  opaque_ok 4096 (QrPresentation_payload p) ∧
  opt_ok (safe_text_ok 128) (QrPresentation_display_code p) ∧
  QrPresentation_expires_in_seconds p ≤ 3600 ∧
  1 ≤ QrPresentation_poll_interval_seconds p ≤ 60 ∧
  QrPresentation_poll_interval_seconds p ≤ QrPresentation_expires_in_seconds p.

(** ** Lemmas *)

Lemma credential_validate_opaque_Ok value maximum field :
  credential_validate_opaque value maximum field = Ok tt ↔ opaque_ok maximum value.
Proof.
  rewrite <- (validate_opaque_Ok value maximum field).
  unfold credential_validate_opaque, validate_opaque. by destruct (_ || _).
Qed.

Lemma credential_validate_optional_text_Ok value maximum field :
  credential_validate_optional_text value maximum field = Ok tt ↔
  opt_ok (safe_text_ok maximum) value.
Proof.
  destruct value as [value|]; simpl; [|done]. unfold safe_text_ok.
  rewrite <- trim_empty. destruct (str_is_empty _); simpl; [naive_solver|].
  destruct (_ >? _) eqn:E; bool_prop; simpl; [split; [done|lia]|].
  destruct (any_control _); naive_solver.
Qed.

Lemma validate_poll_interval_Ok value :
  validate_poll_interval value = Ok tt ↔ 1 ≤ value ≤ 60.
Proof.
  unfold validate_poll_interval, MAX_POLL_INTERVAL_SECONDS.
  destruct (_ && _) eqn:E; bool_prop; [naive_solver|].
  split; [done|]. apply andb_false_iff in E. destruct E; bool_prop; lia.
Qed.

Lemma CredentialAccountStatus_validate_Ok a :
  CredentialAccountStatus_validate a = Ok tt ↔ account_ok a.
Proof.
  unfold CredentialAccountStatus_validate, account_ok.
  by rewrite seq_Ok, !credential_validate_optional_text_Ok.
Qed.

Section origin_lemmas.
Context {U : UrlLib}.

(** What an accepted target origin is: the origin of an [http] or [https] URL
    that has no userinfo, path, query, fragment or wildcard. *)
Lemma CredentialTargetOrigin_parse_Ok value o :
  CredentialTargetOrigin_parse value = Ok o ↔
  value ≠ "" ∧ trim value = value ∧ str_len value ≤ 2048 ∧
  ∃ u, Url_parse value = Some u ∧ CredentialTargetOrigin_as_str o = Url_origin u ∧
    (Url_scheme u = "http" ∨ Url_scheme u = "https") ∧
    Url_username u = "" ∧ Url_password u = None ∧
    (∃ host, Url_host_str u = Some host ∧ "*"%char ∉ bytes host) ∧
    Url_path u = "/" ∧ Url_query u = None ∧ Url_fragment u = None.
Proof.
  unfold CredentialTargetOrigin_parse, MAX_CREDENTIAL_TARGET_ORIGIN_BYTES. split.
  - intros H. simplify_result. bool_prop.
    match goal with H : str_is_empty _ = false |- _ => apply str_is_empty_false in H end.
    split; [done|]. split; [done|]. split; [lia|].
    match goal with H : Url_parse _ = Some ?u |- _ => exists u end.
    split; [done|]. split; [done|].
    match goal with H : _ || _ = true |- _ => apply orb_true_iff in H end.
    destruct (Url_password _); [done|]. destruct (Url_query _); [done|].
    destruct (Url_fragment _); [done|].
    destruct (Url_host_str _) as [host|]; [|done]. simpl in *.
    rewrite !eqb_eq in *.
    match goal with H : str_contains _ _ = false |- _ =>
      apply list_contains_not_elem in H end.
    naive_solver.
  - intros (Hne & Htrim & Hlen & u & Hu & Ho & Hscheme & Huser & Hpass & (host & Hhost & Hstar)
      & Hpath & Hquery & Hfrag).
    apply str_is_empty_false in Hne. rewrite Hne, Htrim, eqb_refl. simpl.
    replace (str_len value >? 2 * 1024) with false by (symmetry; rewrite Z.gtb_ltb; apply Z.ltb_ge; lia).
    rewrite Hu. simpl. rewrite Huser, Hpass, Hhost, Hpath, Hquery, Hfrag, !eqb_refl. simpl.
    assert (eqb (Url_scheme u) "http" || eqb (Url_scheme u) "https" = true) as ->.
    { rewrite orb_true_iff, !eqb_eq. done. }
    apply list_contains_not_elem in Hstar. unfold str_contains. rewrite Hstar. simpl.
    destruct o. simpl in *. by subst.
Qed.

(** The normalized form is a fixed point of [parse]. *)
Lemma CredentialTargetOrigin_parse_idempotent `{!UrlLaws U} value o :
  CredentialTargetOrigin_parse value = Ok o →
  str_len (CredentialTargetOrigin_as_str o) ≤ 2048 →
  CredentialTargetOrigin_parse (CredentialTargetOrigin_as_str o) = Ok o.
Proof.
  rewrite !CredentialTargetOrigin_parse_Ok.
  intros (_ & _ & _ & u & Hu & Ho & Hscheme & _ & _ & (host & Hhost & Hstar) & _) Hlen.
  assert (is_some (Url_host_str u) = true) as Hsome by by rewrite Hhost.
  destruct (origin_trimmed u Hscheme Hsome) as [Hne Htrim].
  destruct (origin_reparse u Hscheme Hsome)
    as (u' & Hp & Horigin & Hs & Hh & Hr).
  rewrite Ho in *. split_and!; [done..|]. exists u'.
  rewrite Hs, Hh, Horigin. naive_solver.
Qed.
End origin_lemmas.

(** ** Properties *)

(** A QR poll result is accepted exactly when the fields agree with its
    status: polling continues with a bounded interval, a confirmed login
    carries a promotion and an active account, a finished one carries nothing. *)
Theorem CredentialQrPollResult_validate_spec r :
  CredentialQrPollResult_validate r = Ok tt ↔ qr_poll_ok r.
Proof.
  destruct r as [status next ps promotion account].
  unfold CredentialQrPollResult_validate, qr_poll_ok. cbn -[eqb].
  rewrite seq_Ok. destruct status; cbn -[eqb].
  1, 2: destruct next as [n|]; simpl; [rewrite seq_Ok, validate_poll_interval_Ok|naive_solver];
    destruct promotion, account; simpl; naive_solver.
  - destruct next, promotion, account as [a|]; simpl; try naive_solver.
    rewrite CredentialAccountStatus_validate_Ok.
    destruct (eqb _ _) eqn:E; bool_prop; naive_solver.
  - destruct next, promotion, account; simpl; naive_solver.
  - destruct next, promotion, account; simpl; naive_solver.
Qed.

(** A QR presentation is accepted exactly when its payload and display code are
    bounded and it can be polled at least once before it expires. *)
Theorem QrPresentation_validate_spec p :
  QrPresentation_validate p = Ok tt ↔
  QrPresentation_expires_in_seconds p ≠ 0 ∧ qr_presentation_ok p.
Proof.
  unfold QrPresentation_validate, qr_presentation_ok, MAX_QR_EXPIRES_SECONDS.
  rewrite !seq_Ok, credential_validate_opaque_Ok, credential_validate_optional_text_Ok.
  destruct (_ || _) eqn:E.
  - split; [naive_solver|]. apply orb_true_iff in E as [E|E]; bool_prop; naive_solver lia.
  - bool_prop. rewrite seq_Ok, validate_poll_interval_Ok.
    destruct (_ >? _) eqn:E2; bool_prop; naive_solver lia.
Qed.
