(* ===== verification/Cursor.v ===== *)
(** * Pagination cursors (crates/audiodown-content/src/cursor.rs)

    A search over several platforms continues from one opaque cursor that
    packs the plugin cursor of every platform, bound to the request by a
    fingerprint.  JSON serialization is an interface ([CursorJson]); base64 and
    SHA-256 are [Encoding]. *)

From S2P Require Import Prelude Text Domain Foreign.

Definition CURSOR_VERSION : Z := 1.
Definition MAX_CURSOR_SOURCES : Z := 32.
Definition MAX_SOURCE_CURSOR_BYTES : Z := 4 * 1024.
Definition MAX_CURSOR_DECODED_BYTES : Z := 16 * 1024.
Definition MAX_CURSOR_ENCODED_BYTES : Z := 24 * 1024.

(** [ContentFilters] of router.rs. *)
Record ContentFilters := mkContentFilters {
  filters_platform_id : option string;
  filters_plugin_id : option PluginId;
}.

Inductive ContentCursorOperation := OpSearch | OpDiscover.

Record ContentCursorBinding := mkContentCursorBinding {
  binding_operation : ContentCursorOperation;
  binding_query : option string;
  binding_filters : ContentFilters;
}.

Record SourceCursor := mkSourceCursor {
  SourceCursor_platform_id : string;
  SourceCursor_plugin_id : PluginId;
  SourceCursor_cursor : string;
}.
Global Instance SourceCursor_eq_dec : EqDecision SourceCursor.
Proof. solve_decision. Defined.

Inductive ContentCursorError :=
| EncodedTooLarge | DecodedTooLarge | TooManySources | SourceCursorTooLarge
| Malformed | UnsupportedVersion | BindingMismatch.
Global Instance ContentCursorError_eq_dec : EqDecision ContentCursorError.
Proof. solve_decision. Defined.

Record CursorEnvelope := mkCursorEnvelope {
  CursorEnvelope_version : Z;
  CursorEnvelope_fingerprint : string;
  CursorEnvelope_sources : list SourceCursor;
}.

Record BindingFingerprint := mkBindingFingerprint {
  fp_operation : ContentCursorOperation;
  fp_query : option string;
  fp_platform_id : option string;
  fp_plugin_id : option string;
}.

(** [serde_json::to_vec] and [serde_json::from_slice] at the two types. *)
Class CursorJson := {
  fingerprint_to_vec : BindingFingerprint → option (list byte);
  envelope_to_vec : CursorEnvelope → option (list byte);
  envelope_from_slice : list byte → option CursorEnvelope;
}.

(** [CursorEnvelope] derives both directions from the same attributes, so
    reading back what was written gives the envelope, provided the [PluginId]s
    in it are accepted by their [Deserialize], which calls [PluginId::parse]. *)
Definition plugin_ids_valid (sources : list SourceCursor) : Prop :=
  Forall (λ s, PluginId_parse (PluginId_as_str (SourceCursor_plugin_id s))
               = Ok (SourceCursor_plugin_id s)) sources.
Class CursorJsonLaws (J : CursorJson) : Prop :=
  envelope_roundtrip e b :
    envelope_to_vec e = Some b → 0 ≤ CursorEnvelope_version e ≤ 255 →
    plugin_ids_valid (CursorEnvelope_sources e) → envelope_from_slice b = Some e.

Definition valid_platform_id (platform_id : string) : bool :=
  negb (str_is_empty platform_id)
  && (str_len platform_id <=? 128)
  && str_all (λ byte, is_ascii_lowercase byte || is_ascii_digit byte
                      || list_contains ["."; "_"; "-"]%char byte) platform_id.

(** [previous >= current] on [&str]. *)
Definition str_ge (a b : string) : bool :=
  match String.compare a b with Lt => false | _ => true end.

Fixpoint validate_sources_loop (previous_platform : option string)
    (sources : list SourceCursor) : result ContentCursorError unit :=
  match sources with
  | [] => Ok tt
  | source :: sources =>
      if str_is_empty (SourceCursor_cursor source) then Err Malformed
      else if str_len (SourceCursor_cursor source) >? MAX_SOURCE_CURSOR_BYTES
      then Err SourceCursorTooLarge
      else if negb (valid_platform_id (SourceCursor_platform_id source)) then Err Malformed
      else if is_some_and (λ previous, str_ge previous (SourceCursor_platform_id source))
                previous_platform then Err Malformed
      else validate_sources_loop (Some (SourceCursor_platform_id source)) sources
  end.

Definition validate_sources (sources : list SourceCursor) : result ContentCursorError unit :=
  if zlen sources >? MAX_CURSOR_SOURCES then Err TooManySources
  else validate_sources_loop None sources.

Section cursor.
Context {B : Encoding} {J : CursorJson}.

Definition request_fingerprint (binding : ContentCursorBinding) :
    result ContentCursorError string :=
  let canonical := {|
    fp_operation := binding_operation binding;
    fp_query := binding_query binding;
    fp_platform_id := filters_platform_id (binding_filters binding);
    fp_plugin_id := PluginId_as_str <$> filters_plugin_id (binding_filters binding)
  |} in
  bytes ← ok_or (fingerprint_to_vec canonical) Malformed;
  Ok (b64_encode (sha256 bytes)).

Definition encode_cursor (binding : ContentCursorBinding) (sources : list SourceCursor) :
    result ContentCursorError (option string) :=
  match sources with
  | [] => Ok None
  | _ =>
      validate_sources sources;;
      fingerprint ← request_fingerprint binding;
      let envelope := {|
        CursorEnvelope_version := CURSOR_VERSION;
        CursorEnvelope_fingerprint := fingerprint;
        CursorEnvelope_sources := sources
      |} in
      decoded ← ok_or (envelope_to_vec envelope) Malformed;
      if zlen decoded >? MAX_CURSOR_DECODED_BYTES then Err DecodedTooLarge
      else
        let encoded := b64_encode decoded in
        if str_len encoded >? MAX_CURSOR_ENCODED_BYTES then Err EncodedTooLarge
        else Ok (Some encoded)
  end.

Definition decode_cursor (encoded : string) (binding : ContentCursorBinding) :
    result ContentCursorError (list SourceCursor) :=
  if str_len encoded >? MAX_CURSOR_ENCODED_BYTES then Err EncodedTooLarge
  else
    decoded ← ok_or (b64_decode encoded) Malformed;
    if zlen decoded >? MAX_CURSOR_DECODED_BYTES then Err DecodedTooLarge
    else
      envelope ← ok_or (envelope_from_slice decoded) Malformed;
      if negb (CursorEnvelope_version envelope =? CURSOR_VERSION)
      then Err UnsupportedVersion
      else
        fingerprint ← request_fingerprint binding;
        if negb (eqb (CursorEnvelope_fingerprint envelope) fingerprint)
        then Err BindingMismatch
        else
          validate_sources (CursorEnvelope_sources envelope);;
          Ok (CursorEnvelope_sources envelope).
End cursor.

(** ** Well-formed source lists *)

Definition source_ok (s : SourceCursor) : Prop :=
  1 ≤ str_len (SourceCursor_cursor s) ≤ 4096 ∧
  valid_platform_id (SourceCursor_platform_id s) = true.

(** At most 32 sources, one per platform, in increasing platform order. *)
Definition sources_ok (sources : list SourceCursor) : Prop :=
  zlen sources ≤ 32 ∧ Forall source_ok sources ∧
  StronglySorted (cmp_lt String.compare) (SourceCursor_platform_id <$> sources).

(** ** Lemmas *)

Lemma str_ge_false a b : str_ge a b = false ↔ cmp_lt String.compare a b.
Proof. unfold str_ge, cmp_lt. by destruct (String.compare a b). Qed.

Lemma str_len_pos s : str_is_empty s = false ↔ 1 ≤ str_len s.
Proof. destruct s; unfold str_len; simpl; split; intros; try done; lia. Qed.

Lemma validate_sources_loop_Ok prev sources :
  validate_sources_loop prev sources = Ok tt ↔
  Forall source_ok sources ∧
  Sorted (cmp_lt String.compare) (SourceCursor_platform_id <$> sources) ∧
  (∀ p, prev = Some p →
     HdRel (cmp_lt String.compare) p (SourceCursor_platform_id <$> sources)).
Proof.
  revert prev. induction sources as [|s sources IH]; intros prev; simpl.
  { split; [intros _; repeat constructor|done]. }
  unfold MAX_SOURCE_CURSOR_BYTES. rewrite Forall_cons.
  assert (∀ P Q : Prop, (P → False) → P ∧ Q → False) as Hno by tauto.
  destruct (str_is_empty _) eqn:He.
  { split; [done|]. intros [[[[? _] _] _] _]. apply str_len_pos in H. congruence. }
  apply str_len_pos in He.
  destruct (_ >? _) eqn:Hl; bool_prop.
  { split; [done|]. intros [[[[_ ?] _] _] _]. lia. }
  destruct (valid_platform_id _) eqn:Hv; simpl.
  2: { split; [done|]. intros [[[_ ?] _] _]. congruence. }
  assert (source_ok s) as Hs by (split; [lia|done]).
  assert (∀ l, Sorted (cmp_lt String.compare) (SourceCursor_platform_id s :: l) ↔
    Sorted (cmp_lt String.compare) l ∧
    HdRel (cmp_lt String.compare) (SourceCursor_platform_id s) l) as Hcons.
  { intros l. split; [by inversion 1|]. intros [? ?]. by constructor. }
  rewrite Hcons. destruct prev as [p|]; simpl.
  - destruct (str_ge p _) eqn:Hge.
    + split; [done|]. intros (_ & _ & Hp). specialize (Hp p eq_refl).
      inversion Hp as [|? ? Hlt]; subst. apply str_ge_false in Hlt. congruence.
    + apply str_ge_false in Hge. rewrite IH. split.
      * intros (? & ? & Hp). split_and!; [done..|by apply Hp|].
        intros ? [= <-]. by constructor.
      * intros ((? & ?) & (? & ?) & _). split_and!; [done..|]. by intros ? [= <-].
  - rewrite IH. split.
    + intros (? & ? & Hp). split_and!; [done..|by apply Hp|done].
    + intros ((? & ?) & (? & ?) & _). split_and!; [done..|]. by intros ? [= <-].
Qed.

Lemma validate_sources_Ok sources : validate_sources sources = Ok tt ↔ sources_ok sources.
Proof.
  unfold validate_sources, sources_ok, MAX_CURSOR_SOURCES.
  destruct (_ >? _) eqn:E; bool_prop.
  { split; [done|]. lia. }
  rewrite validate_sources_loop_Ok. split.
  - intros (? & Hs & _). split_and!; [done..|]. by apply Sorted_StronglySorted; [apply _|].
  - intros (_ & ? & Hs%StronglySorted_Sorted). by split_and!.
Qed.

Section cursor_lemmas.
Context {B : Encoding} {J : CursorJson}.

Lemma encode_cursor_Some binding sources encoded :
  encode_cursor binding sources = Ok (Some encoded) →
  sources_ok sources ∧ sources ≠ [] ∧
  ∃ fingerprint decoded,
    request_fingerprint binding = Ok fingerprint ∧
    envelope_to_vec (mkCursorEnvelope CURSOR_VERSION fingerprint sources) = Some decoded ∧
    zlen decoded ≤ MAX_CURSOR_DECODED_BYTES ∧
    str_len encoded ≤ MAX_CURSOR_ENCODED_BYTES ∧
    encoded = b64_encode decoded.
Proof.
  unfold encode_cursor. destruct sources as [|s sources]; [done|]. intros H.
  simplify_result. bool_prop. split; [by apply validate_sources_Ok|]. split; [done|].
  do 2 eexists. split_and!; done.
Qed.

Lemma decode_cursor_Ok encoded binding sources :
  decode_cursor encoded binding = Ok sources →
  sources_ok sources ∧
  ∃ decoded fingerprint,
    b64_decode encoded = Some decoded ∧ request_fingerprint binding = Ok fingerprint ∧
    envelope_from_slice decoded =
      Some (mkCursorEnvelope CURSOR_VERSION fingerprint sources).
Proof.
  unfold decode_cursor. intros H. simplify_result. bool_prop.
  split; [by apply validate_sources_Ok|].
  do 2 eexists. split_and!; [done..|]. 
  destruct x0; simpl in *. by subst.
Qed.
End cursor_lemmas.

Section cursor_roundtrip_lemma.
Context {B : Encoding} {J : CursorJson} `{!EncodingLaws B, !CursorJsonLaws J}.

Lemma cursor_decode_encode binding binding' sources encoded fingerprint' :
  encode_cursor binding sources = Ok (Some encoded) →
  plugin_ids_valid sources →
  request_fingerprint binding' = Ok fingerprint' →
  decode_cursor encoded binding' =
    if decide (request_fingerprint binding = Ok fingerprint')
    then Ok sources else Err BindingMismatch.
Proof.
  intros (Hok & _ & fp & decoded & Hfp & Hvec & Hdec & Henc & ->)%encode_cursor_Some
    Hids Hfp'.
  unfold decode_cursor.
  replace (_ >? _) with false
    by (symmetry; rewrite Z.gtb_ltb; by apply Z.ltb_ge).
  rewrite b64_decode_encode. simpl.
  replace (_ >? _) with false
    by (symmetry; rewrite Z.gtb_ltb; by apply Z.ltb_ge).
  rewrite (envelope_roundtrip _ _ Hvec); [|done|done]. simpl.
  rewrite Hfp'. simpl. rewrite Hfp.
  destruct (decide _) as [[= ->]|Hne].
  - rewrite eqb_refl. simpl. apply validate_sources_Ok in Hok. by rewrite Hok.
  - destruct (eqb _ _) eqn:E; bool_prop; [congruence|done].
Qed.
End cursor_roundtrip_lemma.

(** ** Properties *)

Section cursor_properties.
Context {B : Encoding} {J : CursorJson} `{!EncodingLaws B, !CursorJsonLaws J}.

(** A cursor issued for one request is accepted for another exactly when the
    two requests have the same fingerprint, and then yields the packed
    sources; otherwise it is rejected as a binding mismatch. *)
Theorem cursor_roundtrip binding binding' sources encoded fingerprint' :
  encode_cursor binding sources = Ok (Some encoded) →
  plugin_ids_valid sources →
  request_fingerprint binding' = Ok fingerprint' →
  decode_cursor encoded binding' =
    if decide (request_fingerprint binding = Ok fingerprint')
    then Ok sources else Err BindingMismatch.
Proof. apply cursor_decode_encode. Qed.

(** Whatever string a client sends, an accepted cursor carries at most 32
    sources, one per platform in increasing order, each with a valid platform
    and a cursor of 1 to 4096 bytes, and is bound to the request. *)
Theorem decode_cursor_sound encoded binding sources :
  decode_cursor encoded binding = Ok sources →
  sources_ok sources ∧
  ∃ decoded fingerprint,
    b64_decode encoded = Some decoded ∧ request_fingerprint binding = Ok fingerprint ∧
    envelope_from_slice decoded =
      Some (mkCursorEnvelope CURSOR_VERSION fingerprint sources).
Proof using Type. apply decode_cursor_Ok. Qed.

(** The decoded-size limit makes the encoded-size check of the encoder
    unreachable: encoding never fails with [EncodedTooLarge]. *)
Theorem encode_cursor_fits binding sources :
  encode_cursor binding sources ≠ Err EncodedTooLarge.
Proof using EncodingLaws0.
  unfold encode_cursor. destruct sources as [|s sources]; [done|].
  rewrite bind_Err. intros [Hv|(? & _ & H)].
  - unfold validate_sources in Hv. destruct (_ >? _); [done|].
    assert (∀ l p, validate_sources_loop p l ≠ Err EncodedTooLarge) as Hloop.
    { induction l as [|x l IH]; intros p; simpl; [done|]. repeat case_match; done. }
    by apply Hloop in Hv.
  - apply bind_Err in H as [Hf|(fp & _ & H)].
    { unfold request_fingerprint in Hf. destruct (fingerprint_to_vec _); simplify_eq/=. }
    apply bind_Err in H as [Hf|(decoded & _ & H)]; [by simplify_result|].
    destruct (zlen decoded >? _) eqn:Hd; [done|]. bool_prop.
    destruct (_ >? _) eqn:He; [|done]. bool_prop.
    rewrite b64_encode_length in He.
    unfold MAX_CURSOR_DECODED_BYTES, MAX_CURSOR_ENCODED_BYTES in *.
    assert ((4 * zlen decoded + 2) / 3 ≤ (4 * 16384 + 2) / 3)
      by (apply Z.div_le_mono; lia).
    change ((4 * 16384 + 2) / 3) with 21846 in *. lia.
Qed.
End cursor_properties.
