(* ===== verification/Dedup.v ===== *)
(** * Deduplication of aggregated content
    (crates/audiodown-content/src/dedup.rs, with the item types of router.rs)

    Items from several plugins are merged in platform order and an item whose
    canonical identifier was already seen is dropped.  The code threads one
    mutable hash set through an iterator; it is a [gset] passed through a
    stateful filter.  [keep_first] is the reference: keep an element unless an
    earlier one has the same key. *)

From S2P Require Import Prelude Text Domain ContentContract.

(** ** router.rs: sources and sourced items *)

Record ContentSource := mkContentSource {
  ContentSource_plugin_id : PluginId;
  ContentSource_plugin_name : string;
  ContentSource_plugin_version : string;
  ContentSource_platform_id : string;
}.

Record SourcedContentItem := mkSourcedContentItem {
  SourcedContentItem_item : ContentItem;
  SourcedContentItem_source : ContentSource;
}.

Record SourcedDiscoverSection := mkSourcedDiscoverSection {
  SourcedDiscoverSection_section : DiscoverSection;
  SourcedDiscoverSection_source : ContentSource;
}.

Record SourcedCategoryItem := mkSourcedCategoryItem {
  SourcedCategoryItem_item : CategoryItem;
  SourcedCategoryItem_source : ContentSource;
}.

(** ** dedup.rs *)

Definition resource_type_key (resource_type : ContentResourceType) : Z :=
  match resource_type with
  | RTAlbum => 0
  | RTTrack => 1
  | RTCategory => 2
  end.

(** [HashSet::insert]: whether the element was new, and the set with it. *)
Definition set_insert {K} `{Countable K} (k : K) (seen : gset K) : bool * gset K :=
  (bool_decide (k ∉ seen), {[k]} ∪ seen).

(** A present and non-empty canonical identifier. *)
Definition nonempty_canonical (canonical_id : option string) : option string :=
  id ← canonical_id; if str_is_empty id then None else Some id.

Definition keep_item (item : ContentItem) (seen : gset (Z * string)) :
    bool * gset (Z * string) :=
  match nonempty_canonical (ContentItem_canonical_id item) with
  | None => (true, seen)
  | Some canonical_id =>
      set_insert (resource_type_key (ContentItem_resource_type item), canonical_id) seen
  end.

Definition keep_category (item : CategoryItem) (seen : gset string) : bool * gset string :=
  match nonempty_canonical (CategoryItem_canonical_id item) with
  | None => (true, seen)
  | Some canonical_id => set_insert canonical_id seen
  end.

(** [Iterator::filter] (and [Vec::retain]) with a predicate that mutates a
    captured set. *)
Fixpoint filter_seen {A S} (keep : A → S → bool * S) (l : list A) (seen : S) : list A * S :=
  match l with
  | [] => ([], seen)
  | x :: l =>
      let '(kept, seen) := keep x seen in
      let '(l, seen) := filter_seen keep l seen in
      (if kept then x :: l else l, seen)
  end.

Definition deduplicate_items (items : list SourcedContentItem) : list SourcedContentItem :=
  (filter_seen (λ item, keep_item (SourcedContentItem_item item)) items ∅).1.

Definition set_section_items (s : SourcedDiscoverSection) (items : list ContentItem) :
    SourcedDiscoverSection :=
  let section := SourcedDiscoverSection_section s in
  mkSourcedDiscoverSection
    (mkDiscoverSection (DiscoverSection_id section) (DiscoverSection_title section)
       (DiscoverSection_layout section) items)
    (SourcedDiscoverSection_source s).

Fixpoint deduplicate_sections_loop (sections : list SourcedDiscoverSection)
    (seen : gset (Z * string)) : list SourcedDiscoverSection :=
  match sections with
  | [] => []
  | sourced :: sections =>
      let '(items, seen) :=
        filter_seen keep_item
          (DiscoverSection_items (SourcedDiscoverSection_section sourced)) seen in
      set_section_items sourced items :: deduplicate_sections_loop sections seen
  end.
Definition deduplicate_sections (sections : list SourcedDiscoverSection) :
    list SourcedDiscoverSection :=
  deduplicate_sections_loop sections ∅.

Definition deduplicate_categories (items : list SourcedCategoryItem) :
    list SourcedCategoryItem :=
  (filter_seen (λ item, keep_category (SourcedCategoryItem_item item)) items ∅).1.

(** ** The reference *)

Section keep_first.
Context {A K : Type} `{Countable K} (key : A → option K).

Definition keys (l : list A) : list K := omap key l.

(** Keep an element without a key, and the first element of each key. *)
Fixpoint keep_first_after (before : list A) (l : list A) : list A :=
  match l with
  | [] => []
  | x :: l =>
      let kept := match key x with
                  | None => true
                  | Some k => negb (list_contains (keys before) k)
                  end in
      (if kept then [x] else []) ++ keep_first_after (before ++ [x]) l
  end.
Definition keep_first (l : list A) : list A := keep_first_after [] l.

(** The stateful predicate of the code, for a key function. *)
Definition keep_by (x : A) (seen : gset K) : bool * gset K :=
  match key x with
  | None => (true, seen)
  | Some k => set_insert k seen
  end.

Lemma keys_app l1 l2 : keys (l1 ++ l2) = keys l1 ++ keys l2.
Proof. apply omap_app. Qed.

Lemma filter_seen_keep_first l before seen :
  (∀ k, k ∈ seen ↔ k ∈ keys before) →
  (filter_seen keep_by l seen).1 = keep_first_after before l ∧
  (∀ k, k ∈ (filter_seen keep_by l seen).2 ↔ k ∈ keys (before ++ l)).
Proof.
  revert before seen. induction l as [|x l IH]; intros before seen Hseen; simpl.
  { by rewrite app_nil_r. }
  unfold keep_by at 1 3, set_insert.
  destruct (key x) as [k|] eqn:Hk; simpl.
  - specialize (IH (before ++ [x]) ({[k]} ∪ seen)) as [IH1 IH2].
    { intros k'. rewrite keys_app, elem_of_app. unfold keys at 2. simpl.
      rewrite Hk. set_solver. }
    destruct (filter_seen keep_by l ({[k]} ∪ seen)) as [l' seen']. simpl in *. split.
    + rewrite IH1. assert (bool_decide (k ∉ seen) = negb (list_contains (keys before) k)) as ->.
      { apply eq_true_iff_eq. rewrite bool_decide_eq_true, negb_true_iff.
        by rewrite list_contains_not_elem, Hseen. }
      by destruct (list_contains _ _).
    + intros k'. by rewrite IH2, <- app_assoc.
  - specialize (IH (before ++ [x]) seen) as [IH1 IH2].
    { intros k'. rewrite keys_app, elem_of_app. unfold keys at 2. simpl.
      rewrite Hk. set_solver. }
    destruct (filter_seen keep_by l seen) as [l' seen']. simpl in *. split.
    + by rewrite IH1.
    + intros k'. by rewrite IH2, <- app_assoc.
Qed.

Lemma filter_seen_keep_by l : (filter_seen keep_by l ∅).1 = keep_first l.
Proof. apply filter_seen_keep_first. set_solver. Qed.

Lemma keep_first_after_sublist before l : keep_first_after before l `sublist_of` l.
Proof.
  revert before. induction l as [|x l IH]; intros before; simpl; [done|].
  destruct (key x) as [k|]; [destruct (list_contains _ _)|]; simpl.
  all: by constructor.
Qed.

Lemma keep_first_after_keys before l k :
  k ∈ keys (keep_first_after before l) ↔ k ∈ keys l ∧ k ∉ keys before.
Proof.
  revert before. induction l as [|x l IH]; intros before; simpl; [set_solver|].
  rewrite keys_app, elem_of_app, IH, keys_app, elem_of_app. unfold keys at 4. simpl.
  change (omap key l) with (keys l). change (omap key before) with (keys before).
  destruct (key x) as [k'|] eqn:Hk; simpl.
  - destruct (list_contains (keys before) k') eqn:Hc; simpl.
    + apply list_contains_elem in Hc. unfold keys at 1. simpl. set_solver.
    + apply list_contains_not_elem in Hc. unfold keys at 1. simpl. rewrite Hk.
      destruct (decide (k = k')) as [->|]; set_solver.
  - unfold keys at 1. simpl. rewrite Hk. set_solver.
Qed.

Lemma keep_first_after_nodup before l : NoDup (keys (keep_first_after before l)).
Proof.
  revert before. induction l as [|x l IH]; intros before; simpl; [constructor|].
  destruct (key x) as [k|] eqn:Hk; simpl.
  - destruct (list_contains (keys before) k); simpl; [apply IH|].
    unfold keys at 1. simpl. rewrite Hk. constructor; [|apply IH].
    change (k ∉ keys (keep_first_after (before ++ [x]) l)).
    rewrite keep_first_after_keys, keys_app. unfold keys at 3. simpl. rewrite Hk.
    set_solver.
  - unfold keys. simpl. rewrite Hk. apply IH.
Qed.

Lemma keep_first_after_unkeyed before l x :
  key x = None → x ∈ l → x ∈ keep_first_after before l.
Proof.
  intros Hx. revert before. induction l as [|y l IH]; intros before; simpl; [done|].
  rewrite elem_of_cons, elem_of_app. intros [<-|Hin]; [|naive_solver].
  left. rewrite Hx. set_solver.
Qed.

(** Nothing is dropped from a list without repeated keys. *)
Lemma keep_first_after_id before l :
  NoDup (keys l) → (∀ k, k ∈ keys l → k ∉ keys before) →
  keep_first_after before l = l.
Proof.
  revert before. induction l as [|x l IH]; intros before; simpl; [done|].
  unfold keys at 1 2. simpl. destruct (key x) as [k|] eqn:Hk; simpl.
  - change (omap key l) with (keys l). intros [Hk' Hnd]%NoDup_cons Hb.
    assert (list_contains (keys before) k = false) as ->.
    { apply list_contains_not_elem, Hb. left. }
    simpl. f_equal. apply IH; [done|]. intros k' Hin.
    rewrite keys_app. unfold keys at 2. simpl. rewrite Hk. set_solver.
  - intros Hnd Hb. simpl. f_equal. apply IH; [done|]. intros k' Hin.
    rewrite keys_app. unfold keys at 2. simpl. rewrite Hk. set_solver.
Qed.
End keep_first.

(** The keys of the code. *)
Definition item_key (item : ContentItem) : option (Z * string) :=
  pair (resource_type_key (ContentItem_resource_type item)) <$>
    nonempty_canonical (ContentItem_canonical_id item).
Definition sourced_item_key (item : SourcedContentItem) : option (Z * string) :=
  item_key (SourcedContentItem_item item).
Definition sourced_category_key (item : SourcedCategoryItem) : option string :=
  nonempty_canonical (CategoryItem_canonical_id (SourcedCategoryItem_item item)).
Definition section_items (s : SourcedDiscoverSection) : list ContentItem :=
  DiscoverSection_items (SourcedDiscoverSection_section s).

(** ** Lemmas *)

Lemma filter_seen_ext {A S} (f g : A → S → bool * S) l seen :
  (∀ x s, f x s = g x s) → filter_seen f l seen = filter_seen g l seen.
Proof.
  intros Hfg. revert seen. induction l as [|x l IH]; intros seen; simpl; [done|].
  rewrite Hfg. destruct (g x seen). by rewrite IH.
Qed.

Lemma keep_item_by item seen : keep_item item seen = keep_by item_key item seen.
Proof. unfold keep_item, keep_by, item_key. by destruct (nonempty_canonical _). Qed.

Lemma deduplicate_items_eq items :
  deduplicate_items items = keep_first sourced_item_key items.
Proof.
  unfold deduplicate_items. rewrite <- filter_seen_keep_by. f_equal.
  apply filter_seen_ext. intros x s. apply keep_item_by.
Qed.

Lemma deduplicate_categories_eq items :
  deduplicate_categories items = keep_first sourced_category_key items.
Proof.
  unfold deduplicate_categories. rewrite <- filter_seen_keep_by. done.
Qed.

Lemma filter_seen_app {A S} (f : A → S → bool * S) l1 l2 seen :
  filter_seen f (l1 ++ l2) seen =
    let '(k1, seen1) := filter_seen f l1 seen in
    let '(k2, seen2) := filter_seen f l2 seen1 in (k1 ++ k2, seen2).
Proof.
  revert seen. induction l1 as [|x l1 IH]; intros seen; simpl.
  - by destruct (filter_seen f l2 seen).
  - destruct (f x seen) as [b seen']. rewrite IH.
    destruct (filter_seen f l1 seen') as [k1 s1], (filter_seen f l2 s1) as [k2 s2].
    by destruct b.
Qed.

Lemma deduplicate_sections_loop_items sections seen :
  concat (section_items <$> deduplicate_sections_loop sections seen) =
  (filter_seen keep_item (concat (section_items <$> sections)) seen).1.
Proof.
  revert seen. induction sections as [|s sections IH]; intros seen; simpl; [done|].
  rewrite filter_seen_app. unfold section_items at 3.
  destruct (filter_seen keep_item _ seen) as [items seen']. simpl.
  rewrite IH. by destruct (filter_seen keep_item (concat _) seen').
Qed.

(** ** Properties *)

(** [deduplicate_items] keeps exactly the items without a canonical identifier
    and the first item of each (resource type, canonical identifier), in
    order; no key survives twice, no key is lost, and a second pass changes
    nothing. *)
Theorem deduplicate_items_spec items :
  let out := deduplicate_items items in
  out = keep_first sourced_item_key items ∧
  out `sublist_of` items ∧
  NoDup (keys sourced_item_key out) ∧
  (∀ k, k ∈ keys sourced_item_key out ↔ k ∈ keys sourced_item_key items) ∧
  (∀ x, sourced_item_key x = None → x ∈ items → x ∈ out) ∧
  deduplicate_items out = out.
Proof.
  cbv zeta. rewrite !deduplicate_items_eq.
  pose proof (keep_first_after_nodup sourced_item_key [] items) as Hnd.
  split_and!; [done|apply keep_first_after_sublist|done| | |].
  - intros k. unfold keep_first. rewrite keep_first_after_keys. set_solver.
  - intros x. apply keep_first_after_unkeyed.
  - apply keep_first_after_id; [done|set_solver].
Qed.

(** [deduplicate_sections] shares one set across sections: the items of all
    sections together are deduplicated as one list, while the number, order,
    titles and sources of the sections stay as they are. *)
Theorem deduplicate_sections_spec sections :
  let out := deduplicate_sections sections in
  concat (section_items <$> out) = keep_first item_key (concat (section_items <$> sections)) ∧
  NoDup (keys item_key (concat (section_items <$> out))) ∧
  Forall2 (λ s s', s' = set_section_items s (section_items s') ∧
                   section_items s' `sublist_of` section_items s) sections out.
Proof.
  cbv zeta. unfold deduplicate_sections.
  assert (concat (section_items <$> deduplicate_sections_loop sections ∅) =
    keep_first item_key (concat (section_items <$> sections))) as Heq.
  { rewrite deduplicate_sections_loop_items, <- filter_seen_keep_by. f_equal.
    apply filter_seen_ext. intros. apply keep_item_by. }
  split_and!; [done|rewrite Heq; apply keep_first_after_nodup|].
  clear Heq. generalize (∅ : gset (Z * string)) as seen.
  induction sections as [|s sections IH]; intros seen; simpl; [constructor|].
  destruct (filter_seen keep_item _ seen) as [items seen'] eqn:E.
  constructor; [|apply IH]. split; [by destruct s|]. simpl.
  assert (∀ l seen, (filter_seen keep_item l seen).1 `sublist_of` l) as Hsub.
  { clear. induction l as [|x l IH]; intros seen; simpl; [done|].
    destruct (keep_item x seen) as [b seen']. specialize (IH seen').
    destruct (filter_seen keep_item l seen'). by destruct b; constructor. }
  specialize (Hsub (section_items s) seen). unfold section_items in *.
  by rewrite E in Hsub.
Qed.
