(* ===== verification/Router.v ===== *)
(** * Content aggregation (crates/audiodown-content/src/router.rs)

    A search, discover or categories request selects the eligible plugins,
    groups them by platform, asks every platform concurrently with fallback from
    plugin to plugin inside a platform, and merges the answers.  The routing
    store and the plugin invoker are the traits of the code: arguments of the
    service.  JSON conversion is the interface [ContentJson].  The order in
    which the platform calls complete is the argument [completion], a function
    on the list of indexed results. *)

From S2P Require Import Prelude Text Domain ContentContract Foreign Cursor Dedup.

(** ** Data *)

Record ContentCandidate := mkContentCandidate {
  candidate_plugin_id : PluginId;
  candidate_plugin_name : string;
  candidate_plugin_version : string;
  candidate_platform_id : string;
  candidate_priority : Z;
  candidate_is_default : bool;
  candidate_search_enabled : bool;
  candidate_discover_enabled : bool;
  candidate_capabilities : list ContentMethod;
}.

Inductive ContentRouteKind := RouteSearch | RouteDiscover.

Definition ContentSource_from (candidate : ContentCandidate) : ContentSource := {|
  ContentSource_plugin_id := candidate_plugin_id candidate;
  ContentSource_plugin_name := candidate_plugin_name candidate;
  ContentSource_plugin_version := candidate_plugin_version candidate;
  ContentSource_platform_id := candidate_platform_id candidate;
|}.

Record ContentFailure := mkContentFailure {
  ContentFailure_source : ContentSource;
  ContentFailure_code : PluginErrorCode;
  ContentFailure_summary : string;
}.

Record AggregatedSearchResult := mkAggregatedSearchResult {
  AggregatedSearchResult_items : list SourcedContentItem;
  AggregatedSearchResult_next_cursor : option string;
  AggregatedSearchResult_failures : list ContentFailure;
  AggregatedSearchResult_had_candidates : bool;
}.

Record AggregatedDiscoverResult := mkAggregatedDiscoverResult {
  AggregatedDiscoverResult_sections : list SourcedDiscoverSection;
  AggregatedDiscoverResult_next_cursor : option string;
  AggregatedDiscoverResult_failures : list ContentFailure;
  AggregatedDiscoverResult_had_candidates : bool;
}.

Record AggregatedCategoriesResult := mkAggregatedCategoriesResult {
  AggregatedCategoriesResult_items : list SourcedCategoryItem;
  AggregatedCategoriesResult_failures : list ContentFailure;
  AggregatedCategoriesResult_had_candidates : bool;
}.

Record SearchAggregationInput := mkSearchAggregationInput {
  search_request_id : string;
  search_query : string;
  search_limit : Z;
  search_filters : ContentFilters;
  search_cursor : option string;
}.

Record DiscoverAggregationInput := mkDiscoverAggregationInput {
  discover_request_id : string;
  discover_limit : Z;
  discover_filters : ContentFilters;
  discover_cursor : option string;
}.

Record CategoriesAggregationInput := mkCategoriesAggregationInput {
  categories_request_id : string;
  categories_filters : ContentFilters;
}.

Inductive ContentInvokeError :=
  InvokeUnavailable | InvokeTimeout | InvokeInvalidResponse | InvokeInternal.

Inductive ContentServiceError :=
| Routing (message : string)
| RequestSerialization
| CursorError (error : ContentCursorError).

(** ** Candidate selection *)

Definition candidate_matches (method : ContentMethod) (route : ContentRouteKind)
    (filters : ContentFilters) (candidate : ContentCandidate) : bool :=
  let participates :=
    match route with
    | RouteSearch => candidate_search_enabled candidate
    | RouteDiscover => candidate_discover_enabled candidate
    end in
  participates
  && list_contains (candidate_capabilities candidate) method
  && is_none_or (λ platform_id, eqb (candidate_platform_id candidate) platform_id)
       (filters_platform_id filters)
  && is_none_or (λ plugin_id, eqb (candidate_plugin_id candidate) plugin_id)
       (filters_plugin_id filters).

(** Platform first, then the default plugin, then priority, then plugin id. *)
Definition candidate_cmp : ContentCandidate → ContentCandidate → comparison :=
  cmp_then (cmp_on candidate_platform_id String.compare)
    (cmp_then (cmp_rev (cmp_on candidate_is_default bool_cmp))
       (cmp_then (cmp_on candidate_priority Z.compare)
          (cmp_on (PluginId_as_str ∘ candidate_plugin_id) String.compare))).

Definition select_candidates (candidates : list ContentCandidate) (method : ContentMethod)
    (route : ContentRouteKind) (filters : ContentFilters) : list ContentCandidate :=
  sort_by candidate_cmp (List.filter (candidate_matches method route filters) candidates).

(** ** Grouping: [BTreeMap<String, Vec<ContentCandidate>>]

    A B-tree map is its list of entries in key order. *)

Fixpoint btree_push {A} (key : string) (value : A) (m : list (string * list A)) :
    list (string * list A) :=
  match m with
  | [] => [(key, [value])]
  | (k, values) :: m' =>
      match String.compare key k with
      | Lt => (key, [value]) :: m
      | Eq => (k, values ++ [value]) :: m'
      | Gt => (k, values) :: btree_push key value m'
      end
  end.

Definition group_map (candidates : list ContentCandidate) :
    list (string * list ContentCandidate) :=
  fold_left (λ groups candidate,
               btree_push (candidate_platform_id candidate) candidate groups)
    candidates [].

Definition group_candidates (candidates : list ContentCandidate) :
    list (list ContentCandidate) := (group_map candidates).*2.

Record CursorCandidateGroup := mkCursorCandidateGroup {
  group_candidates_of : list ContentCandidate;
  group_cursor : option string;
}.

(** ** Failures *)

Record FailureData := mkFailureData {
  FailureData_code : PluginErrorCode;
  FailureData_summary : string;
}.
Definition FailureData_invalid_response : FailureData :=
  mkFailureData PluginResponseInvalid "Plugin response was invalid".
Definition with_source (self : FailureData) (source : ContentSource) : ContentFailure :=
  mkContentFailure source (FailureData_code self) (FailureData_summary self).

Definition safe_failure_summary (code : PluginErrorCode) : string :=
  match code with
  | InvalidRequest => "Content request was rejected"
  | PluginNotFound => "Content plugin was not found"
  | PluginDisabled => "Content plugin is disabled"
  | PluginCapabilityMissing => "Content capability is unavailable"
  | PluginUnavailable => "Content plugin is unavailable"
  | PluginTimeout => "Content plugin timed out"
  | PluginResponseInvalid => "Content plugin response was invalid"
  | ResourceNotFound => "Content resource was not found"
  | ResourceAccessDenied => "Content resource access was denied"
  | ResourceTemporarilyUnavailable => "Content resource is temporarily unavailable"
  | CredentialNotFound | CredentialExpired | CredentialScopeNotAllowed
  | LoginFlowNotFound | LoginFlowExpired | LoginPending | LoginDenied =>
      "Content plugin response was invalid"
  | RateLimited => "Content source is rate limited"
  | PlatformResponseChanged => "Content source response changed"
  | PluginInternalError => "Content plugin failed"
  end.

Definition invoke_failure (error : ContentInvokeError) : FailureData :=
  match error with
  | InvokeUnavailable => mkFailureData PluginUnavailable "Plugin is unavailable"
  | InvokeTimeout => mkFailureData PluginTimeout "Plugin call timed out"
  | InvokeInvalidResponse => FailureData_invalid_response
  | InvokeInternal => mkFailureData PluginInternalError "Plugin call failed"
  end.

(** [serde_json::to_value] and [from_value] at the types of the router. *)
Class ContentJson := {
  Value : Type;
  search_request_to_value : SearchRequest → option Value;
  discover_request_to_value : DiscoverRequest → option Value;
  categories_request_to_value : CategoriesRequest → option Value;
  search_result_from_value : Value → option SearchResult;
  discover_result_from_value : Value → option DiscoverResult;
  categories_result_from_value : Value → option CategoriesResult;
  error_data_from_value : Value → option PluginErrorData;
}.

Section router.
Context {B : Encoding} {J : CursorJson} {V : ContentJson}.

Definition prepare_groups (candidates : list ContentCandidate) (cursor : option string)
    (binding : ContentCursorBinding) :
    result ContentCursorError (list CursorCandidateGroup * bool) :=
  match cursor with
  | None =>
      Ok ((λ candidates, mkCursorCandidateGroup candidates None)
            <$> group_candidates candidates,
          is_none (filters_plugin_id (binding_filters binding)))
  | Some cursor =>
      sources ← decode_cursor cursor binding;
      groups ← mapM (λ source,
        candidate ← ok_or (List.find (λ candidate,
            eqb (candidate_platform_id candidate) (SourceCursor_platform_id source)
            && eqb (candidate_plugin_id candidate) (SourceCursor_plugin_id source))
          candidates) BindingMismatch;
        Ok (mkCursorCandidateGroup [candidate] (Some (SourceCursor_cursor source)))) sources;
      Ok (groups, false)
  end.

(** *** Decoding plugin responses *)

Definition decode_response (response : JsonRpcResponse Value) : result FailureData Value :=
  if negb (eqb (JsonRpcResponse_jsonrpc response) "2.0")
     || Bool.eqb (is_some (JsonRpcResponse_result response))
                 (is_some (JsonRpcResponse_error response))
  then Err FailureData_invalid_response
  else
    match JsonRpcResponse_error response with
    | Some error =>
        data ← (value ← ok_or (JsonRpcError_data error) FailureData_invalid_response;
                ok_or (error_data_from_value value) FailureData_invalid_response);
        map_err (λ _, FailureData_invalid_response) (PluginErrorData_validate data);;
        Err (mkFailureData (PluginErrorData_code data)
               (safe_failure_summary (PluginErrorData_code data)))
    | None => ok_or (JsonRpcResponse_result response) FailureData_invalid_response
    end.

Definition decode_search_response (response : JsonRpcResponse Value) :
    result FailureData SearchResult :=
  value ← decode_response response;
  result ← ok_or (search_result_from_value value) FailureData_invalid_response;
  map_err (λ _, FailureData_invalid_response) (SearchResult_validate result);;
  Ok result.

Definition decode_discover_response (response : JsonRpcResponse Value) :
    result FailureData DiscoverResult :=
  value ← decode_response response;
  result ← ok_or (discover_result_from_value value) FailureData_invalid_response;
  map_err (λ _, FailureData_invalid_response) (DiscoverResult_validate result);;
  Ok result.

Definition decode_categories_response (response : JsonRpcResponse Value) :
    result FailureData CategoriesResult :=
  value ← decode_response response;
  result ← ok_or (categories_result_from_value value) FailureData_invalid_response;
  map_err (λ _, FailureData_invalid_response) (CategoriesResult_validate result);;
  Ok result.

(** *** One platform *)

(** [ContentPluginInvoker::invoke] *)
Context (invoke : string → ContentCandidate → ContentMethod → Value →
                  result ContentInvokeError (JsonRpcResponse Value)).

(** One attempt: the transport failure and the decoding failure are reported
    alike. *)
Definition attempt {R} (decode : JsonRpcResponse Value → result FailureData R)
    (method : ContentMethod) (request_id : string) (params : Value)
    (candidate : ContentCandidate) : result FailureData R :=
  response ← map_err invoke_failure (invoke request_id candidate method params);
  decode response.

(** The loop shared by [search_platform], [discover_platform] and
    [categories_platform]: the first candidate that answers, and the failures
    met before. *)
Fixpoint first_answer {R} (attempt : ContentCandidate → result FailureData R)
    (allow_fallback : bool) (candidates : list ContentCandidate) :
    option (ContentCandidate * R) * list ContentFailure :=
  match candidates with
  | [] => (None, [])
  | candidate :: candidates =>
      match attempt candidate with
      | Ok result => (Some (candidate, result), [])
      | Err failure =>
          let retryable := PluginErrorCode_is_retryable (FailureData_code failure) in
          let reported := with_source failure (ContentSource_from candidate) in
          if negb allow_fallback || negb retryable then (None, [reported])
          else
            let '(answer, failures) := first_answer attempt allow_fallback candidates in
            (answer, reported :: failures)
      end
  end.

Record PlatformSearchResult := mkPlatformSearchResult {
  platform_search_items : list SourcedContentItem;
  platform_search_failures : list ContentFailure;
  platform_search_next_cursor : option SourceCursor;
}.

Definition source_cursor (candidate : ContentCandidate) (cursor : string) : SourceCursor :=
  mkSourceCursor (candidate_platform_id candidate) (candidate_plugin_id candidate) cursor.

Definition search_platform (request_id : string) (candidates : list ContentCandidate)
    (params : Value) (allow_fallback : bool) : PlatformSearchResult :=
  let '(answer, failures) :=
    first_answer (attempt decode_search_response MSearch request_id params)
      allow_fallback candidates in
  match answer with
  | Some (candidate, result) => {|
      platform_search_items :=
        (λ item, mkSourcedContentItem item (ContentSource_from candidate))
          <$> SearchResult_items result;
      platform_search_failures := failures;
      platform_search_next_cursor :=
        source_cursor candidate <$> SearchResult_next_cursor result
    |}
  | None => mkPlatformSearchResult [] failures None
  end.

Record PlatformDiscoverResult := mkPlatformDiscoverResult {
  platform_discover_sections : list SourcedDiscoverSection;
  platform_discover_failures : list ContentFailure;
  platform_discover_next_cursor : option SourceCursor;
}.

Definition discover_platform (request_id : string) (candidates : list ContentCandidate)
    (params : Value) (allow_fallback : bool) : PlatformDiscoverResult :=
  let '(answer, failures) :=
    first_answer (attempt decode_discover_response MDiscover request_id params)
      allow_fallback candidates in
  match answer with
  | Some (candidate, result) => {|
      platform_discover_sections :=
        (λ section, mkSourcedDiscoverSection section (ContentSource_from candidate))
          <$> DiscoverResult_sections result;
      platform_discover_failures := failures;
      platform_discover_next_cursor :=
        source_cursor candidate <$> DiscoverResult_next_cursor result
    |}
  | None => mkPlatformDiscoverResult [] failures None
  end.

Definition categories_platform (request_id : string) (candidates : list ContentCandidate)
    (params : Value) (allow_fallback : bool) : AggregatedCategoriesResult :=
  let '(answer, failures) :=
    first_answer (attempt decode_categories_response MCategories request_id params)
      allow_fallback candidates in
  match answer with
  | Some (candidate, result) =>
      mkAggregatedCategoriesResult
        ((λ item, mkSourcedCategoryItem item (ContentSource_from candidate))
           <$> CategoriesResult_items result) failures false
  | None => mkAggregatedCategoriesResult [] failures false
  end.

(** *** The service *)

(** [ContentRoutingStore::list_candidates] *)
Context (list_candidates :
  ContentRouteKind → result ContentServiceError (list ContentCandidate)).

Definition search_binding (input : SearchAggregationInput) : ContentCursorBinding := {|
  binding_operation := OpSearch;
  binding_query := Some (search_query input);
  binding_filters := search_filters input;
|}.

Definition discover_binding (input : DiscoverAggregationInput) : ContentCursorBinding := {|
  binding_operation := OpDiscover;
  binding_query := None;
  binding_filters := discover_filters input;
|}.

Definition search
    (completion : list (nat * PlatformSearchResult) → list (nat * PlatformSearchResult))
    (input : SearchAggregationInput) : result ContentServiceError AggregatedSearchResult :=
  let binding := search_binding input in
  candidates ← list_candidates RouteSearch;
  let selected := select_candidates candidates MSearch RouteSearch (search_filters input) in
  '(groups, allow_fallback) ←
    map_err CursorError (prepare_groups selected (search_cursor input) binding);
  let had_candidates := negb (Nat.eqb (length groups) 0) in
  work ← mapM (λ group,
    params ← ok_or (search_request_to_value {|
        SearchRequest_query := search_query input;
        SearchRequest_cursor := group_cursor group;
        SearchRequest_limit := search_limit input
      |}) RequestSerialization;
    Ok (group_candidates_of group, params)) groups;
  let platform_results :=
    sort_by_index (completion (enumerate
      ((λ '(candidates, params),
          search_platform (search_request_id input) candidates params allow_fallback)
         <$> work))) in
  let results := platform_results.*2 in
  let next_sources := omap platform_search_next_cursor results in
  next_cursor ← map_err CursorError (encode_cursor binding next_sources);
  Ok {|
    AggregatedSearchResult_items :=
      deduplicate_items (concat (platform_search_items <$> results));
    AggregatedSearchResult_next_cursor := next_cursor;
    AggregatedSearchResult_failures := concat (platform_search_failures <$> results);
    AggregatedSearchResult_had_candidates := had_candidates
  |}.

Definition discover
    (completion : list (nat * PlatformDiscoverResult) → list (nat * PlatformDiscoverResult))
    (input : DiscoverAggregationInput) :
    result ContentServiceError AggregatedDiscoverResult :=
  let binding := discover_binding input in
  candidates ← list_candidates RouteDiscover;
  let selected :=
    select_candidates candidates MDiscover RouteDiscover (discover_filters input) in
  '(groups, allow_fallback) ←
    map_err CursorError (prepare_groups selected (discover_cursor input) binding);
  let had_candidates := negb (Nat.eqb (length groups) 0) in
  work ← mapM (λ group,
    params ← ok_or (discover_request_to_value {|
        DiscoverRequest_cursor := group_cursor group;
        DiscoverRequest_limit := discover_limit input
      |}) RequestSerialization;
    Ok (group_candidates_of group, params)) groups;
  let platform_results :=
    sort_by_index (completion (enumerate
      ((λ '(candidates, params),
          discover_platform (discover_request_id input) candidates params allow_fallback)
         <$> work))) in
  let results := platform_results.*2 in
  let next_sources := omap platform_discover_next_cursor results in
  next_cursor ← map_err CursorError (encode_cursor binding next_sources);
  Ok {|
    AggregatedDiscoverResult_sections :=
      deduplicate_sections (concat (platform_discover_sections <$> results));
    AggregatedDiscoverResult_next_cursor := next_cursor;
    AggregatedDiscoverResult_failures := concat (platform_discover_failures <$> results);
    AggregatedDiscoverResult_had_candidates := had_candidates
  |}.

Definition categories
    (completion : list (nat * AggregatedCategoriesResult) →
                  list (nat * AggregatedCategoriesResult))
    (input : CategoriesAggregationInput) :
    result ContentServiceError AggregatedCategoriesResult :=
  candidates ← list_candidates RouteDiscover;
  let groups := group_candidates
    (select_candidates candidates MCategories RouteDiscover (categories_filters input)) in
  let had_candidates := negb (Nat.eqb (length groups) 0) in
  params ← ok_or (categories_request_to_value mkCategoriesRequest) RequestSerialization;
  let allow_fallback := is_none (filters_plugin_id (categories_filters input)) in
  let platform_results :=
    sort_by_index (completion (enumerate
      ((λ candidates,
          categories_platform (categories_request_id input) candidates params allow_fallback)
         <$> groups))) in
  let results := platform_results.*2 in
  Ok {|
    AggregatedCategoriesResult_items :=
      deduplicate_categories (concat (AggregatedCategoriesResult_items <$> results));
    AggregatedCategoriesResult_failures :=
      concat (AggregatedCategoriesResult_failures <$> results);
    AggregatedCategoriesResult_had_candidates := had_candidates
  |}.
End router.
