(* ===== verification/RouterFacts.v ===== *)
(** * Facts about content aggregation

    Lemmas and properties of [Router]: selection and grouping, fallback inside
    a platform, independence of the completion order, soundness of the merged
    answer and continuation through the cursor. *)

From S2P Require Import Prelude Text Domain ContentContract Foreign Cursor Dedup Router.

(** ** Selection *)

Global Instance candidate_cmp_preorder : CmpPreorder candidate_cmp.
Proof. unfold candidate_cmp. apply _. Qed.

Lemma select_candidates_elem candidates method route filters c :
  c ∈ select_candidates candidates method route filters ↔
  c ∈ candidates ∧ candidate_matches method route filters c = true.
Proof.
  unfold select_candidates. rewrite elem_of_sort_by, !list_elem_of_In. apply filter_In.
Qed.

(** ** Grouping *)

Section btree.
Context {A : Type}.
Implicit Types m : list (string * list A).

Lemma btree_push_keys k (v : A) m p : p ∈ (btree_push k v m).*1 ↔ p = k ∨ p ∈ m.*1.
Proof.
  induction m as [|[k' vs] m IH]; simpl; [set_solver|].
  destruct (String.compare k k') eqn:E; simpl; [|set_solver..].
  apply (cmp_eq String.compare) in E as ->. set_solver.
Qed.

Lemma btree_push_sorted k (v : A) m :
  StronglySorted (cmp_lt String.compare) m.*1 →
  StronglySorted (cmp_lt String.compare) (btree_push k v m).*1.
Proof.
  induction m as [|[k' vs] m IH]; simpl; [repeat constructor|].
  inversion 1 as [|? ? Hm Hk]; subst.
  destruct (String.compare k k') eqn:E; simpl; [done| |].
  - constructor; [done|]. constructor; [done|].
    eapply Forall_impl; [done|]. intros z Hz. by eapply (cmp_lt_trans _ _ k').
  - constructor; [by apply IH|]. apply Forall_forall. intros z Hz.
    apply btree_push_keys in Hz as [->|Hz]; [by apply (cmp_flip_Gt String.compare)|].
    by eapply Forall_forall in Hk.
Qed.

Lemma btree_push_elem k (v : A) m p vs :
  StronglySorted (cmp_lt String.compare) m.*1 →
  (p, vs) ∈ btree_push k v m ↔
  (p ≠ k ∧ (p, vs) ∈ m) ∨
  (p = k ∧ ((∃ vs0, (k, vs0) ∈ m ∧ vs = vs0 ++ [v]) ∨ ((k ∉ m.*1) ∧ vs = [v]))).
Proof.
  induction m as [|[k' vs'] m IH]; simpl; [set_solver|].
  inversion 1 as [|? ? Hm Hk]; subst. rewrite Forall_forall in Hk.
  assert (∀ w, (k', w) ∉ m) as Hk'.
  { intros w Hw. apply (list_elem_of_fmap_2 fst) in Hw. specialize (Hk _ Hw).
    unfold cmp_lt in Hk. by rewrite (cmp_refl String.compare) in Hk. }
  destruct (String.compare k k') eqn:E.
  - apply (cmp_eq String.compare) in E as ->. rewrite elem_of_cons. split.
    + intros [[= -> ->]|Hin].
      * right. split; [done|]. left. exists vs'. split; [by left|done].
      * left. split; [|by right]. intros ->. by apply Hk' in Hin.
    + intros [[Hne [[= ? _]|Hin]%elem_of_cons]|[-> [(vs0 & Hin & ->)|[Hno _]]]].
      * done.
      * by right.
      * left. apply elem_of_cons in Hin as [[= ->]|Hin]; [done|by apply Hk' in Hin].
      * set_solver.
  - assert (k ∉ k' :: m.*1) as Hno.
    { intros [->|Hin]%elem_of_cons; [by rewrite (cmp_refl String.compare) in E|].
      specialize (Hk _ Hin). unfold cmp_lt in Hk.
      assert (String.compare k k = Lt) as Hkk by by eapply (cmp_lt_trans _ _ k').
      by rewrite (cmp_refl String.compare) in Hkk. }
    assert (∀ w, (k, w) ∉ (k', vs') :: m) as Hno'.
    { intros w Hw. apply Hno. by apply (list_elem_of_fmap_2 fst) in Hw. }
    rewrite (elem_of_cons _ _ (k, [v])). split.
    + intros [[= -> ->]|Hin]; [auto|].
      left. split; [|done]. intros ->. by apply Hno' in Hin.
    + intros [[_ Hin]|[-> [(vs0 & Hin & _)|[_ ->]]]]; [auto|by apply Hno' in Hin|auto].
  - assert (k ≠ k') as Hne by (intros ->; by rewrite (cmp_refl String.compare) in E).
    rewrite elem_of_cons, (IH Hm). split.
    + intros [[= -> ->]|[[? ?]|[-> [(vs0 & ? & ->)|[? ->]]]]]; [left|left|right|right].
      all: split; [done|].
      * by left.
      * by right.
      * left. exists vs0. split; [by right|done].
      * right. split; [set_solver|done].
    + intros [[Hp [[= -> ->]|Hin]%elem_of_cons]|[-> [(vs0 & Hin & ->)|[Hno ->]]]].
      * by left.
      * right. by left.
      * right. right. split; [done|]. left. exists vs0.
        apply elem_of_cons in Hin as [[= ? ?]|?]; done.
      * right. right. split; [done|]. right. split; [set_solver|done].
Qed.
End btree.

Definition on_platform (p : string) (c : ContentCandidate) : bool :=
  eqb (candidate_platform_id c) p.

Lemma group_map_spec candidates :
  StronglySorted (cmp_lt String.compare) (group_map candidates).*1 ∧
  ∀ p vs, (p, vs) ∈ group_map candidates ↔
          vs = List.filter (on_platform p) candidates ∧ vs ≠ [].
Proof.
  induction candidates as [|c cs [IHs IHe]] using rev_ind; unfold group_map in *.
  { simpl. split; [constructor|]. intros p vs. split; [set_solver|naive_solver]. }
  rewrite fold_left_app. simpl. set (m := fold_left _ cs []) in *.
  split; [by apply btree_push_sorted|].
  intros p vs. rewrite btree_push_elem, List.filter_app by done. simpl.
  unfold on_platform at 2.
  destruct (decide (p = candidate_platform_id c)) as [->|Hne].
  - rewrite eqb_refl. split.
    + intros [[? _]|[_ [(vs0 & [-> _]%IHe & ->)|[Hno ->]]]]; [done| |].
      * split; [done|]. by intros [_ ?]%app_nil.
      * split; [|done]. destruct (List.filter _ cs) as [|x xs] eqn:F; [done|].
        destruct Hno.
        apply (list_elem_of_fmap_2 fst m (candidate_platform_id c, x :: xs)), IHe. done.
    + intros [-> _]. right. split; [done|].
      destruct (List.filter _ cs) as [|x xs] eqn:F; [right|left].
      * split; [|done]. intros ((q, vs0) & Hq & [-> Hvs]%IHe)%list_elem_of_fmap.
        simpl in Hq. subst q. by rewrite F in Hvs.
      * exists (x :: xs). split; [|done]. by apply IHe.
  - destruct (eqb _ p) eqn:E; bool_prop; [congruence|].
    rewrite app_nil_r, IHe. naive_solver.
Qed.

Lemma group_candidates_elem candidates g :
  g ∈ group_candidates candidates →
  g ≠ [] ∧ ∃ p, g = List.filter (on_platform p) candidates.
Proof.
  unfold group_candidates. intros ([p vs] & -> & Hin)%list_elem_of_fmap.
  apply group_map_spec in Hin as [-> ?]. eauto.
Qed.

Lemma filter_on_platform p q candidates :
  List.filter (on_platform p) (List.filter (on_platform q) candidates) =
  if decide (p = q) then List.filter (on_platform q) candidates else [].
Proof.
  destruct (decide (p = q)) as [->|Hne].
  - induction candidates as [|c cs IH]; simpl; [done|].
    destruct (on_platform q c) eqn:E; simpl; [by rewrite E, IH|done].
  - induction candidates as [|c cs IH]; simpl; [done|].
    destruct (on_platform q c) eqn:E; simpl; [|done].
    unfold on_platform in *. bool_prop.
    destruct (eqb _ p) eqn:E2; [|done]. bool_prop. congruence.
Qed.

(** Every candidate is in exactly one group. *)
Lemma concat_groups_filter p m candidates :
  StronglySorted (cmp_lt String.compare) m.*1 →
  (∀ q vs, (q, vs) ∈ m → vs = List.filter (on_platform q) candidates) →
  List.filter (on_platform p) (concat m.*2) =
  if decide (p ∈ m.*1) then List.filter (on_platform p) candidates else [].
Proof.
  induction m as [|[q vs] m IH]; intros Hs He; [by destruct (decide (p ∈ _)); [set_solver|]|].
  rewrite !fmap_cons in *. cbn [fst snd concat] in *. inversion Hs as [|? ? Hm Hq]; subst.
  rewrite List.filter_app, IH; [|done|set_solver].
  rewrite (He q vs) by set_solver. rewrite filter_on_platform.
  destruct (decide (p = q)) as [->|Hne].
  - destruct (decide (q ∈ m.*1)) as [Hin|Hno].
    + eapply Forall_forall in Hq; [|done]. unfold cmp_lt in Hq.
      by rewrite (cmp_refl String.compare) in Hq.
    + rewrite app_nil_r. case_decide; [done|set_solver].
  - simpl. repeat case_decide; done || set_solver.
Qed.

Lemma filter_on_platform_Forall p candidates :
  Forall (λ c, c ∈ candidates ∧ candidate_platform_id c = p)
    (List.filter (on_platform p) candidates).
Proof.
  apply Forall_forall. intros c Hc.
  apply list_elem_of_In, filter_In in Hc as [Hin Hp].
  unfold on_platform in Hp. bool_prop. split; [by apply list_elem_of_In|done].
Qed.

Definition by_platform : ContentCandidate → ContentCandidate → comparison :=
  cmp_on candidate_platform_id String.compare.

Lemma by_platform_equiv x y : equiv_to by_platform x y = on_platform (candidate_platform_id x) y.
Proof.
  unfold equiv_to, by_platform, cmp_on, on_platform.
  destruct (String.compare _ _) eqn:E.
  - apply (cmp_eq String.compare) in E. symmetry. apply eqb_eq. done.
  - symmetry. apply bool_decide_eq_false. intros Heq.
    by rewrite Heq, (cmp_refl String.compare) in E.
  - symmetry. apply bool_decide_eq_false. intros Heq.
    by rewrite Heq, (cmp_refl String.compare) in E.
Qed.

Lemma group_map_platforms candidates :
  (group_map candidates).*2 =
    (λ p, List.filter (on_platform p) candidates) <$> (group_map candidates).*1.
Proof.
  destruct (group_map_spec candidates) as [_ He].
  assert (∀ p vs, (p, vs) ∈ group_map candidates →
    vs = List.filter (on_platform p) candidates) as He' by naive_solver.
  clear He. induction (group_map candidates) as [|[p vs] m IH]; [done|].
  rewrite !fmap_cons. cbn [fst snd]. f_equal; [apply He'; left|].
  apply IH. intros q ws Hin. apply He'. by right.
Qed.

Lemma group_map_keys candidates p :
  p ∈ (group_map candidates).*1 ↔ ∃ c, c ∈ candidates ∧ candidate_platform_id c = p.
Proof.
  destruct (group_map_spec candidates) as [_ He]. split.
  - intros ([q vs] & -> & [-> Hne]%He)%list_elem_of_fmap. simpl.
    destruct (List.filter _ candidates) as [|c cs] eqn:F; [done|].
    pose proof (filter_on_platform_Forall q candidates) as Hall.
    rewrite F in Hall. apply Forall_cons in Hall as [? _]. eauto.
  - intros (c & Hc & <-).
    apply (list_elem_of_fmap_2 fst _
      (candidate_platform_id c, List.filter (on_platform (candidate_platform_id c)) candidates)).
    apply He. split; [done|]. intros Hnil.
    assert (In c (List.filter (on_platform (candidate_platform_id c)) candidates)) as Hin.
    { apply filter_In. split; [by apply list_elem_of_In|apply eqb_refl]. }
    by rewrite Hnil in Hin.
Qed.

Lemma concat_groups_sorted candidates ps :
  StronglySorted (cmp_lt String.compare) ps →
  StronglySorted (cmp_le by_platform)
    (concat ((λ p, List.filter (on_platform p) candidates) <$> ps)).
Proof.
  induction 1 as [|p ps Hps IH Hp]; [constructor|]. rewrite fmap_cons. cbn [concat].
  assert (∀ c q, c ∈ List.filter (on_platform q) candidates → candidate_platform_id c = q)
    as Hplat.
  { intros c q Hc. pose proof (filter_on_platform_Forall q candidates) as Hall.
    rewrite Forall_forall in Hall. by apply Hall. }
  assert (∀ c, c ∈ concat ((λ p, List.filter (on_platform p) candidates) <$> ps) →
    cmp_lt String.compare p (candidate_platform_id c)) as Hlater.
  { intros c Hc. apply list_elem_of_In, in_concat in Hc as (g & Hg & Hc).
    apply list_elem_of_In, list_elem_of_fmap in Hg as (q & -> & Hq).
    apply list_elem_of_In, Hplat in Hc as ->. by eapply Forall_forall in Hp. }
  assert (Forall (λ c, candidate_platform_id c = p) (List.filter (on_platform p) candidates))
    as Hhere by (apply Forall_forall; naive_solver).
  induction Hhere as [|c cs Hc Hcs IH2]; simpl; [done|].
  constructor; [done|]. apply Forall_forall. intros d [Hd|Hd]%elem_of_app.
  - rewrite Forall_forall in Hcs. unfold cmp_le, by_platform, cmp_on.
    by rewrite Hc, (Hcs d Hd), (cmp_refl String.compare).
  - unfold cmp_le, by_platform, cmp_on. rewrite Hc, (Hlater d Hd). done.
Qed.

Lemma candidate_cmp_platform x y : cmp_le candidate_cmp x y → cmp_le by_platform x y.
Proof.
  unfold cmp_le, candidate_cmp, cmp_then at 1. fold by_platform.
  destruct (by_platform x y); simpl; congruence.
Qed.

Lemma StronglySorted_weaken {A} (R S : relation A) l :
  (∀ x y, R x y → S x y) → StronglySorted R l → StronglySorted S l.
Proof.
  intros HRS. induction 1 as [|x l Hl IH Hx]; constructor; [done|].
  eapply Forall_impl; [done|]. auto.
Qed.

Lemma concat_group_candidates candidates :
  StronglySorted (cmp_le by_platform) candidates →
  concat (group_candidates candidates) = candidates.
Proof.
  intros Hs. destruct (group_map_spec candidates) as [Hsorted He].
  apply (sorted_classes_unique by_platform).
  - unfold group_candidates. rewrite group_map_platforms. by apply concat_groups_sorted.
  - done.
  - intros x.
    rewrite (filter_ext _ _ (by_platform_equiv x)), (filter_ext _ _ (by_platform_equiv x)).
    unfold group_candidates.
    rewrite (concat_groups_filter _ _ candidates); [|done|naive_solver].
    destruct (decide _) as [|Hno]; [done|].
    destruct (List.filter _ candidates) as [|c cs] eqn:F; [done|].
    destruct Hno. apply (list_elem_of_fmap_2 fst _ (candidate_platform_id x, c :: cs)).
    apply He. by rewrite F.
Qed.

(** ** Fallback *)

Section fallback.
Context {R : Type} (attempt : ContentCandidate → result FailureData R) (allow : bool).

(** A failed attempt together with its report. *)
Definition failed_with (c : ContentCandidate) (f : ContentFailure) : Prop :=
  ∃ data, attempt c = Err data ∧ f = with_source data (ContentSource_from c).
(** The failure lets the next candidate be tried. *)
Definition falls_back (f : ContentFailure) : Prop :=
  allow = true ∧ PluginErrorCode_is_retryable (ContentFailure_code f) = true.

Lemma first_answer_spec candidates :
  let '(answer, failures) := first_answer attempt allow candidates in
  ∃ tried rest, candidates = tried ++ rest ∧ Forall2 failed_with tried failures ∧
  match answer with
  | Some (c, r) =>
      attempt c = Ok r ∧ hd_error rest = Some c ∧ Forall falls_back failures
  | None =>
      (rest = [] ∧ Forall falls_back failures) ∨
      ∃ before f, failures = before ++ [f] ∧ Forall falls_back before ∧ ¬ falls_back f
  end.
Proof.
  induction candidates as [|c cs IH]; simpl.
  { exists [], []. split_and!; [done|constructor|]. left. by split. }
  destruct (attempt c) as [r|data] eqn:E.
  { exists [], (c :: cs). split_and!; [done|constructor|done|done|constructor]. }
  set (f := with_source data (ContentSource_from c)).
  assert (failed_with c f) as Hf by (exists data; done).
  destruct (_ || _) eqn:Hstop.
  { exists [c], cs. split_and!; [done|by repeat constructor|]. right.
    exists [], f. split_and!; [done|constructor|]. unfold falls_back. simpl.
    destruct allow, (PluginErrorCode_is_retryable _); naive_solver. }
  bool_prop. destruct (first_answer attempt allow cs) as [answer failures].
  destruct IH as (tried & rest & -> & Hall & Hend).
  assert (falls_back f) as Hfb by done.
  exists (c :: tried), rest. split_and!; [done|by constructor|].
  destruct answer as [[c' r]|].
  - destruct Hend as (? & ? & ?). split_and!; [done..|by constructor].
  - destruct Hend as [[? ?]|(before & f' & -> & ? & ?)].
    + left. split; [done|by constructor].
    + right. exists (f :: before), f'. split_and!; [done|by constructor|done].
Qed.

Lemma first_answer_elem candidates c r failures :
  first_answer attempt allow candidates = (Some (c, r), failures) →
  c ∈ candidates ∧ attempt c = Ok r.
Proof.
  intros H. pose proof (first_answer_spec candidates) as Hs. rewrite H in Hs.
  destruct Hs as (tried & rest & -> & _ & ? & Hhd & _). split; [|done].
  destruct rest; simplify_eq/=. set_solver.
Qed.
End fallback.

(** ** The platform groups of a request *)

(** One platform per group, in increasing order, all candidates selected. *)
Definition groups_ok (selected : list ContentCandidate) (groups : list CursorCandidateGroup)
    (platforms : list string) : Prop :=
  StronglySorted (cmp_lt String.compare) platforms ∧
  Forall2 (λ g p, Forall (λ c, c ∈ selected ∧ candidate_platform_id c = p)
                    (group_candidates_of g)) groups platforms.

Section prepared.
Context {B : Encoding} {J : CursorJson}.

Lemma find_candidate_Some candidates source c :
  List.find (λ candidate,
      eqb (candidate_platform_id candidate) (SourceCursor_platform_id source)
      && eqb (candidate_plugin_id candidate) (SourceCursor_plugin_id source))
    candidates = Some c →
  c ∈ candidates ∧ candidate_platform_id c = SourceCursor_platform_id source ∧
  candidate_plugin_id c = SourceCursor_plugin_id source.
Proof.
  intros [Hin Hb]%find_some. bool_prop. by rewrite list_elem_of_In.
Qed.

Lemma prepare_groups_ok selected cursor binding groups allow :
  prepare_groups selected cursor binding = Ok (groups, allow) →
  ∃ platforms, groups_ok selected groups platforms.
Proof.
  unfold prepare_groups. destruct cursor as [cursor|].
  - intros H. simplify_result.
    match goal with H : decode_cursor _ _ = Ok ?s |- _ =>
      apply decode_cursor_Ok in H as [(_ & _ & Hs) _]; rename s into sources end.
    exists (SourceCursor_platform_id <$> sources). split; [done|]. clear Hs.
    match goal with H : mapM _ _ = Ok _ |- _ => apply mapM_Ok in H; rename H into Hm end.
    induction Hm as [|s g sources groups Hg Hm IH]; simpl; [constructor|].
    constructor; [|done].
    simplify_result. simpl.
    match goal with H : List.find _ _ = Some _ |- _ =>
      apply find_candidate_Some in H as (? & ? & ?) end.
    by repeat constructor.
  - intros [= <- <-]. unfold group_candidates.
    destruct (group_map_spec selected) as [Hs He].
    exists (group_map selected).*1. split; [done|].
    assert (∀ p vs, (p, vs) ∈ group_map selected →
      vs = List.filter (on_platform p) selected) as He' by naive_solver.
    clear Hs He. induction (group_map selected) as [|[p vs] m IH]; [constructor|].
    rewrite !fmap_cons. constructor.
    + simpl. rewrite (He' p vs) by by left. apply filter_on_platform_Forall.
    + apply IH. intros q ws Hin. apply He'. by right.
Qed.
End prepared.

(** ** The service *)

(** The calls of one request complete in some order. *)
Definition completes {A} (completion : list (nat * A) → list (nat * A)) : Prop :=
  ∀ l, completion l ≡ₚ l.

Lemma completed_results {A} (completion : list (nat * A) → list (nat * A)) l :
  completes completion → (sort_by_index (completion (enumerate l))).*2 = l.
Proof. intros Hc. by rewrite (sort_by_index_completion l), enumerate_snd. Qed.

Lemma sequential_results {A} (l : list A) : (sort_by_index (enumerate l)).*2 = l.
Proof. apply (completed_results id). by intros k. Qed.

Lemma sublist_sorted {A} (R : relation A) (l k : list A) :
  l `sublist_of` k → StronglySorted R k → StronglySorted R l.
Proof.
  induction 1 as [|x l k Hs IH|x l k Hs IH]; intros Hk; [done| |].
  - inversion Hk as [|? ? Hk' Hx]; subst. constructor; [by apply IH|].
    apply Forall_forall. intros y Hy. rewrite Forall_forall in Hx. apply Hx.
    by eapply elem_of_submseteq, sublist_submseteq.
  - inversion Hk; subst. by apply IH.
Qed.

Section service.
Context {B : Encoding} {J : CursorJson} {V : ContentJson}.
Context (invoke : string → ContentCandidate → ContentMethod → Value →
                  result ContentInvokeError (JsonRpcResponse Value)).
Context (list_candidates :
  ContentRouteKind → result ContentServiceError (list ContentCandidate)).

(** *** One platform *)

Lemma decode_search_response_Ok response r :
  decode_search_response response = Ok r → SearchResult_ok r.
Proof. unfold decode_search_response. intros H. simplify_result. by apply SearchResult_validate_Ok. Qed.

Lemma attempt_search_Ok request_id params c r :
  attempt invoke decode_search_response MSearch request_id params c = Ok r →
  SearchResult_ok r.
Proof. unfold attempt. intros H. simplify_result. by eapply decode_search_response_Ok. Qed.

(** All the items of a platform come from one of its candidates. *)
Definition sourced_from (c : ContentCandidate) (item : SourcedContentItem) : Prop :=
  SourcedContentItem_source item = ContentSource_from c ∧
  ContentItem_ok (SourcedContentItem_item item).

Lemma search_platform_spec request_id candidates params allow :
  let r := search_platform invoke request_id candidates params allow in
  (platform_search_items r = [] ∧ platform_search_next_cursor r = None) ∨
  ∃ c, c ∈ candidates ∧ Forall (sourced_from c) (platform_search_items r) ∧
    opt_ok (λ s, ∃ cursor, s = source_cursor c cursor ∧ opaque_ok 4096 cursor)
      (platform_search_next_cursor r).
Proof.
  cbv zeta. unfold search_platform.
  destruct (first_answer _ allow candidates) as [[[c r]|] failures] eqn:E; [|by left].
  apply first_answer_elem in E as [Hc Hr]. right. exists c. simpl.
  apply attempt_search_Ok in Hr as (_ & Hitems & Hcursor). split_and!; [done| |].
  - apply Forall_fmap. eapply Forall_impl; [done|]. intros i Hi. by split.
  - destruct (SearchResult_next_cursor r); simpl in *; eauto.
Qed.

Lemma search_platform_failures request_id candidates params allow f :
  f ∈ platform_search_failures (search_platform invoke request_id candidates params allow) →
  ∃ c, c ∈ candidates ∧ ContentFailure_source f = ContentSource_from c.
Proof.
  unfold search_platform. intros Hf.
  pose proof (first_answer_spec
    (attempt invoke decode_search_response MSearch request_id params) allow candidates) as Hs.
  destruct (first_answer _ allow candidates) as [answer failures].
  assert (f ∈ failures) as Hin by (by destruct answer as [[? ?]|]).
  destruct Hs as (tried & rest & -> & Hall & _).
  apply list_elem_of_lookup in Hin as [i Hi].
  eapply Forall2_lookup_r in Hall as (c & Hc & data & _ & ->); [|done].
  exists c. split; [|done]. apply elem_of_app. left. by eapply list_elem_of_lookup_2.
Qed.

(** *** The search, step by step *)

Definition search_selected (candidates : list ContentCandidate)
    (input : SearchAggregationInput) : list ContentCandidate :=
  select_candidates candidates MSearch RouteSearch (search_filters input).

Definition search_run (input : SearchAggregationInput) (allow : bool)
    (work : list ContentCandidate * Value) : PlatformSearchResult :=
  search_platform invoke (search_request_id input) work.1 work.2 allow.

(** What is asked of a group: its candidates and the request with its cursor. *)
Definition page_work (input : SearchAggregationInput) (group : CursorCandidateGroup)
    (w : list ContentCandidate * Value) : Prop :=
  w.1 = group_candidates_of group ∧
  search_request_to_value {| SearchRequest_query := search_query input;
    SearchRequest_cursor := group_cursor group; SearchRequest_limit := search_limit input |} = Some w.2.

Lemma search_Ok completion input out :
  completes completion →
  search invoke list_candidates completion input = Ok out →
  ∃ candidates groups allow work next,
    list_candidates RouteSearch = Ok candidates ∧
    prepare_groups (search_selected candidates input) (search_cursor input)
      (search_binding input) = Ok (groups, allow) ∧
    (work.*1 = group_candidates_of <$> groups ∧ Forall2 (page_work input) groups work) ∧
    encode_cursor (search_binding input)
      (omap platform_search_next_cursor (search_run input allow <$> work)) = Ok next ∧
    out = {|
      AggregatedSearchResult_items := deduplicate_items
        (concat (platform_search_items <$> (search_run input allow <$> work)));
      AggregatedSearchResult_next_cursor := next;
      AggregatedSearchResult_failures :=
        concat (platform_search_failures <$> (search_run input allow <$> work));
      AggregatedSearchResult_had_candidates := negb (Nat.eqb (length groups) 0)
    |}.
Proof.
  intros Hc. unfold search. intros H. simplify_result.
  match goal with p : (list CursorCandidateGroup * bool)%type |- _ =>
    destruct p as [groups allow] end.
  simplify_result.
  match goal with H : mapM _ groups = Ok ?w |- _ => rename w into work; rename H into Hw end.
  apply mapM_Ok in Hw.
  rewrite completed_results in * by done.
  assert (Forall2 (page_work input) groups work) as Hpage.
  { eapply Forall2_impl; [exact Hw|]. intros g w Hg. cbv beta in Hg.
    simplify_result. by split. }
  assert (work.*1 = group_candidates_of <$> groups) as Hfst.
  { clear -Hpage. induction Hpage as [|g w groups work [Hg _] _ IH]; [done|].
    by rewrite !fmap_cons, <- IH, Hg. }
  assert ((λ '(candidates, params),
      search_platform invoke (search_request_id input) candidates params allow) <$> work =
    search_run input allow <$> work) as Hrun.
  { apply list_fmap_ext. by intros ? [] _. }
  rewrite Hrun in *. do 5 eexists. split_and!; done.
Qed.

(** The platform results belong to the groups, in order. *)
Lemma search_work_groups selected groups platforms work :
  groups_ok selected groups platforms → work.*1 = group_candidates_of <$> groups →
  Forall2 (λ (w : list ContentCandidate * Value) p,
    Forall (λ c, c ∈ selected ∧ candidate_platform_id c = p) w.1) work platforms.
Proof.
  intros [_ Hg] Hw. revert work Hw.
  induction Hg as [|g p groups platforms Hgp _ IH]; intros [|w work] Hw; try done.
  rewrite !fmap_cons in Hw. injection Hw as Hw1 Hw2. constructor; [by rewrite Hw1|by apply IH].
Qed.

Lemma search_next_platforms (selected : list ContentCandidate) input allow work platforms :
  Forall2 (λ (w : list ContentCandidate * Value) p,
    Forall (λ c, c ∈ selected ∧ candidate_platform_id c = p) w.1) work platforms →
  let next := omap platform_search_next_cursor (search_run input allow <$> work) in
  SourceCursor_platform_id <$> next `sublist_of` platforms ∧
  Forall (λ s, ∃ c cursor, c ∈ selected ∧ s = source_cursor c cursor ∧
                           opaque_ok 4096 cursor) next.
Proof.
  cbv zeta. induction 1 as [|w p work platforms Hw Hrest [IH1 IH2]]; [done|].
  rewrite fmap_cons. cbn [omap list_omap].
  destruct (search_platform_spec (search_request_id input) w.1 w.2 allow)
    as [[_ Hn]|(c & Hc & _ & Hn)];
    fold (search_run input allow w) in Hn.
  { rewrite Hn. split; [by constructor|done]. }
  rewrite Forall_forall in Hw. destruct (Hw c Hc) as [Hsel <-].
  destruct (platform_search_next_cursor _) as [s|]; [|split; [by constructor|done]].
  destruct Hn as (cursor & -> & Hcur). rewrite fmap_cons. split; [by constructor|].
  constructor; [by eauto|done].
Qed.

(** ** Properties of the service *)

(** C36. Whatever order the platform calls complete in, search, discover and
    categories return the answer of the sequential run. *)
Theorem aggregation_completion_independent cs cd cc :
  completes cs → completes cd → completes cc →
  (∀ input, search invoke list_candidates cs input = search invoke list_candidates id input) ∧
  (∀ input, discover invoke list_candidates cd input =
            discover invoke list_candidates id input) ∧
  (∀ input, categories invoke list_candidates cc input =
            categories invoke list_candidates id input).
Proof.
  intros Hs Hd Hc. split_and!; intros input.
  - unfold search. destruct (list_candidates _) as [l|]; simpl; [|done].
    destruct (prepare_groups _ _ _) as [[groups allow]|]; simpl; [|done].
    destruct (mapM _ groups) as [work|]; simpl; [|done].
    by rewrite !completed_results, !sequential_results.
  - unfold discover. destruct (list_candidates _) as [l|]; simpl; [|done].
    destruct (prepare_groups _ _ _) as [[groups allow]|]; simpl; [|done].
    destruct (mapM _ groups) as [work|]; simpl; [|done].
    by rewrite !completed_results, !sequential_results.
  - unfold categories. destruct (list_candidates _) as [l|]; simpl; [|done].
    destruct (categories_request_to_value _) as [params|]; simpl; [|done].
    by rewrite !completed_results, !sequential_results.
Qed.

Lemma search_item_group (selected : list ContentCandidate) input allow work platforms item :
  Forall2 (λ (w : list ContentCandidate * Value) p,
    Forall (λ c, c ∈ selected ∧ candidate_platform_id c = p) w.1) work platforms →
  item ∈ concat (platform_search_items <$> (search_run input allow <$> work)) →
  ∃ i w c, work !! i = Some w ∧ platforms !! i = Some (candidate_platform_id c) ∧
    c ∈ selected ∧ sourced_from c item ∧
    item ∈ platform_search_items (search_run input allow w) ∧
    Forall (sourced_from c) (platform_search_items (search_run input allow w)).
Proof.
  intros Hw Hin. apply list_elem_of_In, in_concat in Hin as (items & Hitems & Hitem).
  apply list_elem_of_In in Hitem.
  apply list_elem_of_In, list_elem_of_fmap in Hitems as (r & -> & Hr).
  apply list_elem_of_fmap in Hr as (w & -> & Hwork).
  apply list_elem_of_lookup in Hwork as [i Hi].
  destruct (Forall2_lookup_l _ _ _ _ _ Hw Hi) as (p & Hp & Hall).
  destruct (search_platform_spec (search_request_id input) w.1 w.2 allow)
    as [[Hnil _]|(c & Hc & Hfrom & _)].
  { fold (search_run input allow w) in Hnil. rewrite Hnil in Hitem. set_solver. }
  rewrite Forall_forall in Hall. destruct (Hall c Hc) as [Hsel <-].
  exists i, w, c. split_and!; [done..| |done|done]. by eapply Forall_forall in Hfrom.
Qed.

(** A successful search only returns well-formed items of plugins that take
    part in search, declare the capability and pass the request's filters,
    at most one plugin per platform, without duplicates; failures name such
    plugins too. *)
Theorem search_sound completion input out candidates :
  completes completion →
  list_candidates RouteSearch = Ok candidates →
  search invoke list_candidates completion input = Ok out →
  (∀ item, item ∈ AggregatedSearchResult_items out →
     ∃ c, c ∈ candidates ∧
       candidate_matches MSearch RouteSearch (search_filters input) c = true ∧
       sourced_from c item) ∧
  (∀ f, f ∈ AggregatedSearchResult_failures out →
     ∃ c, c ∈ candidates ∧
       candidate_matches MSearch RouteSearch (search_filters input) c = true ∧
       ContentFailure_source f = ContentSource_from c) ∧
  (∀ i1 i2, i1 ∈ AggregatedSearchResult_items out → i2 ∈ AggregatedSearchResult_items out →
     ContentSource_platform_id (SourcedContentItem_source i1) =
       ContentSource_platform_id (SourcedContentItem_source i2) →
     SourcedContentItem_source i1 = SourcedContentItem_source i2) ∧
  NoDup (keys sourced_item_key (AggregatedSearchResult_items out)).
Proof.
  intros Hc Hcand (cands & groups & allow & work & next & Hcand' & Hprep & [Hfst _] & _ & ->)%search_Ok;
    [|done].
  rewrite Hcand in Hcand'. injection Hcand' as <-.
  destruct (prepare_groups_ok _ _ _ _ _ Hprep) as [platforms Hgroups].
  pose proof (search_work_groups _ _ _ _ Hgroups Hfst) as Hw. cbn.
  set (all := concat _). destruct Hgroups as [Hsorted _].
  assert (∀ item, item ∈ deduplicate_items all → item ∈ all) as Hsub.
  { intros item. rewrite deduplicate_items_eq. intros Hin.
    eapply elem_of_submseteq; [done|]. apply sublist_submseteq, keep_first_after_sublist. }
  split_and!.
  - intros item Hin%Hsub.
    destruct (search_item_group _ _ _ _ _ _ Hw Hin) as (_ & _ & c & _ & _ & Hsel & Hfrom & _).
    apply select_candidates_elem in Hsel. naive_solver.
  - intros f Hf. apply list_elem_of_In, in_concat in Hf as (fs & Hfs & Hf).
    apply list_elem_of_In in Hf.
    apply list_elem_of_In, list_elem_of_fmap in Hfs as (r & -> & Hr).
    apply list_elem_of_fmap in Hr as (w & -> & Hwork).
    apply list_elem_of_lookup in Hwork as [i Hi].
    destruct (Forall2_lookup_l _ _ _ _ _ Hw Hi) as (p & _ & Hall).
    apply search_platform_failures in Hf as (c & Hcw & Hsrc).
    rewrite Forall_forall in Hall. destruct (Hall c Hcw) as [Hsel _].
    apply select_candidates_elem in Hsel. naive_solver.
  - intros i1 i2 H1%Hsub H2%Hsub Hp.
    destruct (search_item_group _ _ _ _ _ _ Hw H1)
      as (a & w1 & c1 & Ha & Pa & _ & [F1 _] & In1 & _).
    destruct (search_item_group _ _ _ _ _ _ Hw H2)
      as (b & w2 & c2 & Hb & Pb & _ & [F2 _] & _ & G2).
    rewrite F1, F2 in Hp. simpl in Hp.
    assert (a = b) as <-.
    { eapply NoDup_lookup; [|exact Pa|by rewrite Hp].
      by eapply (cmp_lt_sorted_NoDup String.compare). }
    assert (w1 = w2) as <- by congruence.
    rewrite Forall_forall in G2. destruct (G2 _ In1) as [F1' _]. congruence.
  - rewrite deduplicate_items_eq. apply keep_first_after_nodup.
Qed.

(** Fallback inside a platform: the candidates are tried in order, each
    failure is reported, and the next one is tried only after a retryable
    failure of a request that allows fallback; the answer is the first
    success.  Without fallback at most one candidate is tried. *)
Lemma search_platform_answer request_id candidates params allow :
  let r := search_platform invoke request_id candidates params allow in
  let tries := attempt invoke decode_search_response MSearch request_id params in
  let failures := platform_search_failures r in
  ∃ tried rest, candidates = tried ++ rest ∧ Forall2 (failed_with tries) tried failures ∧
    (allow = false → (length failures ≤ 1)%nat) ∧
    ((∃ c answer, hd_error rest = Some c ∧ tries c = Ok answer ∧
        platform_search_items r =
          (λ item, mkSourcedContentItem item (ContentSource_from c))
            <$> SearchResult_items answer ∧
        platform_search_next_cursor r = source_cursor c <$> SearchResult_next_cursor answer ∧
        Forall (falls_back allow) failures)
     ∨ (platform_search_items r = [] ∧ platform_search_next_cursor r = None ∧
        ((rest = [] ∧ Forall (falls_back allow) failures) ∨
         ∃ before f, failures = before ++ [f] ∧ Forall (falls_back allow) before ∧
                     ¬ falls_back allow f))).
Proof using Type.
  cbv zeta. unfold search_platform.
  set (tries := attempt _ _ _ _ _).
  pose proof (first_answer_spec tries allow candidates) as Hs.
  destruct (first_answer tries allow candidates) as [answer failures].
  destruct Hs as (tried & rest & Heq & Hall & Hend).
  assert (Forall (falls_back allow) failures ∨ (∃ before f, failures = before ++ [f] ∧
    Forall (falls_back allow) before) → allow = false → (length failures ≤ 1)%nat) as Hone.
  { intros H ->. assert (∀ l, Forall (falls_back false) l → l = []) as Hnil.
    { intros l Hl. destruct Hl as [|f l [? _] _]; done. }
    destruct H as [->%Hnil|(before & f & -> & ->%Hnil)]; simpl; lia. }
  exists tried, rest. destruct answer as [[c answer]|]; simpl.
  - destruct Hend as (Hok & Hhd & Hfb). split_and!; [done..|by eauto|]. left.
    exists c, answer. done.
  - split_and!; [done..| |by right]. apply Hone.
    destruct Hend as [[_ ?]|(before & f & ? & ? & _)]; [by left|right; eauto].
Qed.

Lemma find_candidate_exists candidates c :
  c ∈ candidates →
  ∃ c', List.find (λ candidate,
      eqb (candidate_platform_id candidate) (candidate_platform_id c)
      && eqb (candidate_plugin_id candidate) (candidate_plugin_id c)) candidates = Some c'.
Proof using Type.
  intros Hc. destruct (List.find _ _) eqn:E; [eauto|].
  eapply find_none in E; [|by apply list_elem_of_In].
  simpl in E. by rewrite !eqb_refl in E.
Qed.

(** The groups a cursor resolves to: one pinned candidate per source. *)
Lemma resolve_sources (selected : list ContentCandidate) sources :
  Forall (λ s, ∃ c cursor, c ∈ selected ∧ s = source_cursor c cursor ∧
                           opaque_ok 4096 cursor) sources →
  ∃ groups,
    mapM (λ source,
      candidate ← ok_or (List.find (λ candidate,
          eqb (candidate_platform_id candidate) (SourceCursor_platform_id source)
          && eqb (candidate_plugin_id candidate) (SourceCursor_plugin_id source))
        selected) BindingMismatch;
      Ok (mkCursorCandidateGroup [candidate] (Some (SourceCursor_cursor source)))) sources
    = Ok groups ∧
    Forall2 (λ s g, ∃ c, c ∈ selected ∧
      candidate_platform_id c = SourceCursor_platform_id s ∧
      candidate_plugin_id c = SourceCursor_plugin_id s ∧
      g = mkCursorCandidateGroup [c] (Some (SourceCursor_cursor s))) sources groups.
Proof using Type.
  induction 1 as [|s sources (c & cursor & Hc & -> & _) _ (groups & IH & Hg)].
  { exists []. split; [done|constructor]. }
  destruct (find_candidate_exists selected c Hc) as [c' Hfind].
  exists (mkCursorCandidateGroup [c'] (Some cursor) :: groups). split.
  - apply mapM_Ok. constructor; [|by apply mapM_Ok]. simpl. by rewrite Hfind.
  - constructor; [|done].
    apply (find_candidate_Some selected (source_cursor c cursor)) in Hfind as (? & ? & ?).
    exists c'. simpl. by split_and!.
Qed.

(** What a group of candidates offered for the next page: its candidates were
    asked in order, each that failed before the answer in a way that allows the
    next one, and the offer is the cursor of the answer under the plugin that gave
    it; or nobody answered. *)
Definition offered (input : SearchAggregationInput) (allow : bool) (group : CursorCandidateGroup)
    (offer : option SourceCursor) : Prop :=
  ∃ w tried rest failures, page_work input group w ∧
    let tries := attempt invoke decode_search_response MSearch (search_request_id input) w.2 in
    w.1 = tried ++ rest ∧ Forall2 (failed_with tries) tried failures ∧
    ((∃ c answer, hd_error rest = Some c ∧ tries c = Ok answer ∧ Forall (falls_back allow) failures ∧
        offer = mkSourceCursor (candidate_platform_id c) (candidate_plugin_id c)
                  <$> SearchResult_next_cursor answer)
     ∨ (offer = None ∧
        ((rest = [] ∧ Forall (falls_back allow) failures) ∨
         ∃ before f, failures = before ++ [f] ∧ Forall (falls_back allow) before ∧
                     ¬ falls_back allow f))).

Lemma search_run_offered input allow group w :
  page_work input group w →
  offered input allow group (platform_search_next_cursor (search_run input allow w)).
Proof using Type.
  intros Hw. destruct (search_platform_answer (search_request_id input) w.1 w.2 allow)
    as (tried & rest & Heq & Hall & _ & Hcase).
  exists w, tried, rest, (platform_search_failures (search_run input allow w)).
  split; [exact Hw|]. split; [exact Heq|]. split; [exact Hall|].
  destruct Hcase as [(c & answer & Hc & Hok & _ & Hn & Hf)|(_ & Hn & Hf)].
  - left. exists c, answer. split_and!; [done..|exact Hn].
  - right. split; [exact Hn|exact Hf].
Qed.

Lemma search_runs_offered input allow groups work :
  Forall2 (page_work input) groups work →
  Forall2 (offered input allow) groups
    (platform_search_next_cursor <$> (search_run input allow <$> work)).
Proof using Type.
  induction 1 as [|g w groups work Hw _ IH]; [constructor|]. rewrite !fmap_cons.
  constructor; [by apply search_run_offered|done].
Qed.

Lemma omap_fmap_id {T T'} (f : T → option T') (l : list T) : omap f l = omap id (f <$> l).
Proof using Type.
  induction l as [|x l IH]; [done|]. rewrite fmap_cons. cbn [omap list_omap id].
  destruct (f x); by rewrite <- IH.
Qed.

(** C39. Continuation: the cursor a search returns decodes to one source for each
    platform whose answer offered a cursor, in the order of the groups: the plugin
    that answered and the cursor it gave.  It is accepted by the next search with
    the same query and filters over the same candidates, which asks exactly these
    plugins again, each with its own cursor and without fallback. *)
Theorem search_continues `{!EncodingLaws B, !CursorJsonLaws J}
    completion input out candidates encoded input' :
  completes completion →
  list_candidates RouteSearch = Ok candidates →
  Forall (λ c, PluginId_parse (PluginId_as_str (candidate_plugin_id c))
               = Ok (candidate_plugin_id c)) candidates →
  search invoke list_candidates completion input = Ok out →
  AggregatedSearchResult_next_cursor out = Some encoded →
  search_query input' = search_query input → search_filters input' = search_filters input →
  ∃ groups0 allow offers sources groups,
    prepare_groups (search_selected candidates input) (search_cursor input) (search_binding input)
      = Ok (groups0, allow) ∧
    Forall2 (offered input allow) groups0 offers ∧ sources = omap id offers ∧
    sources_ok sources ∧ decode_cursor encoded (search_binding input') = Ok sources ∧
    prepare_groups (search_selected candidates input') (Some encoded) (search_binding input')
      = Ok (groups, false) ∧
    Forall2 (λ s g, ∃ c, c ∈ search_selected candidates input' ∧
      candidate_platform_id c = SourceCursor_platform_id s ∧
      candidate_plugin_id c = SourceCursor_plugin_id s ∧
      g = mkCursorCandidateGroup [c] (Some (SourceCursor_cursor s))) sources groups.
Proof.
  intros Hc Hcand Hids
    (cands & groups & allow & work & next & Hcand' & Hprep & [Hfst Hpage] & Henc & ->)%search_Ok
    Hnext Hq Hf; [|done].
  rewrite Hcand in Hcand'. injection Hcand' as <-. simpl in Hnext. subst next.
  assert (search_binding input' = search_binding input) as ->
    by (unfold search_binding; congruence).
  assert (search_selected candidates input' = search_selected candidates input) as ->
    by (unfold search_selected; congruence).
  destruct (prepare_groups_ok _ _ _ _ _ Hprep) as [platforms Hgroups].
  pose proof (search_work_groups _ _ _ _ Hgroups Hfst) as Hw.
  destruct (search_next_platforms _ input allow _ _ Hw) as [_ Hsrc].
  set (sources := omap _ _) in *.
  destruct (resolve_sources _ _ Hsrc) as (groups' & Hmap & Hpin).
  pose proof (encode_cursor_Some _ _ _ Henc) as (Hok & _ & fp & _ & Hfp & _).
  assert (decode_cursor encoded (search_binding input) = Ok sources) as Hdecode.
  2: { exists groups, allow, (platform_search_next_cursor <$> (search_run input allow <$> work)).
       exists sources, groups'. split; [done|]. split; [by apply search_runs_offered|].
       split; [apply omap_fmap_id|]. split; [done|]. split; [done|]. split; [|done].
       unfold prepare_groups. rewrite Hdecode. simpl. by rewrite Hmap. }
  assert (plugin_ids_valid sources) as Hvalid.
  { eapply Forall_impl; [exact Hsrc|]. intros s (c & cursor & Hsel & -> & _). simpl.
    apply select_candidates_elem in Hsel as [Hin _]. by eapply Forall_forall in Hids. }
  rewrite (cursor_decode_encode _ _ _ _ _ Henc Hvalid Hfp). by case_decide.
Qed.

(** More than 32 platforms that all answer and offer more results make the
    whole search fail, and their results are lost. *)
Theorem search_too_many_sources completion input candidates :
  completes completion →
  list_candidates RouteSearch = Ok candidates →
  search_cursor input = None →
  (∀ request, is_some (search_request_to_value request) = true) →
  (∀ c params, c ∈ search_selected candidates input → ∃ answer,
     attempt invoke decode_search_response MSearch (search_request_id input) params c
       = Ok answer ∧ is_some (SearchResult_next_cursor answer) = true) →
  (32 < length (group_candidates (search_selected candidates input)))%nat →
  search invoke list_candidates completion input = Err (CursorError TooManySources).
Proof using Type.
  intros Hc Hcand Hcur Hser Hans Hmany. unfold search. rewrite Hcand, Hcur. simpl.
  fold (search_selected candidates input). set (selected := search_selected _ _) in *.
  set (allow := is_none _).
  assert (∀ groups, ∃ work,
    mapM (λ group,
      params ← ok_or (search_request_to_value {|
          SearchRequest_query := search_query input;
          SearchRequest_cursor := group_cursor group;
          SearchRequest_limit := search_limit input
        |}) RequestSerialization;
      Ok (group_candidates_of group, params))
      ((λ candidates, mkCursorCandidateGroup candidates None) <$> groups)
      = Ok work ∧ work.*1 = groups) as Hwork.
  { induction groups as [|g groups (work & IH & Hfst)]; [by exists []|].
    specialize (Hser {| SearchRequest_query := search_query input;
      SearchRequest_cursor := None; SearchRequest_limit := search_limit input |}).
    destruct (search_request_to_value _) as [v|] eqn:E; [|done].
    exists ((g, v) :: work). split; [|by rewrite fmap_cons, Hfst].
    rewrite fmap_cons. simpl. rewrite E. simpl. by rewrite IH. }
  destruct (Hwork (group_candidates selected)) as (work & -> & Hfst). simpl.
  rewrite completed_results by done.
  assert (length (omap platform_search_next_cursor
    ((λ '(candidates, params), search_platform invoke (search_request_id input)
        candidates params allow) <$> work)) = length work) as Hlen.
  { assert (∀ g, g ∈ work.*1 → g ≠ [] ∧ ∃ p, g = List.filter (on_platform p) selected) as Hg.
    { rewrite Hfst. apply group_candidates_elem. }
    clear -Hans Hg. induction work as [|[g params] work IH]; [done|].
    rewrite fmap_cons in *. cbn [omap list_omap fst] in *.
    destruct (Hg g) as (Hne & p & Hp); [by left|].
    destruct g as [|c g]; [done|].
    assert (c ∈ selected) as Hsel.
    { assert (In c (List.filter (on_platform p) selected)) as [? _]%filter_In
        by (rewrite <- Hp; by left). by apply list_elem_of_In. }
    destruct (Hans c params Hsel) as (answer & Hok & Hsome).
    unfold search_platform at 1. cbn [first_answer]. rewrite Hok. simpl.
    destruct (SearchResult_next_cursor answer); [|done]. simpl. f_equal.
    apply IH. intros g' Hg'. apply Hg. by right. }
  assert (length work = length (group_candidates selected)) as Hlw
    by (rewrite <- Hfst; by rewrite length_fmap).
  set (next := omap _ _) in *. unfold encode_cursor.
  assert (validate_sources next = Err TooManySources) as Hv.
  { unfold validate_sources, MAX_CURSOR_SOURCES, zlen.
    destruct (_ >? _) eqn:E; [done|]. bool_prop. lia. }
  destruct next as [|s next]; [simpl in *; lia|]. by rewrite Hv.
Qed.
End service.

(** ** Properties of selection *)

(** Selection keeps exactly the matching candidates, ordered by platform, then
    default plugin, priority and plugin id; grouping cuts that order into one
    group per platform, in increasing platform order, losing nothing. *)
Theorem select_and_group_spec candidates method route filters :
  let selected := select_candidates candidates method route filters in
  selected ≡ₚ List.filter (candidate_matches method route filters) candidates ∧
  StronglySorted (cmp_le candidate_cmp) selected ∧
  concat (group_candidates selected) = selected ∧
  ∃ platforms, StronglySorted (cmp_lt String.compare) platforms ∧
    (∀ p, p ∈ platforms ↔ ∃ c, c ∈ selected ∧ candidate_platform_id c = p) ∧
    group_candidates selected = (λ p, List.filter (on_platform p) selected) <$> platforms.
Proof.
  cbv zeta. set (selected := select_candidates _ _ _ _).
  assert (StronglySorted (cmp_le candidate_cmp) selected) as Hs
    by (apply sort_by_sorted, _).
  split_and!; [apply sort_by_perm|done| |].
  - apply concat_group_candidates.
    eapply StronglySorted_weaken; [apply candidate_cmp_platform|done].
  - exists (group_map selected).*1. split_and!.
    + apply group_map_spec.
    + intros p. apply group_map_keys.
    + apply group_map_platforms.
Qed.
