(* ===== verification/Policy.v ===== *)
(** * Network policy of the plugin proxy
    (crates/audiodown-network-proxy/src/policy.rs and resolver.rs)

    Which URLs a plugin may reach: hosts declared in its manifest, over https,
    resolving to public addresses only, pinned for the rest of the exchange.
    The DNS resolver is the trait of the code: a stateful answer function. *)

From S2P Require Import Prelude Text Std Domain Foreign CredentialContract.

Inductive ProxyPolicyError :=
| InvalidUrl | HostNotAllowed | BlockedAddress | ResolveFailed | DnsRebinding
| RedirectHostChanged | DeveloperModeRequired | InvalidFixtureMapping.
Global Instance ProxyPolicyError_eq_dec : EqDecision ProxyPolicyError.
Proof. solve_decision. Defined.

(** ** Host names *)

Definition normalize_host (host : string) : string :=
  to_ascii_lowercase (trim_end_matches "."%char host).

Definition valid_label (label : string) : bool :=
  negb (str_is_empty label)
  && (str_len label <=? 63)
  && negb (starts_with label "-")
  && negb (ends_with label "-")
  && str_all (λ byte, is_ascii_lowercase byte || is_ascii_digit byte || eqb byte "-"%char) label.

Definition valid_hostname (host : string) : bool :=
  if str_is_empty host || (str_len host >? 253) || is_some (IpAddr_parse host) then false
  else forallb valid_label (split "."%char host).

Inductive HostPattern :=
| Exact (pattern : string)
| Wildcard (suffix : string) (suffix_labels : nat)
| InvalidPattern.

Definition HostPattern_parse (pattern : string) : HostPattern :=
  let pattern := normalize_host pattern in
  if str_is_empty pattern || str_contains pattern "/"%char || str_contains pattern ":"%char
  then InvalidPattern
  else
    match strip_prefix pattern "*." with
    | Some suffix =>
        if negb (valid_hostname suffix) then InvalidPattern
        else Wildcard suffix (length (split "."%char suffix))
    | None => if valid_hostname pattern then Exact pattern else InvalidPattern
    end.

Definition HostPattern_matches (self : HostPattern) (host : string) : bool :=
  let host := normalize_host host in
  match self with
  | Exact pattern => eqb host pattern
  | Wildcard suffix suffix_labels =>
      ends_with host ("." +:+ suffix)
      && (length (split "."%char host) =? suffix_labels + 1)%nat
  | InvalidPattern => false
  end.

Record AllowedHosts := mkAllowedHosts { AllowedHosts_patterns : list HostPattern }.

Definition AllowedHosts_from_manifest (manifest : PluginManifest) : AllowedHosts :=
  mkAllowedHosts
    (HostPattern_parse <$> NetworkPolicy_allowed_hosts (PluginManifest_network manifest)).

Definition AllowedHosts_allows (self : AllowedHosts) (host : string) : bool :=
  existsb (λ pattern, HostPattern_matches pattern host) (AllowedHosts_patterns self).

(** ** Addresses *)

Definition is_global_ipv4 (a : Ipv4Addr) : bool :=
  negb (ipv4_is_unspecified a
    || ipv4_is_loopback a
    || ipv4_is_private a
    || ipv4_is_link_local a
    || ipv4_is_multicast a
    || ipv4_is_broadcast a
    || (o0 a =? 0)
    || (o0 a >=? 240)
    || (o0 a =? 127)
    || ((o0 a =? 100) && ((64 <=? o1 a) && (o1 a <=? 127)))
    || ((o0 a =? 169) && (o1 a =? 254))
    || ((o0 a =? 192) && (o1 a =? 0) && (o2 a =? 0))
    || ((o0 a =? 192) && (o1 a =? 0) && (o2 a =? 2))
    || ((o0 a =? 198) && (o1 a =? 18))
    || ((o0 a =? 198) && (o1 a =? 19))
    || ((o0 a =? 198) && (o1 a =? 51) && (o2 a =? 100))
    || ((o0 a =? 203) && (o1 a =? 0) && (o2 a =? 113))).

Definition is_global_ipv6 (a : Ipv6Addr) : bool :=
  match to_ipv4 a with
  | Some a4 => is_global_ipv4 a4
  | None =>
      let is_special_2001 :=
        (s0 a =? 0x2001) && ((Z.land (s1 a) 0xfe00 =? 0) || (s1 a =? 0x0db8)) in
      let is_six_to_four := s0 a =? 0x2002 in
      let is_documentation := (s0 a =? 0x3fff) && (Z.land (s1 a) 0xf000 =? 0) in
      (Z.land (s0 a) 0xe000 =? 0x2000)
      && negb (is_special_2001 || is_six_to_four || is_documentation)
  end.

Definition is_global_address (a : IpAddr) : bool :=
  match a with V4 a => is_global_ipv4 a | V6 a => is_global_ipv6 a end.

Definition is_fixture_address (a : IpAddr) : bool :=
  is_global_address a || ip_is_loopback a.

(** ** Resolvers *)

Inductive ResolveError := NotFound.

(** The trait: resolving may change the resolver and its later answers. *)
Class DnsResolver (R : Type) :=
  resolve : R → string → result ResolveError (list IpAddr) * R.

Record StaticResolver := mkStaticResolver {
  StaticResolver_answers : gmap string (list IpAddr)
}.

Definition StaticResolver_set (self : StaticResolver) (host : string)
    (addresses : list IpAddr) : StaticResolver :=
  mkStaticResolver (<[normalize_host host := addresses]> (StaticResolver_answers self)).

Definition StaticResolver_empty : StaticResolver := mkStaticResolver ∅.

(** Collecting into the map: a later answer replaces an earlier one. *)
Definition StaticResolver_new (answers : list (string * list IpAddr)) : StaticResolver :=
  fold_left (λ self '(host, addresses), StaticResolver_set self host addresses)
    answers StaticResolver_empty.

Global Instance StaticResolver_resolve : DnsResolver StaticResolver := λ self host,
  (ok_or (StaticResolver_answers self !! normalize_host host) NotFound, self).

(** ** The policy *)

Record ProxyPolicy := mkProxyPolicy {
  policy_allowed_hosts : AllowedHosts;
  policy_developer_mode : bool;
  policy_fixture_mappings : gmap string IpAddr;
}.

Definition ProxyPolicy_production (manifest : PluginManifest) : ProxyPolicy :=
  mkProxyPolicy (AllowedHosts_from_manifest manifest) false ∅.

Definition ProxyPolicy_developer (manifest : PluginManifest) : ProxyPolicy :=
  mkProxyPolicy (AllowedHosts_from_manifest manifest) true ∅.

Definition with_fixture_mapping (self : ProxyPolicy) (host : string) (address : IpAddr) :
    result ProxyPolicyError ProxyPolicy :=
  if negb (policy_developer_mode self) then Err DeveloperModeRequired
  else
    let host := normalize_host host in
    if negb (valid_hostname host) || negb (is_fixture_address address)
    then Err InvalidFixtureMapping
    else Ok (mkProxyPolicy (policy_allowed_hosts self) (policy_developer_mode self)
               (<[host := address]> (policy_fixture_mappings self))).

Definition address_set (addresses : list IpAddr) : list IpAddr :=
  dedup (sort_by IpAddr_cmp addresses).

Section policy.
Context {U : UrlLib} {R : Type} {D : DnsResolver R}.

Record ParsedRequestUrl := mkParsedRequestUrl {
  parsed_url : Url;
  parsed_host : string;
  parsed_port : Z;
}.

Definition parse_request_url (raw_url : string) (developer_mode : bool) :
    result ProxyPolicyError ParsedRequestUrl :=
  url ← ok_or (Url_parse raw_url) InvalidUrl;
  if (negb developer_mode && negb (eqb (Url_scheme url) "https"))
     || (developer_mode && negb (eqb (Url_scheme url) "http" || eqb (Url_scheme url) "https"))
     || negb (str_is_empty (Url_username url))
     || is_some (Url_password url)
     || is_some (Url_fragment url)
  then Err InvalidUrl
  else
    h ← ok_or (Url_host url) InvalidUrl;
    host ← match h with
           | HostDomain host => Ok (normalize_host host)
           | HostIpv4 | HostIpv6 => Err InvalidUrl
           end;
    if negb (valid_hostname host) then Err InvalidUrl
    else
      port ← ok_or (Url_port_or_known_default url) InvalidUrl;
      if port =? 0 then Err InvalidUrl
      else Ok (mkParsedRequestUrl url host port).

Record PinnedTarget := mkPinnedTarget {
  PinnedTarget_url : Url;
  PinnedTarget_host : string;
  PinnedTarget_port : Z;
  PinnedTarget_addresses : list IpAddr;
}.

Definition resolve_and_validate (self : ProxyPolicy) (host : string) (resolver : R) :
    result ProxyPolicyError (list IpAddr) * R :=
  let fixture_address := policy_fixture_mappings self !! host in
  let '(answer, resolver) :=
    match fixture_address with
    | Some address => (Ok [address], resolver)
    | None =>
        let '(answer, resolver) := resolve resolver host in
        (map_err (λ _, ResolveFailed) answer, resolver)
    end in
  (addresses ← answer;
   let address_is_allowed :=
     if is_some fixture_address then is_fixture_address else is_global_address in
   if (length addresses =? 0)%nat || existsb (λ a, negb (address_is_allowed a)) addresses
   then Err BlockedAddress
   else Ok (dedup (sort_by IpAddr_cmp addresses)), resolver).

Definition authorize_url (self : ProxyPolicy) (raw_url : string) (resolver : R) :
    result ProxyPolicyError PinnedTarget * R :=
  match parse_request_url raw_url (policy_developer_mode self) with
  | Err e => (Err e, resolver)
  | Ok parsed =>
      if eqb (Url_scheme (parsed_url parsed)) "http"
         && negb (is_some (policy_fixture_mappings self !! parsed_host parsed))
      then (Err InvalidUrl, resolver)
      else if negb (AllowedHosts_allows (policy_allowed_hosts self) (parsed_host parsed))
      then (Err HostNotAllowed, resolver)
      else
        let '(addresses, resolver) :=
          resolve_and_validate self (parsed_host parsed) resolver in
        (addresses ← addresses;
         Ok (mkPinnedTarget (parsed_url parsed) (parsed_host parsed) (parsed_port parsed)
               addresses), resolver)
  end.

Definition authorize_redirect (self : ProxyPolicy) (pinned : PinnedTarget) (raw_url : string)
    (resolver : R) : result ProxyPolicyError PinnedTarget * R :=
  let '(redirected, resolver) := authorize_url self raw_url resolver in
  (redirected ← redirected;
   if negb (eqb (PinnedTarget_host redirected) (PinnedTarget_host pinned))
   then Err RedirectHostChanged
   else if negb (eqb (address_set (PinnedTarget_addresses redirected))
                     (address_set (PinnedTarget_addresses pinned)))
   then Err DnsRebinding
   else Ok redirected, resolver).
End policy.
