(* ===== verification/PolicyFacts.v ===== *)
(** * Properties of the network policy

    Lemmas and properties of [Policy]: what a manifest's host pattern allows,
    which addresses count as public, and what an authorized or redirected
    target guarantees. *)

From S2P Require Import Prelude Text Std Domain Foreign CredentialContract Policy.

(** ** Host names *)

Definition label_byte (c : ascii) : bool :=
  is_ascii_lowercase c || is_ascii_digit c || eqb c "-"%char.

Lemma valid_label_bytes label c :
  valid_label label = true → c ∈ bytes label → label_byte c = true.
Proof. unfold valid_label. intros H Hc. bool_prop. by eapply str_all_true in Hc. Qed.

Lemma valid_label_ne label : valid_label label = true → bytes label ≠ [].
Proof. unfold valid_label. intros H. bool_prop. by destruct label. Qed.

Lemma valid_hostname_labels host :
  valid_hostname host = true →
  Forall (λ w, valid_label (str w) = true) (split_bytes "."%char (bytes host)).
Proof.
  unfold valid_hostname. destruct (_ || _); [done|]. unfold split.
  rewrite forallb_forall. intros H. apply Forall_forall. intros w Hw.
  apply H, in_map, list_elem_of_In, Hw.
Qed.

Lemma valid_hostname_bytes host c :
  valid_hostname host = true → c ∈ bytes host → c = "."%char ∨ label_byte c = true.
Proof.
  intros Hv%valid_hostname_labels. rewrite <- (split_bytes_join "."%char (bytes host)) at 1.
  intros [->|(w & Hw & Hc)]%join_bytes_elem; [by left|right].
  rewrite Forall_forall in Hv. eapply valid_label_bytes; [by apply Hv|by rewrite bytes_str].
Qed.

Lemma join_bytes_last c ws :
  ws ≠ [] → Forall (λ w, w ≠ []) ws →
  ∃ l w x, join_bytes c ws = l ++ [x] ∧ w ∈ ws ∧ x ∈ w.
Proof.
  intros Hne Hall. induction Hall as [|w ws Hw Hall IH]; [done|].
  destruct ws as [|w' ws]; cbn [join_bytes].
  - destruct (exists_last Hw) as (l & x & ->). exists l, (l ++ [x]), x. set_solver.
  - destruct IH as (l & w'' & x & Heq & ? & ?); [done|].
    exists (w ++ c :: l), w'', x. cbn [join_bytes] in Heq. rewrite Heq.
    split_and!; [by rewrite <- app_assoc|set_solver|done].
Qed.

Lemma valid_hostname_last host :
  valid_hostname host = true → ∃ l x, bytes host = l ++ [x] ∧ x ≠ "."%char.
Proof.
  intros Hv%valid_hostname_labels.
  destruct (join_bytes_last "."%char (split_bytes "."%char (bytes host)))
    as (l & w & x & Heq & Hw & Hx).
  { apply split_bytes_ne. }
  { eapply Forall_impl; [exact Hv|]. intros w Hw%valid_label_ne. by rewrite bytes_str in Hw. }
  rewrite split_bytes_join in Heq. exists l, x. split; [done|].
  pose proof (split_bytes_free "."%char (bytes host)) as Hfree.
  rewrite Forall_forall in Hfree. intros ->. by apply Hfree in Hw.
Qed.

Lemma label_byte_lowercase c : label_byte c = true → byte_to_lowercase c = c.
Proof.
  unfold label_byte, byte_to_lowercase.
  destruct (is_ascii_uppercase c) eqn:E; [|done].
  unfold is_ascii_uppercase, is_ascii_lowercase, is_ascii_digit, in_range in *. bool_prop.
  intros [[?|?]%orb_prop|?]%orb_prop; bool_prop; [lia..|]. subst. vm_compute in H0. done.
Qed.

(** A valid host name is its own normal form. *)
Lemma normalize_host_valid host : valid_hostname host = true → normalize_host host = host.
Proof.
  intros Hv. unfold normalize_host, trim_end_matches, to_ascii_lowercase. apply (inj bytes).
  rewrite bytes_str, bytes_str.
  destruct (valid_hostname_last _ Hv) as (l & x & Heq & Hx).
  assert (rev (drop_while (eqb "."%char) (rev (bytes host))) = bytes host) as ->.
  { rewrite Heq, rev_app_distr. simpl. destruct (eqb _ x) eqn:E; bool_prop; [by subst|].
    simpl. by rewrite rev_involutive. }
  rewrite <- (map_id (bytes host)) at 2. apply map_ext_in. intros c Hc.
  destruct (valid_hostname_bytes host c Hv) as [->|Hb]; [by apply list_elem_of_In|done|].
  by apply label_byte_lowercase.
Qed.

Lemma normalize_host_idemp_bytes host c :
  c ∈ bytes (normalize_host host) → is_ascii_uppercase c = false.
Proof.
  unfold normalize_host, to_ascii_lowercase. rewrite bytes_str.
  intros (x & <- & _)%list_elem_of_In%in_map_iff. unfold byte_to_lowercase.
  destruct (is_ascii_uppercase x) eqn:E; [|done].
  unfold is_ascii_uppercase, in_range in *. bool_prop.
  assert (code (chr (code x + 32)) = code x + 32) as ->.
  { unfold code, chr in *. rewrite N_ascii_embedding; [lia|]. lia. }
  apply andb_false_iff. right. apply Z.leb_gt. lia.
Qed.

(** Two names with the same suffix and one more label. *)
Lemma wildcard_match host suffix :
  (ends_with host ("." +:+ suffix) = true) ∧
  length (split "."%char host) = (length (split "."%char suffix) + 1)%nat ↔
  ∃ label, ("."%char ∉ bytes label) ∧ host = label +:+ "." +:+ suffix.
Proof.
  rewrite ends_with_true, !split_length. split.
  - intros [[label ->] Hlen]. exists label. split; [|done].
    rewrite !bytes_app in Hlen. change (bytes ".") with ["."%char] in Hlen. simpl in Hlen.
    intros Hin. apply list_elem_of_split in Hin as (a & b & Heq). rewrite Heq in Hlen.
    assert (∀ l k, (length (split_bytes "."%char k) + 1
        ≤ length (split_bytes "."%char (l ++ "."%char :: k)))%nat) as Hge.
    { induction l as [|x l IH]; intros k; simpl; [lia|]. specialize (IH k).
      destruct (eqb x _); simpl; [lia|].
      destruct (split_bytes "."%char (l ++ _)); simpl in *; lia. }
    rewrite <- app_assoc in Hlen. simpl in Hlen.
    pose proof (Hge a (b ++ "."%char :: bytes suffix)).
    pose proof (Hge b (bytes suffix)). lia.
  - intros (label & Hfree & ->). split; [by exists label|].
    rewrite !bytes_app. change (bytes ".") with ["."%char]. simpl.
    rewrite split_bytes_app by done. simpl. lia.
Qed.

Lemma valid_hostname_not_pattern host c :
  c = "/"%char ∨ c = ":"%char ∨ c = "*"%char → valid_hostname host = true → c ∉ bytes host.
Proof.
  intros Hc Hv Hin. destruct (valid_hostname_bytes _ _ Hv Hin) as [->|Hb].
  - by destruct Hc as [?|[?|?]].
  - by destruct Hc as [->|[->| ->]].
Qed.

Lemma strip_star s suffix : strip_prefix s "*." = Some suffix ↔ s = "*." +:+ suffix.
Proof.
  unfold strip_prefix. destruct (starts_with s "*.") eqn:E.
  - apply starts_with_true in E as [k ->]. rewrite bytes_app.
    assert (str (drop (String.length "*.") (bytes "*." ++ bytes k)) = k) as ->
      by (rewrite <- (str_bytes k) at 2; done).
    split; [congruence|]. intros Heq%(f_equal bytes). rewrite !bytes_app in Heq.
    apply app_inv_head in Heq. by apply (inj bytes) in Heq as ->.
  - split; [done|]. intros ->. assert (starts_with ("*." +:+ suffix) "*." = true); [|congruence].
    apply starts_with_true. eauto.
Qed.

Lemma wildcard_label label suffix :
  valid_hostname (label +:+ "." +:+ suffix) = true → "."%char ∉ bytes label →
  valid_label label = true.
Proof.
  intros Hv%valid_hostname_labels Hfree. rewrite !bytes_app in Hv.
  change (bytes ".") with ["."%char] in Hv. simpl in Hv.
  rewrite split_bytes_app in Hv by done. apply Forall_cons in Hv as [Hl _].
  by rewrite str_bytes in Hl.
Qed.

Lemma valid_label_free label : valid_label label = true → "."%char ∉ bytes label.
Proof. intros Hv Hin. by eapply valid_label_bytes in Hin. Qed.

(** ** Public addresses, as networks

    [(base, length)] is a CIDR block of a [width]-bit address space. *)

Definition in_network (width : Z) (address : Z) (network : Z * Z) : bool :=
  let '(base, len) := network in
  address / 2 ^ (width - len) =? base / 2 ^ (width - len).

Definition ipv4_number (a : Ipv4Addr) : Z :=
  o0 a * 2 ^ 24 + o1 a * 2 ^ 16 + o2 a * 2 ^ 8 + o3 a.

(** The first two segments decide every IPv6 rule of the policy. *)
Definition ipv6_prefix (a : Ipv6Addr) : Z := s0 a * 2 ^ 16 + s1 a.

Definition ip4 (a b c d : Z) : Z := ipv4_number (mkIpv4Addr a b c d).

(** The special-purpose IPv4 networks. *)
Definition special_ipv4 : list (Z * Z) := [
  (ip4 0 0 0 0, 8); (ip4 10 0 0 0, 8); (ip4 100 64 0 0, 10); (ip4 127 0 0 0, 8);
  (ip4 169 254 0 0, 16); (ip4 172 16 0 0, 12); (ip4 192 0 0 0, 24); (ip4 192 0 2 0, 24);
  (ip4 192 168 0 0, 16); (ip4 198 18 0 0, 15); (ip4 198 51 100 0, 24);
  (ip4 203 0 113 0, 24); (ip4 224 0 0 0, 4); (ip4 240 0 0 0, 4)].

(** The special-purpose networks inside the global unicast block 2000::/3. *)
Definition special_ipv6 : list (Z * Z) := [
  (0x20010000, 23); (0x20010db8, 32); (0x20020000, 16); (0x3fff0000, 20)].

Local Arguments in_network : simpl never.

(** A block whose base is aligned is an interval. *)
Lemma in_network_interval width address base len :
  0 ≤ len ≤ width → (base mod 2 ^ (width - len) = 0) →
  in_network width address (base, len) = true ↔ base ≤ address < base + 2 ^ (width - len).
Proof.
  intros Hlen Hal. unfold in_network. rewrite Z.eqb_eq.
  set (size := 2 ^ (width - len)) in *. assert (0 < size) by (subst size; lia).
  rewrite (Z.div_mod base size), Hal, Z.add_0_r by lia.
  replace (size * (base / size) / size) with (base / size)
    by (rewrite Z.mul_comm, Z.div_mul; lia).
  set (q := base / size).
  rewrite (Z.div_mod address size) at 2 3 by lia.
  pose proof (Z.mod_pos_bound address size ltac:(lia)). nia.
Qed.

(** Proves a disjunction, nested to the right, by its first disjunct that holds. *)
Ltac pick_disjunct := repeat first [solve [left; lia] | right]; lia.

(** The octet tests of the networks of [special_ipv4]. *)
Lemma in_special_ipv4 a b c d :
  Ipv4Addr_wf (mkIpv4Addr a b c d) →
  existsb (in_network 32 (ip4 a b c d)) special_ipv4 = true ↔
  a = 0 ∨ a = 10 ∨ (a = 100 ∧ 64 ≤ b ≤ 127) ∨ a = 127 ∨ (a = 169 ∧ b = 254) ∨
  (a = 172 ∧ 16 ≤ b ≤ 31) ∨ (a = 192 ∧ b = 0 ∧ c = 0) ∨ (a = 192 ∧ b = 0 ∧ c = 2) ∨
  (a = 192 ∧ b = 168) ∨ (a = 198 ∧ 18 ≤ b ≤ 19) ∨ (a = 198 ∧ b = 51 ∧ c = 100) ∨
  (a = 203 ∧ b = 0 ∧ c = 113) ∨ 224 ≤ a ≤ 239 ∨ 240 ≤ a.
Proof.
  intros Hwf. unfold Ipv4Addr_wf, octets in Hwf. rewrite !Forall_cons in Hwf. simpl in Hwf.
  destruct Hwf as (H0 & H1 & H2 & H3 & _).
  unfold special_ipv4. cbn [existsb]. rewrite !orb_true_iff.
  rewrite !in_network_interval by (done || (cbv; lia)). unfold ip4, ipv4_number. simpl o0.
  simpl o1. simpl o2. simpl o3.
  repeat (apply Morphisms_Prop.or_iff_morphism; [lia|]).
  split; [intros [?|?]; [lia|done]|lia].
Qed.

Lemma is_global_ipv4_networks a :
  Ipv4Addr_wf a →
  is_global_ipv4 a = negb (existsb (in_network 32 (ipv4_number a)) special_ipv4).
Proof.
  destruct a as [a b c d]. intros Hwf. unfold is_global_ipv4. f_equal. apply eq_true_iff_eq.
  change (ipv4_number _) with (ip4 a b c d). rewrite in_special_ipv4 by done.
  unfold ipv4_is_unspecified, ipv4_is_loopback, ipv4_is_private, ipv4_is_link_local,
    ipv4_is_multicast, ipv4_is_broadcast, octets. cbn [o0 o1 o2 o3].
  rewrite !orb_true_iff, !andb_true_iff, !Z.eqb_eq, !Z.leb_le, Z.geb_le.
  assert (∀ P Q R : Prop, (P ∨ Q) ∨ R ↔ P ∨ Q ∨ R) as Hassoc by tauto. rewrite !Hassoc.
  assert (∀ a' b' c' d', eqb [a; b; c; d] [a'; b'; c'; d'] = true →
    a = a' ∧ b = b' ∧ c = c' ∧ d = d') as Hlist.
  { intros ???? H. bool_prop. naive_solver. }
  split; intros H; repeat match type of H with _ ∨ _ => destruct H as [H|H] end;
    try apply Hlist in H; try (solve [pick_disjunct]).
  assert (b = 18 ∨ b = 19) as [Hb|Hb] by lia; pick_disjunct.
Qed.

Lemma is_global_ipv6_networks a :
  Ipv6Addr_wf a → to_ipv4 a = None →
  is_global_ipv6 a =
    in_network 32 (ipv6_prefix a) (0x20000000, 3)
    && negb (existsb (in_network 32 (ipv6_prefix a)) special_ipv6).
Proof.
  intros Hwf Hnone. unfold Ipv6Addr_wf, segments in Hwf. rewrite !Forall_cons in Hwf.
  destruct Hwf as (H0 & H1 & _). unfold is_global_ipv6. rewrite Hnone.
  change 0xfe00 with (2 ^ 16 - 2 ^ 9). change 0xf000 with (2 ^ 16 - 2 ^ 12).
  change 0xe000 with (2 ^ 16 - 2 ^ 13). rewrite !land_high_mask by lia.
  f_equal; [|f_equal]; apply eq_true_iff_eq; unfold special_ipv6; cbn [existsb];
    rewrite ?orb_true_iff, !in_network_interval by (done || (cbv; lia)); unfold ipv6_prefix;
    rewrite ?orb_true_iff, ?andb_true_iff, ?orb_true_iff, !Z.eqb_eq;
    change (2 ^ (32 - 3)) with 536870912; change (2 ^ (32 - 23)) with 512;
    change (2 ^ (32 - 32)) with 1; change (2 ^ (32 - 16)) with 65536;
    change (2 ^ (32 - 20)) with 4096; Z.to_euclidean_division_equations; lia.
Qed.

(** ** Policies a caller can build *)

Inductive policy_built : ProxyPolicy → Prop :=
| built_production manifest : policy_built (ProxyPolicy_production manifest)
| built_developer manifest : policy_built (ProxyPolicy_developer manifest)
| built_mapping policy host address policy' :
    policy_built policy → with_fixture_mapping policy host address = Ok policy' →
    policy_built policy'.

(** Fixture mappings exist in developer mode only, for fixture addresses. *)
Lemma policy_built_mappings policy host address :
  policy_built policy → policy_fixture_mappings policy !! host = Some address →
  policy_developer_mode policy = true ∧ valid_hostname host = true ∧
  is_fixture_address address = true.
Proof.
  intros Hb. revert host address.
  induction Hb as [manifest|manifest|policy h a policy' _ IH H]; intros host address Hl;
    [done..|].
  unfold with_fixture_mapping in H. simplify_result. bool_prop.
  apply lookup_insert_Some in Hl as [[<- <-]|[_ Hl]]; [done|by apply IH in Hl].
Qed.

Lemma is_fixture_split address :
  is_fixture_address address = true ↔
  is_global_address address = true ∨ ip_is_loopback address = true.
Proof. unfold is_fixture_address. apply orb_true_iff. Qed.

Section policy_lemmas.
Context {U : UrlLib} {R : Type} {D : DnsResolver R}.

Lemma parse_request_url_Ok raw developer_mode parsed :
  parse_request_url raw developer_mode = Ok parsed →
  Url_parse raw = Some (parsed_url parsed) ∧
  (Url_scheme (parsed_url parsed) = "https" ∨
   developer_mode = true ∧ Url_scheme (parsed_url parsed) = "http") ∧
  Url_username (parsed_url parsed) = "" ∧ Url_password (parsed_url parsed) = None ∧
  Url_fragment (parsed_url parsed) = None ∧
  (∃ domain, Url_host (parsed_url parsed) = Some (HostDomain domain) ∧
             parsed_host parsed = normalize_host domain) ∧
  valid_hostname (parsed_host parsed) = true ∧
  Url_port_or_known_default (parsed_url parsed) = Some (parsed_port parsed) ∧
  parsed_port parsed ≠ 0.
Proof.
  unfold parse_request_url. intros H. simplify_result.
  destruct x0; simplify_result. bool_prop. simpl.
  assert (∀ T (o : option T), is_some o = false → o = None) as Hnone by (by intros ? []).
  split_and!; eauto; [|by apply str_is_empty_true].
  destruct developer_mode; simpl in *; bool_prop; [|by left].
  match goal with H : _ || _ = true |- _ => apply orb_prop in H as [?|?] end;
    bool_prop; [by right|by left].
Qed.

(** The addresses of a target: strictly sorted, never empty, each one allowed,
    and exactly the answer of the resolver unless the host is a fixture. *)
Lemma resolve_and_validate_Ok policy host resolver addresses :
  (resolve_and_validate policy host resolver).1 = Ok addresses →
  addresses ≠ [] ∧ StronglySorted (cmp_lt IpAddr_cmp) addresses ∧
  match policy_fixture_mappings policy !! host with
  | Some address => addresses = [address] ∧ is_fixture_address address = true
  | None => Forall (λ a, is_global_address a = true) addresses ∧
      ∃ answer, (resolve resolver host).1 = Ok answer ∧ ∀ a, a ∈ addresses ↔ a ∈ answer
  end.
Proof.
  unfold resolve_and_validate.
  assert (∀ (l : list IpAddr) allowed,
    (length l =? 0)%nat || existsb (λ a, negb (allowed a)) l = false →
    dedup (sort_by IpAddr_cmp l) ≠ [] ∧
    StronglySorted (cmp_lt IpAddr_cmp) (dedup (sort_by IpAddr_cmp l)) ∧
    Forall (λ a, allowed a = true) (dedup (sort_by IpAddr_cmp l))) as Hlist.
  { intros l allowed [Hne Hall]%orb_false_elim. split_and!.
    - destruct l as [|a l]; [done|]. intros Hnil.
      assert (a ∈ dedup (sort_by IpAddr_cmp (a :: l))) as Hin
        by (apply elem_of_sort_dedup; [apply _..|by left]).
      rewrite Hnil in Hin. by apply not_elem_of_nil in Hin.
    - apply sort_dedup_strict; apply _.
    - apply Forall_forall. intros a Ha%elem_of_sort_dedup; [|apply _..].
      destruct (allowed a) eqn:E; [done|]. exfalso.
      assert (existsb (λ a, negb (allowed a)) l = true); [|congruence].
      apply existsb_exists. exists a. split; [by apply list_elem_of_In|by rewrite E]. }
  destruct (policy_fixture_mappings policy !! host) as [address|]; simpl; intros H.
  - case_match eqn:E; simplify_eq. rewrite orb_false_r in E. bool_prop.
    split_and!; [done| |done..]. repeat constructor.
  - destruct (resolve resolver host) as [answer resolver'] eqn:Er. simpl in *.
    simplify_result. destruct (Hlist _ _ Hguard) as (? & ? & ?). split_and!; [done..|].
    exists x. split; [done|]. intros a. apply elem_of_sort_dedup; apply _.
Qed.

(** What an authorized target guarantees. *)
Record target_ok (policy : ProxyPolicy) (target : PinnedTarget) : Prop := {
  target_scheme :
    Url_scheme (PinnedTarget_url target) = "https" ∨
    policy_developer_mode policy = true ∧ Url_scheme (PinnedTarget_url target) = "http" ∧
    is_Some (policy_fixture_mappings policy !! PinnedTarget_host target);
  target_no_userinfo :
    Url_username (PinnedTarget_url target) = "" ∧ Url_password (PinnedTarget_url target) = None;
  target_host : ∃ domain, Url_host (PinnedTarget_url target) = Some (HostDomain domain) ∧
    PinnedTarget_host target = normalize_host domain;
  target_host_valid : valid_hostname (PinnedTarget_host target) = true;
  target_host_allowed :
    AllowedHosts_allows (policy_allowed_hosts policy) (PinnedTarget_host target) = true;
  target_port : Url_port_or_known_default (PinnedTarget_url target) =
    Some (PinnedTarget_port target) ∧ PinnedTarget_port target ≠ 0;
  target_addresses : PinnedTarget_addresses target ≠ [] ∧
    StronglySorted (cmp_lt IpAddr_cmp) (PinnedTarget_addresses target);
  target_public : ∀ a, a ∈ PinnedTarget_addresses target →
    is_global_address a = true ∨
    policy_developer_mode policy = true ∧ ip_is_loopback a = true ∧
    policy_fixture_mappings policy !! PinnedTarget_host target = Some a;
  target_no_fragment : Url_fragment (PinnedTarget_url target) = None;
}.

Lemma authorize_url_Ok policy raw resolver target :
  policy_built policy → (authorize_url policy raw resolver).1 = Ok target →
  Url_parse raw = Some (PinnedTarget_url target) ∧ target_ok policy target ∧
  (policy_fixture_mappings policy !! PinnedTarget_host target = None →
   ∃ answer, (resolve resolver (PinnedTarget_host target)).1 = Ok answer ∧
             ∀ a, a ∈ PinnedTarget_addresses target ↔ a ∈ answer).
Proof.
  intros Hb. unfold authorize_url.
  destruct (parse_request_url _ _) as [parsed|] eqn:Hp; [|done].
  destruct (eqb _ _ && _) eqn:Hhttp; [done|].
  destruct (negb (AllowedHosts_allows _ _)) eqn:Hal; [done|].
  destruct (resolve_and_validate _ _ _) as [answer resolver'] eqn:Hr. simpl. intros H.
  simplify_result.
  pose proof (resolve_and_validate_Ok policy (parsed_host parsed) resolver x) as Hx.
  rewrite Hr in Hx. destruct (Hx eq_refl) as (Hne & Hsorted & Haddr).
  destruct (parse_request_url_Ok _ _ _ Hp)
    as (Hurl & Hscheme & Huser & Hpass & Hfragment & Hhost & Hvalid & Hport & Hport0).
  bool_prop. split_and!; [done| |].
  - split; simpl; [|done..| |done].
    + destruct Hscheme as [?|[Hdev Hs]]; [by left|right]. split_and!; [done..|].
      rewrite Hs, eqb_refl in Hhttp. simpl in Hhttp.
      by destruct (policy_fixture_mappings policy !! _).
    + intros a Ha. destruct (policy_fixture_mappings policy !! _) as [address|] eqn:Hmap.
      * destruct Haddr as [-> Hfix]. apply list_elem_of_singleton in Ha as ->.
        apply is_fixture_split in Hfix as [?|?]; [by left|right].
        destruct (policy_built_mappings _ _ _ Hb Hmap) as (? & _ & _). done.
      * destruct Haddr as [Hall _]. rewrite Forall_forall in Hall. left. by apply Hall.
  - simpl. intros Hmap. rewrite Hmap in Haddr. by destruct Haddr.
Qed.

(** Sorted address lists with the same elements are the same list. *)
Lemma address_set_sorted l :
  StronglySorted (cmp_lt IpAddr_cmp) l → address_set l = l.
Proof.
  intros Hl. unfold address_set. eapply (cmp_lt_sorted_unique IpAddr_cmp); [|done|].
  - apply sort_dedup_strict; apply _.
  - intros x. apply elem_of_sort_dedup; apply _.
Qed.

Lemma authorize_redirect_Ok policy pinned raw resolver target :
  policy_built policy → target_ok policy pinned →
  (authorize_redirect policy pinned raw resolver).1 = Ok target →
  target_ok policy target ∧ PinnedTarget_host target = PinnedTarget_host pinned ∧
  PinnedTarget_addresses target = PinnedTarget_addresses pinned.
Proof.
  intros Hb Hpin. unfold authorize_redirect.
  pose proof (authorize_url_Ok policy raw resolver) as Hauth.
  destruct (authorize_url _ _ _) as [answer resolver']. simpl in *. intros H.
  simplify_result. destruct (Hauth target Hb eq_refl) as (_ & Hok & _). bool_prop.
  split_and!; [done..|].
  pose proof (target_addresses _ _ Hok) as [_ ?].
  pose proof (target_addresses _ _ Hpin) as [_ ?].
  match goal with H : address_set _ = _ |- _ => by rewrite !address_set_sorted in H end.
Qed.
End policy_lemmas.

(** ** Properties *)

(** A manifest pattern allows a valid host name exactly when it is that name,
    or a wildcard over a valid suffix and the host adds one label to it. *)
Theorem host_pattern_spec pattern host :
  valid_hostname host = true →
  HostPattern_matches (HostPattern_parse pattern) host = true ↔
  normalize_host pattern = host ∨
  ∃ label suffix, normalize_host pattern = "*." +:+ suffix ∧
    (valid_hostname suffix = true ∧ valid_label label = true) ∧
    host = label +:+ "." +:+ suffix.
Proof.
  intros Hv. unfold HostPattern_parse, HostPattern_matches.
  rewrite (normalize_host_valid host Hv). set (p := normalize_host pattern).
  assert (∀ c, c = "/"%char ∨ c = ":"%char → c ∈ bytes p →
    ¬ (p = host ∨ ∃ label suffix, p = "*." +:+ suffix ∧
       (valid_hostname suffix = true ∧ valid_label label = true) ∧
       host = label +:+ "." +:+ suffix)) as Hbad.
  { intros c Hc Hin [->|(label & suffix & Heq & [Hs _] & _)].
    - eapply valid_hostname_not_pattern; [|done..]. naive_solver.
    - rewrite Heq, bytes_app, elem_of_app in Hin. destruct Hin as [Hin|Hin].
      + destruct Hc as [->| ->]; set_solver.
      + eapply valid_hostname_not_pattern; [|done..]. naive_solver. }
  destruct (str_is_empty p) eqn:He; simpl.
  { apply str_is_empty_true in He. rewrite He. split; [done|].
    intros [<-|(label & suffix & Heq & _)]; [by rewrite (eq_refl : valid_hostname "" = false) in Hv|done]. }
  destruct (str_contains p "/"%char) eqn:Hslash; simpl.
  { apply list_contains_elem in Hslash. split; [done|]. intros H.
    exfalso. exact (Hbad _ (or_introl eq_refl) Hslash H). }
  destruct (str_contains p ":"%char) eqn:Hcolon; simpl.
  { apply list_contains_elem in Hcolon. split; [done|]. intros H.
    exfalso. exact (Hbad _ (or_intror eq_refl) Hcolon H). }
  destruct (strip_prefix p "*.") as [suffix|] eqn:Hstrip.
  - apply strip_star in Hstrip.
    assert (p ≠ host) as Hne.
    { intros <-. assert ("*"%char ∈ bytes p) as Hin by (rewrite Hstrip, bytes_app; set_solver).
      eapply valid_hostname_not_pattern; [|done..]. naive_solver. }
    destruct (valid_hostname suffix) eqn:Hs; simpl.
    + rewrite andb_true_iff, Nat.eqb_eq, wildcard_match. split.
      * intros (label & Hfree & ->). right. exists label, suffix.
        split_and!; [done..|by eapply wildcard_label|done].
      * intros [?|(label & suffix' & Heq & [_ Hl] & ->)]; [done|].
        rewrite Hstrip in Heq. apply (inj (String.append _)) in Heq as <-. exists label.
        split; [by apply valid_label_free|done].
    + split; [done|]. intros [?|(label & suffix' & Heq & [Hs' _] & _)]; [done|].
      rewrite Hstrip in Heq. apply (inj (String.append _)) in Heq as <-. congruence.
  - destruct (valid_hostname p) eqn:Hp; simpl.
    + rewrite eqb_eq. split; [by left|]. intros [?|(label & suffix & Heq & _)]; [done|].
      apply strip_star in Heq. congruence.
    + split; [done|]. intros [->|(label & suffix & Heq & _)]; [congruence|].
      apply strip_star in Heq. congruence.
Qed.

(** C37. The address classification is exactly membership in networks: an IPv4
    address is public when it is in no special-purpose network; an IPv6 address
    is judged by its embedded IPv4 address when it has one, and otherwise is
    public when it is in 2000::/3 outside the special-purpose networks. *)
Theorem is_global_address_spec address :
  IpAddr_wf address →
  is_global_address address =
    match address with
    | V4 a => negb (existsb (in_network 32 (ipv4_number a)) special_ipv4)
    | V6 a =>
        match to_ipv4 a with
        | Some a4 => negb (existsb (in_network 32 (ipv4_number a4)) special_ipv4)
        | None => in_network 32 (ipv6_prefix a) (0x20000000, 3)
                  && negb (existsb (in_network 32 (ipv6_prefix a)) special_ipv6)
        end
    end.
Proof.
  destruct address as [a|a]; simpl; intros Hwf; [by apply is_global_ipv4_networks|].
  destruct (to_ipv4 a) as [a4|] eqn:E; [|by apply is_global_ipv6_networks].
  unfold is_global_ipv6. rewrite E. apply is_global_ipv4_networks. by eapply to_ipv4_wf.
Qed.

Section policy_properties.
Context {U : UrlLib} {R : Type} {D : DnsResolver R}.

(** C35. With a production policy an authorized request goes over https, without
    user information and fragment, to the URL's own port and host, which is a
    valid domain name some manifest pattern matches, and is pinned to the
    non-empty, duplicate-free list of exactly the addresses the resolver gave for
    that host, all of them public. *)
Theorem authorize_url_production manifest raw resolver target :
  (authorize_url (ProxyPolicy_production manifest) raw resolver).1 = Ok target →
  Url_parse raw = Some (PinnedTarget_url target) ∧
  Url_scheme (PinnedTarget_url target) = "https" ∧
  (Url_username (PinnedTarget_url target) = "" ∧ Url_password (PinnedTarget_url target) = None) ∧
  Url_fragment (PinnedTarget_url target) = None ∧
  (∃ domain, Url_host (PinnedTarget_url target) = Some (HostDomain domain) ∧
     PinnedTarget_host target = normalize_host domain) ∧
  (Url_port_or_known_default (PinnedTarget_url target) = Some (PinnedTarget_port target) ∧
   PinnedTarget_port target ≠ 0) ∧
  valid_hostname (PinnedTarget_host target) = true ∧
  (∃ pattern, pattern ∈ NetworkPolicy_allowed_hosts (PluginManifest_network manifest) ∧
     HostPattern_matches (HostPattern_parse pattern) (PinnedTarget_host target) = true) ∧
  PinnedTarget_addresses target ≠ [] ∧ NoDup (PinnedTarget_addresses target) ∧
  (∀ a, a ∈ PinnedTarget_addresses target → is_global_address a = true) ∧
  ∃ answer, (resolve resolver (PinnedTarget_host target)).1 = Ok answer ∧
            ∀ a, a ∈ PinnedTarget_addresses target ↔ a ∈ answer.
Proof.
  intros (Hurl & Hok & Hans)%authorize_url_Ok; [|constructor].
  destruct Hok as [Hs Hu Hh Hv Hal Hport [Hne Hsort] Hpub Hf]. simpl in *. split_and!; try done.
  - destruct Hs as [?|[? _]]; done.
  - apply Hu.
  - apply Hu.
  - apply Hport.
  - apply Hport.
  - apply existsb_exists in Hal as (p & Hp & Hm). simpl in Hp.
    apply list_elem_of_In, list_elem_of_fmap in Hp as (pattern & -> & Hin). eauto.
  - eapply cmp_lt_sorted_NoDup; [|done]. apply _.
  - intros a Ha. by destruct (Hpub a Ha) as [?|[? _]].
  - by apply Hans, lookup_empty.
Qed.

(** Whatever fixture mappings a developer policy was built with, only a host it
    maps explicitly can be reached over plain http or at a loopback address;
    every other authorized address is public. *)
Theorem authorize_url_built policy raw resolver target :
  policy_built policy → (authorize_url policy raw resolver).1 = Ok target →
  target_ok policy target.
Proof. intros Hb H. by apply authorize_url_Ok in H as (_ & ? & _). Qed.

(** A redirect accepted after an authorized request stays on the same host and
    on the very same pinned addresses, whatever DNS answers by then. *)
Theorem authorize_redirect_pinned policy raw resolver pinned raw' resolver' target :
  policy_built policy → (authorize_url policy raw resolver).1 = Ok pinned →
  (authorize_redirect policy pinned raw' resolver').1 = Ok target →
  target_ok policy target ∧ PinnedTarget_host target = PinnedTarget_host pinned ∧
  PinnedTarget_addresses target = PinnedTarget_addresses pinned.
Proof.
  intros Hb (_ & Hpin & _)%authorize_url_Ok Hr; [|done].
  by apply authorize_redirect_Ok in Hr.
Qed.
End policy_properties.
