(* ===== verification/HttpProxy.v ===== *)
(** * The HTTP proxy (crates/audiodown-network-proxy/src/http.rs and error.rs)

    One proxied exchange: validate the request, authorize and pin the target,
    send it, follow at most five redirects, and filter what comes back.  The
    runtime (semaphores, deadline, blocking tasks), the resolver and the
    transport are the world of the execution, whose answers may depend on its
    state.  The hook of the code is the class [HttpHopHook].  The state also
    records every request handed to the transport. *)

From S2P Require Import Prelude Text Std Domain Foreign CredentialContract Policy.

Definition MAX_REDIRECTS : Z := 5.
Definition MAX_REQUEST_HEADERS : Z := 32.
Definition MAX_REQUEST_HEADER_BYTES : Z := 16 * 1024.
Definition MAX_REQUEST_BODY_BYTES : Z := 1024 * 1024.
Definition MAX_RESPONSE_HEADERS : Z := 64.
Definition MAX_RESPONSE_HEADER_BYTES : Z := 32 * 1024.
Definition MAX_RAW_RESPONSE_BODY_BYTES : Z := 16 * 1024 * 1024.
Definition MAX_RESPONSE_BODY_BYTES : Z := 16 * 1024 * 1024.

Inductive HttpProxyError :=
| Policy (error : ProxyPolicyError)
| MethodNotAllowed | RequestHeadersTooLarge | RequestBodyTooLarge | TooManyRedirects
| InvalidRedirect | ResponseHeadersTooLarge | ResponseBodyTooLarge | Timeout
| ConcurrencyLimited | InvalidResponseEncoding | Transport | RequestRejected.
Global Instance HttpProxyError_eq_dec : EqDecision HttpProxyError.
Proof. solve_decision. Defined.

(** [http::Method] and [http::StatusCode] by their names and numbers. *)
Definition Method : Type := string.
Definition StatusCode : Type := Z.

Definition validate_method (method : Method) : result HttpProxyError unit :=
  if list_contains ["GET"; "HEAD"; "POST"; "PUT"; "PATCH"; "DELETE"] method
  then Ok tt else Err MethodNotAllowed.

Definition forbidden_request_header (name : string) : bool :=
  list_contains
    ["host"; "cookie"; "set-cookie"; "authorization"; "forwarded"; "x-real-ip"; "connection";
     "keep-alive"; "transfer-encoding"; "content-length"; "expect"; "te"; "trailer";
     "upgrade"; "via"] name
  || starts_with name "proxy-" || starts_with name "x-forwarded-".

Definition allowed_response_header (name : string) : bool :=
  list_contains
    ["accept-ranges"; "cache-control"; "content-language"; "content-range"; "content-type";
     "etag"; "expires"; "last-modified"; "retry-after"; "vary"] name.

Definition is_redirect (status : StatusCode) : bool :=
  list_contains [301; 302; 303; 307; 308] status.

Section headers.
Context {H : HeaderLib} {G : Gzip}.

Record ProxyRequest := mkProxyRequest {
  ProxyRequest_method : Method;
  ProxyRequest_url : string;
  ProxyRequest_headers : HeaderMap;
  ProxyRequest_body : list byte;
}.

Record ProxyResponse := mkProxyResponse {
  ProxyResponse_status : StatusCode;
  ProxyResponse_headers : HeaderMap;
  ProxyResponse_body : list byte;
}.

Record TransportRequest := mkTransportRequest {
  TransportRequest_method : Method;
  TransportRequest_url : string;
  TransportRequest_headers : HeaderMap;
  TransportRequest_body : list byte;
}.

Record TransportResponse := mkTransportResponse {
  TransportResponse_status : StatusCode;
  TransportResponse_headers : HeaderMap;
  TransportResponse_body : list byte;
}.

(** [try_fold] with [checked_add]. *)
Fixpoint header_bytes_loop (total : Z) (entries : list (string * HeaderValue)) : option Z :=
  match entries with
  | [] => Some total
  | (name, value) :: entries =>
      total ← checked_add total (str_len name);
      total ← checked_add total (zlen (HeaderValue_as_bytes value));
      header_bytes_loop total entries
  end.
Definition header_bytes (headers : HeaderMap) : option Z :=
  header_bytes_loop 0 (HeaderMap_iter headers).

Definition validate_request_headers (headers : HeaderMap) : result HttpProxyError unit :=
  if (HeaderMap_len headers >? MAX_REQUEST_HEADERS)
     || is_none_or (λ bytes, bytes >? MAX_REQUEST_HEADER_BYTES) (header_bytes headers)
     || existsb forbidden_request_header (HeaderMap_keys headers)
  then Err RequestHeadersTooLarge else Ok tt.

Definition validate_core_request_headers (headers : HeaderMap) : result HttpProxyError unit :=
  if (HeaderMap_len headers >? MAX_REQUEST_HEADERS)
     || is_none_or (λ bytes, bytes >? MAX_REQUEST_HEADER_BYTES) (header_bytes headers)
     || (HeaderMap_contains_key headers "cookie"
         && HeaderMap_contains_key headers "authorization")
     || existsb (λ name, negb (list_contains ["cookie"; "authorization"] name)
                         && forbidden_request_header name) (HeaderMap_keys headers)
  then Err RequestHeadersTooLarge else Ok tt.

Definition validate_response_headers (headers : HeaderMap) : result HttpProxyError unit :=
  if (HeaderMap_len headers >? MAX_RESPONSE_HEADERS)
     || is_none_or (λ bytes, bytes >? MAX_RESPONSE_HEADER_BYTES) (header_bytes headers)
  then Err ResponseHeadersTooLarge else Ok tt.

Definition validate_response_framing (headers : HeaderMap) : result HttpProxyError unit :=
  let lengths := HeaderMap_get_all headers "content-length" in
  if (zlen lengths >? 1)
     || (negb (length lengths =? 0)%nat && HeaderMap_contains_key headers "transfer-encoding")
  then Err Transport
  else
    match lengths with
    | [] => Ok tt
    | value :: _ =>
        value ← ok_or (HeaderValue_to_str value) Transport;
        if str_is_empty value || negb (str_all is_ascii_digit value) then Err Transport
        else
          len ← ok_or (parse_u64 value) Transport;
          if len >? MAX_RAW_RESPONSE_BODY_BYTES then Err ResponseBodyTooLarge else Ok tt
    end.

Definition one_location (headers : HeaderMap) : result HttpProxyError string :=
  match HeaderMap_get_all headers "location" with
  | [value] => ok_or (HeaderValue_to_str value) InvalidRedirect
  | _ => Err InvalidRedirect
  end.

Definition decode_body (headers : HeaderMap) (body : list byte) :
    result HttpProxyError (list byte) :=
  match HeaderMap_get_all headers "content-encoding" with
  | _ :: _ :: _ => Err InvalidResponseEncoding
  | [] => Ok body
  | [encoding] =>
      encoding ← ok_or (HeaderValue_to_str encoding) InvalidResponseEncoding;
      if eq_ignore_ascii_case encoding "identity" then Ok body
      else if negb (eq_ignore_ascii_case encoding "gzip") || str_contains encoding ","%char
      then Err InvalidResponseEncoding
      else
        decoded ← ok_or (gz_read body (MAX_RESPONSE_BODY_BYTES + 1)) InvalidResponseEncoding;
        if zlen decoded >? MAX_RESPONSE_BODY_BYTES then Err ResponseBodyTooLarge
        else Ok decoded
  end.

Definition filter_response_headers (headers : HeaderMap) : HeaderMap :=
  fold_left (λ filtered '(name, value),
      if allowed_response_header name then HeaderMap_append filtered name value else filtered)
    (HeaderMap_iter headers) HeaderMap_new.
End headers.

(** ** The world of an execution *)

Section world.
Context {U : UrlLib} {H : HeaderLib} {G : Gzip}.

Inductive TransportError := mkTransportError.
Inductive HttpHookError := mkHttpHookError.

Class World (W : Type) := {
  (** [requests.try_acquire_owned] gives a permit *)
  requests_try_acquire : W → bool * W;
  (** [timeout_at]: the deadline passes before the awaited future is ready *)
  deadline_elapsed : W → bool * W;
  (** [acquire_owned] fails: the semaphore is closed *)
  semaphore_closed : W → bool * W;
  (** [resolver.lock] fails: a thread panicked with it *)
  lock_poisoned : W → bool * W;
  (** awaiting a blocking task fails *)
  join_failed : W → bool * W;
  #[global] world_resolver :: DnsResolver W;
  transport_execute : PinnedTarget → TransportRequest → W →
    result TransportError TransportResponse * W;
}.

(** The hook called at every hop.  [prepare] may change the request; [observe]
    may change the hop's state. *)
Class HttpHopHook (W : Type) := {
  HopState : Type;
  prepare : PinnedTarget → TransportRequest → W →
    result HttpHookError (HopState * TransportRequest) * W;
  observe : PinnedTarget → HopState → TransportResponse → W →
    result HttpHookError HopState * W;
  validate_visible : PinnedTarget → HopState → ProxyResponse → W →
    result HttpHookError unit * W;
}.

Definition NoopHttpHopHook {W} : HttpHopHook W := {|
  HopState := unit;
  prepare := λ _ request w, (Ok (tt, request), w);
  observe := λ _ state _ w, (Ok state, w);
  validate_visible := λ _ _ _ w, (Ok tt, w);
|}.

(** The state of an exchange: the world and the requests sent so far. *)
Record Exchange (W : Type) := mkExchange {
  exchange_world : W;
  exchange_sent : list (PinnedTarget * TransportRequest);
}.
Global Arguments mkExchange {_} _ _.
Global Arguments exchange_world {_} _.
Global Arguments exchange_sent {_} _.
End world.

(** ** The exchange monad *)

Section monad.
Context {U : UrlLib} {H : HeaderLib} {W : Type}.

Definition M (A : Type) : Type := Exchange W → result HttpProxyError A * Exchange W.

Global Instance M_ret : MRet M := λ A a s, (Ok a, s).
Global Instance M_bind : MBind M := λ A B f m s,
  match m s with
  | (Ok a, s) => f a s
  | (Err e, s) => (Err e, s)
  end.

Definition fail {A} (e : HttpProxyError) : M A := λ s, (Err e, s).
Definition lift {A} (r : result HttpProxyError A) : M A := λ s, (r, s).
(** Ask the world. *)
Definition ask {A} (f : W → A * W) : M A := λ s,
  let '(a, w) := f (exchange_world s) in (Ok a, mkExchange w (exchange_sent s)).
End monad.
Arguments M {_ _} W A.

Section http.
Context {U : UrlLib} {H : HeaderLib} {G : Gzip} {W : Type} {E : World W}.

(** [timeout_at(deadline, f).await.map_err(|_| Timeout)?] *)
Definition timeout_at {A} (f : W → A * W) : M W A :=
  a ← ask f;
  elapsed ← ask deadline_elapsed;
  if (elapsed : bool) then fail Timeout else mret a.

(** A blocking task under a permit: acquire the permit, run, join. *)
Definition blocking {A} (task : W → result HttpProxyError A * W) : M W A :=
  closed ← timeout_at semaphore_closed;
  if (closed : bool) then fail Transport
  else
    joined ← timeout_at (λ w,
      let '(answer, w) := task w in
      let '(failed, w) := join_failed w in
      ((failed, answer), w));
    if (joined.1 : bool) then fail Transport else lift joined.2.

(** The resolver is locked inside the task. *)
Definition with_resolver {A} (f : W → result ProxyPolicyError A * W) :
    W → result HttpProxyError A * W := λ w,
  let '(poisoned, w) := lock_poisoned w in
  if (poisoned : bool) then (Err Transport, w)
  else let '(answer, w) := f w in (map_err Policy answer, w).

Definition proxy_authorize_url (policy : ProxyPolicy) (raw_url : string) : M W PinnedTarget :=
  blocking (with_resolver (authorize_url policy raw_url)).

Definition proxy_authorize_redirect (policy : ProxyPolicy) (initial_target : PinnedTarget)
    (raw_url : string) : M W PinnedTarget :=
  blocking (with_resolver (authorize_redirect policy initial_target raw_url)).

Definition proxy_decode_body (headers : HeaderMap) (body : list byte) : M W (list byte) :=
  blocking (λ w, (decode_body headers body, w)).

(** [self.transport.execute(&target, request)], recorded. *)
Definition send (target : PinnedTarget) (request : TransportRequest) :
    M W (result TransportError TransportResponse) := λ s,
  timeout_at (transport_execute target request)
    (mkExchange (exchange_world s) (exchange_sent s ++ [(target, request)])).

Context {K : HttpHopHook W}.

Inductive HopOutcome :=
| Finished (response : ProxyResponse)
| Redirected (target : PinnedTarget).

Definition is_status_one_of (status : StatusCode) (l : list Z) : bool := list_contains l status.

(** One turn of the loop of [execute_with_hook]. *)
Definition hop (policy : ProxyPolicy) (request : ProxyRequest) (initial_target : PinnedTarget)
    (target : PinnedTarget) (redirects : Z) : M W HopOutcome :=
  let transport_request := {|
    TransportRequest_method := ProxyRequest_method request;
    TransportRequest_url := Url_as_str (PinnedTarget_url target);
    TransportRequest_headers := ProxyRequest_headers request;
    TransportRequest_body := ProxyRequest_body request
  |} in
  prepared ← timeout_at (prepare target transport_request);
  '(hook_state, transport_request) ← lift (map_err (λ _, RequestRejected) prepared);
  _ ← lift (validate_core_request_headers (TransportRequest_headers transport_request));
  if zlen (TransportRequest_body transport_request) >? MAX_REQUEST_BODY_BYTES
  then fail RequestBodyTooLarge
  else
    answer ← send target transport_request;
    response ← lift (map_err (λ _, Transport) answer);
    _ ← lift (validate_response_headers (TransportResponse_headers response));
    _ ← lift (validate_response_framing (TransportResponse_headers response));
    if zlen (TransportResponse_body response) >? MAX_RAW_RESPONSE_BODY_BYTES
    then fail ResponseBodyTooLarge
    else
      observed ← timeout_at (observe target hook_state response);
      hook_state ← lift (map_err (λ _, RequestRejected) observed);
      if is_redirect (TransportResponse_status response) then
        if redirects >=? MAX_REDIRECTS then fail TooManyRedirects
        else if is_status_one_of (TransportResponse_status response) [301; 302; 303]
                && negb (list_contains ["GET"; "HEAD"] (ProxyRequest_method request))
        then fail InvalidRedirect
        else
          location ← lift (one_location (TransportResponse_headers response));
          redirected ← lift (ok_or (Url_join (PinnedTarget_url target) location) InvalidRedirect);
          if negb (eqb (Url_scheme redirected) "http" || eqb (Url_scheme redirected) "https")
          then fail InvalidRedirect
          else
            target ← proxy_authorize_redirect policy initial_target (Url_as_str redirected);
            mret (Redirected target)
      else
        let filtered_headers := filter_response_headers (TransportResponse_headers response) in
        body ← proxy_decode_body (TransportResponse_headers response)
                 (TransportResponse_body response);
        let response := {|
          ProxyResponse_status := TransportResponse_status response;
          ProxyResponse_headers := filtered_headers;
          ProxyResponse_body := body
        |} in
        visible ← ask (validate_visible target hook_state response);
        _ ← lift (map_err (λ _, RequestRejected) visible);
        mret (Finished response).

(** The loop, with fuel; [None] when the fuel runs out. *)
Fixpoint http_loop (fuel : nat) (policy : ProxyPolicy) (request : ProxyRequest)
    (initial_target target : PinnedTarget) (redirects : Z) (s : Exchange W) :
    option (result HttpProxyError ProxyResponse * Exchange W) :=
  match fuel with
  | O => None
  | S fuel =>
      match hop policy request initial_target target redirects s with
      | (Ok (Finished response), s) => Some (Ok response, s)
      | (Ok (Redirected target), s) =>
          http_loop fuel policy request initial_target target (redirects + 1) s
      | (Err e, s) => Some (Err e, s)
      end
  end.

(** One turn more than [MAX_REDIRECTS]: the fuel never runs out, see
    [http_loop_terminates]. *)
Definition http_fuel : nat := 6.

Definition run_hops (policy : ProxyPolicy) (request : ProxyRequest) (target : PinnedTarget) :
    M W ProxyResponse := λ s,
  match http_loop http_fuel policy request target target 0 s with
  | Some answer => answer
  | None => (Err TooManyRedirects, s)
  end.

Definition execute_with_hook (policy : ProxyPolicy) (request : ProxyRequest) :
    M W ProxyResponse :=
  permit ← ask requests_try_acquire;
  if negb permit then fail ConcurrencyLimited
  else
    _ ← lift (validate_method (ProxyRequest_method request));
    _ ← lift (validate_request_headers (ProxyRequest_headers request));
    if zlen (ProxyRequest_body request) >? MAX_REQUEST_BODY_BYTES
    then fail RequestBodyTooLarge
    else
      target ← proxy_authorize_url policy (ProxyRequest_url request);
      run_hops policy request target.
End http.

(** [HttpProxy::execute] *)
Definition execute {U : UrlLib} {H : HeaderLib} {G : Gzip} {W : Type} {E : World W}
    (policy : ProxyPolicy) (request : ProxyRequest) : M W ProxyResponse :=
  execute_with_hook (K := NoopHttpHopHook) policy request.

(** ** [ReqwestTransport]

    The reqwest client is the argument [send_to]: the authority it connects to,
    the addresses that replace resolution, and the answer's status, headers and
    body chunks. *)

Section reqwest.
Context {U : UrlLib} {H : HeaderLib}.
Context (send_to : string → list (IpAddr * Z) → TransportRequest →
  result TransportError (StatusCode * HeaderMap * list (result TransportError (list byte)))).

(** The chunk loop: stop as soon as one byte more than the limit is held. *)
Fixpoint read_chunks (body : list byte) (chunks : list (result TransportError (list byte))) :
    result TransportError (list byte) :=
  match chunks with
  | [] => Ok body
  | chunk :: chunks =>
      chunk ← chunk;
      let remaining := Z.max 0 (MAX_RAW_RESPONSE_BODY_BYTES + 1 - zlen body) in
      let body := body ++ take (Z.to_nat (Z.min (zlen chunk) remaining)) chunk in
      if zlen body >? MAX_RAW_RESPONSE_BODY_BYTES then Ok body
      else read_chunks body chunks
  end.

Definition ReqwestTransport_execute (target : PinnedTarget) (request : TransportRequest) :
    result TransportError TransportResponse :=
  if negb (eqb (TransportRequest_url request) (Url_as_str (PinnedTarget_url target)))
  then Err mkTransportError
  else
    let addresses := (λ address, (address, PinnedTarget_port target))
                       <$> PinnedTarget_addresses target in
    authority_host ← ok_or (Url_host_str (PinnedTarget_url target)) mkTransportError;
    '(status, headers, chunks) ← send_to authority_host addresses request;
    body ← read_chunks [] chunks;
    Ok (mkTransportResponse status headers body).
End reqwest.
