(* ===== verification/HttpFacts.v ===== *)
(** * Properties of the HTTP proxy

    A small program logic for the exchange monad, the invariant of one hop of
    the redirect loop, and the properties of a whole exchange: it terminates, it
    only contacts the pinned host, and what it returns is filtered and bounded. *)

From S2P Require Import Prelude Text Std Domain Foreign CredentialContract Policy.
From S2P Require Import PolicyFacts HttpProxy.

(** ** Weakest preconditions *)

Section wp.
Context {U : UrlLib} {H : HeaderLib} {W : Type}.

Definition wp {A} (m : M W A) (Q : result HttpProxyError A → Exchange W → Prop)
    (s : Exchange W) : Prop := Q (m s).1 (m s).2.

Lemma act_wp_mono {A} (m : M W A) (Q Q' : result HttpProxyError A → Exchange W → Prop) s :
  wp m Q s → (∀ r s', Q r s' → Q' r s') → wp m Q' s.
Proof. unfold wp. auto. Qed.

Lemma act_wp_bind {A B} (m : M W A) (f : A → M W B) Q s :
  wp m (λ r s', match r with Ok a => wp (f a) Q s' | Err e => Q (Err e) s' end) s →
  wp (m ≫= f) Q s.
Proof.
  unfold wp, mbind, M_bind. destruct (m s) as [[a|e] s']; simpl; done.
Qed.

Lemma act_wp_ret {A} (a : A) Q s : Q (Ok a) s → wp (mret a : M W A) Q s.
Proof. done. Qed.

Lemma wp_fail {A} e (Q : result HttpProxyError A → Exchange W → Prop) s :
  Q (Err e) s → wp (fail e : M W A) Q s.
Proof. done. Qed.

Lemma wp_lift {A} (r : result HttpProxyError A) Q s : Q r s → wp (lift r : M W A) Q s.
Proof. done. Qed.

Lemma wp_lift_bind {A B} (r : result HttpProxyError A) (f : A → M W B) Q s :
  (∀ a, r = Ok a → wp (f a) Q s) → (∀ e, r = Err e → Q (Err e) s) →
  wp (lift r ≫= f) Q s.
Proof. intros Hok Herr. apply act_wp_bind, wp_lift. destruct r; auto. Qed.

Lemma wp_ask {A} (f : W → A * W) Q s :
  (∀ a w, f (exchange_world s) = (a, w) → Q (Ok a) (mkExchange w (exchange_sent s))) →
  wp (ask f) Q s.
Proof. intros HQ. unfold wp, ask. destruct (f _) as [a w] eqn:E. by apply HQ. Qed.
End wp.

(** ** Where the world can be

    A relation that every call to the environment respects: calling [f] in [w]
    leads to a world related to [w].  [reachable] is the smallest such preorder,
    the worlds an exchange can lead to. *)

Section reach.
Context {U : UrlLib} {H : HeaderLib} {W : Type} {E : World W} {K : HttpHopHook W}.

Definition respects {A} (R : relation W) (f : W → A * W) : Prop := ∀ w, R w (f w).2.

Record world_respects (R : relation W) : Prop := {
  respects_acquire : respects R requests_try_acquire;
  respects_deadline : respects R deadline_elapsed;
  respects_semaphore : respects R semaphore_closed;
  respects_lock : respects R lock_poisoned;
  respects_join : respects R join_failed;
  respects_resolve host : respects R (λ w, resolve w host);
  respects_transport target request : respects R (transport_execute target request);
}.
Record hook_respects (R : relation W) : Prop := {
  respects_prepare target request : respects R (prepare target request);
  respects_observe target state response : respects R (observe target state response);
  respects_visible target state response : respects R (validate_visible target state response);
}.

Definition reachable (w w' : W) : Prop :=
  ∀ R : relation W, PreOrder R → world_respects R → hook_respects R → R w w'.

Global Instance reachable_preorder : PreOrder reachable.
Proof.
  split; [intros w R HR _ _; reflexivity|].
  intros w1 w2 w3 H1 H2 R HR HE HK. etrans; [by apply H1|by apply H2].
Qed.
Lemma reachable_world : world_respects reachable.
Proof. split; repeat intro; match goal with HE : world_respects _ |- _ => apply HE end. Qed.
Lemma reachable_hook : hook_respects reachable.
Proof. split; repeat intro; match goal with HK : hook_respects _ |- _ => apply HK end. Qed.

Lemma respects_eq {A} (R : relation W) (f : W → A * W) w a w' :
  respects R f → f w = (a, w') → R w w'.
Proof. intros Hf Heq. specialize (Hf w). by rewrite Heq in Hf. Qed.
End reach.

Section wp_http.
Context {U : UrlLib} {H : HeaderLib} {G : Gzip} {W : Type} {E : World W}.
Context (R : relation W) `{!PreOrder R} (HE : world_respects R).

Lemma wp_timeout_at {A} (f : W → A * W) (Q : result HttpProxyError A → Exchange W → Prop) s :
  respects R f →
  (∀ w', R (exchange_world s) w' → Q (Err Timeout) (mkExchange w' (exchange_sent s))) →
  (∀ a w' w'', f (exchange_world s) = (a, w') → R w' w'' →
     Q (Ok a) (mkExchange w'' (exchange_sent s))) →
  wp (timeout_at f) Q s.
Proof.
  intros Hf Herr Hok. unfold timeout_at. apply act_wp_bind, wp_ask. intros a w' Hw.
  apply act_wp_bind, wp_ask. intros elapsed w'' Hd. simpl in Hd.
  assert (R w' w'') by (eapply respects_eq; [|done]; apply HE).
  destruct elapsed; [|by eapply act_wp_ret, Hok]. apply wp_fail, Herr.
  etrans; [by eapply respects_eq|done].
Qed.

Lemma wp_blocking {A} (task : W → result HttpProxyError A * W) Q s :
  respects R task →
  (∀ e w', R (exchange_world s) w' → Q (Err e) (mkExchange w' (exchange_sent s))) →
  (∀ a w w', R (exchange_world s) w → (task w).1 = Ok a → R (exchange_world s) w' →
     Q (Ok a) (mkExchange w' (exchange_sent s))) →
  wp (blocking task) Q s.
Proof.
  intros Ht Herr Hok. unfold blocking. apply act_wp_bind, wp_timeout_at; [apply HE|by eauto|].
  intros closed w' w'' Hc Hw. assert (R (exchange_world s) w'') as Hr.
  { etrans; [eapply respects_eq; [|done]; apply HE|done]. }
  destruct closed; [by apply wp_fail, Herr|]. apply act_wp_bind, wp_timeout_at; simpl.
  - intros w. destruct (task w) as [answer w1] eqn:Et. destruct (join_failed w1) as [b w2] eqn:Ej.
    simpl. etrans; [by eapply respects_eq|]. eapply respects_eq; [|done]; apply HE.
  - intros w1 Hw1. apply Herr. by etrans.
  - intros [failed answer] w1 w2 Htask Hw2.
    destruct (task w'') as [answer' w3] eqn:Et. destruct (join_failed w3) as [b w4] eqn:Ej.
    simplify_eq. assert (R (exchange_world s) w2) as Hr2.
    { etrans; [exact Hr|]. etrans; [by eapply respects_eq|].
      etrans; [eapply respects_eq; [|done]; apply HE|done]. }
    destruct failed; [by apply wp_fail, Herr|]. apply wp_lift. simpl.
    destruct answer as [a|e]; [|by apply Herr]. eapply (Hok a w''); [done| |done]. by rewrite Et.
Qed.

Lemma respects_with_resolver {A} (f : W → result ProxyPolicyError A * W) :
  respects R f → respects R (with_resolver f).
Proof.
  intros Hf w. unfold with_resolver. destruct (lock_poisoned w) as [b w'] eqn:El.
  assert (R w w') by (eapply respects_eq; [|done]; apply HE).
  destruct b; [done|]. destruct (f w') as [r w''] eqn:Ef. simpl. etrans; [done|].
  by eapply respects_eq.
Qed.

Lemma respects_authorize_url policy raw : respects R (authorize_url policy raw).
Proof.
  intros w. unfold authorize_url. destruct (parse_request_url _ _) as [parsed|]; [|done].
  destruct (_ && _); [done|]. destruct (negb _); [done|].
  unfold resolve_and_validate. destruct (policy_fixture_mappings _ !! _); [done|].
  destruct (resolve w (parsed_host parsed)) as [answer w'] eqn:Er. simpl.
  eapply (respects_eq R (λ w, resolve w (parsed_host parsed))); [apply HE|done].
Qed.

Lemma respects_authorize_redirect policy pinned raw :
  respects R (authorize_redirect policy pinned raw).
Proof.
  intros w. unfold authorize_redirect. destruct (authorize_url _ _ w) as [r w'] eqn:Ea. simpl.
  eapply respects_eq; [apply respects_authorize_url|done].
Qed.

Lemma with_resolver_Ok {A} (f : W → result ProxyPolicyError A * W) w a :
  (with_resolver f w).1 = Ok a → ∃ w', R w w' ∧ (f w').1 = Ok a.
Proof.
  unfold with_resolver. destruct (lock_poisoned w) as [[|] w'] eqn:El; [done|].
  destruct (f w') as [r w''] eqn:Ef. simpl. intros Hr%map_err_Ok. exists w'. rewrite Ef.
  split; [|done]. eapply respects_eq; [|done]; apply HE.
Qed.

Lemma wp_send target request Q s :
  (∀ w', R (exchange_world s) w' →
     Q (Err Timeout) (mkExchange w' (exchange_sent s ++ [(target, request)]))) →
  (∀ a w', R (exchange_world s) w' →
     Q (Ok a) (mkExchange w' (exchange_sent s ++ [(target, request)]))) →
  wp (send target request) Q s.
Proof.
  intros Herr Hok. unfold send, wp.
  apply (wp_timeout_at (transport_execute target request) Q
           (mkExchange (exchange_world s) (exchange_sent s ++ [(target, request)])));
    [apply HE|done|].
  intros a w' w'' Ht Hw. apply Hok. etrans; [eapply respects_eq; [|done]; apply HE|done].
Qed.
End wp_http.

(** ** Headers *)

Section header_lemmas.
Context {H : HeaderLib} `{!HeaderLaws H}.

Lemma filter_response_headers_entries headers :
  HeaderMap_iter (filter_response_headers headers) ≡ₚ
  List.filter (λ e, allowed_response_header e.1) (HeaderMap_iter headers).
Proof.
  unfold filter_response_headers.
  assert (∀ l m,
    HeaderMap_iter (fold_left (λ filtered '(name, value),
      if allowed_response_header name then HeaderMap_append filtered name value else filtered)
      l m) ≡ₚ HeaderMap_iter m ++ List.filter (λ e, allowed_response_header e.1) l) as Hfold.
  { induction l as [|[name value] l IH]; intros m; simpl; [by rewrite app_nil_r|].
    rewrite IH. destruct (allowed_response_header name); [|done].
    rewrite header_append. by rewrite <- Permutation_middle. }
  rewrite Hfold, header_new. done.
Qed.

Lemma decode_body_bound {G : Gzip} headers body decoded :
  zlen body ≤ MAX_RAW_RESPONSE_BODY_BYTES → decode_body headers body = Ok decoded →
  zlen decoded ≤ MAX_RESPONSE_BODY_BYTES.
Proof using Type.
  unfold decode_body. intros Hbody Hd.
  destruct (HeaderMap_get_all headers "content-encoding") as [|v [|? ?]]; [by simplify_eq| |done].
  simplify_result. destruct (eq_ignore_ascii_case _ _) in Hd; [by simplify_eq|].
  simplify_result. by bool_prop.
Qed.
End header_lemmas.

(** ** One hop *)

Section hop_lemmas.
Context {U : UrlLib} {H : HeaderLib} {G : Gzip} {W : Type} {E : World W} {K : HttpHopHook W}.
Context (policy : ProxyPolicy) (request : ProxyRequest) (initial_target : PinnedTarget).
Context (Hbuilt : policy_built policy) (Hinitial : target_ok policy initial_target).
Context (w0 : W).
#[local] Hint Resolve reachable_world reachable_hook : core.

(** The request the proxy builds for a target, before the hook sees it. *)
Definition base_request (target : PinnedTarget) : TransportRequest := {|
  TransportRequest_method := ProxyRequest_method request;
  TransportRequest_url := Url_as_str (PinnedTarget_url target);
  TransportRequest_headers := ProxyRequest_headers request;
  TransportRequest_body := ProxyRequest_body request
|}.

(** A target of the exchange: authorized, on the first target's host and
    addresses. *)
Definition pinned_to (target : PinnedTarget) : Prop :=
  target_ok policy target ∧ PinnedTarget_host target = PinnedTarget_host initial_target ∧
  PinnedTarget_addresses target = PinnedTarget_addresses initial_target.

(** A request handed to the transport: what the hook made of the base request in
    a world that the exchange led to, within the limits. *)
Definition sent_ok (call : PinnedTarget * TransportRequest) : Prop :=
  pinned_to call.1 ∧
  (∃ w state w', reachable w0 w ∧
     prepare call.1 (base_request call.1) w = (Ok (state, call.2), w')) ∧
  validate_core_request_headers (TransportRequest_headers call.2) = Ok tt ∧
  zlen (TransportRequest_body call.2) ≤ MAX_REQUEST_BODY_BYTES.

(** A response the proxy returns: the final answer to the request [req] it sent
    to [target], filtered, and accepted by the hook that prepared [req]. *)
Definition final_hop (target : PinnedTarget) (req : TransportRequest) (response : ProxyResponse) :
    Prop :=
  is_redirect (ProxyResponse_status response) = false ∧
  zlen (ProxyResponse_body response) ≤ MAX_RESPONSE_BODY_BYTES ∧
  ∃ raw, ProxyResponse_status response = TransportResponse_status raw ∧
    ProxyResponse_headers response = filter_response_headers (TransportResponse_headers raw) ∧
    validate_response_headers (TransportResponse_headers raw) = Ok tt ∧
    ∃ w1 state w2 w3 state' w4 w5 w6,
      reachable w0 w1 ∧ reachable w2 w3 ∧ reachable w4 w5 ∧
      prepare target (base_request target) w1 = (Ok (state, req), w2) ∧
      observe target state raw w3 = (Ok state', w4) ∧
      validate_visible target state' response w5 = (Ok tt, w6).

Definition hop_post (target : PinnedTarget) (redirects : Z) (s : Exchange W)
    (r : result HttpProxyError HopOutcome) (s' : Exchange W) : Prop :=
  reachable (exchange_world s) (exchange_world s') ∧
  match r with
  | Err _ => exchange_sent s' = exchange_sent s ∨
      ∃ req, exchange_sent s' = exchange_sent s ++ [(target, req)] ∧ sent_ok (target, req)
  | Ok outcome =>
      ∃ req, exchange_sent s' = exchange_sent s ++ [(target, req)] ∧ sent_ok (target, req) ∧
        match outcome with
        | Finished response => final_hop target req response
        | Redirected target' => redirects < MAX_REDIRECTS ∧ pinned_to target'
        end
  end.

#[local] Arguments hop_post : simpl never.

Lemma hop_spec target redirects s :
  pinned_to target → reachable w0 (exchange_world s) →
  wp (hop policy request initial_target target redirects) (hop_post target redirects s) s.
Proof.
  intros Hpin Hw0. unfold hop. fold (base_request target).
  apply act_wp_bind, (wp_timeout_at reachable); [done|apply reachable_hook|by split; [|left]|].
  intros prepared w1 w2 Hprep Hw12.
  assert (reachable (exchange_world s) w2) as Hw2.
  { etrans; [eapply respects_eq; [|done]; apply reachable_hook|done]. }
  apply wp_lift_bind; [|by split; [|left]]. intros [st req] ->%map_err_Ok.
  apply wp_lift_bind; [|by split; [|left]]. intros [] Hcore.
  destruct (zlen _ >? _) eqn:Hlen; [by apply wp_fail; split; [|left]|]. bool_prop.
  assert (sent_ok (target, req)) as Hsent by (split_and!; simpl; eauto 10).
  set (calls := exchange_sent s ++ [(target, req)]).
  assert (∀ e w, reachable (exchange_world s) w →
    hop_post target redirects s (Err e) (mkExchange w calls)) as Herr.
  { intros e w Hw. split; [done|]. right. by exists req. }
  apply act_wp_bind, (wp_send reachable); simpl; [done|by intros; apply Herr; etrans|].
  intros answer w3 Hw23. assert (reachable (exchange_world s) w3) as Hw3 by (by etrans). fold calls.
  apply wp_lift_bind; [|by intros; apply Herr]. intros response _.
  apply wp_lift_bind; [|by intros; apply Herr]. intros [] Hresp.
  apply wp_lift_bind; [|by intros; apply Herr]. intros [] _.
  destruct (zlen (TransportResponse_body response) >? _) eqn:Hbody;
    [by apply wp_fail; apply Herr|]. bool_prop.
  apply act_wp_bind, (wp_timeout_at reachable); simpl;
    [done|apply reachable_hook|by intros; apply Herr; etrans|].
  intros observed w4 w5 Hobs Hw45. assert (reachable (exchange_world s) w5) as Hw5.
  { etrans; [exact Hw3|]. etrans; [eapply respects_eq; [|done]; apply reachable_hook|done]. }
  apply wp_lift_bind; [|by intros; apply Herr]. intros state' ->%map_err_Ok.
  destruct (is_redirect _) eqn:Hred.
  - destruct (redirects >=? _) eqn:Hmax; [by apply wp_fail; apply Herr|].
    destruct (_ && _); [by apply wp_fail; apply Herr|].
    apply wp_lift_bind; [|by intros; apply Herr]. intros location _.
    apply wp_lift_bind; [|by intros; apply Herr]. intros redirected _.
    destruct (negb _); [by apply wp_fail; apply Herr|].
    apply act_wp_bind, (wp_blocking reachable); simpl; [done| |by intros; apply Herr; etrans|].
    { apply respects_with_resolver, respects_authorize_redirect; first [apply _ | done]. }
    intros target' w w' _ (w'' & _ & Hauth)%(with_resolver_Ok reachable) Hw'; [|done].
    apply act_wp_ret. split; [by etrans|]. exists req.
    split; [done|]. split; [done|]. rewrite Z.geb_leb in Hmax. bool_prop. split; [done|].
    exact (authorize_redirect_Ok _ _ _ _ _ Hbuilt Hinitial Hauth).
  - apply act_wp_bind, (wp_blocking reachable); simpl;
      [done|by intros w0'|by intros; apply Herr; etrans|].
    intros body w w' _ Hdec Hw'. simpl in Hdec.
    apply act_wp_bind, wp_ask. intros visible w6 Hvis. simpl in Hvis |- *.
    assert (reachable (exchange_world s) w6) as Hw6.
    { etrans; [exact Hw5|]. etrans; [exact Hw'|]. eapply respects_eq; [|done]; apply reachable_hook. }
    apply wp_lift_bind; [|by intros; apply Herr]. intros [] ->%map_err_Ok.
    apply act_wp_ret. split; [done|]. exists req. split; [done|]. split; [done|].
    split_and!; simpl; [done| |].
    + by eapply decode_body_bound.
    + exists response. split_and!; [done..|]. do 8 eexists. split_and!; [exact Hw0| | |done..].
      * etrans; [exact Hw12|exact Hw23].
      * etrans; [exact Hw45|exact Hw'].
Qed.

(** ** The loop *)

Definition loop_post (budget : Z) (s : Exchange W)
    (r : result HttpProxyError ProxyResponse) (s' : Exchange W) : Prop :=
  ∃ calls, exchange_sent s' = exchange_sent s ++ calls ∧ Forall sent_ok calls ∧
    zlen calls ≤ budget ∧
    ∀ response, r = Ok response →
      ∃ calls' target req, calls = calls' ++ [(target, req)] ∧ final_hop target req response.

Lemma http_loop_spec fuel target redirects s :
  0 ≤ redirects ≤ MAX_REDIRECTS → MAX_REDIRECTS - redirects < Z.of_nat fuel →
  pinned_to target → reachable w0 (exchange_world s) →
  ∃ r s', http_loop fuel policy request initial_target target redirects s = Some (r, s') ∧
    loop_post (MAX_REDIRECTS - redirects + 1) s r s'.
Proof.
  revert target redirects s. induction fuel as [|fuel IH]; intros target redirects s Hr Hf Hpin Hw;
    [lia|].
  pose proof (hop_spec target redirects s Hpin Hw) as Hhop. unfold wp in Hhop. simpl.
  destruct (hop _ _ _ target redirects s) as [[[response|target']|e] s'];
    destruct Hhop as [Hw' Hhop]; cbn [fst snd] in Hw', Hhop.
  - destruct Hhop as (req & Hsent & Hok & Hresp).
    do 2 eexists. split; [done|]. exists [(target, req)]. split_and!; [done| | |].
    + by constructor.
    + unfold zlen. simpl. lia.
    + intros ? [= <-]. by exists [], target, req.
  - destruct Hhop as (req & Hsent & Hok & Hlt & Hpin').
    destruct (IH target' (redirects + 1) s') as (r & s'' & Heq & calls & Hc & Hall & Hlen & Hret);
      [lia..|done|by etrans|].
    do 2 eexists. split; [done|]. exists ((target, req) :: calls). split_and!.
    + rewrite Hc, Hsent. by rewrite <- app_assoc.
    + by constructor.
    + unfold zlen in *. simpl. lia.
    + intros response Hresp. destruct (Hret response Hresp) as (calls' & t & q & -> & Hfin).
      by exists ((target, req) :: calls'), t, q.
  - do 2 eexists. split; [done|]. destruct Hhop as [Hsent|(req & Hsent & Hok)].
    + exists []. rewrite app_nil_r. split_and!; [done|constructor| |done]. unfold zlen. simpl. lia.
    + exists [(target, req)]. split_and!; [done|by constructor| |done]. unfold zlen. simpl. lia.
Qed.
End hop_lemmas.

Section exchange_lemmas.
Context {U : UrlLib} {H : HeaderLib} {G : Gzip} {W : Type} {E : World W} {K : HttpHopHook W}.

(** What an exchange did: nothing was sent, or the calls of the loop after
    the target was authorized. *)
Definition exchange_post (policy : ProxyPolicy) (request : ProxyRequest) (s : Exchange W)
    (r : result HttpProxyError ProxyResponse) (s' : Exchange W) : Prop :=
  (∃ e, r = Err e ∧ exchange_sent s' = exchange_sent s) ∨
  (validate_method (ProxyRequest_method request) = Ok tt ∧
   validate_request_headers (ProxyRequest_headers request) = Ok tt ∧
   zlen (ProxyRequest_body request) ≤ MAX_REQUEST_BODY_BYTES ∧
   ∃ target w, reachable (exchange_world s) w ∧
     (authorize_url policy (ProxyRequest_url request) w).1 = Ok target ∧
     loop_post policy request target (exchange_world s) 6 s r s').

Lemma execute_with_hook_spec policy request s :
  policy_built policy →
  wp (execute_with_hook policy request) (exchange_post policy request s) s.
Proof.
  intros Hbuilt. unfold execute_with_hook. apply act_wp_bind, wp_ask. intros permit w1 Hp.
  assert (reachable (exchange_world s) w1) as Hw1
    by (eapply respects_eq; [|done]; apply reachable_world).
  destruct permit; cbn [negb]; [|by apply wp_fail; left; eauto].
  apply wp_lift_bind; [|by left; eauto]. intros [] Hmethod.
  apply wp_lift_bind; [|by left; eauto]. intros [] Hheaders.
  destruct (zlen _ >? _) eqn:Hlen; [by apply wp_fail; left; eauto|]. bool_prop.
  apply act_wp_bind, (wp_blocking reachable); simpl; [apply reachable_world| |by left; eauto|].
  { apply respects_with_resolver, respects_authorize_url; apply reachable_world || apply _. }
  intros target w w' Hw (w'' & Hw'' & Hauth)%(with_resolver_Ok reachable) Hw'; [|apply reachable_world].
  right. split_and!; [done..|]. exists target, w''. split.
  { etrans; [exact Hw1|]. etrans; [exact Hw|exact Hw'']. }
  split; [done|]. destruct (authorize_url_Ok _ _ _ _ Hbuilt Hauth) as (_ & Hok & _).
  destruct (http_loop_spec policy request target Hbuilt Hok (exchange_world s) http_fuel target 0
    (mkExchange w' (exchange_sent s))) as (r & s' & Hloop & Hpost);
    [unfold MAX_REDIRECTS, http_fuel; lia..|by split_and!|by etrans|].
  unfold run_hops. rewrite Hloop. exact Hpost.
Qed.
End exchange_lemmas.

(** ** Properties *)

Section http_properties.
Context {U : UrlLib} {H : HeaderLib} {G : Gzip} {W : Type} {E : World W}.

(** The redirect loop terminates: from an authorized target the six turns of
    [http_fuel] always produce an answer, whatever the transport, the resolver
    and the hook do. *)
Theorem http_loop_terminates {K : HttpHopHook W} policy request raw resolver target s :
  policy_built policy → (authorize_url policy raw (resolver : W)).1 = Ok target →
  is_Some (http_loop http_fuel policy request target target 0 s).
Proof.
  intros Hb (_ & Hok & _)%authorize_url_Ok; [|done].
  destruct (http_loop_spec policy request target Hb Hok (exchange_world s) http_fuel target 0 s)
    as (r & s' & Hloop & _); [unfold MAX_REDIRECTS, http_fuel; lia..|by split_and!|done|].
  rewrite Hloop. eauto.
Qed.

(** C34. An exchange sends at most six requests.  All of them go to authorized
    targets on one host and one set of pinned addresses, each is what the hook
    made of the plugin's request for that target, carries at most 32 headers
    and 16 KiB of header data, no forbidden header and not both a cookie and an
    authorization, and a body of at most 1 MiB. *)
Theorem execute_with_hook_sends {K : HttpHopHook W} policy request s r s' :
  policy_built policy → execute_with_hook policy request s = (r, s') →
  ∃ calls, exchange_sent s' = exchange_sent s ++ calls ∧ zlen calls ≤ 6 ∧
    (calls = [] ∨ ∃ target w, reachable (exchange_world s) w ∧
       (authorize_url policy (ProxyRequest_url request) w).1 = Ok target ∧
       Forall (sent_ok policy request target (exchange_world s)) calls).
Proof.
  intros Hb Hex. pose proof (execute_with_hook_spec policy request s Hb) as Hwp.
  unfold wp in Hwp. rewrite Hex in Hwp. simpl in Hwp.
  destruct Hwp as [(e & _ & Hs)|(_ & _ & _ & target & w & Hw & Hauth & calls & Hs & Hall & Hlen & _)].
  - exists []. rewrite app_nil_r. split_and!; [done| |by left]. unfold zlen. simpl. lia.
  - exists calls. split_and!; [done..|]. right. eauto.
Qed.

(** What a plugin sees of a response: the final answer to the last request
    that was sent, with only whitelisted headers of the upstream response, at
    most 64 of them, and a decoded body of at most 16 MiB, accepted by the hook
    that prepared that request. *)
Theorem execute_with_hook_response {K : HttpHopHook W} `{!HeaderLaws H}
    policy request s response s' :
  policy_built policy → execute_with_hook policy request s = (Ok response, s') →
  (∀ name value, (name, value) ∈ HeaderMap_iter (ProxyResponse_headers response) →
     allowed_response_header name = true) ∧
  HeaderMap_len (ProxyResponse_headers response) ≤ MAX_RESPONSE_HEADERS ∧
  ∃ target req, last (exchange_sent s') = Some (target, req) ∧
    final_hop request (exchange_world s) target req response.
Proof.
  intros Hb Hex. pose proof (execute_with_hook_spec policy request s Hb) as Hwp.
  unfold wp in Hwp. rewrite Hex in Hwp. simpl in Hwp.
  destruct Hwp as [(e & ? & _)|(_ & _ & _ & target & w & _ & _ & calls & Hsent & _ & _ & Hresp)]; [done|].
  destruct (Hresp response eq_refl) as (calls' & t & req & -> & Hfin).
  assert (last (exchange_sent s') = Some (t, req)) as Hlast.
  { rewrite Hsent, app_assoc. by rewrite last_snoc. }
  pose proof Hfin as (_ & _ & raw & _ & Hraw & Hval & _). rewrite Hraw. split_and!.
  - intros name value Hin. rewrite filter_response_headers_entries in Hin.
    apply list_elem_of_In, filter_In in Hin as [_ ?]. done.
  - rewrite header_len. unfold zlen.
    rewrite (Permutation_length (filter_response_headers_entries _)).
    unfold validate_response_headers in Hval. destruct (_ || _) eqn:Hg; [done|]. bool_prop.
    rewrite header_len in *. unfold zlen in *.
    pose proof (filter_length_le (λ e : string * HeaderValue, allowed_response_header e.1)
      (HeaderMap_iter (TransportResponse_headers raw))). lia.
  - by exists t, req.
Qed.

(** Without a credential hook the transport only ever receives the plugin's own
    method, headers and body, so never a host, cookie, authorization or
    forwarding header. *)
Theorem execute_no_credentials `{!HeaderLaws H} policy request s r s' :
  policy_built policy → execute policy request s = (r, s') →
  ∃ calls, exchange_sent s' = exchange_sent s ++ calls ∧
    ∀ target sent, (target, sent) ∈ calls →
      sent = base_request request target ∧
      ∀ name, name ∈ (HeaderMap_iter (TransportRequest_headers sent)).*1 →
        forbidden_request_header name = false.
Proof.
  intros Hb Hex. unfold execute in Hex.
  pose proof (execute_with_hook_spec (K := NoopHttpHopHook) policy request s Hb) as Hwp.
  unfold wp in Hwp. rewrite Hex in Hwp. simpl in Hwp.
  destruct Hwp as [(e & _ & Hs)|(_ & Hh & _ & target & w & _ & _ & calls & Hs & Hall & _)].
  { exists []. rewrite app_nil_r. split; [done|]. intros ?? Hin. by apply not_elem_of_nil in Hin. }
  exists calls. split; [done|]. intros t sent Hin. rewrite Forall_forall in Hall.
  destruct (Hall _ Hin) as (_ & (w1 & st & w2 & _ & Hprep) & _). simpl in Hprep. simplify_eq.
  split; [done|]. intros name Hname%header_keys. simpl in Hname.
  unfold validate_request_headers in Hh. destruct (_ || _) eqn:Hg; [done|]. bool_prop.
  match goal with H : existsb _ _ = false |- _ => rename H into Hforb end.
  destruct (forbidden_request_header name) eqn:Hf; [|done].
  assert (existsb forbidden_request_header (HeaderMap_keys (ProxyRequest_headers request)) = true)
    by (apply existsb_exists; exists name; split; [by apply list_elem_of_In|done]).
  congruence.
Qed.
End http_properties.

Section reqwest_properties.
Context {U : UrlLib} {H : HeaderLib}.
Context (send_to : string → list (IpAddr * Z) → TransportRequest →
  result TransportError (StatusCode * HeaderMap * list (result TransportError (list byte)))).

(** What has been received, up to the limit plus one byte. *)
Lemma read_chunks_spec chunks body received :
  zlen body ≤ MAX_RAW_RESPONSE_BODY_BYTES → read_chunks body chunks = Ok received →
  ∃ parts, Forall2 (λ part chunk, chunk = Ok part) parts (take (length parts) chunks) ∧
    received = take (Z.to_nat (MAX_RAW_RESPONSE_BODY_BYTES + 1)) (body ++ concat parts) ∧
    (zlen received ≤ MAX_RAW_RESPONSE_BODY_BYTES → length parts = length chunks).
Proof using Type.
  revert body. induction chunks as [|chunk chunks IH]; intros body Hbody Hr.
  { simpl in Hr. injection Hr as <-. exists []. simpl. rewrite app_nil_r, take_ge; [done|].
    unfold zlen in *. lia. }
  cbn [read_chunks] in Hr. apply bind_Ok in Hr as (data & -> & Hr).
  set (n := Z.to_nat (Z.min _ _)) in Hr.
  assert (body ++ take n data =
    take (Z.to_nat (MAX_RAW_RESPONSE_BODY_BYTES + 1)) (body ++ data)) as Hcut.
  { rewrite take_app_ge by (unfold zlen in *; lia). f_equal.
    subst n. unfold zlen in *.
    destruct (decide (Z.of_nat (length data) ≤
      MAX_RAW_RESPONSE_BODY_BYTES + 1 - Z.of_nat (length body))).
    - rewrite !take_ge by lia. done.
    - f_equal. lia. }
  rewrite Hcut in Hr. destruct (_ >? _) eqn:Hgt; bool_prop.
  - injection Hr as <-. exists [data]. split_and!; [by repeat constructor| |lia].
    simpl. by rewrite app_nil_r.
  - assert (body ++ data = take (Z.to_nat (MAX_RAW_RESPONSE_BODY_BYTES + 1)) (body ++ data))
      as Hall.
    { symmetry. apply take_ge. unfold zlen in Hgt. rewrite length_take in Hgt. lia. }
    rewrite <- Hall in *. destruct (IH _ Hgt Hr) as (parts & Hparts & -> & Hlen).
    exists (data :: parts). split_and!; [by constructor| |].
    + simpl. by rewrite app_assoc.
    + intros Hle. simpl. f_equal. by apply Hlen.
Qed.

(** The reqwest transport connects to the pinned addresses at the target's port
    and nowhere else, only for the target's own URL, and buffers at most one
    byte more than the 16 MiB the proxy accepts; what it buffers is the start of
    the body that was received. *)
Theorem ReqwestTransport_pinned target request response :
  ReqwestTransport_execute send_to target request = Ok response →
  TransportRequest_url request = Url_as_str (PinnedTarget_url target) ∧
  ∃ host chunks parts,
    Url_host_str (PinnedTarget_url target) = Some host ∧
    send_to host ((λ a, (a, PinnedTarget_port target)) <$> PinnedTarget_addresses target) request
      = Ok (TransportResponse_status response, TransportResponse_headers response, chunks) ∧
    Forall2 (λ part chunk, chunk = Ok part) parts (take (length parts) chunks) ∧
    TransportResponse_body response =
      take (Z.to_nat (MAX_RAW_RESPONSE_BODY_BYTES + 1)) (concat parts) ∧
    zlen (TransportResponse_body response) ≤ MAX_RAW_RESPONSE_BODY_BYTES + 1.
Proof.
  unfold ReqwestTransport_execute. intros Hex. simplify_result. bool_prop.
  destruct x0 as [[status headers] chunks]. simplify_result. split; [done|].
  match goal with Hr : read_chunks [] chunks = Ok _ |- _ =>
    apply read_chunks_spec in Hr as (parts & Hparts & -> & _) end; [|done].
  simpl. do 3 eexists. split_and!; [done..|]. unfold zlen. rewrite length_take.
  unfold MAX_RAW_RESPONSE_BODY_BYTES. lia.
Qed.
End reqwest_properties.
