(* ===== verification/CredentialSecret.v ===== *)
(** * Credential secrets (crates/audiodown-credential-vault/src/secret.rs, and
    the records of service.rs that other crates see)

    Cookie and token secrets, their validation, and their JSON payload, an
    interface ([SecretJson]).  [SecretString] and [Zeroizing] are their
    contents. *)

From S2P Require Import Prelude Text Domain Foreign CredentialContract.

Definition SECRET_PAYLOAD_VERSION : Z := 1.
Definition MAX_COOKIES : Z := 128.
Definition MAX_COOKIE_NAME_BYTES : Z := 256.
Definition MAX_COOKIE_VALUE_BYTES : Z := 8 * 1024.
Definition MAX_COOKIE_HOST_BYTES : Z := 253.
Definition MAX_COOKIE_PATH_BYTES : Z := 2 * 1024.
Definition MAX_TOKEN_BYTES : Z := 16 * 1024.

Inductive SecretPayloadError :=
| SecretInvalidCookie | SecretInvalidToken | SecretMalformed | SecretUnsupportedVersion
| SecretKindMismatch.
Global Instance SecretPayloadError_eq_dec : EqDecision SecretPayloadError.
Proof. solve_decision. Defined.

Definition cookie_name_separator (c : ascii) : bool :=
  list_contains
    ["("; ")"; "<"; ">"; "@"; ","; ";"; ":"; "\"; "034"; "/"; "["; "]"; "?"; "="; "{"; "}"]%char c.

Definition valid_cookie_name (name : string) : bool :=
  negb (str_is_empty name)
  && (str_len name <=? MAX_COOKIE_NAME_BYTES)
  && str_all (λ byte, (code byte >? 0x20) && (code byte <? 0x7f)
                      && negb (cookie_name_separator byte)) name.

Definition valid_cookie_host (host : string) : bool :=
  negb (str_is_empty host)
  && (str_len host <=? MAX_COOKIE_HOST_BYTES)
  && negb (starts_with host ".")
  && negb (ends_with host ".")
  && negb (existsb (eqb (bytes "..")) (windows 2 (bytes host)))
  && str_all (λ byte, is_ascii_lowercase byte || is_ascii_digit byte
                      || list_contains ["."; "-"]%char byte) host.

Record CookieSecretRecord := mkCookieSecretRecord {
  CookieSecretRecord_name : string;
  CookieSecretRecord_value : string;
  CookieSecretRecord_host : string;
  CookieSecretRecord_path : string;
  CookieSecretRecord_secure : bool;
  CookieSecretRecord_http_only : bool;
  CookieSecretRecord_expires_at : option time;
}.
Global Instance CookieSecretRecord_eq_dec : EqDecision CookieSecretRecord.
Proof. solve_decision. Defined.

Definition CookieSecretRecord_new (name value host path : string) (secure http_only : bool)
    (expires_at : option time) : result SecretPayloadError CookieSecretRecord :=
  let host := to_ascii_lowercase host in
  if negb (valid_cookie_name name)
     || str_is_empty value
     || (str_len value >? MAX_COOKIE_VALUE_BYTES)
     || negb (valid_cookie_host host)
     || str_is_empty path
     || (str_len path >? MAX_COOKIE_PATH_BYTES)
     || negb (starts_with path "/")
  then Err SecretInvalidCookie
  else Ok (mkCookieSecretRecord name value host path secure http_only expires_at).

Record CookieCredentialSecret := mkCookieCredentialSecret {
  CookieCredentialSecret_cookies : list CookieSecretRecord
}.
Global Instance CookieCredentialSecret_eq_dec : EqDecision CookieCredentialSecret.
Proof. solve_decision. Defined.

(** The name, host and path identify a cookie. *)
Definition cookie_identity (cookie : CookieSecretRecord) : string * string * string :=
  (CookieSecretRecord_name cookie, CookieSecretRecord_host cookie,
   CookieSecretRecord_path cookie).

(** [iter().any(|c| !identities.insert(...))] *)
Fixpoint any_duplicate (identities : gset (string * string * string))
    (cookies : list CookieSecretRecord) : bool :=
  match cookies with
  | [] => false
  | cookie :: cookies =>
      bool_decide (cookie_identity cookie ∈ identities)
      || any_duplicate ({[cookie_identity cookie]} ∪ identities) cookies
  end.

Definition CookieCredentialSecret_new (cookies : list CookieSecretRecord) :
    result SecretPayloadError CookieCredentialSecret :=
  if (length cookies =? 0)%nat || (zlen cookies >? MAX_COOKIES) then Err SecretInvalidCookie
  else if any_duplicate ∅ cookies then Err SecretInvalidCookie
  else Ok (mkCookieCredentialSecret cookies).

Record TokenCredentialSecret := mkTokenCredentialSecret { TokenCredentialSecret_value : string }.

Definition TokenCredentialSecret_bearer (value : string) :
    result SecretPayloadError TokenCredentialSecret :=
  if str_is_empty value || (str_len value >? MAX_TOKEN_BYTES) then Err SecretInvalidToken
  else Ok (mkTokenCredentialSecret value).

Inductive CredentialSecret :=
| SecretCookie (secret : CookieCredentialSecret)
| SecretToken (secret : TokenCredentialSecret).

Record CredentialSecretGuard := mkCredentialSecretGuard {
  CredentialSecretGuard_secret : CredentialSecret
}.

Definition CredentialSecretGuard_cookie (self : CredentialSecretGuard) :
    option CookieCredentialSecret :=
  match CredentialSecretGuard_secret self with
  | SecretCookie secret => Some secret
  | SecretToken _ => None
  end.

Definition CredentialSecretGuard_token (self : CredentialSecretGuard) :
    option TokenCredentialSecret :=
  match CredentialSecretGuard_secret self with
  | SecretCookie _ => None
  | SecretToken secret => Some secret
  end.

(** ** Payloads *)

Record CookiePayload := mkCookiePayload {
  CookiePayload_name : string;
  CookiePayload_value : string;
  CookiePayload_host : string;
  CookiePayload_path : string;
  CookiePayload_secure : bool;
  CookiePayload_http_only : bool;
  CookiePayload_expires_at : option time;
}.

Inductive SecretPayload :=
| PayloadCookie (version : Z) (cookies : list CookiePayload)
| PayloadToken (version : Z) (scheme value : string).

(** [serde_json::to_writer] and [from_slice] at [SecretPayloadRef] and
    [SecretPayloadOwned], which have the same shape. *)
Class SecretJson := {
  secret_to_vec : SecretPayload → option (list byte);
  secret_from_slice : list byte → option SecretPayload;
}.
Class SecretJsonLaws (J : SecretJson) : Prop :=
  secret_roundtrip payload b :
    secret_to_vec payload = Some b → secret_from_slice b = Some payload.

Section payload.
Context {J : SecretJson}.

Definition encode_payload (payload : SecretPayload) : result SecretPayloadError (list byte) :=
  ok_or (secret_to_vec payload) SecretMalformed.

Definition encode_cookie (secret : CookieCredentialSecret) :
    result SecretPayloadError (list byte) :=
  encode_payload (PayloadCookie SECRET_PAYLOAD_VERSION
    ((λ cookie, {|
        CookiePayload_name := CookieSecretRecord_name cookie;
        CookiePayload_value := CookieSecretRecord_value cookie;
        CookiePayload_host := CookieSecretRecord_host cookie;
        CookiePayload_path := CookieSecretRecord_path cookie;
        CookiePayload_secure := CookieSecretRecord_secure cookie;
        CookiePayload_http_only := CookieSecretRecord_http_only cookie;
        CookiePayload_expires_at := CookieSecretRecord_expires_at cookie
      |}) <$> CookieCredentialSecret_cookies secret)).

Definition encode_token (secret : TokenCredentialSecret) :
    result SecretPayloadError (list byte) :=
  encode_payload (PayloadToken SECRET_PAYLOAD_VERSION "bearer"
                    (TokenCredentialSecret_value secret)).

Definition validate_version (version : Z) : result SecretPayloadError unit :=
  if version =? SECRET_PAYLOAD_VERSION then Ok tt else Err SecretUnsupportedVersion.

Definition record_of_payload (cookie : CookiePayload) :
    result SecretPayloadError CookieSecretRecord :=
  CookieSecretRecord_new (CookiePayload_name cookie) (CookiePayload_value cookie)
    (CookiePayload_host cookie) (CookiePayload_path cookie) (CookiePayload_secure cookie)
    (CookiePayload_http_only cookie) (CookiePayload_expires_at cookie).

Definition decode_secret (kind : CredentialKind) (plaintext : list byte) :
    result SecretPayloadError CredentialSecretGuard :=
  payload ← ok_or (secret_from_slice plaintext) SecretMalformed;
  match kind, payload with
  | Cookie, PayloadCookie version cookies =>
      validate_version version;;
      cookies ← mapM record_of_payload cookies;
      secret ← CookieCredentialSecret_new cookies;
      Ok (mkCredentialSecretGuard (SecretCookie secret))
  | Token, PayloadToken version scheme value =>
      validate_version version;;
      if negb (eqb scheme "bearer") then Err SecretInvalidToken
      else
        secret ← TokenCredentialSecret_bearer value;
        Ok (mkCredentialSecretGuard (SecretToken secret))
  | _, _ => Err SecretKindMismatch
  end.
End payload.

(** ** Records of the vault *)

Record CredentialMetadata := mkCredentialMetadata {
  CredentialMetadata_id : CredentialId;
  CredentialMetadata_kind : CredentialKind;
  CredentialMetadata_platform_id : string;
  CredentialMetadata_scope : CredentialScope;
  CredentialMetadata_ownership : CredentialOwnership;
  CredentialMetadata_target_origins : list CredentialTargetOrigin;
  CredentialMetadata_account_id_hint : option string;
  CredentialMetadata_display_name : option string;
  CredentialMetadata_status : CredentialStatus;
  CredentialMetadata_safe_error_summary : option string;
  CredentialMetadata_expires_at : option time;
  CredentialMetadata_status_checked_at : option time;
  CredentialMetadata_created_at : time;
  CredentialMetadata_updated_at : time;
  CredentialMetadata_revision : Z;
}.
Global Instance CredentialMetadata_eq_dec : EqDecision CredentialMetadata.
Proof. solve_decision. Defined.

Record CredentialUpdateRequest := mkCredentialUpdateRequest {
  CredentialUpdateRequest_credential_id : CredentialId;
  CredentialUpdateRequest_expected_revision : Z;
  CredentialUpdateRequest_target_origins : list CredentialTargetOrigin;
  CredentialUpdateRequest_account_id_hint : option string;
  CredentialUpdateRequest_display_name : option string;
  CredentialUpdateRequest_status : CredentialStatus;
  CredentialUpdateRequest_safe_error_summary : option string;
  CredentialUpdateRequest_expires_at : option time;
  CredentialUpdateRequest_status_checked_at : option time;
}.

(** ** Well-formed secrets *)

Definition cookie_record_ok (c : CookieSecretRecord) : Prop :=
  valid_cookie_name (CookieSecretRecord_name c) = true ∧
  1 ≤ str_len (CookieSecretRecord_value c) ≤ MAX_COOKIE_VALUE_BYTES ∧
  valid_cookie_host (CookieSecretRecord_host c) = true ∧
  str_len (CookieSecretRecord_path c) ≤ MAX_COOKIE_PATH_BYTES ∧
  starts_with (CookieSecretRecord_path c) "/" = true.

Definition cookie_secret_ok (s : CookieCredentialSecret) : Prop :=
  1 ≤ zlen (CookieCredentialSecret_cookies s) ≤ MAX_COOKIES ∧
  Forall cookie_record_ok (CookieCredentialSecret_cookies s) ∧
  NoDup (cookie_identity <$> CookieCredentialSecret_cookies s).

(** ** Lemmas *)

Lemma any_duplicate_false identities cookies :
  any_duplicate identities cookies = false ↔
  NoDup (cookie_identity <$> cookies) ∧
  ∀ c, c ∈ cookies → cookie_identity c ∉ identities.
Proof.
  revert identities. induction cookies as [|c cookies IH]; intros identities.
  { split; [intros _; split; [constructor|]|done]. intros c Hc. by apply not_elem_of_nil in Hc. }
  cbn [any_duplicate]. rewrite orb_false_iff, bool_decide_eq_false, IH, fmap_cons, NoDup_cons.
  rewrite list_elem_of_fmap. split.
  - intros (Hc & Hn & Hall). split_and!; [|done|].
    + intros (c' & Heq & Hin). apply (Hall c' Hin). apply elem_of_union_l.
      by apply elem_of_singleton.
    + intros c' [->|Hin]%elem_of_cons; [done|]. specialize (Hall c' Hin).
      intros Hid. apply Hall. by apply elem_of_union_r.
  - intros ([Hc Hn] & Hall). split_and!; [apply Hall; by left|done|].
    intros c' Hin [Heq%elem_of_singleton|Hid]%elem_of_union.
    + apply Hc. by exists c'.
    + revert Hid. apply Hall. by right.
Qed.

Lemma valid_cookie_host_lowercase host :
  valid_cookie_host host = true → to_ascii_lowercase host = host.
Proof.
  unfold valid_cookie_host. intros H. bool_prop. unfold to_ascii_lowercase.
  apply (inj bytes). rewrite bytes_str. rewrite <- (map_id (bytes host)) at 2.
  apply map_ext_in. intros c Hc.
  match goal with H : str_all _ host = true |- _ =>
    eapply str_all_true in H; [|by apply list_elem_of_In]; rename H into Hb end.
  unfold byte_to_lowercase. destruct (is_ascii_uppercase c) eqn:E; [|done]. exfalso.
  unfold is_ascii_lowercase, is_ascii_digit, is_ascii_uppercase, in_range in *. bool_prop.
  apply orb_prop in Hb as [[Hb|Hb]%orb_prop|Hb]; bool_prop; [lia..|].
  apply list_contains_elem in Hb.
  repeat (apply elem_of_cons in Hb as [->|Hb]; [vm_compute in *; done|]).
  by apply not_elem_of_nil in Hb.
Qed.

Lemma str_len_ge_1 s : str_is_empty s = false → 1 ≤ str_len s.
Proof. destruct s; [done|]. unfold str_len. simpl. lia. Qed.

Lemma CookieSecretRecord_new_Ok name value host path secure http_only expires_at c :
  CookieSecretRecord_new name value host path secure http_only expires_at = Ok c ↔
  c = mkCookieSecretRecord name value (to_ascii_lowercase host) path secure http_only expires_at ∧
  cookie_record_ok c.
Proof.
  unfold CookieSecretRecord_new, cookie_record_ok. split.
  - intros H. simplify_result. bool_prop. simpl. split_and!; try done. by apply str_len_ge_1.
  - intros [-> (Hn & [Hv1 Hv2] & Hh & Hp & Hs)]. simpl in *. rewrite Hn, Hh, Hs. simpl.
    destruct (str_is_empty value) eqn:E1; [apply str_is_empty_true in E1; subst; done|].
    destruct (str_is_empty path) eqn:E2; [apply str_is_empty_true in E2; subst; done|].
    destruct (_ >? _) eqn:E3; bool_prop; [lia|]. simpl.
    destruct (_ >? _) eqn:E4; bool_prop; [lia|]. done.
Qed.

Lemma CookieCredentialSecret_new_Ok cookies s :
  CookieCredentialSecret_new cookies = Ok s ↔
  s = mkCookieCredentialSecret cookies ∧ 1 ≤ zlen cookies ≤ MAX_COOKIES ∧
  NoDup (cookie_identity <$> cookies).
Proof.
  unfold CookieCredentialSecret_new. split.
  - intros H. simplify_result. bool_prop. split; [done|]. split.
    + destruct cookies; [done|]. unfold zlen in *. simpl in *. lia.
    + by apply any_duplicate_false in Hguard0 as [? _].
  - intros (-> & Hlen & Hn).
    destruct ((length cookies =? 0)%nat) eqn:E1.
    { apply Nat.eqb_eq in E1. unfold zlen in Hlen. lia. }
    destruct (_ >? _) eqn:E2; bool_prop; [lia|]. simpl.
    replace (any_duplicate ∅ cookies) with false; [done|].
    symmetry. apply any_duplicate_false. split; [done|]. intros c _. apply not_elem_of_empty.
Qed.

Section payload_lemmas.
Context {J : SecretJson} `{!SecretJsonLaws J}.

Lemma decode_encode_cookie secret plaintext :
  cookie_secret_ok secret → encode_cookie secret = Ok plaintext →
  decode_secret Cookie plaintext = Ok (mkCredentialSecretGuard (SecretCookie secret)).
Proof.
  intros (Hlen & Hall & Hn) Henc. unfold encode_cookie, encode_payload in Henc.
  simplify_result. unfold decode_secret. erewrite secret_roundtrip by done. simpl.
  destruct secret as [cookies]. simpl in *.
  set (payloads := _ <$> cookies).
  assert (mapM record_of_payload payloads = Ok cookies) as ->.
  { apply mapM_Ok. subst payloads. clear -Hall. induction Hall as [|c cookies Hc _ IH]; [constructor|].
    rewrite fmap_cons. constructor; [|done]. unfold record_of_payload. simpl.
    apply CookieSecretRecord_new_Ok. split; [|done]. destruct Hc as (_ & _ & Hh & _).
    rewrite valid_cookie_host_lowercase by done. by destruct c. }
  simpl. replace (CookieCredentialSecret_new cookies) with
    (Ok (E := SecretPayloadError) (mkCookieCredentialSecret cookies)); [done|].
  symmetry. by apply CookieCredentialSecret_new_Ok.
Qed.

Lemma decode_encode_token secret plaintext :
  1 ≤ str_len (TokenCredentialSecret_value secret) ≤ MAX_TOKEN_BYTES →
  encode_token secret = Ok plaintext →
  decode_secret Token plaintext = Ok (mkCredentialSecretGuard (SecretToken secret)).
Proof.
  intros Hlen Henc. unfold encode_token, encode_payload in Henc. simplify_result.
  unfold decode_secret. erewrite secret_roundtrip by done. simpl.
  unfold TokenCredentialSecret_bearer. destruct secret as [value]. simpl in *.
  destruct (str_is_empty value) eqn:E1.
  { apply str_is_empty_true in E1. subst. unfold str_len in Hlen. simpl in Hlen. lia. }
  by destruct (_ >? _) eqn:E2; bool_prop; [lia|].
Qed.
End payload_lemmas.

(** ** Properties *)

(** Every decoded secret is well formed and of the requested kind: a cookie
    secret has 1 to 128 valid cookies with distinct names, hosts and paths; a
    token is non-empty and at most 16 KiB.  No payload of the other kind or of
    another version is accepted. *)
Theorem decode_secret_sound `{SecretJson} kind plaintext guard :
  decode_secret kind plaintext = Ok guard →
  match kind, CredentialSecretGuard_secret guard with
  | Cookie, SecretCookie secret => cookie_secret_ok secret
  | Token, SecretToken secret => 1 ≤ str_len (TokenCredentialSecret_value secret) ≤ MAX_TOKEN_BYTES
  | _, _ => False
  end.
Proof.
  unfold decode_secret. intros Hd. apply bind_Ok in Hd as (payload & _ & Hd).
  destruct kind, payload as [version cookies|version scheme value]; try done.
  - apply bind_Ok in Hd as (_ & _ & Hd). apply bind_Ok in Hd as (records & Hm & Hd).
    apply bind_Ok in Hd as (secret & Hs & Hd). injection Hd as <-. simpl.
    apply CookieCredentialSecret_new_Ok in Hs as (-> & Hlen & Hn).
    split; [done|]. split; [|done].
    apply mapM_Ok in Hm. simpl. clear -Hm. induction Hm as [|p c ps cs Hc _ IH]; [constructor|].
    constructor; [|done]. by apply CookieSecretRecord_new_Ok in Hc as [_ ?].
  - apply bind_Ok in Hd as (_ & _ & Hd). destruct (negb _); [done|].
    apply bind_Ok in Hd as (secret & Hs & Hd). injection Hd as <-. simpl.
    unfold TokenCredentialSecret_bearer in Hs. simplify_result. bool_prop. simpl.
    split; [by apply str_len_ge_1|done].
Qed.

(** What the vault encrypts is what it gives back: encoding a well-formed
    secret and decoding the payload for the same kind returns it unchanged, and
    for the other kind is refused. *)
Theorem secret_payload_roundtrip `{J : SecretJson} `{!SecretJsonLaws J} :
  (∀ secret plaintext, cookie_secret_ok secret → encode_cookie secret = Ok plaintext →
     decode_secret Cookie plaintext = Ok (mkCredentialSecretGuard (SecretCookie secret)) ∧
     decode_secret Token plaintext = Err SecretKindMismatch) ∧
  (∀ secret plaintext, 1 ≤ str_len (TokenCredentialSecret_value secret) ≤ MAX_TOKEN_BYTES →
     encode_token secret = Ok plaintext →
     decode_secret Token plaintext = Ok (mkCredentialSecretGuard (SecretToken secret)) ∧
     decode_secret Cookie plaintext = Err SecretKindMismatch).
Proof.
  split; intros secret plaintext Hok Henc; (split;
    [first [by apply decode_encode_cookie|by apply decode_encode_token]|]);
    unfold encode_cookie, encode_token, encode_payload in Henc; simplify_result;
    unfold decode_secret; by erewrite secret_roundtrip by done.
Qed.
