(* ===== verification/CookieJar.v ===== *)
(** * Temporary cookie jars (crates/audiodown-network-proxy/src/cookie_jar.rs)

    Login and refresh flows keep the cookies a platform sets in short-lived
    sessions, each bound to one plugin, platform, scope and set of origins.  The
    sessions are one map behind a mutex: an operation is a function of the state
    that returns a result and the new state.  The clock an operation reads is
    its argument; the cookie crates are the interface [CookieLib]. *)

From stdpp Require Import pretty.
From S2P Require Import Prelude Text Domain Foreign CredentialContract CredentialSecret.

Definition second : time := 1000000000.
Definition MAX_SESSIONS : Z := 64.
Definition MAX_SESSION_TTL : time := 10 * 60 * second.
Definition MAX_JAR_COOKIES : Z := 128.
Definition MAX_COOKIE_HEADER_BYTES : Z := 16 * 1024.
Definition MAX_PLATFORM_ID_BYTES : Z := 64.

Inductive CookieJarError :=
| JarInvalidBinding | JarCapacityReached | JarNotFound | JarExpired | JarBindingMismatch
| JarPurposeMismatch | JarOriginDenied | JarInvalidCookie | JarHeaderTooLarge | JarBusy
| JarUnavailable.
Global Instance CookieJarError_eq_dec : EqDecision CookieJarError.
Proof. solve_decision. Defined.

(** ** Session ids *)

Record CookieJarSessionId := mkCookieJarSessionId { CookieJarSessionId_as_uuid : Uuid }.
Global Instance CookieJarSessionId_eq_dec : EqDecision CookieJarSessionId.
Proof. solve_decision. Defined.
Global Instance CookieJarSessionId_countable : Countable CookieJarSessionId :=
  inj_countable' CookieJarSessionId_as_uuid mkCookieJarSessionId
    (λ '(mkCookieJarSessionId _), eq_refl).

Inductive CookieJarSessionIdParseError := SessionIdInvalid.

(** [Uuid::parse_str] and [Uuid::to_string] are arguments. *)
Definition CookieJarSessionId_parse (uuid_parse_str : string → option Uuid)
    (uuid_to_string : Uuid → string) (value : string) :
    result CookieJarSessionIdParseError CookieJarSessionId :=
  parsed ← ok_or (uuid_parse_str value) SessionIdInvalid;
  if negb (eqb (uuid_to_string parsed) value) then Err SessionIdInvalid
  else Ok (mkCookieJarSessionId parsed).

(** ** Bindings *)

Inductive CookieJarPurposeKind := KindLogin | KindRefresh.
Global Instance CookieJarPurposeKind_eq_dec : EqDecision CookieJarPurposeKind.
Proof. solve_decision. Defined.

Inductive CookieJarPurpose :=
| PurposeLogin
| PurposeRefresh (credential_id : CredentialId) (expected_revision : Z).
Global Instance CookieJarPurpose_eq_dec : EqDecision CookieJarPurpose.
Proof. solve_decision. Defined.

Record CookieJarBinding := mkCookieJarBinding {
  CookieJarBinding_plugin_id : PluginId;
  CookieJarBinding_manifest_hash : option string;
  CookieJarBinding_platform_id : string;
  CookieJarBinding_scope : CredentialScope;
  CookieJarBinding_target_origins : list CredentialTargetOrigin;
  CookieJarBinding_purpose_of : CookieJarPurpose;
}.
Global Instance CookieJarBinding_eq_dec : EqDecision CookieJarBinding.
Proof. solve_decision. Defined.

Definition CookieJarBinding_with_manifest_hash (self : CookieJarBinding)
    (manifest_hash : string) : CookieJarBinding := {|
  CookieJarBinding_plugin_id := CookieJarBinding_plugin_id self;
  CookieJarBinding_manifest_hash := Some manifest_hash;
  CookieJarBinding_platform_id := CookieJarBinding_platform_id self;
  CookieJarBinding_scope := CookieJarBinding_scope self;
  CookieJarBinding_target_origins := CookieJarBinding_target_origins self;
  CookieJarBinding_purpose_of := CookieJarBinding_purpose_of self;
|}.

Definition CookieJarBinding_purpose (self : CookieJarBinding) : CookieJarPurposeKind :=
  match CookieJarBinding_purpose_of self with
  | PurposeLogin => KindLogin
  | PurposeRefresh _ _ => KindRefresh
  end.

Definition CookieJarBinding_refresh_identity (self : CookieJarBinding) :
    option (CredentialId * Z) :=
  match CookieJarBinding_purpose_of self with
  | PurposeLogin => None
  | PurposeRefresh credential_id expected_revision => Some (credential_id, expected_revision)
  end.

Definition origin_cmp : CredentialTargetOrigin → CredentialTargetOrigin → comparison :=
  cmp_on CredentialTargetOrigin_as_str String.compare.

Section bindings.
Context {U : UrlLib}.

Definition normalize_origins (origins : list CredentialTargetOrigin) :
    result CookieJarError (list CredentialTargetOrigin) :=
  if (length origins =? 0)%nat || (zlen origins >? 16) then Err JarInvalidBinding
  else
    parsed ← mapM (λ origin,
      map_err (λ _, JarInvalidBinding)
        (CredentialTargetOrigin_parse (CredentialTargetOrigin_as_str origin))) origins;
    let normalized := dedup (sort_by origin_cmp parsed) in
    if (length normalized =? 0)%nat then Err JarInvalidBinding else Ok normalized.

Definition CookieJarBinding_new (plugin_id : PluginId) (platform_id : string)
    (scope : CredentialScope) (target_origins : list CredentialTargetOrigin)
    (purpose : CookieJarPurpose) : result CookieJarError CookieJarBinding :=
  if str_is_empty platform_id
     || (str_len platform_id >? MAX_PLATFORM_ID_BYTES)
     || negb (str_all (λ byte, is_ascii_lowercase byte || is_ascii_digit byte
                               || eqb byte "-"%char) platform_id)
  then Err JarInvalidBinding
  else
    target_origins ← normalize_origins target_origins;
    Ok (mkCookieJarBinding plugin_id None platform_id scope target_origins purpose).

Definition CookieJarBinding_login (plugin_id : PluginId) (platform_id : string)
    (scope : CredentialScope) (target_origins : list CredentialTargetOrigin) :
    result CookieJarError CookieJarBinding :=
  CookieJarBinding_new plugin_id platform_id scope target_origins PurposeLogin.

Definition CookieJarBinding_refresh (plugin_id : PluginId) (platform_id : string)
    (scope : CredentialScope) (target_origins : list CredentialTargetOrigin)
    (credential_id : CredentialId) (expected_revision : Z) :
    result CookieJarError CookieJarBinding :=
  if expected_revision =? 0 then Err JarInvalidBinding
  else CookieJarBinding_new plugin_id platform_id scope target_origins
         (PurposeRefresh credential_id expected_revision).
End bindings.

(** ** Sessions *)

Inductive SessionState := SessionActive | SessionCommitting.
Global Instance SessionState_eq_dec : EqDecision SessionState.
Proof. solve_decision. Defined.

(** The two clocks of the code: [Instant::now] and [Utc::now]. *)
Record Clock := mkClock { instant_now : time; utc_now : time }.

Section jars.
Context {U : UrlLib} {H : HeaderLib} {C : CookieLib}.

Record CookieJarSession := mkCookieJarSession {
  session_binding : CookieJarBinding;
  session_expires_at : time;
  session_store : CookieStore;
  session_state : SessionState;
}.

(** The map behind the mutex, and whether a holder panicked. *)
Record TemporaryCookieJars := mkTemporaryCookieJars {
  jars_sessions : gmap CookieJarSessionId CookieJarSession;
  jars_poisoned : bool;
}.

Definition TemporaryCookieJars_new : TemporaryCookieJars := mkTemporaryCookieJars ∅ false.

Record PromotionSnapshot := mkPromotionSnapshot {
  PromotionSnapshot_target_origins : list CredentialTargetOrigin;
  PromotionSnapshot_secret : CookieCredentialSecret;
}.

Record RefreshCommitSnapshot := mkRefreshCommitSnapshot {
  RefreshCommitSnapshot_credential_id : CredentialId;
  RefreshCommitSnapshot_expected_revision : Z;
  RefreshCommitSnapshot_target_origins : list CredentialTargetOrigin;
  RefreshCommitSnapshot_secret : CookieCredentialSecret;
}.

(** *** The jar monad *)

Definition Jar (A : Type) : Type :=
  TemporaryCookieJars → result CookieJarError A * TemporaryCookieJars.

Global Instance Jar_ret : MRet Jar := λ A a s, (Ok a, s).
Global Instance Jar_bind : MBind Jar := λ A B f m s,
  match m s with
  | (Ok a, s) => f a s
  | (Err e, s) => (Err e, s)
  end.

Definition jar_lift {A} (r : result CookieJarError A) : Jar A := λ s, (r, s).

Definition set_sessions (sessions : gmap CookieJarSessionId CookieJarSession) : Jar unit := λ s,
  (Ok tt, mkTemporaryCookieJars sessions (jars_poisoned s)).

Definition lock_sessions : Jar (gmap CookieJarSessionId CookieJarSession) := λ s,
  if jars_poisoned s then (Err JarUnavailable, s) else (Ok (jars_sessions s), s).

(** *** Helpers *)

(** The session of an id; an expired one is removed on the way. *)
Definition live_session (clock : Clock) (id : CookieJarSessionId) : Jar CookieJarSession :=
  sessions ← lock_sessions;
  match sessions !! id with
  | None => jar_lift (Err JarNotFound)
  | Some session =>
      if session_expires_at session <=? instant_now clock then
        _ ← set_sessions (delete id sessions);
        jar_lift (Err JarExpired)
      else mret session
  end.

Definition ensure_binding (session : CookieJarSession) (binding : CookieJarBinding) :
    result CookieJarError unit :=
  if eqb (session_binding session) binding then Ok tt else Err JarBindingMismatch.

Definition ensure_active (session : CookieJarSession) : result CookieJarError unit :=
  if eqb (session_state session) SessionActive then Ok tt else Err JarBusy.

Definition ensure_origin (binding : CookieJarBinding) (url : Url) : result CookieJarError unit :=
  origin ← map_err (λ _, JarOriginDenied) (CredentialTargetOrigin_parse (Url_origin url));
  if existsb (λ allowed, eqb allowed origin) (CookieJarBinding_target_origins binding)
  then Ok tt else Err JarOriginDenied.

(** [name=value] pairs joined by ["; "], bounded after every pair. *)
Fixpoint push_cookies (maximum : Z) (value : string) (cookies : list (string * string)) :
    option string :=
  match cookies with
  | [] => Some value
  | (name, cookie_value) :: cookies =>
      let value := (if str_is_empty value then value else value +:+ "; ")
                     +:+ name +:+ "=" +:+ cookie_value in
      if str_len value >? maximum then None else push_cookies maximum value cookies
  end.

(** Longest path first, then domain, path and name. *)
Definition stored_cookie_cmp : StoredCookie → StoredCookie → comparison :=
  cmp_then (cmp_rev (cmp_on (str_len ∘ StoredCookie_path) Z.compare))
    (cmp_then (cmp_on StoredCookie_domain CookieDomain_cmp)
       (cmp_then (cmp_on StoredCookie_path String.compare)
          (cmp_on StoredCookie_name String.compare))).

Definition store_cookie_header (clock : Clock) (store : CookieStore) (request_url : Url) :
    result CookieJarError (option HeaderValue) :=
  let matches := sort_by stored_cookie_cmp (CookieStore_matches (utc_now clock) store request_url) in
  if zlen matches >? MAX_JAR_COOKIES then Err JarHeaderTooLarge
  else
    value ← ok_or (push_cookies MAX_COOKIE_HEADER_BYTES ""
      ((λ cookie, (StoredCookie_name cookie, StoredCookie_value cookie)) <$> matches))
      JarHeaderTooLarge;
    if str_is_empty value then Ok None
    else Some <$> ok_or (HeaderValue_from_str value) JarInvalidCookie.

Definition reject_public_suffix (raw : RawCookie) : result CookieJarError unit :=
  match RawCookie_domain raw with
  | None => Ok tt
  | Some domain =>
      let domain := to_ascii_lowercase (trim_start_matches "."%char domain) in
      canonical ← ok_or (url ← Url_parse ("https://" +:+ domain +:+ "/"); Url_host_str url)
                    JarInvalidCookie;
      if is_some_and (λ suffix, eqb suffix canonical) (psl_suffix canonical)
      then Err JarInvalidCookie else Ok tt
  end.

Definition cookie_secret_markers (raw : RawCookie) : list (list byte) :=
  let value := RawCookie_value raw in
  let trimmed := RawCookie_value_trimmed raw in
  (if negb (str_is_empty value)
   then [bytes value; bytes (RawCookie_name raw) ++ "="%char :: bytes value] else [])
  ++ (if negb (str_is_empty trimmed) && negb (eqb trimmed value) then [bytes trimmed] else []).

Fixpoint store_limits_loop (count total : Z) (cookies : list StoredCookie) :
    result CookieJarError (Z * Z) :=
  match cookies with
  | [] => Ok (count, total)
  | cookie :: cookies =>
      count ← ok_or (checked_add count 1) JarHeaderTooLarge;
      total ← ok_or (total ← checked_add total (str_len (StoredCookie_name cookie));
                     total ← checked_add total (str_len (StoredCookie_value cookie));
                     checked_add total (str_len (StoredCookie_path cookie))) JarHeaderTooLarge;
      store_limits_loop count total cookies
  end.

Definition enforce_store_limits (clock : Clock) (store : CookieStore) :
    result CookieJarError unit :=
  '(count, total) ← store_limits_loop 0 0 (CookieStore_iter_unexpired (utc_now clock) store);
  if (count >? MAX_JAR_COOKIES) || (total >? MAX_COOKIE_HEADER_BYTES * 2)
  then Err JarHeaderTooLarge else Ok tt.

Definition map_secret_error (error : SecretPayloadError) : CookieJarError := JarInvalidCookie.

Definition selected_urls (selected_origins : list CredentialTargetOrigin) : list Url :=
  omap (λ origin, Url_parse (CredentialTargetOrigin_as_str origin)) selected_origins.

(** The records of one cookie: one per selected host it is sent to. *)
Definition snapshot_cookie (urls : list Url) (cookie : StoredCookie) :
    result CookieJarError (list CookieSecretRecord) :=
  let secure := default false (StoredCookie_secure cookie) in
  let exact_hosts := dedup (sort_by String.compare
    (omap (λ origin, to_ascii_lowercase <$> Url_host_str origin)
       (List.filter (λ origin, CookieDomain_matches (StoredCookie_domain cookie) origin
                               && (negb secure || eqb (Url_scheme origin) "https")) urls))) in
  if (length exact_hosts =? 0)%nat then Err JarOriginDenied
  else
    let expires_at := (expires ← StoredCookie_expires cookie; from_timestamp expires) in
    mapM (λ host,
      map_err map_secret_error
        (CookieSecretRecord_new (StoredCookie_name cookie) (StoredCookie_value cookie) host
           (StoredCookie_path cookie) secure (default false (StoredCookie_http_only cookie))
           expires_at)) exact_hosts.

Definition snapshot_secret (clock : Clock) (store : CookieStore)
    (selected_origins : list CredentialTargetOrigin) :
    result CookieJarError CookieCredentialSecret :=
  cookies ← mapM (snapshot_cookie (selected_urls selected_origins))
              (CookieStore_iter_unexpired (utc_now clock) store);
  map_err map_secret_error (CookieCredentialSecret_new (concat cookies)).

Definition num_seconds (d : time) : Z := Z.quot d second.

Definition seeded_raw_cookie (clock : Clock) (cookie : CookieSecretRecord) (value : string) :
    result CookieJarError RawCookie :=
  let encoded := CookieSecretRecord_name cookie +:+ "=" +:+ value +:+ "; Path="
                   +:+ CookieSecretRecord_path cookie in
  let encoded := if CookieSecretRecord_secure cookie then encoded +:+ "; Secure" else encoded in
  let encoded :=
    if CookieSecretRecord_http_only cookie then encoded +:+ "; HttpOnly" else encoded in
  encoded ← match CookieSecretRecord_expires_at cookie with
            | Some expires_at =>
                let seconds := num_seconds (expires_at - utc_now clock) in
                if seconds <=? 0 then Err JarExpired
                else Ok (encoded +:+ "; Max-Age=" +:+ pretty (Z.to_N seconds))
            | None => Ok encoded
            end;
  raw ← ok_or (RawCookie_parse encoded) JarInvalidCookie;
  if negb (eqb (RawCookie_name raw) (CookieSecretRecord_name cookie))
     || negb (eqb (RawCookie_value raw) value)
  then Err JarInvalidCookie else Ok raw.

(** *** Operations *)

(** The first of the drawn ids that is not in use ([Uuid::new_v4] in a loop);
    see [fresh_id_found] for why the draws suffice. *)
Definition fresh_id (draws : list Uuid)
    (sessions : gmap CookieJarSessionId CookieJarSession) : option CookieJarSessionId :=
  mkCookieJarSessionId <$>
    List.find (λ id, is_none (sessions !! mkCookieJarSessionId id)) draws.

Definition create_with_store (clock : Clock) (draws : list Uuid) (binding : CookieJarBinding)
    (ttl : time) (store : CookieStore) : Jar CookieJarSessionId :=
  if ttl >? MAX_SESSION_TTL then jar_lift (Err JarInvalidBinding)
  else
    sessions ← lock_sessions;
    let now := instant_now clock in
    let sessions := filter (λ '(_, session), session_expires_at session > now) sessions in
    _ ← set_sessions sessions;
    if Z.of_nat (size sessions) >=? MAX_SESSIONS then jar_lift (Err JarCapacityReached)
    else
      id ← jar_lift (ok_or (fresh_id draws sessions) JarUnavailable);
      _ ← set_sessions (<[id := mkCookieJarSession binding (now + ttl) store SessionActive]>
                          sessions);
      mret id.

Definition jar_create (clock : Clock) (draws : list Uuid) (binding : CookieJarBinding)
    (ttl : time) : Jar CookieJarSessionId :=
  create_with_store clock draws binding ttl CookieStore_default.

(** The cookies of a stored secret, put into a fresh store. *)
Fixpoint seed_store (clock : Clock) (binding : CookieJarBinding)
    (cookies : list CookieSecretRecord) (store : CookieStore) :
    result CookieJarError CookieStore :=
  match cookies with
  | [] => Ok store
  | cookie :: cookies =>
      if is_some_and (λ expires_at, expires_at <=? utc_now clock)
           (CookieSecretRecord_expires_at cookie)
      then seed_store clock binding cookies store
      else
        origin ← ok_or (List.find (λ origin,
            is_some_and (λ host, eq_ignore_ascii_case host (CookieSecretRecord_host cookie))
              (Url_host_str origin)
            && (negb (CookieSecretRecord_secure cookie) || eqb (Url_scheme origin) "https"))
          (selected_urls (CookieJarBinding_target_origins binding))) JarOriginDenied;
        raw ← seeded_raw_cookie clock cookie (CookieSecretRecord_value cookie);
        match CookieStore_insert_raw (utc_now clock) raw origin store with
        | (Ok _, store) => seed_store clock binding cookies store
        | (Err _, _) => Err JarInvalidCookie
        end
  end.

Definition create_seeded (clock : Clock) (draws : list Uuid) (binding : CookieJarBinding)
    (ttl : time) (secret : CookieCredentialSecret) : Jar CookieJarSessionId :=
  store ← jar_lift (seed_store clock binding (CookieCredentialSecret_cookies secret)
                      CookieStore_default);
  _ ← jar_lift (enforce_store_limits clock store);
  create_with_store clock draws binding ttl store.

Definition jar_cancel (clock : Clock) (id : CookieJarSessionId) (binding : CookieJarBinding) :
    Jar unit :=
  session ← live_session clock id;
  _ ← jar_lift (ensure_binding session binding);
  sessions ← lock_sessions;
  set_sessions (delete id sessions).

(** The [Set-Cookie] loop: the store and the secret markers so far. *)
Fixpoint capture_loop (clock : Clock) (response_url : Url) (values : list HeaderValue)
    (store : CookieStore) (markers : list (list byte)) :
    result CookieJarError (CookieStore * list (list byte)) :=
  match values with
  | [] => Ok (store, markers)
  | value :: values =>
      value ← ok_or (HeaderValue_to_str value) JarInvalidCookie;
      raw ← ok_or (RawCookie_parse value) JarInvalidCookie;
      if str_is_empty (RawCookie_name raw) then Err JarInvalidCookie
      else
        reject_public_suffix raw;;
        match CookieStore_insert_raw (utc_now clock) raw response_url store with
        | (Ok _, store) | (Err CookieExpired, store) =>
            capture_loop clock response_url values store (markers ++ cookie_secret_markers raw)
        | (Err _, _) => Err JarInvalidCookie
        end
  end.

Definition capture_response_with_markers (clock : Clock) (id : CookieJarSessionId)
    (binding : CookieJarBinding) (response_url : Url) (headers : HeaderMap) :
    Jar (list (list byte)) :=
  session ← live_session clock id;
  _ ← jar_lift (ensure_binding session binding);
  _ ← jar_lift (ensure_active session);
  _ ← jar_lift (ensure_origin binding response_url);
  '(updated, markers) ← jar_lift (capture_loop clock response_url
      (HeaderMap_get_all headers "set-cookie") (session_store session) []);
  _ ← jar_lift (enforce_store_limits clock updated);
  sessions ← lock_sessions;
  _ ← set_sessions (<[id := mkCookieJarSession (session_binding session)
                              (session_expires_at session) updated (session_state session)]>
                      sessions);
  mret markers.

Definition capture_response (clock : Clock) (id : CookieJarSessionId)
    (binding : CookieJarBinding) (response_url : Url) (headers : HeaderMap) : Jar unit :=
  _ ← capture_response_with_markers clock id binding response_url headers; mret tt.

Definition jar_cookie_header (clock : Clock) (id : CookieJarSessionId)
    (binding : CookieJarBinding) (request_url : Url) : Jar (option HeaderValue) :=
  session ← live_session clock id;
  _ ← jar_lift (ensure_binding session binding);
  _ ← jar_lift (ensure_active session);
  _ ← jar_lift (ensure_origin binding request_url);
  jar_lift (store_cookie_header clock (session_store session) request_url).

Definition origins_outside (selected : list CredentialTargetOrigin) (binding : CookieJarBinding) :
    bool :=
  existsb (λ origin, negb (list_contains (CookieJarBinding_target_origins binding) origin))
    selected.

Definition jar_promotion_snapshot (clock : Clock) (id : CookieJarSessionId)
    (binding : CookieJarBinding) (selected_origins : list CredentialTargetOrigin) :
    Jar PromotionSnapshot :=
  if negb (eqb (CookieJarBinding_purpose binding) KindLogin)
  then jar_lift (Err JarPurposeMismatch)
  else
    selected_origins ← jar_lift (normalize_origins selected_origins);
    if origins_outside selected_origins binding then jar_lift (Err JarOriginDenied)
    else
      session ← live_session clock id;
      _ ← jar_lift (ensure_binding session binding);
      _ ← jar_lift (ensure_active session);
      secret ← jar_lift (snapshot_secret clock (session_store session) selected_origins);
      mret (mkPromotionSnapshot selected_origins secret).

Definition jar_binding (clock : Clock) (id : CookieJarSessionId) : Jar CookieJarBinding :=
  session ← live_session clock id;
  _ ← jar_lift (ensure_active session);
  mret (session_binding session).

Definition begin_refresh_commit (clock : Clock) (id : CookieJarSessionId)
    (binding : CookieJarBinding) (selected_origins : list CredentialTargetOrigin) :
    Jar RefreshCommitSnapshot :=
  selected_origins ← jar_lift (normalize_origins selected_origins);
  if origins_outside selected_origins binding then jar_lift (Err JarOriginDenied)
  else
    session ← live_session clock id;
    _ ← jar_lift (ensure_binding session binding);
    _ ← jar_lift (ensure_active session);
    '(credential_id, expected_revision) ←
      jar_lift (ok_or (CookieJarBinding_refresh_identity binding) JarPurposeMismatch);
    secret ← jar_lift (snapshot_secret clock (session_store session) selected_origins);
    sessions ← lock_sessions;
    _ ← set_sessions (<[id := mkCookieJarSession (session_binding session)
                                (session_expires_at session) (session_store session)
                                SessionCommitting]> sessions);
    mret (mkRefreshCommitSnapshot credential_id expected_revision selected_origins secret).

Definition finish_refresh (id : CookieJarSessionId) (retryable : bool) : Jar unit :=
  sessions ← lock_sessions;
  match sessions !! id with
  | None => jar_lift (Err JarNotFound)
  | Some session =>
      if retryable then
        set_sessions (<[id := mkCookieJarSession (session_binding session)
                                (session_expires_at session) (session_store session)
                                SessionActive]> sessions)
      else set_sessions (delete id sessions)
  end.
End jars.
