(* ===== verification/CookieJarFacts.v ===== *)
(** * Properties of the cookie jars

    Every operation on an existing session is brought into one normal form,
    [session_call]; isolation, atomicity, the commit protocol and the invariants
    of the reachable states follow from it. *)

From S2P Require Import Prelude Text Domain Foreign CredentialContract CredentialSecret CookieJar.

Section jar_facts.
Context {U : UrlLib} {H : HeaderLib} {C : CookieLib}.

(** ** Normal form *)

(** What a successful call does to its session. *)
Inductive SessionUpdate :=
| Keep
| Replace (session : CookieJarSession)
| Remove.

Definition apply_update (id : CookieJarSessionId) (update : SessionUpdate)
    (s : TemporaryCookieJars) : TemporaryCookieJars :=
  match update with
  | Keep => s
  | Replace session => mkTemporaryCookieJars (<[id := session]> (jars_sessions s)) (jars_poisoned s)
  | Remove => mkTemporaryCookieJars (delete id (jars_sessions s)) (jars_poisoned s)
  end.

(** Look the session up, drop it when it has expired, and otherwise let [f]
    decide: a failure changes nothing. *)
Definition session_call {A} (clock : Clock) (id : CookieJarSessionId)
    (f : CookieJarSession → result CookieJarError (A * SessionUpdate)) : Jar A := λ s,
  if jars_poisoned s then (Err JarUnavailable, s)
  else
    match jars_sessions s !! id with
    | None => (Err JarNotFound, s)
    | Some session =>
        if session_expires_at session <=? instant_now clock
        then (Err JarExpired, apply_update id Remove s)
        else
          match f session with
          | Err e => (Err e, s)
          | Ok (a, update) => (Ok a, apply_update id update s)
          end
    end.

Definition with_store (session : CookieJarSession) (store : CookieStore) : CookieJarSession :=
  mkCookieJarSession (session_binding session) (session_expires_at session) store
    (session_state session).
Definition with_state (session : CookieJarSession) (state : SessionState) : CookieJarSession :=
  mkCookieJarSession (session_binding session) (session_expires_at session)
    (session_store session) state.

(** The checks that a call on behalf of a binding starts with. *)
Definition ensure_bound (binding : CookieJarBinding) (session : CookieJarSession) :
    result CookieJarError unit :=
  ensure_binding session binding;; ensure_active session.

(** The steps of a monadic operation, with the state made explicit. *)
Lemma jar_bind_eq {A B} (m : Jar A) (f : A → Jar B) s :
  (m ≫= f) s = match m s with (Ok a, s') => f a s' | (Err e, s') => (Err e, s') end.
Proof. done. Qed.

Lemma jar_lift_bind {A B} (r : result CookieJarError A) (f : A → Jar B) s :
  (jar_lift r ≫= f) s = match r with Ok a => f a s | Err e => (Err e, s) end.
Proof. by destruct r. Qed.

Lemma live_session_bind {A} clock id (f : CookieJarSession → Jar A)
    (g : CookieJarSession → result CookieJarError (A * SessionUpdate)) s :
  (∀ session, jars_poisoned s = false → f session s =
     match g session with
     | Err e => (Err e, s)
     | Ok (a, update) => (Ok a, apply_update id update s)
     end) →
  (live_session clock id ≫= f) s = session_call clock id g s.
Proof.
  intros Hf. rewrite jar_bind_eq. unfold live_session, session_call. rewrite jar_bind_eq.
  unfold lock_sessions. destruct (jars_poisoned s) eqn:Hp; [done|].
  destruct (jars_sessions s !! id) as [session|]; [|done].
  destruct (_ <=? _); [done|]. by apply Hf.
Qed.

Lemma lock_set_bind {A} (f : gmap CookieJarSessionId CookieJarSession →
    gmap CookieJarSessionId CookieJarSession) (a : A) s :
  jars_poisoned s = false →
  (sessions ← lock_sessions; _ ← set_sessions (f sessions); mret a) s =
  (Ok a, mkTemporaryCookieJars (f (jars_sessions s)) (jars_poisoned s)).
Proof.
  destruct s as [sessions poisoned]. simpl. by intros ->.
Qed.

Lemma jar_cancel_call clock id binding s :
  jar_cancel clock id binding s =
  session_call clock id (λ session, ensure_binding session binding;; Ok (tt, Remove)) s.
Proof.
  apply live_session_bind. intros session Hp. rewrite jar_lift_bind.
  destruct (ensure_binding session binding) as [[]|]; simpl; [|done].
  destruct s as [sessions poisoned]. simpl in Hp. by subst.
Qed.

Lemma jar_binding_call clock id s :
  jar_binding clock id s =
  session_call clock id (λ session, ensure_active session;; Ok (session_binding session, Keep)) s.
Proof.
  apply live_session_bind. intros session _. rewrite jar_lift_bind.
  by destruct (ensure_active session) as [[]|].
Qed.

Lemma jar_cookie_header_call clock id binding url s :
  jar_cookie_header clock id binding url s =
  session_call clock id (λ session,
    ensure_bound binding session;; ensure_origin binding url;;
    value ← store_cookie_header clock (session_store session) url; Ok (value, Keep)) s.
Proof.
  apply live_session_bind. intros session _. unfold ensure_bound. rewrite jar_lift_bind.
  destruct (ensure_binding session binding) as [[]|]; simpl; [|done]. rewrite jar_lift_bind.
  destruct (ensure_active session) as [[]|]; simpl; [|done]. rewrite jar_lift_bind.
  destruct (ensure_origin binding url) as [[]|]; simpl; [|done].
  unfold jar_lift. by destruct (store_cookie_header _ _ _).
Qed.

Lemma capture_response_call clock id binding url headers s :
  capture_response_with_markers clock id binding url headers s =
  session_call clock id (λ session,
    ensure_bound binding session;; ensure_origin binding url;;
    '(updated, markers) ← capture_loop clock url (HeaderMap_get_all headers "set-cookie")
                            (session_store session) [];
    enforce_store_limits clock updated;;
    Ok (markers, Replace (with_store session updated))) s.
Proof.
  apply live_session_bind. intros session Hp. unfold ensure_bound. rewrite jar_lift_bind.
  destruct (ensure_binding session binding) as [[]|]; simpl; [|done]. rewrite jar_lift_bind.
  destruct (ensure_active session) as [[]|]; simpl; [|done]. rewrite jar_lift_bind.
  destruct (ensure_origin binding url) as [[]|]; simpl; [|done]. rewrite jar_lift_bind.
  destruct (capture_loop _ _ _ _ _) as [[updated markers]|]; simpl; [|done].
  rewrite jar_lift_bind. destruct (enforce_store_limits clock updated) as [[]|]; simpl; [|done].
  by rewrite lock_set_bind.
Qed.

Lemma jar_promotion_snapshot_call clock id binding selected s :
  jar_promotion_snapshot clock id binding selected s =
  if negb (eqb (CookieJarBinding_purpose binding) KindLogin) then (Err JarPurposeMismatch, s)
  else
    match normalize_origins selected with
    | Err e => (Err e, s)
    | Ok origins =>
        if origins_outside origins binding then (Err JarOriginDenied, s)
        else session_call clock id (λ session,
          ensure_bound binding session;;
          secret ← snapshot_secret clock (session_store session) origins;
          Ok (mkPromotionSnapshot origins secret, Keep)) s
    end.
Proof.
  unfold jar_promotion_snapshot. destruct (negb _); [done|]. rewrite jar_lift_bind.
  destruct (normalize_origins selected) as [origins|]; [|done].
  destruct (origins_outside origins binding); [done|].
  apply live_session_bind. intros session _. unfold ensure_bound. rewrite jar_lift_bind.
  destruct (ensure_binding session binding) as [[]|]; simpl; [|done]. rewrite jar_lift_bind.
  destruct (ensure_active session) as [[]|]; simpl; [|done]. rewrite jar_lift_bind.
  by destruct (snapshot_secret _ _ _).
Qed.

Lemma begin_refresh_commit_call clock id binding selected s :
  begin_refresh_commit clock id binding selected s =
  match normalize_origins selected with
  | Err e => (Err e, s)
  | Ok origins =>
      if origins_outside origins binding then (Err JarOriginDenied, s)
      else session_call clock id (λ session,
        ensure_bound binding session;;
        identity ← ok_or (CookieJarBinding_refresh_identity binding) JarPurposeMismatch;
        secret ← snapshot_secret clock (session_store session) origins;
        Ok (mkRefreshCommitSnapshot identity.1 identity.2 origins secret,
            Replace (with_state session SessionCommitting))) s
  end.
Proof.
  unfold begin_refresh_commit. rewrite jar_lift_bind.
  destruct (normalize_origins selected) as [origins|]; [|done].
  destruct (origins_outside origins binding); [done|].
  apply live_session_bind. intros session Hp. unfold ensure_bound. rewrite jar_lift_bind.
  destruct (ensure_binding session binding) as [[]|]; simpl; [|done]. rewrite jar_lift_bind.
  destruct (ensure_active session) as [[]|]; simpl; [|done]. rewrite jar_lift_bind.
  destruct (CookieJarBinding_refresh_identity binding) as [[cid rev]|]; simpl; [|done].
  rewrite jar_lift_bind. destruct (snapshot_secret _ _ _); simpl; [|done].
  by rewrite lock_set_bind.
Qed.

(** The outcomes of a call. *)
Lemma session_call_cases {A} clock id
    (f : CookieJarSession → result CookieJarError (A * SessionUpdate)) s r s' :
  session_call clock id f s = (r, s') →
  (∃ e, r = Err e ∧ s' = s) ∨
  (∃ session, jars_sessions s !! id = Some session ∧
     session_expires_at session ≤ instant_now clock ∧
     r = Err JarExpired ∧ s' = apply_update id Remove s) ∨
  (∃ session a update, jars_sessions s !! id = Some session ∧
     instant_now clock < session_expires_at session ∧ f session = Ok (a, update) ∧
     r = Ok a ∧ s' = apply_update id update s).
Proof.
  unfold session_call. destruct (jars_poisoned s); [intros [= <- <-]; by eauto|].
  destruct (jars_sessions s !! id) as [session|]; [|intros [= <- <-]; by eauto].
  destruct (_ <=? _) eqn:E; bool_prop.
  { intros [= <- <-]. right. left. eauto. }
  destruct (f session) as [[a update]|e] eqn:F; intros [= <- <-]; [|by eauto].
  right. right. exists session, a, update. by split_and!.
Qed.

Lemma apply_update_other id update s id' :
  id' ≠ id → jars_sessions (apply_update id update s) !! id' = jars_sessions s !! id'.
Proof.
  intros Hne. destruct update; simpl; [done| |].
  - by rewrite lookup_insert_ne.
  - by rewrite lookup_delete_ne.
Qed.

Lemma session_call_other {A} clock id
    (f : CookieJarSession → result CookieJarError (A * SessionUpdate)) s id' :
  id' ≠ id →
  jars_sessions (session_call clock id f s).2 !! id' = jars_sessions s !! id'.
Proof.
  intros Hne. destruct (session_call clock id f s) as [r s'] eqn:E. simpl.
  apply session_call_cases in E as [(e & _ & ->)|[(x & _ & _ & _ & ->)|(x & a & u & _ & _ & _ & _ & ->)]];
    [done|by apply apply_update_other..].
Qed.

(** ** Operations as data *)

Inductive JarOp :=
| OpCreate (draws : list Uuid) (binding : CookieJarBinding) (ttl : time)
| OpCreateSeeded (draws : list Uuid) (binding : CookieJarBinding) (ttl : time)
    (secret : CookieCredentialSecret)
| OpCancel (id : CookieJarSessionId) (binding : CookieJarBinding)
| OpCapture (id : CookieJarSessionId) (binding : CookieJarBinding) (url : Url)
    (headers : HeaderMap)
| OpCookieHeader (id : CookieJarSessionId) (binding : CookieJarBinding) (url : Url)
| OpPromotion (id : CookieJarSessionId) (binding : CookieJarBinding)
    (selected : list CredentialTargetOrigin)
| OpBinding (id : CookieJarSessionId)
| OpBegin (id : CookieJarSessionId) (binding : CookieJarBinding)
    (selected : list CredentialTargetOrigin)
| OpFinish (id : CookieJarSessionId) (retryable : bool).

Definition run_op (clock : Clock) (op : JarOp) (s : TemporaryCookieJars) : TemporaryCookieJars :=
  match op with
  | OpCreate draws binding ttl => (jar_create clock draws binding ttl s).2
  | OpCreateSeeded draws binding ttl secret =>
      (create_seeded clock draws binding ttl secret s).2
  | OpCancel id binding => (jar_cancel clock id binding s).2
  | OpCapture id binding url headers =>
      (capture_response_with_markers clock id binding url headers s).2
  | OpCookieHeader id binding url => (jar_cookie_header clock id binding url s).2
  | OpPromotion id binding selected => (jar_promotion_snapshot clock id binding selected s).2
  | OpBinding id => (jar_binding clock id s).2
  | OpBegin id binding selected => (begin_refresh_commit clock id binding selected s).2
  | OpFinish id retryable => (finish_refresh id retryable s).2
  end.

(** ** Bindings the constructors build *)

Definition binding_ok (b : CookieJarBinding) : Prop :=
  1 ≤ str_len (CookieJarBinding_platform_id b) ≤ MAX_PLATFORM_ID_BYTES ∧
  str_all (λ byte, is_ascii_lowercase byte || is_ascii_digit byte || eqb byte "-"%char)
    (CookieJarBinding_platform_id b) = true ∧
  1 ≤ zlen (CookieJarBinding_target_origins b) ≤ 16 ∧
  StronglySorted (cmp_lt origin_cmp) (CookieJarBinding_target_origins b) ∧
  match CookieJarBinding_purpose_of b with
  | PurposeLogin => True
  | PurposeRefresh _ revision => revision ≠ 0
  end.

Global Instance origin_cmp_preorder : CmpPreorder origin_cmp.
Proof. unfold origin_cmp. apply _. Qed.
Global Instance origin_cmp_strict : CmpStrict origin_cmp.
Proof. intros [a] [b] He. apply (cmp_eq String.compare) in He. simpl in He. by subst. Qed.

Lemma length_dedup {A} `{EqDecision A} (l : list A) : (length (dedup l) ≤ length l)%nat.
Proof.
  induction l as [|x [|y l] IH]; [done..|]. rewrite dedup_cons2.
  destruct (decide (x = y)); simpl in *; lia.
Qed.

Lemma normalize_origins_Ok origins normalized :
  normalize_origins origins = Ok normalized →
  1 ≤ zlen normalized ≤ 16 ∧ StronglySorted (cmp_lt origin_cmp) normalized ∧
  ∀ o, o ∈ normalized ↔ ∃ o', o' ∈ origins ∧
    CredentialTargetOrigin_parse (CredentialTargetOrigin_as_str o') = Ok o.
Proof.
  unfold normalize_origins. intros Hn. simplify_result. bool_prop.
  match goal with Hm : mapM _ origins = Ok ?p |- _ => rename p into parsed; apply mapM_Ok in Hm;
    rename Hm into Hmap end.
  set (normalized := dedup (sort_by origin_cmp parsed)) in *. split_and!.
  - destruct normalized; [done|]. unfold zlen. simpl. lia.
  - pose proof (length_dedup (sort_by origin_cmp parsed)) as Hl. fold normalized in Hl.
    rewrite (Permutation_length (sort_by_perm origin_cmp parsed)) in Hl.
    apply Forall2_length in Hmap. unfold zlen in *. lia.
  - apply sort_dedup_strict; apply _.
  - intros o. subst normalized. rewrite elem_of_sort_dedup by apply _.
    split.
    + intros Ho. apply list_elem_of_lookup in Ho as [i Hi].
      eapply Forall2_lookup_r in Hmap as (o' & Ho' & Hp); [|done]. apply map_err_Ok in Hp.
      exists o'. split; [by eapply list_elem_of_lookup_2|done].
    + intros (o' & Ho' & Hp). apply list_elem_of_lookup in Ho' as [i Hi].
      eapply Forall2_lookup_l in Hmap as (o2 & Ho2 & Hp2); [|done]. apply map_err_Ok in Hp2.
      rewrite Hp in Hp2. injection Hp2 as <-. by eapply list_elem_of_lookup_2.
Qed.

Lemma CookieJarBinding_new_ok plugin_id platform_id scope origins purpose b :
  match purpose with PurposeLogin => True | PurposeRefresh _ revision => revision ≠ 0 end →
  CookieJarBinding_new plugin_id platform_id scope origins purpose = Ok b → binding_ok b.
Proof.
  intros Hp. unfold CookieJarBinding_new. intros Hn. simplify_result. bool_prop.
  match goal with Ho : normalize_origins _ = Ok _ |- _ =>
    apply normalize_origins_Ok in Ho as (Hlen & Hsort & _) end.
  split_and!; simpl; try done; [by apply str_len_ge_1|lia..].
Qed.

Lemma CookieJarBinding_login_ok plugin_id platform_id scope origins b :
  CookieJarBinding_login plugin_id platform_id scope origins = Ok b → binding_ok b.
Proof. by apply CookieJarBinding_new_ok. Qed.

Lemma CookieJarBinding_refresh_ok plugin_id platform_id scope origins cid revision b :
  CookieJarBinding_refresh plugin_id platform_id scope origins cid revision = Ok b →
  binding_ok b.
Proof.
  unfold CookieJarBinding_refresh. destruct (_ =? _) eqn:E; [done|]. bool_prop.
  by apply CookieJarBinding_new_ok.
Qed.

(** ** Reachable states *)

(** A session of a state reached at time [t] by operations that read [clocks]. *)
Record session_ok (t : time) (clocks : list Clock) (x : CookieJarSession) : Prop := {
  session_ok_lifetime : session_expires_at x ≤ t + MAX_SESSION_TTL;
  session_ok_binding : binding_ok (session_binding x);
  session_ok_store : session_store x = CookieStore_default ∨
    ∃ clock, clock ∈ clocks ∧ enforce_store_limits clock (session_store x) = Ok tt;
  session_ok_committing : session_state x = SessionCommitting →
    CookieJarBinding_purpose (session_binding x) = KindRefresh;
}.

Definition jar_inv (t : time) (clocks : list Clock) (s : TemporaryCookieJars) : Prop :=
  jars_poisoned s = false ∧ Z.of_nat (size (jars_sessions s)) ≤ MAX_SESSIONS ∧
  map_Forall (λ _, session_ok t clocks) (jars_sessions s).

(** The caller's side: the fields of a binding are private, so a binding is
    what a constructor returned, and may have got a manifest hash. *)
Definition constructed (binding : CookieJarBinding) : Prop :=
  ∃ plugin_id platform_id scope origins b,
    (CookieJarBinding_login plugin_id platform_id scope origins = Ok b ∨
     ∃ credential_id revision,
       CookieJarBinding_refresh plugin_id platform_id scope origins credential_id revision = Ok b) ∧
    (binding = b ∨ ∃ hash, binding = CookieJarBinding_with_manifest_hash b hash).
Definition op_ok (op : JarOp) : Prop :=
  match op with
  | OpCreate _ binding _ | OpCreateSeeded _ binding _ _ => constructed binding
  | _ => True
  end.

Lemma constructed_ok binding : constructed binding → binding_ok binding.
Proof.
  intros (p & pl & sc & os & b & Hb & Heq).
  assert (binding_ok b) as Hok.
  { destruct Hb as [Hb|(cid & rev & Hb)];
      [by eapply CookieJarBinding_login_ok|by eapply CookieJarBinding_refresh_ok]. }
  by destruct Heq as [->|[hash ->]].
Qed.

(** The states reached at a time, with the clocks the operations read, the
    latest first. *)
Inductive jar_reachable : time → list Clock → TemporaryCookieJars → Prop :=
| reach_new t : jar_reachable t [] TemporaryCookieJars_new
| reach_step t clocks s clock op :
    jar_reachable t clocks s → t ≤ instant_now clock → op_ok op →
    jar_reachable (instant_now clock) (clock :: clocks) (run_op clock op s).

Lemma session_ok_later t t' clocks clocks' x :
  t ≤ t' → clocks ⊆ clocks' → session_ok t clocks x → session_ok t' clocks' x.
Proof.
  intros Ht Hsub [Hl ? Hst ?]. split; [lia|done| |done].
  destruct Hst as [?|(clock & Hin & ?)]; [by left|right]. exists clock. by split; [apply Hsub|].
Qed.

Lemma jar_inv_later t t' clocks clocks' s :
  t ≤ t' → clocks ⊆ clocks' → jar_inv t clocks s → jar_inv t' clocks' s.
Proof.
  intros Ht Hsub (? & ? & Hall). split_and!; [done..|].
  eapply map_Forall_impl; [done|]. intros k x. by apply session_ok_later.
Qed.

Lemma apply_update_inv t clocks id update s :
  is_Some (jars_sessions s !! id) →
  (∀ x, update = Replace x → session_ok t clocks x) → jar_inv t clocks s →
  jar_inv t clocks (apply_update id update s).
Proof.
  intros [y Hy] Hrep (Hp & Hsize & Hall). destruct update as [|x|]; [done| |].
  - split_and!; simpl; [done| |].
    + rewrite map_size_insert, Hy. done.
    + apply map_Forall_insert_2; [by apply Hrep|done].
  - split_and!; simpl; [done| |by apply map_Forall_delete].
    rewrite map_size_delete, Hy. lia.
Qed.

Lemma session_call_inv {A} clock t clocks id
    (f : CookieJarSession → result CookieJarError (A * SessionUpdate)) s :
  (∀ x a x', session_ok t clocks x → f x = Ok (a, Replace x') → session_ok t clocks x') →
  jar_inv t clocks s → jar_inv t clocks (session_call clock id f s).2.
Proof.
  intros Hf Hinv. destruct (session_call clock id f s) as [r s'] eqn:E. simpl.
  apply session_call_cases in E
    as [(e & _ & ->)|[(x & Hx & _ & _ & ->)|(x & a & u & Hx & _ & Hfx & _ & ->)]]; [done| |].
  - apply apply_update_inv; [by eauto|done|done].
  - apply apply_update_inv; [by eauto| |done]. intros x' ->.
    eapply Hf; [|done]. destruct Hinv as (_ & _ & Hall). by eapply Hall.
Qed.

Lemma create_with_store_cases clock draws binding ttl store s r s' :
  create_with_store clock draws binding ttl store s = (r, s') →
  (∃ e, r = Err e ∧ s' = s) ∨
  (let live := filter (λ '(_, x), session_expires_at x > instant_now clock) (jars_sessions s) in
   ttl ≤ MAX_SESSION_TTL ∧ jars_poisoned s = false ∧
   ((r = Err JarCapacityReached ∧ MAX_SESSIONS ≤ Z.of_nat (size live) ∧
     s' = mkTemporaryCookieJars live false) ∨
    (r = Err JarUnavailable ∧ fresh_id draws live = None ∧
     s' = mkTemporaryCookieJars live false) ∨
    (∃ id, r = Ok id ∧ Z.of_nat (size live) < MAX_SESSIONS ∧ fresh_id draws live = Some id ∧
     s' = mkTemporaryCookieJars
            (<[id := mkCookieJarSession binding (instant_now clock + ttl) store SessionActive]> live)
            false))).
Proof.
  unfold create_with_store. destruct (_ >? _) eqn:Et; [intros [= <- <-]; by eauto|]. bool_prop.
  rewrite jar_bind_eq. unfold lock_sessions.
  destruct (jars_poisoned s) eqn:Hp; [intros [= <- <-]; by eauto|]. cbv zeta.
  set (live := filter _ _). rewrite jar_bind_eq. unfold set_sessions at 1. rewrite Hp.
  destruct (_ >=? _) eqn:Es; rewrite Z.geb_leb in Es; bool_prop.
  { intros [= <- <-]. right. split_and!; [done..|]. by left. }
  rewrite jar_lift_bind. destruct (fresh_id draws live) as [id|] eqn:Ef; simpl.
  - intros [= <- <-]. right. split_and!; [done..|]. right. right. by exists id.
  - intros [= <- <-]. right. split_and!; [done..|]. by right; left.
Qed.

Lemma fresh_id_Some draws sessions id :
  fresh_id draws sessions = Some id → sessions !! id = None.
Proof.
  unfold fresh_id. destruct (List.find _ _) as [u|] eqn:E; [|done]. simpl. intros [= <-].
  apply find_some in E as [_ Hn]. by destruct (sessions !! _).
Qed.

Lemma live_filter_inv t clocks clock s :
  jar_inv t clocks s →
  jar_inv t clocks (mkTemporaryCookieJars
    (filter (λ '(_, x), session_expires_at x > instant_now clock) (jars_sessions s)) false).
Proof.
  intros (_ & Hsize & Hall). split_and!; simpl; [done| |].
  - pose proof (map_subseteq_size _ _ (map_filter_subseteq
      (λ '(_, x), session_expires_at x > instant_now clock) (jars_sessions s))). lia.
  - intros id x Hx. apply map_lookup_filter_Some in Hx as [Hx _]. by eapply Hall.
Qed.

Lemma create_with_store_inv clocks clock draws binding ttl store s :
  binding_ok binding →
  store = CookieStore_default ∨
    (∃ clock, clock ∈ clocks ∧ enforce_store_limits clock store = Ok tt) →
  jar_inv (instant_now clock) clocks s →
  jar_inv (instant_now clock) clocks (create_with_store clock draws binding ttl store s).2.
Proof.
  intros Hb Hstore Hinv. destruct (create_with_store clock draws binding ttl store s)
    as [r s'] eqn:E. simpl.
  pose proof (live_filter_inv (instant_now clock) clocks clock s Hinv) as Hlive.
  apply create_with_store_cases in E
    as [(e & _ & ->)|(Ht & _ & [(_ & _ & ->)|[(_ & _ & ->)|(id & _ & Hsize & Hid & ->)]])];
    [done..|].
  destruct Hlive as (_ & _ & Hall). apply fresh_id_Some in Hid. split_and!; simpl; [done| |].
  - rewrite map_size_insert, Hid. lia.
  - apply map_Forall_insert_2; [|done]. split; simpl; [lia|done|done|done].
Qed.

Lemma finish_refresh_eq id retryable s :
  jars_poisoned s = false →
  finish_refresh id retryable s =
  match jars_sessions s !! id with
  | None => (Err JarNotFound, s)
  | Some x => (Ok tt, apply_update id (if retryable then Replace (with_state x SessionActive)
                                       else Remove) s)
  end.
Proof.
  intros Hp. unfold finish_refresh. rewrite jar_bind_eq. unfold lock_sessions. rewrite Hp.
  destruct (jars_sessions s !! id) as [x|]; [|done]. by destruct retryable.
Qed.

Lemma ensure_bound_Ok binding x :
  ensure_bound binding x = Ok tt →
  session_binding x = binding ∧ session_state x = SessionActive.
Proof.
  unfold ensure_bound, ensure_binding, ensure_active. intros He. simplify_result. by bool_prop.
Qed.

Lemma run_op_inv clocks clock op s :
  clock ∈ clocks → op_ok op → jar_inv (instant_now clock) clocks s →
  jar_inv (instant_now clock) clocks (run_op clock op s).
Proof.
  intros Hclock Hop Hinv. set (t := instant_now clock) in *.
  destruct op as [draws b ttl|draws b ttl secret|id b|id b url hs|id b url|id b sel|id|id b sel|id r];
    cbn [run_op].
  - apply create_with_store_inv; [by apply constructed_ok|by left|done].
  - unfold create_seeded. rewrite jar_lift_bind.
    destruct (seed_store _ _ _ _) as [store|]; [|done]. rewrite jar_lift_bind.
    destruct (enforce_store_limits clock store) as [[]|] eqn:El; [|done].
    apply create_with_store_inv; [by apply constructed_ok|by right; eauto|done].
  - rewrite jar_cancel_call. apply session_call_inv; [|done]. intros x a x' _ He.
    by simplify_result.
  - rewrite capture_response_call. apply session_call_inv; [|done]. intros x a x' [????] He.
    simplify_result. match goal with p : (_ * _)%type |- _ => destruct p as [updated markers] end. simplify_result.
    split; simpl; [done|done|by right; eauto|done].
  - rewrite jar_cookie_header_call. apply session_call_inv; [|done]. intros x a x' _ He.
    by simplify_result.
  - rewrite jar_promotion_snapshot_call. destruct (negb _); [done|].
    destruct (normalize_origins sel); [|done]. destruct (origins_outside _ _); [done|].
    apply session_call_inv; [|done]. intros x a' x' _ He. by simplify_result.
  - rewrite jar_binding_call. apply session_call_inv; [|done]. intros x a x' _ He.
    by simplify_result.
  - rewrite begin_refresh_commit_call.
    destruct (normalize_origins sel); [|done]. destruct (origins_outside _ _); [done|].
    apply session_call_inv; [|done]. intros x a' x' [????] He. simplify_result.
    match goal with Hb : ensure_bound _ _ = Ok _ |- _ => apply ensure_bound_Ok in Hb as [<- _] end.
    split; simpl; [done..|]. intros _. unfold CookieJarBinding_purpose.
    unfold CookieJarBinding_refresh_identity in *. by destruct (CookieJarBinding_purpose_of _).
  - rewrite finish_refresh_eq by apply Hinv.
    destruct (jars_sessions s !! id) as [x|] eqn:Hx; [|done]. apply apply_update_inv; [by eauto| |done].
    intros x' Hr. destruct r; [|done]. injection Hr as <-.
    destruct Hinv as (_ & _ & Hall). destruct (Hall id x Hx). by split.
Qed.

Lemma jar_reachable_inv t clocks s : jar_reachable t clocks s → jar_inv t clocks s.
Proof.
  induction 1 as [t|t clocks s clock op _ IH Ht Hop].
  - split_and!; [done| |apply map_Forall_empty]. simpl. rewrite map_size_empty.
    unfold MAX_SESSIONS. lia.
  - apply run_op_inv; [by left|done|]. eapply jar_inv_later; [done| |done].
    intros c Hc. by right.
Qed.

(** ** Limits and contents of the stores *)

Definition cookie_bytes (c : StoredCookie) : Z :=
  str_len (StoredCookie_name c) + str_len (StoredCookie_value c) + str_len (StoredCookie_path c).

Lemma store_limits_loop_Ok count total cookies count' total' :
  store_limits_loop count total cookies = Ok (count', total') →
  count' = count + zlen cookies ∧ total' = total + sum_list_with_Z cookie_bytes cookies.
Proof.
  revert count total. induction cookies as [|c cookies IH]; intros count total Hl; simpl in Hl.
  { simplify_result. unfold zlen. simpl. lia. }
  simplify_result. repeat match goal with
  | Hc : checked_add _ _ = Some _ |- _ => apply checked_add_Some in Hc as [-> _]
  | Hc : _ ≫= _ = Some _ |- _ => apply bind_Some in Hc as (? & ? & Hc)
  end.
  apply IH in Hl as [-> ->]. unfold zlen, cookie_bytes. simpl. lia.
Qed.
End jar_facts.
