(* ===== verification/CookieJarProps.v ===== *)
(** * What the cookie jars guarantee

    The properties of [CookieJar]: bounds of the reachable states, isolation by
    binding, atomic failures, the refresh commit protocol, and the scope of what
    leaves a jar. *)

From S2P Require Import Prelude Text Domain Foreign CredentialContract CredentialSecret.
From S2P Require Import CookieJar CookieJarFacts.

(** ** Fresh ids *)

Section fresh.
Context {U : UrlLib} {H : HeaderLib} {C : CookieLib}.

(** More distinct draws than sessions: one of them is free. *)
Lemma fresh_id_found draws (sessions : gmap CookieJarSessionId CookieJarSession) :
  NoDup draws → (size sessions < length draws)%nat → is_Some (fresh_id draws sessions).
Proof.
  intros Hn Hlt. unfold fresh_id. destruct (List.find _ draws) as [u|] eqn:E; [by eexists|].
  exfalso. assert (length draws ≤ size sessions)%nat; [|lia].
  rewrite <- (length_fmap mkCookieJarSessionId), <- size_dom.
  rewrite <- (size_list_to_set (C := gset CookieJarSessionId)).
  - apply subseteq_size. intros id Hid. apply elem_of_list_to_set in Hid.
    apply list_elem_of_fmap in Hid as (u & -> & Hu). apply elem_of_dom.
    eapply find_none in E; [|by apply list_elem_of_In]. simpl in E.
    unfold is_none in E. apply negb_false_iff in E. by destruct (sessions !! _).
  - apply NoDup_fmap; [|done]. by intros a b [= ->].
Qed.
End fresh.

(** ** Cookie headers *)

Lemma push_cookies_Some maximum value cookies out :
  push_cookies maximum value cookies = Some out → str_len value ≤ maximum → str_len out ≤ maximum.
Proof.
  revert value. induction cookies as [|[n v] cookies IH]; intros value; simpl.
  { by intros [= ->]. }
  destruct (_ >? _) eqn:E; [done|]. bool_prop. intros Hp _. by eapply IH.
Qed.

Section scope.
Context {U : UrlLib} {H : HeaderLib} {C : CookieLib}.

(** The session a call with binding [b] works on. *)
Definition bound_session (clock : Clock) (id : CookieJarSessionId) (b : CookieJarBinding)
    (s : TemporaryCookieJars) (x : CookieJarSession) : Prop :=
  jars_sessions s !! id = Some x ∧ instant_now clock < session_expires_at x ∧
  session_binding x = b ∧ session_state x = SessionActive.

Lemma session_call_bound {A} clock id b
    (f : CookieJarSession → result CookieJarError (A * SessionUpdate)) s a :
  (session_call clock id (λ x, ensure_bound b x;; f x) s).1 = Ok a →
  ∃ x update, bound_session clock id b s x ∧ f x = Ok (a, update).
Proof.
  destruct (session_call _ _ _ s) as [r s'] eqn:E. simpl. intros ->.
  apply session_call_cases in E
    as [(e & ? & _)|[(x & _ & _ & ? & _)|(x & a' & u & Hx & Ht & Hf & [= <-] & _)]]; [done..|].
  simplify_result.
  match goal with Hb : ensure_bound _ _ = Ok _ |- _ => apply ensure_bound_Ok in Hb as [? ?] end.
  exists x, u. by split_and!.
Qed.

(** A commit that begins marks its session; finishing it either restores the
    state from before or removes the session. *)
Lemma begin_refresh_commit_Ok clock id binding selected s snapshot s' :
  begin_refresh_commit clock id binding selected s = (Ok snapshot, s') →
  jars_poisoned s = false ∧ ∃ x, bound_session clock id binding s x ∧
    s' = mkTemporaryCookieJars (<[id := with_state x SessionCommitting]> (jars_sessions s)) false.
Proof.
  rewrite begin_refresh_commit_call. destruct (normalize_origins selected) as [origins|]; [|done].
  destruct (origins_outside origins binding); [done|]. intros Hcall.
  assert (jars_poisoned s = false) as Hp.
  { unfold session_call in Hcall. by destruct (jars_poisoned s). }
  apply session_call_cases in Hcall
    as [(e & ? & _)|[(x & _ & _ & ? & _)|(x & a & u & Hx & Ht & Hf & _ & ->)]]; [done..|].
  simplify_result.
  match goal with Hb : ensure_bound _ _ = Ok _ |- _ => apply ensure_bound_Ok in Hb as [? ?] end.
  split; [done|]. exists x. split; [by split_and!|]. simpl. by rewrite Hp.
Qed.

Lemma finish_after_begin clock id binding selected s snapshot s' :
  begin_refresh_commit clock id binding selected s = (Ok snapshot, s') →
  finish_refresh id true s' = (Ok tt, s) ∧
  finish_refresh id false s' =
    (Ok tt, mkTemporaryCookieJars (delete id (jars_sessions s)) (jars_poisoned s)).
Proof.
  intros (Hp & x & (Hx & _ & _ & Ha) & ->)%begin_refresh_commit_Ok.
  rewrite !finish_refresh_eq by done. simpl. rewrite lookup_insert_eq. simpl.
  rewrite insert_insert_eq, delete_insert_eq, Hp. split; [|done]. do 2 f_equal.
  destruct s as [sessions poisoned], x; simpl in *. subst. f_equal. by apply insert_id.
Qed.

Lemma ensure_origin_Ok b url :
  ensure_origin b url = Ok tt →
  ∃ origin, CredentialTargetOrigin_parse (Url_origin url) = Ok origin ∧
            origin ∈ CookieJarBinding_target_origins b.
Proof.
  unfold ensure_origin. intros He. simplify_result.
  apply existsb_exists in Hguard as (o & Ho & Heq). bool_prop. subst. eexists.
  split; [done|by apply list_elem_of_In].
Qed.

Lemma origins_outside_false selected b :
  origins_outside selected b = false →
  ∀ o, o ∈ selected → o ∈ CookieJarBinding_target_origins b.
Proof.
  unfold origins_outside. intros Ho o Hin.
  destruct (list_contains (CookieJarBinding_target_origins b) o) eqn:E;
    [by apply list_contains_elem|].
  exfalso. assert (existsb (λ origin,
    negb (list_contains (CookieJarBinding_target_origins b) origin)) selected = true); [|congruence].
  apply existsb_exists. exists o. split; [by apply list_elem_of_In|by rewrite E].
Qed.

(** The secret of a snapshot is well formed and only holds cookies for hosts of
    the selected origins, secure ones for https origins only. *)
Definition snapshot_scoped (origins : list CredentialTargetOrigin)
    (secret : CookieCredentialSecret) : Prop :=
  cookie_secret_ok secret ∧
  Forall (λ c, ∃ o url host, o ∈ origins ∧
      Url_parse (CredentialTargetOrigin_as_str o) = Some url ∧
      Url_host_str url = Some host ∧
      CookieSecretRecord_host c = to_ascii_lowercase host ∧
      (CookieSecretRecord_secure c = true → Url_scheme url = "https"))
    (CookieCredentialSecret_cookies secret).

Lemma to_ascii_lowercase_idemp s : to_ascii_lowercase (to_ascii_lowercase s) = to_ascii_lowercase s.
Proof.
  unfold to_ascii_lowercase. rewrite bytes_str. f_equal. rewrite map_map. apply map_ext.
  intros c. unfold byte_to_lowercase. destruct (is_ascii_uppercase c) eqn:E; [|by rewrite E].
  destruct (is_ascii_uppercase (chr _)) eqn:E2; [|done]. exfalso.
  unfold is_ascii_uppercase, in_range in *. bool_prop.
  assert (code (chr (code c + 32)) = code c + 32) as Hc; [|lia].
  unfold code, chr in *. rewrite N_ascii_embedding; lia.
Qed.

Lemma snapshot_cookie_scoped origins cookie records :
  snapshot_cookie (selected_urls origins) cookie = Ok records →
  Forall (λ c, cookie_record_ok c ∧ ∃ o url host, o ∈ origins ∧
      Url_parse (CredentialTargetOrigin_as_str o) = Some url ∧
      Url_host_str url = Some host ∧ CookieSecretRecord_host c = to_ascii_lowercase host ∧
      (CookieSecretRecord_secure c = true → Url_scheme url = "https")) records.
Proof.
  unfold snapshot_cookie. set (secure := default false (StoredCookie_secure cookie)).
  set (hosts := dedup _). intros Hs. simplify_result. apply mapM_Ok in Hs.
  assert (∀ h, h ∈ hosts → ∃ o url host, o ∈ origins ∧
      Url_parse (CredentialTargetOrigin_as_str o) = Some url ∧
      Url_host_str url = Some host ∧ h = to_ascii_lowercase host ∧
      (secure = true → Url_scheme url = "https")) as Hh.
  { intros h Hin. subst hosts. apply elem_of_sort_dedup in Hin; [|apply _..].
    apply list_elem_of_omap in Hin as (url & Hurl & Hm).
    apply list_elem_of_In, filter_In in Hurl as [Hurl Hc].
    apply list_elem_of_In, list_elem_of_omap in Hurl as (o & Ho & Hp).
    destruct (Url_host_str url) as [host|] eqn:Hhost; [|done]. simpl in Hm. injection Hm as <-.
    exists o, url, host. split_and!; [done..|]. intros Hsec. rewrite Hsec in Hc. bool_prop.
    match goal with Hd : _ || _ = true |- _ => simpl in Hd end. by bool_prop. }
  clear Hguard. clearbody hosts. induction Hs as [|h c hosts records Hc _ IH]; [constructor|].
  constructor; [|apply IH; intros; apply Hh; by right].
  apply map_err_Ok, CookieSecretRecord_new_Ok in Hc as [-> Hok].
  split; [done|]. destruct (Hh h) as (o & url & host & ? & ? & ? & -> & ?); [by left|].
  exists o, url, host. simpl. split_and!; [done..|by apply to_ascii_lowercase_idemp|done].
Qed.

Lemma snapshot_secret_scoped clock store origins secret :
  snapshot_secret clock store origins = Ok secret → snapshot_scoped origins secret.
Proof.
  unfold snapshot_secret. intros Hs. simplify_result.
  match goal with Hm : mapM _ _ = Ok ?r |- _ => rename r into records; apply mapM_Ok in Hm;
    rename Hm into Hmap end.
  apply CookieCredentialSecret_new_Ok in Hs as (-> & Hlen & Hn).
  assert (Forall (λ c, cookie_record_ok c ∧ ∃ o url host, o ∈ origins ∧
      Url_parse (CredentialTargetOrigin_as_str o) = Some url ∧
      Url_host_str url = Some host ∧ CookieSecretRecord_host c = to_ascii_lowercase host ∧
      (CookieSecretRecord_secure c = true → Url_scheme url = "https")) (concat records)) as Hall.
  { clear -Hmap. induction Hmap as [|c r cs rs Hc _ IH]; [constructor|]. simpl.
    apply Forall_app. split; [by eapply snapshot_cookie_scoped|done]. }
  split; [split; [done|split; [|done]]|]; simpl; (eapply Forall_impl; [exact Hall|]); by intros c [? ?].
Qed.
Lemma begin_refresh_commit_scope clock id binding selected s snapshot :
  (begin_refresh_commit clock id binding selected s).1 = Ok snapshot →
  CookieJarBinding_refresh_identity binding =
    Some (RefreshCommitSnapshot_credential_id snapshot,
          RefreshCommitSnapshot_expected_revision snapshot) ∧
  (∀ o, o ∈ RefreshCommitSnapshot_target_origins snapshot →
     o ∈ CookieJarBinding_target_origins binding) ∧
  snapshot_scoped (RefreshCommitSnapshot_target_origins snapshot)
    (RefreshCommitSnapshot_secret snapshot).
Proof.
  rewrite begin_refresh_commit_call. destruct (normalize_origins selected) as [origins|]; [|done].
  destruct (origins_outside origins binding) eqn:Hout; [done|].
  intros (x & u & _ & Hf)%session_call_bound. apply bind_Ok in Hf as ([cid rev] & Hi & Hf).
  apply ok_or_Ok in Hi. apply bind_Ok in Hf as (secret & Hs & [= <- _]).
  split_and!; [done|by apply origins_outside_false|by eapply snapshot_secret_scoped].
Qed.
End scope.

(** ** Properties *)

Section jar_properties.
Context {U : UrlLib} {H : HeaderLib} {C : CookieLib}.

(** C4. In every reachable state there are at most 64 sessions.  None of them can
    be used for more than ten minutes from now, each is bound to a valid
    platform and to 1 to 16 sorted distinct origins, whatever origins the
    constructors of the bindings were given, only refresh sessions are
    ever committing, and of the cookies a session holds at most 128, of at most
    32 KiB, were unexpired by the clock of one of the operations that led here. *)
Theorem jar_reachable_bounded t clocks s :
  jar_reachable t clocks s →
  Z.of_nat (size (jars_sessions s)) ≤ 64 ∧
  ∀ id x, jars_sessions s !! id = Some x →
    session_expires_at x ≤ t + 10 * 60 * second ∧ binding_ok (session_binding x) ∧
    (session_state x = SessionCommitting →
     CookieJarBinding_purpose (session_binding x) = KindRefresh) ∧
    (session_store x = CookieStore_default ∨ ∃ clock, clock ∈ clocks ∧
       let cookies := CookieStore_iter_unexpired (utc_now clock) (session_store x) in
       zlen cookies ≤ 128 ∧ sum_list_with_Z cookie_bytes cookies ≤ 32 * 1024).
Proof.
  intros (_ & Hsize & Hall)%jar_reachable_inv. split; [done|]. intros id x Hx.
  destruct (Hall id x Hx) as [Hl Hb Hst Hc]. split_and!; [done..|].
  destruct Hst as [?|(clock & Hin & He)]; [by left|right]. exists clock. split; [done|]. cbv zeta.
  unfold enforce_store_limits in He. apply bind_Ok in He as ([count total] & Hloop & He).
  apply store_limits_loop_Ok in Hloop as [-> ->]. simpl in He.
  destruct (_ || _) eqn:Hg; [done|]. bool_prop.
  unfold MAX_JAR_COOKIES, MAX_COOKIE_HEADER_BYTES in *. lia.
Qed.

(** Isolation: cookies enter or leave a session only through a call that names
    the exact binding the session was created with, while the session is live
    and not committing, and only for URLs whose origin the binding allows. *)
Theorem jar_isolation clock id binding s :
  (∀ url headers markers,
     (capture_response_with_markers clock id binding url headers s).1 = Ok markers →
     ∃ x origin, bound_session clock id binding s x ∧
       CredentialTargetOrigin_parse (Url_origin url) = Ok origin ∧
       origin ∈ CookieJarBinding_target_origins binding) ∧
  (∀ url value,
     (jar_cookie_header clock id binding url s).1 = Ok value →
     ∃ x origin, bound_session clock id binding s x ∧
       CredentialTargetOrigin_parse (Url_origin url) = Ok origin ∧
       origin ∈ CookieJarBinding_target_origins binding) ∧
  (∀ selected snapshot,
     (jar_promotion_snapshot clock id binding selected s).1 = Ok snapshot →
     ∃ x, bound_session clock id binding s x) ∧
  (∀ selected snapshot,
     (begin_refresh_commit clock id binding selected s).1 = Ok snapshot →
     ∃ x, bound_session clock id binding s x) ∧
  ((jar_cancel clock id binding s).1 = Ok tt →
   ∃ x, jars_sessions s !! id = Some x ∧ session_binding x = binding).
Proof.
  split_and!.
  - intros url headers markers. rewrite capture_response_call.
    intros (x & u & Hb & Hf)%session_call_bound. apply bind_Ok in Hf as ([] & Ho & _).
    apply ensure_origin_Ok in Ho as (origin & ? & ?). eauto.
  - intros url value. rewrite jar_cookie_header_call.
    intros (x & u & Hb & Hf)%session_call_bound. apply bind_Ok in Hf as ([] & Ho & _).
    apply ensure_origin_Ok in Ho as (origin & ? & ?). eauto.
  - intros selected snapshot. rewrite jar_promotion_snapshot_call.
    destruct (negb _); [done|]. destruct (normalize_origins _); [|done].
    destruct (origins_outside _ _); [done|].
    intros (x & u & Hb & _)%session_call_bound. eauto.
  - intros selected snapshot. rewrite begin_refresh_commit_call.
    destruct (normalize_origins _); [|done]. destruct (origins_outside _ _); [done|].
    intros (x & u & Hb & _)%session_call_bound. eauto.
  - rewrite jar_cancel_call. destruct (session_call _ _ _ s) as [r s'] eqn:E. simpl. intros ->.
    apply session_call_cases in E
      as [(e & ? & _)|[(x & _ & _ & ? & _)|(x & a' & u & Hx & Ht & Hf & _ & _)]]; [done..|].
    exists x. split; [done|]. simplify_result. unfold ensure_binding in *.
    destruct (eqb _ _) eqn:Eb; [|done]. by bool_prop.
Qed.

(** An operation on one session never changes another one; creating a session
    only drops sessions that have expired. *)
Theorem jar_frame clock op s id' x :
  jars_sessions s !! id' = Some x → jars_poisoned s = false →
  match op with
  | OpCreate _ _ _ | OpCreateSeeded _ _ _ _ => instant_now clock < session_expires_at x
  | OpCancel id _ | OpCapture id _ _ _ | OpCookieHeader id _ _ | OpPromotion id _ _
  | OpBinding id | OpBegin id _ _ | OpFinish id _ => id' ≠ id
  end →
  jars_sessions (run_op clock op s) !! id' = Some x.
Proof.
  intros Hx Hp.
  assert (∀ draws b ttl store, instant_now clock < session_expires_at x →
    jars_sessions (create_with_store clock draws b ttl store s).2 !! id' = Some x) as Hcreate.
  { intros draws b ttl store Ht. destruct (create_with_store _ _ _ _ _ s) as [r s'] eqn:E. simpl.
    assert (filter (λ '(_, y), session_expires_at y > instant_now clock) (jars_sessions s) !! id'
      = Some x) as Hlive by (apply map_lookup_filter_Some; split; [done|lia]).
    apply create_with_store_cases in E
      as [(e & _ & ->)|(_ & _ & [(_ & _ & ->)|[(_ & _ & ->)|(id & _ & _ & Hid & ->)]])];
      [done..|]. simpl. apply fresh_id_Some in Hid. rewrite lookup_insert_ne; [done|]. congruence. }
  destruct op as [draws b ttl|draws b ttl secret|id b|id b url hs|id b url|id b sel|id|id b sel|id r];
    cbn [run_op]; intros Hop.
  - by apply Hcreate.
  - unfold create_seeded. rewrite jar_lift_bind. destruct (seed_store _ _ _ _); [|done].
    rewrite jar_lift_bind. destruct (enforce_store_limits _ _); [|done]. by apply Hcreate.
  - by rewrite jar_cancel_call, session_call_other.
  - by rewrite capture_response_call, session_call_other.
  - by rewrite jar_cookie_header_call, session_call_other.
  - rewrite jar_promotion_snapshot_call. destruct (negb _); [done|].
    destruct (normalize_origins _); [|done]. destruct (origins_outside _ _); [done|].
    by rewrite session_call_other.
  - by rewrite jar_binding_call, session_call_other.
  - rewrite begin_refresh_commit_call. destruct (normalize_origins _); [|done].
    destruct (origins_outside _ _); [done|]. by rewrite session_call_other.
  - rewrite finish_refresh_eq by done. destruct (jars_sessions s !! id); [|done].
    cbn [snd]. by rewrite apply_update_other.
Qed.

(** The commit protocol.  A refresh commit that begins locks its session: until
    it is finished, every use of the session before it expires is refused as
    busy and changes nothing.  Finishing it as retryable restores the state
    from before; finishing it otherwise removes the session. *)
Theorem refresh_commit_exclusive clock id binding selected s snapshot s' :
  begin_refresh_commit clock id binding selected s = (Ok snapshot, s') →
  ∃ x, bound_session clock id binding s x ∧
    (∀ clock' url headers selected', instant_now clock' < session_expires_at x →
       capture_response_with_markers clock' id binding url headers s' = (Err JarBusy, s') ∧
       jar_cookie_header clock' id binding url s' = (Err JarBusy, s') ∧
       jar_binding clock' id s' = (Err JarBusy, s') ∧
       (∀ snapshot', (begin_refresh_commit clock' id binding selected' s').1 ≠ Ok snapshot') ∧
       (begin_refresh_commit clock' id binding selected' s').2 = s') ∧
    finish_refresh id true s' = (Ok tt, s) ∧
    finish_refresh id false s' =
      (Ok tt, mkTemporaryCookieJars (delete id (jars_sessions s)) (jars_poisoned s)).
Proof.
  intros Hbegin. pose proof (finish_after_begin _ _ _ _ _ _ _ Hbegin) as Hfinish.
  apply begin_refresh_commit_Ok in Hbegin as (Hp & x & Hb & ->).
  set (s' := mkTemporaryCookieJars _ _) in *.
  assert (jars_sessions s' !! id = Some (with_state x SessionCommitting)) as Hx'
    by (subst s'; simpl; by rewrite lookup_insert_eq).
  pose proof Hb as (_ & _ & Hbind & _).
  exists x. split; [done|]. split; [|done].
  intros clock' url headers selected' Ht'.
  assert (∀ A (f : CookieJarSession → result CookieJarError (A * SessionUpdate)),
    session_call clock' id (λ y, ensure_bound binding y;; f y) s' = (Err JarBusy, s')) as Hbusy.
  { intros A f. unfold session_call. change (jars_poisoned s') with false.
    rewrite Hx'. simpl. destruct (_ <=? _) eqn:E; bool_prop; [lia|].
    unfold ensure_bound, ensure_binding. simpl. rewrite Hbind, eqb_refl. done. }
  split_and!.
  + by rewrite capture_response_call, Hbusy.
  + by rewrite jar_cookie_header_call, Hbusy.
  + rewrite jar_binding_call. unfold session_call. change (jars_poisoned s') with false.
    rewrite Hx'. simpl. destruct (_ <=? _) eqn:E; bool_prop; [lia|done].
  + intros snapshot'. rewrite begin_refresh_commit_call. destruct (normalize_origins _); [|done].
    destruct (origins_outside _ _); [done|]. by rewrite Hbusy.
  + rewrite begin_refresh_commit_call. destruct (normalize_origins _); [|done].
    destruct (origins_outside _ _); [done|]. by rewrite Hbusy.
Qed.

(** What is promoted or committed: the snapshot's origins are origins of the
    binding, and its secret is well formed and holds cookies for hosts of those
    origins only, secure cookies only for https origins. *)
Theorem jar_snapshot_scope clock id binding selected s :
  (∀ snapshot, (jar_promotion_snapshot clock id binding selected s).1 = Ok snapshot →
     CookieJarBinding_purpose binding = KindLogin ∧
     (∀ o, o ∈ PromotionSnapshot_target_origins snapshot →
        o ∈ CookieJarBinding_target_origins binding) ∧
     snapshot_scoped (PromotionSnapshot_target_origins snapshot)
       (PromotionSnapshot_secret snapshot)) ∧
  (∀ snapshot, (begin_refresh_commit clock id binding selected s).1 = Ok snapshot →
     CookieJarBinding_refresh_identity binding =
       Some (RefreshCommitSnapshot_credential_id snapshot,
             RefreshCommitSnapshot_expected_revision snapshot) ∧
     (∀ o, o ∈ RefreshCommitSnapshot_target_origins snapshot →
        o ∈ CookieJarBinding_target_origins binding) ∧
     snapshot_scoped (RefreshCommitSnapshot_target_origins snapshot)
       (RefreshCommitSnapshot_secret snapshot)).
Proof.
  split; intros snapshot.
  - rewrite jar_promotion_snapshot_call. destruct (negb _) eqn:Hl; [done|]. bool_prop.
    destruct (normalize_origins selected) as [origins|]; [|done].
    destruct (origins_outside origins binding) eqn:Hout; [done|].
    intros (x & u & _ & Hf)%session_call_bound. apply bind_Ok in Hf as (secret & Hs & [= <- _]).
    split_and!; [done|by apply origins_outside_false|by eapply snapshot_secret_scoped].
  - apply begin_refresh_commit_scope.
Qed.

(** Creating a session with at least 64 distinct id draws gives exactly one of
    three answers: the lifetime is refused, the 64 live sessions are kept and
    the call is refused, or a session under an unused id is added, active, with
    the binding and lifetime asked for. *)
Theorem jar_create_spec clock draws binding ttl s :
  jars_poisoned s = false → NoDup draws → (64 ≤ length draws)%nat →
  let live := filter (λ '(_, x), session_expires_at x > instant_now clock) (jars_sessions s) in
  if ttl >? MAX_SESSION_TTL then
    jar_create clock draws binding ttl s = (Err JarInvalidBinding, s)
  else if Z.of_nat (size live) >=? 64 then
    jar_create clock draws binding ttl s =
      (Err JarCapacityReached, mkTemporaryCookieJars live false)
  else ∃ id, live !! id = None ∧
    jar_create clock draws binding ttl s =
      (Ok id, mkTemporaryCookieJars
        (<[id := mkCookieJarSession binding (instant_now clock + ttl) CookieStore_default
                   SessionActive]> live) false).
Proof.
  intros Hp Hn Hlen. cbv zeta. set (live := filter _ _).
  destruct (ttl >? MAX_SESSION_TTL) eqn:Et.
  { unfold jar_create, create_with_store. by rewrite Et. }
  assert (jar_create clock draws binding ttl s =
    (if Z.of_nat (size live) >=? MAX_SESSIONS then jar_lift (Err JarCapacityReached)
     else
      id ← jar_lift (ok_or (fresh_id draws live) JarUnavailable);
      _ ← set_sessions (<[id := mkCookieJarSession binding (instant_now clock + ttl)
                                  CookieStore_default SessionActive]> live);
      mret id) (mkTemporaryCookieJars live false)) as ->.
  { unfold jar_create, create_with_store. rewrite Et, jar_bind_eq. unfold lock_sessions.
    rewrite Hp, jar_bind_eq. unfold set_sessions at 1. rewrite Hp. done. }
  unfold MAX_SESSIONS. destruct (_ >=? _) eqn:Es; [done|]. rewrite Z.geb_leb in Es. bool_prop.
  destruct (fresh_id_found draws live) as [id Hid]; [done|lia|].
  exists id. split; [by eapply fresh_id_Some|]. by rewrite Hid.
Qed.

(** The cookie header a session produces has at most 16 KiB. *)
Theorem jar_cookie_header_bound `{!HeaderLaws H} clock id binding url s value :
  (jar_cookie_header clock id binding url s).1 = Ok (Some value) →
  zlen (HeaderValue_as_bytes value) ≤ 16 * 1024.
Proof.
  rewrite jar_cookie_header_call. intros (x & u & _ & Hf)%session_call_bound.
  apply bind_Ok in Hf as ([] & _ & Hf). apply bind_Ok in Hf as (v & Hv & [= -> _]).
  unfold store_cookie_header in Hv. simplify_result.
  destruct (str_is_empty _); [done|]. destruct (HeaderValue_from_str x0) eqn:E; [|done].
  simpl in Hv. injection Hv as ->. apply header_from_str in E. rewrite E, <- str_len_bytes.
  match goal with Hp : push_cookies _ _ _ = Some _ |- _ => apply push_cookies_Some in Hp end;
    unfold MAX_COOKIE_HEADER_BYTES in *; [lia|]. unfold str_len. simpl. lia.
Qed.

(** A stored cookie that expires within the next second makes the whole refresh
    jar fail as expired, while one that has just expired is skipped. *)
Theorem create_seeded_last_second clock draws binding ttl cookie rest s url expires :
  CookieSecretRecord_expires_at cookie = Some expires →
  utc_now clock < expires < utc_now clock + second →
  url ∈ selected_urls (CookieJarBinding_target_origins binding) →
  Url_host_str url = Some (CookieSecretRecord_host cookie) → Url_scheme url = "https" →
  create_seeded clock draws binding ttl (mkCookieCredentialSecret (cookie :: rest)) s =
    (Err JarExpired, s) ∧
  let later := mkClock (instant_now clock) expires in
  create_seeded later draws binding ttl (mkCookieCredentialSecret (cookie :: rest)) s =
    create_seeded later draws binding ttl (mkCookieCredentialSecret rest) s.
Proof.
  intros He Hwin Hurl Hhost Hscheme. split.
  - unfold create_seeded. rewrite jar_lift_bind. cbn [CookieCredentialSecret_cookies seed_store].
    rewrite He. simpl. destruct (expires <=? utc_now clock) eqn:E; bool_prop; [lia|].
    destruct (List.find _ _) as [origin|] eqn:Ef.
    2: { eapply find_none in Ef; [|by apply list_elem_of_In]. simpl in Ef.
         rewrite Hhost, Hscheme in Ef. simpl in Ef.
         unfold eq_ignore_ascii_case in Ef. rewrite eqb_refl, orb_true_r in Ef. done. }
    simpl. unfold seeded_raw_cookie. rewrite He.
    assert (num_seconds (expires - utc_now clock) = 0) as ->.
    { unfold num_seconds. apply Z.quot_small. unfold second in *. lia. }
    done.
  - cbv zeta. unfold create_seeded. cbn [CookieCredentialSecret_cookies seed_store].
    rewrite He. simpl. by rewrite Z.leb_refl.
Qed.
End jar_properties.
