(* ===== verification/CredentialProxy.v ===== *)
(** * The credential proxy (crates/audiodown-network-proxy/src/service.rs and
    credential.rs)

    Plugins reach platforms with credentials through this service.  Per hop, the
    core injects either the cookies of a temporary jar or a stored credential
    the plugin has been granted, and refuses responses that reflect the secret.
    The vault and the grants are the ports of the code, part of the
    environment.  The jars are shared with other tasks: the environment says
    what they do before each use of the jars here ([other_tasks]).  [audit] only
    logs. *)

From S2P Require Import Prelude Text Std Domain Foreign CredentialContract Policy HttpProxy.
From S2P Require Import CredentialSecret CookieJar.

Definition MAX_AUTH_HEADER_BYTES : Z := 16 * 1024.
Definition MAX_COOKIE_COUNT : Z := 128.

Record InstalledPluginContext := mkInstalledPluginContext {
  context_plugin_id : PluginId;
  context_manifest_hash : string;
  context_manifest : PluginManifest;
}.

Record CredentialSelection := mkCredentialSelection {
  selection_credential_id : CredentialId;
  selection_scope : CredentialScope;
}.

Record OpenedCredential := mkOpenedCredential {
  opened_metadata : CredentialMetadata;
  opened_secret : CredentialSecretGuard;
}.

Record ActiveGrantSnapshot := mkActiveGrantSnapshot {
  grant_plugin_id : PluginId;
  grant_manifest_hash : string;
  grant_credential_id : CredentialId;
  grant_scope : CredentialScope;
  grant_target_origins : list CredentialTargetOrigin;
}.

Inductive CredentialPortError := PortNotFound | PortConflict | PortExpired | PortRevoked
| PortUnavailable.

Inductive CredentialProxyError :=
| InvalidProxyRequest | ProxyJarNotFound | ProxyJarExpired | ProxyJarBindingMismatch
| ProxyJarPurposeMismatch | ProxyCredentialNotFound | ProxyCredentialExpired
| ProxyCredentialRevoked | CredentialMismatch | ScopeNotDeclared | GrantMissing | GrantMismatch
| OriginDenied | SecretUnavailable | RefreshConflict | DirectReflection | ProxyRequestRejected
| ProxyUnavailable
| Proxy (error : HttpProxyError).
Global Instance CredentialProxyError_eq_dec : EqDecision CredentialProxyError.
Proof. solve_decision. Defined.

Definition map_port_error (error : CredentialPortError) : CredentialProxyError :=
  match error with
  | PortNotFound => ProxyCredentialNotFound
  | PortConflict => RefreshConflict
  | PortExpired => ProxyCredentialExpired
  | PortRevoked => ProxyCredentialRevoked
  | PortUnavailable => ProxyUnavailable
  end.

Definition map_jar_error (error : CookieJarError) : CredentialProxyError :=
  match error with
  | JarNotFound => ProxyJarNotFound
  | JarExpired => ProxyJarExpired
  | JarBindingMismatch => ProxyJarBindingMismatch
  | JarOriginDenied => OriginDenied
  | JarPurposeMismatch => ProxyJarPurposeMismatch
  | JarBusy => RefreshConflict
  | JarInvalidCookie | JarHeaderTooLarge => SecretUnavailable
  | JarInvalidBinding | JarCapacityReached | JarUnavailable => ProxyUnavailable
  end.

(** ** Checks on the plugin and its manifest *)

Definition validate_plugin_context (plugin : InstalledPluginContext) :
    result CredentialProxyError unit :=
  if negb (eqb (context_plugin_id plugin) (PluginManifest_id (context_manifest plugin)))
     || negb (str_len (context_manifest_hash plugin) =? 64)
     || negb (str_all (λ byte, is_ascii_hexdigit byte && negb (is_ascii_uppercase byte))
                (context_manifest_hash plugin))
  then Err InvalidProxyRequest else Ok tt.

Definition PluginType_eqb (a b : PluginType) : bool :=
  match a, b with
  | Content, Content | Credential, Credential => true
  | _, _ => false
  end.

Definition find_scope (scope : CredentialScope) (declarations : list CredentialScopeDeclaration) :
    option CredentialScopeDeclaration :=
  List.find (λ declaration, eqb (CredentialScopeDeclaration_scope declaration) scope)
    declarations.

Definition provider_declaration (plugin : InstalledPluginContext) (scope : CredentialScope) :
    result CredentialProxyError CredentialScopeDeclaration :=
  validate_plugin_context plugin;;
  if negb (PluginType_eqb (PluginManifest_plugin_type (context_manifest plugin)) Credential)
  then Err ScopeNotDeclared
  else ok_or (find_scope scope (CredentialDeclarations_provided_scopes
                                  (PluginManifest_credentials (context_manifest plugin))))
         ScopeNotDeclared.

Definition consumer_declaration (plugin : InstalledPluginContext) (scope : CredentialScope) :
    result CredentialProxyError CredentialScopeDeclaration :=
  validate_plugin_context plugin;;
  if negb (PluginType_eqb (PluginManifest_plugin_type (context_manifest plugin)) Content)
  then Err ScopeNotDeclared
  else
    let credentials := PluginManifest_credentials (context_manifest plugin) in
    ok_or (find_scope scope (CredentialDeclarations_required_scopes credentials
                             ++ CredentialDeclarations_optional_scopes credentials))
      ScopeNotDeclared.

Definition validate_jar_binding (plugin : InstalledPluginContext) (binding : CookieJarBinding) :
    result CredentialProxyError unit :=
  validate_plugin_context plugin;;
  if negb (PluginType_eqb (PluginManifest_plugin_type (context_manifest plugin)) Credential)
     || negb (eqb (CookieJarBinding_plugin_id binding) (context_plugin_id plugin))
     || negb (eqb (CookieJarBinding_platform_id binding)
                  (PlatformSpec_id (PluginManifest_platform (context_manifest plugin))))
     || negb (eqb (CookieJarBinding_manifest_hash binding) (Some (context_manifest_hash plugin)))
  then Err ProxyJarBindingMismatch else Ok tt.

Definition is_expired (now : time) (expires_at : option time) : bool :=
  is_some_and (λ expires_at, expires_at <=? now) expires_at.

Definition validate_refresh_credential (now : time) (plugin : InstalledPluginContext)
    (scope : CredentialScope) (declaration : CredentialScopeDeclaration)
    (opened : OpenedCredential) : result CredentialProxyError unit :=
  let metadata := opened_metadata opened in
  if negb (eqb (CredentialMetadata_kind metadata) Cookie)
     || negb (eqb (CredentialMetadata_platform_id metadata)
                  (PlatformSpec_id (PluginManifest_platform (context_manifest plugin))))
     || negb (eqb (CredentialMetadata_scope metadata) scope)
  then Err CredentialMismatch
  else if eqb (CredentialMetadata_status metadata) Revoked then Err ProxyCredentialRevoked
  else if negb (eqb (CredentialMetadata_status metadata) Active)
          || is_expired now (CredentialMetadata_expires_at metadata)
  then Err ProxyCredentialExpired
  else if (length (CredentialMetadata_target_origins metadata) =? 0)%nat
          || existsb (λ origin, negb (list_contains
               (CredentialScopeDeclaration_target_origins declaration) origin))
             (CredentialMetadata_target_origins metadata)
  then Err OriginDenied
  else Ok tt.

Definition authorize_credential (now : time) (plugin : InstalledPluginContext)
    (selection : CredentialSelection) (declaration : CredentialScopeDeclaration)
    (opened : OpenedCredential) (grant : ActiveGrantSnapshot) (origin : CredentialTargetOrigin) :
    result CredentialProxyError unit :=
  let metadata := opened_metadata opened in
  let declared := CredentialScopeDeclaration_target_origins declaration in
  let stored := CredentialMetadata_target_origins metadata in
  let granted := grant_target_origins grant in
  if negb (eqb (CredentialMetadata_id metadata) (selection_credential_id selection))
     || negb (eqb (CredentialMetadata_scope metadata) (selection_scope selection))
  then Err CredentialMismatch
  else if negb (eqb (CredentialMetadata_platform_id metadata)
                    (PlatformSpec_id (PluginManifest_platform (context_manifest plugin))))
  then Err CredentialMismatch
  else if eqb (CredentialMetadata_status metadata) Revoked then Err ProxyCredentialRevoked
  else if negb (eqb (CredentialMetadata_status metadata) Active)
          || is_expired now (CredentialMetadata_expires_at metadata)
  then Err ProxyCredentialExpired
  else if negb (eqb (grant_plugin_id grant) (context_plugin_id plugin))
          || negb (eqb (grant_manifest_hash grant) (context_manifest_hash plugin))
          || negb (eqb (grant_credential_id grant) (selection_credential_id selection))
          || negb (eqb (grant_scope grant) (selection_scope selection))
  then Err GrantMismatch
  else if (length granted =? 0)%nat
          || negb (list_contains declared origin)
          || negb (list_contains stored origin)
          || negb (list_contains granted origin)
          || existsb (λ g, negb (list_contains declared g) || negb (list_contains stored g)) granted
  then Err OriginDenied
  else Ok tt.

(** ** Secret markers of a hop *)

Definition contains_subslice (haystack needle : list byte) : bool :=
  negb (length needle =? 0)%nat && existsb (eqb needle) (windows (length needle) haystack).

Record HopSecretState := mkHopSecretState { hop_markers : list (list byte) }.

Definition byte_cmp : list byte → list byte → comparison := lex_cmp (cmp_on code Z.compare).

Definition HopSecretState_empty : HopSecretState := mkHopSecretState [].

Definition HopSecretState_new (markers : list (list byte)) : HopSecretState :=
  mkHopSecretState (dedup (sort_by byte_cmp
    (List.filter (λ marker, negb (length marker =? 0)%nat) markers))).

Definition HopSecretState_from_token (token : string) : HopSecretState :=
  HopSecretState_new [bytes token; bytes ("Bearer " +:+ token)].

Fixpoint add_markers_loop (markers additions : list (list byte)) : list (list byte) :=
  match additions with
  | [] => markers
  | marker :: additions =>
      if (length marker =? 0)%nat || existsb (λ existing, eqb existing marker) markers
      then add_markers_loop markers additions
      else add_markers_loop (markers ++ [marker]) additions
  end.
Definition HopSecretState_add_markers (self : HopSecretState) (additions : list (list byte)) :
    HopSecretState := mkHopSecretState (add_markers_loop (hop_markers self) additions).

Definition HopSecretState_contains (self : HopSecretState) (haystack : list byte) : bool :=
  existsb (contains_subslice haystack) (hop_markers self).

Definition path_matches (cookie_path request_path : string) : bool :=
  eqb cookie_path request_path
  || (starts_with request_path cookie_path
      && (ends_with cookie_path "/"
          || eqb (bytes request_path !! String.length cookie_path) (Some "/"%char))).

Section checks.
Context {U : UrlLib} {H : HeaderLib}.

Definition HopSecretState_from_cookie_header (value : HeaderValue) :
    result CredentialProxyError HopSecretState :=
  value ← ok_or (HeaderValue_to_str value) SecretUnavailable;
  Ok (HopSecretState_new
    (bytes value :: concat ((λ pair, bytes pair ::
        match split_once "="%char pair with
        | Some (_, secret) => [bytes secret]
        | None => []
        end) <$> split2 ";"%char " "%char value))).

Definition request_origin (url : Url) : result CredentialProxyError CredentialTargetOrigin :=
  map_err (λ _, OriginDenied) (CredentialTargetOrigin_parse (Url_origin url)).

Definition declared_origins (requested : list CredentialTargetOrigin)
    (declaration : CredentialScopeDeclaration) :
    result CredentialProxyError (list CredentialTargetOrigin) :=
  if (length requested =? 0)%nat then Err OriginDenied
  else
    parsed ← mapM (λ origin, map_err (λ _, OriginDenied)
      (CredentialTargetOrigin_parse (CredentialTargetOrigin_as_str origin))) requested;
    let normalized := dedup (sort_by origin_cmp parsed) in
    if existsb (λ origin, negb (list_contains
         (CredentialScopeDeclaration_target_origins declaration) origin)) normalized
    then Err OriginDenied else Ok normalized.

(** The stored cookies that go to a URL, longest path first. *)
Definition stored_cookie_matches (now : time) (host : string) (url : Url)
    (cookie : CookieSecretRecord) : bool :=
  eq_ignore_ascii_case (CookieSecretRecord_host cookie) host
  && (negb (CookieSecretRecord_secure cookie) || eqb (Url_scheme url) "https")
  && is_none_or (λ expires_at, expires_at >? now) (CookieSecretRecord_expires_at cookie)
  && path_matches (CookieSecretRecord_path cookie) (Url_path url).

Definition secret_cookie_cmp : CookieSecretRecord → CookieSecretRecord → comparison :=
  cmp_then (cmp_rev (cmp_on (str_len ∘ CookieSecretRecord_path) Z.compare))
    (cmp_on CookieSecretRecord_name String.compare).

Definition stored_cookie_header (now : time) (secret : CookieCredentialSecret) (url : Url) :
    result CredentialProxyError (option HeaderValue) :=
  host ← ok_or (Url_host_str url) OriginDenied;
  let cookies := sort_by secret_cookie_cmp
    (List.filter (stored_cookie_matches now host url) (CookieCredentialSecret_cookies secret)) in
  if zlen cookies >? MAX_COOKIE_COUNT then Err SecretUnavailable
  else
    value ← ok_or (push_cookies MAX_AUTH_HEADER_BYTES ""
      ((λ cookie, (CookieSecretRecord_name cookie, CookieSecretRecord_value cookie)) <$> cookies))
      SecretUnavailable;
    if str_is_empty value then Ok None
    else Some <$> ok_or (HeaderValue_from_str value) SecretUnavailable.
End checks.

(** ** The environment of the service *)

Section service.
Context {U : UrlLib} {H : HeaderLib} {G : Gzip} {C : CookieLib}.

Class CredentialEnv (W : Type) := {
  #[global] env_world :: World W;
  (** [Instant::now] and [Utc::now] *)
  env_clock : W → Clock * W;
  (** the values [Uuid::new_v4] gives next *)
  env_draws : W → list Uuid * W;
  (** [CredentialVaultPort] and [CredentialGrantPort] *)
  open_current : CredentialId → W → result CredentialPortError (option OpenedCredential) * W;
  replace_cookie : CredentialUpdateRequest → CookieCredentialSecret → W →
    result CredentialPortError CredentialMetadata * W;
  active_grant : PluginId → CredentialId → CredentialScope → W →
    result CredentialPortError (option ActiveGrantSnapshot) * W;
  (** what the other tasks do to the jars between two uses of them here *)
  other_tasks : TemporaryCookieJars → W → TemporaryCookieJars * W;
}.

Context {W : Type} {E : CredentialEnv W}.

(** The jars, the hook's recorded rejection, and the environment. *)
Record ProxyState := mkProxyState {
  ps_jars : TemporaryCookieJars;
  ps_rejection : option CredentialProxyError;
  ps_env : W;
}.

(** A call to the environment. *)
Definition env_call {A} (f : W → A * W) (s : ProxyState) : A * ProxyState :=
  let '(a, w) := f (ps_env s) in (a, mkProxyState (ps_jars s) (ps_rejection s) w).

(** A jar operation, after whatever the other tasks did to the jars. *)
Definition jar_call {A} (op : Jar A) (s : ProxyState) : result CookieJarError A * ProxyState :=
  let '(jars, w) := other_tasks (ps_jars s) (ps_env s) in
  let '(r, jars) := op jars in (r, mkProxyState jars (ps_rejection s) w).

Global Instance proxy_world : World ProxyState := {|
  requests_try_acquire := env_call requests_try_acquire;
  deadline_elapsed := env_call deadline_elapsed;
  semaphore_closed := env_call semaphore_closed;
  lock_poisoned := env_call lock_poisoned;
  join_failed := env_call join_failed;
  world_resolver := λ s host, env_call (λ w, resolve w host) s;
  transport_execute := λ target request, env_call (transport_execute target request);
|}.

(** *** The service monad *)

Definition Svc (A : Type) : Type := ProxyState → result CredentialProxyError A * ProxyState.
Global Instance Svc_ret : MRet Svc := λ A a s, (Ok a, s).
Global Instance Svc_bind : MBind Svc := λ A B f m s,
  match m s with
  | (Ok a, s) => f a s
  | (Err e, s) => (Err e, s)
  end.
Definition svc_lift {A} (r : result CredentialProxyError A) : Svc A := λ s, (r, s).
Definition svc_env {A} (f : W → A * W) : Svc A := λ s,
  let '(a, s) := env_call f s in (Ok a, s).
(** A jar operation, with its errors mapped. *)
Definition svc_jar {A} (op : Jar A) : Svc A := λ s,
  let '(r, s) := jar_call op s in (map_err map_jar_error r, s).

(** *** The hops *)

Inductive HookMode :=
| ModeJar (session_id : CookieJarSessionId) (binding : CookieJarBinding)
| ModeCredential (selection : CredentialSelection).

Definition set_header (request : TransportRequest) (name : string) (value : HeaderValue) :
    TransportRequest := {|
  TransportRequest_method := TransportRequest_method request;
  TransportRequest_url := TransportRequest_url request;
  TransportRequest_headers := HeaderMap_insert (TransportRequest_headers request) name value;
  TransportRequest_body := TransportRequest_body request;
|}.

Definition prepare_jar_hop (plugin : InstalledPluginContext) (session_id : CookieJarSessionId)
    (binding : CookieJarBinding) (target : PinnedTarget) (request : TransportRequest) :
    Svc (HopSecretState * TransportRequest) :=
  _ ← svc_lift (validate_jar_binding plugin binding);
  declaration ← svc_lift (provider_declaration plugin (CookieJarBinding_scope binding));
  origin ← svc_lift (request_origin (PinnedTarget_url target));
  if negb (list_contains (CookieJarBinding_target_origins binding) origin)
     || negb (list_contains (CredentialScopeDeclaration_target_origins declaration) origin)
  then svc_lift (Err OriginDenied)
  else
    clock ← svc_env env_clock;
    cookie ← svc_jar (jar_cookie_header clock session_id binding (PinnedTarget_url target));
    match cookie with
    | None => mret (HopSecretState_empty, request)
    | Some cookie =>
        state ← svc_lift (HopSecretState_from_cookie_header cookie);
        mret (state, set_header request "cookie" cookie)
    end.

Definition prepare_credential_hop (plugin : InstalledPluginContext)
    (selection : CredentialSelection) (target : PinnedTarget) (request : TransportRequest) :
    Svc (HopSecretState * TransportRequest) :=
  declaration ← svc_lift (consumer_declaration plugin (selection_scope selection));
  opened ← svc_env (open_current (selection_credential_id selection));
  opened ← svc_lift (map_err map_port_error opened);
  opened ← svc_lift (ok_or opened ProxyCredentialNotFound);
  grant ← svc_env (active_grant (context_plugin_id plugin) (selection_credential_id selection)
                       (selection_scope selection));
  grant ← svc_lift (map_err map_port_error grant);
  grant ← svc_lift (ok_or grant GrantMissing);
  origin ← svc_lift (request_origin (PinnedTarget_url target));
  clock ← svc_env env_clock;
  _ ← svc_lift (authorize_credential (utc_now clock) plugin selection declaration opened grant
                  origin);
  match CredentialMetadata_kind (opened_metadata opened) with
  | Cookie =>
      secret ← svc_lift (ok_or (CredentialSecretGuard_cookie (opened_secret opened))
                           SecretUnavailable);
      clock ← svc_env env_clock;
      cookie ← svc_lift (stored_cookie_header (utc_now clock) secret (PinnedTarget_url target));
      cookie ← svc_lift (ok_or cookie SecretUnavailable);
      state ← svc_lift (HopSecretState_from_cookie_header cookie);
      mret (state, set_header request "cookie" cookie)
  | Token =>
      token ← svc_lift (ok_or (CredentialSecretGuard_token (opened_secret opened))
                          SecretUnavailable);
      let token := TokenCredentialSecret_value token in
      value ← svc_lift (ok_or (HeaderValue_from_str ("Bearer " +:+ token)) SecretUnavailable);
      if zlen (HeaderValue_as_bytes value) >? MAX_AUTH_HEADER_BYTES
      then svc_lift (Err SecretUnavailable)
      else mret (HopSecretState_from_token token, set_header request "authorization" value)
  end.

(** [self.reject(error)] *)
Definition reject {A} (error : CredentialProxyError) (s : ProxyState) :
    result HttpHookError A * ProxyState :=
  (Err mkHttpHookError, mkProxyState (ps_jars s) (Some error) (ps_env s)).

Definition or_reject {A} (m : Svc A) (s : ProxyState) : result HttpHookError A * ProxyState :=
  match m s with
  | (Ok a, s) => (Ok a, s)
  | (Err error, s) => reject error s
  end.

Definition hook_prepare (plugin : InstalledPluginContext) (mode : HookMode)
    (target : PinnedTarget) (request : TransportRequest) :
    ProxyState → result HttpHookError (HopSecretState * TransportRequest) * ProxyState :=
  or_reject
    match mode with
    | ModeJar session_id binding => prepare_jar_hop plugin session_id binding target request
    | ModeCredential selection => prepare_credential_hop plugin selection target request
    end.

Definition hook_observe (mode : HookMode) (target : PinnedTarget) (state : HopSecretState)
    (response : TransportResponse) :
    ProxyState → result HttpHookError HopSecretState * ProxyState :=
  or_reject (
    state ← match mode with
            | ModeJar session_id binding =>
                clock ← svc_env env_clock;
                markers ← svc_jar (capture_response_with_markers clock session_id binding
                            (PinnedTarget_url target) (TransportResponse_headers response));
                mret (HopSecretState_add_markers state markers)
            | ModeCredential _ => mret state
            end;
    if existsb (λ '(name, value), negb (eqb name "set-cookie")
                  && HopSecretState_contains state (HeaderValue_as_bytes value))
         (HeaderMap_iter (TransportResponse_headers response))
    then svc_lift (Err DirectReflection)
    else mret state).

Definition hook_validate_visible (target : PinnedTarget) (state : HopSecretState)
    (response : ProxyResponse) : ProxyState → result HttpHookError unit * ProxyState :=
  or_reject (
    if existsb (λ '(_, value), HopSecretState_contains state (HeaderValue_as_bytes value))
         (HeaderMap_iter (ProxyResponse_headers response))
       || HopSecretState_contains state (ProxyResponse_body response)
    then svc_lift (Err DirectReflection)
    else mret tt).

Definition CredentialHttpHook (plugin : InstalledPluginContext) (mode : HookMode) :
    HttpHopHook ProxyState := {|
  HopState := HopSecretState;
  prepare := hook_prepare plugin mode;
  observe := hook_observe mode;
  validate_visible := hook_validate_visible;
|}.

(** *** The operations *)

Record CredentialProxyRequest := mkCredentialProxyRequest {
  proxy_request : ProxyRequest;
  proxy_cookie_jar_session_id : option CookieJarSessionId;
  proxy_credential : option CredentialSelection;
}.

Record ValidatedCredentialUpdate := mkValidatedCredentialUpdate {
  update_target_origins : list CredentialTargetOrigin;
  update_account_id_hint : option string;
  update_display_name : option string;
  update_status : CredentialStatus;
  update_safe_error_summary : option string;
  update_expires_at : option time;
  update_status_checked_at : option time;
}.

Definition create_login_jar (plugin : InstalledPluginContext) (scope : CredentialScope)
    (target_origins : list CredentialTargetOrigin) (ttl : time) : Svc CookieJarSessionId :=
  declaration ← svc_lift (provider_declaration plugin scope);
  target_origins ← svc_lift (declared_origins target_origins declaration);
  binding ← svc_lift (map_err map_jar_error (CookieJarBinding_login (context_plugin_id plugin)
    (PlatformSpec_id (PluginManifest_platform (context_manifest plugin))) scope target_origins));
  let binding := CookieJarBinding_with_manifest_hash binding (context_manifest_hash plugin) in
  clock ← svc_env env_clock;
  draws ← svc_env env_draws;
  svc_jar (jar_create clock draws binding ttl).

Definition create_refresh_jar (plugin : InstalledPluginContext) (credential_id : CredentialId)
    (scope : CredentialScope) (ttl : time) : Svc CookieJarSessionId :=
  declaration ← svc_lift (provider_declaration plugin scope);
  opened ← svc_env (open_current credential_id);
  opened ← svc_lift (map_err map_port_error opened);
  opened ← svc_lift (ok_or opened ProxyCredentialNotFound);
  clock ← svc_env env_clock;
  _ ← svc_lift (validate_refresh_credential (utc_now clock) plugin scope declaration opened);
  cookie ← svc_lift (ok_or (CredentialSecretGuard_cookie (opened_secret opened))
                       SecretUnavailable);
  binding ← svc_lift (map_err map_jar_error (CookieJarBinding_refresh (context_plugin_id plugin)
    (PlatformSpec_id (PluginManifest_platform (context_manifest plugin))) scope
    (CredentialMetadata_target_origins (opened_metadata opened)) credential_id
    (CredentialMetadata_revision (opened_metadata opened))));
  let binding := CookieJarBinding_with_manifest_hash binding (context_manifest_hash plugin) in
  clock ← svc_env env_clock;
  draws ← svc_env env_draws;
  svc_jar (create_seeded clock draws binding ttl cookie).

Definition proxy_binding (plugin : InstalledPluginContext) (session_id : CookieJarSessionId) :
    Svc CookieJarBinding :=
  clock ← svc_env env_clock;
  binding ← svc_jar (jar_binding clock session_id);
  _ ← svc_lift (validate_jar_binding plugin binding);
  mret binding.

Definition proxy_promotion_snapshot (plugin : InstalledPluginContext)
    (session_id : CookieJarSessionId) (target_origins : list CredentialTargetOrigin) :
    Svc PromotionSnapshot :=
  binding ← proxy_binding plugin session_id;
  clock ← svc_env env_clock;
  svc_jar (jar_promotion_snapshot clock session_id binding target_origins).

Definition cancel_jar (plugin : InstalledPluginContext) (session_id : CookieJarSessionId) :
    Svc unit :=
  binding ← proxy_binding plugin session_id;
  clock ← svc_env env_clock;
  svc_jar (jar_cancel clock session_id binding).

(** [let _ = self.jars.finish_refresh(..)]: the result is dropped. *)
Definition finish_ignored (session_id : CookieJarSessionId) (retryable : bool) : Svc unit := λ s,
  (Ok tt, (jar_call (finish_refresh session_id retryable) s).2).

(** The update request of a commit. *)
Definition commit_request (snapshot : RefreshCommitSnapshot) (update : ValidatedCredentialUpdate) :
    CredentialUpdateRequest := {|
  CredentialUpdateRequest_credential_id := RefreshCommitSnapshot_credential_id snapshot;
  CredentialUpdateRequest_expected_revision := RefreshCommitSnapshot_expected_revision snapshot;
  CredentialUpdateRequest_target_origins := RefreshCommitSnapshot_target_origins snapshot;
  CredentialUpdateRequest_account_id_hint := update_account_id_hint update;
  CredentialUpdateRequest_display_name := update_display_name update;
  CredentialUpdateRequest_status := update_status update;
  CredentialUpdateRequest_safe_error_summary := update_safe_error_summary update;
  CredentialUpdateRequest_expires_at := update_expires_at update;
  CredentialUpdateRequest_status_checked_at := update_status_checked_at update;
|}.

Definition commit_refresh (plugin : InstalledPluginContext) (session_id : CookieJarSessionId)
    (update : ValidatedCredentialUpdate) : Svc CredentialMetadata :=
  binding ← proxy_binding plugin session_id;
  _ ← svc_lift (provider_declaration plugin (CookieJarBinding_scope binding));
  clock ← svc_env env_clock;
  snapshot ← svc_jar (begin_refresh_commit clock session_id binding
                        (update_target_origins update));
  replaced ← svc_env (replace_cookie (commit_request snapshot update)
                         (RefreshCommitSnapshot_secret snapshot));
  match replaced with
  | Ok metadata =>
      _ ← svc_jar (finish_refresh session_id false);
      mret metadata
  | Err PortConflict =>
      _ ← finish_ignored session_id false; svc_lift (Err RefreshConflict)
  | Err PortUnavailable =>
      _ ← finish_ignored session_id true; svc_lift (Err ProxyUnavailable)
  | Err error =>
      _ ← finish_ignored session_id false; svc_lift (Err (map_port_error error))
  end.

Definition start_exchange (s : ProxyState) : Exchange ProxyState := mkExchange s [].

(** The exchange under a fresh hook, whose recorded rejection replaces the
    generic one. *)
Definition run_hooked (policy : ProxyPolicy) (plugin : InstalledPluginContext) (mode : HookMode)
    (request : ProxyRequest) (s : ProxyState) :
    result CredentialProxyError ProxyResponse * Exchange ProxyState :=
  let s := mkProxyState (ps_jars s) None (ps_env s) in
  let '(r, x) := execute_with_hook (K := CredentialHttpHook plugin mode) policy request
                   (start_exchange s) in
  (match r with
   | Ok response => Ok response
   | Err RequestRejected =>
       Err (default ProxyRequestRejected (ps_rejection (exchange_world x)))
   | Err error => Err (Proxy error)
   end, x).

(** [CredentialProxyService::execute].  The exchange in the answer holds the
    requests that were sent. *)
Definition proxy_execute (policy : ProxyPolicy) (plugin : InstalledPluginContext)
    (request : CredentialProxyRequest) (s : ProxyState) :
    result CredentialProxyError ProxyResponse * Exchange ProxyState :=
  match validate_plugin_context plugin with
  | Err e => (Err e, start_exchange s)
  | Ok _ =>
      match proxy_cookie_jar_session_id request, proxy_credential request with
      | Some _, Some _ => (Err InvalidProxyRequest, start_exchange s)
      | None, None =>
          let '(r, x) := execute policy (proxy_request request) (start_exchange s) in
          (map_err Proxy r, x)
      | Some session_id, None =>
          match proxy_binding plugin session_id s with
          | (Err e, s) => (Err e, start_exchange s)
          | (Ok binding, s) =>
              run_hooked policy plugin (ModeJar session_id binding) (proxy_request request) s
          end
      | None, Some selection =>
          run_hooked policy plugin (ModeCredential selection) (proxy_request request) s
      end
  end.
End service.

Arguments ProxyState {U C} W : assert.
Arguments Svc {U C} W A : assert.
