(* ===== verification/CredentialProxyFacts.v ===== *)
(** * Properties of the credential proxy

    What must hold before a secret leaves the core, what a response can no
    longer contain, and how a refresh commit ends. *)

From S2P Require Import Prelude Text Std Domain Foreign CredentialContract Policy.
From S2P Require Import PolicyFacts HttpProxy HttpFacts CredentialSecret CookieJar.
From S2P Require Import CookieJarFacts CookieJarProps CredentialProxy.

(** ** Slices and markers *)

Definition infix_of (needle haystack : list byte) : Prop := ∃ a b, haystack = a ++ needle ++ b.

Lemma contains_subslice_true haystack needle :
  contains_subslice haystack needle = true ↔ needle ≠ [] ∧ infix_of needle haystack.
Proof.
  unfold contains_subslice, infix_of. destruct needle as [|c needle]; [naive_solver|].
  cbn [length Nat.eqb negb andb]. rewrite existsb_exists. split.
  - intros (w & Hw & Heq). bool_prop. subst w. split; [done|].
    apply list_elem_of_In, windows_elem in Hw as [_ ?]; [done|simpl; lia].
  - intros [_ Hin]. exists (c :: needle). split; [|apply eqb_refl].
    apply list_elem_of_In, windows_elem; [simpl; lia|done].
Qed.

Lemma HopSecretState_contains_false state haystack :
  HopSecretState_contains state haystack = false ↔
  ∀ m, m ∈ hop_markers state → m ≠ [] → ¬ infix_of m haystack.
Proof.
  unfold HopSecretState_contains. rewrite <- not_true_iff_false, existsb_exists.
  setoid_rewrite contains_subslice_true. setoid_rewrite <- list_elem_of_In. naive_solver.
Qed.

Global Instance byte_cmp_preorder : CmpPreorder byte_cmp.
Proof. unfold byte_cmp. apply _. Qed.

Lemma HopSecretState_new_markers markers m :
  m ∈ hop_markers (HopSecretState_new markers) ↔ m ∈ markers ∧ m ≠ [].
Proof.
  unfold HopSecretState_new. simpl. rewrite elem_of_dedup.
  rewrite (elem_of_Permutation_proper m _ _ (sort_by_perm byte_cmp _)).
  rewrite list_elem_of_In, filter_In, <- list_elem_of_In.
  destruct m; simpl; naive_solver.
Qed.

Lemma add_markers_loop_keeps markers additions m :
  m ∈ markers ∨ (m ∈ additions ∧ m ≠ []) → m ∈ add_markers_loop markers additions.
Proof.
  revert markers. induction additions as [|x additions IH]; intros markers; simpl.
  { intros [?|[Hx _]]; [done|]. by apply not_elem_of_nil in Hx. }
  destruct (_ || _) eqn:E.
  - intros [?|[[->|?]%elem_of_cons Hne]]; apply IH; [by left| |by right].
    left. apply orb_prop in E as [E|E]; [by destruct x|].
    apply existsb_exists in E as (y & Hy & Heq). bool_prop. subst. by apply list_elem_of_In.
  - intros [?|[[->|?]%elem_of_cons Hne]]; apply IH; [left; set_solver..|by right].
Qed.

(** RFC 6265 path matching. *)
Lemma path_matches_true cookie_path request_path :
  path_matches cookie_path request_path = true ↔
  cookie_path = request_path ∨
  ∃ rest, request_path = cookie_path +:+ rest ∧
    (ends_with cookie_path "/" = true ∨ ∃ rest', rest = "/" +:+ rest').
Proof.
  unfold path_matches. rewrite orb_true_iff, andb_true_iff, orb_true_iff, starts_with_true.
  rewrite !eqb_eq. split.
  - intros [?|[[rest ->] Hend]]; [by left|right]. exists rest. split; [done|].
    destruct Hend as [?|Hget]; [by left|right]. rewrite bytes_app, <- length_bytes in Hget.
    rewrite lookup_app_r, Nat.sub_diag in Hget by lia.
    destruct rest as [|c rest]; [done|]. simpl in Hget. injection Hget as ->. by exists rest.
  - intros [?|(rest & -> & Hend)]; [by left|right]. split; [by exists rest|].
    destruct Hend as [?|[rest' ->]]; [by left|right]. rewrite bytes_app, <- length_bytes.
    by rewrite lookup_app_r, Nat.sub_diag by lia.
Qed.

(** ** Authorization *)

Lemma find_scope_Some scope declarations d :
  find_scope scope declarations = Some d →
  d ∈ declarations ∧ CredentialScopeDeclaration_scope d = scope.
Proof.
  unfold find_scope. intros [Hin Heq]%find_some. bool_prop.
  split; [by apply list_elem_of_In|done].
Qed.

(** The credential, the manifest's declaration and the grant agree, and all
    three cover the origin of the request. *)
Record credential_authorized (now : time) (plugin : InstalledPluginContext)
    (selection : CredentialSelection) (declaration : CredentialScopeDeclaration)
    (opened : OpenedCredential) (grant : ActiveGrantSnapshot) (origin : CredentialTargetOrigin) :
    Prop := {
  ca_credential : CredentialMetadata_id (opened_metadata opened) = selection_credential_id selection ∧
    CredentialMetadata_scope (opened_metadata opened) = selection_scope selection ∧
    CredentialMetadata_platform_id (opened_metadata opened) =
      PlatformSpec_id (PluginManifest_platform (context_manifest plugin));
  ca_active : CredentialMetadata_status (opened_metadata opened) = Active ∧
    ∀ t, CredentialMetadata_expires_at (opened_metadata opened) = Some t → now < t;
  ca_grant : grant_plugin_id grant = context_plugin_id plugin ∧
    grant_manifest_hash grant = context_manifest_hash plugin ∧
    grant_credential_id grant = selection_credential_id selection ∧
    grant_scope grant = selection_scope selection;
  ca_origin : origin ∈ CredentialScopeDeclaration_target_origins declaration ∧
    origin ∈ CredentialMetadata_target_origins (opened_metadata opened) ∧
    origin ∈ grant_target_origins grant;
  ca_granted : ∀ o, o ∈ grant_target_origins grant →
    o ∈ CredentialScopeDeclaration_target_origins declaration ∧
    o ∈ CredentialMetadata_target_origins (opened_metadata opened);
}.

Lemma existsb_false {A} (f : A → bool) (l : list A) :
  existsb f l = false → ∀ x, x ∈ l → f x = false.
Proof.
  intros Hf x Hx. destruct (f x) eqn:E; [|done].
  assert (existsb f l = true); [|congruence].
  apply existsb_exists. exists x. split; [by apply list_elem_of_In|done].
Qed.

Lemma is_expired_false now expires_at :
  is_expired now expires_at = false → ∀ t, expires_at = Some t → now < t.
Proof. unfold is_expired. intros He t ->. simpl in He. by bool_prop. Qed.

Lemma authorize_credential_Ok now plugin selection declaration opened grant origin :
  authorize_credential now plugin selection declaration opened grant origin = Ok tt →
  credential_authorized now plugin selection declaration opened grant origin.
Proof.
  unfold authorize_credential. intros Ha. simplify_result. bool_prop.
  repeat match goal with
  | Hc : list_contains _ _ = true |- _ => apply list_contains_elem in Hc
  | Hc : existsb _ _ = false |- _ => pose proof (existsb_false _ _ Hc); clear Hc
  | Hc : is_expired _ _ = false |- _ => pose proof (is_expired_false _ _ Hc); clear Hc
  end.
  split; try by split_and!.
  intros o Ho. match goal with Hall : ∀ x, x ∈ grant_target_origins grant → _ |- _ =>
    specialize (Hall o Ho); simpl in Hall end. bool_prop.
  split; by apply list_contains_elem.
Qed.

Lemma consumer_declaration_Ok plugin scope d :
  consumer_declaration plugin scope = Ok d →
  validate_plugin_context plugin = Ok tt ∧
  PluginManifest_plugin_type (context_manifest plugin) = Content ∧
  CredentialScopeDeclaration_scope d = scope ∧
  (d ∈ CredentialDeclarations_required_scopes (PluginManifest_credentials (context_manifest plugin)) ∨
   d ∈ CredentialDeclarations_optional_scopes (PluginManifest_credentials (context_manifest plugin))).
Proof.
  unfold consumer_declaration. intros Hc. simplify_result. bool_prop.
  match goal with Hf : find_scope _ _ = Some _ |- _ =>
    apply find_scope_Some in Hf as [Hin ?] end.
  apply elem_of_app in Hin. split_and!; try done.
  by destruct (PluginManifest_plugin_type _).
Qed.

Lemma provider_declaration_Ok plugin scope d :
  provider_declaration plugin scope = Ok d →
  PluginManifest_plugin_type (context_manifest plugin) = Credential ∧
  CredentialScopeDeclaration_scope d = scope ∧
  d ∈ CredentialDeclarations_provided_scopes (PluginManifest_credentials (context_manifest plugin)).
Proof.
  unfold provider_declaration. intros Hc. simplify_result. bool_prop.
  match goal with Hf : find_scope _ _ = Some _ |- _ =>
    apply find_scope_Some in Hf as [Hin ?] end.
  split_and!; try done. by destruct (PluginManifest_plugin_type _).
Qed.

(** A jar belongs to the plugin: same id, platform and installed manifest. *)
Definition binding_of_plugin (plugin : InstalledPluginContext) (b : CookieJarBinding) : Prop :=
  PluginManifest_plugin_type (context_manifest plugin) = Credential ∧
  CookieJarBinding_plugin_id b = context_plugin_id plugin ∧
  CookieJarBinding_platform_id b =
    PlatformSpec_id (PluginManifest_platform (context_manifest plugin)) ∧
  CookieJarBinding_manifest_hash b = Some (context_manifest_hash plugin).

Lemma validate_jar_binding_Ok plugin b :
  validate_jar_binding plugin b = Ok tt → binding_of_plugin plugin b.
Proof.
  unfold validate_jar_binding. intros Hv. simplify_result. bool_prop.
  split_and!; try done. by destruct (PluginManifest_plugin_type _).
Qed.

Section proxy_facts.
Context {U : UrlLib} {H : HeaderLib} {G : Gzip} {C : CookieLib} {W : Type} {E : CredentialEnv W}.
Implicit Types s : ProxyState W.

(** ** Running the service monad *)

Lemma svc_bind_Ok {A B} (m : Svc W A) (f : A → Svc W B) s b s' :
  (m ≫= f) s = (Ok b, s') → ∃ a s1, m s = (Ok a, s1) ∧ f a s1 = (Ok b, s').
Proof. unfold mbind, Svc_bind. destruct (m s) as [[a|e] s1]; [eauto|done]. Qed.

Lemma svc_lift_Ok {A B} (r : result CredentialProxyError A) (f : A → Svc W B) s b s' :
  (svc_lift r ≫= f) s = (Ok b, s') → ∃ a, r = Ok a ∧ f a s = (Ok b, s').
Proof. intros (a & s1 & [= -> ->] & Hf)%svc_bind_Ok. eauto. Qed.

Lemma svc_env_Ok {A B} (g : W → A * W) (f : A → Svc W B) s b s' :
  (svc_env g ≫= f) s = (Ok b, s') →
  ∃ a w, g (ps_env s) = (a, w) ∧ f a (mkProxyState (ps_jars s) (ps_rejection s) w) = (Ok b, s').
Proof.
  intros (a & s1 & Hg & Hf)%svc_bind_Ok. unfold svc_env, env_call in Hg.
  destruct (g (ps_env s)) as [a' w] eqn:Eg. injection Hg as -> <-. by exists a, w.
Qed.

(** A jar operation works on what the other tasks left. *)
Lemma svc_jar_Ok {A} (op : Jar A) s a s' :
  svc_jar op s = (Ok a, s') →
  ∃ jars w, other_tasks (ps_jars s) (ps_env s) = (jars, w) ∧ op jars = (Ok a, ps_jars s').
Proof.
  unfold svc_jar, jar_call. destruct (other_tasks _ _) as [jars w].
  destruct (op jars) as [r jars'] eqn:Eo. intros [= Hr <-]. apply map_err_Ok in Hr as ->.
  by exists jars, w.
Qed.

Ltac svc_step :=
  match goal with
  | Hs : (svc_lift _ ≫= _) _ = (Ok _, _) |- _ =>
      apply svc_lift_Ok in Hs as (? & ? & Hs)
  | Hs : (svc_env _ ≫= _) _ = (Ok _, _) |- _ =>
      apply svc_env_Ok in Hs as (? & ? & ? & Hs)
  | Hs : (mret _) _ = (Ok _, _) |- _ => injection Hs as ? ?; subst
  | Hs : (if ?b then svc_lift (Err _) else _) _ = (Ok _, _) |- _ =>
      let Hg := fresh "Hguard" in destruct b eqn:Hg; [discriminate Hs|]
  end.
#[local] Arguments HopSecretState_from_token : simpl never.
Ltac svc_steps := repeat (svc_step; simplify_eq/=).

(** ** The two kinds of hop *)

(** The secret markers of a cookie header: the header, its pairs and their
    values. *)
Definition cookie_markers (cookie : HeaderValue) (state : HopSecretState) : Prop :=
  ∃ text, HeaderValue_to_str cookie = Some text ∧
    (text ≠ "" → bytes text ∈ hop_markers state) ∧
    ∀ pair, pair ∈ split2 ";"%char " "%char text →
      (pair ≠ "" → bytes pair ∈ hop_markers state) ∧
      ∀ name value, split_once "="%char pair = Some (name, value) → value ≠ "" →
        bytes value ∈ hop_markers state.

Lemma bytes_ne text : text ≠ "" → bytes text ≠ [].
Proof. by destruct text. Qed.


Lemma from_token_markers token :
  token ≠ "" → bytes token ∈ hop_markers (HopSecretState_from_token token).
Proof.
  intros Hne. apply HopSecretState_new_markers. split; [by left|by apply bytes_ne].
Qed.

Lemma from_cookie_header_markers cookie state :
  HopSecretState_from_cookie_header cookie = Ok state → cookie_markers cookie state.
Proof.
  unfold HopSecretState_from_cookie_header. intros Hc. simplify_result.
  match goal with Ht : HeaderValue_to_str _ = Some ?t |- _ => exists t; split; [done|] end.
  setoid_rewrite HopSecretState_new_markers. split.
  { intros Hne. split; [by left|by apply bytes_ne]. }
  intros pair Hpair.
  assert (∀ m, m ∈ bytes pair :: match split_once "="%char pair with
      | Some (_, secret) => [bytes secret] | None => [] end →
    m ∈ concat ((λ pair, bytes pair :: match split_once "="%char pair with
      | Some (_, secret) => [bytes secret] | None => [] end) <$> split2 ";"%char " "%char x))
    as Hin.
  { intros m Hm. apply list_elem_of_In, in_concat. eexists. split; [|by apply list_elem_of_In].
    apply list_elem_of_In, list_elem_of_fmap. by exists pair. }
  split.
  - intros Hne. split; [|by apply bytes_ne]. apply elem_of_cons. right. apply Hin. by left.
  - intros name value Hs Hne. split; [|by apply bytes_ne]. apply elem_of_cons. right. apply Hin.
    rewrite Hs. apply elem_of_cons. right. by left.
Qed.

(** A hop with a stored credential, prepared in state [s]: who was asked, what
    they said, what was checked, and the header that was added.  The clock is the
    one read after the vault and the grants had answered. *)
Definition credential_hop (s : ProxyState W) (plugin : InstalledPluginContext)
    (selection : CredentialSelection) (target : PinnedTarget) (request : TransportRequest)
    (state : HopSecretState) (request' : TransportRequest) : Prop :=
  ∃ declaration opened grant origin clock w w1 w2,
    consumer_declaration plugin (selection_scope selection) = Ok declaration ∧
    open_current (selection_credential_id selection) (ps_env s) = (Ok (Some opened), w) ∧
    active_grant (context_plugin_id plugin) (selection_credential_id selection)
      (selection_scope selection) w = (Ok (Some grant), w1) ∧
    CredentialTargetOrigin_parse (Url_origin (PinnedTarget_url target)) = Ok origin ∧
    env_clock w1 = (clock, w2) ∧
    credential_authorized (utc_now clock) plugin selection declaration opened grant origin ∧
    match CredentialMetadata_kind (opened_metadata opened) with
    | Cookie => ∃ secret cookie clock' w3,
        CredentialSecretGuard_cookie (opened_secret opened) = Some secret ∧
        env_clock w2 = (clock', w3) ∧
        stored_cookie_header (utc_now clock') secret (PinnedTarget_url target) = Ok (Some cookie) ∧
        cookie_markers cookie state ∧ request' = set_header request "cookie" cookie
    | Token => ∃ token value,
        CredentialSecretGuard_token (opened_secret opened) = Some token ∧
        HeaderValue_from_str ("Bearer " +:+ TokenCredentialSecret_value token) = Some value ∧
        (TokenCredentialSecret_value token ≠ "" →
         bytes (TokenCredentialSecret_value token) ∈ hop_markers state) ∧
        zlen (HeaderValue_as_bytes value) ≤ MAX_AUTH_HEADER_BYTES ∧
        request' = set_header request "authorization" value
    end.

Lemma prepare_credential_hop_Ok plugin selection target request state request' s s' :
  prepare_credential_hop plugin selection target request s = (Ok (state, request'), s') →
  credential_hop s plugin selection target request state request'.
Proof.
  unfold prepare_credential_hop. intros Hp. svc_steps.
  repeat match goal with
  | Hr : map_err _ _ = Ok _ |- _ => apply map_err_Ok in Hr; subst
  | Hr : ok_or _ _ = Ok _ |- _ => apply ok_or_Ok in Hr; subst
  | u : unit |- _ => destruct u
  end.
  match goal with Ha : authorize_credential _ _ _ ?d ?o ?g ?or = Ok tt |- _ =>
    apply authorize_credential_Ok in Ha; exists d, o, g, or end.
  do 4 eexists. split; [done|]. split; [done|]. split; [done|].
  split; [by eapply map_err_Ok|]. split; [done|]. split; [done|].
  destruct (CredentialMetadata_kind _); svc_steps;
    repeat match goal with
    | Hr : ok_or _ _ = Ok _ |- _ => apply ok_or_Ok in Hr; subst
    end.
  - match goal with Hc : HopSecretState_from_cookie_header _ = Ok _ |- _ =>
      apply from_cookie_header_markers in Hc end.
    do 4 eexists. split_and!; done.
  - bool_prop. do 2 eexists. split; [done|]. split; [done|]. split; [|by split; [lia|]]. intros Hne.
    by apply from_token_markers.
Qed.

(** A hop with a temporary jar, prepared in state [s]. *)
Definition jar_hop (s : ProxyState W) (plugin : InstalledPluginContext) (session_id : CookieJarSessionId)
    (binding : CookieJarBinding) (target : PinnedTarget) (request : TransportRequest)
    (state : HopSecretState) (request' : TransportRequest) : Prop :=
  binding_of_plugin plugin binding ∧
  ∃ declaration origin clock w jars w' x,
    env_clock (ps_env s) = (clock, w) ∧ other_tasks (ps_jars s) w = (jars, w') ∧
    provider_declaration plugin (CookieJarBinding_scope binding) = Ok declaration ∧
    CredentialTargetOrigin_parse (Url_origin (PinnedTarget_url target)) = Ok origin ∧
    origin ∈ CookieJarBinding_target_origins binding ∧
    origin ∈ CredentialScopeDeclaration_target_origins declaration ∧
    bound_session clock session_id binding jars x ∧
    ((request' = request ∧ state = HopSecretState_empty ∧
      store_cookie_header clock (session_store x) (PinnedTarget_url target) = Ok None) ∨
     ∃ cookie, store_cookie_header clock (session_store x) (PinnedTarget_url target)
                 = Ok (Some cookie) ∧
       cookie_markers cookie state ∧ request' = set_header request "cookie" cookie).

Lemma jar_cookie_header_Ok clock id binding url jars value :
  (jar_cookie_header clock id binding url jars).1 = Ok value →
  ∃ x, bound_session clock id binding jars x ∧
       store_cookie_header clock (session_store x) url = Ok value.
Proof.
  rewrite jar_cookie_header_call. intros (x & u & Hb & Hf)%session_call_bound.
  apply bind_Ok in Hf as ([] & _ & Hf). apply bind_Ok in Hf as (v & Hv & [= <- _]). eauto.
Qed.

Lemma prepare_jar_hop_Ok plugin id binding target request state request' s s' :
  prepare_jar_hop plugin id binding target request s = (Ok (state, request'), s') →
  jar_hop s plugin id binding target request state request'.
Proof.
  unfold prepare_jar_hop. intros Hp. svc_steps. bool_prop.
  apply svc_bind_Ok in Hp as (cookie & s1 & Hj & Hp).
  apply svc_jar_Ok in Hj as (jars & w' & Hjars & Hj). apply (f_equal fst) in Hj. simpl in Hj, Hjars.
  apply jar_cookie_header_Ok in Hj as (x' & Hbound & Hstore).
  repeat match goal with
  | Hc : list_contains _ _ = true |- _ => apply list_contains_elem in Hc
  | u : unit |- _ => destruct u
  end.
  split; [by apply validate_jar_binding_Ok|].
  do 7 eexists. split; [done|]. split; [done|]. split; [done|].
  split; [by eapply map_err_Ok|]. split_and!; [done..|].
  destruct cookie as [cookie|]; svc_steps; [|by left]. right. exists cookie.
  split_and!; [done| |done]. by apply from_cookie_header_markers.
Qed.

(** The two kinds together. *)
Definition hop_of_mode (s : ProxyState W) (plugin : InstalledPluginContext) (mode : HookMode) :=
  match mode with
  | ModeJar id binding => jar_hop s plugin id binding
  | ModeCredential selection => credential_hop s plugin selection
  end.

Lemma hook_prepare_Ok plugin mode target request state request' s s' :
  hook_prepare plugin mode target request s = (Ok (state, request'), s') →
  hop_of_mode s plugin mode target request state request'.
Proof.
  unfold hook_prepare, or_reject. intros Hp. destruct mode as [id binding|selection].
  - destruct (prepare_jar_hop _ _ _ _ _ s) as [[[st rq]|e] s1] eqn:Ep; [|done].
    simplify_eq. by eapply prepare_jar_hop_Ok.
  - destruct (prepare_credential_hop _ _ _ _ s) as [[[st rq]|e] s1] eqn:Ep; [|done].
    simplify_eq. by eapply prepare_credential_hop_Ok.
Qed.

Lemma hook_observe_keeps mode target state response s state' s' m :
  hook_observe mode target state response s = (Ok state', s') →
  m ∈ hop_markers state → m ∈ hop_markers state'.
Proof.
  unfold hook_observe, or_reject. intros Ho Hm.
  match type of Ho with (match ?e with _ => _ end) = _ => destruct e as [[st|e'] s1] eqn:Em end;
    [|done]. simplify_eq.
  apply svc_bind_Ok in Em as (st & s2 & Hst & Em).
  destruct (existsb _ _); [done|]. injection Em as -> ->.
  destruct mode as [id binding|selection].
  - svc_steps. apply svc_bind_Ok in Hst as (markers & s3 & _ & Hret). injection Hret as <- _.
    apply add_markers_loop_keeps. by left.
  - by injection Hst as <- _.
Qed.

(** Nothing the plugin can read contains a marker. *)
Definition not_reflected (state : HopSecretState) (response : ProxyResponse) : Prop :=
  ∀ m, m ∈ hop_markers state → m ≠ [] →
    ¬ infix_of m (ProxyResponse_body response) ∧
    ∀ name value, (name, value) ∈ HeaderMap_iter (ProxyResponse_headers response) →
      ¬ infix_of m (HeaderValue_as_bytes value).

Lemma hook_validate_visible_Ok target state response s s' :
  hook_validate_visible target state response s = (Ok tt, s') → not_reflected state response.
Proof.
  unfold hook_validate_visible, or_reject. intros Hv.
  destruct (existsb _ _ || _) eqn:Ev; [done|]. apply orb_false_elim in Ev as [Hh Hbody].
  rewrite HopSecretState_contains_false in Hbody. intros m Hm Hne. split; [by apply Hbody|].
  intros name value Hin. pose proof (existsb_false _ _ Hh _ Hin) as Hc. simpl in Hc.
  rewrite HopSecretState_contains_false in Hc. by apply Hc.
Qed.

(** ** A hooked exchange *)

(** The state a hook starts in, and the states a hooked exchange can be in. *)
Definition fresh (s : ProxyState W) : ProxyState W := mkProxyState (ps_jars s) None (ps_env s).
Definition hooked_reachable (plugin : InstalledPluginContext) (mode : HookMode) :
    relation (ProxyState W) := reachable (K := CredentialHttpHook plugin mode).

Lemma run_hooked_sent policy plugin mode request s r x :
  policy_built policy → run_hooked policy plugin mode request s = (r, x) →
  zlen (exchange_sent x) ≤ 6 ∧
  ∀ target sent, (target, sent) ∈ exchange_sent x →
    target_ok policy target ∧
    ∃ s' state, hooked_reachable plugin mode (fresh s) s' ∧
      hop_of_mode s' plugin mode target (base_request request target) state sent.
Proof.
  intros Hb. unfold run_hooked.
  pose proof (execute_with_hook_spec (K := CredentialHttpHook plugin mode) policy request
    (start_exchange (fresh s)) Hb) as Hwp. unfold wp in Hwp.
  destruct (execute_with_hook _ _ _) as [r' x'] eqn:Ex. simpl in Hwp. intros [= _ <-].
  destruct Hwp as [(e & _ & ->)|(_ & _ & _ & target & w & _ & _ & calls & -> & Hall & Hlen & _)].
  { split; [done|]. intros ? ? Hin. by apply not_elem_of_nil in Hin. }
  split; [done|]. intros t sent Hin. rewrite Forall_forall in Hall. simpl in Hin.
  destruct (Hall _ Hin) as ([Hok _] & (w1 & st & w2 & Hw1 & Hprep) & _). split; [done|].
  exists w1, st. split; [exact Hw1|]. exact (hook_prepare_Ok _ _ _ _ _ _ _ _ Hprep).
Qed.

Lemma run_hooked_response policy plugin mode request s response x :
  policy_built policy → run_hooked policy plugin mode request s = (Ok response, x) →
  ∃ target sent s' state, last (exchange_sent x) = Some (target, sent) ∧
    hooked_reachable plugin mode (fresh s) s' ∧
    hop_of_mode s' plugin mode target (base_request request target) state sent ∧
    not_reflected state response.
Proof.
  intros Hb. unfold run_hooked.
  pose proof (execute_with_hook_spec (K := CredentialHttpHook plugin mode) policy request
    (start_exchange (fresh s)) Hb) as Hwp. unfold wp in Hwp.
  destruct (execute_with_hook _ _ _) as [r' x'] eqn:Ex. simpl in Hwp. intros [= Hr <-].
  destruct r' as [response'|e]; [|by destruct e]. injection Hr as ->.
  destruct Hwp as [(e & ? & _)|(_ & _ & _ & target & w & _ & _ & calls & Hsent & _ & _ & Hresp)]; [done|].
  destruct (Hresp response eq_refl)
    as (calls' & t & req & -> & _ & _ & raw & _ & _ & _ & w1 & st & w2 & w3 & st' & w4 & w5 & w6
        & Hw1 & _ & _ & Hprep & Hobs & Hvis).
  exists t, req, w1, st. split_and!.
  - rewrite Hsent. simpl. by rewrite last_snoc.
  - exact Hw1.
  - exact (hook_prepare_Ok _ _ _ _ _ _ _ _ Hprep).
  - pose proof (hook_validate_visible_Ok t st' response w5 w6 Hvis) as Hnr. intros m Hm Hne.
    apply Hnr; [|done]. exact (hook_observe_keeps _ _ _ _ _ _ _ _ Hobs Hm).
Qed.
End proxy_facts.
