(* ===== verification/CredentialProxyProps.v ===== *)
(** * What the credential proxy guarantees

    Secrets only leave the core on authorized hops, a response that reflects
    them is refused, jars belong to the plugin that opened them, and a refresh
    commit writes exactly what its session was opened for. *)

From S2P Require Import Prelude Text Domain Foreign CredentialContract Std Policy PolicyFacts.
From S2P Require Import HttpProxy HttpFacts CredentialSecret CookieJar CookieJarFacts.
From S2P Require Import CookieJarProps CredentialProxy CredentialProxyFacts.

(** ** Joined cookies *)

Definition cookie_pairs (cookies : list (string * string)) : list string :=
  (λ '(name, value), name +:+ "=" +:+ value) <$> cookies.

Lemma concat_cons_app sep a b l :
  String.concat sep ((a +:+ sep +:+ b) :: l) = String.concat sep (a :: b :: l).
Proof. destruct l; simpl; [done|]. by rewrite <- !str_app_assoc. Qed.

Lemma push_cookies_acc maximum value cookies out :
  value ≠ "" → push_cookies maximum value cookies = Some out →
  out = String.concat "; " (value :: cookie_pairs cookies).
Proof.
  revert value. induction cookies as [|[n v] cookies IH]; intros value Hne; cbn [push_cookies].
  { by intros [= <-]. }
  destruct (str_is_empty value) eqn:Ee; [by apply str_is_empty_true in Ee|].
  destruct (_ >? _); [done|]. intros Hp. apply IH in Hp; [|by destruct value].
  rewrite Hp, <- str_app_assoc. unfold cookie_pairs. rewrite fmap_cons. apply concat_cons_app.
Qed.

Lemma push_cookies_join maximum cookies out :
  push_cookies maximum "" cookies = Some out → out = String.concat "; " (cookie_pairs cookies).
Proof.
  destruct cookies as [|[n v] cookies]; cbn [push_cookies str_is_empty]; [by intros [= <-]|].
  destruct (_ >? _); [done|]. intros Hp. apply push_cookies_acc in Hp; [done|by destruct n].
Qed.

Lemma concat_pairs_empty sep cookies :
  String.concat sep (cookie_pairs cookies) = "" → cookies = [].
Proof.
  destruct cookies as [|[n v] cookies]; [done|]. unfold cookie_pairs. rewrite fmap_cons.
  destruct (_ <$> cookies); simpl; by destruct n.
Qed.

Global Instance secret_cookie_cmp_preorder : CmpPreorder secret_cookie_cmp.
Proof. unfold secret_cookie_cmp. apply _. Qed.

Section stored_cookies.
Context {U : UrlLib} {H : HeaderLib}.

(** A stored cookie that belongs on a request for a URL: RFC 6265 with exact
    hosts. *)
Definition belongs_to (now : time) (host : string) (url : Url) (cookie : CookieSecretRecord) :
    Prop :=
  to_ascii_lowercase (CookieSecretRecord_host cookie) = to_ascii_lowercase host ∧
  (CookieSecretRecord_secure cookie = true → Url_scheme url = "https") ∧
  (∀ t, CookieSecretRecord_expires_at cookie = Some t → now < t) ∧
  (CookieSecretRecord_path cookie = Url_path url ∨
   ∃ rest, Url_path url = CookieSecretRecord_path cookie +:+ rest ∧
     (ends_with (CookieSecretRecord_path cookie) "/" = true ∨ ∃ rest', rest = "/" +:+ rest')).

Lemma stored_cookie_matches_true now host url cookie :
  stored_cookie_matches now host url cookie = true ↔ belongs_to now host url cookie.
Proof.
  unfold stored_cookie_matches, belongs_to. rewrite !andb_true_iff, path_matches_true.
  unfold eq_ignore_ascii_case. rewrite eqb_eq, orb_true_iff, negb_true_iff, eqb_eq.
  assert (is_none_or (λ expires_at, expires_at >? now) (CookieSecretRecord_expires_at cookie) = true
    ↔ ∀ t, CookieSecretRecord_expires_at cookie = Some t → now < t) as ->.
  { destruct (CookieSecretRecord_expires_at cookie) as [t|]; simpl; [|naive_solver].
    rewrite Z.gtb_lt. naive_solver. }
  destruct (CookieSecretRecord_secure cookie); naive_solver.
Qed.

(** The [Cookie] header of a stored credential.  [Ok None] means that no stored
    cookie belongs on the request; otherwise the header is the list of exactly
    the cookies that do, each once, longest path first and then by name, joined
    by semicolons, at most 128 of them and at most 16 KiB. *)
Theorem stored_cookie_header_spec `{!HeaderLaws H} now secret url header :
  stored_cookie_header now secret url = Ok header →
  ∃ host cookies, Url_host_str url = Some host ∧
    cookies ≡ₚ List.filter (stored_cookie_matches now host url)
                 (CookieCredentialSecret_cookies secret) ∧
    StronglySorted (cmp_le secret_cookie_cmp) cookies ∧
    Forall (belongs_to now host url) cookies ∧ zlen cookies ≤ 128 ∧
    match header with
    | None => cookies = []
    | Some value =>
        HeaderValue_as_bytes value = bytes (String.concat "; " (cookie_pairs
          ((λ c, (CookieSecretRecord_name c, CookieSecretRecord_value c)) <$> cookies))) ∧
        zlen (HeaderValue_as_bytes value) ≤ 16 * 1024
    end.
Proof.
  unfold stored_cookie_header. set (pairs := fmap (λ c, (CookieSecretRecord_name c, _))).
  intros Hs. simplify_result. bool_prop.
  match goal with Hp : push_cookies _ _ (pairs ?l) = Some ?v, Hh : Url_host_str url = Some ?h |- _ =>
    exists h, l; set (cookies := l) in *; rename v into text; rename Hp into Hpush end.
  assert (cookies ≡ₚ List.filter (stored_cookie_matches now x url)
    (CookieCredentialSecret_cookies secret)) as Hperm by apply sort_by_perm.
  split_and!; [done|done|apply sort_by_sorted, _| |done|].
  { apply Forall_forall. intros c Hc. rewrite Hperm in Hc.
    apply list_elem_of_In, filter_In in Hc as [_ Hc]. by apply stored_cookie_matches_true. }
  assert (str_len text ≤ 16 * 1024) as Hlen
    by (apply push_cookies_Some in Hpush; [done|done]).
  apply push_cookies_join in Hpush. destruct (str_is_empty text) eqn:Ee.
  - injection Hs as <-. apply str_is_empty_true in Ee. subst text.
    apply concat_pairs_empty in Ee. by apply fmap_nil_inv in Ee.
  - destruct (HeaderValue_from_str text) as [value|] eqn:Ev; [|done]. simpl in Hs.
    injection Hs as <-. apply header_from_str in Ev. rewrite Ev, <- Hpush.
    by rewrite <- str_len_bytes.
Qed.
End stored_cookies.

(** ** Requests with credentials *)

Section proxy_properties.
Context {U : UrlLib} {H : HeaderLib} {G : Gzip} {C : CookieLib} {W : Type} {E : CredentialEnv W}.
Implicit Types s : ProxyState W.

(** The jar a call works on: its binding was read from the jars. *)
Lemma proxy_binding_Ok plugin id s binding s' :
  proxy_binding plugin id s = (Ok binding, s') →
  binding_of_plugin plugin binding ∧
  ∃ clock w jars w' x, env_clock (ps_env s) = (clock, w) ∧
    other_tasks (ps_jars s) w = (jars, w') ∧ bound_session clock id binding jars x ∧
    ps_jars s' = jars.
Proof.
  unfold proxy_binding. intros (clock & w & Hclock & Hp)%svc_env_Ok.
  apply svc_bind_Ok in Hp as (b & s1 & Hj & Hp). apply svc_jar_Ok in Hj as (jars & w' & Ho & Hj).
  simpl in Ho.
  apply svc_lift_Ok in Hp as ([] & Hv & [= -> ->]). split; [by apply validate_jar_binding_Ok|].
  rewrite jar_binding_call in Hj.
  apply session_call_cases in Hj
    as [(e & ? & _)|[(x & _ & _ & ? & _)|(x & a & u & Hx & Ht & Hf & [= <-] & ->)]]; [done..|].
  unfold ensure_active in Hf. simplify_result. bool_prop.
  exists clock, w, jars, w', x. by split_and!.
Qed.

(** What [execute] does once the mode of the hook is known. *)
Lemma proxy_execute_mode policy plugin request s r x :
  proxy_execute policy plugin request s = (r, x) →
  exchange_sent x ≠ [] ∨ (∃ response, r = Ok response) →
  match proxy_cookie_jar_session_id request, proxy_credential request with
  | Some id, None => ∃ binding s1, proxy_binding plugin id s = (Ok binding, s1) ∧
      run_hooked policy plugin (ModeJar id binding) (proxy_request request) s1 = (r, x)
  | None, Some selection =>
      run_hooked policy plugin (ModeCredential selection) (proxy_request request) s = (r, x)
  | None, None => ∃ r', execute policy (proxy_request request) (start_exchange s) = (r', x) ∧
      r = map_err Proxy r'
  | Some _, Some _ => False
  end.
Proof.
  unfold proxy_execute. destruct (validate_plugin_context plugin);
    [|by intros [= <- <-] [?|[? ?]]].
  destruct (proxy_cookie_jar_session_id request) as [id|],
    (proxy_credential request) as [selection|]; [by intros [= <- <-] [?|[? ?]]| |done|].
  - destruct (proxy_binding plugin id s) as [[binding|e] s1] eqn:Eb;
      [|by intros [= <- <-] [?|[? ?]]].
    intros Hr _. eauto.
  - destruct (execute _ _ _) as [r' x'] eqn:Ee. intros [= <- <-] _. eauto.
Qed.

(** C2. Every request that carries a stored credential was authorized when it was
    prepared.  The plugin is a content plugin whose manifest declares the scope;
    the vault's credential has the selected id and scope and the plugin's
    platform, is active and not expired by the clock that was read after the vault
    and the grants had answered; the grant is for this plugin, manifest,
    credential and scope; and declaration, credential and grant all name the
    origin of the URL the request goes to.  The URL itself passed the policy, at
    most six requests are sent, and the header added is the credential's. *)
Theorem credential_sent_authorized policy plugin request s r x selection :
  policy_built policy → proxy_credential request = Some selection →
  proxy_execute policy plugin request s = (r, x) →
  zlen (exchange_sent x) ≤ 6 ∧
  ∀ target sent, (target, sent) ∈ exchange_sent x →
    target_ok policy target ∧ proxy_cookie_jar_session_id request = None ∧
    ∃ s' state, hooked_reachable plugin (ModeCredential selection) (fresh s) s' ∧
      credential_hop s' plugin selection target
        (base_request (proxy_request request) target) state sent.
Proof.
  intros Hb Hsel Hex. destruct (exchange_sent x) as [|c l] eqn:Hs.
  { split; [done|]. intros ?? Hin. by apply not_elem_of_nil in Hin. }
  rewrite <- Hs. apply proxy_execute_mode in Hex; [|left; by rewrite Hs]. rewrite Hsel in Hex.
  destruct (proxy_cookie_jar_session_id request); [done|].
  apply run_hooked_sent in Hex as [Hlen Hall]; [|done]. split; [done|].
  intros target sent Hin. destruct (Hall target sent Hin) as (Hok & s' & state & Hs' & Hhop). eauto 10.
Qed.

(** C5. Every request of a session is sent for the credential plugin that opened
    it, under the manifest it had then, to an origin that the session's binding
    and the plugin's declaration of the scope both name, and carries exactly the
    cookies the session's store gives for the URL. *)
Theorem jar_sent_bound policy plugin request s r x id :
  policy_built policy → proxy_cookie_jar_session_id request = Some id →
  proxy_execute policy plugin request s = (r, x) →
  zlen (exchange_sent x) ≤ 6 ∧
  (exchange_sent x = [] ∨ ∃ binding s0, proxy_binding plugin id s = (Ok binding, s0) ∧
    ∀ target sent, (target, sent) ∈ exchange_sent x →
      target_ok policy target ∧ proxy_credential request = None ∧
      ∃ s' state, hooked_reachable plugin (ModeJar id binding) (fresh s0) s' ∧
        jar_hop s' plugin id binding target
          (base_request (proxy_request request) target) state sent).
Proof.
  intros Hb Hid Hex. destruct (exchange_sent x) as [|c l] eqn:Hs.
  { split; [done|by left]. }
  rewrite <- Hs. apply proxy_execute_mode in Hex; [|left; by rewrite Hs]. rewrite Hid in Hex.
  destruct (proxy_credential request); [done|]. destruct Hex as (binding & s1 & Hbind & Hex).
  apply run_hooked_sent in Hex as [Hlen Hall]; [|done]. split; [done|]. right. exists binding, s1.
  split; [done|].
  intros target sent Hin. destruct (Hall target sent Hin) as (Hok & s' & state & Hs' & Hhop). eauto 10.
Qed.

(** C3. A response that reaches the plugin shows none of the secrets of the request
    it answers: no whitelisted header and no part of the body contains the token,
    the cookie header, a pair of it or the value of a pair. *)
Theorem no_direct_reflection policy plugin request s response x :
  policy_built policy → proxy_execute policy plugin request s = (Ok response, x) →
  match proxy_cookie_jar_session_id request, proxy_credential request with
  | None, None => True
  | Some _, Some _ => False
  | Some id, None => ∃ binding s0 target sent s' state,
      proxy_binding plugin id s = (Ok binding, s0) ∧
      last (exchange_sent x) = Some (target, sent) ∧
      hooked_reachable plugin (ModeJar id binding) (fresh s0) s' ∧
      jar_hop s' plugin id binding target (base_request (proxy_request request) target) state sent ∧
      not_reflected state response
  | None, Some selection => ∃ target sent s' state,
      last (exchange_sent x) = Some (target, sent) ∧
      hooked_reachable plugin (ModeCredential selection) (fresh s) s' ∧
      credential_hop s' plugin selection target (base_request (proxy_request request) target)
        state sent ∧
      not_reflected state response
  end.
Proof.
  intros Hb Hex. apply proxy_execute_mode in Hex; [|by right; eauto].
  destruct (proxy_cookie_jar_session_id request) as [id|],
    (proxy_credential request) as [selection|]; [done| | |done].
  - destruct Hex as (binding & s1 & Hbind & Hex). exists binding, s1.
    apply run_hooked_response in Hex as (t & sent & s' & st & Hex); [|done]. by exists t, sent, s', st.
  - by apply run_hooked_response in Hex.
Qed.

(** ** Opening jars *)

Lemma create_with_store_Ok clock draws binding ttl store jars id jars' :
  create_with_store clock draws binding ttl store jars = (Ok id, jars') →
  jars_sessions jars' !! id =
    Some (mkCookieJarSession binding (instant_now clock + ttl) store SessionActive).
Proof.
  intros [(e & ? & _)|(_ & _ & [(? & _)|[(? & _)|(id' & [= <-] & _ & _ & ->)]])]
    %create_with_store_cases; [done..|]. simpl. by rewrite lookup_insert_eq.
Qed.

Lemma declared_origins_Ok requested declaration origins :
  declared_origins requested declaration = Ok origins →
  ∀ o, o ∈ origins → o ∈ CredentialScopeDeclaration_target_origins declaration.
Proof.
  unfold declared_origins. intros Hd. simplify_result. intros o Ho.
  pose proof (existsb_false _ _ Hguard0 o Ho) as Hin. simpl in Hin. bool_prop.
  by apply list_contains_elem.
Qed.

Lemma CookieJarBinding_new_Ok plugin_id platform_id scope origins purpose b :
  CookieJarBinding_new plugin_id platform_id scope origins purpose = Ok b →
  ∃ normalized, normalize_origins origins = Ok normalized ∧
    b = mkCookieJarBinding plugin_id None platform_id scope normalized purpose.
Proof. unfold CookieJarBinding_new. intros Hb. simplify_result. eauto. Qed.

(** A session opened for a plugin under its declaration of a scope. *)
Definition opened_jar (plugin : InstalledPluginContext) (scope : CredentialScope)
    (purpose : CookieJarPurpose) (session : CookieJarSession) : Prop :=
  ∃ declaration, provider_declaration plugin scope = Ok declaration ∧
    binding_of_plugin plugin (session_binding session) ∧
    CookieJarBinding_scope (session_binding session) = scope ∧
    CookieJarBinding_purpose_of (session_binding session) = purpose ∧
    session_state session = SessionActive ∧
    ∀ o, o ∈ CookieJarBinding_target_origins (session_binding session) →
      ∃ o', o' ∈ CredentialScopeDeclaration_target_origins declaration ∧
        CredentialTargetOrigin_parse (CredentialTargetOrigin_as_str o') = Ok o.

(** A cookie credential that may be refreshed. *)
Definition refreshable (now : time) (plugin : InstalledPluginContext) (scope : CredentialScope)
    (declaration : CredentialScopeDeclaration) (metadata : CredentialMetadata) : Prop :=
  CredentialMetadata_kind metadata = Cookie ∧
  CredentialMetadata_platform_id metadata =
    PlatformSpec_id (PluginManifest_platform (context_manifest plugin)) ∧
  CredentialMetadata_scope metadata = scope ∧ CredentialMetadata_status metadata = Active ∧
  (∀ t, CredentialMetadata_expires_at metadata = Some t → now < t) ∧
  ∀ o, o ∈ CredentialMetadata_target_origins metadata →
    o ∈ CredentialScopeDeclaration_target_origins declaration.

Lemma validate_refresh_credential_Ok now plugin scope declaration opened :
  validate_refresh_credential now plugin scope declaration opened = Ok tt →
  refreshable now plugin scope declaration (opened_metadata opened).
Proof.
  unfold validate_refresh_credential. intros Hv. simplify_result. bool_prop.
  repeat match goal with
  | Hc : existsb _ _ = false |- _ => pose proof (existsb_false _ _ Hc); clear Hc
  | Hc : is_expired _ _ = false |- _ => pose proof (is_expired_false _ _ Hc); clear Hc
  end.
  split_and!; try done. intros o Ho.
  match goal with Hall : ∀ x, x ∈ CredentialMetadata_target_origins _ → _ |- _ =>
    specialize (Hall o Ho); simpl in Hall end. bool_prop. by apply list_contains_elem.
Qed.

(** The binding a jar is created with. *)
Lemma opened_jar_intro plugin scope declaration origins normalized purpose expires store :
  provider_declaration plugin scope = Ok declaration →
  normalize_origins origins = Ok normalized →
  (∀ o, o ∈ origins → o ∈ CredentialScopeDeclaration_target_origins declaration) →
  opened_jar plugin scope purpose
    (mkCookieJarSession (CookieJarBinding_with_manifest_hash
       (mkCookieJarBinding (context_plugin_id plugin) None
          (PlatformSpec_id (PluginManifest_platform (context_manifest plugin))) scope normalized
          purpose) (context_manifest_hash plugin)) expires store SessionActive).
Proof.
  intros Hd Hn Hsub. exists declaration. split; [done|].
  apply provider_declaration_Ok in Hd as (Htype & _). split; [by split_and!|]. split_and!; [done..|].
  intros o Ho. simpl in Ho. apply normalize_origins_Ok in Hn as (_ & _ & Hn).
  apply Hn in Ho as (o' & Ho' & Hp). eauto.
Qed.

Lemma create_login_jar_Ok plugin scope origins ttl s id s' :
  create_login_jar plugin scope origins ttl s = (Ok id, s') →
  ∃ x, jars_sessions (ps_jars s') !! id = Some x ∧ opened_jar plugin scope PurposeLogin x ∧
    session_store x = CookieStore_default.
Proof.
  unfold create_login_jar. intros Hc.
  apply svc_lift_Ok in Hc as (d & Hd & Hc). apply svc_lift_Ok in Hc as (os & Hos & Hc).
  apply svc_lift_Ok in Hc as (b & Hb%map_err_Ok & Hc).
  apply svc_env_Ok in Hc as (clock & w & _ & Hc). apply svc_env_Ok in Hc as (draws & w' & _ & Hc).
  apply svc_jar_Ok in Hc as (jars & ? & _ & Hc). apply create_with_store_Ok in Hc.
  apply CookieJarBinding_new_Ok in Hb as (normalized & Hn & ->).
  eexists. split; [done|]. split; [|done].
  eapply opened_jar_intro; [done..|]. by apply (declared_origins_Ok origins).
Qed.

Lemma create_refresh_jar_Ok plugin credential_id scope ttl s id s' :
  create_refresh_jar plugin credential_id scope ttl s = (Ok id, s') →
  ∃ x opened declaration now, jars_sessions (ps_jars s') !! id = Some x ∧
    (open_current credential_id (ps_env s)).1 = Ok (Some opened) ∧
    provider_declaration plugin scope = Ok declaration ∧
    refreshable now plugin scope declaration (opened_metadata opened) ∧
    opened_jar plugin scope
      (PurposeRefresh credential_id (CredentialMetadata_revision (opened_metadata opened))) x.
Proof.
  unfold create_refresh_jar. intros Hc.
  apply svc_lift_Ok in Hc as (d & Hd & Hc). apply svc_env_Ok in Hc as (o & w & Ho & Hc).
  apply svc_lift_Ok in Hc as (o' & ->%map_err_Ok & Hc).
  apply svc_lift_Ok in Hc as (opened & ->%ok_or_Ok & Hc).
  apply svc_env_Ok in Hc as (clock & w' & _ & Hc). apply svc_lift_Ok in Hc as ([] & Hv & Hc).
  apply svc_lift_Ok in Hc as (cookie & _ & Hc).
  apply svc_lift_Ok in Hc as (b & Hb%map_err_Ok & Hc).
  apply svc_env_Ok in Hc as (clock' & w2 & _ & Hc). apply svc_env_Ok in Hc as (draws & w3 & _ & Hc).
  apply svc_jar_Ok in Hc as (jars & ? & _ & Hc). unfold create_seeded in Hc.
  rewrite jar_lift_bind in Hc. destruct (seed_store _ _ _ _) as [store|]; [|done].
  rewrite jar_lift_bind in Hc. destruct (enforce_store_limits _ _); [|done].
  apply create_with_store_Ok in Hc. unfold CookieJarBinding_refresh in Hb.
  destruct (_ =? 0); [done|]. apply CookieJarBinding_new_Ok in Hb as (normalized & Hn & ->).
  apply validate_refresh_credential_Ok in Hv. pose proof Hv as (_ & _ & _ & _ & _ & Hsub).
  eexists _, opened, d, _. split; [done|]. split; [by rewrite Ho|].
  split; [done|]. split; [done|]. by eapply opened_jar_intro.
Qed.

(** Who may open a jar, and for what.  A login jar starts empty; a refresh jar
    is opened only for an active, unexpired cookie credential of the plugin's
    platform and of the scope, and remembers its id and revision.  Both belong to
    the plugin and its manifest, and their origins are origins of the plugin's
    declaration of the scope. *)
Theorem create_jar_owned plugin scope ttl s id s' :
  (∀ origins, create_login_jar plugin scope origins ttl s = (Ok id, s') →
     ∃ x, jars_sessions (ps_jars s') !! id = Some x ∧ opened_jar plugin scope PurposeLogin x ∧
       session_store x = CookieStore_default) ∧
  (∀ credential_id, create_refresh_jar plugin credential_id scope ttl s = (Ok id, s') →
     ∃ x opened declaration now, jars_sessions (ps_jars s') !! id = Some x ∧
       (open_current credential_id (ps_env s)).1 = Ok (Some opened) ∧
       provider_declaration plugin scope = Ok declaration ∧
       refreshable now plugin scope declaration (opened_metadata opened) ∧
       opened_jar plugin scope
         (PurposeRefresh credential_id (CredentialMetadata_revision (opened_metadata opened))) x).
Proof. split; intros; [by eapply create_login_jar_Ok|by eapply create_refresh_jar_Ok]. Qed.

(** ** Refresh commits *)

(** A commit that reaches the vault: the jars before and after it began, what
    the vault answered, and the environment from there on. *)
Definition commit_run (plugin : InstalledPluginContext) (id : CookieJarSessionId)
    (update : ValidatedCredentialUpdate) (s : ProxyState W) (binding : CookieJarBinding)
    (snapshot : RefreshCommitSnapshot) (answer : result CredentialPortError CredentialMetadata)
    (before committing : TemporaryCookieJars) (w : W) : Prop :=
  ∃ s1 d clock w1 w2, proxy_binding plugin id s = (Ok binding, s1) ∧
    provider_declaration plugin (CookieJarBinding_scope binding) = Ok d ∧
    env_clock (ps_env s1) = (clock, w1) ∧ other_tasks (ps_jars s1) w1 = (before, w2) ∧
    begin_refresh_commit clock id binding (update_target_origins update) before
      = (Ok snapshot, committing) ∧
    replace_cookie (commit_request snapshot update) (RefreshCommitSnapshot_secret snapshot) w2
      = (answer, w).

(** Only an unavailable vault leaves the commit retryable. *)
Definition retryable (answer : result CredentialPortError CredentialMetadata) : bool :=
  match answer with Err PortUnavailable => true | _ => false end.

Lemma commit_refresh_run plugin id update s binding snapshot answer before committing w after w' :
  commit_run plugin id update s binding snapshot answer before committing w →
  other_tasks committing w = (after, w') →
  (commit_refresh plugin id update s).1 =
    match answer with
    | Ok metadata => match (finish_refresh id false after).1 with
                     | Ok _ => Ok metadata
                     | Err e => Err (map_jar_error e)
                     end
    | Err e => Err (map_port_error e)
    end ∧
  ps_jars (commit_refresh plugin id update s).2 = (finish_refresh id (retryable answer) after).2.
Proof.
  intros (s1 & d & clock & w1 & w2 & Hb & Hd & Hc & Ho & Hbegin & Hr) Hafter.
  unfold commit_refresh, mbind, Svc_bind, svc_lift, svc_env, env_call, svc_jar, jar_call.
  rewrite Hb, Hd, Hc. simpl. rewrite Ho, Hbegin. simpl. rewrite Hr.
  destruct answer as [metadata|[]]; cbn [retryable];
    unfold finish_ignored, jar_call; simpl; rewrite Hafter;
    destruct (finish_refresh _ _ _) as [[[]|e] jars]; done.
Qed.

Lemma commit_refresh_Ok plugin id update s metadata s' :
  commit_refresh plugin id update s = (Ok metadata, s') →
  ∃ binding snapshot before committing w after w',
    commit_run plugin id update s binding snapshot (Ok metadata) before committing w ∧
    other_tasks committing w = (after, w') ∧
    finish_refresh id false after = (Ok tt, ps_jars s').
Proof.
  unfold commit_refresh. intros (binding & s1 & Hb & Hc)%svc_bind_Ok.
  apply svc_lift_Ok in Hc as (d & Hd & Hc). apply svc_env_Ok in Hc as (clock & w1 & Hclock & Hc).
  apply svc_bind_Ok in Hc as (snapshot & s2 & Hj & Hc).
  unfold svc_jar, jar_call in Hj. simpl in Hj.
  destruct (other_tasks (ps_jars s1) w1) as [before w2] eqn:Ho.
  destruct (begin_refresh_commit _ _ _ _ _) as [r committing] eqn:Hbegin.
  injection Hj as Hr%map_err_Ok <-. subst r.
  apply svc_env_Ok in Hc as (answer & w & Hr & Hc). simpl in Hr, Hc.
  destruct answer as [metadata'|[]]; [|done..].
  apply svc_bind_Ok in Hc as ([] & s3 & Hf & [= -> ->]).
  unfold svc_jar, jar_call in Hf. simpl in Hf.
  destruct (other_tasks committing w) as [after w'] eqn:Hafter.
  destruct (finish_refresh _ _ _) as [rf jars] eqn:Hfin. injection Hf as ->%map_err_Ok <-.
  exists binding, snapshot, before, committing, w, after, w'. split_and!; [|done..].
  by exists s1, d, clock, w1, w2.
Qed.

Lemma commit_run_scope plugin id update s binding snapshot answer before committing w :
  commit_run plugin id update s binding snapshot answer before committing w →
  binding_of_plugin plugin binding ∧
  CookieJarBinding_refresh_identity binding =
    Some (RefreshCommitSnapshot_credential_id snapshot,
          RefreshCommitSnapshot_expected_revision snapshot) ∧
  (∀ o, o ∈ RefreshCommitSnapshot_target_origins snapshot →
     o ∈ CookieJarBinding_target_origins binding) ∧
  snapshot_scoped (RefreshCommitSnapshot_target_origins snapshot)
    (RefreshCommitSnapshot_secret snapshot).
Proof.
  intros (s1 & d & clock & w1 & w2 & Hb & _ & _ & _ & Hbegin & _).
  apply proxy_binding_Ok in Hb as [Hb _]. split; [done|].
  eapply begin_refresh_commit_scope. by rewrite Hbegin.
Qed.

(** What a successful commit wrote, whatever other tasks did to the jars
    meanwhile: the vault replaced the credential the session was opened for, at
    the revision it had then, by cookies for origins of the session's binding
    only; and the session is gone. *)
Theorem commit_refresh_scoped plugin id update s metadata s' :
  commit_refresh plugin id update s = (Ok metadata, s') →
  ∃ binding snapshot, binding_of_plugin plugin binding ∧
    CookieJarBinding_refresh_identity binding =
      Some (RefreshCommitSnapshot_credential_id snapshot,
            RefreshCommitSnapshot_expected_revision snapshot) ∧
    (∀ o, o ∈ RefreshCommitSnapshot_target_origins snapshot →
       o ∈ CookieJarBinding_target_origins binding) ∧
    snapshot_scoped (RefreshCommitSnapshot_target_origins snapshot)
      (RefreshCommitSnapshot_secret snapshot) ∧
    (∃ w : W, (replace_cookie (commit_request snapshot update)
                 (RefreshCommitSnapshot_secret snapshot) w).1 = Ok metadata) ∧
    jars_sessions (ps_jars s') !! id = None.
Proof.
  intros (binding & snapshot & before & committing & w & after & w' & Hrun & _ & Hf)%commit_refresh_Ok.
  exists binding, snapshot. destruct (commit_run_scope _ _ _ _ _ _ _ _ _ _ Hrun) as (? & ? & ? & ?).
  destruct Hrun as (s1 & d & clock & w1 & w2 & _ & _ & _ & _ & _ & Hr).
  split_and!; [done..|by exists w2; rewrite Hr|].
  unfold finish_refresh in Hf. rewrite jar_bind_eq in Hf. unfold lock_sessions in Hf.
  destruct (jars_poisoned after); [done|]. destruct (jars_sessions after !! id); [|done].
  injection Hf as <-. simpl. by rewrite lookup_delete_eq.
Qed.

(** How a commit ends when no other task touches the jars between its begin and
    its finish.  The answer is the vault's.  After success, and after any error
    but an unavailable vault, the session is gone and the other sessions are as
    before; an unavailable vault leaves the jars exactly as before, so that the
    commit can be retried. *)
Theorem commit_refresh_outcome plugin id update s binding snapshot answer before committing w w' :
  commit_run plugin id update s binding snapshot answer before committing w →
  other_tasks committing w = (committing, w') →
  (commit_refresh plugin id update s).1 = map_err map_port_error answer ∧
  ps_jars (commit_refresh plugin id update s).2 =
    if retryable answer then before
    else mkTemporaryCookieJars (delete id (jars_sessions before)) (jars_poisoned before).
Proof.
  intros Hrun Ho. destruct (commit_refresh_run _ _ _ _ _ _ _ _ _ _ _ _ Hrun Ho) as [-> ->].
  destruct Hrun as (s1 & d & clock & w1 & w2 & _ & _ & _ & _ & Hbegin & _).
  destruct (finish_after_begin _ _ _ _ _ _ _ Hbegin) as [Ht Hf].
  destruct answer as [metadata|[]]; cbn [retryable]; by rewrite ?Hf, ?Ht.
Qed.

(** Opening a jar drops the sessions that have expired. *)
Lemma jar_create_drops clock draws b ttl jars id :
  jars_poisoned jars = false → ttl ≤ MAX_SESSION_TTL → id ∉ mkCookieJarSessionId <$> draws →
  (∀ x, jars_sessions jars !! id = Some x → session_expires_at x ≤ instant_now clock) →
  let after := (jar_create clock draws b ttl jars).2 in
  jars_poisoned after = false ∧ jars_sessions after !! id = None.
Proof.
  intros Hp Httl Hfresh Hexp. cbv zeta. unfold jar_create, create_with_store.
  destruct (_ >? _) eqn:Et; bool_prop; [lia|]. rewrite jar_bind_eq. unfold lock_sessions.
  rewrite Hp, jar_bind_eq. unfold set_sessions at 1. rewrite Hp. set (live := filter _ _).
  assert (live !! id = None) as Hlive.
  { apply map_lookup_filter_None. destruct (jars_sessions jars !! id) as [x|] eqn:Hx; [|by left].
    right. intros y [= <-] Hlt. specialize (Hexp x eq_refl). lia. }
  destruct (_ >=? _); [done|]. rewrite jar_lift_bind.
  destruct (fresh_id draws live) as [id'|] eqn:Hid; [|done]. simpl. split; [done|].
  rewrite lookup_insert_ne; [done|]. intros ->. apply Hfresh. unfold fresh_id in Hid.
  destruct (List.find _ draws) as [u|] eqn:Hf; [|done]. simpl in Hid. injection Hid as <-.
  apply find_some in Hf as [Hin _]. apply list_elem_of_fmap. exists u.
  split; [done|by apply list_elem_of_In].
Qed.

(** A commit that succeeded in the vault is reported as a missing jar when the
    session expires while the vault works and another task opens a jar in the
    meantime, which drops expired sessions. *)
Theorem commit_refresh_lost_session plugin id update s binding snapshot metadata before committing w
    later draws b ttl w' :
  commit_run plugin id update s binding snapshot (Ok metadata) before committing w →
  other_tasks committing w = ((jar_create later draws b ttl committing).2, w') →
  ttl ≤ MAX_SESSION_TTL → id ∉ mkCookieJarSessionId <$> draws →
  (∀ x, jars_sessions committing !! id = Some x → session_expires_at x ≤ instant_now later) →
  (commit_refresh plugin id update s).1 = Err ProxyJarNotFound.
Proof.
  intros Hrun Ho Httl Hfresh Hexp.
  destruct (commit_refresh_run _ _ _ _ _ _ _ _ _ _ _ _ Hrun Ho) as [-> _].
  destruct Hrun as (s1 & d & clock & w1 & w2 & _ & _ & _ & _ & Hbegin & _).
  apply begin_refresh_commit_Ok in Hbegin as (_ & x & _ & ->).
  destruct (jar_create_drops later draws b ttl _ id (eq_refl : jars_poisoned
    (mkTemporaryCookieJars (<[id := with_state x SessionCommitting]> (jars_sessions before)) false)
    = false) Httl Hfresh Hexp) as [Hp Hnone].
  by rewrite finish_refresh_eq, Hnone.
Qed.
End proxy_properties.

(** * The environments of an exchange with credentials

    A relation that every call an exchange makes to the environment respects
    relates the environments of all the states an exchange goes through.  Components that
    implement the environment use it to carry their invariants to the proxy. *)

Section reach.
Context {U : UrlLib} {H : HeaderLib} {G : Gzip} {C : CookieLib} {W : Type} {E : CredentialEnv W}.
Implicit Types s : ProxyState W.

Record env_respects (R : relation W) : Prop := {
  env_respects_world : world_respects R;
  env_respects_clock : respects R env_clock;
  env_respects_open id : respects R (open_current id);
  env_respects_grant plugin_id id scope : respects R (active_grant plugin_id id scope);
  env_respects_others jars : respects R (other_tasks jars);
}.

Context (R : relation W) `{!PreOrder R} (HE : env_respects R).

(** The relation on the service's states. *)
Definition env_related : relation (ProxyState W) := λ s s', R (ps_env s) (ps_env s').
Global Instance env_related_preorder : PreOrder env_related.
Proof.
  split; [by intros s; unfold env_related|]. intros s1 s2 s3 H1 H2. unfold env_related in *.
  by etrans.
Qed.

Lemma respects_env_call {A} (f : W → A * W) : respects R f → respects env_related (env_call f).
Proof.
  intros Hf s. unfold env_call, env_related. specialize (Hf (ps_env s)).
  by destruct (f (ps_env s)).
Qed.

Lemma proxy_world_respects : world_respects env_related.
Proof.
  destruct (env_respects_world _ HE). split; intros; try by apply respects_env_call.
Qed.

Lemma respects_svc_ret {A} (a : A) : respects env_related (mret a : Svc W A).
Proof. intros s. by unfold env_related. Qed.
Lemma respects_svc_lift {A} (r : result CredentialProxyError A) :
  respects env_related (svc_lift r : Svc W A).
Proof. intros s. by unfold env_related. Qed.
Lemma respects_svc_env {A} (f : W → A * W) : respects R f → respects env_related (svc_env f).
Proof.
  intros Hf s. pose proof (respects_env_call f Hf s) as Hc. unfold svc_env.
  by destruct (env_call f s).
Qed.
Lemma respects_svc_jar {A} (op : Jar A) : respects env_related (svc_jar op).
Proof.
  intros s. unfold svc_jar, jar_call, env_related.
  pose proof (env_respects_others _ HE (ps_jars s) (ps_env s)) as Ho.
  destruct (other_tasks (ps_jars s) (ps_env s)) as [jars w]. by destruct (op jars).
Qed.
Lemma respects_svc_bind {A B} (m : Svc W A) (f : A → Svc W B) :
  respects env_related m → (∀ a, respects env_related (f a)) → respects env_related (m ≫= f).
Proof.
  intros Hm Hf s. unfold mbind, Svc_bind. specialize (Hm s). destruct (m s) as [[a|e] s1]; [|done].
  etrans; [exact Hm|apply Hf].
Qed.
Lemma respects_or_reject {A} (m : Svc W A) : respects env_related m → respects env_related (or_reject m).
Proof.
  intros Hm s. specialize (Hm s). unfold or_reject, reject. by destruct (m s) as [[a|e] s1].
Qed.

Ltac svc_respects :=
  repeat match goal with
  | |- respects _ (svc_lift _) => apply respects_svc_lift
  | |- respects _ (svc_jar _) => apply respects_svc_jar
  | |- respects _ (svc_env _) => apply respects_svc_env, HE
  | |- respects _ (mret _) => apply respects_svc_ret
  | |- respects _ (_ ≫= _) => apply respects_svc_bind; [|intros ?]
  | |- respects _ (or_reject _) => apply respects_or_reject
  | |- respects _ (match ?x with _ => _ end) => destruct x
  | |- respects _ (let _ := _ in _) => cbv zeta
  end.

Lemma credential_hook_respects plugin mode :
  hook_respects (K := CredentialHttpHook plugin mode) env_related.
Proof.
  split; intros; cbn [prepare observe validate_visible CredentialHttpHook];
    unfold hook_prepare, hook_observe, hook_validate_visible, prepare_jar_hop,
      prepare_credential_hop; svc_respects.
Qed.

Lemma hooked_reachable_env plugin mode s s' :
  hooked_reachable plugin mode s s' → R (ps_env s) (ps_env s').
Proof.
  intros Hr. apply (Hr env_related); [apply _|apply proxy_world_respects|
    apply credential_hook_respects].
Qed.
End reach.
