(* ===== verification/Crypto.v ===== *)
(** * Credential envelopes (crates/audiodown-credential-vault/src/crypto.rs)

    A secret is sealed with AES-256-GCM under the master key.  The record id, the
    scope and the versions are authenticated with it.  The cipher is an
    interface; a 32-byte key always builds a cipher, so [new_from_slice] has no
    error here.  The nonce the operating system draws, or its failure, is an
    argument of [encrypt]. *)

From S2P Require Import Prelude Text Domain.

Definition ALGORITHM_VERSION : Z := 1.
Definition MAX_PLAINTEXT_BYTES : Z := 64 * 1024.
Definition NONCE_BYTES : nat := 12.
Definition AUTHENTICATION_TAG_BYTES : Z := 16.
Definition ASSOCIATED_DATA_PREFIX : list byte := bytes "audiodown-credential-envelope" ++ [chr 0].

Record MasterKey := mkMasterKey { MasterKey_bytes : list byte }.

Record EncryptionContext := mkEncryptionContext {
  context_record_id : CredentialId;
  context_scope : CredentialScope;
  context_algorithm_version : Z;
  context_key_version : Z;
}.
Definition EncryptionContext_new (record_id : CredentialId) (scope : CredentialScope)
    (key_version : Z) : EncryptionContext :=
  mkEncryptionContext record_id scope ALGORITHM_VERSION key_version.

Record EncryptedEnvelope := mkEncryptedEnvelope {
  envelope_algorithm_version : Z;
  envelope_key_version : Z;
  envelope_nonce : list byte;
  envelope_ciphertext : list byte;
}.
Global Instance EncryptedEnvelope_eq_dec : EqDecision EncryptedEnvelope.
Proof. solve_decision. Defined.

Inductive CryptoError :=
| PlaintextTooLarge | UnsupportedAlgorithmVersion | InvalidKeyVersion | EnvelopeMetadataMismatch
| InvalidEnvelope | EncryptionFailed | RandomnessUnavailable | AuthenticationFailed.
Global Instance CryptoError_eq_dec : EqDecision CryptoError.
Proof. solve_decision. Defined.

(** ** The aes-gcm crate *)

Class Aead := {
  (** key, nonce, associated data, message *)
  aead_encrypt : list byte → list byte → list byte → list byte → option (list byte);
  aead_decrypt : list byte → list byte → list byte → list byte → option (list byte);
}.

(** Decryption accepts exactly the ciphertext that encrypting its answer gives,
    and a ciphertext is the message's length plus the tag. *)
Class AeadLaws (C : Aead) : Prop := {
  aead_open key nonce aad ciphertext message :
    aead_decrypt key nonce aad ciphertext = Some message ↔
    aead_encrypt key nonce aad message = Some ciphertext;
  aead_length key nonce aad message ciphertext :
    aead_encrypt key nonce aad message = Some ciphertext →
    zlen ciphertext = zlen message + AUTHENTICATION_TAG_BYTES;
}.

Definition validate_context (context : EncryptionContext) : result CryptoError unit :=
  if negb (context_algorithm_version context =? ALGORITHM_VERSION)
  then Err UnsupportedAlgorithmVersion
  else if context_key_version context =? 0 then Err InvalidKeyVersion
  else Ok tt.

Definition validate_plaintext (plaintext : list byte) : result CryptoError unit :=
  if zlen plaintext >? MAX_PLAINTEXT_BYTES then Err PlaintextTooLarge else Ok tt.

Definition validate_envelope (context : EncryptionContext) (envelope : EncryptedEnvelope) :
    result CryptoError unit :=
  if negb (envelope_algorithm_version envelope =? ALGORITHM_VERSION)
  then Err UnsupportedAlgorithmVersion
  else if envelope_key_version envelope =? 0 then Err InvalidKeyVersion
  else if negb (envelope_algorithm_version envelope =? context_algorithm_version context)
          || negb (envelope_key_version envelope =? context_key_version context)
  then Err EnvelopeMetadataMismatch
  else if (zlen (envelope_ciphertext envelope) <? AUTHENTICATION_TAG_BYTES)
          || (zlen (envelope_ciphertext envelope)
              >? MAX_PLAINTEXT_BYTES + AUTHENTICATION_TAG_BYTES)
  then Err InvalidEnvelope
  else Ok tt.

(** The length is cast to [u16]. *)
Definition associated_data (context : EncryptionContext) : list byte :=
  let scope := bytes (CredentialScope_as_str (context_scope context)) in
  ASSOCIATED_DATA_PREFIX
  ++ be_bytes 2 (context_algorithm_version context)
  ++ be_bytes 4 (context_key_version context)
  ++ be_bytes 16 (CredentialId_as_uuid (context_record_id context))
  ++ be_bytes 2 (zlen scope mod 2 ^ 16)
  ++ scope.

Section crypto.
Context {C : Aead}.

Definition encrypt_with_nonce (key : MasterKey) (context : EncryptionContext)
    (plaintext nonce : list byte) : result CryptoError EncryptedEnvelope :=
  validate_context context;;
  validate_plaintext plaintext;;
  ciphertext ← ok_or (aead_encrypt (MasterKey_bytes key) nonce (associated_data context) plaintext)
                 EncryptionFailed;
  Ok {| envelope_algorithm_version := context_algorithm_version context;
        envelope_key_version := context_key_version context;
        envelope_nonce := nonce;
        envelope_ciphertext := ciphertext |}.

Definition nonce_from_rng (drawn : option (list byte)) : result CryptoError (list byte) :=
  ok_or drawn RandomnessUnavailable.

Definition encrypt (key : MasterKey) (context : EncryptionContext) (plaintext : list byte)
    (drawn : option (list byte)) : result CryptoError EncryptedEnvelope :=
  validate_context context;;
  validate_plaintext plaintext;;
  nonce ← nonce_from_rng drawn;
  encrypt_with_nonce key context plaintext nonce.

Definition decrypt (key : MasterKey) (context : EncryptionContext)
    (envelope : EncryptedEnvelope) : result CryptoError (list byte) :=
  validate_context context;;
  validate_envelope context envelope;;
  ok_or (aead_decrypt (MasterKey_bytes key) (envelope_nonce envelope) (associated_data context)
           (envelope_ciphertext envelope)) AuthenticationFailed.
End crypto.

(** ** Properties *)

(** A context whose fields fit their Rust types, with a parsed scope. *)
Definition context_wf (context : EncryptionContext) : Prop :=
  0 ≤ context_algorithm_version context < 2 ^ 16 ∧ 0 ≤ context_key_version context < 2 ^ 32 ∧
  0 ≤ CredentialId_as_uuid (context_record_id context) < 2 ^ 128 ∧
  str_len (CredentialScope_as_str (context_scope context)) ≤ MAX_CREDENTIAL_SCOPE_BYTES.

(** The associated data determines the context: no two contexts authenticate
    the same bytes. *)
Theorem associated_data_injective c1 c2 :
  context_wf c1 → context_wf c2 → associated_data c1 = associated_data c2 → c1 = c2.
Proof.
  destruct c1 as [[id1] [scope1] av1 kv1], c2 as [[id2] [scope2] av2 kv2].
  unfold context_wf, associated_data. cbn [context_record_id context_scope
    context_algorithm_version context_key_version CredentialId_as_uuid CredentialScope_as_str].
  intros (Hav1 & Hkv1 & Hid1 & Hs1) (Hav2 & Hkv2 & Hid2 & Hs2) Heq%app_inv_head.
  apply app_inj_1 in Heq as [Hav Heq]; [|by rewrite !length_be_bytes].
  apply app_inj_1 in Heq as [Hkv Heq]; [|by rewrite !length_be_bytes].
  apply app_inj_1 in Heq as [Hid Heq]; [|by rewrite !length_be_bytes].
  apply app_inj_1 in Heq as [_ Hscope]; [|by rewrite !length_be_bytes].
  apply be_bytes_inj in Hav; [|done..]. apply be_bytes_inj in Hkv; [|done..].
  apply be_bytes_inj in Hid; [|done..]. apply (inj bytes) in Hscope. by subst.
Qed.

Lemma validate_context_Ok context :
  validate_context context = Ok tt ↔
  context_algorithm_version context = ALGORITHM_VERSION ∧ context_key_version context ≠ 0.
Proof.
  unfold validate_context. destruct (_ =? ALGORITHM_VERSION) eqn:Ea, (_ =? 0) eqn:Ek; simpl;
    bool_prop; naive_solver.
Qed.

Lemma validate_plaintext_Ok plaintext :
  validate_plaintext plaintext = Ok tt ↔ zlen plaintext ≤ MAX_PLAINTEXT_BYTES.
Proof. unfold validate_plaintext. destruct (_ >? _) eqn:El; bool_prop; split; try done; lia. Qed.

Lemma validate_envelope_Ok context envelope :
  validate_envelope context envelope = Ok tt ↔
  envelope_algorithm_version envelope = ALGORITHM_VERSION ∧ envelope_key_version envelope ≠ 0 ∧
  envelope_algorithm_version envelope = context_algorithm_version context ∧
  envelope_key_version envelope = context_key_version context ∧
  AUTHENTICATION_TAG_BYTES ≤ zlen (envelope_ciphertext envelope)
    ≤ MAX_PLAINTEXT_BYTES + AUTHENTICATION_TAG_BYTES.
Proof.
  unfold validate_envelope.
  repeat match goal with |- context [if ?b then _ else _] => destruct b eqn:? end;
    repeat match goal with H : _ || _ = true |- _ => apply orb_true_iff in H as [?|?] end;
    bool_prop; split; try done; lia.
Qed.

Section envelopes.
Context {C : Aead} `{!AeadLaws C}.

(** Opening an envelope is the inverse of sealing it: an envelope opens under a
    key and context to a secret exactly when sealing that secret under the same
    key and context, with the envelope's nonce, gives the envelope. *)
Lemma decrypt_encrypt key context envelope plaintext :
  decrypt key context envelope = Ok plaintext ↔
  encrypt_with_nonce key context plaintext (envelope_nonce envelope) = Ok envelope.
Proof.
  unfold decrypt, encrypt_with_nonce. split.
  - intros ([] & Hc & ([] & Hv & Ha%ok_or_Ok%aead_open)%bind_Ok)%bind_Ok. rewrite Hc. simpl.
    pose proof (aead_length _ _ _ _ _ Ha) as Hlen.
    apply validate_envelope_Ok in Hv as (_ & _ & Hav & Hkv & Hl).
    assert (validate_plaintext plaintext = Ok tt) as -> by (apply validate_plaintext_Ok; lia).
    simpl. rewrite Ha. simpl. destruct envelope; simpl in *. by subst.
  - intros ([] & Hc & ([] & Hp & (c & Ha%ok_or_Ok & [= He])%bind_Ok)%bind_Ok)%bind_Ok.
    rewrite Hc. simpl. pose proof (aead_length _ _ _ _ _ Ha) as Hlen.
    apply validate_context_Ok in Hc as [Hav Hkv]. apply validate_plaintext_Ok in Hp.
    assert (envelope_ciphertext envelope = c) as Hct by (by rewrite <- He).
    assert (validate_envelope context envelope = Ok tt) as ->.
    { apply validate_envelope_Ok. rewrite Hct, <- He. simpl.
      pose proof (Nat2Z.is_nonneg (length plaintext)). unfold zlen in *.
      split_and!; try done; lia. }
    simpl. apply aead_open in Ha. by rewrite Hct, Ha.
Qed.

Lemma encrypt_Ok key context plaintext drawn envelope :
  encrypt key context plaintext drawn = Ok envelope ↔
  ∃ nonce, drawn = Some nonce ∧ encrypt_with_nonce key context plaintext nonce = Ok envelope.
Proof.
  unfold encrypt. split.
  - intros ([] & _ & ([] & _ & (nonce & Hn%ok_or_Ok & He)%bind_Ok)%bind_Ok)%bind_Ok. eauto.
  - intros (nonce & -> & He). pose proof He as He'. unfold encrypt_with_nonce in He'.
    apply bind_Ok in He' as ([] & -> & He'). apply bind_Ok in He' as ([] & -> & _). done.
Qed.

(** What is sealed can be opened again under the same key and context, and only
    envelopes that sealing produces can be opened; the nonce is the drawn one. *)
Theorem sealed_roundtrip key context :
  (∀ plaintext drawn envelope, encrypt key context plaintext drawn = Ok envelope →
     drawn = Some (envelope_nonce envelope) ∧ decrypt key context envelope = Ok plaintext) ∧
  (∀ envelope plaintext, decrypt key context envelope = Ok plaintext →
     zlen plaintext ≤ MAX_PLAINTEXT_BYTES ∧
     encrypt key context plaintext (Some (envelope_nonce envelope)) = Ok envelope).
Proof.
  split.
  - intros plaintext drawn envelope (nonce & -> & He)%encrypt_Ok.
    assert (envelope_nonce envelope = nonce) as Hn.
    { unfold encrypt_with_nonce in He. simplify_result. done. }
    split; [by rewrite Hn|]. apply decrypt_encrypt. by rewrite Hn.
  - intros envelope plaintext He%decrypt_encrypt. split; [|apply encrypt_Ok; eauto].
    unfold encrypt_with_nonce in He. apply bind_Ok in He as (_ & _ & He).
    apply bind_Ok in He as ([] & Hp & _). by apply validate_plaintext_Ok.
Qed.
End envelopes.
