(* ===== verification/Stateful.v ===== *)
(** * Stateful computations

    Code that threads a state and may fail, [async fn f(&self) -> Result<A, E>]:
    the vault, the database and the adapters of the server.  A computation
    returns the state it leaves also when it fails. *)

From S2P Require Import Prelude.

Definition act (S E A : Type) : Type := S → result E A * S.

Global Instance act_ret {S E} : MRet (act S E) := λ A a s, (Ok a, s).
Global Instance act_bind {S E} : MBind (act S E) := λ A B f m s,
  match m s with
  | (Ok a, s) => f a s
  | (Err e, s) => (Err e, s)
  end.

(** A pure result, a failure, and a question to the state that cannot fail. *)
Definition pure {S E A} (r : result E A) : act S E A := λ s, (r, s).
Definition throw {S E A} (e : E) : act S E A := λ s, (Err e, s).
Definition query {S E A} (f : S → A * S) : act S E A := λ s, let '(a, s) := f s in (Ok a, s).

(** [.map_err(f)] *)
Definition map_errors {S E F A} (f : E → F) (m : act S E A) : act S F A := λ s,
  let '(r, s) := m s in (map_err f r, s).

(** What the code after a failed block does, its own failure ignored. *)
Definition on_error {S E A F B} (m : act S E A) (undo : act S F B) : act S E A := λ s,
  match m s with
  | (Ok a, s) => (Ok a, s)
  | (Err e, s) => (Err e, (undo s).2)
  end.

(** A computation on one part of a larger state. *)
Definition focus {S T E A} (get : T → S) (put : S → T → T) (m : act S E A) : act T E A := λ t,
  let '(r, s) := m (get t) in (r, put s t).

(** [for x in l { f(x).await?; }], and the loop that collects the values. *)
Fixpoint act_each {S E A} (f : A → act S E unit) (l : list A) : act S E unit :=
  match l with
  | [] => mret tt
  | x :: l => f x;; act_each f l
  end.
Fixpoint act_map {S E A B} (f : A → act S E B) (l : list A) : act S E (list B) :=
  match l with
  | [] => mret []
  | x :: l => y ← f x; l ← act_map f l; mret (y :: l)
  end.

(** ** What a successful computation did *)

Section act_lemmas.
Context {S E : Type}.

Lemma act_bind_Ok {A B} (m : act S E A) (f : A → act S E B) s b s' :
  (m ≫= f) s = (Ok b, s') ↔ ∃ a s1, m s = (Ok a, s1) ∧ f a s1 = (Ok b, s').
Proof.
  unfold mbind, act_bind. destruct (m s) as [[a|e] s1]; [naive_solver|].
  split; [done|]. by intros (? & ? & ? & ?).
Qed.

Lemma act_bind_Err {A B} (m : act S E A) (f : A → act S E B) s e s' :
  (m ≫= f) s = (Err e, s') ↔
  m s = (Err e, s') ∨ ∃ a s1, m s = (Ok a, s1) ∧ f a s1 = (Err e, s').
Proof.
  unfold mbind, act_bind. destruct (m s) as [[a|e'] s1]; split.
  - intros H. right. eauto.
  - intros [?|(? & ? & ? & ?)]; simplify_eq. done.
  - intros [= -> ->]. by left.
  - intros [?|(? & ? & ? & ?)]; simplify_eq. done.
Qed.

Lemma act_ret_Ok {A} (a b : A) (s s' : S) :
  (mret a : act S E A) s = (Ok b, s') ↔ b = a ∧ s' = s.
Proof. unfold mret, act_ret. naive_solver. Qed.

Lemma pure_Ok {A} (r : result E A) a (s s' : S) :
  pure r s = (Ok a, s') ↔ r = Ok a ∧ s' = s.
Proof. unfold pure. naive_solver. Qed.

Lemma query_Ok {A} (f : S → A * S) a s s' :
  (query f : act S E A) s = (Ok a, s') ↔ f s = (a, s').
Proof. unfold query. destruct (f s); naive_solver. Qed.

Lemma query_inv {A} (f : S → A * S) a s s' :
  (query f : act S E A) s = (Ok a, s') → f s = (a, s').
Proof. apply query_Ok. Qed.

Lemma query_Err {A} (f : S → A * S) e s s' : (query f : act S E A) s ≠ (Err e, s').
Proof. unfold query. destruct (f s); naive_solver. Qed.

Lemma map_errors_Ok {F A} (g : E → F) (m : act S E A) a s s' :
  map_errors g m s = (Ok a, s') ↔ m s = (Ok a, s').
Proof. unfold map_errors. destruct (m s) as [[]]; naive_solver. Qed.

Lemma map_errors_Err {F A} (g : E → F) (m : act S E A) e s s' :
  map_errors g m s = (Err e, s') ↔ ∃ e', m s = (Err e', s') ∧ e = g e'.
Proof. unfold map_errors. destruct (m s) as [[]]; naive_solver. Qed.

Lemma act_map_Ok {A B} (f : A → act S E B) x l ys s s' :
  act_map f (x :: l) s = (Ok ys, s') ↔
  ∃ y s1 ys', f x s = (Ok y, s1) ∧ act_map f l s1 = (Ok ys', s') ∧ ys = y :: ys'.
Proof.
  cbn [act_map]. rewrite act_bind_Ok. split.
  - intros (y & s1 & Hy & (ys' & s2 & Hl & [-> ->]%act_ret_Ok)%act_bind_Ok). naive_solver.
  - intros (y & s1 & ys' & Hy & Hl & ->). exists y, s1. split; [done|].
    apply act_bind_Ok. exists ys', s'. by rewrite act_ret_Ok.
Qed.
End act_lemmas.

(** Split the run of a successful computation into the runs of its steps. *)
Ltac act_step :=
  match goal with
  | H : (_ ≫= _) _ = (Ok _, _) |- _ => apply act_bind_Ok in H as (? & ? & ? & H)
  | H : mret _ _ = (Ok _, _) |- _ => apply act_ret_Ok in H as [? H]
  | H : pure _ _ = (Ok _, _) |- _ => apply pure_Ok in H as [H ?]
  | H : query _ _ = (Ok _, _) |- _ => apply query_inv in H
  | H : throw _ _ = (Ok _, _) |- _ => discriminate H
  | H : map_errors _ _ _ = (Ok _, _) |- _ => apply map_errors_Ok in H
  | H : (if ?b then throw _ else _) _ = (Ok _, _) |- _ =>
      let Hb := fresh "Hguard" in destruct b eqn:Hb; [discriminate H|]
  | H : (match ?o with Some _ => _ | None => throw _ end) _ = (Ok _, _) |- _ =>
      let Ho := fresh "Hopt" in destruct o eqn:Ho; [|discriminate H]
  end.
Ltac act_steps := repeat (first [act_step | result_step]; simplify_eq/=).

(** ** What every run of a computation respects

    [moves R m]: whatever [m] answers, the state it leaves is [R]-related to the
    one it found. *)
Definition moves {S E A} (R : relation S) (m : act S E A) : Prop := ∀ s, R s (m s).2.

Lemma moves_run {S E A} (R : relation S) (m : act S E A) s r s' :
  moves R m → m s = (r, s') → R s s'.
Proof. intros Hm Hs. specialize (Hm s). by rewrite Hs in Hm. Qed.

Section moves.
Context {S E : Type} (R : relation S) `{!PreOrder R}.

Lemma moves_ret {A} (a : A) : moves R (mret a : act S E A).
Proof. by intros s. Qed.
Lemma moves_pure {A} (r : result E A) : moves R (pure r).
Proof. by intros s. Qed.
Lemma moves_throw {A} e : moves R (throw e : act S E A).
Proof. by intros s. Qed.
Lemma moves_query {A} (f : S → A * S) : (∀ s, R s (f s).2) → moves R (query f : act S E A).
Proof. intros Hf s. unfold query. specialize (Hf s). by destruct (f s). Qed.
Lemma moves_bind {A B} (m : act S E A) (f : A → act S E B) :
  moves R m → (∀ a, moves R (f a)) → moves R (m ≫= f).
Proof.
  intros Hm Hf s. unfold mbind, act_bind. specialize (Hm s).
  destruct (m s) as [[a|e] s1]; [|done]. etrans; [exact Hm|apply Hf].
Qed.
Lemma moves_map_errors {F A} (g : E → F) (m : act S E A) : moves R m → moves R (map_errors g m).
Proof. intros Hm s. unfold map_errors. specialize (Hm s). by destruct (m s). Qed.
Lemma moves_each {A} (f : A → act S E unit) l : (∀ a, moves R (f a)) → moves R (act_each f l).
Proof.
  intros Hf. induction l as [|x l IH]; cbn [act_each]; [apply moves_ret|by apply moves_bind].
Qed.
Lemma moves_map {A B} (f : A → act S E B) l : (∀ a, moves R (f a)) → moves R (act_map f l).
Proof.
  intros Hf. induction l as [|x l IH]; cbn [act_map]; [apply moves_ret|].
  apply moves_bind; [done|]. intros y. apply moves_bind; [done|]. intros ys. apply moves_ret.
Qed.
End moves.

Lemma on_error_moves {S E A F B} (R : relation S) `{!PreOrder R} (m : act S E A) (undo : act S F B) :
  moves R m → moves R undo → moves R (on_error m undo).
Proof.
  intros Hm Hu s. unfold on_error. specialize (Hm s). destruct (m s) as [[a|e] s1]; [done|].
  etrans; [exact Hm|apply Hu].
Qed.

Lemma on_error_Ok {S E A F B} (m : act S E A) (undo : act S F B) s a s' :
  on_error m undo s = (Ok a, s') → m s = (Ok a, s').
Proof. unfold on_error. by destruct (m s) as [[]]. Qed.

(** Reduce to the parts of a computation that change the state. *)
Ltac moves :=
  repeat match goal with
  | |- moves _ (_ ≫= _) => apply moves_bind; [apply _| |intros ?]
  | |- moves _ (mret _) => apply moves_ret; apply _
  | |- moves _ (pure _) => apply moves_pure; apply _
  | |- moves _ (throw _) => apply moves_throw; apply _
  | |- moves _ (map_errors _ _) => apply moves_map_errors
  | |- moves _ (act_each _ _) => apply moves_each; [apply _|intros ?]
  | |- moves _ (act_map _ _) => apply moves_map; [apply _|intros ?]
  | |- moves _ (let '(_, _) := ?x in _) => destruct x
  | |- moves _ (match ?x with _ => _ end) => destruct x
  end.
