(* ===== verification/Vault.v ===== *)
(** * The credential vault (crates/audiodown-credential-vault/src/service.rs)

    The vault keeps encrypted credentials in a repository and offers three
    ports: metadata, trusted writes, and opening secrets.  The repository is the
    trait of the code, a class over the state; the clock, the identifiers and the
    nonces come from the state as well, and each place that reads the clock reads
    it anew. *)

From S2P Require Import Prelude Stateful Text Domain Foreign CredentialContract CredentialSecret.
From S2P Require Import Crypto.

Definition CURRENT_KEY_VERSION : Z := 1.

Inductive CredentialRepositoryError := RepositoryConflict | RepositoryNotFound
| RepositoryDown | RepositoryInvalidRecord.
Global Instance CredentialRepositoryError_eq_dec : EqDecision CredentialRepositoryError.
Proof. solve_decision. Defined.

Inductive VaultError :=
| VaultInvalidRequest | VaultNotFound | VaultConflict | VaultRepositoryUnavailable | VaultExpired
| VaultRevoked | VaultCrypto | VaultSecretPayload.
Global Instance VaultError_eq_dec : EqDecision VaultError.
Proof. solve_decision. Defined.

Definition from_repository (error : CredentialRepositoryError) : VaultError :=
  match error with
  | RepositoryConflict => VaultConflict
  | RepositoryNotFound => VaultNotFound
  | RepositoryDown => VaultRepositoryUnavailable
  | RepositoryInvalidRecord => VaultInvalidRequest
  end.
Definition from_crypto (_ : CryptoError) : VaultError := VaultCrypto.
Definition from_secret (_ : SecretPayloadError) : VaultError := VaultSecretPayload.

Inductive SecretInput :=
| InputCookie (secret : CookieCredentialSecret)
| InputToken (secret : TokenCredentialSecret).

Record CredentialCreateRequest := mkCredentialCreateRequest {
  CredentialCreateRequest_platform_id : string;
  CredentialCreateRequest_scope : CredentialScope;
  CredentialCreateRequest_source_plugin_id : option PluginId;
  CredentialCreateRequest_target_origins : list CredentialTargetOrigin;
  CredentialCreateRequest_account_id_hint : option string;
  CredentialCreateRequest_display_name : option string;
  CredentialCreateRequest_expires_at : option time;
}.

Record StoredCredential := mkStoredCredential {
  stored_metadata : CredentialMetadata;
  stored_id : CredentialId;
  stored_kind : CredentialKind;
  stored_platform_id : string;
  stored_scope : CredentialScope;
  stored_source_plugin_id : option PluginId;
  stored_target_origins : list CredentialTargetOrigin;
  stored_account_id_hint : option string;
  stored_display_name : option string;
  stored_status : CredentialStatus;
  stored_safe_error_summary : option string;
  stored_expires_at : option time;
  stored_status_checked_at : option time;
  stored_created_at : time;
  stored_updated_at : time;
  stored_revision : Z;
  stored_envelope : EncryptedEnvelope;
}.

(** ** Request validation *)

Definition vault_validate_platform_id (platform_id : string) : result VaultError unit :=
  if str_is_empty platform_id || (str_len platform_id >? 64)
     || negb (str_all (λ byte, is_ascii_lowercase byte || is_ascii_digit byte
                               || eqb byte "-"%char) platform_id)
  then Err VaultInvalidRequest else Ok tt.

Definition vault_validate_safe_text (value : option string) : result VaultError unit :=
  if is_some_and (λ value, (str_len value >? 512) || any_control (bytes value)) value
  then Err VaultInvalidRequest else Ok tt.

Definition ownership_of (source_plugin_id : option PluginId) : CredentialOwnership :=
  match source_plugin_id with Some plugin_id => OwnedByPlugin plugin_id | None => Retained end.

Section validation.
Context {U : UrlLib}.

Definition vault_validate_origins (origins : list CredentialTargetOrigin) :
    result VaultError unit :=
  if (length origins =? 0)%nat || (zlen origins >? 16) then Err VaultInvalidRequest
  else for_each (λ origin,
         _ ← map_err (λ _, VaultInvalidRequest)
               (CredentialTargetOrigin_parse (CredentialTargetOrigin_as_str origin));
         Ok tt) origins.

Definition origin_host (origin : CredentialTargetOrigin) : result VaultError string :=
  ok_or (url ← Url_parse (CredentialTargetOrigin_as_str origin);
         to_ascii_lowercase <$> Url_host_str url) VaultInvalidRequest.

(** [filter_map(|origin| origin_host(origin).ok())] *)
Definition origin_hosts (origins : list CredentialTargetOrigin) : list string :=
  omap (λ origin, to_option (origin_host origin)) origins.

Definition validate_secret_origins (origins : list CredentialTargetOrigin) (secret : SecretInput) :
    result VaultError unit :=
  match secret with
  | InputCookie secret =>
      for_each (λ cookie,
        if existsb (λ host, eq_ignore_ascii_case host (CookieSecretRecord_host cookie))
             (origin_hosts origins)
        then Ok tt else Err VaultInvalidRequest) (CookieCredentialSecret_cookies secret)
  | InputToken _ => Ok tt
  end.

Definition CredentialCreateRequest_validate (self : CredentialCreateRequest) :
    result VaultError unit :=
  vault_validate_platform_id (CredentialCreateRequest_platform_id self);;
  vault_validate_origins (CredentialCreateRequest_target_origins self);;
  vault_validate_safe_text (CredentialCreateRequest_account_id_hint self);;
  vault_validate_safe_text (CredentialCreateRequest_display_name self).

Definition CredentialUpdateRequest_validate (self : CredentialUpdateRequest) :
    result VaultError unit :=
  if CredentialUpdateRequest_expected_revision self =? 0 then Err VaultInvalidRequest
  else
    vault_validate_origins (CredentialUpdateRequest_target_origins self);;
    vault_validate_safe_text (CredentialUpdateRequest_account_id_hint self);;
    vault_validate_safe_text (CredentialUpdateRequest_display_name self);;
    vault_validate_safe_text (CredentialUpdateRequest_safe_error_summary self).
End validation.

(** ** The environment of the vault *)

Class VaultRuntime (W : Type) := {
  (** [Utc::now], [Uuid::new_v4], and the nonce the operating system draws *)
  vault_utc_now : W → time * W;
  new_v4 : W → Uuid * W;
  draw_nonce : W → option (list byte) * W;
}.

Class CredentialRepository (W : Type) := {
  repository_insert : StoredCredential → act W CredentialRepositoryError unit;
  repository_update : StoredCredential → Z → act W CredentialRepositoryError Z;
  repository_get : CredentialId → act W CredentialRepositoryError (option StoredCredential);
  repository_list : act W CredentialRepositoryError (list StoredCredential);
  repository_delete : CredentialId → act W CredentialRepositoryError unit;
  repository_clear_source_plugin : CredentialId → act W CredentialRepositoryError unit;
}.

Section vault.
Context {U : UrlLib} {J : SecretJson} {C : Aead} {W : Type} {R : VaultRuntime W}
  {D : CredentialRepository W}.
Context (master_key : MasterKey).

(** The clock is read only when it can matter. *)
Definition status_with_expiry (status : CredentialStatus) (expires_at : option time) (w : W) :
    CredentialStatus * W :=
  if eqb status Active then
    match expires_at with
    | Some expires_at =>
        let '(now, w) := vault_utc_now w in
        (if expires_at <=? now then Expired else status, w)
    | None => (status, w)
    end
  else (status, w).

(** [to_metadata], given the status it computes. *)
Definition metadata_with_status (self : StoredCredential) (status : CredentialStatus) :
    CredentialMetadata := {|
  CredentialMetadata_id := stored_id self;
  CredentialMetadata_kind := stored_kind self;
  CredentialMetadata_platform_id := stored_platform_id self;
  CredentialMetadata_scope := stored_scope self;
  CredentialMetadata_ownership := ownership_of (stored_source_plugin_id self);
  CredentialMetadata_target_origins := stored_target_origins self;
  CredentialMetadata_account_id_hint := stored_account_id_hint self;
  CredentialMetadata_display_name := stored_display_name self;
  CredentialMetadata_status := status;
  CredentialMetadata_safe_error_summary := stored_safe_error_summary self;
  CredentialMetadata_expires_at := stored_expires_at self;
  CredentialMetadata_status_checked_at := stored_status_checked_at self;
  CredentialMetadata_created_at := stored_created_at self;
  CredentialMetadata_updated_at := stored_updated_at self;
  CredentialMetadata_revision := stored_revision self;
|}.

Definition to_metadata (self : StoredCredential) (w : W) : CredentialMetadata * W :=
  let '(status, w) := status_with_expiry (stored_status self) (stored_expires_at self) w in
  (metadata_with_status self status, w).

(** *** [MetadataPort] *)

Definition metadata_cmp : CredentialMetadata → CredentialMetadata → comparison :=
  cmp_then (cmp_on CredentialMetadata_created_at Z.compare)
    (cmp_on (CredentialId_as_uuid ∘ CredentialMetadata_id) Z.compare).

Definition metadata_list : act W VaultError (list CredentialMetadata) :=
  records ← map_errors from_repository repository_list;
  metadata ← act_map (λ record, query (to_metadata record)) records;
  mret (sort_by metadata_cmp metadata).

Definition metadata_get (credential_id : CredentialId) :
    act W VaultError (option CredentialMetadata) :=
  record ← map_errors from_repository (repository_get credential_id);
  match record with
  | Some record => metadata ← query (to_metadata record); mret (Some metadata)
  | None => mret None
  end.

Definition metadata_retain (credential_id : CredentialId) : act W VaultError CredentialMetadata :=
  map_errors from_repository (repository_clear_source_plugin credential_id);;
  metadata ← metadata_get credential_id;
  pure (ok_or metadata VaultNotFound).

Definition metadata_delete (credential_id : CredentialId) : act W VaultError unit :=
  map_errors from_repository (repository_delete credential_id).

(** *** [TrustedPort] *)

Definition encode_input (secret : SecretInput) : result SecretPayloadError (list byte) :=
  match secret with
  | InputCookie secret => encode_cookie secret
  | InputToken secret => encode_token secret
  end.

(** [encrypt] draws the nonce; the draw is its argument. *)
Definition encrypt_secret (credential_id : CredentialId) (scope : CredentialScope)
    (secret : SecretInput) : act W VaultError EncryptedEnvelope :=
  plaintext ← pure (map_err from_secret (encode_input secret));
  let context := EncryptionContext_new credential_id scope CURRENT_KEY_VERSION in
  drawn ← query draw_nonce;
  pure (map_err from_crypto (encrypt master_key context plaintext drawn)).

Definition new_metadata (request : CredentialCreateRequest) (id : CredentialId)
    (kind : CredentialKind) (status : CredentialStatus) (now : time) : CredentialMetadata := {|
  CredentialMetadata_id := id;
  CredentialMetadata_kind := kind;
  CredentialMetadata_platform_id := CredentialCreateRequest_platform_id request;
  CredentialMetadata_scope := CredentialCreateRequest_scope request;
  CredentialMetadata_ownership := ownership_of (CredentialCreateRequest_source_plugin_id request);
  CredentialMetadata_target_origins := CredentialCreateRequest_target_origins request;
  CredentialMetadata_account_id_hint := CredentialCreateRequest_account_id_hint request;
  CredentialMetadata_display_name := CredentialCreateRequest_display_name request;
  CredentialMetadata_status := status;
  CredentialMetadata_safe_error_summary := None;
  CredentialMetadata_expires_at := CredentialCreateRequest_expires_at request;
  CredentialMetadata_status_checked_at := Some now;
  CredentialMetadata_created_at := now;
  CredentialMetadata_updated_at := now;
  CredentialMetadata_revision := 1;
|}.

Definition new_record (request : CredentialCreateRequest) (metadata : CredentialMetadata)
    (now : time) (envelope : EncryptedEnvelope) : StoredCredential := {|
  stored_metadata := metadata;
  stored_id := CredentialMetadata_id metadata;
  stored_kind := CredentialMetadata_kind metadata;
  stored_platform_id := CredentialCreateRequest_platform_id request;
  stored_scope := CredentialCreateRequest_scope request;
  stored_source_plugin_id := CredentialCreateRequest_source_plugin_id request;
  stored_target_origins := CredentialCreateRequest_target_origins request;
  stored_account_id_hint := CredentialMetadata_account_id_hint metadata;
  stored_display_name := CredentialMetadata_display_name metadata;
  stored_status := CredentialMetadata_status metadata;
  stored_safe_error_summary := None;
  stored_expires_at := CredentialMetadata_expires_at metadata;
  stored_status_checked_at := CredentialMetadata_status_checked_at metadata;
  stored_created_at := now;
  stored_updated_at := now;
  stored_revision := 1;
  stored_envelope := envelope;
|}.

Definition vault_create (request : CredentialCreateRequest) (kind : CredentialKind)
    (secret : SecretInput) : act W VaultError StoredCredential :=
  pure (CredentialCreateRequest_validate request);;
  pure (validate_secret_origins (CredentialCreateRequest_target_origins request) secret);;
  uuid ← query new_v4;
  id ← pure (map_err (λ _, VaultInvalidRequest) (CredentialId_from_uuid uuid));
  now ← query vault_utc_now;
  envelope ← encrypt_secret id (CredentialCreateRequest_scope request) secret;
  status ← query (status_with_expiry Active (CredentialCreateRequest_expires_at request));
  let metadata := new_metadata request id kind status now in
  let record := new_record request metadata now envelope in
  map_errors from_repository (repository_insert record);;
  mret record.

Definition create_cookie (request : CredentialCreateRequest) (secret : CookieCredentialSecret) :
    act W VaultError StoredCredential := vault_create request Cookie (InputCookie secret).
Definition create_token (request : CredentialCreateRequest) (secret : TokenCredentialSecret) :
    act W VaultError StoredCredential := vault_create request Token (InputToken secret).

(** The fields an update assigns; the metadata follows. *)
Definition apply_update (existing : StoredCredential) (request : CredentialUpdateRequest)
    (status : CredentialStatus) (now : time) (envelope : EncryptedEnvelope) :
    StoredCredential := {|
  stored_metadata := stored_metadata existing;
  stored_id := stored_id existing;
  stored_kind := stored_kind existing;
  stored_platform_id := stored_platform_id existing;
  stored_scope := stored_scope existing;
  stored_source_plugin_id := stored_source_plugin_id existing;
  stored_target_origins := CredentialUpdateRequest_target_origins request;
  stored_account_id_hint := CredentialUpdateRequest_account_id_hint request;
  stored_display_name := CredentialUpdateRequest_display_name request;
  stored_status := status;
  stored_safe_error_summary := CredentialUpdateRequest_safe_error_summary request;
  stored_expires_at := CredentialUpdateRequest_expires_at request;
  stored_status_checked_at := CredentialUpdateRequest_status_checked_at request;
  stored_created_at := stored_created_at existing;
  stored_updated_at := now;
  stored_revision := stored_revision existing;
  stored_envelope := envelope;
|}.

Definition set_metadata (record : StoredCredential) (metadata : CredentialMetadata) :
    StoredCredential :=
  let 'mkStoredCredential _ id kind platform_id scope source origins hint name status summary
      expires_at checked created updated revision envelope := record in
  mkStoredCredential metadata id kind platform_id scope source origins hint name status summary
    expires_at checked created updated revision envelope.

(** [updated.revision = revision; updated.metadata.revision = revision] *)
Definition set_revision (record : StoredCredential) (revision : Z) : StoredCredential :=
  let 'mkStoredCredential metadata id kind platform_id scope source origins hint name status
      summary expires_at checked created updated _ envelope := record in
  let 'mkCredentialMetadata mid mkind mplatform mscope mownership morigins mhint mname mstatus
      msummary mexpires mchecked mcreated mupdated _ := metadata in
  mkStoredCredential
    (mkCredentialMetadata mid mkind mplatform mscope mownership morigins mhint mname mstatus
       msummary mexpires mchecked mcreated mupdated revision)
    id kind platform_id scope source origins hint name status summary expires_at checked created
    updated revision envelope.

Definition vault_update (request : CredentialUpdateRequest) (kind : CredentialKind)
    (secret : SecretInput) : act W VaultError StoredCredential :=
  pure (CredentialUpdateRequest_validate request);;
  pure (validate_secret_origins (CredentialUpdateRequest_target_origins request) secret);;
  found ← map_errors from_repository
            (repository_get (CredentialUpdateRequest_credential_id request));
  existing ← pure (ok_or found VaultNotFound);
  if negb (eqb (stored_kind existing) kind)
     || negb (stored_revision existing =? CredentialUpdateRequest_expected_revision request)
  then throw VaultConflict
  else
    now ← query vault_utc_now;
    envelope ← encrypt_secret (stored_id existing) (stored_scope existing) secret;
    status ← query (status_with_expiry (CredentialUpdateRequest_status request)
                      (CredentialUpdateRequest_expires_at request));
    let updated := apply_update existing request status now envelope in
    metadata ← query (to_metadata updated);
    let updated := set_metadata updated metadata in
    revision ← map_errors from_repository
                 (repository_update updated (CredentialUpdateRequest_expected_revision request));
    mret (set_revision updated revision).

Definition update_cookie (request : CredentialUpdateRequest) (secret : CookieCredentialSecret) :
    act W VaultError StoredCredential := vault_update request Cookie (InputCookie secret).
Definition update_token (request : CredentialUpdateRequest) (secret : TokenCredentialSecret) :
    act W VaultError StoredCredential := vault_update request Token (InputToken secret).

(** *** [SecretsPort] *)

(** What [open] does with the record it read. *)
Definition open_record (record : StoredCredential) : result VaultError CredentialSecretGuard :=
  let context := EncryptionContext_new (stored_id record) (stored_scope record)
                   (envelope_key_version (stored_envelope record)) in
  plaintext ← map_err from_crypto (decrypt master_key context (stored_envelope record));
  map_err from_secret (decode_secret (stored_kind record) plaintext).

Definition secrets_open (credential_id : CredentialId) : act W VaultError CredentialSecretGuard :=
  found ← map_errors from_repository (repository_get credential_id);
  record ← pure (ok_or found VaultNotFound);
  status ← query (status_with_expiry (stored_status record) (stored_expires_at record));
  if eqb status Expired then throw VaultExpired
  else if eqb (stored_status record) Revoked then throw VaultRevoked
  else pure (open_record record).
End vault.
