(* ===== verification/Database.v ===== *)
(** * The database (migrations/*.sql, crates/audiodown-storage/src/lib.rs)

    The tables of the migrations with their keys, checks and foreign keys, and
    the discipline of a SQLite connection: a statement sees and changes the
    tables or fails, and a transaction takes effect as a whole or not at all.
    Any statement may also fail for reasons outside the program (a full disk, a
    busy timeout); the store carries a schedule of such faults, and an exhausted
    schedule means no more faults.  Statement texts are translated one by one
    where the repositories use them. *)

From S2P Require Import Prelude Text Domain CredentialContract Stateful.

(** ** Column encodings: the uuid, chrono and serde_json crates *)

Class Codec := {
  uuid_to_string : Uuid → string;
  uuid_parse_str : string → option Uuid;
  to_rfc3339 : time → string;
  parse_from_rfc3339 : string → option time;
  (** [serde_json::Value] *)
  Json : Type;
  json_to_string : Json → option string;
  json_from_str : string → option Json;
  (** [value.get(key)], and [from_value] at the types of the manifest *)
  json_get : Json → string → option Json;
  declarations_from_value : Json → option CredentialDeclarations;
  manifest_from_value : Json → option PluginManifest;
}.

(** RFC 3339 has years of four digits: chrono writes other years with a sign and
    refuses them when it parses. *)
Definition rfc3339_time (t : time) : Prop :=
  -62167219200 * 10 ^ 9 ≤ t < 253402300800 * 10 ^ 9.
Definition uuid_value (u : Uuid) : Prop := 0 ≤ u < 2 ^ 128.

Class CodecLaws (K : Codec) : Prop := {
  uuid_roundtrip u : uuid_value u → uuid_parse_str (uuid_to_string u) = Some u;
  rfc3339_roundtrip t : rfc3339_time t → parse_from_rfc3339 (to_rfc3339 t) = Some t;
  rfc3339_years t : is_Some (parse_from_rfc3339 (to_rfc3339 t)) → rfc3339_time t;
  json_roundtrip v s : json_to_string v = Some s → json_from_str s = Some v;
}.

(** ** Tables *)

Record PluginRow := mkPluginRow {
  plugin_row_plugin_type : string;
  plugin_row_platform_id : string;
  plugin_row_name : string;
  plugin_row_version : string;
  plugin_row_protocol_version : string;
  plugin_row_source_kind : string;
  plugin_row_source_ref : string;
  plugin_row_commit_sha : option string;
  plugin_row_repository_id : option string;
  plugin_row_manifest_json : string;
  plugin_row_manifest_hash : string;
  plugin_row_source_hash : option string;
  plugin_row_image_id : option string;
  plugin_row_status : string;
  plugin_row_run_mode : string;
  plugin_row_priority : Z;
  plugin_row_enabled : bool;
  plugin_row_last_error : option string;
  plugin_row_install_operation_id : option string;
  plugin_row_last_used_at : option string;
  plugin_row_installed_at : string;
  plugin_row_updated_at : string;
  plugin_row_search_enabled : bool;
  plugin_row_discover_enabled : bool;
}.

Record DefaultRow := mkDefaultRow {
  default_row_plugin_id : string;
  default_row_updated_at : string;
}.

Record RiskGrantRow := mkRiskGrantRow {
  risk_row_repository_id : string;
  risk_row_plugin_id : string;
  risk_row_commit_sha : string;
  risk_row_risk_kind : string;
  risk_row_reason : string;
  risk_row_granted_at : string;
}.

Record CredentialRow := mkCredentialRow {
  credential_row_kind : string;
  credential_row_platform_id : string;
  credential_row_scope : string;
  credential_row_source_plugin_id : option string;
  credential_row_algorithm_version : Z;
  credential_row_key_version : Z;
  credential_row_nonce : list byte;
  credential_row_ciphertext : list byte;
  credential_row_status : string;
  credential_row_account_id_hint : option string;
  credential_row_display_name : option string;
  credential_row_safe_error_summary : option string;
  credential_row_expires_at : option string;
  credential_row_status_checked_at : option string;
  credential_row_record_revision : Z;
  credential_row_created_at : string;
  credential_row_updated_at : string;
}.

Record GrantRow := mkGrantRow {
  grant_row_plugin_id : string;
  grant_row_manifest_hash : string;
  grant_row_credential_id : string;
  grant_row_scope : string;
  grant_row_credential_origins_hash : list byte;
  grant_row_created_at : string;
  grant_row_revoked_at : option string;
}.

Record LogRow := mkLogRow {
  log_row_timestamp : string;
  log_row_level : string;
  log_row_component : string;
  log_row_message : string;
  log_row_plugin_id : option string;
  log_row_plugin_version : option string;
  log_row_platform_id : option string;
  log_row_request_id : option string;
  log_row_task_id : option string;
  log_row_container_id : option string;
  log_row_error_code : option string;
  log_row_context_json : string;
}.

(** A table is a map from its primary key; the log keeps its insertion order. *)
Record Db := mkDb {
  db_plugins : gmap string PluginRow;
  db_defaults : gmap string DefaultRow;
  db_risk_grants : gmap string RiskGrantRow;
  db_credentials : gmap string CredentialRow;
  (** (credential_id, origin) *)
  db_target_origins : gset (string * string);
  db_grants : gmap string GrantRow;
  (** (grant_id, origin), with the credential *)
  db_grant_origins : gmap (string * string) string;
  db_logs : list (string * LogRow);
}.

Definition db_empty : Db := mkDb ∅ ∅ ∅ ∅ ∅ ∅ ∅ [].

Definition set_plugins (f : gmap string PluginRow → gmap string PluginRow) (db : Db) : Db :=
  mkDb (f (db_plugins db)) (db_defaults db) (db_risk_grants db) (db_credentials db)
    (db_target_origins db) (db_grants db) (db_grant_origins db) (db_logs db).
Definition set_defaults (f : gmap string DefaultRow → gmap string DefaultRow) (db : Db) : Db :=
  mkDb (db_plugins db) (f (db_defaults db)) (db_risk_grants db) (db_credentials db)
    (db_target_origins db) (db_grants db) (db_grant_origins db) (db_logs db).
Definition set_risk_grants (f : gmap string RiskGrantRow → gmap string RiskGrantRow) (db : Db) :
    Db :=
  mkDb (db_plugins db) (db_defaults db) (f (db_risk_grants db)) (db_credentials db)
    (db_target_origins db) (db_grants db) (db_grant_origins db) (db_logs db).
Definition set_credentials (f : gmap string CredentialRow → gmap string CredentialRow) (db : Db) :
    Db :=
  mkDb (db_plugins db) (db_defaults db) (db_risk_grants db) (f (db_credentials db))
    (db_target_origins db) (db_grants db) (db_grant_origins db) (db_logs db).
Definition set_target_origins (f : gset (string * string) → gset (string * string)) (db : Db) :
    Db :=
  mkDb (db_plugins db) (db_defaults db) (db_risk_grants db) (db_credentials db)
    (f (db_target_origins db)) (db_grants db) (db_grant_origins db) (db_logs db).
Definition set_grants (f : gmap string GrantRow → gmap string GrantRow) (db : Db) : Db :=
  mkDb (db_plugins db) (db_defaults db) (db_risk_grants db) (db_credentials db)
    (db_target_origins db) (f (db_grants db)) (db_grant_origins db) (db_logs db).
Definition set_grant_origins
    (f : gmap (string * string) string → gmap (string * string) string) (db : Db) : Db :=
  mkDb (db_plugins db) (db_defaults db) (db_risk_grants db) (db_credentials db)
    (db_target_origins db) (db_grants db) (f (db_grant_origins db)) (db_logs db).
Definition set_logs (f : list (string * LogRow) → list (string * LogRow)) (db : Db) : Db :=
  mkDb (db_plugins db) (db_defaults db) (db_risk_grants db) (db_credentials db)
    (db_target_origins db) (db_grants db) (db_grant_origins db) (f (db_logs db)).

(** ** Checks, keys and foreign keys *)

Definition between (lo hi v : Z) : bool := (lo <=? v) && (v <=? hi).

(** [length(text)] of SQLite counts characters: the bytes that do not continue
    a UTF-8 sequence, up to the first NUL. *)
Fixpoint text_chars (l : list ascii) : Z :=
  match l with
  | [] => 0
  | c :: l =>
      if eqb c "000"%char then 0
      else (if in_range 0x80 0xBF c then 0 else 1) + text_chars l
  end.
Definition text_length (s : string) : Z := text_chars (bytes s).

(** The CHECK constraints of [credentials]. *)
Definition credential_checks (row : CredentialRow) : bool :=
  list_contains ["cookie"; "token"] (credential_row_kind row)
  && between 1 65535 (credential_row_algorithm_version row)
  && between 1 4294967295 (credential_row_key_version row)
  && (zlen (credential_row_nonce row) =? 12)
  && between 16 65552 (zlen (credential_row_ciphertext row))
  && list_contains ["active"; "expired"; "revoked"; "error"] (credential_row_status row)
  && is_none_or (λ s, between 1 256 (text_length s)) (credential_row_account_id_hint row)
  && is_none_or (λ s, between 1 256 (text_length s)) (credential_row_display_name row)
  && is_none_or (λ s, between 1 512 (text_length s)) (credential_row_safe_error_summary row)
  && (0 <? credential_row_record_revision row).

(** Does a row other than [key] satisfy [p]?  The test of a UNIQUE constraint. *)
Definition other_row {A} (m : gmap string A) (key : string) (p : A → bool) : bool :=
  existsb (λ '(k, row), negb (eqb k key) && p row) (map_to_list m).
Definition some_row {A} (m : gmap string A) (p : A → bool) : bool :=
  existsb (λ '(_, row), p row) (map_to_list m).

(** [idx_active_credential_scope_grants] *)
Definition same_active_grant (a b : GrantRow) : bool :=
  is_none (grant_row_revoked_at a) && is_none (grant_row_revoked_at b)
  && eqb (grant_row_plugin_id a) (grant_row_plugin_id b)
  && eqb (grant_row_credential_id a) (grant_row_credential_id b)
  && eqb (grant_row_scope a) (grant_row_scope b).

Definition same_risk (a b : RiskGrantRow) : bool :=
  eqb (risk_row_plugin_id a) (risk_row_plugin_id b)
  && eqb (risk_row_commit_sha a) (risk_row_commit_sha b)
  && eqb (risk_row_risk_kind a) (risk_row_risk_kind b).

(** ** Errors and statements *)

Inductive StorageError := Database | Migration | InvalidData | StorageNotFound | StorageConflict.
Global Instance StorageError_eq_dec : EqDecision StorageError.
Proof. solve_decision. Defined.

(** What a statement fails with: a primary key or unique constraint, or
    anything else. *)
Inductive SqlError := UniqueViolation | OtherSqlError.

Definition map_write_error (error : SqlError) : StorageError :=
  match error with UniqueViolation => StorageConflict | OtherSqlError => Database end.
(** [#[from] sqlx::Error] *)
Definition from_sqlx (_ : SqlError) : StorageError := Database.

Record Store := mkStore {
  store_db : Db;
  store_faults : list bool;
}.

(** One round trip to the database: the next scheduled fault decides. *)
Definition next_fault (s : Store) : bool * Store :=
  match store_faults s with
  | [] => (false, s)
  | fault :: faults => (fault, mkStore (store_db s) faults)
  end.

Definition statement {A} (f : Db → result SqlError (A * Db)) : act Store SqlError A := λ s,
  let '(fault, s) := next_fault s in
  if fault then (Err OtherSqlError, s)
  else
    match f (store_db s) with
    | Ok (a, db) => (Ok a, mkStore db (store_faults s))
    | Err e => (Err e, s)
    end.

(** Statements with the error conversion of [?]. *)
Definition execute_sql {A} (f : Db → result SqlError (A * Db)) : act Store StorageError A :=
  map_errors from_sqlx (statement f).
Definition select {A} (f : Db → A) : act Store StorageError A :=
  execute_sql (λ db, Ok (f db, db)).

(** [pool.begin()] to [commit()]; leaving with an error rolls back. *)
Definition transaction {A} (body : act Store StorageError A) : act Store StorageError A := λ s,
  let run :=
    execute_sql (λ db, Ok (tt, db));;
    a ← body;
    execute_sql (λ db, Ok (tt, db));;
    mret a in
  match run s with
  | (Ok a, s') => (Ok a, s')
  | (Err e, s') => (Err e, mkStore (store_db s) (store_faults s'))
  end.

Definition ensure_one_row (rows_affected : Z) : result StorageError unit :=
  if rows_affected =? 1 then Ok tt else Err StorageNotFound.

(** *** Statements shared by the repositories *)

Definition sql_delete_credential (id : string) (db : Db) : result SqlError (Z * Db) :=
  match db_credentials db !! id with
  | None => Ok (0, db)
  | Some _ =>
      (** cascades: target origins, grants, and the origins of those grants *)
      Ok (1, set_credentials (delete id)
              (set_target_origins (filter (λ p, p.1 ≠ id))
                (set_grants (filter (λ p, grant_row_credential_id p.2 ≠ id))
                  (set_grant_origins (filter (λ p, p.2 ≠ id)) db))))
  end.

Definition sql_delete_plugin (p : PluginRow → bool) (plugin_id : string) (db : Db) :
    result SqlError (Z * Db) :=
  match db_plugins db !! plugin_id with
  | None => Ok (0, db)
  | Some row =>
      if negb (p row) then Ok (0, db)
      else if some_row (db_credentials db)
                (λ c, eqb (credential_row_source_plugin_id c) (Some plugin_id))
      then Err OtherSqlError
      else
        let gone := filter (λ p, grant_row_plugin_id p.2 = plugin_id) (db_grants db) in
        Ok (1, set_plugins (delete plugin_id)
                (set_defaults (filter (λ p, default_row_plugin_id p.2 ≠ plugin_id))
                  (set_grants (filter (λ p, grant_row_plugin_id p.2 ≠ plugin_id))
                    (set_grant_origins (filter (λ p, gone !! p.1.1 = None)) db))))
  end.

(** * Facts about statements and transactions *)

(** ** Statements *)

Lemma next_fault_db s : store_db (next_fault s).2 = store_db s.
Proof. unfold next_fault. by destruct (store_faults s). Qed.

Lemma statement_cases {A} (f : Db → result SqlError (A * Db)) s r s' :
  statement f s = (r, s') →
  (∃ a, r = Ok a ∧ f (store_db s) = Ok (a, store_db s')) ∨
  (store_db s' = store_db s ∧ ∃ e, r = Err e ∧ (e = OtherSqlError ∨ f (store_db s) = Err e)).
Proof.
  unfold statement. pose proof (next_fault_db s) as Hdb.
  destruct (next_fault s) as [[] s1]; simpl in Hdb.
  - intros [= <- <-]. right. eauto.
  - rewrite Hdb. destruct (f (store_db s)) as [[a db]|e]; intros [= <- <-]; simpl; [left|right]; eauto.
Qed.

Lemma statement_Ok {A} (f : Db → result SqlError (A * Db)) s a s' :
  statement f s = (Ok a, s') → f (store_db s) = Ok (a, store_db s').
Proof. intros [(? & [= <-] & ?)|(_ & ? & ? & _)]%statement_cases; done. Qed.

Lemma statement_Err {A} (f : Db → result SqlError (A * Db)) s e s' :
  statement f s = (Err e, s') →
  store_db s' = store_db s ∧ (e = OtherSqlError ∨ f (store_db s) = Err e).
Proof. intros [(? & ? & ?)|(? & ? & [= <-] & ?)]%statement_cases; done. Qed.

Lemma execute_sql_Ok {A} (f : Db → result SqlError (A * Db)) s a s' :
  execute_sql f s = (Ok a, s') → f (store_db s) = Ok (a, store_db s').
Proof. unfold execute_sql. by intros Hs%map_errors_Ok%statement_Ok. Qed.

Lemma execute_sql_Err {A} (f : Db → result SqlError (A * Db)) s e s' :
  execute_sql f s = (Err e, s') → store_db s' = store_db s ∧ e = Database.
Proof. unfold execute_sql. by intros (e' & [? _]%statement_Err & ->)%map_errors_Err. Qed.

Lemma write_sql_Err {A} (f : Db → result SqlError (A * Db)) s e s' :
  map_errors map_write_error (statement f) s = (Err e, s') →
  store_db s' = store_db s ∧
  (e = Database ∨ e = StorageConflict ∧ f (store_db s) = Err UniqueViolation).
Proof.
  intros ([] & [? Hf]%statement_Err & ->)%map_errors_Err; (split; [done|]); simpl; [|by left].
  destruct Hf as [?|?]; [done|]. by right.
Qed.

Lemma select_Ok {A} (f : Db → A) s a s' :
  select f s = (Ok a, s') → a = f (store_db s) ∧ store_db s' = store_db s.
Proof. unfold select. intros Hs%execute_sql_Ok. naive_solver. Qed.

Lemma select_Err {A} (f : Db → A) s e s' :
  select f s = (Err e, s') → store_db s' = store_db s ∧ e = Database.
Proof. apply execute_sql_Err. Qed.

(** ** Transactions *)

(** Case analysis on the run a [match] looks at. *)
Ltac run_cases_as pat E :=
  match goal with |- context [match ?r with (_, _) => _ end] => destruct r as pat eqn:E end.
Tactic Notation "run_cases" "as" simple_intropattern(pat) ident(E) := run_cases_as pat E.

Lemma transaction_Ok {A} (body : act Store StorageError A) s a s' :
  transaction body s = (Ok a, s') →
  ∃ s1 s2, store_db s1 = store_db s ∧ body s1 = (Ok a, s2) ∧ store_db s' = store_db s2.
Proof.
  unfold transaction. cbv zeta. run_cases as [[b|e] t] E; [|done]. intros [= <- <-].
  apply act_bind_Ok in E as ([] & s1 & H1%execute_sql_Ok & E).
  apply act_bind_Ok in E as (b' & s2 & H2 & E).
  apply act_bind_Ok in E as ([] & s3 & H3%execute_sql_Ok & [<- ->]%act_ret_Ok).
  exists s1, s2. naive_solver.
Qed.

(** A failed transaction leaves the tables as they were. *)
Lemma transaction_Err {A} (body : act Store StorageError A) s e s' :
  transaction body s = (Err e, s') →
  store_db s' = store_db s ∧
  (e = Database ∨ ∃ s1 s2, store_db s1 = store_db s ∧ body s1 = (Err e, s2)).
Proof.
  unfold transaction. cbv zeta. run_cases as [[b|e'] t] E; [done|]. intros [= <- <-].
  split; [done|].
  apply act_bind_Err in E as [[_ ->]%execute_sql_Err|([] & s1 & H1%execute_sql_Ok & E)]; [by left|].
  apply act_bind_Err in E as [H2|(b' & s2 & H2 & E)].
  - right. exists s1, t. naive_solver.
  - apply act_bind_Err in E as [[_ ->]%execute_sql_Err|(? & ? & _ & ?)]; [by left|done].
Qed.

(** ** Computations that relate the tables before and after

    [P] is a preorder: rules for sequencing and transactions follow from it.
    With [P] an implication between invariants this is invariance, with equality
    it says that a computation only reads. *)

Definition preserves (P : relation Db) {E A} (m : act Store E A) : Prop :=
  ∀ s r s', m s = (r, s') → P (store_db s) (store_db s').

Section preserves.
Context (P : relation Db) `{!PreOrder P}.

Lemma preserves_statement {A} (f : Db → result SqlError (A * Db)) :
  (∀ db a db', f db = Ok (a, db') → P db db') → preserves P (statement f).
Proof.
  intros Hf s [a|e] s'; [by intros ?%statement_Ok; eapply Hf|].
  intros [-> _]%statement_Err. reflexivity.
Qed.
Lemma preserves_map_errors {E F A} (g : E → F) (m : act Store E A) :
  preserves P m → preserves P (map_errors g m).
Proof.
  intros Hm s r s'. unfold map_errors. destruct (m s) as [r' s1] eqn:E'. intros [= _ <-].
  by eapply Hm.
Qed.
Lemma preserves_execute_sql {A} (f : Db → result SqlError (A * Db)) :
  (∀ db a db', f db = Ok (a, db') → P db db') → preserves P (execute_sql f).
Proof. intros Hf. by apply preserves_map_errors, preserves_statement. Qed.
Lemma preserves_select {A} (f : Db → A) : preserves P (select f).
Proof. apply preserves_execute_sql. intros db a db' [= _ <-]. reflexivity. Qed.
Lemma preserves_pure {E A} (r : result E A) : preserves P (pure r).
Proof. intros s r' s' [= _ <-]. reflexivity. Qed.
Lemma preserves_ret {E A} (a : A) : preserves P (mret a : act Store E A).
Proof. intros s r' s' [= _ <-]. reflexivity. Qed.
Lemma preserves_throw {E A} (e : E) : preserves P (throw e : act Store E A).
Proof. intros s r' s' [= _ <-]. reflexivity. Qed.
Lemma preserves_bind {E A B} (m : act Store E A) (f : A → act Store E B) :
  preserves P m → (∀ a, preserves P (f a)) → preserves P (m ≫= f).
Proof.
  intros Hm Hf s r s'. unfold mbind, act_bind. destruct (m s) as [[a|e] s1] eqn:Em; intros H.
  - etrans; [by eapply Hm|by eapply Hf].
  - injection H as _ <-. by eapply Hm.
Qed.
Lemma preserves_act_map {A B} (f : A → act Store StorageError B) l :
  (∀ a, preserves P (f a)) → preserves P (act_map f l).
Proof.
  intros Hf. induction l as [|x l IH]; cbn [act_map]; [apply preserves_ret|].
  apply preserves_bind; [done|]. intros y. apply preserves_bind; [done|]. intros ys.
  apply preserves_ret.
Qed.
Lemma preserves_act_each {A} (f : A → act Store StorageError unit) l :
  (∀ a, preserves P (f a)) → preserves P (act_each f l).
Proof.
  intros Hf. induction l as [|x l IH]; cbn [act_each]; [apply preserves_ret|].
  by apply preserves_bind.
Qed.
Lemma preserves_transaction {A} (m : act Store StorageError A) :
  preserves P m → preserves P (transaction m).
Proof.
  intros Hm s [a|e] s'; [|by intros [-> _]%transaction_Err].
  intros (s1 & s2 & <- & H2 & ->)%transaction_Ok. by eapply Hm.
Qed.
End preserves.

(** Reduce to the statements that change the tables. *)
Ltac preserves :=
  repeat match goal with
  | |- preserves _ (_ ≫= _) => apply preserves_bind; [apply _| |intros ?]
  | |- preserves _ (select _) => apply preserves_select; apply _
  | |- preserves _ (pure _) => apply preserves_pure; apply _
  | |- preserves _ (mret _) => apply preserves_ret; apply _
  | |- preserves _ (throw _) => apply preserves_throw; apply _
  | |- preserves _ (transaction _) => apply preserves_transaction; [apply _|]
  | |- preserves _ (act_map _ _) => apply preserves_act_map; [apply _|intros ?]
  | |- preserves _ (act_each _ _) => apply preserves_act_each; [apply _|intros ?]
  | |- preserves _ (map_errors _ _) => apply preserves_map_errors
  | |- preserves _ (statement _) => apply preserves_statement; [apply _|intros ? ? ? ?]
  | |- preserves _ (execute_sql _) => apply preserves_execute_sql; [apply _|intros ? ? ? ?]
  | |- preserves _ (match ?x with _ => _ end) => destruct x
  end.

Definition unchanged : relation Db := λ db db', db' = db.
Global Instance unchanged_preorder : PreOrder unchanged.
Proof. split; [done|]. intros a b c -> ->. done. Qed.

(** A computation that leaves the tables alone. *)
Abbreviation reads_only m := (preserves unchanged m).

(** ** Without faults *)

Definition quiet (db : Db) : Store := mkStore db [].

Lemma statement_quiet {A} (f : Db → result SqlError (A * Db)) db :
  statement f (quiet db) =
  match f db with Ok (a, db') => (Ok a, quiet db') | Err e => (Err e, quiet db) end.
Proof. done. Qed.

Lemma execute_sql_quiet {A} (f : Db → result SqlError (A * Db)) db :
  execute_sql f (quiet db) =
  match f db with Ok (a, db') => (Ok a, quiet db') | Err e => (Err Database, quiet db) end.
Proof. unfold execute_sql, map_errors. rewrite statement_quiet. by destruct (f db) as [[]|]. Qed.

Lemma write_sql_quiet {A} (f : Db → result SqlError (A * Db)) db :
  map_errors map_write_error (statement f) (quiet db) =
  match f db with
  | Ok (a, db') => (Ok a, quiet db')
  | Err e => (Err (map_write_error e), quiet db)
  end.
Proof. unfold map_errors. rewrite statement_quiet. by destruct (f db) as [[]|]. Qed.

Lemma select_quiet {A} (f : Db → A) db : select f (quiet db) = (Ok (f db), quiet db).
Proof. done. Qed.

Lemma transaction_quiet {A} (body : act Store StorageError A) db r db' :
  body (quiet db) = (r, quiet db') →
  transaction body (quiet db) =
  (r, quiet (match r with Ok _ => db' | Err _ => db end)).
Proof.
  intros H. unfold transaction. unfold mbind, act_bind. rewrite execute_sql_quiet. rewrite H.
  destruct r; [|done]. by rewrite execute_sql_quiet.
Qed.

(** ** Rows *)

Lemma other_row_false {A} (m : gmap string A) key p :
  other_row m key p = false ↔ ∀ k row, m !! k = Some row → k ≠ key → p row = false.
Proof.
  unfold other_row. rewrite <- not_true_iff_false, existsb_exists. split.
  - intros H k row Hk Hne. destruct (p row) eqn:Ep; [|done]. destruct H. exists (k, row). split.
    + by apply list_elem_of_In, elem_of_map_to_list.
    + rewrite Ep, andb_true_r. apply negb_true_iff. unfold eqb. by apply bool_decide_eq_false.
  - intros H ([k row] & Hin & Hp). apply list_elem_of_In, elem_of_map_to_list in Hin.
    bool_prop. by rewrite (H k row) in *.
Qed.

Lemma other_row_true {A} (m : gmap string A) key p :
  other_row m key p = true ↔ ∃ k row, m !! k = Some row ∧ k ≠ key ∧ p row = true.
Proof.
  unfold other_row. rewrite existsb_exists. split.
  - intros ([k row] & Hin & Hp). apply list_elem_of_In, elem_of_map_to_list in Hin. bool_prop.
    exists k, row. done.
  - intros (k & row & Hk & Hne & Hp). exists (k, row). split.
    + by apply list_elem_of_In, elem_of_map_to_list.
    + rewrite Hp, andb_true_r. apply negb_true_iff. unfold eqb. by apply bool_decide_eq_false.
Qed.

Lemma some_row_false {A} (m : gmap string A) p :
  some_row m p = false ↔ ∀ k row, m !! k = Some row → p row = false.
Proof.
  unfold some_row. rewrite <- not_true_iff_false, existsb_exists. split.
  - intros H k row Hk. destruct (p row) eqn:Ep; [|done]. destruct H. exists (k, row). split; [|done].
    by apply list_elem_of_In, elem_of_map_to_list.
  - intros H ([k row] & Hin & Hp). apply list_elem_of_In, elem_of_map_to_list in Hin.
    by rewrite (H k row) in Hp.
Qed.

Lemma same_active_grant_true a b :
  same_active_grant a b = true ↔
  grant_row_revoked_at a = None ∧ grant_row_revoked_at b = None ∧
  grant_row_plugin_id a = grant_row_plugin_id b ∧
  grant_row_credential_id a = grant_row_credential_id b ∧ grant_row_scope a = grant_row_scope b.
Proof.
  unfold same_active_grant. rewrite !andb_true_iff, !eqb_eq.
  unfold is_none, is_some. destruct (grant_row_revoked_at a), (grant_row_revoked_at b); naive_solver.
Qed.

Lemma ensure_one_row_Ok n : ensure_one_row n = Ok tt ↔ n = 1.
Proof. unfold ensure_one_row. destruct (n =? 1) eqn:E; bool_prop; naive_solver. Qed.
