(* ===== verification/CredentialStore.v ===== *)
(** * The credential repository (crates/audiodown-storage/src/credential_repository.rs)

    Credentials, their target origins, and the grants that let content plugins
    use them.  Every operation is one transaction or one statement on the
    tables of [Database]; the texts of the statements are translated next to
    the operations.  [InvalidData] keeps no message.  An operation that reads
    the clock has the time as an argument. *)

From S2P Require Import Prelude Stateful Text Domain Foreign CredentialContract Database.

Definition MIN_CIPHERTEXT_BYTES : Z := 16.
Definition MAX_CIPHERTEXT_BYTES : Z := 65552.
Definition MAX_SAFE_METADATA_BYTES : Z := 512.
Definition STORED_NONCE_BYTES : Z := 12.
Definition ORIGIN_HASH_BYTES : Z := 32.

Record CredentialRecord := mkCredentialRecord {
  record_id : CredentialId;
  record_kind : CredentialKind;
  record_platform_id : string;
  record_scope : CredentialScope;
  record_source_plugin_id : option PluginId;
  record_algorithm_version : Z;
  record_key_version : Z;
  record_nonce : list byte;
  record_ciphertext : list byte;
  record_target_origins : list CredentialTargetOrigin;
  record_status : CredentialStatus;
  record_account_id_hint : option string;
  record_display_name : option string;
  record_safe_error_summary : option string;
  record_expires_at : option time;
  record_status_checked_at : option time;
  record_revision : Z;
  record_created_at : time;
  record_updated_at : time;
}.

Record CredentialScopeGrantRecord := mkCredentialScopeGrantRecord {
  scope_grant_id : Uuid;
  scope_grant_plugin_id : PluginId;
  scope_grant_manifest_hash : string;
  scope_grant_credential_id : CredentialId;
  scope_grant_scope : CredentialScope;
  scope_grant_target_origins : list CredentialTargetOrigin;
  scope_grant_created_at : time;
  scope_grant_revoked_at : option time;
}.

(** ** Column conversions *)

Definition i64_max : Z := 2 ^ 63 - 1.
Definition u64_max : Z := 2 ^ 64 - 1.

Definition u64_to_i64 (value : Z) : result StorageError Z :=
  if value <=? i64_max then Ok value else Err InvalidData.
Definition i64_to_u64 (value : Z) : result StorageError Z :=
  if 0 <? value then Ok value else Err InvalidData.
(** [revision.checked_add(1)] *)
Definition next_revision (revision : Z) : result StorageError Z :=
  if revision + 1 <=? u64_max then Ok (revision + 1) else Err InvalidData.
(** [row.try_get::<i64>]: [record_revision + 1] beyond the 64-bit range is a
    real number, which does not decode. *)
Definition try_get_i64 (value : Z) : result StorageError Z :=
  if value <=? i64_max then Ok value else Err Database.
(** [u16::try_from(v).ok().filter(|v| *v > 0)], and at [u32] *)
Definition positive_at (bits value : Z) : result StorageError Z :=
  if (0 <? value) && (value <? 2 ^ bits) then Ok value else Err InvalidData.

Definition credential_kind_to_str (kind : CredentialKind) : string :=
  match kind with Cookie => "cookie" | Token => "token" end.
Definition credential_kind_from_str (value : string) : result StorageError CredentialKind :=
  if eqb value "cookie" then Ok Cookie
  else if eqb value "token" then Ok Token
  else Err InvalidData.

Definition credential_status_to_str (status : CredentialStatus) : string :=
  match status with
  | Active => "active"
  | Expired => "expired"
  | Revoked => "revoked"
  | StatusError => "error"
  end.
Definition credential_status_from_str (value : string) : result StorageError CredentialStatus :=
  if eqb value "active" then Ok Active
  else if eqb value "expired" then Ok Expired
  else if eqb value "revoked" then Ok Revoked
  else if eqb value "error" then Ok StatusError
  else Err InvalidData.

Definition invalid {E A} (r : result E A) : result StorageError A := map_err (λ _, InvalidData) r.

(** ** Validation *)

Definition store_validate_platform_id (platform_id : string) : result StorageError unit :=
  if str_is_empty platform_id || (str_len platform_id >? 128)
     || negb (str_all (λ byte, is_ascii_lowercase byte || is_ascii_digit byte
                               || list_contains ["."; "_"; "-"]%char byte) platform_id)
  then Err InvalidData else Ok tt.

Definition validate_safe_metadata (value : option string) (max_bytes : Z) :
    result StorageError unit :=
  if is_some_and (λ value, str_is_empty value || (str_len value >? max_bytes)) value
  then Err InvalidData else Ok tt.

Definition ciphertext_length_ok (ciphertext : list byte) : bool :=
  between MIN_CIPHERTEXT_BYTES MAX_CIPHERTEXT_BYTES (zlen ciphertext).

Definition validate_credential_record (record : CredentialRecord) : result StorageError unit :=
  store_validate_platform_id (record_platform_id record);;
  if is_none_or (λ p, negb (eqb p.1 (record_platform_id record)))
       (split_once "."%char (CredentialScope_as_str (record_scope record)))
  then Err InvalidData
  else if (record_algorithm_version record =? 0)
          || (record_key_version record =? 0)
          || (record_revision record =? 0)
          || negb (ciphertext_length_ok (record_ciphertext record))
          || (record_updated_at record <? record_created_at record)
  then Err InvalidData
  else
    validate_safe_metadata (record_account_id_hint record) 256;;
    validate_safe_metadata (record_display_name record) 256;;
    validate_safe_metadata (record_safe_error_summary record) MAX_SAFE_METADATA_BYTES.

Definition validate_grant_record (record : CredentialScopeGrantRecord) :
    result StorageError unit :=
  if (scope_grant_id record =? 0)
     || str_is_empty (scope_grant_manifest_hash record)
     || (str_len (scope_grant_manifest_hash record) >? 256)
     || is_some (scope_grant_revoked_at record)
  then Err InvalidData else Ok tt.

Definition origin_cmp : CredentialTargetOrigin → CredentialTargetOrigin → comparison :=
  cmp_on CredentialTargetOrigin_as_str String.compare.

(** [windows(2).any(|pair| pair[0] == pair[1])] *)
Definition adjacent_duplicate (origins : list CredentialTargetOrigin) : bool :=
  existsb (λ pair, match pair with
                   | [a; b] => eqb (CredentialTargetOrigin_as_str a) (CredentialTargetOrigin_as_str b)
                   | _ => false
                   end) (windows 2 origins).

Definition normalize_origins (origins : list CredentialTargetOrigin) :
    result StorageError (list CredentialTargetOrigin) :=
  if (length origins =? 0)%nat || (zlen origins >? MAX_CREDENTIAL_TARGET_ORIGINS)
  then Err InvalidData
  else
    let normalized := sort_by origin_cmp origins in
    if adjacent_duplicate normalized then Err InvalidData else Ok normalized.

(** [iter().any(|o| !credential.contains(o) || !manifest.contains(o))] *)
Definition outside_intersection (origins credential_allowed manifest_allowed :
    list CredentialTargetOrigin) : bool :=
  existsb (λ origin,
    negb (list_contains (CredentialTargetOrigin_as_str <$> credential_allowed)
                        (CredentialTargetOrigin_as_str origin))
    || negb (list_contains (CredentialTargetOrigin_as_str <$> manifest_allowed)
                           (CredentialTargetOrigin_as_str origin))) origins.

Section store.
Context {U : UrlLib} {B : Encoding} {K : Codec}.

Definition id_text (id : CredentialId) : string := uuid_to_string (CredentialId_as_uuid id).

Definition store_parse_timestamp (value : string) : result StorageError time :=
  ok_or (parse_from_rfc3339 value) InvalidData.

Definition content_scope_origins (manifest_json : string) (scope : CredentialScope) :
    result StorageError (option (list CredentialTargetOrigin)) :=
  manifest ← ok_or (json_from_str manifest_json) InvalidData;
  credentials ←
    match json_get manifest "credentials" with
    | Some value => ok_or (declarations_from_value value) InvalidData
    | None => Ok (mkCredentialDeclarations [] [] [])
    end;
  transpose_map (λ declaration,
      normalize_origins (CredentialScopeDeclaration_target_origins declaration))
    (List.find (λ declaration, eqb (CredentialScopeDeclaration_scope declaration) scope)
       (CredentialDeclarations_required_scopes credentials
        ++ CredentialDeclarations_optional_scopes credentials)).

(** What the hasher is fed. *)
Definition origin_set_bytes (origins : list CredentialTargetOrigin) : list byte :=
  (bytes "audiodown-credential-origins" ++ [chr 0])
  ++ concat ((λ origin,
       let b := bytes (CredentialTargetOrigin_as_str origin) in
       be_bytes 4 (zlen b mod 2 ^ 32) ++ b) <$> origins).
Definition origin_set_hash (origins : list CredentialTargetOrigin) : list byte :=
  sha256 (origin_set_bytes origins).

Definition decode_origin_hash (value : list byte) : result StorageError (list byte) :=
  if zlen value =? ORIGIN_HASH_BYTES then Ok value else Err InvalidData.

(** ** Rows *)

Definition decode_credential (id : string) (row : CredentialRow) :
    result StorageError CredentialRecord :=
  revision ← try_get_i64 (credential_row_record_revision row);
  if negb (ciphertext_length_ok (credential_row_ciphertext row)) then Err InvalidData
  else
    record_id ← invalid (CredentialId_parse uuid_parse_str id);
    kind ← credential_kind_from_str (credential_row_kind row);
    scope ← invalid (CredentialScope_parse (credential_row_scope row));
    source ← transpose_map (λ p, invalid (PluginId_parse p)) (credential_row_source_plugin_id row);
    algorithm_version ← positive_at 16 (credential_row_algorithm_version row);
    key_version ← positive_at 32 (credential_row_key_version row);
    nonce ← (if zlen (credential_row_nonce row) =? STORED_NONCE_BYTES
             then Ok (credential_row_nonce row) else Err InvalidData);
    status ← credential_status_from_str (credential_row_status row);
    expires_at ← transpose_map store_parse_timestamp (credential_row_expires_at row);
    status_checked_at ← transpose_map store_parse_timestamp (credential_row_status_checked_at row);
    revision ← i64_to_u64 revision;
    created_at ← store_parse_timestamp (credential_row_created_at row);
    updated_at ← store_parse_timestamp (credential_row_updated_at row);
    Ok {|
      record_id := record_id;
      record_kind := kind;
      record_platform_id := credential_row_platform_id row;
      record_scope := scope;
      record_source_plugin_id := source;
      record_algorithm_version := algorithm_version;
      record_key_version := key_version;
      record_nonce := nonce;
      record_ciphertext := credential_row_ciphertext row;
      record_target_origins := [];
      record_status := status;
      record_account_id_hint := credential_row_account_id_hint row;
      record_display_name := credential_row_display_name row;
      record_safe_error_summary := credential_row_safe_error_summary row;
      record_expires_at := expires_at;
      record_status_checked_at := status_checked_at;
      record_revision := revision;
      record_created_at := created_at;
      record_updated_at := updated_at;
    |}.

(** [record.target_origins = ...] *)
Definition with_target_origins (record : CredentialRecord)
    (origins : list CredentialTargetOrigin) : CredentialRecord := {|
  record_id := record_id record;
  record_kind := record_kind record;
  record_platform_id := record_platform_id record;
  record_scope := record_scope record;
  record_source_plugin_id := record_source_plugin_id record;
  record_algorithm_version := record_algorithm_version record;
  record_key_version := record_key_version record;
  record_nonce := record_nonce record;
  record_ciphertext := record_ciphertext record;
  record_target_origins := origins;
  record_status := record_status record;
  record_account_id_hint := record_account_id_hint record;
  record_display_name := record_display_name record;
  record_safe_error_summary := record_safe_error_summary record;
  record_expires_at := record_expires_at record;
  record_status_checked_at := record_status_checked_at record;
  record_revision := record_revision record;
  record_created_at := record_created_at record;
  record_updated_at := record_updated_at record;
|}.

(** The bound values of an INSERT or UPDATE, with the given revision and
    creation time. *)
Definition credential_row (record : CredentialRecord) (revision : Z) (created_at : string) :
    CredentialRow := {|
  credential_row_kind := credential_kind_to_str (record_kind record);
  credential_row_platform_id := record_platform_id record;
  credential_row_scope := CredentialScope_as_str (record_scope record);
  credential_row_source_plugin_id := PluginId_as_str <$> record_source_plugin_id record;
  credential_row_algorithm_version := record_algorithm_version record;
  credential_row_key_version := record_key_version record;
  credential_row_nonce := record_nonce record;
  credential_row_ciphertext := record_ciphertext record;
  credential_row_status := credential_status_to_str (record_status record);
  credential_row_account_id_hint := record_account_id_hint record;
  credential_row_display_name := record_display_name record;
  credential_row_safe_error_summary := record_safe_error_summary record;
  credential_row_expires_at := to_rfc3339 <$> record_expires_at record;
  credential_row_status_checked_at := to_rfc3339 <$> record_status_checked_at record;
  credential_row_record_revision := revision;
  credential_row_created_at := created_at;
  credential_row_updated_at := to_rfc3339 (record_updated_at record);
|}.

(** Does the row's source plugin exist?  (FOREIGN KEY) *)
Definition source_exists (row : CredentialRow) (db : Db) : bool :=
  is_none_or (λ p, is_some (db_plugins db !! p)) (credential_row_source_plugin_id row).

(** Write a row under a key: checks, UNIQUE(scope), foreign key. *)
Definition put_credential (id : string) (row : CredentialRow) (db : Db) : result SqlError Db :=
  if negb (credential_checks row) then Err OtherSqlError
  else if other_row (db_credentials db) id
            (λ r, eqb (credential_row_scope r) (credential_row_scope row))
  then Err UniqueViolation
  else if negb (source_exists row db) then Err OtherSqlError
  else Ok (set_credentials <[id := row]> db).

Definition sql_insert_credential (id : string) (row : CredentialRow) (db : Db) :
    result SqlError (Z * Db) :=
  if negb (credential_checks row) then Err OtherSqlError
  else if is_some (db_credentials db !! id) then Err UniqueViolation
  else db ← put_credential id row db; Ok (1, db).

(** [UPDATE ... WHERE id = ? AND record_revision = ?]; the creation time is not
    assigned. *)
Definition sql_update_credential (id : string) (revision : Z) (row : string → CredentialRow)
    (db : Db) : result SqlError (Z * Db) :=
  match db_credentials db !! id with
  | Some old =>
      if credential_row_record_revision old =? revision
      then db ← put_credential id (row (credential_row_created_at old)) db; Ok (1, db)
      else Ok (0, db)
  | None => Ok (0, db)
  end.

Definition sql_insert_target_origin (id origin : string) (db : Db) : result SqlError (Z * Db) :=
  if bool_decide ((id, origin) ∈ db_target_origins db) then Err UniqueViolation
  else if is_none (db_credentials db !! id) then Err OtherSqlError
  else Ok (1, set_target_origins (λ s, {[(id, origin)]} ∪ s) db).

(** [SELECT origin ... WHERE credential_id = ? ORDER BY origin ASC] *)
Definition sql_target_origins (id : string) (db : Db) : list string :=
  sort_by String.compare
    (List.map snd (List.filter (λ p, eqb p.1 id) (elements (db_target_origins db)))).

Definition decode_origins (rows : list string) :
    result StorageError (list CredentialTargetOrigin) :=
  mapM (λ origin, invalid (CredentialTargetOrigin_parse origin)) rows.

(** ** Steps inside a transaction *)

Definition insert_credential (record : CredentialRecord) : act Store StorageError unit :=
  revision ← pure (u64_to_i64 (record_revision record));
  map_errors map_write_error (statement (sql_insert_credential (id_text (record_id record))
    (credential_row record revision (to_rfc3339 (record_created_at record)))));;
  mret tt.

Definition update_credential_row (record : CredentialRecord) (next_revision : Z) :
    act Store StorageError bool :=
  next ← pure (u64_to_i64 next_revision);
  revision ← pure (u64_to_i64 (record_revision record));
  rows_affected ← map_errors map_write_error
    (statement (sql_update_credential (id_text (record_id record)) revision
                  (credential_row record next)));
  mret (rows_affected =? 1).

Definition credential_exists (credential_id : CredentialId) : act Store StorageError bool :=
  select (λ db, is_some (db_credentials db !! id_text credential_id)).

Definition validate_source_plugin (record : CredentialRecord) : act Store StorageError unit :=
  match record_source_plugin_id record with
  | None => mret tt
  | Some source_plugin_id =>
      found ← select (λ db, db_plugins db !! PluginId_as_str source_plugin_id);
      row ← pure (ok_or found StorageNotFound);
      if negb (eqb (plugin_row_plugin_type row) "credential")
         || negb (eqb (plugin_row_platform_id row) (record_platform_id record))
      then throw InvalidData
      else mret tt
  end.

Definition replace_credential_origins (credential_id : CredentialId)
    (origins : list CredentialTargetOrigin) : act Store StorageError unit :=
  execute_sql (λ db, Ok (tt, set_target_origins (filter (λ p, p.1 ≠ id_text credential_id)) db));;
  act_each (λ origin,
    map_errors map_write_error (statement (sql_insert_target_origin (id_text credential_id)
                                  (CredentialTargetOrigin_as_str origin)));;
    mret tt) origins.

Definition load_credential_origins (credential_id : CredentialId) :
    act Store StorageError (list CredentialTargetOrigin) :=
  rows ← select (sql_target_origins (id_text credential_id));
  pure (decode_origins rows).

(** A decoded row with its origins. *)
Definition load_credential (entry : string * CredentialRow) :
    act Store StorageError CredentialRecord :=
  record ← pure (decode_credential entry.1 entry.2);
  origins ← load_credential_origins (record_id record);
  mret (with_target_origins record origins).

(** ** Credentials *)

Definition insert (record : CredentialRecord) : act Store StorageError unit :=
  pure (validate_credential_record record);;
  if negb (record_revision record =? 1) then throw InvalidData
  else
    origins ← pure (normalize_origins (record_target_origins record));
    transaction (
      validate_source_plugin record;;
      insert_credential record;;
      replace_credential_origins (record_id record) origins).

Definition upsert (record : CredentialRecord) : act Store StorageError Z :=
  pure (validate_credential_record record);;
  origins ← pure (normalize_origins (record_target_origins record));
  next ← pure (next_revision (record_revision record));
  transaction (
    validate_source_plugin record;;
    updated ← update_credential_row record next;
    if updated : bool then
      replace_credential_origins (record_id record) origins;;
      mret next
    else
      exists_ ← credential_exists (record_id record);
      if exists_ : bool then throw StorageConflict
      else if negb (record_revision record =? 1) then throw StorageConflict
      else
        insert_credential record;;
        replace_credential_origins (record_id record) origins;;
        mret 1).

Definition update (record : CredentialRecord) : act Store StorageError Z :=
  pure (validate_credential_record record);;
  origins ← pure (normalize_origins (record_target_origins record));
  next ← pure (next_revision (record_revision record));
  transaction (
    validate_source_plugin record;;
    updated ← update_credential_row record next;
    if updated : bool then
      replace_credential_origins (record_id record) origins;;
      mret next
    else
      exists_ ← credential_exists (record_id record);
      if exists_ : bool then throw StorageConflict else throw StorageNotFound).

Definition get (credential_id : CredentialId) :
    act Store StorageError (option CredentialRecord) :=
  transaction (
    row ← select (λ db, db_credentials db !! id_text credential_id);
    match row with
    | Some row => record ← load_credential (id_text credential_id, row); mret (Some record)
    | None => mret None
    end).

(** [SELECT * FROM credentials WHERE scope = ?] *)
Definition sql_by_scope (scope : CredentialScope) (db : Db) : option (string * CredentialRow) :=
  List.find (λ '(_, row), eqb (credential_row_scope row) (CredentialScope_as_str scope))
    (map_to_list (db_credentials db)).

Definition get_by_scope (scope : CredentialScope) :
    act Store StorageError (option CredentialRecord) :=
  transaction (
    row ← select (sql_by_scope scope);
    match row with
    | Some entry => record ← load_credential entry; mret (Some record)
    | None => mret None
    end).

(** [SELECT * FROM credentials ORDER BY scope ASC] *)
Definition sql_list_credentials (db : Db) : list (string * CredentialRow) :=
  sort_by (cmp_on (credential_row_scope ∘ snd) String.compare) (map_to_list (db_credentials db)).

Definition list_credentials : act Store StorageError (list CredentialRecord) :=
  transaction (
    rows ← select sql_list_credentials;
    act_map load_credential rows).

(** [record_revision + 1] at SQLite's integers; see [try_get_i64]. *)
Definition sql_increment (revision : Z) : Z :=
  if revision <? i64_max then revision + 1 else 2 ^ 63.

Definition cleared_row (row : CredentialRow) (updated_at : string) : CredentialRow := {|
  credential_row_kind := credential_row_kind row;
  credential_row_platform_id := credential_row_platform_id row;
  credential_row_scope := credential_row_scope row;
  credential_row_source_plugin_id := None;
  credential_row_algorithm_version := credential_row_algorithm_version row;
  credential_row_key_version := credential_row_key_version row;
  credential_row_nonce := credential_row_nonce row;
  credential_row_ciphertext := credential_row_ciphertext row;
  credential_row_status := credential_row_status row;
  credential_row_account_id_hint := credential_row_account_id_hint row;
  credential_row_display_name := credential_row_display_name row;
  credential_row_safe_error_summary := credential_row_safe_error_summary row;
  credential_row_expires_at := credential_row_expires_at row;
  credential_row_status_checked_at := credential_row_status_checked_at row;
  credential_row_record_revision := sql_increment (credential_row_record_revision row);
  credential_row_created_at := credential_row_created_at row;
  credential_row_updated_at := updated_at;
|}.

Definition sql_clear_source (id updated_at : string) (db : Db) : result SqlError (Z * Db) :=
  match db_credentials db !! id with
  | Some row => db ← put_credential id (cleared_row row updated_at) db; Ok (1, db)
  | None => Ok (0, db)
  end.

Definition clear_source_plugin (now : time) (credential_id : CredentialId) :
    act Store StorageError unit :=
  rows_affected ← execute_sql (sql_clear_source (id_text credential_id) (to_rfc3339 now));
  pure (ensure_one_row rows_affected).

Definition delete_credential (credential_id : CredentialId) : act Store StorageError unit :=
  rows_affected ← execute_sql (sql_delete_credential (id_text credential_id));
  pure (ensure_one_row rows_affected).

(** ** Grants *)

Definition set_revoked (row : GrantRow) (revoked_at : string) : GrantRow :=
  mkGrantRow (grant_row_plugin_id row) (grant_row_manifest_hash row)
    (grant_row_credential_id row) (grant_row_scope row)
    (grant_row_credential_origins_hash row) (grant_row_created_at row) (Some revoked_at).

(** [UPDATE ... SET revoked_at = ? WHERE plugin_id = ? AND credential_id = ? AND
    scope = ? AND revoked_at IS NULL] *)
Definition sql_revoke_active (plugin_id credential_id scope revoked_at : string) (db : Db) :
    result SqlError (unit * Db) :=
  Ok (tt, set_grants (fmap (λ row,
    if eqb (grant_row_plugin_id row) plugin_id && eqb (grant_row_credential_id row) credential_id
       && eqb (grant_row_scope row) scope && is_none (grant_row_revoked_at row)
    then set_revoked row revoked_at else row)) db).

Definition sql_insert_grant (id : string) (row : GrantRow) (db : Db) : result SqlError (unit * Db) :=
  if negb (zlen (grant_row_credential_origins_hash row) =? 32) then Err OtherSqlError
  else if is_some (db_grants db !! id) || some_row (db_grants db) (same_active_grant row)
  then Err UniqueViolation
  else if is_none (db_plugins db !! grant_row_plugin_id row)
          || is_none (db_credentials db !! grant_row_credential_id row)
  then Err OtherSqlError
  else Ok (tt, set_grants <[id := row]> db).

Definition sql_insert_grant_origin (grant_id credential_id origin : string) (db : Db) :
    result SqlError (unit * Db) :=
  if is_some (db_grant_origins db !! (grant_id, origin)) then Err UniqueViolation
  else if is_none_or (λ g, negb (eqb (grant_row_credential_id g) credential_id))
            (db_grants db !! grant_id)
  then Err OtherSqlError
  else Ok (tt, set_grant_origins <[(grant_id, origin) := credential_id]> db).

(** [SELECT origin ... WHERE grant_id = ? ORDER BY origin ASC] *)
Definition sql_grant_origins (grant_id : string) (db : Db) : list string :=
  sort_by String.compare
    (List.map (λ p, p.1.2)
       (List.filter (λ p, eqb p.1.1 grant_id) (map_to_list (db_grant_origins db)))).

Definition insert_grant_origins (grant_id : Uuid) (credential_id : CredentialId)
    (origins : list CredentialTargetOrigin) : act Store StorageError unit :=
  act_each (λ origin,
    map_errors map_write_error (statement (sql_insert_grant_origin (uuid_to_string grant_id)
      (id_text credential_id) (CredentialTargetOrigin_as_str origin)))) origins.

Definition load_grant_origins (grant_id : Uuid) :
    act Store StorageError (list CredentialTargetOrigin) :=
  rows ← select (sql_grant_origins (uuid_to_string grant_id));
  pure (decode_origins rows).

Definition decode_grant (id : string) (row : GrantRow) :
    result StorageError CredentialScopeGrantRecord :=
  grant_id ← ok_or (uuid_parse_str id) InvalidData;
  plugin_id ← invalid (PluginId_parse (grant_row_plugin_id row));
  credential_id ← invalid (CredentialId_parse uuid_parse_str (grant_row_credential_id row));
  scope ← invalid (CredentialScope_parse (grant_row_scope row));
  created_at ← store_parse_timestamp (grant_row_created_at row);
  revoked_at ← transpose_map store_parse_timestamp (grant_row_revoked_at row);
  Ok {|
    scope_grant_id := grant_id;
    scope_grant_plugin_id := plugin_id;
    scope_grant_manifest_hash := grant_row_manifest_hash row;
    scope_grant_credential_id := credential_id;
    scope_grant_scope := scope;
    scope_grant_target_origins := [];
    scope_grant_created_at := created_at;
    scope_grant_revoked_at := revoked_at;
  |}.

Definition with_grant_origins (grant : CredentialScopeGrantRecord)
    (origins : list CredentialTargetOrigin) : CredentialScopeGrantRecord := {|
  scope_grant_id := scope_grant_id grant;
  scope_grant_plugin_id := scope_grant_plugin_id grant;
  scope_grant_manifest_hash := scope_grant_manifest_hash grant;
  scope_grant_credential_id := scope_grant_credential_id grant;
  scope_grant_scope := scope_grant_scope grant;
  scope_grant_target_origins := origins;
  scope_grant_created_at := scope_grant_created_at grant;
  scope_grant_revoked_at := scope_grant_revoked_at grant;
|}.

(** The row a grant is stored as. *)
Definition new_grant_row (record : CredentialScopeGrantRecord)
    (credential_origins : list CredentialTargetOrigin) : GrantRow := {|
  grant_row_plugin_id := PluginId_as_str (scope_grant_plugin_id record);
  grant_row_manifest_hash := scope_grant_manifest_hash record;
  grant_row_credential_id := id_text (scope_grant_credential_id record);
  grant_row_scope := CredentialScope_as_str (scope_grant_scope record);
  grant_row_credential_origins_hash := origin_set_hash credential_origins;
  grant_row_created_at := to_rfc3339 (scope_grant_created_at record);
  grant_row_revoked_at := None;
|}.

Definition create_grant (record : CredentialScopeGrantRecord) : act Store StorageError unit :=
  pure (validate_grant_record record);;
  grant_origins ← pure (normalize_origins (scope_grant_target_origins record));
  transaction (
    found ← select (λ db, db_plugins db !! PluginId_as_str (scope_grant_plugin_id record));
    plugin ← pure (ok_or found StorageNotFound);
    if negb (eqb (plugin_row_plugin_type plugin) "content")
       || negb (eqb (plugin_row_manifest_hash plugin) (scope_grant_manifest_hash record))
       || str_is_empty (plugin_row_platform_id plugin)
    then throw InvalidData
    else
      found ← select (λ db, db_credentials db !! id_text (scope_grant_credential_id record));
      credential ← pure (ok_or found StorageNotFound);
      if negb (eqb (credential_row_platform_id credential) (plugin_row_platform_id plugin))
         || negb (eqb (credential_row_scope credential)
                      (CredentialScope_as_str (scope_grant_scope record)))
      then throw InvalidData
      else
        credential_origins ← load_credential_origins (scope_grant_credential_id record);
        declared ← pure (content_scope_origins (plugin_row_manifest_json plugin)
                           (scope_grant_scope record));
        declared_origins ← pure (ok_or declared InvalidData);
        if outside_intersection grant_origins credential_origins declared_origins
        then throw InvalidData
        else
          execute_sql (sql_revoke_active (PluginId_as_str (scope_grant_plugin_id record))
            (id_text (scope_grant_credential_id record))
            (CredentialScope_as_str (scope_grant_scope record))
            (to_rfc3339 (scope_grant_created_at record)));;
          map_errors map_write_error (statement (sql_insert_grant
            (uuid_to_string (scope_grant_id record)) (new_grant_row record credential_origins)));;
          insert_grant_origins (scope_grant_id record) (scope_grant_credential_id record)
            grant_origins).

(** [UPDATE ... SET revoked_at = ? WHERE id = ? AND revoked_at IS NULL] *)
Definition sql_revoke_grant (id revoked_at : string) (db : Db) : result SqlError (Z * Db) :=
  match db_grants db !! id with
  | Some row =>
      if is_none (grant_row_revoked_at row)
      then Ok (1, set_grants <[id := set_revoked row revoked_at]> db)
      else Ok (0, db)
  | None => Ok (0, db)
  end.

Definition revoke_grant (grant_id : Uuid) (revoked_at : time) : act Store StorageError unit :=
  rows_affected ← execute_sql (sql_revoke_grant (uuid_to_string grant_id) (to_rfc3339 revoked_at));
  pure (ensure_one_row rows_affected).

(** [... WHERE plugin_id = ? ORDER BY created_at ASC, id ASC] *)
Definition sql_grants_for_plugin (plugin_id : string) (db : Db) : list (string * GrantRow) :=
  sort_by (cmp_then (cmp_on (grant_row_created_at ∘ snd) String.compare)
                    (cmp_on fst String.compare))
    (List.filter (λ '(_, row), eqb (grant_row_plugin_id row) plugin_id)
       (map_to_list (db_grants db))).

Definition list_grants_for_plugin (plugin_id : PluginId) :
    act Store StorageError (list CredentialScopeGrantRecord) :=
  transaction (
    rows ← select (sql_grants_for_plugin (PluginId_as_str plugin_id));
    act_map (λ entry,
      grant ← pure (decode_grant entry.1 entry.2);
      origins ← load_grant_origins (scope_grant_id grant);
      mret (with_grant_origins grant origins)) rows).

(** The join of a grant with its plugin and credential. *)
Definition joined_grant (plugin_id credential_id scope : string) (db : Db)
    (entry : string * GrantRow) : option (string * GrantRow * string) :=
  let '(id, g) := entry in
  p ← db_plugins db !! grant_row_plugin_id g;
  c ← db_credentials db !! grant_row_credential_id g;
  if eqb (grant_row_plugin_id g) plugin_id
     && eqb (grant_row_credential_id g) credential_id
     && eqb (grant_row_scope g) scope
     && is_none (grant_row_revoked_at g)
     && eqb (plugin_row_plugin_type p) "content"
     && eqb (plugin_row_platform_id p) (credential_row_platform_id c)
     && eqb (plugin_row_manifest_hash p) (grant_row_manifest_hash g)
     && eqb (credential_row_scope c) (grant_row_scope g)
  then Some (id, g, plugin_row_manifest_json p)
  else None.

Definition sql_active_grant (plugin_id credential_id scope : string) (db : Db) :
    option (string * GrantRow * string) :=
  head (omap (joined_grant plugin_id credential_id scope db) (map_to_list (db_grants db))).

Definition active_grant (plugin_id : PluginId) (credential_id : CredentialId)
    (scope : CredentialScope) : act Store StorageError (option CredentialScopeGrantRecord) :=
  transaction (
    row ← select (sql_active_grant (PluginId_as_str plugin_id) (id_text credential_id)
                    (CredentialScope_as_str scope));
    match row with
    | None => mret None
    | Some (id, row, manifest_json) =>
        stored_hash ← pure (decode_origin_hash (grant_row_credential_origins_hash row));
        grant ← pure (decode_grant id row);
        grant_origins ← load_grant_origins (scope_grant_id grant);
        let grant := with_grant_origins grant grant_origins in
        credential_origins ← load_credential_origins (scope_grant_credential_id grant);
        declared ← pure (content_scope_origins manifest_json (scope_grant_scope grant));
        match declared with
        | None => mret None
        | Some declared_origins =>
            if (length (scope_grant_target_origins grant) =? 0)%nat
               || negb (eqb stored_hash (origin_set_hash credential_origins))
            then mret None
            else if outside_intersection (scope_grant_target_origins grant)
                      credential_origins declared_origins
            then mret None
            else mret (Some grant)
        end
    end).
End store.
