(* ===== verification/CredentialStoreFacts.v ===== *)
(** * Facts about the credential repository

    The records the tables hold ([credential_at]), what each operation does to
    them, and that every stored row can be read back. *)

From S2P Require Import Prelude Stateful Text Domain Foreign CredentialContract Database.
From S2P Require Import Database CredentialStore.

(** ** Origin lists *)

Global Instance origin_cmp_preorder : CmpPreorder origin_cmp.
Proof. unfold origin_cmp. apply _. Qed.
Global Instance origin_cmp_strict : CmpStrict origin_cmp.
Proof.
  intros [a] [b] H. unfold origin_cmp, cmp_on in H. apply (cmp_eq String.compare) in H.
  simpl in H. by subst.
Qed.

Lemma sorted_NoDup_strict {A} (cmp : A → A → comparison) `{!CmpPreorder cmp, !CmpStrict cmp} l :
  StronglySorted (cmp_le cmp) l → NoDup l → StronglySorted (cmp_lt cmp) l.
Proof.
  induction 1 as [|x l Hl IH Hx]; intros Hn; constructor.
  - apply IH. by inversion Hn.
  - apply Forall_forall. intros y Hy. eapply Forall_forall in Hx as Hxy; [|done].
    unfold cmp_lt, cmp_le in *. destruct (cmp x y) eqn:E; [|done..].
    apply (cmp_eq cmp) in E as ->. by inversion Hn.
Qed.

Lemma adjacent_duplicate_cons a b l :
  adjacent_duplicate (a :: b :: l) =
  eqb (CredentialTargetOrigin_as_str a) (CredentialTargetOrigin_as_str b)
  || adjacent_duplicate (b :: l).
Proof. done. Qed.

Lemma adjacent_duplicate_strict l :
  StronglySorted (cmp_le origin_cmp) l → adjacent_duplicate l = false →
  StronglySorted (cmp_lt origin_cmp) l.
Proof.
  induction 1 as [|x l Hl IH Hx]; [constructor|].
  destruct l as [|y l]; [repeat constructor|]. rewrite adjacent_duplicate_cons.
  intros [Hne Hd]%orb_false_elim. constructor; [by apply IH|]. apply Forall_forall. intros z Hz.
  apply Forall_cons in Hx as [Hxy _].
  assert (cmp_lt origin_cmp x y) as Hlt.
  { unfold cmp_lt, cmp_le in *. destruct (origin_cmp x y) eqn:E; [|done..].
    apply (cmp_eq origin_cmp) in E as ->. by rewrite eqb_refl in Hne. }
  apply elem_of_cons in Hz as [->|Hz]; [done|].
  eapply cmp_lt_le_trans; [apply _|exact Hlt|]. inversion Hl as [|? ? _ Hy]; subst.
  by eapply Forall_forall in Hy.
Qed.

Lemma strict_adjacent_duplicate l :
  StronglySorted (cmp_lt origin_cmp) l → adjacent_duplicate l = false.
Proof.
  induction 1 as [|x l Hl IH Hx]; [done|]. destruct l as [|y l]; [done|].
  rewrite adjacent_duplicate_cons, IH, orb_false_r. apply Forall_cons in Hx as [Hxy _].
  unfold eqb. apply bool_decide_eq_false. intros Heq. unfold cmp_lt, origin_cmp, cmp_on in Hxy.
  by rewrite Heq, (cmp_refl String.compare) in Hxy.
Qed.

(** A stored origin list: one to sixteen origins in strictly increasing order. *)
Definition normalized (origins : list CredentialTargetOrigin) : Prop :=
  1 ≤ zlen origins ≤ 16 ∧ StronglySorted (cmp_lt origin_cmp) origins.

Lemma stored_origins_Ok origins out :
  normalize_origins origins = Ok out ↔ out ≡ₚ origins ∧ normalized out.
Proof.
  unfold normalize_origins, normalized, MAX_CREDENTIAL_TARGET_ORIGINS. split.
  - intros H. simplify_result. bool_prop. apply Nat.eqb_neq in H.
    assert (zlen (sort_by origin_cmp origins) = zlen origins) as Hlen
      by (unfold zlen; by rewrite length_sort_by).
    split_and!; [apply sort_by_perm| |by rewrite Hlen|].
    + rewrite Hlen. unfold zlen. lia.
    + apply adjacent_duplicate_strict; [apply sort_by_sorted, _|done].
  - intros (Hp & [Hl1 Hl2] & Hs). assert (zlen out = zlen origins) as Hlen
      by (unfold zlen; by rewrite Hp). rewrite Hlen in *.
    destruct ((length origins =? 0)%nat) eqn:E1; [apply Nat.eqb_eq in E1; unfold zlen in *; lia|].
    destruct (_ >? _) eqn:E2; bool_prop; [lia|]. simpl.
    rewrite (sort_by_permutation origin_cmp out origins) by (done || by symmetry).
    by rewrite strict_adjacent_duplicate.
Qed.

Lemma normalize_origins_NoDup origins out : normalize_origins origins = Ok out → NoDup out.
Proof. intros [_ [_ H]]%stored_origins_Ok. by apply (cmp_lt_sorted_NoDup origin_cmp). Qed.

Lemma normalized_strings origins :
  StronglySorted (cmp_lt origin_cmp) origins →
  StronglySorted (cmp_lt String.compare) (CredentialTargetOrigin_as_str <$> origins).
Proof.
  induction 1 as [|x l Hl IH Hx]; rewrite ?fmap_cons; constructor; [done|].
  by apply Forall_fmap.
Qed.

Section facts.
Context {U : UrlLib} {B : Encoding} {K : Codec}.

(** ** The origins in the tables *)

Definition add_origins (t : string) (l : list string) (db : Db) : Db :=
  set_target_origins (λ T, list_to_set (pair t <$> l) ∪ T) db.

Lemma add_origins_cons t o l db :
  add_origins t l (set_target_origins (λ T, {[(t, o)]} ∪ T) db) = add_origins t (o :: l) db.
Proof.
  unfold add_origins, set_target_origins. simpl. f_equal. set_solver.
Qed.

Lemma insert_origins_Ok t (l : list CredentialTargetOrigin) s s' :
  act_each (λ origin,
    map_errors map_write_error (statement (sql_insert_target_origin t
                                  (CredentialTargetOrigin_as_str origin)));;
    mret tt) l s = (Ok tt, s') →
  store_db s' = add_origins t (CredentialTargetOrigin_as_str <$> l) (store_db s).
Proof.
  revert s. induction l as [|o l IH]; intros s; cbn [act_each].
  { intros [_ ->]%act_ret_Ok. unfold add_origins, set_target_origins. simpl.
    destruct (store_db s); simpl. f_equal. set_solver. }
  intros ([] & s1 & (n & s2 & Hn%map_errors_Ok%statement_Ok & [_ ->]%act_ret_Ok)%act_bind_Ok & Hl)
    %act_bind_Ok.
  apply IH in Hl as ->. rewrite fmap_cons, <- add_origins_cons. f_equal.
  unfold sql_insert_target_origin in Hn. by simplify_result.
Qed.

Lemma replace_credential_origins_Ok id l s s' :
  replace_credential_origins id l s = (Ok tt, s') →
  store_db s' = add_origins (id_text id) (CredentialTargetOrigin_as_str <$> l)
                  (set_target_origins (filter (λ p, p.1 ≠ id_text id)) (store_db s)).
Proof.
  unfold replace_credential_origins.
  intros ([] & s1 & Hd%execute_sql_Ok & Hl%insert_origins_Ok)%act_bind_Ok.
  injection Hd as Hd. by rewrite Hl, <- Hd.
Qed.

(** Distinct origins are never refused as duplicates. *)
Lemma insert_origins_Err t (l : list CredentialTargetOrigin) s e s' :
  NoDup l → (∀ o, o ∈ l → (t, CredentialTargetOrigin_as_str o) ∉ db_target_origins (store_db s)) →
  act_each (λ origin,
    map_errors map_write_error (statement (sql_insert_target_origin t
                                  (CredentialTargetOrigin_as_str origin)));;
    mret tt) l s = (Err e, s') → e = Database.
Proof.
  intros Hl. revert s. induction Hl as [|o l Ho Hl IH]; intros s Hnew; cbn [act_each]; [done|].
  intros [Hs|([] & s1 & (n & s2 & Hn%map_errors_Ok%statement_Ok & [_ ->]%act_ret_Ok)%act_bind_Ok & Hs)]
    %act_bind_Err.
  - apply act_bind_Err in Hs as [[_ [->|[-> Hu]]]%write_sql_Err|(? & ? & _ & ?)]; [done| |done].
    exfalso. unfold sql_insert_target_origin in Hu. rewrite bool_decide_eq_false_2 in Hu.
    + by destruct (is_none _).
    + apply Hnew. by left.
  - eapply IH; [|done]. intros o' Hin. unfold sql_insert_target_origin in Hn. simplify_result.
    match goal with Hd : _ = store_db _ |- _ => rewrite <- Hd end. simpl.
    intros [Heq%elem_of_singleton|Hold]%elem_of_union.
    + destruct o as [o], o' as [o']. simpl in Heq. by simplify_eq.
    + eapply (Hnew o'); [by right|done].
Qed.

Lemma replace_credential_origins_Err id l s e s' :
  NoDup l → replace_credential_origins id l s = (Err e, s') → e = Database.
Proof.
  unfold replace_credential_origins.
  intros Hl [[_ ->]%execute_sql_Err|([] & s1 & Hd%execute_sql_Ok & Ho)]%act_bind_Err; [done|].
  eapply insert_origins_Err; [done| |done]. intros o _. injection Hd as <-. simpl.
  rewrite elem_of_filter. by intros [? _].
Qed.

Lemma elem_of_sql_target_origins t db o :
  o ∈ sql_target_origins t db ↔ (t, o) ∈ db_target_origins db.
Proof.
  unfold sql_target_origins. rewrite elem_of_sort_by, list_elem_of_In, in_map_iff.
  setoid_rewrite filter_In. setoid_rewrite <- list_elem_of_In. setoid_rewrite elem_of_elements.
  split.
  - intros ([t' o'] & <- & Hin & Heq). simpl in *. bool_prop. by subst.
  - intros Hin. exists (t, o). by rewrite eqb_refl.
Qed.

Lemma sql_target_origins_strict t db :
  StronglySorted (cmp_lt String.compare) (sql_target_origins t db).
Proof.
  apply sorted_NoDup_strict; [apply _..|apply sort_by_sorted, _|].
  unfold sql_target_origins. rewrite sort_by_perm.
  assert (∀ l : list (string * string), NoDup l →
    NoDup (List.map snd (List.filter (λ p, eqb p.1 t) l))) as H.
  { induction 1 as [|[t' o] l Hx Hl IH]; simpl; [constructor|].
    destruct (eqb t' t) eqn:E; simpl; [|done]. bool_prop. subst. constructor; [|done].
    rewrite list_elem_of_In, in_map_iff. intros ([t' o'] & Heq & Hin). simpl in *. subst o'.
    apply filter_In in Hin as [Hin E]. simpl in E. bool_prop. subst.
    by apply Hx, list_elem_of_In. }
  apply H, NoDup_elements.
Qed.

(** The origins read back are the ones written. *)
Lemma sql_target_origins_added t l db :
  StronglySorted (cmp_lt origin_cmp) l →
  sql_target_origins t (add_origins t (CredentialTargetOrigin_as_str <$> l)
                          (set_target_origins (filter (λ p, p.1 ≠ t)) db)) =
  CredentialTargetOrigin_as_str <$> l.
Proof.
  intros Hl. apply (cmp_lt_sorted_unique String.compare);
    [apply sql_target_origins_strict|by apply normalized_strings|].
  intros o. rewrite elem_of_sql_target_origins. unfold add_origins. simpl.
  rewrite elem_of_union, elem_of_list_to_set, elem_of_filter. simpl.
  split; [|intros Hin; left; by apply list_elem_of_fmap_2].
  by intros [(? & [= ->] & Hin)%list_elem_of_fmap|[? _]].
Qed.

Lemma sql_target_origins_other t t' l db :
  t' ≠ t →
  sql_target_origins t' (add_origins t l (set_target_origins (filter (λ p, p.1 ≠ t)) db)) =
  sql_target_origins t' db.
Proof.
  intros Hne. apply (cmp_lt_sorted_unique String.compare); [apply sql_target_origins_strict..|].
  intros o. rewrite !elem_of_sql_target_origins. unfold add_origins. simpl.
  rewrite elem_of_union, elem_of_list_to_set, elem_of_filter. simpl.
  split; [|by right]. by intros [(? & [= <- ->] & Hin)%list_elem_of_fmap|[_ ?]].
Qed.

(** ** Records *)

(** What the Rust types and the parsers guarantee of a record, and that its times
    lie in the years 0 to 9999, which neither does: a [DateTime<Utc>] goes
    further. *)
Record record_typed (r : CredentialRecord) : Prop := {
  typed_id : uuid_value (CredentialId_as_uuid (record_id r)) ∧
             CredentialId_as_uuid (record_id r) ≠ 0;
  typed_scope : CredentialScope_parse (CredentialScope_as_str (record_scope r)) =
                Ok (record_scope r);
  typed_source p : record_source_plugin_id r = Some p → PluginId_parse (PluginId_as_str p) = Ok p;
  typed_algorithm : 0 ≤ record_algorithm_version r < 2 ^ 16;
  typed_key : 0 ≤ record_key_version r < 2 ^ 32;
  typed_nonce : zlen (record_nonce r) = 12;
  typed_origins : Forall (λ o, CredentialTargetOrigin_parse (CredentialTargetOrigin_as_str o) = Ok o)
                    (record_target_origins r);
  typed_times : rfc3339_time (record_created_at r) ∧ rfc3339_time (record_updated_at r) ∧
                (∀ t, record_expires_at r = Some t → rfc3339_time t) ∧
                (∀ t, record_status_checked_at r = Some t → rfc3339_time t);
  typed_revision : 0 ≤ record_revision r;
}.

(** What storing a record adds; [2 ^ 63] is the revision past the last one that
    decodes. *)
Record record_stored (r : CredentialRecord) : Prop := {
  rs_typed : record_typed r;
  rs_algorithm : 0 < record_algorithm_version r;
  rs_key : 0 < record_key_version r;
  rs_ciphertext : ciphertext_length_ok (record_ciphertext r) = true;
  rs_origins : normalized (record_target_origins r);
  rs_revision : 1 ≤ record_revision r ≤ 2 ^ 63;
}.

Definition row_of (r : CredentialRecord) : CredentialRow :=
  credential_row r (record_revision r) (to_rfc3339 (record_created_at r)).

(** The tables hold the record. *)
Definition credential_at (db : Db) (r : CredentialRecord) : Prop :=
  db_credentials db !! id_text (record_id r) = Some (row_of r) ∧
  sql_target_origins (id_text (record_id r)) db =
    CredentialTargetOrigin_as_str <$> record_target_origins r ∧
  record_stored r.

(** Every credential row is that of a record. *)
Definition credentials_ok (db : Db) : Prop :=
  ∀ t row, db_credentials db !! t = Some row →
    ∃ r, t = id_text (record_id r) ∧ credential_at db r.

Context `{!CodecLaws K}.

Lemma id_text_inj (a b : CredentialId) :
  uuid_value (CredentialId_as_uuid a) → uuid_value (CredentialId_as_uuid b) →
  id_text a = id_text b → a = b.
Proof.
  unfold id_text. intros Ha Hb Heq. apply (f_equal uuid_parse_str) in Heq.
  rewrite !uuid_roundtrip in Heq by done. destruct a, b; simpl in *. naive_solver.
Qed.

Lemma kind_roundtrip kind :
  credential_kind_from_str (credential_kind_to_str kind) = Ok kind.
Proof. by destruct kind. Qed.
Lemma status_roundtrip status :
  credential_status_from_str (credential_status_to_str status) = Ok status.
Proof. by destruct status. Qed.

Lemma time_option_roundtrip (o : option time) :
  (∀ t, o = Some t → rfc3339_time t) →
  transpose_map store_parse_timestamp (to_rfc3339 <$> o) = Ok o.
Proof.
  destruct o as [t|]; [|done]. intros Ht. simpl. unfold store_parse_timestamp.
  by rewrite rfc3339_roundtrip by (by apply Ht).
Qed.

Lemma source_roundtrip (o : option PluginId) :
  (∀ p, o = Some p → PluginId_parse (PluginId_as_str p) = Ok p) →
  transpose_map (λ p, invalid (PluginId_parse p)) (PluginId_as_str <$> o) = Ok o.
Proof. destruct o as [p|]; [|done]. intros Hp. simpl. by rewrite Hp. Qed.

Lemma decode_row_of r :
  record_stored r → record_revision r ≤ i64_max →
  decode_credential (id_text (record_id r)) (row_of r) = Ok (with_target_origins r []).
Proof.
  intros [[Hid Hscope Hsource Ha Hk Hn _ (Hc & Hu & He & Hs) _] Ha' Hk' Hct _ Hr] Hmax.
  unfold decode_credential, row_of, credential_row, try_get_i64. cbn [credential_row_record_revision
    credential_row_ciphertext credential_row_kind credential_row_scope
    credential_row_source_plugin_id credential_row_algorithm_version credential_row_key_version
    credential_row_nonce credential_row_status credential_row_expires_at
    credential_row_status_checked_at credential_row_created_at credential_row_updated_at].
  destruct (_ <=? i64_max) eqn:E; bool_prop; [|lia]. cbn [mbind result_bind]. rewrite Hct.
  unfold id_text, CredentialId_parse. rewrite uuid_roundtrip by apply Hid.
  cbn [negb ok_or mbind result_bind invalid map_err].
  unfold CredentialId_from_uuid. destruct (_ =? 0) eqn:E0; bool_prop; [by destruct Hid|].
  cbn [mbind result_bind invalid map_err]. rewrite kind_roundtrip, Hscope. cbn [mbind result_bind invalid map_err].
  rewrite source_roundtrip by done. unfold positive_at.
  replace (0 <? record_algorithm_version r) with true by (symmetry; by apply Z.ltb_lt).
  replace (record_algorithm_version r <? 2 ^ 16) with true by (symmetry; apply Z.ltb_lt; lia).
  replace (0 <? record_key_version r) with true by (symmetry; by apply Z.ltb_lt).
  replace (record_key_version r <? 2 ^ 32) with true by (symmetry; apply Z.ltb_lt; lia).
  cbn [andb mbind result_bind]. rewrite Hn, Z.eqb_refl. cbn [mbind result_bind].
  rewrite status_roundtrip, !time_option_roundtrip by done. cbn [mbind result_bind].
  unfold i64_to_u64. destruct (0 <? record_revision r) eqn:E1; bool_prop; [|lia].
  unfold store_parse_timestamp. rewrite !rfc3339_roundtrip by done. cbn [ok_or mbind result_bind].
  f_equal. destruct r as [[]]; done.
Qed.

Lemma decode_origins_of (origins : list CredentialTargetOrigin) :
  Forall (λ o, CredentialTargetOrigin_parse (CredentialTargetOrigin_as_str o) = Ok o) origins →
  decode_origins (CredentialTargetOrigin_as_str <$> origins) = Ok origins.
Proof.
  unfold decode_origins. induction 1 as [|o l Ho Hl IH]; [done|].
  rewrite fmap_cons. cbn [mapM]. rewrite Ho. cbn [invalid map_err mbind result_bind]. by rewrite IH.
Qed.

Lemma with_target_origins_id r : with_target_origins (with_target_origins r []) (record_target_origins r) = r.
Proof. by destruct r. Qed.

(** Reading a stored record: it comes back as it is, or the database failed. *)
Lemma load_credential_cases s r res s' :
  credential_at (store_db s) r → load_credential (id_text (record_id r), row_of r) s = (res, s') →
  store_db s' = store_db s ∧
  (res = Ok r ∧ record_revision r ≤ i64_max ∨ res = Err Database).
Proof.
  intros (Hrow & Horigins & Hr) Hl. unfold load_credential in Hl. cbn [fst snd] in Hl.
  destruct (decide (record_revision r ≤ i64_max)) as [Hmax|Hmax].
  - rewrite decode_row_of in Hl by done. unfold pure, mbind, act_bind at 1 in Hl.
    unfold load_credential_origins in Hl. cbn [record_id with_target_origins] in Hl.
    unfold mbind, act_bind in Hl.
    destruct (select _ s) as [[rows|e] s1] eqn:Es.
    + apply select_Ok in Es as [-> Hs]. rewrite Horigins, decode_origins_of in Hl by apply Hr.
      unfold pure in Hl. injection Hl as <- <-. split; [done|]. left. split; [|done].
      by rewrite <- (with_target_origins_id r) at 3.
    + apply select_Err in Es as [Hs ->]. injection Hl as <- <-. split; [done|]. by right.
  - unfold decode_credential, try_get_i64 in Hl. cbn [credential_row_record_revision row_of credential_row] in Hl.
    destruct (_ <=? i64_max) eqn:E; bool_prop; [lia|]. injection Hl as <- <-. split; [done|]. by right.
Qed.

Lemma load_credential_quiet db r :
  credential_at db r → record_revision r ≤ i64_max →
  load_credential (id_text (record_id r), row_of r) (quiet db) = (Ok r, quiet db).
Proof.
  intros (Hrow & Horigins & Hr) Hmax. unfold load_credential, load_credential_origins, mbind, act_bind.
  cbn [fst snd]. rewrite decode_row_of by done. unfold pure.
  rewrite select_quiet. cbn [record_id with_target_origins].
  rewrite Horigins, decode_origins_of by apply Hr. by rewrite <- (with_target_origins_id r) at 3.
Qed.

Lemma reads_only_get id : reads_only (get id).
Proof. unfold get, load_credential, load_credential_origins. preserves. Qed.
Lemma reads_only_get_by_scope scope : reads_only (get_by_scope scope).
Proof. unfold get_by_scope, load_credential, load_credential_origins. preserves. Qed.
Lemma reads_only_list : reads_only list_credentials.
Proof. unfold list_credentials, load_credential, load_credential_origins. preserves. Qed.

(** [get] answers with the stored record, or fails with a database error. *)
Lemma get_cases id s res s' :
  credentials_ok (store_db s) → uuid_value (CredentialId_as_uuid id) → get id s = (res, s') →
  store_db s' = store_db s ∧
  match res with
  | Ok (Some r) => record_id r = id ∧ credential_at (store_db s) r ∧ record_revision r ≤ i64_max
  | Ok None => db_credentials (store_db s) !! id_text id = None
  | Err e => e = Database
  end.
Proof.
  intros Hok Hid Hg. split; [by eapply reads_only_get|].
  assert (∀ s1 s2 a, store_db s1 = store_db s →
    (row ← select (λ db, db_credentials db !! id_text id);
     match row with
     | Some row => record ← load_credential (id_text id, row); mret (Some record)
     | None => mret None
     end) s1 = (a, s2) →
    match a with
    | Ok (Some r) => record_id r = id ∧ credential_at (store_db s) r ∧ record_revision r ≤ i64_max
    | Ok None => db_credentials (store_db s) !! id_text id = None
    | Err e => e = Database
    end) as Hbody.
  { intros s1 s2 a Hs1 Hb. unfold mbind, act_bind in Hb.
    destruct (select _ s1) as [[row|e] s3] eqn:Es; [|by apply select_Err in Es as [_ ->]; injection Hb as <- _].
    apply select_Ok in Es as [-> Hs3]. rewrite Hs1 in Hb, Hs3.
    destruct (db_credentials (store_db s) !! id_text id) as [row|] eqn:Er; [|by injection Hb as <- _].
    destruct (Hok _ _ Er) as (r & Ht & Hr). pose proof Hr as (Hrow & _ & Hst).
    rewrite <- Ht, Er in Hrow. injection Hrow as ->.
    apply id_text_inj in Ht; [subst id|done|apply Hst].
    destruct (load_credential _ s3) as [lr s4] eqn:El.
    apply load_credential_cases in El as [_ [[-> ?]| ->]]; [| |by rewrite Hs3]; injection Hb as <- _; done. }
  unfold get in Hg. destruct res as [o|e].
  - apply transaction_Ok in Hg as (s1 & s2 & Hs1 & Hb & _). by apply (Hbody s1 s2 (Ok o)).
  - apply transaction_Err in Hg as [_ [->|(s1 & s2 & Hs1 & Hb)]]; [done|].
    by apply (Hbody s1 s2 (Err e)).
Qed.

Lemma get_quiet db r :
  credential_at db r → record_revision r ≤ i64_max →
  get (record_id r) (quiet db) = (Ok (Some r), quiet db).
Proof.
  intros Hr Hmax. unfold get. rewrite (transaction_quiet _ _ (Ok (Some r)) db); [done|].
  unfold mbind, act_bind. rewrite select_quiet. destruct Hr as (Hrow & Hr'). rewrite Hrow.
  by rewrite load_credential_quiet.
Qed.

Lemma get_quiet_none db id :
  db_credentials db !! id_text id = None → get id (quiet db) = (Ok None, quiet db).
Proof.
  intros Hn. unfold get. rewrite (transaction_quiet _ _ (Ok None) db); [done|].
  unfold mbind, act_bind. by rewrite select_quiet, Hn.
Qed.

(** A row whose expiry lies beyond the years of four digits: no read of it
    succeeds. *)
Lemma late_expiry_unreadable id record revision created t s found s' :
  db_credentials (store_db s) !! id_text id = Some (credential_row record revision created) →
  record_expires_at record = Some t → get id s = (Ok found, s') → rfc3339_time t.
Proof.
  intros Hrow Ht Hg. unfold get in Hg. apply transaction_Ok in Hg as (s1 & s2 & Hs & Hg & _).
  apply act_bind_Ok in Hg as (row & s3 & [-> _]%select_Ok & Hg). rewrite Hs, Hrow in Hg.
  apply act_bind_Ok in Hg as (r & s4 & Hl & _). unfold load_credential in Hl.
  apply act_bind_Ok in Hl as (d & s5 & [Hd _]%pure_Ok & _). cbn [fst snd] in Hd.
  unfold decode_credential in Hd. cbn [credential_row_expires_at credential_row] in Hd.
  rewrite Ht in Hd. simplify_result. unfold store_parse_timestamp in *. simplify_result.
  apply rfc3339_years. by eexists.
Qed.

(** ** Writing a record *)

(** The record with the revision, creation time and origins it is stored with. *)
Definition restamp (r : CredentialRecord) (revision : Z) (created_at : time)
    (origins : list CredentialTargetOrigin) : CredentialRecord :=
  mkCredentialRecord (record_id r) (record_kind r) (record_platform_id r) (record_scope r)
    (record_source_plugin_id r) (record_algorithm_version r) (record_key_version r)
    (record_nonce r) (record_ciphertext r) origins (record_status r) (record_account_id_hint r)
    (record_display_name r) (record_safe_error_summary r) (record_expires_at r)
    (record_status_checked_at r) revision created_at (record_updated_at r).

(** What a successful write leaves in the tables. *)
Definition write_credential (r : CredentialRecord) (db : Db) : Db :=
  add_origins (id_text (record_id r)) (CredentialTargetOrigin_as_str <$> record_target_origins r)
    (set_target_origins (filter (λ p, p.1 ≠ id_text (record_id r)))
       (set_credentials <[id_text (record_id r) := row_of r]> db)).

Lemma write_credential_creds r db :
  db_credentials (write_credential r db) = <[id_text (record_id r) := row_of r]> (db_credentials db).
Proof. done. Qed.

Lemma credential_at_write r db : record_stored r → credential_at (write_credential r db) r.
Proof.
  intros Hr. split_and!; [by rewrite write_credential_creds, lookup_insert_eq| |done].
  unfold write_credential. apply sql_target_origins_added, Hr.
Qed.

Lemma sql_target_origins_write_other r db t :
  t ≠ id_text (record_id r) →
  sql_target_origins t (write_credential r db) = sql_target_origins t db.
Proof. intros Hne. unfold write_credential. by rewrite sql_target_origins_other. Qed.

Lemma credential_at_write_other r r0 db :
  id_text (record_id r0) ≠ id_text (record_id r) →
  credential_at (write_credential r db) r0 ↔ credential_at db r0.
Proof.
  intros Hne. unfold credential_at.
  by rewrite write_credential_creds, lookup_insert_ne, sql_target_origins_write_other.
Qed.

Lemma credentials_ok_write r db :
  credentials_ok db → record_stored r → credentials_ok (write_credential r db).
Proof.
  intros Hok Hr t row. rewrite write_credential_creds.
  intros [[<- <-]|[Hne Hrow]]%lookup_insert_Some.
  - exists r. split; [done|]. by apply credential_at_write.
  - destruct (Hok _ _ Hrow) as (r0 & -> & Hr0). exists r0. split; [done|].
    by apply credential_at_write_other.
Qed.

Lemma put_credential_Ok id row db db' :
  put_credential id row db = Ok db' ↔
  credential_checks row = true ∧
  (∀ k r, db_credentials db !! k = Some r → k ≠ id → credential_row_scope r ≠ credential_row_scope row) ∧
  source_exists row db = true ∧ db' = set_credentials <[id := row]> db.
Proof.
  unfold put_credential. destruct (credential_checks row); [simpl|naive_solver].
  destruct (other_row _ _ _) eqn:Eo.
  { apply other_row_true in Eo as (k & r & Hk & Hne & He). bool_prop. naive_solver. }
  rewrite other_row_false in Eo. destruct (source_exists row db); [simpl|naive_solver].
  split; [|naive_solver]. intros [= <-]. split_and!; try done. intros k r Hk Hne He.
  specialize (Eo k r Hk Hne). simpl in Eo. bool_prop. done.
Qed.

Lemma validate_credential_record_Ok r :
  validate_credential_record r = Ok tt →
  record_algorithm_version r ≠ 0 ∧ record_key_version r ≠ 0 ∧ record_revision r ≠ 0 ∧
  ciphertext_length_ok (record_ciphertext r) = true ∧
  record_created_at r ≤ record_updated_at r ∧
  ∃ rest, split_once "."%char (CredentialScope_as_str (record_scope r)) =
          Some (record_platform_id r, rest).
Proof.
  unfold validate_credential_record. intros H. simplify_result. bool_prop. split_and!; try done.
  unfold is_none_or in *. destruct (split_once _ _) as [[a rest]|]; [|done]. simpl in *.
  bool_prop. subst. eauto.
Qed.

Lemma validate_credential_record_Err r e : validate_credential_record r = Err e → e = InvalidData.
Proof.
  unfold validate_credential_record, store_validate_platform_id, validate_safe_metadata.
  repeat case_match; simpl; by intros [= <-].
Qed.

Lemma normalize_origins_Err origins e : normalize_origins origins = Err e → e = InvalidData.
Proof. unfold normalize_origins. repeat case_match; by intros [= <-]. Qed.

Lemma restamp_stored r revision created_at origins :
  record_typed r → validate_credential_record r = Ok tt →
  normalize_origins (record_target_origins r) = Ok origins →
  1 ≤ revision ≤ i64_max → rfc3339_time created_at →
  record_stored (restamp r revision created_at origins).
Proof.
  intros [Hid Hscope Hsource Ha Hk Hn Ho (Hc & Hu & He & Hs) Hr] Hv [Hp Hnorm]%stored_origins_Ok
    Hrev Hcr. apply validate_credential_record_Ok in Hv as (Ha' & Hk' & _ & Hct & _).
  unfold i64_max in Hrev. split; simpl; try done; try lia. split; simpl; try done; [|lia].
  by rewrite Hp.
Qed.

Lemma validate_source_plugin_reads record s r s' :
  validate_source_plugin record s = (r, s') → store_db s' = store_db s.
Proof.
  assert (reads_only (validate_source_plugin record)) as H; [|apply H].
  unfold validate_source_plugin. preserves.
Qed.

Lemma validate_source_plugin_cases record s res s' :
  validate_source_plugin record s = (res, s') →
  store_db s' = store_db s ∧
  match res with
  | Ok _ => ∀ p, record_source_plugin_id record = Some p →
      ∃ row, db_plugins (store_db s) !! PluginId_as_str p = Some row ∧
        plugin_row_plugin_type row = "credential" ∧
        plugin_row_platform_id row = record_platform_id record
  | Err e => e = Database ∨ ∃ p, record_source_plugin_id record = Some p ∧
      match db_plugins (store_db s) !! PluginId_as_str p with
      | None => e = StorageNotFound
      | Some row => e = InvalidData ∧ (plugin_row_plugin_type row ≠ "credential" ∨
          plugin_row_platform_id row ≠ record_platform_id record)
      end
  end.
Proof.
  intros Hv. split; [by eapply validate_source_plugin_reads|]. unfold validate_source_plugin in Hv.
  destruct (record_source_plugin_id record) as [p|]; [|by injection Hv as <- _].
  unfold mbind, act_bind, pure in Hv.
  destruct (select _ s) as [[row|e] s1] eqn:Es;
    [|apply select_Err in Es as [_ ->]; injection Hv as <- _; by left].
  apply select_Ok in Es as [-> _]. destruct (db_plugins (store_db s) !! _) as [row|] eqn:Er; simpl in Hv.
  - destruct (_ || _) eqn:Eb; injection Hv as <- _.
    + right. exists p. rewrite Er. split; [done|]. split; [done|].
      apply orb_true_iff in Eb as [?|?]; bool_prop; [by left|by right].
    + bool_prop. naive_solver.
  - injection Hv as <- _. right. exists p. by rewrite Er.
Qed.
End facts.
