(* ===== verification/CredentialStoreProps.v ===== *)
(** * What the credential repository guarantees

    Stored credentials read back as written, updates are compare-and-swap on
    the revision, and an active grant always lies inside what the credential and
    the plugin's current manifest allow. *)

From S2P Require Import Prelude Stateful Text Domain Foreign CredentialContract Database.
From S2P Require Import Database CredentialStore CredentialStoreFacts.

Section operations.
Context {U : UrlLib} {B : Encoding} {K : Codec} `{!CodecLaws K}.

(** ** Writes *)

Lemma insert_credential_Ok record s s' :
  insert_credential record s = (Ok tt, s') →
  record_revision record ≤ i64_max ∧
  let t := id_text (record_id record) in
  db_credentials (store_db s) !! t = None ∧
  put_credential t (row_of record) (store_db s) = Ok (store_db s').
Proof.
  unfold insert_credential. intros H. act_steps. unfold u64_to_i64 in *. simplify_result. bool_prop.
  split; [done|].
  match goal with Hs : statement _ _ = _ |- _ => apply statement_Ok in Hs; rename Hs into Hins end.
  unfold sql_insert_credential in Hins. simplify_result. cbv zeta.
  destruct (db_credentials (store_db s) !! _); [done|]. done.
Qed.

Lemma write_restamp record revision created_at origins db :
  add_origins (id_text (record_id record)) (CredentialTargetOrigin_as_str <$> origins)
    (set_target_origins (filter (λ p, p.1 ≠ id_text (record_id record)))
       (set_credentials <[id_text (record_id record) :=
          credential_row record revision (to_rfc3339 created_at)]> db)) =
  write_credential (restamp record revision created_at origins) db.
Proof. done. Qed.

Lemma insert_Ok record s s' :
  record_typed record → insert record s = (Ok tt, s') →
  ∃ origins,
    normalize_origins (record_target_origins record) = Ok origins ∧ record_revision record = 1 ∧
    db_credentials (store_db s) !! id_text (record_id record) = None ∧
    (∀ k row, db_credentials (store_db s) !! k = Some row →
       credential_row_scope row ≠ CredentialScope_as_str (record_scope record)) ∧
    let r := restamp record 1 (record_created_at record) origins in
    record_stored r ∧ store_db s' = write_credential r (store_db s).
Proof.
  intros Ht Hi. unfold insert in Hi. act_steps. bool_prop.
  match goal with Hx : transaction _ _ = _ |- _ => apply transaction_Ok in Hx as (s1 & s2 & Hs1 & Hb & ->) end.
  act_steps. match goal with Hv : validate_source_plugin _ _ = _ |- _ =>
    apply validate_source_plugin_reads in Hv as Hs3; clear Hv end.
  match goal with Hx : insert_credential _ _ = (Ok ?u, _) |- _ => destruct u;
    apply insert_credential_Ok in Hx as (_ & Hnone & Hput) end.
  rewrite Hs3, Hs1 in *. apply put_credential_Ok in Hput as (_ & Hscope & _ & Hput).
  apply replace_credential_origins_Ok in Hb. rewrite Hb, Hput.
  eexists. split; [done|]. split_and!; [done|done| | |].
  - intros k row Hk. apply (Hscope k row Hk). congruence.
  - apply restamp_stored; [done|done|done|unfold i64_max; lia|by destruct (typed_times _ Ht)].
  - rewrite <- write_restamp. unfold row_of. by rewrite Hguard.
Qed.

(** The compare-and-swap statement: it writes exactly when the revision is
    the expected one. *)
Lemma update_credential_row_cases record next s res s' :
  credentials_ok (store_db s) → record_typed record →
  update_credential_row record next s = (res, s') →
  match res with
  | Ok true => record_revision record ≤ i64_max ∧ next ≤ i64_max ∧
      ∃ old, credential_at (store_db s) old ∧ record_id old = record_id record ∧
        record_revision old = record_revision record ∧
        store_db s' = set_credentials <[id_text (record_id record) :=
          credential_row record next (to_rfc3339 (record_created_at old))]> (store_db s)
  | Ok false => store_db s' = store_db s ∧
      ∀ row, db_credentials (store_db s) !! id_text (record_id record) = Some row →
        credential_row_record_revision row ≠ record_revision record
  | Err e => store_db s' = store_db s ∧
      (e = Database ∨
       e = InvalidData ∧ (i64_max < next ∨ i64_max < record_revision record) ∨
       e = StorageConflict ∧ ∃ k row, db_credentials (store_db s) !! k = Some row ∧
         k ≠ id_text (record_id record) ∧
         credential_row_scope row = CredentialScope_as_str (record_scope record))
  end.
Proof.
  intros Hok Ht. unfold update_credential_row, mbind, act_bind, pure, u64_to_i64.
  destruct (next <=? i64_max) eqn:E1; bool_prop;
    [|intros [= <- <-]; split; [done|]; right; left; split; [done|]; by left].
  destruct (record_revision record <=? i64_max) eqn:E2; bool_prop;
    [|intros [= <- <-]; split; [done|]; right; left; split; [done|]; by right].
  destruct (map_errors _ _ s) as [[n|e] s1] eqn:Es; intros [= <- <-].
  - apply map_errors_Ok, statement_Ok in Es. unfold sql_update_credential in Es.
    destruct (db_credentials (store_db s) !! _) as [row|] eqn:Er;
      [|injection Es as <- ->; split; [done|]; by intros row [=]].
    destruct (_ =? _) eqn:Ev; bool_prop; simplify_result; [|split; [done|]; naive_solver].
    split; [done|]. split; [done|].
    destruct (Hok _ _ Er) as (old & Hid & Hold). pose proof Hold as (Hrow & _ & Hst).
    rewrite <- Hid, Er in Hrow. injection Hrow as ->. exists old.
    apply put_credential_Ok in H as (_ & _ & _ & ->). split_and!; try done.
    symmetry. apply id_text_inj in Hid; [done|apply Ht|apply Hst].
  - apply write_sql_Err in Es as [Hs [->|[-> Hu]]]; (split; [done|]); [by left|].
    right; right. split; [done|]. unfold sql_update_credential in Hu.
    destruct (db_credentials (store_db s) !! _) as [row|] eqn:Er; [|done].
    destruct (_ =? _); [|done]. unfold put_credential in Hu.
    destruct (credential_checks _); [|done]. destruct (other_row _ _ _) eqn:Eo;
      [|by destruct (source_exists _ _)].
    apply other_row_true in Eo as (k & r & Hk & Hne & Heq). bool_prop. eauto.
Qed.

(** The record a successful update leaves, against the one it replaced. *)
Definition replaces (db : Db) (old record : CredentialRecord) (db' : Db) : Prop :=
  credential_at db old ∧ record_id old = record_id record ∧
  record_revision old = record_revision record ∧
  ∃ origins, origins ≡ₚ record_target_origins record ∧
    let r := restamp record (record_revision record + 1) (record_created_at old) origins in
    record_stored r ∧ db' = write_credential r db.

Lemma update_then_origins record origins s s1 s2 :
  record_typed record → validate_credential_record record = Ok tt →
  normalize_origins (record_target_origins record) = Ok origins →
  credentials_ok (store_db s) →
  update_credential_row record (record_revision record + 1) s = (Ok true, s1) →
  replace_credential_origins (record_id record) origins s1 = (Ok tt, s2) →
  ∃ old, replaces (store_db s) old record (store_db s2).
Proof.
  intros Ht Hv Hn Hok (_ & Hnext & old & Hold & Hid & Hrev & Hs1)%update_credential_row_cases Ho;
    [|done..].
  exists old. split_and!; [done..|]. exists origins.
  split; [by apply stored_origins_Ok in Hn as [? _]|]. split.
  - apply restamp_stored; try done.
    + apply validate_credential_record_Ok in Hv as (_ & _ & ? & _).
      pose proof (typed_revision _ Ht). lia.
    + destruct Hold as (_ & _ & Hst). by destruct (typed_times _ (rs_typed _ Hst)).
  - by rewrite (replace_credential_origins_Ok _ _ _ _ Ho), Hs1, write_restamp.
Qed.

Lemma insert_then_origins record origins s s1 s2 :
  record_typed record → validate_credential_record record = Ok tt →
  normalize_origins (record_target_origins record) = Ok origins → record_revision record = 1 →
  insert_credential record s = (Ok tt, s1) →
  replace_credential_origins (record_id record) origins s1 = (Ok tt, s2) →
  let r := restamp record 1 (record_created_at record) origins in
  db_credentials (store_db s) !! id_text (record_id record) = None ∧
  record_stored r ∧ store_db s2 = write_credential r (store_db s).
Proof.
  intros Ht Hv Hn Hrev (_ & Hnone & Hput)%insert_credential_Ok Ho%replace_credential_origins_Ok r.
  apply put_credential_Ok in Hput as (_ & _ & _ & Hput). split; [done|]. split.
  - apply restamp_stored; [done|done|done|unfold i64_max; lia|by destruct (typed_times _ Ht)].
  - rewrite Ho, Hput. unfold row_of. by rewrite Hrev.
Qed.

Lemma next_revision_Ok revision next :
  next_revision revision = Ok next → next = revision + 1.
Proof. unfold next_revision. intros H. by simplify_result. Qed.

Lemma update_body_cases record origins s res s' :
  record_typed record → validate_credential_record record = Ok tt →
  normalize_origins (record_target_origins record) = Ok origins →
  credentials_ok (store_db s) →
  (validate_source_plugin record;;
   updated ← update_credential_row record (record_revision record + 1);
   if updated : bool then
     replace_credential_origins (record_id record) origins;; mret (record_revision record + 1)
   else
     exists_ ← credential_exists (record_id record);
     if exists_ : bool then throw StorageConflict else throw StorageNotFound) s = (res, s') →
  match res with
  | Ok n => n = record_revision record + 1 ∧
      ∃ old, replaces (store_db s) old record (store_db s')
  | Err StorageConflict =>
      ∃ k row, db_credentials (store_db s) !! k = Some row ∧
        if decide (k = id_text (record_id record))
        then credential_row_record_revision row ≠ record_revision record
        else credential_row_scope row = CredentialScope_as_str (record_scope record)
  | Err StorageNotFound =>
      db_credentials (store_db s) !! id_text (record_id record) = None ∨
      ∃ p, record_source_plugin_id record = Some p ∧
        db_plugins (store_db s) !! PluginId_as_str p = None
  | Err _ => True
  end.
Proof.
  intros Ht Hv Hn Hok. unfold mbind, act_bind at 1.
  destruct (validate_source_plugin record s) as [[[]|e] s1] eqn:Es;
    apply validate_source_plugin_cases in Es as [Hs1 Hsrc].
  2: { intros [= <- <-]. destruct Hsrc as [->|(p & Hp & Hsrc)]; [done|].
       destruct (db_plugins (store_db s) !! PluginId_as_str p) eqn:Ep; [by destruct Hsrc as [-> _]|].
       subst. eauto. }
  unfold mbind, act_bind at 1.
  destruct (update_credential_row record _ s1) as [[[]|e] s2] eqn:Eu; intros H.
  - destruct res as [n|e]; [|destruct e; try done; exfalso].
    + apply act_bind_Ok in H as ([] & s3 & Hr & [= <- <-]). rewrite <- Hs1. split; [done|].
      eapply update_then_origins; rewrite ?Hs1; done.
    + apply act_bind_Err in H as [Hr%replace_credential_origins_Err|(? & ? & _ & ?)]; [done| |done].
      by eapply normalize_origins_NoDup.
    + apply act_bind_Err in H as [Hr%replace_credential_origins_Err|(? & ? & _ & ?)]; [done| |done].
      by eapply normalize_origins_NoDup.
  - apply update_credential_row_cases in Eu as [Hs2 Hne]; [|by rewrite Hs1|done]. rewrite Hs1 in *.
    unfold mbind, act_bind, credential_exists in H.
    destruct (select _ s2) as [[ex|e] s3] eqn:Ex;
      [|apply select_Err in Ex as [_ ->]; by injection H as <- <-].
    apply select_Ok in Ex as [-> _]. rewrite Hs2 in H.
    destruct (db_credentials (store_db s) !! _) as [row|] eqn:Er; injection H as <- <-; [|by left].
    exists (id_text (record_id record)), row. split; [done|]. rewrite decide_True by done.
    by apply Hne.
  - apply update_credential_row_cases in Eu as [Hs2 He]; [|by rewrite Hs1|done]. rewrite Hs1 in *.
    injection H as <- <-. destruct He as [->|[[-> _]|[-> (k & row & Hk & Hne & Hsc)]]]; [done..|].
    exists k, row. split; [done|]. by rewrite decide_False.
Qed.

Lemma update_cases record s res s' :
  credentials_ok (store_db s) → record_typed record → update record s = (res, s') →
  match res with
  | Ok n => n = record_revision record + 1 ∧
      ∃ old, replaces (store_db s) old record (store_db s')
  | Err e => store_db s' = store_db s ∧
      match e with
      | StorageConflict =>
          ∃ k row, db_credentials (store_db s) !! k = Some row ∧
            if decide (k = id_text (record_id record))
            then credential_row_record_revision row ≠ record_revision record
            else credential_row_scope row = CredentialScope_as_str (record_scope record)
      | StorageNotFound =>
          db_credentials (store_db s) !! id_text (record_id record) = None ∨
          ∃ p, record_source_plugin_id record = Some p ∧
            db_plugins (store_db s) !! PluginId_as_str p = None
      | _ => True
      end
  end.
Proof.
  intros Hok Ht. unfold update, mbind, act_bind at 1 2 3, pure.
  destruct (validate_credential_record record) as [[]|e] eqn:Hv.
  2: { intros [= <- <-]. split; [done|]. by rewrite (validate_credential_record_Err _ _ Hv). }
  destruct (normalize_origins _) as [origins|e] eqn:Hn.
  2: { intros [= <- <-]. split; [done|]. by rewrite (normalize_origins_Err _ _ Hn). }
  destruct (next_revision _) as [next|e] eqn:Hx.
  2: { intros [= <- <-]. split; [done|]. unfold next_revision in Hx.
       destruct (_ <=? _); [done|]. by injection Hx as <-. }
  apply next_revision_Ok in Hx as ->. intros Hu. destruct res as [n|e].
  - apply transaction_Ok in Hu as (s1 & s2 & Hs1 & Hb & ->).
    apply (update_body_cases record origins) in Hb; rewrite ?Hs1; [|done..]. by rewrite <- Hs1.
  - apply transaction_Err in Hu as [Hs [->|(s1 & s2 & Hs1 & Hb)]]; (split; [done|]); [done|].
    apply (update_body_cases record origins) in Hb; rewrite ?Hs1; [|done..]. by rewrite <- Hs1.
Qed.

(** *** Upserts *)

Lemma upsert_cases record s res s' :
  credentials_ok (store_db s) → record_typed record → upsert record s = (res, s') →
  match res with
  | Ok n =>
      (n = record_revision record + 1 ∧ ∃ old, replaces (store_db s) old record (store_db s')) ∨
      (n = 1 ∧ record_revision record = 1 ∧
       db_credentials (store_db s) !! id_text (record_id record) = None ∧
       ∃ origins, origins ≡ₚ record_target_origins record ∧
         let r := restamp record 1 (record_created_at record) origins in
         record_stored r ∧ store_db s' = write_credential r (store_db s))
  | Err _ => store_db s' = store_db s
  end.
Proof.
  intros Hok Ht Hu. unfold upsert in Hu. destruct res as [n|e].
  2: { apply act_bind_Err in Hu as [[= ? ->]|([] & s1 & [Hv ->]%pure_Ok & Hu)]; [done|].
       apply act_bind_Err in Hu as [[= ? ->]|(origins & s1 & [Hn ->]%pure_Ok & Hu)]; [done|].
       apply act_bind_Err in Hu as [[= ? ->]|(next & s1 & [Hx ->]%pure_Ok & Hu)]; [done|].
       by apply transaction_Err in Hu as [? _]. }
  apply act_bind_Ok in Hu as ([] & s1 & [Hv ->]%pure_Ok & Hu).
  apply act_bind_Ok in Hu as (origins & s1 & [Hn ->]%pure_Ok & Hu).
  apply act_bind_Ok in Hu as (next & s1 & [->%next_revision_Ok ->]%pure_Ok & Hu).
  apply transaction_Ok in Hu as (s1 & s2 & Hs1 & Hu & ->).
  apply act_bind_Ok in Hu as ([] & s3 & Hs3%validate_source_plugin_reads & Hu).
  rewrite Hs1 in Hs3. apply act_bind_Ok in Hu as ([] & s4 & Hs4 & Hu).
  - left. apply act_bind_Ok in Hu as ([] & s5 & Ho & [-> ->]%act_ret_Ok). split; [done|].
    rewrite <- Hs3. eapply update_then_origins; rewrite ?Hs3; done.
  - right. apply update_credential_row_cases in Hs4 as [Hs4 _]; rewrite ?Hs3; [|done..].
    apply act_bind_Ok in Hu as (ex & s5 & [_ Hs5]%select_Ok & Hu). destruct ex; [done|].
    destruct (_ =? 1) eqn:Erev; [|done]. bool_prop. cbn [negb] in Hu.
    apply act_bind_Ok in Hu as ([] & s6 & Hi & Hu).
    apply act_bind_Ok in Hu as ([] & s7 & Ho & [-> ->]%act_ret_Ok). split; [done|]. split; [done|].
    destruct (insert_then_origins _ _ _ _ _ Ht Hv Hn Erev Hi Ho) as (Hnone & Hst & ->).
    rewrite Hs5, Hs4, Hs3 in *. split; [done|]. exists origins.
    split; [by apply stored_origins_Ok in Hn as [? _]|done].
Qed.

(** *** Clearing the source, deleting *)

Definition cleared_record (r : CredentialRecord) (now : time) : CredentialRecord :=
  mkCredentialRecord (record_id r) (record_kind r) (record_platform_id r) (record_scope r) None
    (record_algorithm_version r) (record_key_version r) (record_nonce r) (record_ciphertext r)
    (record_target_origins r) (record_status r) (record_account_id_hint r)
    (record_display_name r) (record_safe_error_summary r) (record_expires_at r)
    (record_status_checked_at r) (sql_increment (record_revision r)) (record_created_at r) now.

Lemma cleared_record_stored r now :
  record_stored r → rfc3339_time now → record_stored (cleared_record r now).
Proof.
  intros [[Hid Hscope Hsource Ha Hk Hn Ho (Hc & Hu & He & Hs) Hr] Ha' Hk' Hct Hnorm Hrev] Hnow.
  assert (1 ≤ sql_increment (record_revision r) ≤ 2 ^ 63) as Hinc.
  { unfold sql_increment, i64_max. destruct (_ <? _) eqn:E; bool_prop; lia. }
  split; simpl; try done. split; simpl; try done; lia.
Qed.

Lemma clear_source_plugin_cases now id s res s' :
  credentials_ok (store_db s) → uuid_value (CredentialId_as_uuid id) →
  clear_source_plugin now id s = (res, s') →
  match res with
  | Ok _ => ∃ old, credential_at (store_db s) old ∧ record_id old = id ∧
      store_db s' = set_credentials <[id_text id := row_of (cleared_record old now)]> (store_db s)
  | Err e => store_db s' = store_db s ∧
      (e = Database ∨ e = StorageNotFound ∧ db_credentials (store_db s) !! id_text id = None)
  end.
Proof.
  intros Hok Hid. unfold clear_source_plugin, mbind, act_bind, pure.
  destruct (execute_sql _ s) as [[n|e] s1] eqn:Es; intros [= <- <-].
  2: { apply execute_sql_Err in Es as [? ->]. by split; [|left]. }
  apply execute_sql_Ok in Es. unfold sql_clear_source in Es.
  destruct (db_credentials (store_db s) !! _) as [row|] eqn:Er; simplify_result.
  - destruct (Hok _ _ Er) as (old & Ht & Hold). pose proof Hold as (Hrow & _ & Hst).
    rewrite <- Ht, Er in Hrow. injection Hrow as ->. exists old. split; [done|].
    apply id_text_inj in Ht; [|done|apply Hst]. split; [done|].
    by apply put_credential_Ok in H as (_ & _ & _ & ->).
  - simpl. split; [done|]. by right.
Qed.

Lemma delete_credential_cases id s res s' :
  delete_credential id s = (res, s') →
  match res with
  | Ok _ => is_Some (db_credentials (store_db s) !! id_text id) ∧
      sql_delete_credential (id_text id) (store_db s) = Ok (1, store_db s')
  | Err e => store_db s' = store_db s ∧
      (e = Database ∨ e = StorageNotFound ∧ db_credentials (store_db s) !! id_text id = None)
  end.
Proof.
  unfold delete_credential, mbind, act_bind, pure.
  destruct (execute_sql _ s) as [[n|e] s1] eqn:Es; intros [= <- <-].
  2: { apply execute_sql_Err in Es as [? ->]. by split; [|left]. }
  apply execute_sql_Ok in Es. unfold sql_delete_credential in *.
  destruct (db_credentials (store_db s) !! _) as [row|] eqn:Er; simplify_eq/=.
  - split; [by eexists|]. by f_equal; f_equal.
  - split; [done|]. by right.
Qed.

(** ** Properties *)

(** A credential that [insert] accepted is read back by [get] field for field,
    its origins sorted; its scope was not in use before, and every other
    credential is stored as before. *)
Theorem insert_get record s s' :
  record_typed record → insert record s = (Ok tt, s') →
  ∃ origins, origins ≡ₚ record_target_origins record ∧
    get (record_id record) (quiet (store_db s')) =
      (Ok (Some (with_target_origins record origins)), quiet (store_db s')) ∧
    (∀ t row, db_credentials (store_db s) !! t = Some row →
       credential_row_scope row ≠ CredentialScope_as_str (record_scope record)) ∧
    ∀ r, id_text (record_id r) ≠ id_text (record_id record) →
      credential_at (store_db s') r ↔ credential_at (store_db s) r.
Proof.
  intros Ht Hi. apply insert_Ok in Hi as (origins & Hn & Hrev & _ & Hscope & Hst & Hdb); [|done].
  exists origins. split; [by apply stored_origins_Ok in Hn as [? _]|].
  assert (restamp record 1 (record_created_at record) origins = with_target_origins record origins)
    as Heq by (unfold restamp, with_target_origins; by rewrite Hrev).
  rewrite Hdb, <- Heq. split_and!; [|done|].
  - apply (get_quiet _ (restamp record 1 (record_created_at record) origins)); [|done].
    by apply credential_at_write.
  - intros r Hne. by apply credential_at_write_other.
Qed.

(** [update] is compare-and-swap on the revision.  It succeeds only on the record
    the caller has read, at its revision, and then the record is the new one at
    the next revision with the old creation time; it fails with [Conflict] only
    when the stored revision is another one or the scope is taken, with
    [NotFound] only when the credential or its source plugin is gone; a failure
    changes nothing. *)
Theorem update_compare_and_swap record s res s' :
  credentials_ok (store_db s) → record_typed record → update record s = (res, s') →
  match res with
  | Ok n => n = record_revision record + 1 ∧
      ∃ old origins, credential_at (store_db s) old ∧ record_id old = record_id record ∧
        record_revision old = record_revision record ∧ origins ≡ₚ record_target_origins record ∧
        credential_at (store_db s') (restamp record n (record_created_at old) origins) ∧
        ∀ r, id_text (record_id r) ≠ id_text (record_id record) →
          credential_at (store_db s') r ↔ credential_at (store_db s) r
  | Err e => store_db s' = store_db s ∧
      match e with
      | StorageConflict =>
          ∃ k row, db_credentials (store_db s) !! k = Some row ∧
            if decide (k = id_text (record_id record))
            then credential_row_record_revision row ≠ record_revision record
            else credential_row_scope row = CredentialScope_as_str (record_scope record)
      | StorageNotFound =>
          db_credentials (store_db s) !! id_text (record_id record) = None ∨
          ∃ p, record_source_plugin_id record = Some p ∧
            db_plugins (store_db s) !! PluginId_as_str p = None
      | _ => True
      end
  end.
Proof.
  intros Hok Ht Hu. apply update_cases in Hu; [|done..]. destruct res as [n|e]; [|done].
  destruct Hu as (-> & old & Hold & Hid & Hrev & origins & Hp & Hst & ->). split; [done|].
  exists old, origins. split_and!; [done..|by apply credential_at_write|].
  intros r Hne. by apply credential_at_write_other.
Qed.
End operations.
