(* ===== verification/PluginStore.v ===== *)
(** * Plugins, routing, risk grants and logs in the database
    (crates/audiodown-storage/src/plugin_repository.rs,
    content_routing_repository.rs, risk_grant_repository.rs and
    log_repository.rs)

    The same conventions as [CredentialStore]: one definition per statement
    text, [InvalidData] without its message, the time as an argument where the
    code reads the clock. *)

From S2P Require Import Prelude Stateful Text Domain CredentialContract Database CredentialStore.

(** ** Plugins *)

Definition plugin_type_to_str (value : PluginType) : string :=
  match value with Content => "content" | Credential => "credential" end.
Definition plugin_type_from_str (value : string) : result StorageError PluginType :=
  if eqb value "content" then Ok Content
  else if eqb value "credential" then Ok Credential
  else Err InvalidData.

Definition plugin_status_to_str (value : PluginStatus) : string :=
  match value with
  | Installing => "installing"
  | Installed => "installed"
  | Starting => "starting"
  | Healthy => "healthy"
  | Stopped => "stopped"
  | Unhealthy => "unhealthy"
  | Disabled => "disabled"
  end.
Definition plugin_status_from_str (value : string) : result StorageError PluginStatus :=
  if eqb value "installing" then Ok Installing
  else if eqb value "installed" then Ok Installed
  else if eqb value "starting" then Ok Starting
  else if eqb value "healthy" then Ok Healthy
  else if eqb value "stopped" then Ok Stopped
  else if eqb value "unhealthy" then Ok Unhealthy
  else if eqb value "disabled" then Ok Disabled
  else Err InvalidData.

Definition run_mode_to_str (value : RunMode) : string :=
  match value with OnDemand => "on_demand" | Always => "always" end.
Definition run_mode_from_str (value : string) : result StorageError RunMode :=
  if eqb value "on_demand" then Ok OnDemand
  else if eqb value "always" then Ok Always
  else Err InvalidData.

Definition validate_priority (priority : Z) : result StorageError unit :=
  if negb (between 0 1000 priority) then Err InvalidData else Ok tt.

Section plugins.
Context {K : Codec}.

Record PluginRecord := mkPluginRecord {
  PluginRecord_plugin_id : PluginId;
  PluginRecord_plugin_type : PluginType;
  PluginRecord_platform_id : string;
  PluginRecord_name : string;
  PluginRecord_version : string;
  PluginRecord_protocol_version : string;
  PluginRecord_source_kind : string;
  PluginRecord_source_ref : string;
  PluginRecord_commit_sha : option string;
  PluginRecord_repository_id : option string;
  PluginRecord_manifest_json : Json;
  PluginRecord_manifest_hash : string;
  PluginRecord_source_hash : option string;
  PluginRecord_image_id : option string;
  PluginRecord_status : PluginStatus;
  PluginRecord_run_mode : RunMode;
  PluginRecord_priority : Z;
  PluginRecord_enabled : bool;
  PluginRecord_last_error : option string;
  PluginRecord_install_operation_id : option Uuid;
  PluginRecord_last_used_at : option time;
  PluginRecord_installed_at : time;
  PluginRecord_updated_at : time;
}.

Definition parse_optional_uuid (value : option string) : result StorageError (option Uuid) :=
  transpose_map (λ id, ok_or (uuid_parse_str id) InvalidData) value.

Definition decode_plugin (id : string) (row : PluginRow) : result StorageError PluginRecord :=
  plugin_id ← invalid (PluginId_parse id);
  plugin_type ← plugin_type_from_str (plugin_row_plugin_type row);
  status ← plugin_status_from_str (plugin_row_status row);
  run_mode ← run_mode_from_str (plugin_row_run_mode row);
  manifest_json ← ok_or (json_from_str (plugin_row_manifest_json row)) InvalidData;
  install_operation_id ← parse_optional_uuid (plugin_row_install_operation_id row);
  last_used_at ← transpose_map store_parse_timestamp (plugin_row_last_used_at row);
  installed_at ← store_parse_timestamp (plugin_row_installed_at row);
  updated_at ← store_parse_timestamp (plugin_row_updated_at row);
  Ok {|
    PluginRecord_plugin_id := plugin_id;
    PluginRecord_plugin_type := plugin_type;
    PluginRecord_platform_id := plugin_row_platform_id row;
    PluginRecord_name := plugin_row_name row;
    PluginRecord_version := plugin_row_version row;
    PluginRecord_protocol_version := plugin_row_protocol_version row;
    PluginRecord_source_kind := plugin_row_source_kind row;
    PluginRecord_source_ref := plugin_row_source_ref row;
    PluginRecord_commit_sha := plugin_row_commit_sha row;
    PluginRecord_repository_id := plugin_row_repository_id row;
    PluginRecord_manifest_json := manifest_json;
    PluginRecord_manifest_hash := plugin_row_manifest_hash row;
    PluginRecord_source_hash := plugin_row_source_hash row;
    PluginRecord_image_id := plugin_row_image_id row;
    PluginRecord_status := status;
    PluginRecord_run_mode := run_mode;
    PluginRecord_priority := plugin_row_priority row;
    PluginRecord_enabled := plugin_row_enabled row;
    PluginRecord_last_error := plugin_row_last_error row;
    PluginRecord_install_operation_id := install_operation_id;
    PluginRecord_last_used_at := last_used_at;
    PluginRecord_installed_at := installed_at;
    PluginRecord_updated_at := updated_at;
  |}.

(** The bound values of an INSERT; the routing columns take their defaults. *)
Definition plugin_row (record : PluginRecord) (manifest_json : string) : PluginRow := {|
  plugin_row_plugin_type := plugin_type_to_str (PluginRecord_plugin_type record);
  plugin_row_platform_id := PluginRecord_platform_id record;
  plugin_row_name := PluginRecord_name record;
  plugin_row_version := PluginRecord_version record;
  plugin_row_protocol_version := PluginRecord_protocol_version record;
  plugin_row_source_kind := PluginRecord_source_kind record;
  plugin_row_source_ref := PluginRecord_source_ref record;
  plugin_row_commit_sha := PluginRecord_commit_sha record;
  plugin_row_repository_id := PluginRecord_repository_id record;
  plugin_row_manifest_json := manifest_json;
  plugin_row_manifest_hash := PluginRecord_manifest_hash record;
  plugin_row_source_hash := PluginRecord_source_hash record;
  plugin_row_image_id := PluginRecord_image_id record;
  plugin_row_status := plugin_status_to_str (PluginRecord_status record);
  plugin_row_run_mode := run_mode_to_str (PluginRecord_run_mode record);
  plugin_row_priority := PluginRecord_priority record;
  plugin_row_enabled := PluginRecord_enabled record;
  plugin_row_last_error := PluginRecord_last_error record;
  plugin_row_install_operation_id := uuid_to_string <$> PluginRecord_install_operation_id record;
  plugin_row_last_used_at := to_rfc3339 <$> PluginRecord_last_used_at record;
  plugin_row_installed_at := to_rfc3339 (PluginRecord_installed_at record);
  plugin_row_updated_at := to_rfc3339 (PluginRecord_updated_at record);
  plugin_row_search_enabled := true;
  plugin_row_discover_enabled := true;
|}.

(** [ON CONFLICT(plugin_id) DO UPDATE SET ...]: the installation time and the
    routing columns stay. *)
Definition keep_unassigned (old new : PluginRow) : PluginRow := {|
  plugin_row_plugin_type := plugin_row_plugin_type new;
  plugin_row_platform_id := plugin_row_platform_id new;
  plugin_row_name := plugin_row_name new;
  plugin_row_version := plugin_row_version new;
  plugin_row_protocol_version := plugin_row_protocol_version new;
  plugin_row_source_kind := plugin_row_source_kind new;
  plugin_row_source_ref := plugin_row_source_ref new;
  plugin_row_commit_sha := plugin_row_commit_sha new;
  plugin_row_repository_id := plugin_row_repository_id new;
  plugin_row_manifest_json := plugin_row_manifest_json new;
  plugin_row_manifest_hash := plugin_row_manifest_hash new;
  plugin_row_source_hash := plugin_row_source_hash new;
  plugin_row_image_id := plugin_row_image_id new;
  plugin_row_status := plugin_row_status new;
  plugin_row_run_mode := plugin_row_run_mode new;
  plugin_row_priority := plugin_row_priority new;
  plugin_row_enabled := plugin_row_enabled new;
  plugin_row_last_error := plugin_row_last_error new;
  plugin_row_install_operation_id := plugin_row_install_operation_id new;
  plugin_row_last_used_at := plugin_row_last_used_at new;
  plugin_row_installed_at := plugin_row_installed_at old;
  plugin_row_updated_at := plugin_row_updated_at new;
  plugin_row_search_enabled := plugin_row_search_enabled old;
  plugin_row_discover_enabled := plugin_row_discover_enabled old;
|}.

Definition sql_upsert_plugin (id : string) (row : PluginRow) (db : Db) :
    result SqlError (unit * Db) :=
  let row := match db_plugins db !! id with
             | Some old => keep_unassigned old row
             | None => row
             end in
  Ok (tt, set_plugins <[id := row]> db).

Definition upsert_plugin (record : PluginRecord) : act Store StorageError unit :=
  pure (validate_priority (PluginRecord_priority record));;
  manifest_json ← pure (ok_or (json_to_string (PluginRecord_manifest_json record)) InvalidData);
  execute_sql (sql_upsert_plugin (PluginId_as_str (PluginRecord_plugin_id record))
                 (plugin_row record manifest_json)).

Definition sql_insert_plugin (id : string) (row : PluginRow) (db : Db) :
    result SqlError (unit * Db) :=
  if is_some (db_plugins db !! id) then Err UniqueViolation
  else Ok (tt, set_plugins <[id := row]> db).

Definition insert_installing (record : PluginRecord) : act Store StorageError unit :=
  pure (validate_priority (PluginRecord_priority record));;
  if negb (eqb (PluginRecord_status record) Installing)
     || is_none (PluginRecord_install_operation_id record)
  then throw InvalidData
  else
    manifest_json ← pure (ok_or (json_to_string (PluginRecord_manifest_json record)) InvalidData);
    execute_sql (sql_insert_plugin (PluginId_as_str (PluginRecord_plugin_id record))
                   (plugin_row record manifest_json)).

(** [UPDATE plugins SET ... WHERE plugin_id = ? AND ...] *)
Definition sql_update_plugin (id : string) (p : PluginRow → bool) (f : PluginRow → PluginRow)
    (db : Db) : result SqlError (Z * Db) :=
  match db_plugins db !! id with
  | Some row => if p row then Ok (1, set_plugins <[id := f row]> db) else Ok (0, db)
  | None => Ok (0, db)
  end.

(** The assignments of the UPDATE statements. *)
Record PluginAssignments := mkPluginAssignments {
  assign_repository_id : option (option string);
  assign_source_hash : option (option string);
  assign_image_id : option (option string);
  assign_status : option string;
  assign_run_mode : option string;
  assign_priority : option Z;
  assign_enabled : option bool;
  assign_install_operation_id : option (option string);
  assign_last_used_at : option (option string);
  assign_search_enabled : option bool;
  assign_discover_enabled : option bool;
}.
Definition no_assignments : PluginAssignments :=
  mkPluginAssignments None None None None None None None None None None None.

(** Every UPDATE also sets [updated_at]. *)
Definition assign (a : PluginAssignments) (updated_at : string) (row : PluginRow) : PluginRow := {|
  plugin_row_plugin_type := plugin_row_plugin_type row;
  plugin_row_platform_id := plugin_row_platform_id row;
  plugin_row_name := plugin_row_name row;
  plugin_row_version := plugin_row_version row;
  plugin_row_protocol_version := plugin_row_protocol_version row;
  plugin_row_source_kind := plugin_row_source_kind row;
  plugin_row_source_ref := plugin_row_source_ref row;
  plugin_row_commit_sha := plugin_row_commit_sha row;
  plugin_row_repository_id := default (plugin_row_repository_id row) (assign_repository_id a);
  plugin_row_manifest_json := plugin_row_manifest_json row;
  plugin_row_manifest_hash := plugin_row_manifest_hash row;
  plugin_row_source_hash := default (plugin_row_source_hash row) (assign_source_hash a);
  plugin_row_image_id := default (plugin_row_image_id row) (assign_image_id a);
  plugin_row_status := default (plugin_row_status row) (assign_status a);
  plugin_row_run_mode := default (plugin_row_run_mode row) (assign_run_mode a);
  plugin_row_priority := default (plugin_row_priority row) (assign_priority a);
  plugin_row_enabled := default (plugin_row_enabled row) (assign_enabled a);
  plugin_row_last_error := plugin_row_last_error row;
  plugin_row_install_operation_id :=
    default (plugin_row_install_operation_id row) (assign_install_operation_id a);
  plugin_row_last_used_at := default (plugin_row_last_used_at row) (assign_last_used_at a);
  plugin_row_installed_at := plugin_row_installed_at row;
  plugin_row_updated_at := updated_at;
  plugin_row_search_enabled := default (plugin_row_search_enabled row) (assign_search_enabled a);
  plugin_row_discover_enabled :=
    default (plugin_row_discover_enabled row) (assign_discover_enabled a);
|}.

Definition update_plugin (plugin_id : PluginId) (p : PluginRow → bool) (a : PluginAssignments)
    (now : time) : act Store StorageError Z :=
  execute_sql (sql_update_plugin (PluginId_as_str plugin_id) p (assign a (to_rfc3339 now))).

Definition set_install_result (now : time) (plugin_id : PluginId)
    (repository_id image_id source_hash : string) (operation_id : Uuid) (status : PluginStatus) :
    act Store StorageError unit :=
  rows_affected ← update_plugin plugin_id (λ _, true) {|
      assign_repository_id := Some (Some repository_id);
      assign_source_hash := Some (Some source_hash);
      assign_image_id := Some (Some image_id);
      assign_status := Some (plugin_status_to_str status);
      assign_run_mode := None; assign_priority := None; assign_enabled := None;
      assign_install_operation_id := Some (Some (uuid_to_string operation_id));
      assign_last_used_at := None; assign_search_enabled := None; assign_discover_enabled := None
    |} now;
  pure (ensure_one_row rows_affected).

Definition update_settings (now : time) (plugin_id : PluginId) (enabled : bool)
    (run_mode : RunMode) (priority : Z) : act Store StorageError unit :=
  pure (validate_priority priority);;
  rows_affected ← update_plugin plugin_id (λ _, true) {|
      assign_repository_id := None; assign_source_hash := None; assign_image_id := None;
      assign_status := None;
      assign_run_mode := Some (run_mode_to_str run_mode);
      assign_priority := Some priority;
      assign_enabled := Some enabled;
      assign_install_operation_id := None; assign_last_used_at := None;
      assign_search_enabled := None; assign_discover_enabled := None
    |} now;
  pure (ensure_one_row rows_affected).

Definition touch (now : time) (plugin_id : PluginId) (last_used_at : time) :
    act Store StorageError unit :=
  rows_affected ← update_plugin plugin_id (λ _, true) {|
      assign_repository_id := None; assign_source_hash := None; assign_image_id := None;
      assign_status := None; assign_run_mode := None; assign_priority := None;
      assign_enabled := None; assign_install_operation_id := None;
      assign_last_used_at := Some (Some (to_rfc3339 last_used_at));
      assign_search_enabled := None; assign_discover_enabled := None
    |} now;
  pure (ensure_one_row rows_affected).

Definition delete_plugin (plugin_id : PluginId) : act Store StorageError unit :=
  rows_affected ← execute_sql (sql_delete_plugin (λ _, true) (PluginId_as_str plugin_id));
  pure (ensure_one_row rows_affected).

(** [WHERE status = 'installing' AND install_operation_id IS NOT NULL ORDER BY
    plugin_id ASC] *)
Definition sql_pending_installs (db : Db) : list (string * PluginRow) :=
  sort_by (cmp_on fst String.compare)
    (List.filter (λ '(_, row), eqb (plugin_row_status row) "installing"
                               && is_some (plugin_row_install_operation_id row))
       (map_to_list (db_plugins db))).

Definition list_pending_install_operations : act Store StorageError (list PluginRecord) :=
  rows ← select sql_pending_installs;
  pure (mapM (λ entry, decode_plugin entry.1 entry.2) rows).

(** [install_operation_id = ?] *)
Definition has_operation (operation_id : Uuid) (row : PluginRow) : bool :=
  eqb (plugin_row_install_operation_id row) (Some (uuid_to_string operation_id)).

Definition complete_install (now : time) (plugin_id : PluginId) (operation_id : Uuid) :
    act Store StorageError unit :=
  rows_affected ← update_plugin plugin_id (has_operation operation_id) {|
      assign_repository_id := None; assign_source_hash := None; assign_image_id := None;
      assign_status := Some "installed";
      assign_run_mode := None; assign_priority := None; assign_enabled := None;
      assign_install_operation_id := Some None;
      assign_last_used_at := None; assign_search_enabled := None; assign_discover_enabled := None
    |} now;
  pure (ensure_one_row rows_affected).

Definition rollback_install (plugin_id : PluginId) (operation_id : Uuid) :
    act Store StorageError unit :=
  rows_affected ← execute_sql (sql_delete_plugin (has_operation operation_id)
                                 (PluginId_as_str plugin_id));
  pure (ensure_one_row rows_affected).

(** The affected rows are not looked at. *)
Definition set_status (now : time) (plugin_id : PluginId) (status : PluginStatus) :
    act Store StorageError unit :=
  update_plugin plugin_id (λ _, true) {|
      assign_repository_id := None; assign_source_hash := None; assign_image_id := None;
      assign_status := Some (plugin_status_to_str status);
      assign_run_mode := None; assign_priority := None; assign_enabled := None;
      assign_install_operation_id := None; assign_last_used_at := None;
      assign_search_enabled := None; assign_discover_enabled := None
    |} now;;
  mret tt.

Definition get_plugin (plugin_id : PluginId) : act Store StorageError (option PluginRecord) :=
  row ← select (λ db, db_plugins db !! PluginId_as_str plugin_id);
  pure (transpose_map (decode_plugin (PluginId_as_str plugin_id)) row).

(** [ORDER BY priority ASC, plugin_id ASC] *)
Definition sql_list_plugins (db : Db) : list (string * PluginRow) :=
  sort_by (cmp_then (cmp_on (plugin_row_priority ∘ snd) Z.compare) (cmp_on fst String.compare))
    (map_to_list (db_plugins db)).

Definition list_plugins : act Store StorageError (list PluginRecord) :=
  rows ← select sql_list_plugins;
  pure (mapM (λ entry, decode_plugin entry.1 entry.2) rows).

(** ** Content routing *)

Record ContentParticipation := mkContentParticipation {
  participation_search_enabled : bool;
  participation_discover_enabled : bool;
}.
Inductive ContentParticipationKind := ParticipateSearch | ParticipateDiscover.

Record ContentRoutingCandidate := mkContentRoutingCandidate {
  routing_plugin_id : PluginId;
  routing_platform_id : string;
  routing_name : string;
  routing_version : string;
  routing_priority : Z;
  routing_is_default : bool;
  routing_manifest_json : Json;
}.

Definition ensure_content_type (plugin_type : string) : result StorageError unit :=
  if eqb plugin_type "content" then Ok tt else Err InvalidData.

Definition participation (plugin_id : PluginId) : act Store StorageError ContentParticipation :=
  found ← select (λ db, db_plugins db !! PluginId_as_str plugin_id);
  row ← pure (ok_or found StorageNotFound);
  pure (ensure_content_type (plugin_row_plugin_type row));;
  mret (mkContentParticipation (plugin_row_search_enabled row) (plugin_row_discover_enabled row)).

Definition update_participation (now : time) (plugin_id : PluginId)
    (participation : ContentParticipation) : act Store StorageError unit :=
  transaction (
    found ← select (λ db, plugin_row_plugin_type <$> db_plugins db !! PluginId_as_str plugin_id);
    plugin_type ← pure (ok_or found StorageNotFound);
    pure (ensure_content_type plugin_type);;
    rows_affected ← update_plugin plugin_id (λ _, true) {|
        assign_repository_id := None; assign_source_hash := None; assign_image_id := None;
        assign_status := None; assign_run_mode := None; assign_priority := None;
        assign_enabled := None; assign_install_operation_id := None;
        assign_last_used_at := None;
        assign_search_enabled := Some (participation_search_enabled participation);
        assign_discover_enabled := Some (participation_discover_enabled participation)
      |} now;
    if negb (rows_affected =? 1) then throw StorageNotFound else mret tt).

(** [INSERT ... ON CONFLICT(platform_id) DO UPDATE], with UNIQUE(plugin_id) and
    the foreign key. *)
Definition sql_set_default (platform_id plugin_id updated_at : string) (db : Db) :
    result SqlError (unit * Db) :=
  if other_row (db_defaults db) platform_id (λ d, eqb (default_row_plugin_id d) plugin_id)
  then Err UniqueViolation
  else if is_none (db_plugins db !! plugin_id) then Err OtherSqlError
  else Ok (tt, set_defaults <[platform_id := mkDefaultRow plugin_id updated_at]> db).

Definition set_default (now : time) (platform_id : string) (plugin_id : PluginId) :
    act Store StorageError unit :=
  pure (store_validate_platform_id platform_id);;
  transaction (
    found ← select (λ db, db_plugins db !! PluginId_as_str plugin_id);
    row ← pure (ok_or found StorageNotFound);
    pure (ensure_content_type (plugin_row_plugin_type row));;
    if negb (eqb (plugin_row_platform_id row) platform_id) then throw InvalidData
    else
      execute_sql (sql_set_default platform_id (PluginId_as_str plugin_id) (to_rfc3339 now))).

Definition default_for_platform (platform_id : string) :
    act Store StorageError (option PluginId) :=
  pure (store_validate_platform_id platform_id);;
  found ← select (λ db, default_row_plugin_id <$> db_defaults db !! platform_id);
  pure (transpose_map (λ plugin_id, invalid (PluginId_parse plugin_id)) found).

(** The WHERE clause of the candidate query. *)
Definition routable (participation : ContentParticipationKind) (row : PluginRow) : bool :=
  eqb (plugin_row_plugin_type row) "content"
  && plugin_row_enabled row
  && list_contains ["installed"; "healthy"; "stopped"] (plugin_row_status row)
  && match participation with
     | ParticipateSearch => plugin_row_search_enabled row
     | ParticipateDiscover => plugin_row_discover_enabled row
     end.

(** The LEFT JOIN: is the plugin the default of its own platform? *)
Definition row_is_default (db : Db) (id : string) (row : PluginRow) : bool :=
  is_some_and (λ d, eqb (default_row_plugin_id d) id)
    (db_defaults db !! plugin_row_platform_id row).

Definition routing_row_cmp : string * PluginRow * bool → string * PluginRow * bool → comparison :=
  cmp_then (cmp_on (λ r, plugin_row_platform_id r.1.2) String.compare)
    (cmp_then (cmp_rev (cmp_on snd bool_cmp))
       (cmp_then (cmp_on (λ r, plugin_row_priority r.1.2) Z.compare)
          (cmp_on (λ r, r.1.1) String.compare))).

Definition sql_candidates (participation : ContentParticipationKind) (db : Db) :
    list (string * PluginRow * bool) :=
  sort_by routing_row_cmp
    (List.map (λ '(id, row), (id, row, row_is_default db id row))
       (List.filter (λ '(_, row), routable participation row) (map_to_list (db_plugins db)))).

Definition decode_candidate (entry : string * PluginRow * bool) :
    result StorageError ContentRoutingCandidate :=
  let '(id, row, is_default) := entry in
  plugin_id ← invalid (PluginId_parse id);
  manifest_json ← ok_or (json_from_str (plugin_row_manifest_json row)) InvalidData;
  Ok {|
    routing_plugin_id := plugin_id;
    routing_platform_id := plugin_row_platform_id row;
    routing_name := plugin_row_name row;
    routing_version := plugin_row_version row;
    routing_priority := plugin_row_priority row;
    routing_is_default := is_default;
    routing_manifest_json := manifest_json;
  |}.

(** [filter(...).collect::<Result<Vec<_>, _>>()]: an undecodable row is kept and
    fails the whole list. *)
Definition requested_candidate (platform_id : option string) (plugin_id : option PluginId)
    (candidate : result StorageError ContentRoutingCandidate) : bool :=
  match candidate with
  | Ok candidate =>
      is_none_or (λ expected, eqb (routing_platform_id candidate) expected) platform_id
      && is_none_or (λ expected, eqb (routing_plugin_id candidate) expected) plugin_id
  | Err _ => true
  end.

Definition list_candidates (participation : ContentParticipationKind)
    (platform_id : option string) (plugin_id : option PluginId) :
    act Store StorageError (list ContentRoutingCandidate) :=
  match platform_id with
  | Some platform_id => pure (store_validate_platform_id platform_id)
  | None => mret tt
  end;;
  rows ← select (sql_candidates participation);
  pure (mapM id (List.filter (requested_candidate platform_id plugin_id)
                   (List.map decode_candidate rows))).

(** ** Risk grants *)

Record RiskGrantRecord := mkRiskGrantRecord {
  risk_id : Uuid;
  risk_repository_id : string;
  risk_plugin_id : PluginId;
  risk_commit_sha : string;
  risk_risk_kind : string;
  risk_reason : string;
  risk_granted_at : time;
}.

Definition risk_row (record : RiskGrantRecord) : RiskGrantRow := {|
  risk_row_repository_id := risk_repository_id record;
  risk_row_plugin_id := PluginId_as_str (risk_plugin_id record);
  risk_row_commit_sha := risk_commit_sha record;
  risk_row_risk_kind := risk_risk_kind record;
  risk_row_reason := risk_reason record;
  risk_row_granted_at := to_rfc3339 (risk_granted_at record);
|}.

Definition sql_insert_risk (id : string) (row : RiskGrantRow) (db : Db) :
    result SqlError (unit * Db) :=
  if is_some (db_risk_grants db !! id) || some_row (db_risk_grants db) (same_risk row)
  then Err UniqueViolation
  else Ok (tt, set_risk_grants <[id := row]> db).

Definition insert_risk_grant (record : RiskGrantRecord) : act Store StorageError unit :=
  execute_sql (sql_insert_risk (uuid_to_string (risk_id record)) (risk_row record)).

(** [ON CONFLICT(plugin_id, commit_sha, risk_kind) DO UPDATE SET id = excluded.id,
    ...]: the conflicting row moves to the new primary key, which must be free;
    a primary key taken by a row of another commit is no such conflict and
    fails. *)
Definition sql_replace_risk (id : string) (row : RiskGrantRow) (db : Db) :
    result SqlError (unit * Db) :=
  match List.find (λ '(_, r), same_risk row r) (map_to_list (db_risk_grants db)) with
  | Some (old, _) =>
      if negb (eqb old id) && is_some (db_risk_grants db !! id) then Err UniqueViolation
      else Ok (tt, set_risk_grants (λ m, <[id := row]> (delete old m)) db)
  | None =>
      if is_some (db_risk_grants db !! id) then Err UniqueViolation
      else Ok (tt, set_risk_grants <[id := row]> db)
  end.

Definition replace_commit_grant (record : RiskGrantRecord) : act Store StorageError unit :=
  execute_sql (sql_replace_risk (uuid_to_string (risk_id record)) (risk_row record)).

Definition sql_risk_for (plugin_id commit_sha risk_kind : string) (db : Db) :
    option (string * RiskGrantRow) :=
  List.find (λ '(_, r), eqb (risk_row_plugin_id r) plugin_id
                        && eqb (risk_row_commit_sha r) commit_sha
                        && eqb (risk_row_risk_kind r) risk_kind)
    (map_to_list (db_risk_grants db)).

Definition decode_risk (entry : string * RiskGrantRow) : result StorageError RiskGrantRecord :=
  let '(id, row) := entry in
  risk_id ← ok_or (uuid_parse_str id) InvalidData;
  plugin_id ← invalid (PluginId_parse (risk_row_plugin_id row));
  granted_at ← store_parse_timestamp (risk_row_granted_at row);
  Ok {|
    risk_id := risk_id;
    risk_repository_id := risk_row_repository_id row;
    risk_plugin_id := plugin_id;
    risk_commit_sha := risk_row_commit_sha row;
    risk_risk_kind := risk_row_risk_kind row;
    risk_reason := risk_row_reason row;
    risk_granted_at := granted_at;
  |}.

Definition get_risk_for (plugin_id : PluginId) (commit_sha risk_kind : string) :
    act Store StorageError (option RiskGrantRecord) :=
  row ← select (sql_risk_for (PluginId_as_str plugin_id) commit_sha risk_kind);
  pure (transpose_map decode_risk row).

Definition risk_exists_for (plugin_id : PluginId) (commit_sha risk_kind : string) :
    act Store StorageError bool :=
  select (λ db, is_some (sql_risk_for (PluginId_as_str plugin_id) commit_sha risk_kind db)).

(** ** Logs *)

Inductive LogLevel := LogTrace | LogDebug | LogInfo | LogWarn | LogError.

Record StructuredLog := mkStructuredLog {
  log_id : Uuid;
  log_timestamp : time;
  log_level : LogLevel;
  log_component : string;
  log_message : string;
  log_plugin_id : option string;
  log_plugin_version : option string;
  log_platform_id : option string;
  log_request_id : option string;
  log_task_id : option string;
  log_container_id : option string;
  log_error_code : option string;
  log_context : Json;
}.

Record LogFilter := mkLogFilter {
  log_filter_plugin_id : option PluginId;
  log_filter_limit : Z;
}.

Definition log_level_to_str (level : LogLevel) : string :=
  match level with
  | LogTrace => "trace" | LogDebug => "debug" | LogInfo => "info" | LogWarn => "warn"
  | LogError => "error"
  end.
Definition log_level_from_str (value : string) : result StorageError LogLevel :=
  if eqb value "trace" then Ok LogTrace
  else if eqb value "debug" then Ok LogDebug
  else if eqb value "info" then Ok LogInfo
  else if eqb value "warn" then Ok LogWarn
  else if eqb value "error" then Ok LogError
  else Err InvalidData.

Definition log_row (log : StructuredLog) (context_json : string) : LogRow := {|
  log_row_timestamp := to_rfc3339 (log_timestamp log);
  log_row_level := log_level_to_str (log_level log);
  log_row_component := log_component log;
  log_row_message := log_message log;
  log_row_plugin_id := log_plugin_id log;
  log_row_plugin_version := log_plugin_version log;
  log_row_platform_id := log_platform_id log;
  log_row_request_id := log_request_id log;
  log_row_task_id := log_task_id log;
  log_row_container_id := log_container_id log;
  log_row_error_code := log_error_code log;
  log_row_context_json := context_json;
|}.

Definition log_has_id (id : string) (db : Db) : bool := list_contains (db_logs db).*1 id.

(** [INSERT], and [INSERT OR IGNORE] *)
Definition sql_append_log (or_ignore : bool) (id : string) (row : LogRow) (db : Db) :
    result SqlError (unit * Db) :=
  if log_has_id id db then (if or_ignore then Ok (tt, db) else Err UniqueViolation)
  else Ok (tt, set_logs (λ l, l ++ [(id, row)]) db).

Definition append_log (log : StructuredLog) : act Store StorageError unit :=
  context_json ← pure (ok_or (json_to_string (log_context log)) InvalidData);
  execute_sql (sql_append_log false (uuid_to_string (log_id log)) (log_row log context_json)).
Definition append_log_if_absent (log : StructuredLog) : act Store StorageError unit :=
  context_json ← pure (ok_or (json_to_string (log_context log)) InvalidData);
  execute_sql (sql_append_log true (uuid_to_string (log_id log)) (log_row log context_json)).

(** [filter.limit.clamp(1, 1000)] *)
Definition clamp_limit (limit : Z) : Z := Z.max 1 (Z.min limit 1000).

(** [WHERE plugin_id = ? ORDER BY timestamp DESC LIMIT ?] *)
Definition sql_list_logs (plugin_id : option string) (limit : Z) (db : Db) :
    list (string * LogRow) :=
  firstn (Z.to_nat limit)
    (sort_by (cmp_rev (cmp_on (log_row_timestamp ∘ snd) String.compare))
       (List.filter (λ '(_, row), is_none_or (λ p, eqb (log_row_plugin_id row) (Some p)) plugin_id)
          (db_logs db))).

Definition decode_log (entry : string * LogRow) : result StorageError StructuredLog :=
  let '(id, row) := entry in
  log_id ← ok_or (uuid_parse_str id) InvalidData;
  timestamp ← store_parse_timestamp (log_row_timestamp row);
  level ← log_level_from_str (log_row_level row);
  context ← ok_or (json_from_str (log_row_context_json row)) InvalidData;
  Ok {|
    log_id := log_id;
    log_timestamp := timestamp;
    log_level := level;
    log_component := log_row_component row;
    log_message := log_row_message row;
    log_plugin_id := log_row_plugin_id row;
    log_plugin_version := log_row_plugin_version row;
    log_platform_id := log_row_platform_id row;
    log_request_id := log_row_request_id row;
    log_task_id := log_row_task_id row;
    log_container_id := log_row_container_id row;
    log_error_code := log_row_error_code row;
    log_context := context;
  |}.

Definition list_logs (filter : LogFilter) : act Store StorageError (list StructuredLog) :=
  rows ← select (sql_list_logs (PluginId_as_str <$> log_filter_plugin_id filter)
                   (clamp_limit (log_filter_limit filter)));
  pure (mapM decode_log rows).
End plugins.
