(* ===== verification/StorageOps.v ===== *)
(** * Sequences of storage operations

    Every operation of the repositories that changes the database, as data:
    what other tasks do to the database between two calls is a list of them, and
    the states a run of the program can reach are those such lists lead to. *)

From S2P Require Import Prelude Stateful Text Domain Foreign CredentialContract Database.
From S2P Require Import Database CredentialStore CredentialStoreFacts CredentialStoreProps.
From S2P Require Import PluginStore.

Section ops.
Context {U : UrlLib} {B : Encoding} {K : Codec}.

Inductive StorageOp :=
| OpUpsertPlugin (record : PluginRecord)
| OpInsertInstalling (record : PluginRecord)
| OpSetInstallResult (now : time) (plugin_id : PluginId)
    (repository_id image_id source_hash : string) (operation_id : Uuid) (status : PluginStatus)
| OpUpdateSettings (now : time) (plugin_id : PluginId) (enabled : bool) (run_mode : RunMode)
    (priority : Z)
| OpTouch (now : time) (plugin_id : PluginId) (last_used_at : time)
| OpDeletePlugin (plugin_id : PluginId)
| OpCompleteInstall (now : time) (plugin_id : PluginId) (operation_id : Uuid)
| OpRollbackInstall (plugin_id : PluginId) (operation_id : Uuid)
| OpSetStatus (now : time) (plugin_id : PluginId) (status : PluginStatus)
| OpUpdateParticipation (now : time) (plugin_id : PluginId) (p : ContentParticipation)
| OpSetDefault (now : time) (platform_id : string) (plugin_id : PluginId)
| OpInsertRiskGrant (record : RiskGrantRecord)
| OpReplaceCommitGrant (record : RiskGrantRecord)
| OpAppendLog (log : StructuredLog)
| OpAppendLogIfAbsent (log : StructuredLog)
| OpInsertCredential (record : CredentialRecord)
| OpUpsertCredential (record : CredentialRecord)
| OpUpdateCredential (record : CredentialRecord)
| OpClearSourcePlugin (now : time) (credential_id : CredentialId)
| OpDeleteCredential (credential_id : CredentialId)
| OpCreateGrant (record : CredentialScopeGrantRecord)
| OpRevokeGrant (grant_id : Uuid) (revoked_at : time).

(** The call, its answer reduced to success or failure. *)
Definition call (op : StorageOp) : act Store StorageError unit :=
  match op with
  | OpUpsertPlugin record => upsert_plugin record
  | OpInsertInstalling record => insert_installing record
  | OpSetInstallResult now plugin_id repository_id image_id source_hash operation_id status =>
      set_install_result now plugin_id repository_id image_id source_hash operation_id status
  | OpUpdateSettings now plugin_id enabled run_mode priority =>
      update_settings now plugin_id enabled run_mode priority
  | OpTouch now plugin_id last_used_at => touch now plugin_id last_used_at
  | OpDeletePlugin plugin_id => delete_plugin plugin_id
  | OpCompleteInstall now plugin_id operation_id => complete_install now plugin_id operation_id
  | OpRollbackInstall plugin_id operation_id => rollback_install plugin_id operation_id
  | OpSetStatus now plugin_id status => set_status now plugin_id status
  | OpUpdateParticipation now plugin_id p => update_participation now plugin_id p
  | OpSetDefault now platform_id plugin_id => set_default now platform_id plugin_id
  | OpInsertRiskGrant record => insert_risk_grant record
  | OpReplaceCommitGrant record => replace_commit_grant record
  | OpAppendLog log => append_log log
  | OpAppendLogIfAbsent log => append_log_if_absent log
  | OpInsertCredential record => insert record
  | OpUpsertCredential record => _ ← upsert record; mret tt
  | OpUpdateCredential record => _ ← update record; mret tt
  | OpClearSourcePlugin now credential_id => clear_source_plugin now credential_id
  | OpDeleteCredential credential_id => delete_credential credential_id
  | OpCreateGrant record => create_grant record
  | OpRevokeGrant grant_id revoked_at => revoke_grant grant_id revoked_at
  end.

Definition run_op (op : StorageOp) (s : Store) : Store := (call op s).2.
Definition run_ops (ops : list StorageOp) (s : Store) : Store :=
  fold_left (λ s op, run_op op s) ops s.

(** ** Integrity: the constraints of the migrations *)

Record db_wf (db : Db) : Prop := {
  wf_checks t row : db_credentials db !! t = Some row → credential_checks row = true;
  wf_scope t1 t2 r1 r2 : db_credentials db !! t1 = Some r1 → db_credentials db !! t2 = Some r2 →
    credential_row_scope r1 = credential_row_scope r2 → t1 = t2;
  wf_source t row p : db_credentials db !! t = Some row →
    credential_row_source_plugin_id row = Some p → is_Some (db_plugins db !! p);
  wf_target t o : (t, o) ∈ db_target_origins db → is_Some (db_credentials db !! t);
  wf_grant i g : db_grants db !! i = Some g →
    is_Some (db_plugins db !! grant_row_plugin_id g) ∧
    is_Some (db_credentials db !! grant_row_credential_id g) ∧
    zlen (grant_row_credential_origins_hash g) = 32;
  wf_active i j g h : db_grants db !! i = Some g → db_grants db !! j = Some h →
    same_active_grant g h = true → i = j;
  wf_grant_origin i o c : db_grant_origins db !! (i, o) = Some c →
    ∃ g, db_grants db !! i = Some g ∧ grant_row_credential_id g = c;
  wf_default p d : db_defaults db !! p = Some d → is_Some (db_plugins db !! default_row_plugin_id d);
  wf_default_unique p q d e : db_defaults db !! p = Some d → db_defaults db !! q = Some e →
    default_row_plugin_id d = default_row_plugin_id e → p = q;
  wf_risk i j a b : db_risk_grants db !! i = Some a → db_risk_grants db !! j = Some b →
    same_risk a b = true → i = j;
  wf_logs : NoDup (db_logs db).*1;
}.

Lemma db_wf_empty : db_wf db_empty.
Proof. split; try done; try set_solver. constructor. Qed.

Definition keeps_wf : relation Db := λ db db', db_wf db → db_wf db'.
Global Instance keeps_wf_preorder : PreOrder keeps_wf.
Proof. split; [by intros ? ?|]. intros a b c Hab Hbc Ha. by apply Hbc, Hab. Qed.

(** *** Plugins *)

(** Writing a plugin row only adds keys that others may refer to. *)
Lemma insert_plugin_wf id row db : db_wf db → db_wf (set_plugins <[id := row]> db).
Proof.
  assert (∀ (m : gmap string PluginRow) p r, is_Some (m !! p) → is_Some (<[id := r]> m !! p)) as H.
  { intros m p r Hm. destruct (decide (id = p)) as [->|Hne].
    - rewrite lookup_insert_eq. by eexists.
    - by rewrite lookup_insert_ne. }
  intros []. split; simpl; try done.
  - intros t r p Ht Hp. eauto.
  - intros i g (? & ? & ?)%wf_grant0. eauto.
  - intros p d Hd. eauto.
Qed.

Lemma sql_update_plugin_wf id p f db n db' :
  db_wf db → sql_update_plugin id p f db = Ok (n, db') → db_wf db'.
Proof.
  unfold sql_update_plugin. intros Hwf. destruct (db_plugins db !! id); [destruct (p _)|];
    intros [= _ <-]; [by apply insert_plugin_wf|done..].
Qed.

Lemma sql_upsert_plugin_wf id row db u db' :
  db_wf db → sql_upsert_plugin id row db = Ok (u, db') → db_wf db'.
Proof. intros Hwf [= _ <-]. by apply insert_plugin_wf. Qed.

Lemma sql_insert_plugin_wf id row db u db' :
  db_wf db → sql_insert_plugin id row db = Ok (u, db') → db_wf db'.
Proof.
  unfold sql_insert_plugin. intros Hwf. destruct (is_some _); [done|]. intros [= _ <-].
  by apply insert_plugin_wf.
Qed.

Lemma sql_delete_plugin_wf p id db n db' :
  db_wf db → sql_delete_plugin p id db = Ok (n, db') → db_wf db'.
Proof.
  intros Hwf. unfold sql_delete_plugin. destruct (db_plugins db !! id) eqn:Eid; [|by intros [= _ <-]].
  destruct (p _); simpl; [|by intros [= _ <-]].
  destruct (some_row _ _) eqn:Es; [done|]. rewrite some_row_false in Es.
  intros [= _ <-]. destruct Hwf.
  assert (∀ q, q ≠ id → is_Some (db_plugins db !! q) → is_Some (delete id (db_plugins db) !! q)) as Hdel.
  { intros q Hne Hq. by rewrite lookup_delete_ne. }
  split; simpl; try done.
  - intros t row q Ht Hq. apply Hdel; [|eauto]. intros ->. specialize (Es _ _ Ht).
    unfold eqb in Es. by apply bool_decide_eq_false in Es.
  - intros i g [Hg Hne]%map_lookup_filter_Some. simpl in Hne.
    destruct (wf_grant0 i g Hg) as (? & ? & ?). split_and!; eauto.
  - intros i j g h [Hg _]%map_lookup_filter_Some [Hh _]%map_lookup_filter_Some. eauto.
  - intros i o c [Hc Hgone]%map_lookup_filter_Some. simpl in Hgone.
    destruct (wf_grant_origin0 i o c Hc) as (g & Hg & Hgc). exists g. split; [|done].
    apply map_lookup_filter_Some. split; [done|]. simpl. intros Heq.
    assert (filter (λ p : string * GrantRow, grant_row_plugin_id p.2 = id) (db_grants db) !! i = Some g)
      as Hsome by (by apply map_lookup_filter_Some). congruence.
  - intros q d [Hd Hne]%map_lookup_filter_Some. simpl in Hne. eauto.
  - intros q q' d e [Hd _]%map_lookup_filter_Some [He _]%map_lookup_filter_Some. eauto.
Qed.

Lemma sql_set_default_wf platform_id plugin_id updated_at db u db' :
  db_wf db → sql_set_default platform_id plugin_id updated_at db = Ok (u, db') → db_wf db'.
Proof.
  intros [] H. unfold sql_set_default in H. simplify_result. rewrite other_row_false in Hguard.
  assert (is_Some (db_plugins db !! plugin_id)) as Hp.
  { unfold is_none, is_some in Hguard0. destruct (db_plugins db !! plugin_id); [by eexists|done]. }
  assert (∀ p d, db_defaults db !! p = Some d → p ≠ platform_id →
    default_row_plugin_id d ≠ plugin_id) as Hother.
  { intros p d Hd Hne. specialize (Hguard p d Hd Hne). simpl in Hguard. by bool_prop. }
  split; simpl; try done.
  - intros p d [[<- <-]|[Hne Hd]]%lookup_insert_Some; [done|eauto].
  - intros p q d e [[<- <-]|[Hp' Hd]]%lookup_insert_Some [[<- <-]|[Hq' He]]%lookup_insert_Some; simpl.
    + done.
    + intros Heq. by destruct (Hother _ _ He).
    + intros Heq. by destruct (Hother _ _ Hd).
    + eauto.
Qed.

Lemma same_risk_true a b :
  same_risk a b = true ↔ risk_row_plugin_id a = risk_row_plugin_id b ∧
    risk_row_commit_sha a = risk_row_commit_sha b ∧ risk_row_risk_kind a = risk_row_risk_kind b.
Proof. unfold same_risk. rewrite !andb_true_iff, !eqb_eq. naive_solver. Qed.

Lemma insert_risk_wf id row m db :
  (∀ i a, m !! i = Some a → db_risk_grants db !! i = Some a) →
  (∀ i a, m !! i = Some a → i ≠ id → same_risk row a = false) →
  db_wf db → db_wf (set_risk_grants (λ _, <[id := row]> m) db).
Proof.
  intros Hsub Hnew []. split; simpl; try done.
  assert (∀ i a, i ≠ id → m !! i = Some a → same_risk a row = true → False) as Hsym.
  { intros i a Hne Ha Hs. specialize (Hnew i a Ha Hne). apply same_risk_true in Hs.
    assert (same_risk row a = true) by (apply same_risk_true; naive_solver). congruence. }
  intros i j a b [[<- <-]|[Hi Ha]]%lookup_insert_Some [[<- <-]|[Hj Hb]]%lookup_insert_Some Hs; try done.
  - by rewrite (Hnew j b) in Hs.
  - by destruct (Hsym i a).
  - eauto.
Qed.

Lemma sql_insert_risk_wf id row db u db' :
  db_wf db → sql_insert_risk id row db = Ok (u, db') → db_wf db'.
Proof.
  intros Hwf H. unfold sql_insert_risk in H. simplify_result. bool_prop.
  match goal with Hs : some_row _ _ = false |- _ => rewrite some_row_false in Hs end.
  by apply (insert_risk_wf id row (db_risk_grants db)); eauto.
Qed.

Lemma find_map_None {A} (m : gmap string A) (p : string * A → bool) :
  List.find p (map_to_list m) = None ↔ ∀ k a, m !! k = Some a → p (k, a) = false.
Proof.
  split.
  - intros Hf k a Hk. eapply find_none in Hf; [done|]. by apply list_elem_of_In, elem_of_map_to_list.
  - intros Hf. destruct (List.find _ _) as [[k a]|] eqn:E; [|done].
    apply find_some in E as [Hin Hp]. apply list_elem_of_In, elem_of_map_to_list in Hin.
    by rewrite (Hf k a) in Hp.
Qed.

Lemma sql_replace_risk_wf id row db u db' :
  db_wf db → sql_replace_risk id row db = Ok (u, db') → db_wf db'.
Proof.
  intros Hwf H. unfold sql_replace_risk in H.
  destruct (List.find _ _) as [[old r]|] eqn:Ef.
  - apply find_some in Ef as [Hin Hs]. apply list_elem_of_In, elem_of_map_to_list in Hin.
    simplify_result. apply (insert_risk_wf id row (delete old (db_risk_grants db))); [| |done].
    + by intros i a [_ Ha]%lookup_delete_Some.
    + intros i a [Hne Ha]%lookup_delete_Some _. destruct (same_risk row a) eqn:E; [|done].
      destruct Hne. eapply (wf_risk _ Hwf); [done..|]. apply same_risk_true in E, Hs.
      apply same_risk_true. destruct E as (? & ? & ?), Hs as (? & ? & ?). split_and!; congruence.
  - rewrite find_map_None in Ef. simplify_result.
    apply (insert_risk_wf id row (db_risk_grants db)); [done| |done]. intros i a Ha _.
    by apply (Ef i a).
Qed.

Lemma sql_append_log_wf b id row db u db' :
  db_wf db → sql_append_log b id row db = Ok (u, db') → db_wf db'.
Proof.
  intros Hwf. unfold sql_append_log, log_has_id. destruct (list_contains _ _) eqn:E.
  - destruct b; [|done]. by intros [= _ <-].
  - apply list_contains_not_elem in E. intros [= _ <-]. destruct Hwf. split; simpl; try done.
    rewrite fmap_app. apply NoDup_app. split_and!; [done| |by apply NoDup_singleton].
    intros x Hx ->%list_elem_of_singleton. done.
Qed.

(** *** Credentials *)

Lemma is_Some_insert {A} (m : gmap string A) k a q :
  is_Some (m !! q) → is_Some (<[k := a]> m !! q).
Proof.
  intros Hq. destruct (decide (k = q)) as [->|Hne].
  - rewrite lookup_insert_eq. by eexists.
  - by rewrite lookup_insert_ne.
Qed.

Lemma put_credential_wf id row db db' :
  db_wf db → put_credential id row db = Ok db' → db_wf db'.
Proof.
  intros [] (Hc & Hscope & Hsource & ->)%put_credential_Ok.
  split; simpl; try done.
  - intros t r [[<- <-]|[_ Hr]]%lookup_insert_Some; [done|eauto].
  - intros t1 t2 r1 r2 [[<- <-]|[Hne1 H1]]%lookup_insert_Some [[<- <-]|[Hne2 H2]]%lookup_insert_Some Heq;
      [done| | |by eauto].
    + by destruct (Hscope t2 r2 H2 (not_eq_sym Hne2)).
    + by destruct (Hscope t1 r1 H1 (not_eq_sym Hne1)).
  - intros t r p [[<- <-]|[_ Hr]]%lookup_insert_Some Hp; [|eauto].
    unfold source_exists in Hsource. rewrite Hp in Hsource. simpl in Hsource.
    destruct (db_plugins db !! p); [by eexists|done].
  - intros t o Ht. apply is_Some_insert. eauto.
  - intros i g (? & ? & ?)%wf_grant0. eauto using is_Some_insert.
Qed.

Lemma sql_insert_credential_wf id row db n db' :
  db_wf db → sql_insert_credential id row db = Ok (n, db') → db_wf db'.
Proof. intros Hwf H. unfold sql_insert_credential in H. simplify_result. by eapply put_credential_wf. Qed.

Lemma sql_update_credential_wf id revision row db n db' :
  db_wf db → sql_update_credential id revision row db = Ok (n, db') → db_wf db'.
Proof.
  intros Hwf H. unfold sql_update_credential in H.
  destruct (db_credentials db !! id); [destruct (_ =? _)|]; simplify_result; [|done..].
  by eapply put_credential_wf.
Qed.

Lemma sql_clear_source_wf id updated_at db n db' :
  db_wf db → sql_clear_source id updated_at db = Ok (n, db') → db_wf db'.
Proof.
  intros Hwf H. unfold sql_clear_source in H.
  destruct (db_credentials db !! id); simplify_result; [|done]. by eapply put_credential_wf.
Qed.

Lemma sql_delete_credential_wf id db n db' :
  db_wf db → sql_delete_credential id db = Ok (n, db') → db_wf db'.
Proof.
  intros Hwf. unfold sql_delete_credential. destruct (db_credentials db !! id) as [gone|] eqn:Eid;
    [|by intros [= _ <-]].
  intros [= _ <-]. destruct Hwf.
  assert (∀ q, q ≠ id → is_Some (db_credentials db !! q) → is_Some (delete id (db_credentials db) !! q))
    as Hdel.
  { intros q Hne Hq. by rewrite lookup_delete_ne. }
  split; simpl; try done.
  - intros t row [_ Hr]%lookup_delete_Some. eauto.
  - intros t1 t2 r1 r2 [_ H1]%lookup_delete_Some [_ H2]%lookup_delete_Some. eauto.
  - intros t row p [_ Hr]%lookup_delete_Some. eauto.
  - intros t o [Hne Ho]%elem_of_filter. simpl in Hne. eauto.
  - intros i g [Hg Hne]%map_lookup_filter_Some. simpl in Hne.
    destruct (wf_grant0 i g Hg) as (? & ? & ?). split_and!; eauto.
  - intros i j g h [Hg _]%map_lookup_filter_Some [Hh _]%map_lookup_filter_Some. eauto.
  - intros i o c [Hc Hne]%map_lookup_filter_Some. simpl in Hne.
    destruct (wf_grant_origin0 i o c Hc) as (g & Hg & <-). exists g. split; [|done].
    by apply map_lookup_filter_Some.
Qed.

Lemma sql_insert_target_origin_wf id origin db n db' :
  db_wf db → sql_insert_target_origin id origin db = Ok (n, db') → db_wf db'.
Proof.
  intros [] H. unfold sql_insert_target_origin in H. simplify_result.
  split; simpl; try done. intros t o [[= -> ->]%elem_of_singleton|Ho]%elem_of_union; [|eauto].
  unfold is_none, is_some in *. destruct (db_credentials db !! id); [by eexists|done].
Qed.

Lemma filter_target_origins_wf id db :
  db_wf db → db_wf (set_target_origins (filter (λ p, p.1 ≠ id)) db).
Proof. intros []. split; simpl; try done. intros t o [_ Ho]%elem_of_filter. eauto. Qed.

(** *** Grants *)

(** Revoking rows one by one or many at once. *)
Lemma revoke_rows_wf (f : string → GrantRow → GrantRow) m db :
  db_wf db →
  (∀ i g, f i g = g ∨ ∃ at_, f i g = set_revoked g at_) →
  (∀ i, m !! i = f i <$> db_grants db !! i) →
  db_wf (set_grants (λ _, m) db).
Proof.
  intros [] Hf Hm.
  assert (∀ i g, m !! i = Some g → ∃ h, db_grants db !! i = Some h ∧
    grant_row_plugin_id g = grant_row_plugin_id h ∧
    grant_row_credential_id g = grant_row_credential_id h ∧
    grant_row_scope g = grant_row_scope h ∧
    grant_row_credential_origins_hash g = grant_row_credential_origins_hash h ∧
    (grant_row_revoked_at g = None → grant_row_revoked_at h = None)) as Hrows.
  { intros i g Hg. rewrite Hm in Hg. destruct (db_grants db !! i) as [h|] eqn:Eh; [|done].
    simpl in Hg. injection Hg as <-. exists h. destruct (Hf i h) as [->|[at_ ->]]; done. }
  split; simpl; try done.
  - intros i g (h & Hh & -> & -> & _ & -> & _)%Hrows. eauto.
  - intros i j g g' (h & Hh & Hp & Hc & Hs & _ & Hr)%Hrows (h' & Hh' & Hp' & Hc' & Hs' & _ & Hr')%Hrows
      (? & ? & ? & ? & ?)%same_active_grant_true. eapply wf_active0; [done..|].
    apply same_active_grant_true. split_and!; [auto|auto|congruence..].
  - intros i o c Hc. destruct (wf_grant_origin0 i o c Hc) as (g & Hg & <-).
    exists (f i g). rewrite Hm, Hg. split; [done|]. by destruct (Hf i g) as [->|[at_ ->]].
Qed.

Lemma sql_revoke_active_wf p c sc at_ db u db' :
  db_wf db → sql_revoke_active p c sc at_ db = Ok (u, db') → db_wf db'.
Proof.
  intros Hwf [= _ <-].
  eapply (revoke_rows_wf (λ _ row, if eqb (grant_row_plugin_id row) p &&
      eqb (grant_row_credential_id row) c && eqb (grant_row_scope row) sc &&
      is_none (grant_row_revoked_at row) then set_revoked row at_ else row)); [done| |].
  - intros i g. destruct (_ && _); eauto.
  - intros i. by rewrite lookup_fmap.
Qed.

Lemma sql_revoke_grant_wf id at_ db n db' :
  db_wf db → sql_revoke_grant id at_ db = Ok (n, db') → db_wf db'.
Proof.
  intros Hwf H. unfold sql_revoke_grant in H.
  destruct (db_grants db !! id) as [row|] eqn:Er; [destruct (is_none _)|]; simplify_eq; [|done..].
  apply (revoke_rows_wf (λ i g, if eqb i id then set_revoked g at_ else g)); [done| |].
  - intros i g. destruct (eqb i id); eauto.
  - intros i. destruct (eqb i id) eqn:E; bool_prop; subst.
    + by rewrite lookup_insert_eq, Er.
    + rewrite lookup_insert_ne by done. by destruct (db_grants db !! i).
Qed.

Lemma sql_insert_grant_wf id row db u db' :
  db_wf db → sql_insert_grant id row db = Ok (u, db') → db_wf db'.
Proof.
  intros [] H. unfold sql_insert_grant in H. simplify_result. bool_prop.
  match goal with Hs : some_row _ _ = false |- _ => rewrite some_row_false in Hs; rename Hs into Hact end.
  assert (db_grants db !! id = None) as Hnone by (by destruct (db_grants db !! id)).
  assert (∀ i g, db_grants db !! i = Some g → same_active_grant g row = false) as Hact'.
  { intros i g Hg. specialize (Hact i g Hg). destruct (same_active_grant g row) eqn:E; [|done].
    apply same_active_grant_true in E as (? & ? & ? & ? & ?).
    assert (same_active_grant row g = true) by (by apply same_active_grant_true). congruence. }
  split; simpl; try done.
  - intros i g [[<- <-]|[_ Hg]]%lookup_insert_Some; [|eauto].
    unfold is_none, is_some in *. destruct (db_plugins db !! _); [|done].
    destruct (db_credentials db !! _); [|done]. split_and!; [by eexists..|done].
  - intros i j g h [[<- <-]|[Hi Hg]]%lookup_insert_Some [[<- <-]|[Hj Hh]]%lookup_insert_Some Hs; try done.
    + by rewrite (Hact j h) in Hs.
    + by rewrite (Hact' i g) in Hs.
    + eauto.
  - intros i o c Hc. destruct (wf_grant_origin0 i o c Hc) as (g & Hg & <-). exists g.
    split; [|done]. rewrite lookup_insert_ne; [done|]. congruence.
Qed.

Lemma sql_insert_grant_origin_wf i c o db u db' :
  db_wf db → sql_insert_grant_origin i c o db = Ok (u, db') → db_wf db'.
Proof.
  intros [] H. unfold sql_insert_grant_origin in H. simplify_result.
  split; simpl; try done. intros i' o' c' [[[= <- <-] <-]|[_ Hc]]%lookup_insert_Some; [|eauto].
  unfold is_none_or in *. destruct (db_grants db !! i) as [g|]; [|done]. bool_prop. eauto.
Qed.

(** *** Every operation *)

Ltac wf_statement :=
  intros Hwf;
  match goal with
  | H : Ok (_, set_target_origins _ _) = Ok _ |- _ =>
      injection H as _ <-; exact (filter_target_origins_wf _ _ Hwf)
  | H : sql_upsert_plugin _ _ _ = _ |- _ => exact (sql_upsert_plugin_wf _ _ _ _ _ Hwf H)
  | H : sql_insert_plugin _ _ _ = _ |- _ => exact (sql_insert_plugin_wf _ _ _ _ _ Hwf H)
  | H : sql_update_plugin _ _ _ _ = _ |- _ => exact (sql_update_plugin_wf _ _ _ _ _ _ Hwf H)
  | H : sql_delete_plugin _ _ _ = _ |- _ => exact (sql_delete_plugin_wf _ _ _ _ _ Hwf H)
  | H : sql_set_default _ _ _ _ = _ |- _ => exact (sql_set_default_wf _ _ _ _ _ _ Hwf H)
  | H : sql_insert_risk _ _ _ = _ |- _ => exact (sql_insert_risk_wf _ _ _ _ _ Hwf H)
  | H : sql_replace_risk _ _ _ = _ |- _ => exact (sql_replace_risk_wf _ _ _ _ _ Hwf H)
  | H : sql_append_log _ _ _ _ = _ |- _ => exact (sql_append_log_wf _ _ _ _ _ _ Hwf H)
  | H : sql_insert_credential _ _ _ = _ |- _ => exact (sql_insert_credential_wf _ _ _ _ _ Hwf H)
  | H : sql_update_credential _ _ _ _ = _ |- _ => exact (sql_update_credential_wf _ _ _ _ _ _ Hwf H)
  | H : sql_clear_source _ _ _ = _ |- _ => exact (sql_clear_source_wf _ _ _ _ _ Hwf H)
  | H : sql_delete_credential _ _ = _ |- _ => exact (sql_delete_credential_wf _ _ _ _ Hwf H)
  | H : sql_insert_target_origin _ _ _ = _ |- _ => exact (sql_insert_target_origin_wf _ _ _ _ _ Hwf H)
  | H : sql_revoke_active _ _ _ _ _ = _ |- _ => exact (sql_revoke_active_wf _ _ _ _ _ _ _ Hwf H)
  | H : sql_revoke_grant _ _ _ = _ |- _ => exact (sql_revoke_grant_wf _ _ _ _ _ Hwf H)
  | H : sql_insert_grant _ _ _ = _ |- _ => exact (sql_insert_grant_wf _ _ _ _ _ Hwf H)
  | H : sql_insert_grant_origin _ _ _ _ = _ |- _ => exact (sql_insert_grant_origin_wf _ _ _ _ _ _ Hwf H)
  end.

Lemma update_plugin_wf plugin_id p a now : preserves keeps_wf (update_plugin plugin_id p a now).
Proof. unfold update_plugin. preserves. wf_statement. Qed.

Lemma credential_writes_wf record :
  preserves keeps_wf (insert record) ∧ preserves keeps_wf (upsert record) ∧
  preserves keeps_wf (update record).
Proof.
  unfold insert, upsert, update, insert_credential, update_credential_row, validate_source_plugin,
    credential_exists, replace_credential_origins. split_and!; preserves; wf_statement.
Qed.

Lemma create_grant_wf record : preserves keeps_wf (create_grant record).
Proof.
  unfold create_grant, load_credential_origins, insert_grant_origins. preserves; wf_statement.
Qed.

Lemma call_wf op : preserves keeps_wf (call op).
Proof.
  destruct op; cbn [call]; unfold upsert_plugin, insert_installing, set_install_result,
    update_settings, touch, delete_plugin, complete_install, rollback_install, set_status,
    update_participation, set_default, insert_risk_grant, replace_commit_grant, append_log,
    append_log_if_absent, clear_source_plugin, delete_credential, revoke_grant;
    try apply credential_writes_wf; try apply create_grant_wf; preserves;
    try apply update_plugin_wf; try apply credential_writes_wf; wf_statement.
Qed.

(** The keys, checks and foreign keys of the migrations hold in every state a
    run reaches from one where they do. *)
Lemma run_ops_wf ops s : db_wf (store_db s) → db_wf (store_db (run_ops ops s)).
Proof.
  revert s. induction ops as [|op ops IH]; intros s Hwf; [done|]. apply IH. unfold run_op.
  destruct (call op s) as [r s'] eqn:E. by eapply call_wf.
Qed.

End ops.
