(* ===== verification/StorageHistory.v ===== *)
(** * How credentials evolve

    The effect of every storage operation on the credentials, and what follows
    for sequences of operations: stored rows always decode, and a credential
    whose revision has not moved has not changed. *)

From S2P Require Import Prelude Stateful Text Domain Foreign CredentialContract Database.
From S2P Require Import Database CredentialStore CredentialStoreFacts CredentialStoreProps.
From S2P Require Import PluginStore StorageOps.

Section history.
Context {U : UrlLib} {B : Encoding} {K : Codec} `{!CodecLaws K}.

(** What the Rust types guarantee of the arguments, and that their times lie in
    the years 0 to 9999. *)
Definition op_typed (op : StorageOp) : Prop :=
  match op with
  | OpInsertCredential r | OpUpsertCredential r | OpUpdateCredential r => record_typed r
  | OpClearSourcePlugin now id => rfc3339_time now ∧ uuid_value (CredentialId_as_uuid id)
  | OpDeleteCredential id => uuid_value (CredentialId_as_uuid id)
  | _ => True
  end.

(** The operations that can bring a credential into existence. *)
Definition creates (op : StorageOp) (id : CredentialId) : Prop :=
  match op with
  | OpInsertCredential r | OpUpsertCredential r => record_id r = id
  | _ => False
  end.

Definition same_credentials : relation Db := λ db db',
  db_credentials db' = db_credentials db ∧ db_target_origins db' = db_target_origins db.
Global Instance same_credentials_preorder : PreOrder same_credentials.
Proof. split; [done|]. intros a b c [H1 H2] [H3 H4]. split; congruence. Qed.

(** One operation, seen from the credentials. *)
Inductive credential_step (op : StorageOp) (db db' : Db) : Prop :=
| StepSame : same_credentials db db' → credential_step op db db'
| StepCreate r : creates op (record_id r) → record_stored r →
    db_credentials db !! id_text (record_id r) = None → db' = write_credential r db →
    credential_step op db db'
| StepReplace old record : record_typed record → replaces db old record db' →
    credential_step op db db'
| StepClear old now : rfc3339_time now → credential_at db old →
    db' = set_credentials <[id_text (record_id old) := row_of (cleared_record old now)]> db →
    credential_step op db db'
| StepDelete id : uuid_value (CredentialId_as_uuid id) →
    sql_delete_credential (id_text id) db = Ok (1, db') → credential_step op db db'.

(** ** Operations on the other tables *)

Ltac same_statement H :=
  unfold sql_upsert_plugin, sql_insert_plugin, sql_update_plugin, sql_delete_plugin,
    sql_set_default, sql_insert_risk, sql_replace_risk, sql_append_log, sql_revoke_active,
    sql_insert_grant, sql_insert_grant_origin, sql_revoke_grant in H;
  repeat case_match; simplify_eq; done.

Lemma update_plugin_same plugin_id p a now :
  preserves same_credentials (update_plugin plugin_id p a now).
Proof.
  unfold update_plugin. preserves.
  match goal with H : _ = Ok _ |- _ => same_statement H end.
Qed.

Definition other_tables (op : StorageOp) : bool :=
  match op with
  | OpInsertCredential _ | OpUpsertCredential _ | OpUpdateCredential _ | OpClearSourcePlugin _ _
  | OpDeleteCredential _ => false
  | _ => true
  end.

Lemma other_tables_same op :
  other_tables op = true → preserves same_credentials (call op).
Proof.
  intros Hop. destruct op; try done; cbn [call]; unfold upsert_plugin, insert_installing,
    set_install_result, update_settings, touch, delete_plugin, complete_install, rollback_install,
    set_status, update_participation, set_default, insert_risk_grant, replace_commit_grant,
    append_log, append_log_if_absent, create_grant, load_credential_origins,
    insert_grant_origins, revoke_grant; preserves; try apply update_plugin_same;
    match goal with H : _ = Ok _ |- _ => same_statement H end.
Qed.

(** ** Every operation is a step *)

Lemma call_step op s :
  op_typed op → credentials_ok (store_db s) →
  credential_step op (store_db s) (store_db (run_op op s)).
Proof.
  intros Ht Hok. unfold run_op. destruct (call op s) as [r s'] eqn:E. simpl.
  destruct (other_tables op) eqn:Eo; [apply StepSame; by eapply other_tables_same|].
  assert (store_db s' = store_db s → credential_step op (store_db s) (store_db s')) as Hsame.
  { intros ->. by apply StepSame. }
  destruct op; try done; cbn [call op_typed creates] in *.
  - destruct r as [[]|e].
    + apply insert_Ok in E as (origins & _ & _ & Hnone & _ & Hst & Hdb); [|done].
      by eapply StepCreate; [| | |exact Hdb].
    + apply Hsame. unfold insert in E.
      apply act_bind_Err in E as [[= _ ->]|([] & s1 & [_ ->]%pure_Ok & E)]; [done|].
      destruct (negb _); [by injection E as _ ->|].
      apply act_bind_Err in E as [[= _ ->]|(? & s1 & [_ ->]%pure_Ok & E)]; [done|].
      by apply transaction_Err in E as [? _].
  - unfold mbind, act_bind in E. destruct (upsert record s) as [[n|e] s1] eqn:Eu;
      apply upsert_cases in Eu; try done; injection E as _ <-; [|by apply Hsame].
    destruct Eu as [[_ [old Hold]]|(_ & _ & Hnone & origins & _ & Hst & Hdb)].
    + by eapply StepReplace.
    + by eapply StepCreate; [| | |exact Hdb].
  - unfold mbind, act_bind in E. destruct (update record s) as [[n|e] s1] eqn:Eu;
      apply update_cases in Eu; try done; injection E as _ <-; [|apply Hsame, Eu].
    destruct Eu as [_ [old Hold]]. by eapply StepReplace.
  - destruct Ht as [Hnow Hid]. apply clear_source_plugin_cases in E; [|done..]. destruct r as [u|e].
    + destruct E as (old & Hold & <- & Hdb). by eapply StepClear.
    + apply Hsame, E.
  - apply delete_credential_cases in E. destruct r as [u|e]; [|apply Hsame, E].
    eapply StepDelete; [exact Ht|apply E].
Qed.

(** ** Rows stay readable *)

Lemma same_credentials_at db db' r :
  same_credentials db db' → credential_at db' r ↔ credential_at db r.
Proof.
  intros [Hc Ht]. unfold credential_at, sql_target_origins. by rewrite Hc, Ht.
Qed.

Lemma set_credentials_origins f db t :
  sql_target_origins t (set_credentials f db) = sql_target_origins t db.
Proof. done. Qed.

Lemma sql_target_origins_deleted t t' db db' :
  sql_delete_credential t db = Ok (1, db') → t' ≠ t →
  sql_target_origins t' db' = sql_target_origins t' db.
Proof.
  intros Hd Hne. unfold sql_delete_credential in Hd. destruct (db_credentials db !! t); [|done].
  injection Hd as <-. apply (cmp_lt_sorted_unique String.compare);
    [apply sql_target_origins_strict..|]. intros o. rewrite !elem_of_sql_target_origins. simpl.
  rewrite elem_of_filter. naive_solver.
Qed.

Lemma sql_delete_credential_lookup t t' db db' :
  sql_delete_credential t db = Ok (1, db') →
  db_credentials db' !! t' = if decide (t' = t) then None else db_credentials db !! t'.
Proof.
  unfold sql_delete_credential. destruct (db_credentials db !! t); [|done]. intros [= <-]. simpl.
  destruct (decide (t' = t)) as [->|Hne]; [apply lookup_delete_eq|by apply lookup_delete_ne].
Qed.

(** The records after a step, apart from the one it is about. *)
Lemma clear_at old now db r :
  credential_at db old → rfc3339_time now →
  let db' := set_credentials <[id_text (record_id old) := row_of (cleared_record old now)]> db in
  credential_at db' (cleared_record old now) ∧
  (id_text (record_id r) ≠ id_text (record_id old) → credential_at db' r ↔ credential_at db r).
Proof.
  intros (Hrow & Ho & Hst) Hnow db'. split.
  - split_and!; [apply lookup_insert_eq|done|by apply cleared_record_stored].
  - intros Hne. unfold credential_at, db'. rewrite set_credentials_origins. simpl.
    by rewrite lookup_insert_ne.
Qed.

Lemma step_credentials_ok op db db' :
  credentials_ok db → credential_step op db db' → credentials_ok db'.
Proof.
  intros Hok [Hs|r _ Hst _ ->|old record _ (_ & _ & _ & origins & _ & Hst & ->)
             |old now Hnow Hold ->|id Hid Hd].
  - intros t row Hrow. destruct Hs as [Hc Ho]. rewrite Hc in Hrow.
    destruct (Hok _ _ Hrow) as (r & -> & Hr). exists r. split; [done|].
    by apply (same_credentials_at db).
  - by apply credentials_ok_write.
  - by apply credentials_ok_write.
  - intros t row. cbn [db_credentials set_credentials].
    intros [[<- <-]|[Hne Hrow]]%lookup_insert_Some.
    + exists (cleared_record old now). split; [done|].
      by destruct (clear_at old now db old Hold Hnow).
    + destruct (Hok _ _ Hrow) as (r & -> & Hr). exists r. split; [done|].
      destruct (clear_at old now db r Hold Hnow) as [_ ->]; done.
  - intros t row. rewrite (sql_delete_credential_lookup _ _ _ _ Hd).
    destruct (decide (t = id_text id)) as [->|Hne]; [done|]. intros Hrow.
    destruct (Hok _ _ Hrow) as (r & -> & Hr). exists r. split; [done|].
    destruct Hr as (Hr & Ho & Hst). split_and!; [|by erewrite sql_target_origins_deleted|done].
    by rewrite (sql_delete_credential_lookup _ _ _ _ Hd), decide_False.
Qed.

Lemma run_ops_credentials_ok ops s :
  Forall op_typed ops → credentials_ok (store_db s) → credentials_ok (store_db (run_ops ops s)).
Proof.
  intros Hops. revert s. induction Hops as [|op ops Hop Hops IH]; intros s Hok; [done|].
  apply IH. eapply step_credentials_ok; [done|]. by apply call_step.
Qed.

(** ** Revisions *)

(** How the credential [id] moves from one state to a later one, when nothing
    creates it anew: once gone it stays gone, its revision never decreases, and
    at the same revision it is the same record. *)
Definition evolves (id : CredentialId) (db db' : Db) : Prop :=
  (db_credentials db !! id_text id = None → db_credentials db' !! id_text id = None) ∧
  ∀ r r', credential_at db r → credential_at db' r' → record_id r = id → record_id r' = id →
    record_revision r ≤ record_revision r' ∧
    (record_revision r = record_revision r' → record_revision r ≤ i64_max → r = r').

Lemma credential_at_unique db r r' :
  credential_at db r → credential_at db r' → record_id r = record_id r' →
  record_revision r ≤ i64_max → r = r'.
Proof.
  intros Hr Hr' Hid Hmax. pose proof Hr as (Hrow & _ & _). pose proof Hr' as (Hrow' & _ & _).
  rewrite Hid, Hrow' in Hrow. apply (inj Some) in Hrow.
  assert (record_revision r' = record_revision r) as Hrev
    by (by apply (f_equal credential_row_record_revision) in Hrow).
  pose proof (load_credential_quiet db r Hr Hmax) as H1.
  pose proof (load_credential_quiet db r' Hr' ltac:(lia)) as H2.
  rewrite Hid, <- Hrow in H1. congruence.
Qed.

Lemma evolves_refl id db : evolves id db db.
Proof.
  split; [done|]. intros r r' Hr Hr' Hid Hid'.
  pose proof Hr as (Hrow & _ & _). pose proof Hr' as (Hrow' & _ & _).
  rewrite Hid, <- Hid', Hrow' in Hrow. apply (inj Some), (f_equal credential_row_record_revision) in Hrow.
  simpl in Hrow. split; [lia|]. intros _ Hmax. eapply credential_at_unique; [done..|congruence|done].
Qed.

Lemma evolves_trans id db1 db2 db3 :
  credentials_ok db2 → uuid_value (CredentialId_as_uuid id) →
  evolves id db1 db2 → evolves id db2 db3 → evolves id db1 db3.
Proof.
  intros Hok Hid [Hn12 H12] [Hn23 H23]. split; [auto|]. intros r1 r3 H1 H3 Hid1 Hid3.
  destruct (db_credentials db2 !! id_text id) as [row|] eqn:Erow.
  2: { destruct H3 as (H3 & _). rewrite Hid3, Hn23 in H3; done. }
  destruct (Hok _ _ Erow) as (r2 & Ht & H2).
  apply id_text_inj in Ht; [|done|apply H2].
  destruct (H12 r1 r2 H1 H2 Hid1 (eq_sym Ht)) as [Hle12 Heq12].
  destruct (H23 r2 r3 H2 H3 (eq_sym Ht) Hid3) as [Hle23 Heq23].
  split; [lia|]. intros Heq Hmax. rewrite Heq12 by lia. apply Heq23; lia.
Qed.

Lemma sql_increment_lt revision : revision ≤ i64_max → revision < sql_increment revision.
Proof. unfold sql_increment. destruct (_ <? _) eqn:E; bool_prop; unfold i64_max in *; lia. Qed.
Lemma sql_increment_le revision : revision ≤ 2 ^ 63 → revision ≤ sql_increment revision.
Proof. unfold sql_increment. destruct (_ <? _) eqn:E; bool_prop; unfold i64_max in *; lia. Qed.

(** A record written over [old]: the other records stay, and this one moved on. *)
Lemma write_evolves id db db' old new :
  credential_at db old → credential_at db' new → record_id new = record_id old →
  record_revision old ≤ record_revision new →
  (record_revision old ≤ i64_max → record_revision old < record_revision new) →
  (∀ r, id_text (record_id r) ≠ id_text (record_id old) → credential_at db' r ↔ credential_at db r) →
  (∀ t, t ≠ id_text (record_id old) → db_credentials db' !! t = db_credentials db !! t) →
  evolves id db db'.
Proof.
  intros Hold Hnew Hids Hle Hlt Hother Hlook.
  assert (∀ d x y, credential_at d x → credential_at d y → record_id x = record_id y →
    record_revision x = record_revision y) as Hrev.
  { intros d x y (Hx & _) (Hy & _) He. rewrite He, Hy in Hx.
    by apply (inj Some), (f_equal credential_row_record_revision) in Hx. }
  split.
  - intros Hn. destruct (decide (id_text id = id_text (record_id old))) as [He|He].
    + destruct Hold as (Hold & _). congruence.
    + by rewrite Hlook.
  - intros r r' Hr Hr' <- Hid'.
    destruct (decide (id_text (record_id r) = id_text (record_id old))) as [He|He].
    + apply id_text_inj in He; [|apply Hr|apply Hold].
      rewrite (Hrev db r old), (Hrev db' r' new) by (done || congruence).
      split; [done|]. lia.
    + apply Hother in Hr'; [|congruence]. apply (evolves_refl (record_id r) db); done.
Qed.

Lemma step_evolves op id db db' :
  credentials_ok db → uuid_value (CredentialId_as_uuid id) → credential_step op db db' →
  (¬ creates op id) → evolves id db db'.
Proof.
  intros Hok Hid Hstep Hc.
  destruct Hstep as [Hs|r Hcr Hst Hnone ->|old record Ht (Hold & Hids & Hrev & origins & _ & Hst & ->)
             |old now Hnow Hold ->|id' Hid' Hd].
  - destruct (evolves_refl id db) as [Hn He]. split.
    + destruct Hs as [-> _]. done.
    + intros r r' Hr Hr'. apply He; [done|]. by apply (same_credentials_at db db').
  - assert (id_text id ≠ id_text (record_id r)) as Hne.
    { intros Heq. apply id_text_inj in Heq; [by subst|done|apply Hst]. }
    split; [by rewrite write_credential_creds, lookup_insert_ne|].
    intros r1 r2 H1 H2 Hid1 Hid2. apply credential_at_write_other in H2; [|congruence].
    apply (evolves_refl id db); congruence.
  - eapply write_evolves; [exact Hold|apply credential_at_write, Hst|done|simpl; lia|simpl; lia|..].
    + intros r Hne. apply credential_at_write_other. simpl. congruence.
    + intros t Hne. rewrite write_credential_creds. apply lookup_insert_ne. simpl. congruence.
  - destruct (clear_at old now db old Hold Hnow) as [Hnew _].
    eapply write_evolves; [exact Hold|exact Hnew|done|..].
    + apply sql_increment_le, Hold.
    + apply sql_increment_lt.
    + intros r Hne. by destruct (clear_at old now db r Hold Hnow) as [_ ->].
    + intros t Hne. simpl. by apply lookup_insert_ne.
  - split.
    + intros Hn. rewrite (sql_delete_credential_lookup _ _ _ _ Hd). by destruct (decide _).
    + intros r r' Hr Hr' <- Hid2. apply (evolves_refl (record_id r) db); try done.
      destruct Hr' as (Hrow & Ho & Hst).
      rewrite (sql_delete_credential_lookup _ _ _ _ Hd) in Hrow.
      destruct (decide _) as [|Hne]; [done|].
      split_and!; [done|by rewrite <- Ho, (sql_target_origins_deleted _ _ _ _ Hd)|done].
Qed.

Lemma run_ops_evolves id ops s :
  Forall op_typed ops → Forall (λ op, ¬ creates op id) ops →
  credentials_ok (store_db s) → uuid_value (CredentialId_as_uuid id) →
  evolves id (store_db s) (store_db (run_ops ops s)).
Proof.
  intros Hops. revert s. induction Hops as [|op ops Hop Hops IH]; intros s Hc Hok Hid.
  { apply evolves_refl. }
  apply Forall_cons in Hc as [Hc1 Hc].
  assert (credentials_ok (store_db (run_op op s))) as Hok'.
  { eapply step_credentials_ok; [done|]. by apply call_step. }
  change (run_ops (op :: ops) s) with (run_ops ops (run_op op s)).
  apply (evolves_trans id _ _ _ Hok' Hid); [|exact (IH _ Hc Hok' Hid)].
  eapply step_evolves; [done..| |exact Hc1]. by apply call_step.
Qed.

(** ** Properties *)

(** C6. Every credential stored with times in the years 0 to 9999 can be read
    back: whatever sequence of operations with such times ran, with whatever
    faults, a fault-free [get] answers with the stored record or reports that
    there is none, and never calls a stored row malformed, save for a revision
    that has left the 64-bit range.  The condition on the years is needed and is
    not checked by the program: a row that was written with a later expiry is
    never read back, whatever the database does. *)
Theorem stored_credentials_readable ops s id :
  Forall op_typed ops → credentials_ok (store_db s) → uuid_value (CredentialId_as_uuid id) →
  let db := store_db (run_ops ops s) in
  ((db_credentials db !! id_text id = None ∧ get id (quiet db) = (Ok None, quiet db)) ∨
   ∃ r, record_id r = id ∧ credential_at db r ∧
     (record_revision r ≤ i64_max → get id (quiet db) = (Ok (Some r), quiet db)) ∧
     (i64_max < record_revision r → record_revision r = 2 ^ 63)) ∧
  ∀ record revision created t s1,
    db_credentials (store_db s1) !! id_text id = Some (credential_row record revision created) →
    record_expires_at record = Some t → ¬ rfc3339_time t →
    ∃ e, (get id s1).1 = Err e.
Proof.
  intros Hops Hok Hid db. split.
  2: { intros record revision created t s1 Hrow Ht Hlate. destruct (get id s1) as [[found|e] s2] eqn:Hg;
       [|by eexists]. by destruct Hlate; eapply late_expiry_unreadable. }
  pose proof (run_ops_credentials_ok ops s Hops Hok) as Hok'. fold db in Hok'.
  destruct (db_credentials db !! id_text id) as [row|] eqn:E; [right|left; by split; [|apply get_quiet_none]].
  destruct (Hok' _ _ E) as (r & Ht & Hr). apply id_text_inj in Ht; [|done|apply Hr]. subst id.
  exists r. split_and!; [done|done|by apply get_quiet|].
  destruct Hr as (_ & _ & Hst). pose proof (rs_revision _ Hst). unfold i64_max. lia.
Qed.

(** Between two reads of a credential that no operation created anew, its
    revision does not go down, and if the revision is the same then so is every
    field of the record, whatever operations ran in between and whether they
    succeeded. *)
Theorem same_revision_same_record id ops s r r' :
  Forall op_typed ops → Forall (λ op, ¬ creates op id) ops →
  credentials_ok (store_db s) → uuid_value (CredentialId_as_uuid id) →
  get id (quiet (store_db s)) = (Ok (Some r), quiet (store_db s)) →
  get id (quiet (store_db (run_ops ops s))) = (Ok (Some r'), quiet (store_db (run_ops ops s))) →
  record_revision r ≤ record_revision r' ∧ (record_revision r = record_revision r' → r = r').
Proof.
  intros Hops Hc Hok Hid Hg Hg'.
  pose proof (run_ops_credentials_ok ops s Hops Hok) as Hok'.
  destruct (run_ops_evolves id ops s Hops Hc Hok Hid) as [_ He].
  apply get_cases in Hg as (_ & Hid1 & Hr & Hmax); [|done..].
  apply get_cases in Hg' as (_ & Hid2 & Hr' & _); [|done..]. destruct (He r r'); auto.
Qed.
End history.
