(* ===== verification/GrantProps.v ===== *)
(** * Grants of credentials to plugins

    A grant that [active_grant] reports is current in every respect, and a grant
    that [create_grant] accepted is the one it reports. *)

From S2P Require Import Prelude Stateful Text Domain Foreign CredentialContract Database.
From S2P Require Import Database CredentialStore CredentialStoreFacts CredentialStoreProps.
From S2P Require Import PluginStore StorageOps StorageHistory.

Lemma PluginId_parse_str s p : PluginId_parse s = Ok p → PluginId_as_str p = s.
Proof. unfold PluginId_parse. intros H. by simplify_result. Qed.
Lemma CredentialScope_parse_str s scope :
  CredentialScope_parse s = Ok scope → CredentialScope_as_str scope = s.
Proof. unfold CredentialScope_parse. cbv zeta. intros H. by simplify_result. Qed.

Lemma origins_elem (o : CredentialTargetOrigin) (l : list CredentialTargetOrigin) :
  CredentialTargetOrigin_as_str o ∈ CredentialTargetOrigin_as_str <$> l ↔ o ∈ l.
Proof.
  rewrite list_elem_of_fmap. split; [|by exists o]. intros ([a] & Heq & Hin). destruct o as [b].
  simpl in Heq. by subst.
Qed.

Lemma outside_intersection_false origins credential_allowed manifest_allowed :
  outside_intersection origins credential_allowed manifest_allowed = false ↔
  Forall (λ o, o ∈ credential_allowed ∧ o ∈ manifest_allowed) origins.
Proof.
  unfold outside_intersection. induction origins as [|o l IH]; simpl; [by split|].
  rewrite orb_false_iff, IH, Forall_cons, orb_false_iff, !negb_false_iff, !list_contains_elem.
  by rewrite !origins_elem.
Qed.

Section grants.
Context {U : UrlLib} {B : Encoding} {K : Codec} `{!CodecLaws K}.

Lemma joined_grant_Some plugin_id credential_id scope db id g res :
  joined_grant plugin_id credential_id scope db (id, g) = Some res ↔
  ∃ p c, db_plugins db !! plugin_id = Some p ∧ db_credentials db !! credential_id = Some c ∧
    res = (id, g, plugin_row_manifest_json p) ∧
    grant_row_plugin_id g = plugin_id ∧ grant_row_credential_id g = credential_id ∧
    grant_row_scope g = scope ∧ grant_row_revoked_at g = None ∧
    plugin_row_plugin_type p = "content" ∧
    plugin_row_platform_id p = credential_row_platform_id c ∧
    plugin_row_manifest_hash p = grant_row_manifest_hash g ∧ credential_row_scope c = scope.
Proof.
  unfold joined_grant. rewrite bind_Some. setoid_rewrite bind_Some. split.
  - intros (p & Hp & c & Hc & H). destruct (_ && _) eqn:E; [|done]. injection H as <-. bool_prop.
    subst. exists p, c. unfold is_none, is_some in *. destruct (grant_row_revoked_at g); [done|].
    by split_and!.
  - intros (p & c & Hp & Hc & -> & <- & <- & <- & Hr & Ht & Hpl & Hm & Hs). exists p. split; [done|].
    exists c. split; [done|]. by rewrite !eqb_refl, Hr, Ht, Hpl, Hm, Hs, !eqb_refl.
Qed.

Lemma sql_active_grant_Some plugin_id credential_id scope db res :
  sql_active_grant plugin_id credential_id scope db = Some res →
  ∃ id g, db_grants db !! id = Some g ∧
    joined_grant plugin_id credential_id scope db (id, g) = Some res.
Proof.
  unfold sql_active_grant. intros Hh. apply head_Some_elem_of in Hh.
  apply list_elem_of_omap in Hh as ([id g] & Hin & Hj). apply elem_of_map_to_list in Hin. eauto.
Qed.

(** A grant in force, in the terms of the tables. *)
Record grant_in_force (db : Db) (plugin_id : PluginId) (r : CredentialRecord)
    (scope : CredentialScope) (grant : CredentialScopeGrantRecord) : Prop := {
  force_grant : ∃ t g, uuid_parse_str t = Some (scope_grant_id grant) ∧
    db_grants db !! t = Some g ∧ grant_row_revoked_at g = None ∧
    grant_row_credential_origins_hash g = origin_set_hash (record_target_origins r);
  force_fields : scope_grant_plugin_id grant = plugin_id ∧
    scope_grant_credential_id grant = record_id r ∧ scope_grant_scope grant = scope ∧
    scope_grant_revoked_at grant = None;
  force_credential : record_scope r = scope;
  force_plugin : ∃ p declared, db_plugins db !! PluginId_as_str plugin_id = Some p ∧
    plugin_row_plugin_type p = "content" ∧ plugin_row_platform_id p = record_platform_id r ∧
    plugin_row_manifest_hash p = scope_grant_manifest_hash grant ∧
    content_scope_origins (plugin_row_manifest_json p) scope = Ok (Some declared) ∧
    Forall (λ o, o ∈ record_target_origins r ∧ o ∈ declared) (scope_grant_target_origins grant);
  force_origins : scope_grant_target_origins grant ≠ [];
}.

Lemma load_credential_origins_at db r s origins s' :
  credential_at db r → store_db s = db →
  load_credential_origins (record_id r) s = (Ok origins, s') →
  origins = record_target_origins r ∧ store_db s' = db.
Proof.
  intros (_ & Ho & Hst) <- Hl. unfold load_credential_origins in Hl.
  apply act_bind_Ok in Hl as (rows & s1 & [-> Hs1]%select_Ok & [Hd ->]%pure_Ok).
  rewrite Ho, decode_origins_of in Hd by apply Hst. by injection Hd as <-.
Qed.

Lemma decode_grant_Ok id g grant :
  decode_grant id g = Ok grant →
  uuid_parse_str id = Some (scope_grant_id grant) ∧
  PluginId_as_str (scope_grant_plugin_id grant) = grant_row_plugin_id g ∧
  uuid_parse_str (grant_row_credential_id g) =
    Some (CredentialId_as_uuid (scope_grant_credential_id grant)) ∧
  CredentialScope_as_str (scope_grant_scope grant) = grant_row_scope g ∧
  scope_grant_manifest_hash grant = grant_row_manifest_hash g ∧
  (grant_row_revoked_at g = None → scope_grant_revoked_at grant = None).
Proof.
  unfold decode_grant, invalid, CredentialId_parse, CredentialId_from_uuid. intros H.
  simplify_result. split_and!; try done.
  - by apply PluginId_parse_str.
  - by apply CredentialScope_parse_str.
  - intros Hr. rewrite Hr in *. simpl in *. congruence.
Qed.

(** The rows that [active_grant] read and the checks it made on them. *)
Lemma active_grant_rows plugin_id id scope s grant s' :
  active_grant plugin_id id scope s = (Ok (Some grant), s') →
  ∃ t g p c grant0 grant_origins declared origins s1 s2,
    db_grants (store_db s) !! t = Some g ∧
    db_plugins (store_db s) !! PluginId_as_str plugin_id = Some p ∧
    db_credentials (store_db s) !! id_text id = Some c ∧
    (grant_row_plugin_id g = PluginId_as_str plugin_id ∧ grant_row_credential_id g = id_text id ∧
     grant_row_scope g = CredentialScope_as_str scope ∧ grant_row_revoked_at g = None) ∧
    (plugin_row_plugin_type p = "content" ∧
     plugin_row_platform_id p = credential_row_platform_id c ∧
     plugin_row_manifest_hash p = grant_row_manifest_hash g ∧
     credential_row_scope c = CredentialScope_as_str scope) ∧
    decode_grant t g = Ok grant0 ∧ grant = with_grant_origins grant0 grant_origins ∧
    store_db s1 = store_db s ∧
    load_credential_origins (scope_grant_credential_id grant0) s1 = (Ok origins, s2) ∧
    content_scope_origins (plugin_row_manifest_json p) (scope_grant_scope grant0) =
      Ok (Some declared) ∧
    grant_row_credential_origins_hash g = origin_set_hash origins ∧ grant_origins ≠ [] ∧
    Forall (λ o, o ∈ origins ∧ o ∈ declared) grant_origins.
Proof.
  unfold active_grant. intros Ha.
  apply transaction_Ok in Ha as (s1 & s2 & Hs1 & Ha & _).
  apply act_bind_Ok in Ha as (row & s3 & [Hrow Hs3]%select_Ok & Ha). rewrite Hs1 in *.
  destruct row as [[[t g] manifest_json]|]; [|by injection Ha].
  apply act_bind_Ok in Ha as (hash & s4 & [Hhash ->]%pure_Ok & Ha).
  apply act_bind_Ok in Ha as (grant0 & s4 & [Hdec ->]%pure_Ok & Ha).
  apply act_bind_Ok in Ha as (grant_origins & s4 & Hgo & Ha). cbv zeta in Ha.
  assert (store_db s4 = store_db s) as Hs4.
  { unfold load_grant_origins in Hgo.
    apply act_bind_Ok in Hgo as (rows & s5 & [_ Hs5]%select_Ok & [_ ->]%pure_Ok). congruence. }
  symmetry in Hrow. apply sql_active_grant_Some in Hrow as (t' & g' & Hg & Hj).
  apply joined_grant_Some in Hj
    as (p & c & Hp & Hc & [= -> -> ->] & Hgp & Hgc & Hgs & Hgr & Hpt & Hpl & Hpm & Hcs).
  cbn [with_grant_origins scope_grant_credential_id scope_grant_scope scope_grant_target_origins] in Ha.
  apply act_bind_Ok in Ha as (origins & s5 & Ho & Ha).
  apply act_bind_Ok in Ha as (declared & s6 & [Hdecl ->]%pure_Ok & Ha).
  destruct declared as [declared|]; [|by injection Ha].
  destruct (_ || _) eqn:Eb; [by injection Ha|]. destruct (outside_intersection _ _ _) eqn:Eo;
    [by injection Ha|]. injection Ha as <- <-. apply orb_false_elim in Eb as [Elen Ehash].
  assert (hash = grant_row_credential_origins_hash g') as ->
    by (clear -Hhash; unfold decode_origin_hash in Hhash; by simplify_result).
  bool_prop. apply outside_intersection_false in Eo.
  exists t', g', p, c, grant0, grant_origins, declared, origins, s4, s5.
  split_and!; try done. by intros ->.
Qed.

Lemma active_grant_force plugin_id r scope s grant s' :
  credentials_ok (store_db s) → credential_at (store_db s) r →
  active_grant plugin_id (record_id r) scope s = (Ok (Some grant), s') →
  grant_in_force (store_db s) plugin_id r scope grant.
Proof.
  intros Hok Hr Ha. apply active_grant_rows in Ha
    as (t & g & p & c & grant0 & go & declared & origins & s1 & s2 & Hg & Hp & Hc &
        (Hgp & Hgc & Hgs & Hgr) & (Hpt & Hpl & Hpm & Hcs) & Hdec & -> & Hs1 & Ho & Hdecl & Hhash &
        Hne & Hin).
  destruct (decode_grant_Ok _ _ _ Hdec) as (Hid & Hgp' & Hgc' & Hgs' & Hm & Hrev).
  assert (scope_grant_credential_id grant0 = record_id r) as Hcid.
  { rewrite Hgc in Hgc'. unfold id_text in Hgc'. rewrite uuid_roundtrip in Hgc' by apply Hr.
    destruct (record_id r), (scope_grant_credential_id grant0). simpl in Hgc'. congruence. }
  assert (scope_grant_scope grant0 = scope) as Hsc.
  { rewrite Hgs in Hgs'. destruct scope, (scope_grant_scope grant0). simpl in Hgs'. congruence. }
  rewrite Hcid in Ho. apply (load_credential_origins_at (store_db s)) in Ho as [-> _]; [|done..].
  pose proof Hr as (Hrow & _ & _). rewrite Hc in Hrow. injection Hrow as ->.
  split.
  - exists t, g. by split_and!.
  - simpl. split_and!; [|done|done|auto].
    destruct plugin_id, (scope_grant_plugin_id grant0). simpl in *. congruence.
  - simpl in Hcs. destruct (record_scope r), scope. simpl in Hcs. congruence.
  - exists p, declared. simpl. split_and!; try done; [|congruence]. by rewrite Hm.
  - done.
Qed.

(** An active grant is one for a stored credential. *)
Lemma active_grant_stored plugin_id id scope s grant s' :
  credentials_ok (store_db s) → uuid_value (CredentialId_as_uuid id) →
  active_grant plugin_id id scope s = (Ok (Some grant), s') →
  ∃ r, record_id r = id ∧ credential_at (store_db s) r ∧
    grant_in_force (store_db s) plugin_id r scope grant.
Proof.
  intros Hok Hid Ha. pose proof Ha as Hrows.
  apply active_grant_rows in Hrows as (_ & _ & _ & c & _ & _ & _ & _ & _ & _ & _ & _ & Hc & _).
  destruct (Hok _ _ Hc) as (r & Ht & Hr). apply id_text_inj in Ht; [|done|apply Hr]. subst id.
  exists r. split_and!; [done..|]. by eapply active_grant_force.
Qed.

(** C7. A grant that [active_grant] reports is in force: it is not revoked, the
    plugin is a content plugin of the credential's platform and still has the
    manifest the grant was made for, that manifest declares the scope, the
    credential has that scope and exactly the origins the grant was bound to, and
    every origin of the grant is one of the credential and one of the manifest. *)
Theorem active_grant_sound plugin_id id scope s grant s' :
  credentials_ok (store_db s) → uuid_value (CredentialId_as_uuid id) →
  active_grant plugin_id id scope s = (Ok (Some grant), s') →
  ∃ r, record_id r = id ∧ credential_at (store_db s) r ∧
    grant_in_force (store_db s) plugin_id r scope grant.
Proof. apply active_grant_stored. Qed.

(** ** A created grant is the active one *)

Record grant_typed (grant : CredentialScopeGrantRecord) : Prop := {
  grant_typed_id : uuid_value (scope_grant_id grant);
  grant_typed_plugin : PluginId_parse (PluginId_as_str (scope_grant_plugin_id grant)) =
                       Ok (scope_grant_plugin_id grant);
  grant_typed_credential : uuid_value (CredentialId_as_uuid (scope_grant_credential_id grant)) ∧
                           CredentialId_as_uuid (scope_grant_credential_id grant) ≠ 0;
  grant_typed_scope : CredentialScope_parse (CredentialScope_as_str (scope_grant_scope grant)) =
                      Ok (scope_grant_scope grant);
  grant_typed_origins :
    Forall (λ o, CredentialTargetOrigin_parse (CredentialTargetOrigin_as_str o) = Ok o)
      (scope_grant_target_origins grant);
  grant_typed_time : rfc3339_time (scope_grant_created_at grant);
}.

Definition add_grant_origins (t c : string) (l : list string) (db : Db) : Db :=
  fold_left (λ db o, set_grant_origins <[(t, o) := c]> db) l db.

Lemma insert_grant_origins_Ok id c l s s' :
  insert_grant_origins id c l s = (Ok tt, s') →
  store_db s' = add_grant_origins (uuid_to_string id) (id_text c)
                  (CredentialTargetOrigin_as_str <$> l) (store_db s).
Proof.
  unfold insert_grant_origins. revert s. induction l as [|o l IH]; intros s; cbn [act_each].
  { by intros [_ ->]%act_ret_Ok. }
  intros ([] & s1 & Hn%map_errors_Ok%statement_Ok & Hl)%act_bind_Ok. apply IH in Hl as ->.
  unfold add_grant_origins. rewrite fmap_cons. cbn [fold_left]. f_equal.
  unfold sql_insert_grant_origin in Hn. by simplify_result.
Qed.

Lemma add_grant_origins_tables t c l db :
  same_credentials db (add_grant_origins t c l db) ∧
  db_plugins (add_grant_origins t c l db) = db_plugins db ∧
  db_grants (add_grant_origins t c l db) = db_grants db.
Proof.
  revert db. induction l as [|o l IH]; intros db; [done|]. apply (IH (set_grant_origins _ db)).
Qed.

Lemma elem_of_added_origins t c l db o :
  (∀ o', db_grant_origins db !! (t, o') = None) →
  is_Some (db_grant_origins (add_grant_origins t c l db) !! (t, o)) ↔ o ∈ l.
Proof.
  intros Hnone.
  assert (∀ db, is_Some (db_grant_origins (add_grant_origins t c l db) !! (t, o)) ↔
    o ∈ l ∨ is_Some (db_grant_origins db !! (t, o))) as H.
  { clear. induction l as [|o' l IH]; intros db.
    - simpl. rewrite elem_of_nil. naive_solver.
    - unfold add_grant_origins in *. cbn [fold_left]. rewrite IH, elem_of_cons. simpl.
      destruct (decide (o = o')) as [->|Hne].
      + rewrite lookup_insert_eq. naive_solver.
      + rewrite lookup_insert_ne by congruence. naive_solver. }
  rewrite H, Hnone. split; [intros [?|[? ?]]; done|by left].
Qed.

Lemma elem_of_sql_grant_origins t db o :
  o ∈ sql_grant_origins t db ↔ is_Some (db_grant_origins db !! (t, o)).
Proof.
  unfold sql_grant_origins. rewrite elem_of_sort_by, list_elem_of_In, in_map_iff.
  setoid_rewrite filter_In. setoid_rewrite <- list_elem_of_In. split.
  - intros ([[t' o'] c] & <- & Hin%elem_of_map_to_list & He). simpl in *. bool_prop. subst. eauto.
  - intros [c Hc]. exists ((t, o), c). simpl. rewrite eqb_refl. split_and!; [done| |done].
    by apply elem_of_map_to_list.
Qed.

Lemma sql_grant_origins_strict t db :
  StronglySorted (cmp_lt String.compare) (sql_grant_origins t db).
Proof.
  apply sorted_NoDup_strict; [apply _..|apply sort_by_sorted, _|].
  unfold sql_grant_origins. rewrite sort_by_perm.
  assert (∀ l : list (string * string * string), NoDup l.*1 →
    NoDup (List.map (λ p, p.1.2) (List.filter (λ p, eqb p.1.1 t) l))) as H.
  { induction l as [|[[t' o] c] l IH]; rewrite ?fmap_cons; intros Hn; [constructor|].
    apply NoDup_cons in Hn as [Hx Hl]. simpl. destruct (eqb t' t) eqn:E; simpl; [|by apply IH].
    bool_prop. subst. constructor; [|by apply IH].
    rewrite list_elem_of_In, in_map_iff. intros ([[t' o'] c'] & Heq & Hin). simpl in *. subst o'.
    apply filter_In in Hin as [Hin E]. simpl in E. bool_prop. subst.
    apply Hx. apply list_elem_of_fmap. exists ((t, o), c'). split; [done|]. by apply list_elem_of_In. }
  apply H, NoDup_fst_map_to_list.
Qed.

Lemma sql_grant_origins_added t c l db :
  StronglySorted (cmp_lt origin_cmp) l → (∀ o, db_grant_origins db !! (t, o) = None) →
  sql_grant_origins t (add_grant_origins t c (CredentialTargetOrigin_as_str <$> l) db) =
  CredentialTargetOrigin_as_str <$> l.
Proof.
  intros Hl Hnone. apply (cmp_lt_sorted_unique String.compare);
    [apply sql_grant_origins_strict|by apply normalized_strings|].
  intros o. by rewrite elem_of_sql_grant_origins, elem_of_added_origins.
Qed.

(** What a successful [create_grant] found and left. *)
Lemma create_grant_Ok grant s s' :
  credentials_ok (store_db s) → grant_typed grant → create_grant grant s = (Ok tt, s') →
  ∃ r p declared origins db1,
    scope_grant_revoked_at grant = None ∧
    credential_at (store_db s) r ∧ record_id r = scope_grant_credential_id grant ∧
    record_scope r = scope_grant_scope grant ∧
    db_plugins (store_db s) !! PluginId_as_str (scope_grant_plugin_id grant) = Some p ∧
    plugin_row_plugin_type p = "content" ∧
    plugin_row_manifest_hash p = scope_grant_manifest_hash grant ∧
    plugin_row_platform_id p = record_platform_id r ∧
    content_scope_origins (plugin_row_manifest_json p) (scope_grant_scope grant) =
      Ok (Some declared) ∧
    normalize_origins (scope_grant_target_origins grant) = Ok origins ∧
    Forall (λ o, o ∈ record_target_origins r ∧ o ∈ declared) origins ∧
    sql_revoke_active (PluginId_as_str (scope_grant_plugin_id grant))
      (id_text (scope_grant_credential_id grant)) (CredentialScope_as_str (scope_grant_scope grant))
      (to_rfc3339 (scope_grant_created_at grant)) (store_db s) = Ok (tt, db1) ∧
    let t := uuid_to_string (scope_grant_id grant) in
    db_grants db1 !! t = None ∧
    zlen (origin_set_hash (record_target_origins r)) = 32 ∧
    store_db s' = add_grant_origins t (id_text (scope_grant_credential_id grant))
      (CredentialTargetOrigin_as_str <$> origins)
      (set_grants <[t := new_grant_row grant (record_target_origins r)]> db1).
Proof.
  intros Hok Ht Hc. unfold create_grant in Hc.
  apply act_bind_Ok in Hc as ([] & s0 & [Hval ->]%pure_Ok & Hc).
  assert (scope_grant_revoked_at grant = None) as Hnone.
  { unfold validate_grant_record in Hval. simplify_result. bool_prop.
    by destruct (scope_grant_revoked_at grant). }
  clear Hval. apply act_bind_Ok in Hc as (origins & s0 & [Hn ->]%pure_Ok & Hc).
  apply transaction_Ok in Hc as (s1 & s2 & Hs1 & Hc & Hs'). rewrite <- Hs1 in *.
  apply act_bind_Ok in Hc as (found & s3 & [-> Hs3]%select_Ok & Hc).
  apply act_bind_Ok in Hc as (p & s3' & [Hp%ok_or_Ok ->]%pure_Ok & Hc).
  destruct (_ || _) eqn:Ep; [done|]. bool_prop.
  apply act_bind_Ok in Hc as (found & s4 & [-> Hs4]%select_Ok & Hc). rewrite Hs3 in *.
  apply act_bind_Ok in Hc as (c & s4' & [Hcred%ok_or_Ok ->]%pure_Ok & Hc).
  destruct (_ || _) eqn:Ec; [done|]. bool_prop.
  destruct (Hok _ _ Hcred) as (r & Hid & Hr). pose proof Hr as (Hrow & _ & Hst).
  rewrite <- Hid, Hcred in Hrow. injection Hrow as ->.
  apply id_text_inj in Hid; [|apply Ht|apply Hst].
  apply act_bind_Ok in Hc as (co & s5 & Hco & Hc). rewrite Hid in Hco.
  apply (load_credential_origins_at (store_db s1)) in Hco as [-> Hs5]; [|done..].
  apply act_bind_Ok in Hc as (found & s6 & [Hdecl ->]%pure_Ok & Hc).
  apply act_bind_Ok in Hc as (declared & s6 & [->%ok_or_Ok ->]%pure_Ok & Hc).
  destruct (outside_intersection _ _ _) eqn:Eo; [done|]. apply outside_intersection_false in Eo.
  apply act_bind_Ok in Hc as ([] & s7 & Hrev%execute_sql_Ok & Hc). rewrite Hs5 in Hrev.
  apply act_bind_Ok in Hc as ([] & s8 & Hins%map_errors_Ok%statement_Ok & Hgo).
  apply insert_grant_origins_Ok in Hgo. unfold sql_insert_grant in Hins. simplify_result. bool_prop.
  exists r, p, declared, origins, (store_db s7). cbv zeta.
  assert (record_scope r = scope_grant_scope grant) as Hscope.
  { clear Ht Hn. destruct (record_scope r), (scope_grant_scope grant). simpl in *. congruence. }
  split_and!; try done; try congruence.
  - by destruct (db_grants (store_db s7) !! _).
Qed.

Lemma decode_new_grant grant origins :
  grant_typed grant → scope_grant_revoked_at grant = None →
  decode_grant (uuid_to_string (scope_grant_id grant)) (new_grant_row grant origins) =
  Ok (with_grant_origins grant []).
Proof.
  intros [Hid Hp [Hc Hc0] Hs _ Ht] Hr. unfold decode_grant, new_grant_row, id_text.
  cbn [grant_row_plugin_id grant_row_credential_id grant_row_scope grant_row_created_at
    grant_row_revoked_at grant_row_manifest_hash].
  rewrite uuid_roundtrip by done. cbn [ok_or mbind result_bind]. rewrite Hp.
  cbn [invalid map_err mbind result_bind]. unfold CredentialId_parse. rewrite uuid_roundtrip by done.
  cbn [ok_or mbind result_bind]. unfold CredentialId_from_uuid.
  destruct (_ =? 0) eqn:E; bool_prop; [done|]. cbn [invalid map_err mbind result_bind].
  rewrite Hs. cbn [invalid map_err mbind result_bind]. unfold store_parse_timestamp.
  rewrite rfc3339_roundtrip by done. cbn [ok_or mbind result_bind transpose_map].
  destruct grant as [? ? ? [] ? ? ? ?]. simpl in *. by subst.
Qed.

Lemma sql_active_grant_unique db plugin_id credential_id scope t g p c :
  db_wf db → db_grants db !! t = Some g →
  db_plugins db !! plugin_id = Some p → db_credentials db !! credential_id = Some c →
  grant_row_plugin_id g = plugin_id → grant_row_credential_id g = credential_id →
  grant_row_scope g = scope → grant_row_revoked_at g = None →
  plugin_row_plugin_type p = "content" → plugin_row_platform_id p = credential_row_platform_id c →
  plugin_row_manifest_hash p = grant_row_manifest_hash g → credential_row_scope c = scope →
  sql_active_grant plugin_id credential_id scope db = Some (t, g, plugin_row_manifest_json p).
Proof.
  intros Hwf Hg Hp Hc H1 H2 H3 H4 H5 H6 H7 H8.
  assert (joined_grant plugin_id credential_id scope db (t, g) = Some (t, g, plugin_row_manifest_json p))
    as Hj by (apply joined_grant_Some; exists p, c; by split_and!).
  destruct (sql_active_grant plugin_id credential_id scope db) as [res|] eqn:E.
  - apply sql_active_grant_Some in E as (t' & g' & Hg' & Hj').
    assert (t' = t) as ->.
    { apply joined_grant_Some in Hj' as (? & ? & _ & _ & _ & ? & ? & ? & ? & _).
      eapply (wf_active _ Hwf); [done..|]. apply same_active_grant_true. by split_and!; congruence. }
    congruence.
  - exfalso. unfold sql_active_grant in E. apply head_None in E.
    assert ((t, g, plugin_row_manifest_json p) ∈ []) as []%elem_of_nil. rewrite <- E.
    apply list_elem_of_omap. exists (t, g). by rewrite elem_of_map_to_list.
Qed.

(** [active_grant] on tables that hold a grant in force. *)
Lemma active_grant_quiet db grant origins r p declared :
  let t := uuid_to_string (scope_grant_id grant) in
  db_wf db → grant_typed grant → scope_grant_revoked_at grant = None → credential_at db r →
  record_id r = scope_grant_credential_id grant → record_scope r = scope_grant_scope grant →
  db_plugins db !! PluginId_as_str (scope_grant_plugin_id grant) = Some p →
  plugin_row_plugin_type p = "content" →
  plugin_row_manifest_hash p = scope_grant_manifest_hash grant →
  plugin_row_platform_id p = record_platform_id r →
  content_scope_origins (plugin_row_manifest_json p) (scope_grant_scope grant) =
    Ok (Some declared) →
  normalize_origins (scope_grant_target_origins grant) = Ok origins →
  Forall (λ o, o ∈ record_target_origins r ∧ o ∈ declared) origins →
  db_grants db !! t = Some (new_grant_row grant (record_target_origins r)) →
  zlen (origin_set_hash (record_target_origins r)) = 32 →
  sql_grant_origins t db = CredentialTargetOrigin_as_str <$> origins →
  active_grant (scope_grant_plugin_id grant) (scope_grant_credential_id grant)
    (scope_grant_scope grant) (quiet db) =
  (Ok (Some (with_grant_origins grant origins)), quiet db).
Proof.
  intros t Hwf Ht Hnone Hr Hid Hsc Hp Hpt Hpm Hpl Hd Hn Hin Hg Hlen Ho. unfold active_grant.
  pose proof Hr as (Hrow & Hto & Hst). apply stored_origins_Ok in Hn as [Hperm [Hlen' Hsort]].
  rewrite (transaction_quiet _ _ (Ok (Some (with_grant_origins grant origins))) db); [done|].
  unfold mbind, act_bind. rewrite select_quiet.
  rewrite (sql_active_grant_unique db _ _ _ t (new_grant_row grant (record_target_origins r)) p
    (row_of r)); try done; [|by rewrite <- Hid|simpl; congruence].
  change (grant_row_credential_origins_hash _) with (origin_set_hash (record_target_origins r)).
  unfold pure, decode_origin_hash. rewrite Hlen. change (32 =? ORIGIN_HASH_BYTES) with true.
  cbv iota. unfold t at 1. rewrite decode_new_grant by done.
  unfold load_grant_origins, mbind, act_bind. rewrite select_quiet.
  cbn [scope_grant_id with_grant_origins]. fold t. rewrite Ho. unfold pure.
  rewrite decode_origins_of by (rewrite Hperm; apply Ht).
  unfold load_credential_origins, mbind, act_bind. rewrite select_quiet.
  cbn [scope_grant_id scope_grant_credential_id scope_grant_scope scope_grant_target_origins
    with_grant_origins]. rewrite <- Hid, Hto. unfold pure. rewrite decode_origins_of by apply Hst.
  rewrite Hd. destruct (_ =? 0)%nat eqn:E0.
  { apply Nat.eqb_eq in E0. unfold zlen in Hlen'. lia. }
  rewrite eqb_refl. cbn [negb orb].
  assert (outside_intersection origins (record_target_origins r) declared = false) as ->
    by (by apply outside_intersection_false). done.
Qed.

(** A grant that [create_grant] accepted is from then on the one [active_grant]
    reports for its plugin, credential and scope, with its origins sorted; any
    grant that was active for them before is no longer. *)
Theorem create_grant_active grant s s' :
  db_wf (store_db s) → credentials_ok (store_db s) → grant_typed grant →
  create_grant grant s = (Ok tt, s') →
  ∃ origins, origins ≡ₚ scope_grant_target_origins grant ∧
    active_grant (scope_grant_plugin_id grant) (scope_grant_credential_id grant)
      (scope_grant_scope grant) (quiet (store_db s')) =
    (Ok (Some (with_grant_origins grant origins)), quiet (store_db s')) ∧
    ∀ t g, db_grants (store_db s') !! t = Some g → grant_row_revoked_at g = None →
      grant_row_plugin_id g = PluginId_as_str (scope_grant_plugin_id grant) →
      grant_row_credential_id g = id_text (scope_grant_credential_id grant) →
      grant_row_scope g = CredentialScope_as_str (scope_grant_scope grant) →
      t = uuid_to_string (scope_grant_id grant).
Proof.
  intros Hwf Hok Ht Hc. assert (db_wf (store_db s')) as Hwf' by (by eapply create_grant_wf).
  apply create_grant_Ok in Hc as (r & p & declared & origins & db1 & Hnone & Hr & Hid & Hsc & Hp & Hpt &
    Hpm & Hpl & Hd & Hn & Hin & Hrev & Hfree & Hlen & Hdb); [|done..].
  set (t := uuid_to_string (scope_grant_id grant)) in *.
  set (db2 := set_grants <[t := new_grant_row grant (record_target_origins r)]> db1) in *.
  destruct (add_grant_origins_tables t (id_text (scope_grant_credential_id grant))
    (CredentialTargetOrigin_as_str <$> origins) db2) as (Hsame & Hplugins & Hgrants).
  injection Hrev as <-. rewrite <- Hdb in Hsame, Hplugins, Hgrants.
  assert (db_grants (store_db s') !! t = Some (new_grant_row grant (record_target_origins r))) as Hg
    by (rewrite Hgrants; apply lookup_insert_eq).
  exists origins. split; [by apply stored_origins_Ok in Hn as [? _]|]. split.
  - eapply active_grant_quiet; try done.
    + by eapply same_credentials_at.
    + by rewrite Hplugins.
    + rewrite Hdb. apply sql_grant_origins_added.
      { by apply stored_origins_Ok in Hn as [_ [_ ?]]. }
      intros o. destruct (db_grant_origins db2 !! (t, o)) as [c|] eqn:E; [exfalso|done].
      destruct (wf_grant_origin _ Hwf t o c E) as (g & Hg' & _).
      simpl in Hfree. by rewrite lookup_fmap, Hg' in Hfree.
  - intros t' g Hg' Hr' H1 H2 H3. eapply (wf_active _ Hwf'); [done..|].
    apply same_active_grant_true. by split_and!.
Qed.
End grants.
