(* ===== verification/SqliteVault.v ===== *)
(** * The vault over the database (crates/audiodown-server/src/proxy_adapters.rs)

    The server implements the repository of the vault with the credential table,
    and the credential ports of the proxy with that vault and with the grants.
    The database is shared: before each storage call here, other tasks may run
    storage operations of their own ([core_others], one sequence per call).  A
    storage call itself is one transaction or one statement. *)

From S2P Require Import Prelude Text Domain Foreign CredentialContract CredentialSecret.
From S2P Require Import CredentialProxy Crypto Stateful Vault Database.
From S2P Require Import CredentialStore CredentialStoreFacts StorageOps StorageHistory.

Section core.
Context {U : UrlLib} {B : Encoding} {K : Codec} {J : SecretJson} {A : Aead}.
Context {V : Type} {R : VaultRuntime V}.

(** The database, what the other tasks will do to it, and everything else. *)
Record CoreState := mkCoreState {
  core_store : Store;
  core_others : list (list StorageOp);
  core_env : V;
}.

(** A storage call, after what the other tasks did. *)
Definition with_storage {E T} (m : act Store E T) : act CoreState E T := λ c,
  let before := default [] (head (core_others c)) in
  let '(r, s) := m (run_ops before (core_store c)) in
  (r, mkCoreState s (tail (core_others c)) (core_env c)).

(** A question to the rest of the state. *)
Definition ask_env {T} (f : V → T * V) (c : CoreState) : T * CoreState :=
  let '(a, v) := f (core_env c) in (a, mkCoreState (core_store c) (core_others c) v).

Global Instance core_runtime : VaultRuntime CoreState := {|
  vault_utc_now := ask_env vault_utc_now;
  new_v4 := ask_env new_v4;
  draw_nonce := ask_env draw_nonce |}.

(** ** [SqliteVaultRepository] *)

Definition map_repository_error (error : StorageError) : CredentialRepositoryError :=
  match error with
  | StorageConflict => RepositoryConflict
  | StorageNotFound => RepositoryNotFound
  | InvalidData => RepositoryInvalidRecord
  | Database | Migration => RepositoryDown
  end.

Definition record_of_stored (record : StoredCredential) : CredentialRecord := {|
  record_id := stored_id record;
  record_kind := stored_kind record;
  record_platform_id := stored_platform_id record;
  record_scope := stored_scope record;
  record_source_plugin_id := stored_source_plugin_id record;
  record_algorithm_version := envelope_algorithm_version (stored_envelope record);
  record_key_version := envelope_key_version (stored_envelope record);
  record_nonce := envelope_nonce (stored_envelope record);
  record_ciphertext := envelope_ciphertext (stored_envelope record);
  record_target_origins := stored_target_origins record;
  record_status := stored_status record;
  record_account_id_hint := stored_account_id_hint record;
  record_display_name := stored_display_name record;
  record_safe_error_summary := stored_safe_error_summary record;
  record_expires_at := stored_expires_at record;
  record_status_checked_at := stored_status_checked_at record;
  record_revision := stored_revision record;
  record_created_at := stored_created_at record;
  record_updated_at := stored_updated_at record;
|}.

(** [to_metadata] reads the clock again. *)
Definition stored_to_record (record : StoredCredential) :
    act CoreState CredentialRepositoryError CredentialRecord :=
  metadata ← query (to_metadata record);
  if negb (eqb (stored_metadata record) metadata) then throw RepositoryInvalidRecord
  else mret (record_of_stored record).

Definition record_metadata (record : CredentialRecord) : CredentialMetadata := {|
  CredentialMetadata_id := record_id record;
  CredentialMetadata_kind := record_kind record;
  CredentialMetadata_platform_id := record_platform_id record;
  CredentialMetadata_scope := record_scope record;
  CredentialMetadata_ownership := ownership_of (record_source_plugin_id record);
  CredentialMetadata_target_origins := record_target_origins record;
  CredentialMetadata_account_id_hint := record_account_id_hint record;
  CredentialMetadata_display_name := record_display_name record;
  CredentialMetadata_status := record_status record;
  CredentialMetadata_safe_error_summary := record_safe_error_summary record;
  CredentialMetadata_expires_at := record_expires_at record;
  CredentialMetadata_status_checked_at := record_status_checked_at record;
  CredentialMetadata_created_at := record_created_at record;
  CredentialMetadata_updated_at := record_updated_at record;
  CredentialMetadata_revision := record_revision record;
|}.

(** Its [Result] is always [Ok]. *)
Definition record_to_stored (record : CredentialRecord) : StoredCredential := {|
  stored_metadata := record_metadata record;
  stored_id := record_id record;
  stored_kind := record_kind record;
  stored_platform_id := record_platform_id record;
  stored_scope := record_scope record;
  stored_source_plugin_id := record_source_plugin_id record;
  stored_target_origins := record_target_origins record;
  stored_account_id_hint := record_account_id_hint record;
  stored_display_name := record_display_name record;
  stored_status := record_status record;
  stored_safe_error_summary := record_safe_error_summary record;
  stored_expires_at := record_expires_at record;
  stored_status_checked_at := record_status_checked_at record;
  stored_created_at := record_created_at record;
  stored_updated_at := record_updated_at record;
  stored_revision := record_revision record;
  stored_envelope := mkEncryptedEnvelope (record_algorithm_version record)
    (record_key_version record) (record_nonce record) (record_ciphertext record);
|}.

Definition repository_call {T} (m : act Store StorageError T) :
    act CoreState CredentialRepositoryError T :=
  map_errors map_repository_error (with_storage m).

Definition sqlite_insert (record : StoredCredential) :
    act CoreState CredentialRepositoryError unit :=
  record ← stored_to_record record; repository_call (CredentialStore.insert record).

Definition sqlite_update (record : StoredCredential) (expected_revision : Z) :
    act CoreState CredentialRepositoryError Z :=
  if negb (stored_revision record =? expected_revision) then throw RepositoryConflict
  else record ← stored_to_record record; repository_call (CredentialStore.update record).

Definition sqlite_get (credential_id : CredentialId) :
    act CoreState CredentialRepositoryError (option StoredCredential) :=
  record ← repository_call (CredentialStore.get credential_id);
  mret (record_to_stored <$> record).

Definition sqlite_list : act CoreState CredentialRepositoryError (list StoredCredential) :=
  records ← repository_call CredentialStore.list_credentials;
  mret (record_to_stored <$> records).

Definition sqlite_delete (credential_id : CredentialId) :
    act CoreState CredentialRepositoryError unit :=
  repository_call (CredentialStore.delete_credential credential_id).

(** The storage call reads the clock for the time of the change. *)
Definition sqlite_clear_source_plugin (credential_id : CredentialId) :
    act CoreState CredentialRepositoryError unit :=
  now ← query vault_utc_now;
  repository_call (CredentialStore.clear_source_plugin now credential_id).

Global Instance SqliteVaultRepository : CredentialRepository CoreState := {|
  repository_insert := sqlite_insert;
  repository_update := sqlite_update;
  repository_get := sqlite_get;
  repository_list := sqlite_list;
  repository_delete := sqlite_delete;
  repository_clear_source_plugin := sqlite_clear_source_plugin |}.

(** ** [SqliteCredentialVaultPort] and [SqliteCredentialGrantPort] *)

Definition map_vault_error (error : VaultError) : CredentialPortError :=
  match error with
  | VaultNotFound => PortNotFound
  | VaultConflict => PortConflict
  | VaultExpired => PortExpired
  | VaultRevoked => PortRevoked
  | VaultInvalidRequest | VaultRepositoryUnavailable | VaultCrypto | VaultSecretPayload =>
      PortUnavailable
  end.

Context (master_key : MasterKey).

Definition sqlite_open_current (credential_id : CredentialId) :
    act CoreState CredentialPortError (option OpenedCredential) :=
  found ← map_errors map_vault_error (metadata_get credential_id);
  match found with
  | None => mret None
  | Some before =>
      secret ← map_errors map_vault_error (secrets_open master_key credential_id);
      found ← map_errors map_vault_error (metadata_get credential_id);
      after ← pure (ok_or found PortNotFound);
      if negb (eqb before after) then throw PortConflict
      else mret (Some (mkOpenedCredential after secret))
  end.

Definition sqlite_replace_cookie (request : CredentialUpdateRequest)
    (secret : CookieCredentialSecret) : act CoreState CredentialPortError CredentialMetadata :=
  record ← map_errors map_vault_error (update_cookie master_key request secret);
  mret (stored_metadata record).

Definition sqlite_active_grant (plugin_id : PluginId) (credential_id : CredentialId)
    (scope : CredentialScope) : act CoreState CredentialPortError (option ActiveGrantSnapshot) :=
  grant ← map_errors (λ _, PortUnavailable)
            (with_storage (CredentialStore.active_grant plugin_id credential_id scope));
  mret ((λ grant, mkActiveGrantSnapshot (scope_grant_plugin_id grant)
           (scope_grant_manifest_hash grant) (scope_grant_credential_id grant)
           (scope_grant_scope grant) (scope_grant_target_origins grant)) <$> grant).
End core.

Arguments CoreState {K} V : assert.

(** * Facts of the vault over the shared database

    How a credential moves while the ports run, and what [open_current] answers:
    the metadata and the secret of one stored record, although it reads the
    database three times and other tasks write in between. *)

Section props.
Context {U : UrlLib} {B : Encoding} {K : Codec} `{!CodecLaws K} {J : SecretJson} {A : Aead}.
Context {V : Type} {R : VaultRuntime V}.
Implicit Types c : CoreState V.

Definition core_db c : Db := store_db (core_store c).

(** The stored credentials are well formed, and the other tasks call storage
    with well-typed arguments and do not create the credential [id] anew. *)
Definition core_ok (id : CredentialId) c : Prop :=
  credentials_ok (core_db c) ∧
  Forall (Forall (λ op, op_typed op ∧ ¬ creates op id)) (core_others c).

Definition core_later (id : CredentialId) : relation (CoreState V) := λ c c',
  core_ok id c → core_ok id c' ∧ evolves id (core_db c) (core_db c').

Section one_credential.
Context (id : CredentialId) (Hid : uuid_value (CredentialId_as_uuid id)).

Global Instance core_later_preorder : PreOrder (core_later id).
Proof.
  split; [intros c Hc; split; [done|apply evolves_refl]|].
  intros c1 c2 c3 H12 H23 H1. destruct (H12 H1) as [H2 He12], (H23 H2) as [H3 He23].
  split; [done|]. apply (evolves_trans id _ (core_db c2)); [apply H2|done..].
Qed.

(** What the other tasks do before a storage call. *)
Definition interrupted c : Store := run_ops (default [] (head (core_others c))) (core_store c).

Lemma interrupted_later c :
  core_ok id c →
  credentials_ok (store_db (interrupted c)) ∧ evolves id (core_db c) (store_db (interrupted c)).
Proof.
  intros [Hok Hothers]. unfold interrupted.
  assert (Forall (λ op, op_typed op ∧ ¬ creates op id) (default [] (head (core_others c)))) as Hops.
  { destruct Hothers; [constructor|done]. }
  apply Forall_and in Hops as [Ht Hc].
  split; [by apply run_ops_credentials_ok|by apply run_ops_evolves].
Qed.

Lemma with_storage_run {E T} (m : act Store E T) c :
  with_storage m c =
  ((m (interrupted c)).1,
   mkCoreState (m (interrupted c)).2 (tail (core_others c)) (core_env c)).
Proof. unfold with_storage, interrupted. by destruct (m _). Qed.

Lemma with_storage_reads {E T} (m : act Store E T) c r c' :
  reads_only m → with_storage m c = (r, c') →
  core_later id c c' ∧ (m (interrupted c)).1 = r ∧ core_db c' = store_db (interrupted c).
Proof.
  intros Hm. rewrite with_storage_run. intros [= <- <-].
  assert (store_db (m (interrupted c)).2 = store_db (interrupted c)) as Hdb.
  { destruct (m (interrupted c)) as [a s] eqn:E'. by apply Hm in E'. }
  split_and!; [|done|done]. intros Hc. destruct (interrupted_later c Hc) as [Hok He].
  unfold core_ok, core_db in *. cbn [core_store core_others]. rewrite Hdb.
  split; [split; [done|]|done]. destruct Hc as [_ Hothers].
  by destruct Hothers; [constructor|].
Qed.

Lemma ask_env_db {T} (f : V → T * V) c a c' :
  ask_env f c = (a, c') → core_store c' = core_store c ∧ core_others c' = core_others c.
Proof. unfold ask_env. destruct (f _). by intros [= _ <-]. Qed.

Lemma ask_env_later {T} (f : V → T * V) c a c' :
  ask_env f c = (a, c') → core_later id c c' ∧ core_db c' = core_db c.
Proof.
  intros [Hs Ho]%ask_env_db. unfold core_later, core_ok, core_db. rewrite Hs, Ho.
  split; [|done]. intros Hc. split; [done|apply evolves_refl].
Qed.

(** ** Reading a credential *)

Lemma sqlite_get_Ok c found c' :
  core_ok id c → sqlite_get id c = (Ok found, c') →
  core_later id c c' ∧
  match found with
  | Some stored => ∃ r, stored = record_to_stored r ∧ record_id r = id ∧
      credential_at (core_db c') r ∧ record_revision r ≤ i64_max
  | None => db_credentials (core_db c') !! id_text id = None
  end.
Proof.
  intros Hc Hg. unfold sqlite_get, repository_call in Hg.
  apply act_bind_Ok in Hg as (found' & c1 & Hg%map_errors_Ok & [-> ->]%act_ret_Ok).
  destruct (with_storage_reads _ _ _ _ (reads_only_get id) Hg) as (Hl & Hr & Hdb).
  split; [done|]. destruct (interrupted_later c Hc) as [Hok _].
  destruct (get id (interrupted c)) as [res s] eqn:E. simpl in Hr. subst res.
  apply get_cases in E as [_ E]; [|done..]. rewrite Hdb. destruct found' as [r|]; [|done].
  exists r. naive_solver.
Qed.

Lemma status_with_expiry_cases status expires_at c status' c' :
  status_with_expiry status expires_at c = (status', c') →
  core_later id c c' ∧ core_db c' = core_db c ∧
  (status' = status ∨ status = Active ∧ status' = Expired ∧ is_Some expires_at).
Proof.
  unfold status_with_expiry. destruct (eqb status Active) eqn:Es; [|intros [= <- <-]].
  2: { split_and!; [reflexivity|done|by left]. }
  bool_prop. subst. destruct expires_at as [t|]; [|intros [= <- <-]].
  2: { split_and!; [reflexivity|done|by left]. }
  destruct (vault_utc_now c) as [now c1] eqn:En. apply ask_env_later in En as [Hl Hdb].
  intros [= <- <-]. split_and!; [done|done|]. destruct (t <=? now); [right|by left]. eauto.
Qed.

(** The metadata of [r] at some moment: its status may have turned to expired. *)
Definition metadata_of (r : CredentialRecord) (metadata : CredentialMetadata) : Prop :=
  ∃ status, metadata = metadata_with_status (record_to_stored r) status ∧
    (status = record_status r ∨
     record_status r = Active ∧ status = Expired ∧ is_Some (record_expires_at r)).

Lemma metadata_get_Ok c found c' :
  core_ok id c → metadata_get id c = (Ok found, c') →
  core_later id c c' ∧
  match found with
  | Some metadata => ∃ r, metadata_of r metadata ∧ record_id r = id ∧
      credential_at (core_db c') r ∧ record_revision r ≤ i64_max
  | None => db_credentials (core_db c') !! id_text id = None
  end.
Proof.
  intros Hc Hg. unfold metadata_get in Hg.
  apply act_bind_Ok in Hg as (stored & c1 & Hg%map_errors_Ok & Hm).
  apply sqlite_get_Ok in Hg as [Hl Hg]; [|done]. destruct stored as [stored|].
  2: { apply act_ret_Ok in Hm as [-> ->]. done. }
  destruct Hg as (r & -> & Hr).
  apply act_bind_Ok in Hm as (metadata & c2 & Hm & [-> ->]%act_ret_Ok).
  apply query_inv in Hm. unfold to_metadata in Hm. destruct (status_with_expiry _ _ c1) as [status c3] eqn:Es.
  injection Hm as <- <-. apply status_with_expiry_cases in Es as (Hl' & Hdb & Hs).
  split; [by etrans|]. exists r. rewrite Hdb. split; [|done]. exists status. split; [done|]. done.
Qed.

Lemma secrets_open_Ok master_key c secret c' :
  core_ok id c → secrets_open master_key id c = (Ok secret, c') →
  core_later id c c' ∧
  ∃ r, open_record master_key (record_to_stored r) = Ok secret ∧ record_id r = id ∧
    credential_at (core_db c') r ∧ record_revision r ≤ i64_max ∧
    record_status r ≠ Revoked ∧ record_status r ≠ Expired.
Proof.
  intros Hc Ho. unfold secrets_open in Ho.
  apply act_bind_Ok in Ho as (stored & c1 & Hg%map_errors_Ok & Ho).
  apply sqlite_get_Ok in Hg as [Hl Hg]; [|done].
  apply act_bind_Ok in Ho as (record & c2 & [->%ok_or_Ok ->]%pure_Ok & Ho).
  destruct Hg as (r & -> & Hrid & Hr & Hmax).
  apply act_bind_Ok in Ho as (status & c3 & Hs & Ho).
  apply query_inv, status_with_expiry_cases in Hs as (Hl' & Hdb & Hs).
  destruct (eqb status Expired) eqn:Ee; [done|]. destruct (eqb _ Revoked) eqn:Er; [done|].
  apply pure_Ok in Ho as [Ho ->]. bool_prop. split; [by etrans|]. exists r. rewrite Hdb.
  split_and!; [done..|]. intros Hx. naive_solver.
Qed.

(** ** Computations that only read the database *)

Definition core_reads {E T} (m : act (CoreState V) E T) : Prop :=
  ∀ c r c', m c = (r, c') → core_later id c c'.

Lemma core_reads_storage {E T} (m : act Store E T) : reads_only m → core_reads (with_storage m).
Proof. intros Hm c r c' Hw. by apply (with_storage_reads m c r c' Hm). Qed.
Lemma core_reads_query {E T} (f : V → T * V) : core_reads (query (ask_env f) : act _ E T).
Proof.
  intros c r c'. unfold query. destruct (ask_env f c) as [a c1] eqn:E'. intros [= _ <-].
  by apply ask_env_later in E' as [? _].
Qed.
Lemma core_reads_status {E} status expires_at :
  core_reads (query (status_with_expiry status expires_at) : act (CoreState V) E _).
Proof.
  intros c r c'. unfold query. destruct (status_with_expiry _ _ c) as [a c1] eqn:E'.
  intros [= _ <-]. by apply status_with_expiry_cases in E' as (? & _).
Qed.
Lemma core_reads_metadata {E} record :
  core_reads (query (to_metadata record) : act (CoreState V) E _).
Proof.
  intros c r c'. unfold query, to_metadata. destruct (status_with_expiry _ _ c) as [a c1] eqn:E'.
  intros [= _ <-]. by apply status_with_expiry_cases in E' as (? & _).
Qed.
Lemma core_reads_pure {E T} (r : result E T) : core_reads (pure r).
Proof. intros c r' c' [= _ <-]. reflexivity. Qed.
Lemma core_reads_ret {E T} (a : T) : core_reads (mret a : act _ E T).
Proof. intros c r' c' [= _ <-]. reflexivity. Qed.
Lemma core_reads_throw {E T} (e : E) : core_reads (throw e : act _ E T).
Proof. intros c r' c' [= _ <-]. reflexivity. Qed.
Lemma core_reads_map_errors {E F T} (g : E → F) (m : act (CoreState V) E T) :
  core_reads m → core_reads (map_errors g m).
Proof.
  intros Hm c r c'. unfold map_errors. destruct (m c) as [r' c1] eqn:E'. intros [= _ <-].
  by eapply Hm.
Qed.
Lemma core_reads_bind {E T1 T2} (m : act (CoreState V) E T1) (f : T1 → act (CoreState V) E T2) :
  core_reads m → (∀ a, core_reads (f a)) → core_reads (m ≫= f).
Proof.
  intros Hm Hf c r c'. unfold mbind, act_bind. destruct (m c) as [[a|e] c1] eqn:E'; intros H.
  - etrans; [by eapply Hm|by eapply Hf].
  - injection H as _ <-. by eapply Hm.
Qed.

End one_credential.

End props.

Ltac core_reads :=
  repeat match goal with
  | |- core_reads _ (_ ≫= _) => apply core_reads_bind; [done| |intros ?]
  | |- core_reads _ (pure _) => apply core_reads_pure; done
  | |- core_reads _ (mret _) => apply core_reads_ret; done
  | |- core_reads _ (throw _) => apply core_reads_throw; done
  | |- core_reads _ (map_errors _ _) => apply core_reads_map_errors
  | |- core_reads _ (query (status_with_expiry _ _)) => apply core_reads_status; done
  | |- core_reads _ (query (to_metadata _)) => apply core_reads_metadata; done
  | |- core_reads _ (with_storage _) => apply core_reads_storage; [done|]
  | |- core_reads _ (if ?b then _ else _) => destruct b
  | |- core_reads _ (match ?x with _ => _ end) => destruct x
  end.

Section opening.
Context {U : UrlLib} {B : Encoding} {K : Codec} `{!CodecLaws K} {J : SecretJson} {A : Aead}.
Context {V : Type} {R : VaultRuntime V}.
Implicit Types c : CoreState V.

Lemma core_reads_open master_key id id' :
  uuid_value (CredentialId_as_uuid id) → core_reads id (sqlite_open_current master_key id').
Proof.
  intros Hid. unfold sqlite_open_current, metadata_get, secrets_open. cbn [repository_get SqliteVaultRepository].
  unfold sqlite_get, repository_call. core_reads; apply reads_only_get.
Qed.

(** Two reads of the same revision read the same record. *)
Lemma evolves_same id db db' r r' :
  evolves id db db' → credential_at db r → credential_at db' r' → record_id r = id →
  record_id r' = id → record_revision r ≤ i64_max → record_revision r' ≤ record_revision r →
  r = r'.
Proof. intros [_ He] Hr Hr' Hi Hi' Hmax Hle. destruct (He r r') as [? Heq]; [done..|]. apply Heq; lia. Qed.

Lemma open_current_record master_key id c opened c' :
  uuid_value (CredentialId_as_uuid id) → core_ok id c →
  sqlite_open_current master_key id c = (Ok (Some opened), c') →
  ∃ r, record_id r = id ∧ credential_at (core_db c') r ∧
    metadata_of r (opened_metadata opened) ∧
    open_record master_key (record_to_stored r) = Ok (opened_secret opened) ∧
    record_status r ≠ Revoked ∧ record_status r ≠ Expired.
Proof.
  intros Hid Hc Ho. unfold sqlite_open_current in Ho.
  apply act_bind_Ok in Ho as (before & c1 & Hb%map_errors_Ok & Ho).
  apply metadata_get_Ok in Hb as [Hl1 Hb]; [|done..]. destruct before as [before|].
  2: { by apply act_ret_Ok in Ho as [? _]. }
  destruct Hb as (r1 & Hm1 & Hid1 & Hr1 & Hmax1). destruct (Hl1 Hc) as [Hc1 _].
  apply act_bind_Ok in Ho as (secret & c2 & Hs%map_errors_Ok & Ho).
  apply secrets_open_Ok in Hs as (Hl2 & r2 & Hs & Hid2 & Hr2 & Hmax2 & Hst); [|done..].
  destruct (Hl2 Hc1) as [Hc2 He12].
  apply act_bind_Ok in Ho as (found & c3 & Ha%map_errors_Ok & Ho).
  apply metadata_get_Ok in Ha as [Hl3 Ha]; [|done..].
  apply act_bind_Ok in Ho as (after & c4 & [->%ok_or_Ok ->]%pure_Ok & Ho).
  destruct Ha as (r3 & Hm3 & Hid3 & Hr3 & Hmax3). destruct (Hl3 Hc2) as [Hc3 He23].
  destruct (negb _) eqn:Eq; [done|]. apply act_ret_Ok in Ho as [[= ->] ->]. bool_prop. subst before.
  assert (record_revision r1 = record_revision r3) as Hrev.
  { destruct Hm1 as (st1 & -> & _), Hm3 as (st3 & Heq & _).
    by apply (f_equal CredentialMetadata_revision) in Heq. }
  pose proof He12 as [_ He12']. destruct (He12' r1 r2) as [Hle12 _]; [done..|].
  pose proof He23 as [_ He23']. destruct (He23' r2 r3) as [Hle23 _]; [done..|].
  assert (r2 = r3) as <- by (apply (evolves_same id (core_db c2) (core_db c3)); done || lia).
  exists r2. naive_solver.
Qed.

(** The metadata and the secret that [open_current] answers with belong to one
    record, the one stored under the identifier when it returns, and that record
    was neither revoked nor marked expired; other tasks may have written to the
    database between the three reads. *)
Theorem open_current_coherent master_key id c opened c' :
  uuid_value (CredentialId_as_uuid id) → core_ok id c →
  sqlite_open_current master_key id c = (Ok (Some opened), c') →
  ∃ r, record_id r = id ∧ credential_at (core_db c') r ∧
    metadata_of r (opened_metadata opened) ∧
    open_record master_key (record_to_stored r) = Ok (opened_secret opened) ∧
    record_status r ≠ Revoked ∧ record_status r ≠ Expired.
Proof. apply open_current_record. Qed.
End opening.
