(* ===== verification/VaultProps.v ===== *)
(** * What the vault stores it can open

    Creating or updating a credential through the vault leaves in the database a
    record whose envelope opens, under the same master key, to the secret that
    was given. *)

From S2P Require Import Prelude Stateful Text Domain Foreign CredentialContract CredentialSecret.
From S2P Require Import Crypto Vault Database CredentialStore CredentialStoreFacts.
From S2P Require Import CredentialStoreProps StorageOps StorageHistory CredentialProxy SqliteVault.
From S2P Require Import SqliteVault.

Definition input_kind (secret : SecretInput) : CredentialKind :=
  match secret with InputCookie _ => Cookie | InputToken _ => Token end.
Definition guard_of (secret : SecretInput) : CredentialSecretGuard :=
  mkCredentialSecretGuard
    match secret with InputCookie s => SecretCookie s | InputToken s => SecretToken s end.
Definition input_ok (secret : SecretInput) : Prop :=
  match secret with
  | InputCookie s => cookie_secret_ok s
  | InputToken s => 1 ≤ str_len (TokenCredentialSecret_value s) ≤ MAX_TOKEN_BYTES
  end.

(** Identifiers have 128 bits, the clock shows a year of four digits, and nonces
    have twelve bytes. *)
Class VaultRuntimeLaws {V} (R : VaultRuntime V) : Prop := {
  runtime_uuid v : uuid_value (new_v4 v).1;
  runtime_now v : rfc3339_time (vault_utc_now v).1;
  runtime_nonce v nonce : (draw_nonce v).1 = Some nonce → zlen nonce = 12;
}.

Section vault_props.
Context {U : UrlLib} {B : Encoding} {K : Codec} `{!CodecLaws K} {J : SecretJson} `{!SecretJsonLaws J}.
Context {A : Aead} `{!AeadLaws A} {V : Type} {R : VaultRuntime V} `{!VaultRuntimeLaws R}.
Context (master_key : MasterKey).
Implicit Types c : CoreState V.

(** What the parsers guarantee of a request; an update also has such times. *)
Definition origins_typed (origins : list CredentialTargetOrigin) : Prop :=
  Forall (λ o, CredentialTargetOrigin_parse (CredentialTargetOrigin_as_str o) = Ok o) origins.
(** A time, if there is one, in the years 0 to 9999; the program does not check
    it. *)
Definition dated (t : option time) : Prop := ∀ t', t = Some t' → rfc3339_time t'.

Record create_typed (request : CredentialCreateRequest) : Prop := {
  create_scope : CredentialScope_parse
    (CredentialScope_as_str (CredentialCreateRequest_scope request)) =
    Ok (CredentialCreateRequest_scope request);
  create_source p : CredentialCreateRequest_source_plugin_id request = Some p →
    PluginId_parse (PluginId_as_str p) = Ok p;
  create_origins : origins_typed (CredentialCreateRequest_target_origins request);
}.
Record update_typed (request : CredentialUpdateRequest) : Prop := {
  update_id : uuid_value (CredentialId_as_uuid (CredentialUpdateRequest_credential_id request));
  update_origins : origins_typed (CredentialUpdateRequest_target_origins request);
  update_times : dated (CredentialUpdateRequest_expires_at request) ∧
    dated (CredentialUpdateRequest_status_checked_at request);
}.

(** ** Sealing and opening *)

Lemma encode_decode secret plaintext :
  input_ok secret → encode_input secret = Ok plaintext →
  decode_secret (input_kind secret) plaintext = Ok (guard_of secret).
Proof.
  destruct secret; simpl; intros Hok He;
    [by apply decode_encode_cookie|by apply decode_encode_token].
Qed.

Lemma encrypt_secret_Ok id scope secret c envelope c' :
  input_ok secret → encrypt_secret master_key id scope secret c = (Ok envelope, c') →
  core_store c' = core_store c ∧ core_others c' = core_others c ∧
  envelope_algorithm_version envelope = ALGORITHM_VERSION ∧
  envelope_key_version envelope = CURRENT_KEY_VERSION ∧ zlen (envelope_nonce envelope) = 12 ∧
  ∀ record, stored_id record = id → stored_scope record = scope →
    stored_kind record = input_kind secret → stored_envelope record = envelope →
    open_record master_key record = Ok (guard_of secret).
Proof.
  intros Hok He. unfold encrypt_secret in He.
  apply act_bind_Ok in He as (plaintext & c1 & [Hp%map_err_Ok ->]%pure_Ok & He).
  apply act_bind_Ok in He as (drawn & c2 & Hd & [He%map_err_Ok ->]%pure_Ok).
  apply query_inv in Hd. cbn [draw_nonce core_runtime] in Hd.
  pose proof Hd as [Hs Ho]%ask_env_db. split; [done|]. split; [done|].
  apply encrypt_Ok in He as (nonce & -> & He).
  assert (zlen nonce = 12) as Hn.
  { apply (runtime_nonce (core_env c)). unfold ask_env in Hd. by destruct (draw_nonce _); simplify_eq/=. }
  assert (envelope_nonce envelope = nonce ∧ envelope_algorithm_version envelope = ALGORITHM_VERSION ∧
    envelope_key_version envelope = CURRENT_KEY_VERSION) as (Hen & Hea & Hek).
  { unfold encrypt_with_nonce in He. by simplify_result. }
  split_and!; [done|done|by rewrite Hen|].
  intros record <- <- Hkind <-. unfold open_record. rewrite Hek.
  rewrite <- Hen in He. apply decrypt_encrypt in He. rewrite He. simpl. rewrite Hkind.
  by rewrite (encode_decode secret plaintext).
Qed.

(** ** Through the repository *)

Lemma status_with_expiry_store status expires_at c status' c' :
  status_with_expiry status expires_at c = (status', c') →
  core_store c' = core_store c ∧ core_others c' = core_others c.
Proof.
  unfold status_with_expiry. destruct (eqb _ _); [|by intros [= _ <-]].
  destruct expires_at; [|by intros [= _ <-]]. destruct (vault_utc_now c) as [now c1] eqn:En.
  apply ask_env_db in En. by intros [= _ <-].
Qed.

Lemma stored_to_record_Ok record c r c' :
  stored_to_record record c = (Ok r, c') →
  r = record_of_stored record ∧ core_store c' = core_store c ∧ core_others c' = core_others c.
Proof.
  unfold stored_to_record. intros Hs. apply act_bind_Ok in Hs as (metadata & c1 & Hm & Hs).
  apply query_inv in Hm. unfold to_metadata in Hm.
  destruct (status_with_expiry _ _ c) as [status c2] eqn:Es. injection Hm as <- <-.
  apply status_with_expiry_store in Es. destruct (negb _); [done|].
  by apply act_ret_Ok in Hs as [-> ->].
Qed.

Lemma sqlite_insert_Ok record c c' :
  record_typed (record_of_stored record) → sqlite_insert record c = (Ok tt, c') →
  ∃ r origins, r = restamp (record_of_stored record) 1 (stored_created_at record) origins ∧
    origins ≡ₚ stored_target_origins record ∧ credential_at (core_db c') r.
Proof.
  intros Ht Hi. unfold sqlite_insert in Hi.
  apply act_bind_Ok in Hi as (r & c1 & (-> & Hs & Ho)%stored_to_record_Ok & Hi%map_errors_Ok).
  rewrite with_storage_run in Hi. injection Hi as Hr <-.
  destruct (insert _ (interrupted c1)) as [res s] eqn:E. simpl in Hr. subst res.
  apply insert_Ok in E as (origins & Hn & _ & _ & _ & Hst & Hdb); [|done].
  do 2 eexists. split; [done|]. split; [by apply stored_origins_Ok in Hn as [? _]|].
  unfold core_db. simpl. rewrite Hdb. by apply credential_at_write.
Qed.

Lemma CredentialId_from_uuid_Ok u id :
  CredentialId_from_uuid u = Ok id → CredentialId_as_uuid id = u ∧ u ≠ 0.
Proof. unfold CredentialId_from_uuid. intros Hc. simplify_result. bool_prop. done. Qed.

Lemma ask_env_value {T} (f : V → T * V) c a c' : ask_env f c = (a, c') → a = (f (core_env c)).1.
Proof. unfold ask_env. by destruct (f _); intros [= <- _]. Qed.

Lemma new_record_typed request id kind status now envelope :
  create_typed request → dated (CredentialCreateRequest_expires_at request) →
  uuid_value (CredentialId_as_uuid id) → CredentialId_as_uuid id ≠ 0 →
  rfc3339_time now → envelope_algorithm_version envelope = ALGORITHM_VERSION →
  envelope_key_version envelope = CURRENT_KEY_VERSION → zlen (envelope_nonce envelope) = 12 →
  record_typed (record_of_stored (new_record request (new_metadata request id kind status now) now
    envelope)).
Proof.
  intros Ht Hd Hid Hnz Hnow Ha Hk Hn.
  split; cbn [record_of_stored record_id record_scope record_source_plugin_id
    record_algorithm_version record_key_version record_nonce record_target_origins
    record_created_at record_updated_at record_expires_at record_status_checked_at record_revision
    new_record stored_id stored_scope stored_source_plugin_id stored_target_origins
    stored_envelope stored_created_at stored_updated_at stored_expires_at stored_status_checked_at
    stored_revision new_metadata CredentialMetadata_id CredentialMetadata_expires_at
    CredentialMetadata_status_checked_at].
  - done.
  - apply Ht.
  - apply Ht.
  - rewrite Ha. unfold ALGORITHM_VERSION. lia.
  - rewrite Hk. unfold CURRENT_KEY_VERSION. lia.
  - done.
  - apply Ht.
  - split_and!; [done|done|apply Hd|]. by intros t [= <-].
  - done.
Qed.

(** C8. A credential created through the vault with no expiry or one in the years
    0 to 9999 is stored at revision one under the new identifier, with the
    request's kind, scope and origins, and opening that record under the same
    master key gives back the secret.  (The vault does not check the year; a later
    expiry is stored and can then not be read.) *)
Theorem vault_create_opens request secret c record c' :
  create_typed request → dated (CredentialCreateRequest_expires_at request) → input_ok secret →
  vault_create master_key request (input_kind secret) secret c = (Ok record, c') →
  ∃ r, record_id r = stored_id record ∧ credential_at (core_db c') r ∧ record_revision r = 1 ∧
    record_scope r = CredentialCreateRequest_scope request ∧ record_kind r = input_kind secret ∧
    record_target_origins r ≡ₚ CredentialCreateRequest_target_origins request ∧
    open_record master_key (record_to_stored r) = Ok (guard_of secret).
Proof.
  intros Ht Hd Hok Hc. unfold vault_create in Hc.
  apply act_bind_Ok in Hc as (? & ? & [_ ->]%pure_Ok & Hc).
  apply act_bind_Ok in Hc as (? & ? & [_ ->]%pure_Ok & Hc).
  apply act_bind_Ok in Hc as (uuid & c1 & Hu%query_inv & Hc).
  apply act_bind_Ok in Hc as (id & c2 & [Hid%map_err_Ok ->]%pure_Ok & Hc).
  apply act_bind_Ok in Hc as (now & c3 & Hnow%query_inv & Hc).
  apply act_bind_Ok in Hc as (envelope & c4 & He & Hc).
  apply encrypt_secret_Ok in He as (_ & _ & Ha & Hk & Hn & Hopen); [|done].
  apply act_bind_Ok in Hc as (status & c5 & Hs%query_inv & Hc). cbv zeta in Hc.
  apply act_bind_Ok in Hc as ([] & c6 & Hi%map_errors_Ok & [-> ->]%act_ret_Ok).
  apply ask_env_value in Hu, Hnow. apply CredentialId_from_uuid_Ok in Hid as [Hid Hnz].
  apply sqlite_insert_Ok in Hi as (r & origins & -> & Hp & Hat).
  2: { apply new_record_typed; try done; [|by rewrite Hid|].
       - rewrite Hid, Hu. apply runtime_uuid.
       - rewrite Hnow. apply runtime_now. }
  eexists. split; [|split; [exact Hat|]]; [done|]. split_and!; try done. apply Hopen; try done.
  by destruct envelope.
Qed.

Lemma sqlite_update_Ok id record expected c n c' :
  uuid_value (CredentialId_as_uuid id) → core_ok id c → stored_id record = id →
  record_typed (record_of_stored record) → sqlite_update record expected c = (Ok n, c') →
  stored_revision record = expected ∧ n = expected + 1 ∧
  ∃ db old origins, evolves id (core_db c) db ∧ credential_at db old ∧ record_id old = id ∧
    record_revision old = expected ∧ origins ≡ₚ stored_target_origins record ∧
    credential_at (core_db c') (restamp (record_of_stored record) n (record_created_at old) origins).
Proof.
  intros Huuid Hok Hid Ht Hu. unfold sqlite_update in Hu.
  destruct (negb _) eqn:Erev; [done|]. bool_prop. split; [done|].
  apply act_bind_Ok in Hu as (r & c1 & (-> & Hs & Ho)%stored_to_record_Ok & Hu%map_errors_Ok).
  assert (core_ok id c1 ∧ core_db c1 = core_db c) as [Hok1 Hdb].
  { unfold core_ok, core_db in *. by rewrite Hs, Ho. }
  rewrite with_storage_run in Hu. injection Hu as Hr <-.
  destruct (interrupted_later id Huuid c1 Hok1) as [Hcok He]. rewrite Hdb in He.
  destruct (update _ (interrupted c1)) as [res s] eqn:E. simpl in Hr. subst res.
  apply update_cases in E as (-> & old & Hold & Hoid & Horev & origins & Hp & Hst & Hdb'); [|done..].
  simpl in Hoid, Horev. split; [simpl; congruence|].
  exists (store_db (interrupted c1)), old, origins. split_and!; try done; [congruence..|].
  unfold core_db. simpl. rewrite Hdb'. by apply credential_at_write.
Qed.

(** The record an update writes, seen through the storage type. *)
Lemma updated_record_typed r0 db request status now envelope metadata :
  credential_at db r0 → update_typed request → rfc3339_time now →
  envelope_algorithm_version envelope = ALGORITHM_VERSION →
  envelope_key_version envelope = CURRENT_KEY_VERSION → zlen (envelope_nonce envelope) = 12 →
  record_typed (record_of_stored
    (set_metadata (apply_update (record_to_stored r0) request status now envelope) metadata)).
Proof.
  intros (_ & _ & Hst) Ht Hnow Ha Hk Hn. destruct (rs_typed _ Hst).
  split; cbn [record_of_stored record_id record_scope record_source_plugin_id
    record_algorithm_version record_key_version record_nonce record_target_origins
    record_created_at record_updated_at record_expires_at record_status_checked_at record_revision
    apply_update set_metadata record_to_stored stored_id stored_scope stored_source_plugin_id
    stored_target_origins stored_envelope stored_created_at stored_updated_at stored_expires_at
    stored_status_checked_at stored_revision]; try done.
  - rewrite Ha. unfold ALGORITHM_VERSION. lia.
  - rewrite Hk. unfold CURRENT_KEY_VERSION. lia.
  - apply Ht.
  - split_and!; [apply (proj1 typed_times)|done|apply Ht|apply Ht].
Qed.

(** Same database and same other tasks. *)
Definition same_core c c' : Prop := core_store c' = core_store c ∧ core_others c' = core_others c.

Lemma same_core_ok id c c' : same_core c c' → core_ok id c → core_ok id c' ∧ core_db c' = core_db c.
Proof. intros [Hs Ho] Hc. unfold core_ok, core_db in *. by rewrite Hs, Ho. Qed.

(** What [vault_update] does with the record it found. *)
Lemma vault_write_Ok id r0 request secret c record c' :
  uuid_value (CredentialId_as_uuid id) → core_ok id c → credential_at (core_db c) r0 →
  record_id r0 = id → record_kind r0 = input_kind secret →
  update_typed request → input_ok secret →
  (now ← query vault_utc_now;
   envelope ← encrypt_secret master_key (stored_id (record_to_stored r0))
                (stored_scope (record_to_stored r0)) secret;
   status ← query (status_with_expiry (CredentialUpdateRequest_status request)
                     (CredentialUpdateRequest_expires_at request));
   let updated := apply_update (record_to_stored r0) request status now envelope in
   metadata ← query (to_metadata updated);
   let updated := set_metadata updated metadata in
   revision ← map_errors from_repository
                (repository_update updated (CredentialUpdateRequest_expected_revision request));
   mret (set_revision updated revision)) c = (Ok record, c') →
  ∃ status now envelope metadata c2, same_core c c2 ∧
    let updated := set_metadata (apply_update (record_to_stored r0) request status now envelope)
                     metadata in
    record_typed (record_of_stored updated) ∧
    sqlite_update updated (CredentialUpdateRequest_expected_revision request) c2 =
      (Ok (stored_revision record), c') ∧
    ∀ r, record_id r = id → record_scope r = record_scope r0 → record_kind r = input_kind secret →
      stored_envelope (record_to_stored r) = envelope →
      open_record master_key (record_to_stored r) = Ok (guard_of secret).
Proof.
  intros Hid Hcore Hat Hid0 Hkind Ht Hok Hu.
  apply act_bind_Ok in Hu as (now & c1 & Hnow%query_inv & Hu).
  apply act_bind_Ok in Hu as (envelope & c2 & He & Hu).
  apply encrypt_secret_Ok in He as (Hs2 & Ho2 & Ha & Hk & Hn & Hopen); [|done].
  apply act_bind_Ok in Hu as (status & c3 & Hs3%query_inv%status_with_expiry_store & Hu). cbv zeta in Hu.
  apply act_bind_Ok in Hu as (metadata & c4 & Hm%query_inv & Hu).
  apply act_bind_Ok in Hu as (revision & c5 & Hr%map_errors_Ok & [-> ->]%act_ret_Ok).
  assert (same_core c3 c4) as [Hs4 Ho4].
  { unfold to_metadata in Hm. destruct (status_with_expiry _ _ c3) as [st c6] eqn:Es.
    injection Hm as <- <-. by apply status_with_expiry_store in Es. }
  pose proof Hnow as [Hs1 Ho1]%ask_env_db. apply ask_env_value in Hnow.
  exists status, now, envelope, metadata, c4. split; [|split_and!].
  - destruct Hs3 as [Hs3 Ho3]. split; congruence.
  - eapply updated_record_typed; try done. rewrite Hnow. apply runtime_now.
  - by destruct metadata.
  - intros r Hrid Hsc Hrk Henv. apply Hopen; [simpl; congruence..|done].
Qed.

(** An update through the vault replaces the record it read: the stored record
    still has the expected revision when the write happens, the new one has the
    next revision, the same identifier, kind, scope and creation time, and opens
    under the same master key to the new secret. *)
Theorem vault_update_opens request secret c record c' :
  let id := CredentialUpdateRequest_credential_id request in
  let expected := CredentialUpdateRequest_expected_revision request in
  update_typed request → input_ok secret → core_ok id c →
  vault_update master_key request (input_kind secret) secret c = (Ok record, c') →
  stored_revision record = expected + 1 ∧
  ∃ db old r, evolves id (core_db c) db ∧ credential_at db old ∧ record_id old = id ∧
    record_revision old = expected ∧
    credential_at (core_db c') r ∧ record_id r = id ∧ record_revision r = expected + 1 ∧
    record_scope r = record_scope old ∧ record_kind r = record_kind old ∧
    record_created_at r = record_created_at old ∧
    record_target_origins r ≡ₚ CredentialUpdateRequest_target_origins request ∧
    open_record master_key (record_to_stored r) = Ok (guard_of secret).
Proof.
  intros id expected Ht Hok Hcore Hu. pose proof (update_id _ Ht) as Hid. fold id in Hid.
  unfold vault_update in Hu.
  apply act_bind_Ok in Hu as (? & ? & [_ ->]%pure_Ok & Hu).
  apply act_bind_Ok in Hu as (? & ? & [_ ->]%pure_Ok & Hu).
  apply act_bind_Ok in Hu as (found & c1 & Hg%map_errors_Ok & Hu). fold id in Hg.
  apply sqlite_get_Ok in Hg as [Hl1 Hg]; [|done..]. destruct (Hl1 Hcore) as [Hcore1 He1].
  apply act_bind_Ok in Hu as (existing & c2 & [->%ok_or_Ok ->]%pure_Ok & Hu).
  destruct Hg as (r0 & -> & Hid0 & Hat0 & Hmax).
  destruct (_ || _) eqn:Eg; [done|]. apply orb_false_elim in Eg as [Ekind Erev].
  apply negb_false_iff in Ekind, Erev. simpl in Ekind, Erev. bool_prop. fold expected in Erev.
  apply (vault_write_Ok id) in Hu
    as (status & now & envelope & metadata & c2 & Hsame & Htyped & Hw & Hopen); [|done..].
  destruct (same_core_ok id c1 c2 Hsame Hcore1) as [Hcore2 Hdb2].
  apply (sqlite_update_Ok id) in Hw as (_ & Hrev & db & old & origins & He & Hold & Hoid & Horev & Hp & Hat);
    [|done..]. rewrite Hdb2 in He. split; [done|].
  assert (r0 = old) as <- by (apply (evolves_same id (core_db c1) db); done || lia).
  exists db, r0. eexists. split; [by eapply evolves_trans; [apply Hcore1|..]|].
  split_and!; [done..|exact Hat|done|done|done|done|done|done|].
  apply Hopen; [done..|]. by destruct envelope.
Qed.
End vault_props.
