(* ===== verification/ProxyGateway.v ===== *)
(** * The proxy gateway (crates/audiodown-server/src/proxy_gateway.rs)

    Plugin runtimes reach the core over a Unix socket: one request frame per
    connection, authenticated by a token the core registered when it started the
    runtime.  Here are the registry of tokens, the framing, the decoding and
    checking of a request and the encoding of a response.  The socket, its path
    and the accept loop are not modelled; a connection is the sequence of
    buffers that [read] fills. *)

From S2P Require Import Prelude Stateful Text Domain Foreign Database HttpProxy CookieJar.

Definition MAX_PROXY_FRAME_BYTES : Z := 1024 * 1024.
Definition MAX_TOKEN_BYTES : Z := 4 * 1024.
Definition MAX_REQUEST_ID_BYTES : Z := 256.
Definition MAX_URL_BYTES : Z := 8 * 1024.
Definition GATEWAY_MAX_REQUEST_HEADERS : Z := 32.
Definition GATEWAY_MAX_REQUEST_HEADER_BYTES : Z := 16 * 1024.
Definition MAX_HEADER_NAME_BYTES : Z := 128.
Definition MAX_HEADER_VALUE_BYTES : Z := 8 * 1024.
Definition DEFAULT_REGISTRY_CAPACITY : Z := 256.
Definition READ_BUFFER_BYTES : Z := 8 * 1024.

(** ** The registry of tokens *)

Record RuntimeGeneration := mkRuntimeGeneration { RuntimeGeneration_uuid : Uuid }.
Global Instance RuntimeGeneration_eq_dec : EqDecision RuntimeGeneration.
Proof. solve_decision. Defined.

Record AuthenticatedRuntime := mkAuthenticatedRuntime {
  runtime_plugin_id : PluginId;
  runtime_generation : RuntimeGeneration;
}.
Global Instance AuthenticatedRuntime_eq_dec : EqDecision AuthenticatedRuntime.
Proof. solve_decision. Defined.

Record RegisteredProxyToken := mkRegisteredProxyToken {
  registered_generation : RuntimeGeneration;
  registered_token : string;
}.

Inductive ProxyRegistryError :=
| InvalidCapacity | RegistryCapacityReached | RegistryRandomnessUnavailable | RegistryUnavailable.
Inductive ProxyAuthError := Unauthorized.

(** The two maps under their lock, which a panic would have poisoned. *)
Record ProxyTokenRegistry := mkProxyTokenRegistry {
  registry_capacity : Z;
  by_digest : gmap (list byte) AuthenticatedRuntime;
  by_plugin : gmap PluginId (RuntimeGeneration * list byte);
  registry_poisoned : bool;
}.

Definition set_state (self : ProxyTokenRegistry)
    (digests : gmap (list byte) AuthenticatedRuntime)
    (plugins : gmap PluginId (RuntimeGeneration * list byte)) : ProxyTokenRegistry :=
  mkProxyTokenRegistry (registry_capacity self) digests plugins (registry_poisoned self).

Definition with_capacity (capacity : Z) : result ProxyRegistryError ProxyTokenRegistry :=
  if capacity =? 0 then Err InvalidCapacity
  else Ok (mkProxyTokenRegistry capacity ∅ ∅ false).

Section registry.
Context {B : Encoding}.

Definition token_digest (token : string) : list byte := sha256 (bytes token).

(** The operating system's random bytes, or their failure, and the value of
    [Uuid::new_v4] are arguments. *)
Definition register (random : option (list byte)) (uuid : Uuid) (plugin_id : PluginId) :
    act ProxyTokenRegistry ProxyRegistryError RegisteredProxyToken := λ self,
  match random with
  | None => (Err RegistryRandomnessUnavailable, self)
  | Some random =>
      let token := b64_encode random in
      let digest := token_digest token in
      let generation := mkRuntimeGeneration uuid in
      let runtime := mkAuthenticatedRuntime plugin_id generation in
      if registry_poisoned self then (Err RegistryUnavailable, self)
      else if is_none (by_plugin self !! plugin_id)
              && (registry_capacity self <=? Z.of_nat (size (by_plugin self)))
      then (Err RegistryCapacityReached, self)
      else
        let digests := match by_plugin self !! plugin_id with
                       | Some (_, previous_digest) => delete previous_digest (by_digest self)
                       | None => by_digest self
                       end in
        let plugins := delete plugin_id (by_plugin self) in
        (Ok (mkRegisteredProxyToken generation token),
         set_state self (<[digest := runtime]> digests)
           (<[plugin_id := (generation, digest)]> plugins))
  end.

Definition authenticate (self : ProxyTokenRegistry) (token : string) :
    result ProxyAuthError AuthenticatedRuntime :=
  if str_is_empty token || (str_len token >? MAX_TOKEN_BYTES) || str_contains token (chr 0)
  then Err Unauthorized
  else if registry_poisoned self then Err Unauthorized
  else ok_or (by_digest self !! token_digest token) Unauthorized.

Definition revoke (plugin_id : PluginId) (generation : RuntimeGeneration)
    (self : ProxyTokenRegistry) : bool * ProxyTokenRegistry :=
  if registry_poisoned self then (false, self)
  else
    match by_plugin self !! plugin_id with
    | None => (false, self)
    | Some (current_generation, digest) =>
        if negb (eqb current_generation generation) then (false, self)
        else (true, set_state self (delete digest (by_digest self))
                      (delete plugin_id (by_plugin self)))
    end.

Definition revoke_plugin (plugin_id : PluginId) (self : ProxyTokenRegistry) :
    bool * ProxyTokenRegistry :=
  if registry_poisoned self then (false, self)
  else
    match by_plugin self !! plugin_id with
    | None => (false, self)
    | Some (_, digest) =>
        (true, set_state self (delete digest (by_digest self)) (delete plugin_id (by_plugin self)))
    end.

Definition revoke_all (self : ProxyTokenRegistry) : ProxyTokenRegistry :=
  if registry_poisoned self then self else set_state self ∅ ∅.

Definition registry_len (self : ProxyTokenRegistry) : Z :=
  if registry_poisoned self then 0 else Z.of_nat (size (by_plugin self)).
End registry.

(** ** Requests and responses of the core *)

Section messages.
Context {H : HeaderLib}.

Record CoreProxyRequest := mkCoreProxyRequest {
  core_request_id : string;
  core_method : Method;
  core_url : string;
  core_headers : HeaderMap;
  core_body : list byte;
  core_cookie_jar_session_id : option CookieJarSessionId;
  core_credential_scope : option CredentialScope;
}.

Record CoreProxyResponse := mkCoreProxyResponse {
  core_response_status : StatusCode;
  core_response_headers : HeaderMap;
  core_response_body : list byte;
}.

Inductive CoreProxyBackendError :=
| BackendInvalidRequest | BackendPolicyDenied | BackendCredentialScopeNotAllowed | BackendBusy
| BackendTimeout | BackendUnavailable | BackendResponseRejected.
End messages.

(** ** The wire format *)

(** A member that must be present and may be null: missing, null or a value. *)
Definition RequiredNullable (T : Type) : Type := option (option T).
Definition is_missing {T} (self : RequiredNullable T) : bool := is_none self.
Definition is_present {T} (self : RequiredNullable T) : bool :=
  match self with Some (Some _) => true | _ => false end.
Definition as_present {T} (self : RequiredNullable T) : option T :=
  match self with Some value => value | None => None end.
Definition into_present {T} (self : RequiredNullable T) : result unit (option T) := ok_or self tt.

(** The members of a request object; [headers] are the entries of the object in
    order, before [deserialize_headers]. *)
Record WireMembers := mkWireMembers {
  members_token : RequiredNullable string;
  members_request_id : string;
  members_method : string;
  members_url : string;
  members_headers : list (string * string);
  members_body_base64 : RequiredNullable string;
  members_cookie_jar_session_id : RequiredNullable string;
  members_credential_scope : RequiredNullable string;
}.

Record WireRequest := mkWireRequest {
  wire_token : RequiredNullable string;
  wire_request_id : string;
  wire_method : string;
  wire_url : string;
  wire_headers : gmap string string;
  wire_body_base64 : RequiredNullable string;
  wire_cookie_jar_session_id : RequiredNullable string;
  wire_credential_scope : RequiredNullable string;
}.

Record WireError := mkWireError {
  WireError_code : string;
  WireError_summary : string;
  WireError_retry_after_seconds : option Z;
}.

Record WireResponse := mkWireResponse {
  WireResponse_status : Z;
  WireResponse_headers : gmap string string;
  WireResponse_body_base64 : option string;
  WireResponse_error : option WireError;
}.

Definition WireResponse_error_of (status : StatusCode) (code summary : string) : WireResponse :=
  mkWireResponse status ∅ None (Some (mkWireError code summary None)).

(** The serde_json, base64 and http crates, and the order a hash map iterates in. *)
Class WireLib := {
  wire_from_slice : list byte → option WireMembers;
  (** the buffers [to_writer] hands to its writer, or a serialization error *)
  wire_chunks : WireResponse → option (list (list byte));
  (** [STANDARD.encode] and [.decode] *)
  std_encode : list byte → string;
  std_decode : string → option (list byte);
  HeaderName_from_bytes : string → option string;
  hash_iter : gmap string string → list (string * string);
}.

(** What [insert] does to the map and the set of [deserialize_headers]. *)
Fixpoint deserialize_headers (entries : list (string * string)) (headers : gmap string string)
    (names : gset string) : option (gmap string string) :=
  match entries with
  | [] => Some headers
  | (name, value) :: entries =>
      if bool_decide (to_ascii_lowercase name ∈ names) then None
      else deserialize_headers entries (<[name := value]> headers)
             ({[to_ascii_lowercase name]} ∪ names)
  end.

Section wire.
Context {B : Encoding} {H : HeaderLib} {K : Codec} {L : WireLib}.

(** [serde_json::from_slice::<WireRequest>] *)
Definition decode_wire (frame : list byte) : option WireRequest :=
  members ← wire_from_slice frame;
  headers ← deserialize_headers (members_headers members) ∅ ∅;
  Some (mkWireRequest (members_token members) (members_request_id members)
          (members_method members) (members_url members) headers (members_body_base64 members)
          (members_cookie_jar_session_id members) (members_credential_scope members)).

Definition has_missing_nullable_field (self : WireRequest) : bool :=
  is_missing (wire_token self) || is_missing (wire_body_base64 self)
  || is_missing (wire_cookie_jar_session_id self) || is_missing (wire_credential_scope self).

Definition gateway_forbidden_header (name : string) : bool :=
  list_contains
    ["authorization"; "cookie"; "set-cookie"; "host"; "connection"; "content-length";
     "transfer-encoding"; "te"; "trailer"; "upgrade"; "proxy-authorization";
     "proxy-authenticate"; "forwarded"; "x-forwarded-for"; "x-forwarded-host";
     "x-forwarded-proto"] name.

Definition line_break (byte : ascii) : bool :=
  (code byte =? 13) || (code byte =? 10) || (code byte =? 0).

(** The loop over the headers; [header_bytes] cannot overflow before the limit
    stops it. *)
Fixpoint collect_headers (entries : list (string * string)) (headers : HeaderMap)
    (normalized : gset string) (header_bytes : Z) : result unit HeaderMap :=
  match entries with
  | [] => Ok headers
  | (raw_name, raw_value) :: entries =>
      if str_is_empty raw_name || (str_len raw_name >? MAX_HEADER_NAME_BYTES)
         || (str_len raw_value >? MAX_HEADER_VALUE_BYTES)
         || existsb line_break (bytes raw_name) || existsb line_break (bytes raw_value)
      then Err tt
      else
        let lowercase := to_ascii_lowercase raw_name in
        if bool_decide (lowercase ∈ normalized) || gateway_forbidden_header lowercase then Err tt
        else
          let header_bytes := header_bytes + (str_len raw_name + str_len raw_value) in
          if header_bytes >? GATEWAY_MAX_REQUEST_HEADER_BYTES then Err tt
          else
            name ← ok_or (HeaderName_from_bytes lowercase) tt;
            value ← ok_or (HeaderValue_from_str raw_value) tt;
            collect_headers entries (HeaderMap_insert headers name value)
              ({[lowercase]} ∪ normalized) header_bytes
  end.

Definition decode_request_body (body_base64 : option string) : result unit (list byte) :=
  match body_base64 with
  | Some encoded =>
      decoded ← ok_or (std_decode encoded) tt;
      if negb (eqb (std_encode decoded) encoded) then Err tt else Ok decoded
  | None => Ok []
  end.

Definition into_core_request (self : WireRequest) : result unit CoreProxyRequest :=
  if str_is_empty (wire_request_id self)
     || (str_len (wire_request_id self) >? MAX_REQUEST_ID_BYTES)
     || str_contains (wire_request_id self) (chr 0)
     || str_is_empty (wire_url self) || (str_len (wire_url self) >? MAX_URL_BYTES)
     || (Z.of_nat (size (wire_headers self)) >? GATEWAY_MAX_REQUEST_HEADERS)
     || (is_present (wire_cookie_jar_session_id self) && is_present (wire_credential_scope self))
  then Err tt
  else if negb (list_contains ["GET"; "HEAD"; "POST"; "PUT"; "PATCH"; "DELETE"] (wire_method self))
  then Err tt
  else
    headers ← collect_headers (hash_iter (wire_headers self)) HeaderMap_new ∅ 0;
    body_base64 ← into_present (wire_body_base64 self);
    body ← decode_request_body body_base64;
    session ← into_present (wire_cookie_jar_session_id self);
    session ← map_err (λ _, tt)
                (transpose_map (CookieJarSessionId_parse uuid_parse_str uuid_to_string) session);
    scope ← into_present (wire_credential_scope self);
    scope ← map_err (λ _, tt) (transpose_map CredentialScope_parse scope);
    Ok (mkCoreProxyRequest (wire_request_id self) (wire_method self) (wire_url self) headers body
          session scope).

(** *** Responses *)

Inductive WireResponseError := WireInvalid | WireTooLarge.

(** [FrameSizeCounter] under [to_writer]: the first buffer past the limit ends
    the serialization with an error. *)
Fixpoint count_frame (chunks : list (list byte)) (count : Z) : result WireResponseError Z :=
  match chunks with
  | [] => Ok count
  | chunk :: chunks =>
      if count + zlen chunk <=? MAX_PROXY_FRAME_BYTES then count_frame chunks (count + zlen chunk)
      else Err WireTooLarge
  end.

Definition serialized_frame_bytes (response : WireResponse) : result WireResponseError Z :=
  match wire_chunks response with
  | Some chunks => count_frame chunks 0
  | None => Err WireInvalid
  end.

Fixpoint response_headers (entries : list (string * HeaderValue)) (headers : gmap string string) :
    result WireResponseError (gmap string string) :=
  match entries with
  | [] => Ok headers
  | (name, value) :: entries =>
      value ← ok_or (HeaderValue_to_str value) WireInvalid;
      if is_some (headers !! name) then Err WireInvalid
      else response_headers entries (<[name := value]> headers)
  end.

(** The sizes are of data in memory: no arithmetic overflows. *)
Definition from_core (response : CoreProxyResponse) : result WireResponseError WireResponse :=
  headers ← response_headers (HeaderMap_iter (core_response_headers response)) ∅;
  fixed_bytes ← serialized_frame_bytes
                  (mkWireResponse (core_response_status response) headers (Some "") None);
  let encoded_body_bytes := (zlen (core_response_body response) + 2) / 3 * 4 in
  if encoded_body_bytes >? MAX_PROXY_FRAME_BYTES - fixed_bytes then Err WireTooLarge
  else Ok (mkWireResponse (core_response_status response) headers
             (Some (std_encode (core_response_body response))) None).

Definition wire_to_vec (response : WireResponse) : option (list byte) :=
  chunks ← wire_chunks response; Some (List.concat chunks).

Definition quote : string := String (chr 34) EmptyString.
Definition quoted (s : string) : string := quote +:+ s +:+ quote.
Definition fallback_response : list byte := bytes
  ("{" +:+ quoted "status" +:+ ":502," +:+ quoted "headers" +:+ ":{}," +:+ quoted "bodyBase64"
   +:+ ":null," +:+ quoted "error" +:+ ":{" +:+ quoted "code" +:+ ":"
   +:+ quoted "PROXY_UNAVAILABLE" +:+ "," +:+ quoted "summary" +:+ ":"
   +:+ quoted "Proxy backend is unavailable" +:+ "}}").

Definition message_too_large : WireResponse :=
  WireResponse_error_of 502 "MESSAGE_TOO_LARGE" "Proxy response exceeded the message limit".

Definition encode_response (response : WireResponse) : list byte :=
  let encoded := default fallback_response (wire_to_vec response) in
  let encoded :=
    if zlen encoded >? MAX_PROXY_FRAME_BYTES
    then default fallback_response (wire_to_vec message_too_large)
    else encoded in
  encoded ++ [chr 10].

Definition map_backend_error (error : CoreProxyBackendError) : WireResponse :=
  match error with
  | BackendInvalidRequest =>
      WireResponse_error_of 400 "INVALID_REQUEST" "Proxy request was invalid"
  | BackendPolicyDenied =>
      WireResponse_error_of 403 "PROXY_POLICY_DENIED" "Proxy policy denied the request"
  | BackendCredentialScopeNotAllowed =>
      WireResponse_error_of 403 "CREDENTIAL_SCOPE_NOT_ALLOWED" "Credential scope is not allowed"
  | BackendBusy =>
      WireResponse_error_of 429 "PROXY_BUSY" "Proxy capacity is currently unavailable"
  | BackendTimeout => WireResponse_error_of 504 "PROXY_TIMEOUT" "Proxy request timed out"
  | BackendUnavailable =>
      WireResponse_error_of 502 "PROXY_UNAVAILABLE" "Proxy backend is unavailable"
  | BackendResponseRejected =>
      WireResponse_error_of 502 "PROXY_RESPONSE_REJECTED" "Proxy response was rejected"
  end.

Definition invalid_request : WireResponse :=
  WireResponse_error_of 400 "INVALID_REQUEST" "Proxy request was invalid".
Definition proxy_unauthorized : WireResponse :=
  WireResponse_error_of 401 "PROXY_UNAUTHORIZED" "Proxy authentication failed".

(** ** Frames *)

Inductive FrameReadError := FrameInvalid | FrameTooLarge.

Fixpoint newline_position (l : list byte) : option nat :=
  match l with
  | [] => None
  | c :: l => if code c =? 10 then Some 0%nat else S <$> newline_position l
  end.

(** What the calls of [read] give: an error, or the bytes, none at the end of
    the stream. *)
Fixpoint read_frame (reads : list (option (list byte))) (frame : list byte) :
    result FrameReadError (list byte) :=
  match reads with
  | [] | None :: _ | Some [] :: _ => Err FrameInvalid
  | Some buffer :: reads =>
      match newline_position buffer with
      | Some newline =>
          if zlen frame + Z.of_nat newline >? MAX_PROXY_FRAME_BYTES then Err FrameTooLarge
          else if negb (newline + 1 =? length buffer)%nat then Err FrameInvalid
          else
            let frame := frame ++ take newline buffer in
            if (length frame =? 0)%nat then Err FrameInvalid else Ok frame
      | None =>
          let remaining := Z.max 0 (MAX_PROXY_FRAME_BYTES + 1 - zlen frame) in
          let frame := frame ++ take (Nat.min (length buffer) (Z.to_nat remaining)) buffer in
          if (zlen frame >? MAX_PROXY_FRAME_BYTES) || (zlen buffer >? remaining)
          then Err FrameTooLarge
          else read_frame reads frame
      end
  end.
End wire.

(** ** Dispatch *)

Class CoreProxyBackend {H : HeaderLib} (W : Type) := {
  backend_execute : AuthenticatedRuntime → CoreProxyRequest →
    act W CoreProxyBackendError CoreProxyResponse;
}.

Section dispatch.
Context {B : Encoding} {H : HeaderLib} {K : Codec} {L : WireLib} {W : Type} {D : CoreProxyBackend W}.

Definition dispatch_frame (frame : list byte) (registry : ProxyTokenRegistry) (w : W) :
    WireResponse * W :=
  match decode_wire frame with
  | None => (invalid_request, w)
  | Some wire =>
      if has_missing_nullable_field wire then (invalid_request, w)
      else
        match ok_or (as_present (wire_token wire)) Unauthorized ≫= authenticate registry with
        | Err _ => (proxy_unauthorized, w)
        | Ok runtime =>
            match into_core_request wire with
            | Err _ => (invalid_request, w)
            | Ok request =>
                let '(answer, w) := backend_execute runtime request w in
                (match answer with
                 | Ok response =>
                     match from_core response with
                     | Ok response => response
                     | Err WireTooLarge => message_too_large
                     | Err WireInvalid =>
                         WireResponse_error_of 502 "PROXY_RESPONSE_REJECTED"
                           "Proxy response was rejected"
                     end
                 | Err error => map_backend_error error
                 end, w)
            end
        end
  end.

(** The bytes written to a connection, given what it sent and whether the
    framing timeout elapsed first. *)
Definition handle_connection (reads : list (option (list byte))) (elapsed : bool)
    (registry : ProxyTokenRegistry) (w : W) : list byte * W :=
  let '(response, w) :=
    if elapsed then (invalid_request, w)
    else
      match read_frame reads [] with
      | Ok frame => dispatch_frame frame registry w
      | Err FrameTooLarge =>
          (WireResponse_error_of 413 "MESSAGE_TOO_LARGE"
             "Proxy request exceeded the message limit", w)
      | Err FrameInvalid => (invalid_request, w)
      end in
  (encode_response response, w).
End dispatch.
