(* ===== verification/ProxyGatewayProps.v ===== *)
(** * Properties of the proxy gateway

    The registry of tokens implements a map from plugins to the token of their
    current runtime; frames are read exactly when they are well formed; the
    backend runs only for authenticated runtimes; answers fit a frame. *)

From S2P Require Import Prelude Text Domain Foreign HttpProxy CookieJar Stateful Database.
From S2P Require Import ProxyGateway.

(** ** The registry *)

Inductive RegistryOp :=
| Register (random : option (list byte)) (uuid : Uuid) (plugin_id : PluginId)
| Revoke (plugin_id : PluginId) (generation : RuntimeGeneration)
| RevokePlugin (plugin_id : PluginId)
| RevokeAll.

Section registry.
Context {B : Encoding}.

Definition registry_step (op : RegistryOp) (reg : ProxyTokenRegistry) : ProxyTokenRegistry :=
  match op with
  | Register random uuid plugin_id => (register random uuid plugin_id reg).2
  | Revoke plugin_id generation => (revoke plugin_id generation reg).2
  | RevokePlugin plugin_id => (revoke_plugin plugin_id reg).2
  | RevokeAll => revoke_all reg
  end.
Definition registry_run (ops : list RegistryOp) (reg : ProxyTokenRegistry) : ProxyTokenRegistry :=
  fold_left (λ reg op, registry_step op reg) ops reg.

(** *** The specification: the token of the current runtime of each plugin *)

Abbreviation Sessions := (gmap PluginId (RuntimeGeneration * string)).

Definition spec_step (capacity : Z) (op : RegistryOp) (m : Sessions) : Sessions :=
  match op with
  | Register None _ _ => m
  | Register (Some random) uuid plugin_id =>
      if decide (m !! plugin_id = None ∧ capacity ≤ Z.of_nat (size m)) then m
      else <[plugin_id := (mkRuntimeGeneration uuid, b64_encode random)]> m
  | Revoke plugin_id generation =>
      if decide (fst <$> m !! plugin_id = Some generation) then delete plugin_id m else m
  | RevokePlugin plugin_id => delete plugin_id m
  | RevokeAll => ∅
  end.
Definition spec_run (capacity : Z) (ops : list RegistryOp) (m : Sessions) : Sessions :=
  fold_left (λ m op, spec_step capacity op m) ops m.

(** The digests of the tokens that a sequence of operations issues. *)
Definition issued (ops : list RegistryOp) : list (list byte) :=
  omap (λ op, match op with
              | Register (Some random) _ _ => Some (token_digest (b64_encode random))
              | _ => None
              end) ops.

Record implements (reg : ProxyTokenRegistry) (m : Sessions) : Prop := {
  impl_poisoned : registry_poisoned reg = false;
  impl_plugins : by_plugin reg = (λ e, (e.1, token_digest e.2)) <$> m;
  impl_digests d rt : by_digest reg !! d = Some rt ↔
    ∃ t, m !! runtime_plugin_id rt = Some (runtime_generation rt, t) ∧ token_digest t = d;
}.

(** No two plugins have tokens with the same digest. *)
Definition distinct_tokens (m : Sessions) : Prop :=
  ∀ p p' e e', m !! p = Some e → m !! p' = Some e' → token_digest e.2 = token_digest e'.2 → p = p'.

Lemma implements_plugin reg m p :
  implements reg m → by_plugin reg !! p = (λ e, (e.1, token_digest e.2)) <$> m !! p.
Proof. intros Hi. by rewrite (impl_plugins _ _ Hi), lookup_fmap. Qed.

Lemma implements_delete reg m p g t :
  implements reg m → distinct_tokens m → m !! p = Some (g, t) →
  implements (set_state reg (delete (token_digest t) (by_digest reg)) (delete p (by_plugin reg)))
    (delete p m).
Proof.
  intros Hi Hd Hp. split; [apply Hi| |].
  - simpl. by rewrite (impl_plugins _ _ Hi), fmap_delete.
  - intros d rt. simpl. rewrite lookup_delete_Some, (impl_digests _ _ Hi). split.
    + intros (Hne & t' & Ht' & <-). exists t'. split; [|done]. apply lookup_delete_Some.
      split; [|done]. intros Heq. rewrite <- Heq in Ht'. congruence.
    + intros (t' & [Hne Ht']%lookup_delete_Some & <-). split; [|by eauto]. intros Heq.
      apply Hne. eapply (Hd p (runtime_plugin_id rt)); done.
Qed.

Lemma distinct_delete m p : distinct_tokens m → distinct_tokens (delete p m).
Proof.
  intros Hd p1 p2 e1 e2 [_ H1]%lookup_delete_Some [_ H2]%lookup_delete_Some. by apply Hd.
Qed.

Definition unused (digest : list byte) (m : Sessions) : Prop :=
  ∀ p e, m !! p = Some e → token_digest e.2 ≠ digest.

Lemma implements_insert reg m p g t :
  implements reg m → m !! p = None → unused (token_digest t) m →
  implements (set_state reg (<[token_digest t := mkAuthenticatedRuntime p g]> (by_digest reg))
                (<[p := (g, token_digest t)]> (by_plugin reg))) (<[p := (g, t)]> m).
Proof.
  intros Hi Hnone Hu. split; [apply Hi| |].
  - simpl. by rewrite (impl_plugins _ _ Hi), fmap_insert.
  - intros d [p' g']. simpl. rewrite lookup_insert_Some, (impl_digests _ _ Hi).
    setoid_rewrite lookup_insert_Some. simpl. split.
    + intros [[<- [= <- <-]]|(Hne & t' & Ht' & <-)]; [eauto|]. exists t'. split; [|done]. right.
      split; [|done]. intros ->. congruence.
    + intros (t' & [[<- [= <- <-]]|[Hne Ht']] & <-); [by left|]. right. split; [|eauto].
      intros Heq. by apply (Hu p' (g', t')).
Qed.

Lemma distinct_insert m p g t :
  distinct_tokens m → unused (token_digest t) m → distinct_tokens (<[p := (g, t)]> m).
Proof.
  intros Hd Hu p1 p2 e1 e2. rewrite !lookup_insert_Some.
  intros [[<- <-]|[_ H1]] [[<- <-]|[_ H2]] Heq; simpl in *; try done.
  - by destruct (Hu _ _ H2).
  - by destruct (Hu _ _ H1).
  - eauto.
Qed.

(** One operation on both sides; a registered token is new. *)
Lemma registry_simulation op reg m :
  implements reg m → distinct_tokens m → Forall (λ d, unused d m) (issued [op]) →
  let m' := spec_step (registry_capacity reg) op m in
  implements (registry_step op reg) m' ∧ distinct_tokens m' ∧
  registry_capacity (registry_step op reg) = registry_capacity reg.
Proof.
  intros Hi Hd Hu. destruct op as [[random|] uuid p|p g|p|]; cbn [registry_step spec_step].
  - unfold register. rewrite (impl_poisoned _ _ Hi), (implements_plugin _ _ p Hi).
    rewrite (impl_plugins _ _ Hi), map_size_fmap. apply Forall_cons in Hu as [Hu _].
    destruct (m !! p) as [[g t]|] eqn:Hp; cbn [fmap option_fmap option_map is_none is_some andb fst snd].
    + destruct (decide _) as [[? _]|_]; [done|]. cbn [snd].
      pose proof (implements_delete _ _ _ _ _ Hi Hd Hp) as Hi'.
      rewrite <- (insert_delete_eq m). split_and!; [|apply distinct_insert|done].
      * rewrite <- (impl_plugins _ _ Hi).
        apply (implements_insert _ _ _ _ (b64_encode random) Hi'); [by rewrite lookup_delete_eq|].
        intros p' e [_ He]%lookup_delete_Some. by eapply Hu.
      * by apply distinct_delete.
      * intros p' e [_ He]%lookup_delete_Some. by eapply Hu.
    + destruct (_ <=? _) eqn:Hc; destruct (decide _) as [|Hn]; bool_prop; try done; try naive_solver lia.
      cbn [snd]. rewrite <- (impl_plugins _ _ Hi), delete_id
        by (by rewrite (implements_plugin _ _ p Hi), Hp).
      split_and!; [|by apply distinct_insert|done]. by apply implements_insert.
  - done.
  - unfold revoke. rewrite (impl_poisoned _ _ Hi), (implements_plugin _ _ p Hi).
    destruct (m !! p) as [[g' t]|] eqn:Hp; simpl; [|done].
    destruct (eqb g' g) eqn:Eg; destruct (decide _) as [Hg|Hg]; bool_prop; simplify_eq; try done.
    split_and!; [by eapply implements_delete|by apply distinct_delete|done].
  - unfold revoke_plugin. rewrite (impl_poisoned _ _ Hi), (implements_plugin _ _ p Hi).
    destruct (m !! p) as [[g' t]|] eqn:Hp; simpl; [|by rewrite delete_id].
    split_and!; [by eapply implements_delete|by apply distinct_delete|done].
  - unfold revoke_all. rewrite (impl_poisoned _ _ Hi). split_and!; [|done|done].
    split; [apply Hi|done|]. intros d rt. simpl. rewrite lookup_empty. naive_solver.
Qed.

Lemma issued_cons op ops : issued (op :: ops) = issued [op] ++ issued ops.
Proof. unfold issued. simpl. by destruct (match op with Register _ _ _ => _ | _ => _ end). Qed.

(** Tokens of the map were there before or have just been issued. *)
Lemma spec_step_lookup capacity op m p e :
  spec_step capacity op m !! p = Some e →
  m !! p = Some e ∨ token_digest e.2 ∈ issued [op].
Proof.
  destruct op as [[random|] uuid q|q g|q|]; cbn [spec_step]; repeat case_decide;
    rewrite ?lookup_insert_Some, ?lookup_delete_Some, ?lookup_empty; try naive_solver.
  intros [[-> <-]|[_ ?]]; [right|by left]. by left.
Qed.

Lemma spec_step_size capacity op m :
  0 < capacity → Z.of_nat (size m) ≤ capacity →
  Z.of_nat (size (spec_step capacity op m)) ≤ capacity.
Proof.
  intros Hc Hs. assert (∀ q, size (delete q m) ≤ size m)%nat as Hdel.
  { intros q. rewrite map_size_delete. destruct (m !! q); simpl; lia. }
  destruct op as [[random|] uuid q|q g|q|]; cbn [spec_step]; repeat case_decide; try done.
  - rewrite map_size_insert. destruct (m !! q) eqn:E; simpl; [done|].
    destruct (decide (capacity ≤ Z.of_nat (size m))); [naive_solver|lia].
  - specialize (Hdel q). lia.
  - specialize (Hdel q). lia.
  - rewrite map_size_empty. lia.
Qed.

Lemma registry_run_implements capacity ops reg m :
  registry_capacity reg = capacity → implements reg m → distinct_tokens m → NoDup (issued ops) →
  Forall (λ d, unused d m) (issued ops) →
  implements (registry_run ops reg) (spec_run capacity ops m).
Proof.
  revert reg m. induction ops as [|op ops IH]; intros reg m Hcap Hi Hd Hnd Hu; [done|].
  rewrite issued_cons in Hnd, Hu. apply NoDup_app in Hnd as (_ & Hne & Hnd).
  apply Forall_app in Hu as [Hu1 Hu2].
  destruct (registry_simulation op reg m Hi Hd Hu1) as (Hi' & Hd' & Hcap').
  rewrite Hcap in *. apply (IH (registry_step op reg) (spec_step capacity op m)); [done..|].
  apply Forall_forall. intros d Hin p e He. apply spec_step_lookup in He as [He|He].
  - by apply (proj1 (Forall_forall _ _) Hu2 d Hin p e).
  - intros <-. by eapply Hne.
Qed.

Lemma spec_run_size capacity ops m :
  0 < capacity → Z.of_nat (size m) ≤ capacity →
  Z.of_nat (size (spec_run capacity ops m)) ≤ capacity.
Proof.
  intros Hc. revert m. induction ops as [|op ops IH]; intros m Hm; [done|].
  apply IH. by apply spec_step_size.
Qed.

(** C32. The registry implements a bounded map from plugins to the generation and the
    token of their current runtime: whatever was registered and revoked, if the
    digests of the issued tokens differ, a presented token authenticates exactly
    as the plugin and generation whose current token has its digest (registering
    again or revoking ends the earlier token), and the map never exceeds the
    capacity. *)
Theorem registry_refines_sessions capacity reg ops :
  with_capacity capacity = Ok reg → 0 < capacity → NoDup (issued ops) →
  let m := spec_run capacity ops ∅ in
  registry_len (registry_run ops reg) = Z.of_nat (size m) ∧ Z.of_nat (size m) ≤ capacity ∧
  ∀ token rt, authenticate (registry_run ops reg) token = Ok rt ↔
    token ≠ "" ∧ str_len token ≤ MAX_TOKEN_BYTES ∧ str_contains token (chr 0) = false ∧
    ∃ t, m !! runtime_plugin_id rt = Some (runtime_generation rt, t) ∧
      token_digest t = token_digest token.
Proof.
  intros Hreg Hc Hnd m. unfold with_capacity in Hreg. destruct (_ =? 0) eqn:E0; [done|].
  injection Hreg as <-. set (reg := mkProxyTokenRegistry capacity ∅ ∅ false).
  assert (implements (registry_run ops reg) m) as Hi.
  { apply (registry_run_implements capacity ops reg ∅); [done| |done|done|by apply Forall_forall].
    split; [done|done|]. intros d rt. simpl. rewrite lookup_empty. naive_solver. }
  split_and!.
  - unfold registry_len. by rewrite (impl_poisoned _ _ Hi), (impl_plugins _ _ Hi), map_size_fmap.
  - apply spec_run_size; [done|]. rewrite map_size_empty. lia.
  - intros token rt. unfold authenticate. rewrite (impl_poisoned _ _ Hi).
    rewrite <- (impl_digests _ _ Hi). destruct (str_is_empty token) eqn:Ee; simpl.
    { split; [done|]. intros (Hne & _). by apply str_is_empty_true in Ee. }
    destruct (_ >? _) eqn:El; simpl; [bool_prop; split; [done|]; intros (_ & ? & _); lia|].
    destruct (str_contains _ _); [naive_solver|]. rewrite ok_or_Ok. bool_prop.
    split; [|naive_solver]. intros ?. split_and!; try done. intros ->. done.
Qed.
End registry.

(** ** Frames *)

Definition newline : byte := chr 10.

Lemma chr_code c : chr (code c) = c.
Proof. unfold chr, code. by rewrite N2Z.id, ascii_N_embedding. Qed.

Lemma code_newline c : (code c =? 10) = true ↔ c = newline.
Proof.
  unfold newline. rewrite Z.eqb_eq. split; [|by intros ->].
  intros Hc. by rewrite <- (chr_code c), Hc.
Qed.

Lemma newline_position_cases l :
  match newline_position l with
  | Some n => ∃ rest, l = (take n l ++ newline :: rest) ∧ (newline ∉ take n l) ∧ length (take n l) = n
  | None => newline ∉ l
  end.
Proof.
  induction l as [|c l IH]; simpl; [apply not_elem_of_nil|].
  destruct (code c =? 10) eqn:Ec.
  - apply code_newline in Ec as ->. exists l. split_and!; [done|apply not_elem_of_nil|done].
  - assert (c ≠ newline) by (rewrite <- code_newline, Ec; done).
    destruct (newline_position l) as [n|]; simpl.
    + destruct IH as (rest & Hl & Hn & Hlen). exists rest. split_and!; [by f_equal| |by f_equal].
      by apply not_elem_of_cons.
    + by apply not_elem_of_cons.
Qed.

(** The buffers of a frame that is read whole: together they are the frame and
    its newline, and none is empty. *)
Definition framed (buffers : list (list byte)) (body : list byte) : Prop :=
  Forall (λ b, b ≠ []) buffers ∧ List.concat buffers = body ++ [newline] ∧ newline ∉ body.

Lemma framed_cons_last buffer buffers body n :
  newline_position buffer = Some n → framed (buffer :: buffers) body →
  buffers = [] ∧ body = take n buffer ∧ length buffer = (n + 1)%nat.
Proof.
  intros Hn (Hne & Hc & Hbody). pose proof (newline_position_cases buffer) as Hb. rewrite Hn in Hb.
  destruct Hb as (rest & Hbuf & Hpre & Hlen). cbn [List.concat] in Hc. rewrite Hbuf in Hc.
  rewrite <- app_assoc in Hc. cbn [app] in Hc.
  assert (∀ pre x y (body : list byte), pre ++ newline :: x = body ++ newline :: y →
    newline ∉ pre → newline ∉ body → pre = body ∧ x = y) as Hinj.
  { intros pre. induction pre as [|c pre IH]; intros x y [|c' body'] Heq H1 H2; injection Heq.
    - by intros ->.
    - intros _ <-. by apply not_elem_of_cons in H2 as [? _].
    - intros _ ->. by apply not_elem_of_cons in H1 as [? _].
    - intros Heq' ->. apply not_elem_of_cons in H1 as [_ H1], H2 as [_ H2].
      by destruct (IH _ _ _ Heq' H1 H2); subst. }
  apply Hinj in Hc as [<- Hrest]; [|done..]. apply app_eq_nil in Hrest as [-> Hnil].
  split_and!; [|done|].
  - destruct buffers as [|b bs]; [done|]. apply Forall_cons in Hne as [_ [Hb _]%Forall_cons].
    cbn [List.concat] in Hnil. by apply app_eq_nil in Hnil as [? _].
  - rewrite Hbuf at 1. rewrite length_app, Hlen. done.
Qed.

Lemma framed_cons_more buffer buffers body :
  newline_position buffer = None →
  framed (buffer :: buffers) body ↔
  buffer ≠ [] ∧ ∃ body', body = buffer ++ body' ∧ framed buffers body'.
Proof.
  intros Hn. pose proof (newline_position_cases buffer) as Hb. rewrite Hn in Hb.
  unfold framed. cbn [List.concat]. rewrite Forall_cons. split.
  - intros ([Hne Hall] & Hc & Hbody). split; [done|].
    assert (∃ body', body = buffer ++ body') as [body' ->].
    { clear -Hc Hb. revert body Hc. induction buffer as [|c l IH]; intros body Hc; [by exists body|].
      apply not_elem_of_cons in Hb as [Hc' Hb]. destruct body as [|c' body]; injection Hc.
      { by intros _ ->. }
      intros Hl ->. destruct (IH Hb _ Hl) as [body' ->]. by exists body'. }
    rewrite <- app_assoc in Hc. apply app_inv_head in Hc. exists body'.
    split_and!; [done..|]. intros Hin. apply Hbody, elem_of_app. by right.
  - intros (Hne & body' & -> & Hall & -> & Hbody). rewrite app_assoc. split_and!; [done..|].
    by intros [?|?]%elem_of_app.
Qed.

(** What one buffer does to the frame read so far. *)
Lemma read_frame_buffer buf reads acc :
  buf ≠ [] → zlen acc ≤ MAX_PROXY_FRAME_BYTES →
  read_frame (Some buf :: reads) acc =
  match newline_position buf with
  | Some n =>
      if zlen acc + Z.of_nat n >? MAX_PROXY_FRAME_BYTES then Err FrameTooLarge
      else if negb (n + 1 =? length buf)%nat then Err FrameInvalid
      else if (length (acc ++ take n buf) =? 0)%nat then Err FrameInvalid
      else Ok (acc ++ take n buf)
  | None =>
      if zlen (acc ++ buf) >? MAX_PROXY_FRAME_BYTES then Err FrameTooLarge
      else read_frame reads (acc ++ buf)
  end.
Proof.
  intros Hne Hacc. destruct buf as [|c buf]; [done|]. cbn [read_frame].
  destruct (newline_position (c :: buf)) as [n|]; [done|]. set (b := c :: buf).
  set (remaining := Z.max 0 (MAX_PROXY_FRAME_BYTES + 1 - zlen acc)).
  assert (remaining = MAX_PROXY_FRAME_BYTES + 1 - zlen acc) as Hr by (unfold remaining; lia).
  destruct (zlen b >? remaining) eqn:Eb; bool_prop.
  - rewrite orb_true_r. destruct (_ >? _) eqn:E; [done|]. bool_prop.
    unfold zlen in *. rewrite length_app in E. lia.
  - rewrite orb_false_r, (Nat.min_l (length b)) by (unfold zlen in *; lia). by rewrite firstn_all.
Qed.

Lemma framed_nil body : ¬ framed [] body.
Proof. intros (_ & Hc & _). cbn [List.concat] in Hc. by destruct body. Qed.

Lemma read_frame_acc reads acc frame :
  zlen acc ≤ MAX_PROXY_FRAME_BYTES →
  read_frame reads acc = Ok frame ↔
  ∃ buffers rest body, reads = (Some <$> buffers) ++ rest ∧ framed buffers body ∧
    frame = acc ++ body ∧ frame ≠ [] ∧ zlen frame ≤ MAX_PROXY_FRAME_BYTES.
Proof.
  revert acc. induction reads as [|[buf|] reads IH]; intros acc Hacc.
  1,3: split; [done|]; intros ([|b bs] & rest & body & Hr & Hf & _); [by apply framed_nil in Hf|done].
  destruct (decide (buf = [])) as [->|Hne].
  { split; [done|]. intros ([|b bs] & rest & body & Hr & Hf & _); [by apply framed_nil in Hf|].
    simplify_eq/=. destruct Hf as (Hne & _). by apply Forall_cons in Hne as [? _]. }
  rewrite read_frame_buffer by done. destruct (newline_position buf) as [n|] eqn:En.
  - pose proof (newline_position_cases buf) as Hb. rewrite En in Hb.
    destruct Hb as (tail & Hbuf & Hpre & Hlen).
    assert (zlen (acc ++ take n buf) = zlen acc + Z.of_nat n) as Hz
      by (unfold zlen; rewrite length_app; lia).
    split.
    + destruct (_ >? _) eqn:E1; [done|]. destruct (negb _) eqn:E2; [done|].
      destruct (_ =? 0)%nat eqn:E3; [done|]. intros [= <-]. bool_prop.
      apply Nat.eqb_eq in E2. apply Nat.eqb_neq in E3.
      exists [buf], reads, (take n buf). split_and!; [done| |done|by intros Heq; rewrite Heq in E3|lia].
      split_and!; [by apply Forall_singleton| |done]. cbn [List.concat]. rewrite app_nil_r, Hbuf at 1.
      do 2 f_equal. rewrite Hbuf, length_app in E2. simpl in E2. by destruct tail; [|simpl in E2; lia].
    + intros ([|b bs] & rest & body & Hr & Hf & -> & Hne' & Hmax); [by apply framed_nil in Hf|].
      injection Hr as <- Hr.
      apply (framed_cons_last _ _ _ n) in Hf as (-> & -> & Hl); [|done].
      destruct (_ >? _) eqn:E1; bool_prop; [lia|]. rewrite Hl, Nat.eqb_refl. simpl.
      destruct (_ =? 0)%nat eqn:E3; [|done]. apply Nat.eqb_eq, nil_length_inv in E3. done.
  - destruct (_ >? _) eqn:E1; bool_prop.
    + split; [done|]. intros ([|b bs] & rest & body & Hr & Hf & -> & _ & Hmax);
        [by apply framed_nil in Hf|]. injection Hr as <- Hr.
      apply framed_cons_more in Hf as (_ & body' & -> & _); [|done].
      unfold zlen in *. rewrite !length_app in *. lia.
    + rewrite IH by done. split.
      * intros (bs & rest & body & -> & Hf & -> & Hne' & Hmax).
        exists (buf :: bs), rest, (buf ++ body). rewrite app_assoc. split_and!; [done| |done..].
        apply framed_cons_more; [done|]. eauto.
      * intros ([|b bs] & rest & body & Hr & Hf & -> & Hne' & Hmax); [by apply framed_nil in Hf|].
      injection Hr as <- Hr.
        apply framed_cons_more in Hf as (_ & body' & -> & Hf); [|done].
        exists bs, rest, body'. by rewrite <- app_assoc.
Qed.

(** A connection's frame is accepted exactly when the bytes read are a non-empty
    frame of at most a mebibyte without a newline, then one newline that is the
    last byte of its buffer; how the bytes before it are split into buffers does
    not matter. *)
Theorem read_frame_spec reads frame :
  read_frame reads [] = Ok frame ↔
  ∃ buffers rest, reads = (Some <$> buffers) ++ rest ∧ Forall (λ b, b ≠ []) buffers ∧
    List.concat buffers = frame ++ [newline] ∧ (newline ∉ frame) ∧
    frame ≠ [] ∧ zlen frame ≤ MAX_PROXY_FRAME_BYTES.
Proof.
  rewrite read_frame_acc by done. unfold framed. split.
  - intros (buffers & rest & body & Hr & (Hne & Hc & Hn) & -> & Hf & Hmax). eauto 10.
  - intros (buffers & rest & Hr & Hne & Hc & Hn & Hf & Hmax). eauto 10.
Qed.

(** * Properties of the dispatch of the proxy gateway

    What reaches the backend, and that every answer fits a frame. *)

(** ** The libraries *)

Class WireLaws {B : Encoding} {H : HeaderLib} (L : WireLib) : Prop := {
  (** a header name in lower case is kept *)
  header_name_lower s n :
    HeaderName_from_bytes (to_ascii_lowercase s) = Some n → n = to_ascii_lowercase s;
  (** iteration visits every entry of a hash map once, in some order *)
  hash_iter_perm m : hash_iter m ≡ₚ map_to_list m;
  (** padded base64 writes four characters for every three bytes begun *)
  std_encode_length l : str_len (std_encode l) = (zlen l + 2) / 3 * 4;
  (** its characters are not escaped in JSON *)
  wire_body_length status headers l b0 b :
    wire_to_vec (mkWireResponse status headers (Some "") None) = Some b0 →
    wire_to_vec (mkWireResponse status headers (Some (std_encode l)) None) = Some b →
    zlen b = zlen b0 + str_len (std_encode l);
  (** escaping makes at most six bytes of one *)
  wire_error_length status code summary b :
    0 ≤ status < 2 ^ 16 →
    wire_to_vec (WireResponse_error_of status code summary) = Some b →
    zlen b ≤ 200 + 6 * (str_len code + str_len summary);
}.

Section dispatch.
Context {B : Encoding} {H : HeaderLib} `{!HeaderLaws H} {K : Codec} {L : WireLib} `{!WireLaws L}.

(** ** Responses *)

Lemma count_frame_spec chunks count n :
  count ≤ MAX_PROXY_FRAME_BYTES →
  count_frame chunks count = Ok n ↔
  n = count + zlen (List.concat chunks) ∧ n ≤ MAX_PROXY_FRAME_BYTES.
Proof.
  revert count. induction chunks as [|c cs IH]; intros count Hc; cbn [count_frame List.concat].
  - change (zlen []) with 0. split; [intros [= <-]; lia|]. intros [-> _]. by rewrite Z.add_0_r.
  - assert (zlen (c ++ List.concat cs) = zlen c + zlen (List.concat cs)) as ->
      by (unfold zlen; rewrite length_app; lia).
    destruct (_ <=? _) eqn:E; bool_prop.
    + rewrite IH by done. rewrite Z.add_assoc. done.
    + split; [done|]. intros [-> Hn]. unfold zlen in *. lia.
Qed.

Lemma serialized_frame_bytes_Ok response n :
  serialized_frame_bytes response = Ok n →
  ∃ b, wire_to_vec response = Some b ∧ n = zlen b ∧ n ≤ MAX_PROXY_FRAME_BYTES.
Proof.
  unfold serialized_frame_bytes, wire_to_vec. destruct (wire_chunks response) as [chunks|]; [|done].
  intros [Hn Hmax]%count_frame_spec; [|done]. by eexists.
Qed.

Lemma message_too_large_fits b :
  wire_to_vec message_too_large = Some b → zlen b ≤ MAX_PROXY_FRAME_BYTES.
Proof.
  intros Hb%wire_error_length; [|done].
  change (200 + 6 * (str_len _ + str_len _)) with 548 in Hb. unfold MAX_PROXY_FRAME_BYTES. lia.
Qed.

(** Every answer is one frame: its bytes and a newline within the limit.  The
    response of a request that was executed is never replaced for its size after
    [from_core] accepted it: the estimate made before encoding the body is
    exact. *)
Theorem answers_fit :
  (∀ response, ∃ b, encode_response response = b ++ [newline] ∧ zlen b ≤ MAX_PROXY_FRAME_BYTES) ∧
  ∀ core wire b, from_core core = Ok wire → wire_to_vec wire = Some b →
    encode_response wire = b ++ [newline] ∧ WireResponse_status wire = core_response_status core ∧
    WireResponse_body_base64 wire = Some (std_encode (core_response_body core)).
Proof.
  split.
  - intros response. unfold encode_response. eexists. split; [done|].
    destruct (_ >? _) eqn:E; [|by bool_prop].
    destruct (wire_to_vec message_too_large) as [b|] eqn:Eb; [by apply message_too_large_fits|].
    simpl. vm_compute. done.
  - intros core wire b Hf Hb. unfold from_core in Hf. simplify_result. bool_prop.
    match goal with Hs : serialized_frame_bytes _ = Ok _ |- _ =>
      apply serialized_frame_bytes_Ok in Hs as (b0 & Hb0 & -> & Hmax) end.
    split_and!; [|done..]. pose proof (wire_body_length _ _ _ _ _ Hb0 Hb) as Hlen.
    rewrite std_encode_length in Hlen. unfold encode_response. rewrite Hb. simpl.
    destruct (_ >? _) eqn:E; bool_prop; [lia|done].
Qed.

(** ** Requests *)

Definition header_total (l : list (string * HeaderValue)) : Z :=
  foldr (λ e total, str_len e.1 + zlen (HeaderValue_as_bytes e.2) + total) 0 l.

Global Instance header_total_perm : Proper ((≡ₚ) ==> (=)) header_total.
Proof. intros l k Hp. induction Hp; simpl; lia. Qed.

Lemma str_len_lowercase s : str_len (to_ascii_lowercase s) = str_len s.
Proof. unfold to_ascii_lowercase. rewrite !str_len_bytes, bytes_str. unfold zlen. by rewrite length_map. Qed.

(** The headers collected so far. *)
Record headers_ok (headers : HeaderMap) (normalized : gset string) (count : Z) : Prop := {
  ok_names n : n ∈ (HeaderMap_iter headers).*1 → n ∈ normalized;
  ok_allowed n : n ∈ (HeaderMap_iter headers).*1 → gateway_forbidden_header n = false;
  ok_total : header_total (HeaderMap_iter headers) = count;
  ok_limit : count ≤ GATEWAY_MAX_REQUEST_HEADER_BYTES;
}.

Lemma headers_ok_insert headers normalized count name value v :
  headers_ok headers normalized count → name ∉ normalized →
  gateway_forbidden_header name = false → HeaderValue_from_str value = Some v →
  count + (str_len name + str_len value) ≤ GATEWAY_MAX_REQUEST_HEADER_BYTES →
  HeaderMap_iter (HeaderMap_insert headers name v) ≡ₚ (name, v) :: HeaderMap_iter headers ∧
  headers_ok (HeaderMap_insert headers name v) ({[name]} ∪ normalized)
    (count + (str_len name + str_len value)).
Proof.
  intros Hok Hnew Hf Hv Hlim.
  assert (List.filter (λ e, negb (eqb e.1 name)) (HeaderMap_iter headers) = HeaderMap_iter headers)
    as Hfilter.
  { pose proof (ok_names _ _ _ Hok) as Hnames. induction (HeaderMap_iter headers) as [|[n v'] l IH]; [done|].
    simpl. destruct (eqb n name) eqn:E; bool_prop.
    - subst. destruct Hnew. apply Hnames. by left.
    - simpl. f_equal. apply IH. intros n' Hn'. apply Hnames. by right. }
  assert (HeaderMap_iter (HeaderMap_insert headers name v) ≡ₚ (name, v) :: HeaderMap_iter headers)
    as Hp by (by rewrite header_insert, Hfilter).
  split; [done|]. split.
  - intros n. rewrite Hp. simpl. rewrite elem_of_cons. intros [->|Hn]; [set_solver|].
    apply (ok_names _ _ _ Hok) in Hn. set_solver.
  - intros n. rewrite Hp. simpl. rewrite elem_of_cons. intros [->|Hn]; [done|].
    by apply (ok_allowed _ _ _ Hok).
  - rewrite Hp. simpl. rewrite (ok_total _ _ _ Hok), (header_from_str _ _ Hv), (str_len_bytes value).
    unfold byte in *; lia.
  - done.
Qed.

Lemma collect_headers_Ok entries headers normalized count headers' :
  headers_ok headers normalized count → collect_headers entries headers normalized count = Ok headers' →
  ∃ normalized' count', headers_ok headers' normalized' count' ∧
    length (HeaderMap_iter headers') = (length entries + length (HeaderMap_iter headers))%nat.
Proof.
  revert headers normalized count. induction entries as [|[n s] entries IH];
    intros headers normalized count Hok Hc; cbn [collect_headers] in Hc; [by simplify_eq; eauto|].
  revert Hc. destruct (_ || _) eqn:E1; [done|]. destruct (bool_decide _ || _) eqn:E2; [done|].
  destruct (count + _ >? _) eqn:E3; [discriminate|]. intros Hc. apply bind_Ok in Hc as (name & Hname%ok_or_Ok & Hc).
  apply bind_Ok in Hc as (value & Hvalue%ok_or_Ok & Hc). apply header_name_lower in Hname as ->.
  apply orb_false_iff in E2 as [E2%bool_decide_eq_false E4]. bool_prop.
  rewrite <- (str_len_lowercase n) in *.
  destruct (headers_ok_insert _ _ _ _ _ _ Hok E2 E4 Hvalue) as [Hp Hok']; [lia|].
  destruct (IH _ _ _ Hok' Hc) as (nm & ct & Hok2 & Hlen). exists nm, ct. split; [done|].
  rewrite Hlen, Hp. simpl. lia.
Qed.

(** What the gateway lets through to the backend. *)
Record core_request_ok (request : CoreProxyRequest) : Prop := {
  request_id_ok : core_request_id request ≠ "" ∧
    str_len (core_request_id request) ≤ MAX_REQUEST_ID_BYTES;
  request_url_ok : core_url request ≠ "" ∧ str_len (core_url request) ≤ MAX_URL_BYTES;
  request_method_ok : core_method request ∈ ["GET"; "HEAD"; "POST"; "PUT"; "PATCH"; "DELETE"];
  request_headers_ok : HeaderMap_len (core_headers request) ≤ GATEWAY_MAX_REQUEST_HEADERS ∧
    header_total (HeaderMap_iter (core_headers request)) ≤ GATEWAY_MAX_REQUEST_HEADER_BYTES ∧
    ∀ n, n ∈ (HeaderMap_iter (core_headers request)).*1 → gateway_forbidden_header n = false;
  request_one_secret :
    core_cookie_jar_session_id request = None ∨ core_credential_scope request = None;
}.

Lemma into_core_request_Ok wire request :
  into_core_request wire = Ok request → core_request_ok request.
Proof.
  unfold into_core_request. destruct (_ || _) eqn:E1; [done|]. destruct (negb _) eqn:E2; [done|].
  apply negb_false_iff, list_contains_elem in E2. intros Hr. simplify_result. bool_prop.
  match goal with Hc : collect_headers _ _ _ _ = Ok _ |- _ =>
    apply collect_headers_Ok in Hc as (nm & ct & Hok & Hlen) end.
  2: { split; rewrite ?header_new; try done; by intros n Hn%not_elem_of_nil. }
  split; cbn [core_request_id core_url core_method core_headers core_cookie_jar_session_id
    core_credential_scope].
  - split; [by apply str_is_empty_false|done].
  - split; [by apply str_is_empty_false|done].
  - done.
  - rewrite header_len. unfold zlen. rewrite Hlen, header_new, hash_iter_perm, length_map_to_list.
    rewrite (ok_total _ _ _ Hok). pose proof (ok_limit _ _ _ Hok).
    split_and!; [simpl; lia|done|]. apply Hok.
  - repeat match goal with Hp : into_present _ = Ok _ |- _ => apply ok_or_Ok in Hp end.
    match goal with
    | Hs : wire_cookie_jar_session_id _ = Some ?o, Hc : wire_credential_scope _ = Some ?o' |- _ =>
        rewrite Hs, Hc in *; destruct o, o'
    end; [done|..]; unfold transpose_map in *; simplify_result; auto.
Qed.

Context {W : Type} {D : CoreProxyBackend W}.

(** C33. The backend runs only for a runtime whose token the registry knows, and only
    on a request within the limits of the gateway: an allowed method, a bounded
    URL, at most 32 headers of 16 KiB together and none that the core owns, and
    not both a session and a credential.  Otherwise the answer is a fixed error
    and the backend's state is as it was. *)
Theorem backend_called_authenticated frame registry w response w' :
  dispatch_frame frame registry w = (response, w') →
  (w' = w ∧ (response = invalid_request ∨ response = proxy_unauthorized)) ∨
  ∃ wire token runtime request, decode_wire frame = Some wire ∧
    wire_token wire = Some (Some token) ∧ authenticate registry token = Ok runtime ∧
    into_core_request wire = Ok request ∧ core_request_ok request ∧
    w' = (backend_execute runtime request w).2.
Proof.
  unfold dispatch_frame. destruct (decode_wire frame) as [wire|]; [|intros [= <- <-]; auto].
  destruct (has_missing_nullable_field wire); [intros [= <- <-]; auto|].
  destruct (ok_or _ _ ≫= _) as [runtime|] eqn:Ea; [|intros [= <- <-]; auto].
  destruct (into_core_request wire) as [request|] eqn:Er; [|intros [= <- <-]; auto].
  apply bind_Ok in Ea as (token & Ht%ok_or_Ok & Ha).
  destruct (backend_execute runtime request w) as [answer w1] eqn:Eb. intros [= _ <-]. right.
  exists wire, token, runtime, request. rewrite Eb. split_and!; try done.
  - unfold as_present in Ht. by destruct (wire_token wire) as [[]|]; simplify_eq.
  - by eapply into_core_request_Ok.
Qed.
End dispatch.
