(* ===== verification/ProxyBackend.v ===== *)
(** * The backend of the gateway (crates/audiodown-server/src/proxy_adapters.rs)

    A request of an authenticated runtime is executed by the credential proxy of
    its plugin: the plugin is loaded from the database and must be enabled,
    healthy and consistent with its manifest, its proxy service is made once per
    plugin and manifest hash, and a requested scope selects the stored
    credential.  The environment of the proxy is the shared database with the
    vault and the grants on it ([CoreState]). *)

From S2P Require Import Prelude Stateful Text Std Domain Foreign CredentialContract Policy.
From S2P Require Import HttpProxy CredentialSecret CookieJar CredentialProxy Crypto Vault Database.
From S2P Require Import CredentialStore PluginStore StorageOps SqliteVault ProxyGateway.

Inductive ProxyAdapterError := AdapterNotFound | AdapterInactive | AdapterInvalidManifest
| AdapterUnavailable.

Definition map_adapter_error (error : ProxyAdapterError) : CoreProxyBackendError :=
  match error with
  | AdapterNotFound | AdapterInactive | AdapterInvalidManifest => BackendPolicyDenied
  | AdapterUnavailable => BackendUnavailable
  end.

Definition map_proxy_error (error : CredentialProxyError) : CoreProxyBackendError :=
  match error with
  | InvalidProxyRequest => BackendInvalidRequest
  | ScopeNotDeclared => BackendCredentialScopeNotAllowed
  | RefreshConflict => BackendBusy
  | DirectReflection => BackendResponseRejected
  | SecretUnavailable | ProxyUnavailable => BackendUnavailable
  | Proxy Timeout => BackendTimeout
  | Proxy ConcurrencyLimited => BackendBusy
  | Proxy (ResponseHeadersTooLarge | ResponseBodyTooLarge | InvalidResponseEncoding) =>
      BackendResponseRejected
  | Proxy Transport => BackendUnavailable
  | Proxy (MethodNotAllowed | RequestHeadersTooLarge | RequestBodyTooLarge) =>
      BackendInvalidRequest
  | ProxyJarNotFound | ProxyJarExpired | ProxyJarBindingMismatch | ProxyJarPurposeMismatch
  | ProxyCredentialNotFound | ProxyCredentialExpired | ProxyCredentialRevoked
  | CredentialMismatch | GrantMissing | GrantMismatch | OriginDenied | ProxyRequestRejected
  | Proxy (Policy _ | TooManyRedirects | InvalidRedirect | RequestRejected) =>
      BackendPolicyDenied
  end.

Definition valid_manifest_hash (hash : string) : bool :=
  (str_len hash =? 64)
  && str_all (λ byte, is_ascii_hexdigit byte && negb (is_ascii_uppercase byte)) hash.

(** [SystemDnsResolver::resolve], given the addresses the operating system
    finds, or its failure. *)
Definition SystemDnsResolver_resolve (found : option (list IpAddr)) :
    result ResolveError (list IpAddr) :=
  addresses ← ok_or found NotFound;
  let addresses := dedup (sort_by IpAddr_cmp addresses) in
  if (length addresses =? 0)%nat then Err NotFound else Ok addresses.

Section backend.
Context {U : UrlLib} {H : HeaderLib} {G : Gzip} {C : CookieLib} {B : Encoding} {K : Codec}.
Context {J : SecretJson} {A : Aead}.

(** What the core asks of the machine: the network, the clocks, randomness, and
    what the other tasks do to a service's jars. *)
Class CoreRuntime (V : Type) := {
  #[global] core_world :: World V;
  #[global] core_vault :: VaultRuntime V;
  core_clock : V → Clock * V;
  core_draws : V → list Uuid * V;
  core_jar_tasks : TemporaryCookieJars → V → TemporaryCookieJars * V;
}.

Context {V : Type} {R : CoreRuntime V}.
Context (master_key : MasterKey).

Definition core_state_world : World (CoreState V) := {|
  requests_try_acquire := ask_env requests_try_acquire;
  deadline_elapsed := ask_env deadline_elapsed;
  semaphore_closed := ask_env semaphore_closed;
  lock_poisoned := ask_env lock_poisoned;
  join_failed := ask_env join_failed;
  world_resolver := λ c host, ask_env (λ v, resolve v host) c;
  transport_execute := λ target request, ask_env (transport_execute target request) |}.

(** The ports of the proxy over the database. *)
Definition sqlite_env : CredentialEnv (CoreState V) := {|
  env_world := core_state_world;
  env_clock := ask_env core_clock;
  env_draws := ask_env core_draws;
  open_current := sqlite_open_current master_key;
  replace_cookie := sqlite_replace_cookie master_key;
  CredentialProxy.active_grant := sqlite_active_grant;
  other_tasks := λ jars, ask_env (core_jar_tasks jars) |}.

(** ** [SqliteInstalledPluginLoader] and [SqliteCredentialSelector] *)

Definition load_plugin (plugin_id : PluginId) :
    act (CoreState V) ProxyAdapterError InstalledPluginContext :=
  record ← map_errors (λ _, AdapterUnavailable) (with_storage (get_plugin plugin_id));
  record ← pure (ok_or record AdapterNotFound);
  if negb (PluginRecord_enabled record) || negb (eqb (PluginRecord_status record) Healthy)
  then throw AdapterInactive
  else
    manifest ← pure (ok_or (manifest_from_value (PluginRecord_manifest_json record))
                       AdapterInvalidManifest);
    if negb (eqb (PluginManifest_id manifest) (PluginRecord_plugin_id record))
       || negb (PluginType_eqb (PluginManifest_plugin_type manifest)
                  (PluginRecord_plugin_type record))
       || negb (eqb (PlatformSpec_id (PluginManifest_platform manifest))
                  (PluginRecord_platform_id record))
       || negb (eqb (PluginManifest_version manifest) (PluginRecord_version record))
       || negb (valid_manifest_hash (PluginRecord_manifest_hash record))
    then throw AdapterInvalidManifest
    else mret (mkInstalledPluginContext (PluginRecord_plugin_id record)
                 (PluginRecord_manifest_hash record) manifest).

Definition select_credential (scope : CredentialScope) :
    act (CoreState V) ProxyAdapterError (option CredentialSelection) :=
  record ← map_errors (λ _, AdapterUnavailable) (with_storage (get_by_scope scope));
  mret ((λ record, mkCredentialSelection (record_id record) scope) <$> record).

(** ** [SqliteCoreProxyBackend] *)

(** A service: its policy and its jars. *)
Record ProxyService := mkProxyService {
  service_policy : ProxyPolicy;
  service_jars : TemporaryCookieJars;
}.

Record BackendState := mkBackendState {
  backend_services : gmap (PluginId * string) ProxyService;
  backend_services_poisoned : bool;
  backend_core : CoreState V;
}.

Definition set_core (b : BackendState) (c : CoreState V) : BackendState :=
  mkBackendState (backend_services b) (backend_services_poisoned b) c.
Definition on_core {E T} (m : act (CoreState V) E T) : act BackendState E T := focus backend_core (λ c b, set_core b c) m.

Definition service_key (plugin : InstalledPluginContext) : PluginId * string :=
  (context_plugin_id plugin, context_manifest_hash plugin).

Definition service_for (plugin : InstalledPluginContext) :
    act BackendState ProxyAdapterError ProxyService := λ b,
  if backend_services_poisoned b then (Err AdapterUnavailable, b)
  else
    match backend_services b !! service_key plugin with
    | Some service => (Ok service, b)
    | None =>
        let service := mkProxyService (ProxyPolicy_production (context_manifest plugin))
                         TemporaryCookieJars_new in
        (Ok service, mkBackendState (<[service_key plugin := service]> (backend_services b))
                       (backend_services_poisoned b) (backend_core b))
    end.

(** [service.execute(..)]: the service keeps its jars.  The exchange holds the
    requests that were sent. *)
Definition execute_service (plugin : InstalledPluginContext) (service : ProxyService)
    (request : CredentialProxyRequest) (b : BackendState) :
    result CredentialProxyError ProxyResponse * list (PinnedTarget * TransportRequest) * BackendState :=
  let '(r, x) := proxy_execute (E := sqlite_env) (service_policy service) plugin request
                   (mkProxyState (service_jars service) None (backend_core b)) in
  let s := exchange_world x in
  (r, exchange_sent x,
   mkBackendState
     (<[service_key plugin := mkProxyService (service_policy service) (ps_jars s)]>
        (backend_services b))
     (backend_services_poisoned b) (ps_env s)).

(** What [execute] finds out before the exchange. *)
Definition prepare_execute (runtime : AuthenticatedRuntime) (request : CoreProxyRequest) :
    act BackendState CoreProxyBackendError
      (InstalledPluginContext * ProxyService * CredentialProxyRequest) :=
  plugin ← map_errors map_adapter_error (on_core (load_plugin (runtime_plugin_id runtime)));
  service ← map_errors map_adapter_error (service_for plugin);
  credential ←
    match core_credential_scope request with
    | Some scope =>
        selection ← map_errors map_adapter_error (on_core (select_credential scope));
        selection ← pure (ok_or selection BackendCredentialScopeNotAllowed);
        mret (Some selection)
    | None => mret None
    end;
  mret (plugin, service,
        mkCredentialProxyRequest
          (mkProxyRequest (core_method request) (core_url request) (core_headers request)
             (core_body request))
          (core_cookie_jar_session_id request) credential).

(** [execute], with the requests it sent. *)
Definition execute_traced (runtime : AuthenticatedRuntime) (request : CoreProxyRequest)
    (b : BackendState) :
    result CoreProxyBackendError CoreProxyResponse * list (PinnedTarget * TransportRequest)
    * BackendState :=
  match prepare_execute runtime request b with
  | (Err e, b) => (Err e, [], b)
  | (Ok (plugin, service, proxied), b) =>
      let '(r, sent, b) := execute_service plugin service proxied b in
      (match r with
       | Ok response => Ok (mkCoreProxyResponse (ProxyResponse_status response)
                              (ProxyResponse_headers response) (ProxyResponse_body response))
       | Err error => Err (map_proxy_error error)
       end, sent, b)
  end.

Global Instance SqliteCoreProxyBackend : CoreProxyBackend BackendState := {|
  backend_execute := λ runtime request b,
    let '(r, _, b) := execute_traced runtime request b in (r, b) |}.
End backend.

Arguments BackendState {U C K} V : assert.
