(* ===== verification/ProxyBackendProps.v ===== *)
(** * Properties of the backend

    From a request of an authenticated runtime to the database: a stored
    credential is sent only as a record of the database, opened under the master
    key, for a grant in force. *)

From S2P Require Import Prelude Stateful Text Std Domain Foreign CredentialContract Policy.
From S2P Require Import PolicyFacts HttpProxy HttpFacts CredentialSecret CookieJar CredentialProxy.
From S2P Require Import CredentialProxyFacts CredentialProxyProps Crypto Vault Database.
From S2P Require Import Database CredentialStore CredentialStoreFacts PluginStore StorageOps.
From S2P Require Import StorageHistory GrantProps SqliteVault ProxyGateway.
From S2P Require Import ProxyBackend.

Section backend_props.
Context {U : UrlLib} {H : HeaderLib} {G : Gzip} {C : CookieLib} {B : Encoding} {K : Codec}.
Context `{!CodecLaws K} {J : SecretJson} {A : Aead} {V : Type} {R : CoreRuntime V}.
Context (master_key : MasterKey).
Existing Instance sqlite_env.

Lemma reads_only_active_grant plugin_id id scope :
  reads_only (CredentialStore.active_grant plugin_id id scope).
Proof.
  unfold CredentialStore.active_grant, load_grant_origins, load_credential_origins. preserves.
Qed.
Lemma reads_only_get_plugin plugin_id : reads_only (get_plugin plugin_id).
Proof. unfold get_plugin. preserves. Qed.

(** ** The environment of the proxy *)

Section one_credential.
Context (id : CredentialId) (Hid : uuid_value (CredentialId_as_uuid id)).

Lemma ask_env_respects {T} (f : V → T * V) : respects (core_later id) (ask_env f).
Proof.
  intros c. destruct (ask_env f c) as [a c'] eqn:E. by destruct (ask_env_later id f c a c' E).
Qed.
Lemma core_reads_respects {E T} (m : act (CoreState V) E T) :
  core_reads id m → respects (core_later id) m.
Proof. intros Hm c. destruct (m c) as [r c'] eqn:E'. by eapply Hm. Qed.

Lemma core_reads_grant plugin_id id' scope :
  core_reads id (sqlite_active_grant (V := V) plugin_id id' scope).
Proof. unfold sqlite_active_grant. core_reads. apply reads_only_active_grant. Qed.

Lemma sqlite_env_respects : env_respects (E := sqlite_env master_key) (core_later id).
Proof.
  split; [split; intros; apply ask_env_respects|apply ask_env_respects|..|intros; apply ask_env_respects].
  - intros id'. apply core_reads_respects. by apply core_reads_open.
  - intros plugin_id id' scope. apply core_reads_respects, core_reads_grant.
Qed.
End one_credential.

(** ** What a hop with a stored credential read from the database *)

(** The clock read in environment [c] once the vault and the grants have
    answered, and the one read after it. *)
Definition hop_clocks (plugin : InstalledPluginContext) (selection : CredentialSelection)
    (c : CoreState V) (clock clock' : Clock) : Prop :=
  ∃ opened grant w w1 w2 w3,
    sqlite_open_current master_key (selection_credential_id selection) c = (opened, w) ∧
    sqlite_active_grant (context_plugin_id plugin) (selection_credential_id selection)
      (selection_scope selection) w = (grant, w1) ∧
    ask_env core_clock w1 = (clock, w2) ∧ ask_env core_clock w2 = (clock', w3).

(** The secret is that of the record [r], stored in [db1] and not expired at
    [now]; the grant is in force in the later [db2] for the record stored
    there. *)
Record stored_credential_used (c : CoreState V) (plugin : InstalledPluginContext)
    (selection : CredentialSelection) (target : PinnedTarget) (now : time)
    (secret : CredentialSecretGuard) (db1 db2 : Db) (r : CredentialRecord) : Prop := {
  used_evolves : evolves (selection_credential_id selection) (core_db c) db1 ∧
    evolves (selection_credential_id selection) db1 db2;
  used_record : record_id r = selection_credential_id selection ∧ credential_at db1 r ∧
    record_scope r = selection_scope selection ∧ record_status r = Active ∧
    record_platform_id r = PlatformSpec_id (PluginManifest_platform (context_manifest plugin));
  used_unexpired : ∀ t, record_expires_at r = Some t → now < t;
  used_secret : open_record master_key (record_to_stored r) = Ok secret;
  used_grant : ∃ r' grant, record_id r' = selection_credential_id selection ∧
    credential_at db2 r' ∧
    grant_in_force db2 (context_plugin_id plugin) r' (selection_scope selection) grant ∧
    scope_grant_manifest_hash grant = context_manifest_hash plugin ∧
    ∃ origin, CredentialTargetOrigin_parse (Url_origin (PinnedTarget_url target)) = Ok origin ∧
      origin ∈ record_target_origins r ∧ origin ∈ scope_grant_target_origins grant;
}.

(** The request with the header that carries the secret: the token, or the
    cookies of it that belong on the URL at [now]. *)
Definition carries (now : time) (kind : CredentialKind) (secret : CredentialSecretGuard)
    (target : PinnedTarget) (request sent : TransportRequest) : Prop :=
  match kind with
  | Cookie => ∃ cookies header, CredentialSecretGuard_cookie secret = Some cookies ∧
      stored_cookie_header now cookies (PinnedTarget_url target) = Ok (Some header) ∧
      sent = set_header request "cookie" header
  | Token => ∃ token header, CredentialSecretGuard_token secret = Some token ∧
      HeaderValue_from_str ("Bearer " +:+ TokenCredentialSecret_value token) = Some header ∧
      sent = set_header request "authorization" header
  end.

Lemma sqlite_active_grant_Ok plugin_id id scope (c : CoreState V) snapshot :
  uuid_value (CredentialId_as_uuid id) → core_ok id c →
  (sqlite_active_grant plugin_id id scope c).1 = Ok (Some snapshot) →
  ∃ db r grant, evolves id (core_db c) db ∧ record_id r = id ∧ credential_at db r ∧
    grant_in_force db plugin_id r scope grant ∧
    grant_manifest_hash snapshot = scope_grant_manifest_hash grant ∧
    grant_target_origins snapshot = scope_grant_target_origins grant.
Proof.
  intros Hid Hc Hg. destruct (sqlite_active_grant _ _ _ c) as [res c'] eqn:E. simpl in Hg. subst res.
  unfold sqlite_active_grant in E.
  apply act_bind_Ok in E as (grant & c1 & Hw%map_errors_Ok & [Hs ->]%act_ret_Ok).
  destruct grant as [grant|]; [|done]. injection Hs as ->.
  rewrite with_storage_run in Hw. injection Hw as Hg _.
  destruct (interrupted_later id Hid c Hc) as [Hok He].
  destruct (CredentialStore.active_grant _ _ _ _) as [res s] eqn:Ea. simpl in Hg. subst res.
  apply active_grant_stored in Ea as (r & Hr & Hat & Hf); [|done..].
  exists (store_db (interrupted c)), r, grant. done.
Qed.

Lemma credential_hop_used (s0 s : ProxyState (CoreState V)) plugin selection target request state sent :
  let id := selection_credential_id selection in
  uuid_value (CredentialId_as_uuid id) → core_ok id (ps_env s0) →
  core_later id (ps_env s0) (ps_env s) →
  credential_hop (E := sqlite_env master_key) s plugin selection target request state sent →
  ∃ clock clock' secret db1 db2 r, hop_clocks plugin selection (ps_env s) clock clock' ∧
    stored_credential_used (ps_env s0) plugin selection target (utc_now clock) secret db1 db2 r ∧
    carries (utc_now clock') (record_kind r) secret target request sent.
Proof.
  intros id Hid Hok Hl (declaration & opened & grant & origin & clock & w & w1 & w2 & _ & Ho & Hg
    & Horigin & Hclock & Ha & Hk).
  destruct (Hl Hok) as [Hok1 He1]. simpl in Ho, Hg, Hclock.
  assert (∀ clock' w3, ask_env core_clock w2 = (clock', w3) →
    hop_clocks plugin selection (ps_env s) clock clock') as Hclocks
    by (intros clock' w3 Hc; by exists (Ok (Some opened)), (Ok (Some grant)), w, w1, w2, w3).
  apply (f_equal fst) in Hg.
  pose proof (core_reads_open master_key id (selection_credential_id selection) Hid _ _ _ Ho) as Hl2.
  destruct (Hl2 Hok1) as [Hok2 He2].
  apply open_current_record in Ho as (r & Hr & Hat & (status & Hm & Hstatus) & Hopen & _); [|done..].
  apply sqlite_active_grant_Ok in Hg as (db2 & r' & g & He3 & Hr' & Hat' & Hforce & Hmh & Hto); [|done..].
  destruct Ha as [(Hi1 & Hi2 & Hi3) [Hact Hexp] (_ & Hhash & _) (_ & Hin1 & Hin2) _].
  rewrite Hm in *. simpl in *.
  assert (stored_credential_used (ps_env s0) plugin selection target (utc_now clock)
    (opened_secret opened) (core_db w) db2 r) as Hused.
  { split; [split; [|done]|..].
    + by apply (evolves_trans id _ (core_db (ps_env s))); [apply Hok1|..].
    + split_and!; try done. naive_solver congruence.
    + done.
    + done.
    + exists r', g. split_and!; try done; [congruence|]. exists origin. by rewrite <- Hto. }
  unfold carries. destruct (record_kind r) eqn:Ek.
  - destruct Hk as (secret & cookie & clock' & w3 & Hs & Hc' & Hc & _ & Hsent).
    exists clock, clock', (opened_secret opened), (core_db w), db2, r. rewrite Ek. eauto 10.
  - destruct Hk as (token & value & Ht & Hv & _ & _ & Hsent).
    destruct (ask_env core_clock w2) as [clock' w3] eqn:Ec.
    exists clock, clock', (opened_secret opened), (core_db w), db2, r. rewrite Ek. eauto 10.
Qed.

(** ** The backend *)

(** The cache is keyed by a plugin and a manifest hash, so which manifest a hash
    stands for is a parameter: the hash was taken of the manifest's file when the
    plugin was installed.  Every service enforces the production policy of the
    manifest of its own key. *)
Context (published : PluginId → string → PluginManifest).
Definition production (key : PluginId * string) (service : ProxyService) : Prop :=
  service_policy service = ProxyPolicy_production (published key.1 key.2).
Definition services_ok (b : BackendState V) : Prop :=
  ∀ key service, backend_services b !! key = Some service → production key service.

(** The manifest of a loaded plugin is the one its hash stands for. *)
Definition manifest_published (plugin : InstalledPluginContext) : Prop :=
  context_manifest plugin = published (context_plugin_id plugin) (context_manifest_hash plugin).
Definition loads_published (plugin_id : PluginId) (b : BackendState V) : Prop :=
  ∀ plugin c, load_plugin plugin_id (backend_core b) = (Ok plugin, c) → manifest_published plugin.

Lemma on_core_run {E T} (m : act (CoreState V) E T) (b : BackendState V) :
  on_core m b = ((m (backend_core b)).1, set_core b (m (backend_core b)).2).
Proof. unfold on_core, focus. by destruct (m _). Qed.

(** The plugin's row in [db] is enabled and healthy, and its manifest is the
    context's. *)
Definition plugin_loaded (db : Db) (plugin_id : PluginId) (plugin : InstalledPluginContext) : Prop :=
  context_plugin_id plugin = plugin_id ∧ PluginManifest_id (context_manifest plugin) = plugin_id ∧
  ∃ row value, db_plugins db !! PluginId_as_str plugin_id = Some row ∧
    plugin_row_enabled row = true ∧
    plugin_status_from_str (plugin_row_status row) = Ok Healthy ∧
    plugin_row_manifest_hash row = context_manifest_hash plugin ∧
    json_from_str (plugin_row_manifest_json row) = Some value ∧
    manifest_from_value value = Some (context_manifest plugin).

Lemma get_plugin_Ok plugin_id s record s' :
  get_plugin plugin_id s = (Ok (Some record), s') →
  ∃ row, db_plugins (store_db s) !! PluginId_as_str plugin_id = Some row ∧
    decode_plugin (PluginId_as_str plugin_id) row = Ok record.
Proof.
  unfold get_plugin. intros Hg.
  apply act_bind_Ok in Hg as (row & s1 & [-> _]%select_Ok & [Hd _]%pure_Ok).
  unfold transpose_map in Hd. destruct (db_plugins _ !! _) as [row|]; [|done].
  apply bind_Ok in Hd as (record' & Hd & [= ->]). eauto.
Qed.

Lemma decode_plugin_Ok plugin_id row record :
  decode_plugin (PluginId_as_str plugin_id) row = Ok record →
  PluginRecord_plugin_id record = plugin_id ∧ PluginRecord_enabled record = plugin_row_enabled row ∧
  plugin_status_from_str (plugin_row_status row) = Ok (PluginRecord_status record) ∧
  PluginRecord_manifest_hash record = plugin_row_manifest_hash row ∧
  json_from_str (plugin_row_manifest_json row) = Some (PluginRecord_manifest_json record).
Proof.
  unfold decode_plugin, invalid. intros Hd. simplify_result. split_and!; try done.
  match goal with Hp : PluginId_parse _ = Ok ?q |- _ => apply PluginId_parse_str in Hp; destruct q, plugin_id end.
  simpl in *. congruence.
Qed.

Lemma load_plugin_Ok plugin_id (c : CoreState V) plugin c' :
  load_plugin plugin_id c = (Ok plugin, c') → plugin_loaded (core_db c') plugin_id plugin.
Proof.
  unfold load_plugin. intros Hl. act_steps.
  match goal with Hw : with_storage _ _ = _ |- _ => rewrite with_storage_run in Hw; injection Hw as Hg Hc end.
  destruct (get_plugin plugin_id (interrupted c)) as [res s] eqn:E. simpl in Hg. subst res.
  pose proof (reads_only_get_plugin _ _ _ _ E) as Hro.
  apply get_plugin_Ok in E as (row & Hrow & Hd).
  apply decode_plugin_Ok in Hd as (Hid & Hen & Hst & Hh & Hj). bool_prop. simpl in *.
  subst. unfold core_db. simpl. unfold unchanged in Hro. rewrite Hro.
  split_and!; [done|done|]. do 2 eexists. split_and!; try done; congruence.
Qed.

Lemma core_reads_load id plugin_id :
  uuid_value (CredentialId_as_uuid id) → core_reads id (load_plugin (V := V) plugin_id).
Proof. intros Hid. unfold load_plugin. core_reads. apply reads_only_get_plugin. Qed.
Lemma core_reads_select id scope :
  uuid_value (CredentialId_as_uuid id) → core_reads id (select_credential (V := V) scope).
Proof. intros Hid. unfold select_credential. core_reads. apply reads_only_get_by_scope. Qed.

Lemma service_for_Ok plugin (b : BackendState V) service b1 :
  manifest_published plugin → services_ok b → service_for plugin b = (Ok service, b1) →
  production (service_key plugin) service ∧ services_ok b1 ∧ backend_core b1 = backend_core b.
Proof.
  intros Hm Hs. unfold service_for. destruct (backend_services_poisoned b); [done|].
  destruct (backend_services b !! _) as [service'|] eqn:E; intros [= <- <-].
  - split_and!; [by eapply Hs|done|done].
  - assert (production (service_key plugin) (mkProxyService
      (ProxyPolicy_production (context_manifest plugin)) TemporaryCookieJars_new)) as Hp
      by (unfold production; simpl; by rewrite Hm).
    split_and!; [done| |done]. intros key sv. simpl. rewrite lookup_insert_Some.
    intros [[<- <-]|[_ Hsv]]; [done|by eapply Hs].
Qed.

Lemma selected_Ok request (b : BackendState V) credential b1 :
  match core_credential_scope request with
  | Some scope =>
      selection ← map_errors map_adapter_error (on_core (select_credential scope));
      selection ← pure (ok_or selection BackendCredentialScopeNotAllowed);
      mret (Some selection)
  | None => mret None
  end b = (Ok credential, b1) →
  backend_services b1 = backend_services b ∧
  (∀ id, uuid_value (CredentialId_as_uuid id) → core_later id (backend_core b) (backend_core b1)) ∧
  match core_credential_scope request with
  | Some scope => ∃ selection, credential = Some selection ∧ selection_scope selection = scope ∧
      select_credential scope (backend_core b) = (Ok (Some selection), backend_core b1)
  | None => credential = None
  end.
Proof.
  destruct (core_credential_scope request) as [scope|].
  2: { intros [-> ->]%act_ret_Ok. split_and!; [done| |done]. intros id Hid.
       pose proof (core_later_preorder (V := V) id Hid). reflexivity. }
  intros Hb. apply act_bind_Ok in Hb as (selection & b2 & Hs%map_errors_Ok & Hb).
  apply act_bind_Ok in Hb as (selection' & b3 & [->%ok_or_Ok ->]%pure_Ok & [-> ->]%act_ret_Ok).
  rewrite on_core_run in Hs. destruct (select_credential scope (backend_core b)) as [res c] eqn:E.
  injection Hs as -> <-. split_and!; [done|intros id Hid; by eapply core_reads_select|].
  exists selection'. split; [done|]. split; [|done]. unfold select_credential in E.
  apply act_bind_Ok in E as (record & c1 & _ & [Hs _]%act_ret_Ok). by destruct record; simplify_eq/=.
Qed.

Lemma prepare_execute_Ok runtime request (b : BackendState V) plugin service proxied b1 :
  loads_published (runtime_plugin_id runtime) b → services_ok b →
  prepare_execute runtime request b = (Ok (plugin, service, proxied), b1) →
  manifest_published plugin ∧ production (service_key plugin) service ∧ services_ok b1 ∧
  proxy_cookie_jar_session_id proxied = core_cookie_jar_session_id request ∧
  ∃ c, load_plugin (runtime_plugin_id runtime) (backend_core b) = (Ok plugin, c) ∧
    (∀ id, uuid_value (CredentialId_as_uuid id) →
      core_later id (backend_core b) c ∧ core_later id c (backend_core b1)) ∧
    match core_credential_scope request with
    | Some scope => ∃ selection, proxy_credential proxied = Some selection ∧
        selection_scope selection = scope ∧
        select_credential scope c = (Ok (Some selection), backend_core b1)
    | None => proxy_credential proxied = None
    end.
Proof.
  intros Hpub Hs Hp. unfold prepare_execute in Hp.
  apply act_bind_Ok in Hp as (plugin' & b2 & Hl%map_errors_Ok & Hp).
  apply act_bind_Ok in Hp as (service' & b3 & Hsv%map_errors_Ok & Hp).
  apply act_bind_Ok in Hp as (credential & b4 & Hc & [[= -> -> ->] ->]%act_ret_Ok).
  rewrite on_core_run in Hl. destruct (load_plugin _ (backend_core b)) as [res c] eqn:El.
  injection Hl as -> <-. pose proof (Hpub _ _ El) as Hm.
  apply service_for_Ok in Hsv as (Hpolicy & Hs3 & Hcore); [|done..].
  apply selected_Ok in Hc as (Hservices & Hlater & Hsel). simpl in Hcore.
  split_and!; [done|done| |done|].
  { intros key sv. rewrite Hservices. apply Hs3. }
  rewrite Hcore in Hsel, Hlater. exists c. split; [done|]. split; [|done]. intros id Hid.
  split; [by eapply core_reads_load|]. by apply Hlater.
Qed.

Lemma prepare_execute_request runtime request (b : BackendState V) plugin service proxied b1 :
  prepare_execute runtime request b = (Ok (plugin, service, proxied), b1) →
  proxy_request proxied =
    mkProxyRequest (core_method request) (core_url request) (core_headers request) (core_body request).
Proof.
  unfold prepare_execute. intros Hp.
  apply act_bind_Ok in Hp as (? & ? & _ & Hp). apply act_bind_Ok in Hp as (? & ? & _ & Hp).
  by apply act_bind_Ok in Hp as (? & ? & _ & [[= -> -> ->] ->]%act_ret_Ok).
Qed.

Definition keeps_services {E T} (m : act (BackendState V) E T) : Prop :=
  ∀ b r b', m b = (r, b') → services_ok b → services_ok b'.

Lemma keeps_bind {E T1 T2} (m : act (BackendState V) E T1) (f : T1 → act (BackendState V) E T2) :
  keeps_services m → (∀ a, keeps_services (f a)) → keeps_services (m ≫= f).
Proof.
  intros Hm Hf b r b'. unfold mbind, act_bind. destruct (m b) as [[a|e] b1] eqn:Em; intros Hr Hs.
  - eapply Hf; [done|]. by eapply Hm.
  - injection Hr as _ <-. by eapply Hm.
Qed.
Lemma keeps_map_errors {E F T} (g : E → F) (m : act (BackendState V) E T) :
  keeps_services m → keeps_services (map_errors g m).
Proof.
  intros Hm b r b'. unfold map_errors. destruct (m b) as [r' b1] eqn:Em. intros [= _ <-].
  by eapply Hm.
Qed.
Lemma keeps_on_core {E T} (m : act (CoreState V) E T) : keeps_services (on_core m).
Proof. intros b r b'. rewrite on_core_run. intros [= _ <-]. done. Qed.
Lemma keeps_done {E T} (r : result E T) : keeps_services (λ b, (r, b)).
Proof. by intros b r' b' [= _ <-]. Qed.

Lemma prepare_services runtime request (b : BackendState V) r b' :
  loads_published (runtime_plugin_id runtime) b → services_ok b →
  prepare_execute runtime request b = (r, b') → services_ok b'.
Proof.
  intros Hpub Hs. unfold prepare_execute at 1. unfold mbind, act_bind at 1.
  unfold map_errors at 1. rewrite on_core_run.
  destruct (load_plugin _ (backend_core b)) as [[plugin|e] c] eqn:El; simpl;
    [|by intros [= _ <-]].
  intros Hr. revert Hr Hs. fold (services_ok b). change (services_ok b) with (services_ok (set_core b c)).
  revert r b'. generalize (set_core b c). pose proof (Hpub _ _ El) as Hm.
  apply keeps_bind; [apply keeps_map_errors|].
  { intros b1 [service|e] b2 Hsv Hs; [by eapply service_for_Ok|].
    unfold service_for in Hsv. repeat case_match; by simplify_eq. }
  intros service. apply keeps_bind; [|intros credential; apply keeps_done].
  destruct (core_credential_scope request); [|apply keeps_done].
  apply keeps_bind; [apply keeps_map_errors, keeps_on_core|]. intros selection.
  apply keeps_bind; [apply keeps_done|]. intros ?. apply keeps_done.
Qed.

Lemma execute_service_services plugin service proxied (b : BackendState V) r sent b' :
  production (service_key plugin) service → services_ok b →
  execute_service master_key plugin service proxied b = (r, sent, b') → services_ok b'.
Proof.
  intros Hp Hs. unfold execute_service. destruct (proxy_execute _ _ _ _) as [r' x].
  intros [= _ _ <-] key sv. simpl. rewrite lookup_insert_Some.
  intros [[<- <-]|[_ Hsv]]; [done|by eapply Hs].
Qed.

Lemma execute_service_sent plugin service proxied (b : BackendState V) r sent b' selection manifest :
  service_policy service = ProxyPolicy_production manifest →
  proxy_credential proxied = Some selection →
  execute_service master_key plugin service proxied b = (r, sent, b') →
  zlen sent ≤ 6 ∧ ∀ target request', (target, request') ∈ sent →
    target_ok (ProxyPolicy_production manifest) target ∧
    ∃ s' state,
      hooked_reachable (E := sqlite_env master_key) plugin (ModeCredential selection)
        (mkProxyState (service_jars service) None (backend_core b)) s' ∧
      credential_hop (E := sqlite_env master_key) s' plugin selection target
        (base_request (proxy_request proxied) target) state request'.
Proof.
  intros Hp Hsel. unfold execute_service.
  destruct (proxy_execute _ _ _ _) as [r' x] eqn:Ex. intros [= _ <- _].
  destruct (exchange_sent x) as [|e l] eqn:Hx.
  { split; [done|]. intros ?? Hin. by apply not_elem_of_nil in Hin. }
  rewrite <- Hx. apply proxy_execute_mode in Ex; [|left; by rewrite Hx]. rewrite Hsel in Ex.
  destruct (proxy_cookie_jar_session_id proxied); [done|]. rewrite Hp in Ex.
  apply run_hooked_sent in Ex as [Hlen Hall]; [|constructor]. split; [done|].
  intros target request' Hin. destruct (Hall _ _ Hin) as (Hok & s' & state & Hs' & Hhop). eauto 10.
Qed.

(** C1. A stored credential that the backend sends for a runtime, over the whole
    call and with other tasks writing to the database meanwhile (though not
    creating that credential anew): the runtime's plugin was enabled and healthy
    in the database and its manifest is the one checked; the secret was opened
    from the active record stored under the selected identifier, for the
    requested scope and the plugin's platform, not expired by the clock read
    after the vault and the grants had answered; a grant was in force for the
    plugin, under that manifest, on the record stored then, which is the same
    record if its revision is the same; the URL's origin is one of the record's
    and of the grant's; and the header carries the opened secret, of a cookie
    secret the cookies that belong on the URL by the clock read next.  At most
    six requests are sent, each to a target that the production policy of the
    plugin's own manifest allows, also when the service comes out of the cache,
    as long as the stored hashes tell the plugin's manifests apart. *)
Theorem backend_credential_use runtime request (b : BackendState V) scope r sent b' :
  loads_published (runtime_plugin_id runtime) b → services_ok b →
  core_credential_scope request = Some scope →
  execute_traced master_key runtime request b = (r, sent, b') →
  services_ok b' ∧ zlen sent ≤ 6 ∧
  (sent = [] ∨ ∃ plugin selection c jars c1,
    load_plugin (runtime_plugin_id runtime) (backend_core b) = (Ok plugin, c) ∧
    plugin_loaded (core_db c) (runtime_plugin_id runtime) plugin ∧
    select_credential scope c = (Ok (Some selection), c1) ∧ selection_scope selection = scope ∧
    ∀ target request', (target, request') ∈ sent →
      target_ok (ProxyPolicy_production (context_manifest plugin)) target ∧
      let id := selection_credential_id selection in
      (uuid_value (CredentialId_as_uuid id) → core_ok id (backend_core b) →
       evolves id (core_db (backend_core b)) (core_db c) ∧
       ∃ s' clock clock' secret db1 db2 record,
         hooked_reachable (E := sqlite_env master_key) plugin (ModeCredential selection)
           (mkProxyState jars None c1) s' ∧
         hop_clocks plugin selection (ps_env s') clock clock' ∧
         stored_credential_used c plugin selection target (utc_now clock) secret db1 db2 record ∧
         carries (utc_now clock') (record_kind record) secret target
           (base_request (mkProxyRequest (core_method request) (core_url request)
              (core_headers request) (core_body request)) target) request')).
Proof.
  intros Hpub Hs Hscope. unfold execute_traced.
  destruct (prepare_execute runtime request b) as [[[[plugin service] proxied]|e] b1] eqn:Ep.
  2: { intros [= _ <- <-]. split_and!; [by eapply prepare_services|done|by left]. }
  pose proof Ep as Hreq. apply prepare_execute_request in Hreq.
  apply prepare_execute_Ok in Ep as (Hm & Hp & Hs1 & _ & c & Hload & Hlater & Hsel); [|done..].
  rewrite Hscope in Hsel. destruct Hsel as (selection & Hsel & Hsc & Hselect).
  destruct (execute_service _ _ _ _ _) as [[r' sent'] b2] eqn:Ee. intros [= _ <- <-].
  split; [by eapply execute_service_services|].
  apply (execute_service_sent _ _ _ _ _ _ _ selection (context_manifest plugin)) in Ee
    as [Hlen Hall]; [|by rewrite Hm|done].
  split; [done|]. right.
  exists plugin, selection, c, (service_jars service), (backend_core b1).
  split_and!; [done|by eapply load_plugin_Ok|done..|].
  intros target request' Hin. destruct (Hall _ _ Hin) as (Hok & s' & state & Hreach & Hhop).
  split; [done|]. intros Hid Hcore. destruct (Hlater _ Hid) as [Hl1 Hl2].
  destruct (Hl1 Hcore) as [Hc He]. split; [done|]. rewrite Hreq in Hhop. exists s'.
  eapply (credential_hop_used (mkProxyState (service_jars service) None c)) in Hhop
    as (clock & clock' & secret & db1 & db2 & record & Hhop); [by eauto 10|done..|].
  pose proof (core_later_preorder (V := V) _ Hid). simpl. etrans; [exact Hl2|].
  eapply hooked_reachable_env in Hreach; [exact Hreach|done|by apply sqlite_env_respects].
Qed.
End backend_props.
