(* ===== verification/SupervisorProtocol.v ===== *)
(** * The supervisor protocol (crates/audiodown-supervisor-protocol/src/lib.rs)

    The messages between the core and the supervisor: requests with the shape
    check that every request passes before it is authenticated, responses, and
    the record of an install operation both sides keep.  JSON values and their
    conversion are the [Codec] interface and [ProtocolJson]. *)

From S2P Require Import Prelude Text Domain ContentContract Database.

Definition MAX_OPERATION_LIST_ITEMS : Z := 256.
Definition MAX_ERROR_DETAILS_BYTES : Z := 64 * 1024.
Definition MAX_PLUGIN_RPC_BYTES : Z := 1024 * 1024.
Definition MAX_PROXY_TOKEN_BYTES : Z := 4 * 1024.

Inductive ProtocolError :=
  | MissingParams | UnexpectedParams | InvalidParams | InvalidProxyToken
  | InvalidRpcParams | RpcParamsTooLarge | InvalidRpcResponse | RpcResponseTooLarge
  | InvalidErrorDetails | ErrorDetailsTooLarge.
Global Instance ProtocolError_eq_dec : EqDecision ProtocolError.
Proof. solve_decision. Defined.

(** The conversions of serde_json the protocol uses besides those of [Codec]. *)
Class ProtocolJson {K : Codec} := {
  search_request_from_value : Json → option SearchRequest;
  discover_request_from_value : Json → option DiscoverRequest;
  categories_request_from_value : Json → option CategoriesRequest;
  album_request_from_value : Json → option AlbumGetRequest;
  tracks_request_from_value : Json → option TracksListRequest;
  rpc_response_to_vec : JsonRpcResponse Json → option (list byte);
  (** [value.as_object().len()], and [Value::is_array] *)
  json_object_len : Json → option Z;
  json_is_array : Json → bool;
}.

(** ** Install operations *)

Inductive PluginInstallOperationState :=
  Accepted | Building | Built | Finalized | Failed | Aborted.
Global Instance PluginInstallOperationState_eq_dec : EqDecision PluginInstallOperationState.
Proof. solve_decision. Defined.

Definition is_terminal (state : PluginInstallOperationState) : bool :=
  match state with Finalized | Failed | Aborted => true | _ => false end.

Record PluginInstallArtifact := mkPluginInstallArtifact {
  artifact_image_id : string;
  artifact_repository_id : string;
  artifact_commit_sha : string;
  artifact_source_hash : string;
  artifact_manifest_hash : string;
}.
Global Instance PluginInstallArtifact_eq_dec : EqDecision PluginInstallArtifact.
Proof. solve_decision. Defined.

Inductive PluginBuildLogStream := Stdout | Stderr | System.
Global Instance PluginBuildLogStream_eq_dec : EqDecision PluginBuildLogStream.
Proof. solve_decision. Defined.

Record PluginBuildLog := mkPluginBuildLog {
  build_log_sequence : Z;
  build_log_stream : PluginBuildLogStream;
  build_log_message : string;
}.
Global Instance PluginBuildLog_eq_dec : EqDecision PluginBuildLog.
Proof. solve_decision. Defined.

Record PluginInstallOperation := mkPluginInstallOperation {
  operation_id : Uuid;
  operation_plugin_id : PluginId;
  operation_state : PluginInstallOperationState;
  operation_artifact : option PluginInstallArtifact;
  operation_build_logs : list PluginBuildLog;
  operation_error_code : option string;
  operation_acknowledged : bool;
}.
Global Instance PluginInstallOperation_eq_dec : EqDecision PluginInstallOperation.
Proof. solve_decision. Defined.

Record PluginInstallOperationSummary := mkPluginInstallOperationSummary {
  summary_operation_id : Uuid;
  summary_plugin_id : PluginId;
  summary_state : PluginInstallOperationState;
  summary_artifact : option PluginInstallArtifact;
  summary_error_code : option string;
  summary_acknowledged : bool;
}.

Definition operation_summary (self : PluginInstallOperation) : PluginInstallOperationSummary := {|
  summary_operation_id := operation_id self;
  summary_plugin_id := operation_plugin_id self;
  summary_state := operation_state self;
  summary_artifact := operation_artifact self;
  summary_error_code := operation_error_code self;
  summary_acknowledged := operation_acknowledged self;
|}.

Record PluginInstallOperationList := mkPluginInstallOperationList {
  list_operations : list PluginInstallOperationSummary;
}.

(** [operations.truncate(MAX_OPERATION_LIST_ITEMS)] *)
Definition PluginInstallOperationList_new (operations : list PluginInstallOperationSummary) :
    PluginInstallOperationList :=
  mkPluginInstallOperationList (take (Z.to_nat MAX_OPERATION_LIST_ITEMS) operations).

(** ** Runtime states *)

Record PluginRuntimeLog (Value : Type) := mkPluginRuntimeLog {
  runtime_log_level : string;
  runtime_log_message : string;
  runtime_log_context : Value;
}.
Global Arguments mkPluginRuntimeLog {_}.
Global Arguments runtime_log_level {_}.
Global Arguments runtime_log_message {_}.
Global Arguments runtime_log_context {_}.

Record PluginRuntimeState (Value : Type) := mkPluginRuntimeState {
  runtime_state_plugin_id : PluginId;
  runtime_state_status : PluginStatus;
  runtime_state_container_id : option string;
  runtime_state_logs : list (PluginRuntimeLog Value);
}.
Global Arguments mkPluginRuntimeState {_}.
Global Arguments runtime_state_plugin_id {_}.
Global Arguments runtime_state_status {_}.
Global Arguments runtime_state_container_id {_}.
Global Arguments runtime_state_logs {_}.

Record PluginRemoveResult := mkPluginRemoveResult {
  removed_plugin_id : PluginId;
  removed_container : bool;
  removed_image : bool;
  removed_install_directory : bool;
}.

(** ** Requests *)

Record ProxyToken := mkProxyToken { proxy_token_value : string }.

Definition ProxyToken_new (value : string) : result ProtocolError ProxyToken :=
  if str_is_empty value || (str_len value >? MAX_PROXY_TOKEN_BYTES) || str_contains value (chr 0)
  then Err InvalidProxyToken
  else Ok (mkProxyToken value).

Section messages.
Context {K : Codec} {P : ProtocolJson}.

Record PluginRequest := mkPluginRequest { request_plugin_id : PluginId }.
Record PluginStartRequest := mkPluginStartRequest {
  start_plugin_id : PluginId;
  start_proxy_token : ProxyToken;
}.
Record PluginInstallRequest := mkPluginInstallRequest {
  install_plugin_id : PluginId;
  install_operation_id : Uuid;
}.
Record PluginRpcRequest := mkPluginRpcRequest {
  rpc_plugin_id : PluginId;
  rpc_method : ContentMethod;
  rpc_params : Json;
}.

(** [serde_json::from_value::<T>(params)] and the request's own [validate]. *)
Definition checked_params {T} (params : option T) (validate : T → validation) :
    result ProtocolError unit :=
  request ← ok_or params InvalidRpcParams;
  map_err (λ _, InvalidRpcParams) (validate request).

Definition PluginRpcRequest_validate (self : PluginRpcRequest) : result ProtocolError unit :=
  encoded ← ok_or (json_to_string (rpc_params self)) InvalidRpcParams;
  if str_len encoded >? MAX_PLUGIN_RPC_BYTES then Err RpcParamsTooLarge
  else
    match rpc_method self with
    | MSearch => checked_params (search_request_from_value (rpc_params self)) SearchRequest_validate
    | MDiscover =>
        checked_params (discover_request_from_value (rpc_params self)) DiscoverRequest_validate
    | MCategories =>
        checked_params (categories_request_from_value (rpc_params self)) (λ _, Ok tt)
    | MAlbumGet =>
        checked_params (album_request_from_value (rpc_params self)) AlbumGetRequest_validate
    | MTracksList =>
        checked_params (tracks_request_from_value (rpc_params self)) TracksListRequest_validate
    end.

Record PluginRpcResult := mkPluginRpcResult { rpc_response : JsonRpcResponse Json }.

Definition PluginRpcResult_validate (self : PluginRpcResult) : result ProtocolError unit :=
  let response := rpc_response self in
  encoded ← ok_or (rpc_response_to_vec response) InvalidRpcResponse;
  if zlen encoded >? MAX_PLUGIN_RPC_BYTES then Err RpcResponseTooLarge
  else if negb (eqb (JsonRpcResponse_jsonrpc response) "2.0")
          || str_is_empty (JsonRpcResponse_id response)
          || (str_len (JsonRpcResponse_id response) >? 128)
          || Bool.eqb (is_some (JsonRpcResponse_result response))
                      (is_some (JsonRpcResponse_error response))
  then Err InvalidRpcResponse
  else Ok tt.

Definition PluginRpcResult_new (response : JsonRpcResponse Json) :
    result ProtocolError PluginRpcResult :=
  let result := mkPluginRpcResult response in
  PluginRpcResult_validate result;; Ok result.

Inductive SupervisorParams :=
  | ParamsStart (request : PluginStartRequest)
  | ParamsInstall (request : PluginInstallRequest)
  | ParamsPlugin (request : PluginRequest)
  | ParamsRpc (request : PluginRpcRequest).

Inductive SupervisorMethod :=
  | SystemPing | PluginStart | PluginStop | PluginInspect | PluginLogs | PluginRpc
  | PluginInstallBuild | PluginInstallStatus | PluginInstallFinalize | PluginInstallAbort
  | PluginInstallList | PluginInstallAck | PluginRemove.

Record SupervisorRequest := mkSupervisorRequest {
  supervisor_request_id : string;
  supervisor_request_token : string;
  supervisor_request_timestamp : Z;
  supervisor_request_nonce : string;
  supervisor_request_method : SupervisorMethod;
  supervisor_request_params : option SupervisorParams;
}.

Definition validate_shape (self : SupervisorRequest) :
    result ProtocolError (option SupervisorParams) :=
  match supervisor_request_method self with
  | SystemPing | PluginInstallList =>
      if is_none (supervisor_request_params self) then Ok None else Err UnexpectedParams
  | PluginInstallBuild | PluginInstallStatus | PluginInstallFinalize | PluginInstallAbort
  | PluginInstallAck =>
      match supervisor_request_params self with
      | Some (ParamsInstall _ as params) => Ok (Some params)
      | Some _ => Err InvalidParams
      | None => Err MissingParams
      end
  | PluginStart =>
      match supervisor_request_params self with
      | Some (ParamsStart _ as params) => Ok (Some params)
      | Some _ => Err InvalidParams
      | None => Err MissingParams
      end
  | PluginStop | PluginInspect | PluginLogs | PluginRemove =>
      match supervisor_request_params self with
      | Some (ParamsPlugin _ as params) => Ok (Some params)
      | Some _ => Err InvalidParams
      | None => Err MissingParams
      end
  | PluginRpc =>
      match supervisor_request_params self with
      | Some (ParamsRpc request as params) =>
          PluginRpcRequest_validate request;; Ok (Some params)
      | Some _ => Err InvalidParams
      | None => Err MissingParams
      end
  end.

(** ** Responses *)

Record SupervisorProtocolError := mkSupervisorProtocolError {
  protocol_error_code : string;
  protocol_error_message : string;
  protocol_error_details : option Json;
}.

Record SupervisorResponse := mkSupervisorResponse {
  supervisor_response_id : string;
  supervisor_response_ok : bool;
  supervisor_response_result : option Json;
  supervisor_response_error : option SupervisorProtocolError;
}.

Definition SupervisorResponse_success (id : string) (result : Json) : SupervisorResponse :=
  mkSupervisorResponse id true (Some result) None.
Definition SupervisorResponse_failure (id code message : string) : SupervisorResponse :=
  mkSupervisorResponse id false None (Some (mkSupervisorProtocolError code message None)).

Definition validate_error_details (details : Json) : result ProtocolError unit :=
  len ← ok_or (json_object_len details) InvalidErrorDetails;
  if negb (len =? 1) || negb (is_some_and json_is_array (json_get details "buildLogs"))
  then Err InvalidErrorDetails
  else
    encoded ← ok_or (json_to_string details) InvalidErrorDetails;
    if str_len encoded >? MAX_ERROR_DETAILS_BYTES then Err ErrorDetailsTooLarge else Ok tt.

Definition failure_with_details (id code message : string) (details : Json) :
    result ProtocolError SupervisorResponse :=
  validate_error_details details;;
  Ok (mkSupervisorResponse id false None
        (Some (mkSupervisorProtocolError code message (Some details)))).
End messages.
