(* ===== verification/Fs.v ===== *)
(** * A file system

    The part of a POSIX file system the program uses through [std::fs]: a tree
    of regular files and directories under absolute paths, system calls that can
    fail at any time, and random names for temporary files.  [disk_faults] is a
    schedule of failures that are not the program's doing (an I/O error, a full
    disk); an exhausted schedule means no more failures.  A call that fails for
    such a reason changes nothing, except that removing a directory tree stops
    half way.  Links and special files do not occur in the directories the
    program creates itself, and what a completed call has written is not lost in
    a crash. *)

From S2P Require Import Prelude Text Domain Stateful.

(** The components of an absolute path, outermost first. *)
Abbreviation path := (list string).

Inductive node := File (content : list byte) | Dir.
Global Instance node_eq_dec : EqDecision node.
Proof. solve_decision. Defined.

Abbreviation Fs := (gmap (list string) node).

Record Disk := mkDisk {
  disk_fs : Fs;
  disk_faults : list bool;
  (** the results of [Uuid::new_v4], and how many were drawn *)
  disk_uuids : nat → Uuid;
  disk_drawn : nat;
}.

Definition set_fs (fs : Fs) (d : Disk) : Disk :=
  mkDisk fs (disk_faults d) (disk_uuids d) (disk_drawn d).

(** [std::io::ErrorKind]: the program tells [NotFound] from the rest. *)
Inductive IoError := IoNotFound | IoOther.
Global Instance IoError_eq_dec : EqDecision IoError.
Proof. solve_decision. Defined.

(** The next system call: it fails if the schedule says so. *)
Definition disk_next_fault (d : Disk) : bool * Disk :=
  match disk_faults d with
  | [] => (false, d)
  | fault :: faults => (fault, mkDisk (disk_fs d) faults (disk_uuids d) (disk_drawn d))
  end.

Definition syscall {A} (f : Fs → result IoError (A * Fs)) : act Disk IoError A := λ d,
  let '(fault, d) := disk_next_fault d in
  if fault then (Err IoOther, d)
  else
    match f (disk_fs d) with
    | Ok (a, fs) => (Ok a, set_fs fs d)
    | Err e => (Err e, d)
    end.

(** [Uuid::new_v4()] *)
Definition new_v4 (d : Disk) : Uuid * Disk :=
  (disk_uuids d (disk_drawn d),
   mkDisk (disk_fs d) (disk_faults d) (disk_uuids d) (S (disk_drawn d))).

(** ** Pure operations on the tree *)

Definition parent (p : path) : path := removelast p.
Definition is_dir (fs : Fs) (p : path) : bool := eqb (fs !! p) (Some Dir).

(** [below p k]: the rest of [k] if it is [p] or lies below it. *)
Fixpoint below (p k : path) : option path :=
  match p, k with
  | [], k => Some k
  | x :: p, y :: k => if decide (x = y) then below p k else None
  | _ :: _, [] => None
  end.

Definition children (p : path) (fs : Fs) : list (string * node) :=
  omap (λ e, match below p e.1 with Some [name] => Some (name, e.2) | _ => None end)
       (map_to_list fs).

(** The tree at [p], moved to [q]. *)
Definition move (p q : path) (fs : Fs) : Fs :=
  list_to_map ((λ e, (match below p e.1 with Some r => q ++ r | None => e.1 end, e.2))
                 <$> map_to_list fs).

(** ** System calls *)

(** [Path::exists]: an error counts as absence. *)
Definition path_exists (p : path) (d : Disk) : bool * Disk :=
  match syscall (λ fs, Ok (is_some (fs !! p), fs)) d with
  | (Ok found, d) => (found, d)
  | (Err _, d) => (false, d)
  end.

Definition fs_read (p : path) : act Disk IoError (list byte) :=
  syscall (λ fs,
    match fs !! p with
    | Some (File content) => Ok (content, fs)
    | Some Dir => Err IoOther
    | None => Err IoNotFound
    end).

Definition fs_create_dir (p : path) : act Disk IoError unit :=
  syscall (λ fs,
    if is_some (fs !! p) then Err IoOther
    else if negb (is_dir fs (parent p)) then Err IoNotFound
    else Ok (tt, <[p := Dir]> fs)).

(** One component of [create_dir_all]: it exists as a directory or is made. *)
Definition ensure_dir (p : path) : act Disk IoError unit :=
  syscall (λ fs,
    match fs !! p with
    | Some Dir => Ok (tt, fs)
    | Some (File _) => Err IoOther
    | None => Ok (tt, <[p := Dir]> fs)
    end).

Fixpoint prefixes (p : path) : list path :=
  match p with
  | [] => []
  | x :: p => [x] :: (cons x <$> prefixes p)
  end.

Definition fs_create_dir_all (p : path) : act Disk IoError unit := act_each ensure_dir (prefixes p).

(** [OpenOptions::new().create_new(true).write(true).open], [write_all] and
    [sync_all] on the new file. *)
Definition fs_create_new (p : path) : act Disk IoError unit :=
  syscall (λ fs,
    if is_some (fs !! p) then Err IoOther
    else if negb (is_dir fs (parent p)) then Err IoNotFound
    else Ok (tt, <[p := File []]> fs)).
Definition fs_write_all (p : path) (content : list byte) : act Disk IoError unit :=
  syscall (λ fs, Ok (tt, <[p := File content]> fs)).
Definition fs_sync (p : path) : act Disk IoError unit :=
  syscall (λ fs, if is_some (fs !! p) then Ok (tt, fs) else Err IoNotFound).

Definition fs_rename (p q : path) : act Disk IoError unit :=
  syscall (λ fs,
    match fs !! p with
    | None => Err IoNotFound
    | Some (File content) =>
        if negb (is_dir fs (parent q)) then Err IoNotFound
        else if is_dir fs q then Err IoOther
        else Ok (tt, <[q := File content]> (delete p fs))
    | Some Dir =>
        if negb (is_dir fs (parent q)) then Err IoNotFound
        else if is_some (below p q) then Err IoOther
        else
          match fs !! q with
          | Some (File _) => Err IoOther
          | Some Dir =>
              if (length (children q fs) =? 0)%nat then Ok (tt, move p q (delete q fs))
              else Err IoOther
          | None => Ok (tt, move p q fs)
          end
    end).

Definition fs_remove_file (p : path) : act Disk IoError unit :=
  syscall (λ fs,
    match fs !! p with
    | Some (File _) => Ok (tt, delete p fs)
    | Some Dir => Err IoOther
    | None => Err IoNotFound
    end).

(** [fs::remove_dir_all]: the entries below the directory, deepest first, then
    the directory itself; each removal may fail. *)
Definition deeper (a b : path * node) : comparison :=
  Nat.compare (length b.1) (length a.1).
Definition tree_entries (p : path) (fs : Fs) : list path :=
  (sort_by deeper (List.filter (λ e, is_some (below p e.1)) (map_to_list fs))).*1.

Definition fs_remove_dir_all (p : path) : act Disk IoError unit :=
  found ← syscall (λ fs, match fs !! p with
                         | Some Dir => Ok (tree_entries p fs, fs)
                         | Some (File _) => Err IoOther
                         | None => Err IoNotFound
                         end);
  act_each (λ k, syscall (λ fs, Ok (tt, delete k fs))) found.

(** [fs::read_dir] with the entries' names; the order is the system's, which
    the callers here do not depend on. *)
Definition fs_read_dir (p : path) : act Disk IoError (list string) :=
  syscall (λ fs, if is_dir fs p then Ok ((children p fs).*1, fs)
                 else if is_some (fs !! p) then Err IoOther else Err IoNotFound).

(** * Facts about the file system

    Which paths a call can change, and what it leaves at the paths it writes. *)

Lemma below_app p r : below p (p ++ r) = Some r.
Proof. induction p as [|x p IH]; [done|]. simpl. by rewrite decide_True. Qed.

Lemma below_self p : below p p = Some [].
Proof. rewrite <- (app_nil_r p) at 2. apply below_app. Qed.

Lemma below_Some p k r : below p k = Some r ↔ k = p ++ r.
Proof.
  split; [|intros ->; apply below_app]. revert k.
  induction p as [|x p IH]; intros k; [by intros [= ->]|].
  destruct k as [|y k]; [done|]. simpl. destruct (decide (x = y)) as [->|]; [|done].
  by intros ->%IH.
Qed.

Lemma below_is_Some p k : is_some (below p k) = true ↔ ∃ r, k = p ++ r.
Proof.
  destruct (below p k) as [r|] eqn:E; simpl.
  - apply below_Some in E. split; [by exists r|done].
  - split; [done|]. intros [r ->]. by rewrite below_app in E.
Qed.

(** [fs'] differs from [fs] only at paths in [T]. *)
Definition changes_only (T : path → Prop) : relation Disk := λ d d',
  ∀ k, disk_fs d' !! k = disk_fs d !! k ∨ T k.

(** A disk none of whose calls is going to fail stays one. *)
Definition sound_disk : relation Disk := λ d d', true ∉ disk_faults d → true ∉ disk_faults d'.
Global Instance sound_disk_preorder : PreOrder sound_disk.
Proof. split; [by intros d Hd|]. intros a b c Hab Hbc Ha. by apply Hbc, Hab. Qed.

Lemma syscall_faults {A} (f : Fs → result IoError (A * Fs)) : moves sound_disk (syscall f).
Proof.
  intros d Hd. unfold syscall, disk_next_fault. destruct (disk_faults d) as [|b l] eqn:E.
  - destruct (f (disk_fs d)) as [[a fs]|]; simpl; by rewrite E.
  - assert (true ∉ l) as Hl by set_solver. destruct b; [done|]. simpl.
    by destruct (f (disk_fs d)) as [[a fs]|].
Qed.
Lemma path_exists_faults p d : sound_disk d (path_exists p d).2.
Proof.
  unfold path_exists. pose proof (syscall_faults (λ fs, Ok (is_some (fs !! p), fs)) d) as Hm.
  by destruct (syscall _ d) as [[]].
Qed.
Lemma sound_read p content d :
  true ∉ disk_faults d → disk_fs d !! p = Some (File content) →
  ∃ d', fs_read p d = (Ok content, d') ∧ disk_fs d' = disk_fs d.
Proof.
  intros Hd Hp. unfold fs_read, syscall, disk_next_fault.
  destruct (disk_faults d) as [|[] l] eqn:E; [|set_solver|]; simpl; rewrite Hp; by eexists.
Qed.

Global Instance changes_only_preorder T : PreOrder (changes_only T).
Proof.
  split; [by intros d k; left|]. intros a b c Hab Hbc k.
  destruct (Hbc k) as [->|]; [apply Hab|by right].
Qed.

Lemma changes_only_mono {E A} (T T' : path → Prop) (m : act Disk E A) :
  (∀ k, T k → T' k) → moves (changes_only T) m → moves (changes_only T') m.
Proof. intros HT Hm d k. destruct (Hm d k); auto. Qed.

Lemma disk_next_fault_fs d : disk_fs (disk_next_fault d).2 = disk_fs d.
Proof. unfold disk_next_fault. by destruct (disk_faults d). Qed.

Section changes.
Context (T : path → Prop).

Lemma syscall_changes {A} (f : Fs → result IoError (A * Fs)) :
  (∀ fs a fs' k, f fs = Ok (a, fs') → fs' !! k = fs !! k ∨ T k) →
  moves (changes_only T) (syscall f).
Proof.
  intros Hf d k. unfold syscall. pose proof (disk_next_fault_fs d) as Hd.
  destruct (disk_next_fault d) as [fault d1]. simpl in Hd. rewrite <- Hd.
  destruct fault; [by left|]. destruct (f (disk_fs d1)) as [[a fs']|e] eqn:E; [|by left].
  simpl. by eapply Hf.
Qed.

Lemma syscall_reads {A} (f : Fs → result IoError (A * Fs)) :
  (∀ fs a fs', f fs = Ok (a, fs') → fs' = fs) → moves (changes_only T) (syscall f).
Proof. intros Hf. apply syscall_changes. intros fs a fs' k ->%Hf. by left. Qed.

Lemma fs_read_changes p : moves (changes_only T) (fs_read p).
Proof. apply syscall_reads. intros fs a fs'. destruct (fs !! p) as [[]|]; naive_solver. Qed.

Lemma fs_sync_changes p : moves (changes_only T) (fs_sync p).
Proof. apply syscall_reads. intros fs a fs'. destruct (is_some _); naive_solver. Qed.

Lemma fs_read_dir_changes p : moves (changes_only T) (fs_read_dir p).
Proof.
  apply syscall_reads. intros fs a fs'. destruct (is_dir _ _); [naive_solver|].
  destruct (is_some _); naive_solver.
Qed.

Lemma path_exists_changes p d : changes_only T d (path_exists p d).2.
Proof.
  unfold path_exists. assert (moves (changes_only T)
    (syscall (λ fs, Ok (is_some (fs !! p), fs)))) as Hm by (apply syscall_reads; naive_solver).
  specialize (Hm d). by destruct (syscall _ d) as [[]].
Qed.

Lemma new_v4_changes d : changes_only T d (new_v4 d).2.
Proof. intros k. by left. Qed.

Lemma ensure_dir_changes p : T p → moves (changes_only T) (ensure_dir p).
Proof.
  intros HT. apply syscall_changes. intros fs a fs' k. destruct (fs !! p) as [[]|]; [naive_solver..|].
  intros [= _ <-]. destruct (decide (k = p)) as [->|]; [by right|left]. by rewrite lookup_insert_ne.
Qed.

Lemma elem_of_prefixes p k : k ∈ prefixes p → ∃ r, p = k ++ r.
Proof.
  revert k. induction p as [|x p IH]; intros k; simpl; [by intros ?%elem_of_nil|].
  intros [->|(k' & -> & (r & ->)%IH)%list_elem_of_fmap]%elem_of_cons; [by exists p|by exists r].
Qed.

Lemma fs_create_dir_all_changes p :
  (∀ k r, p = k ++ r → T k) → moves (changes_only T) (fs_create_dir_all p).
Proof.
  intros HT. unfold fs_create_dir_all.
  assert (∀ k, k ∈ prefixes p → T k) as Hp by (intros k [r Hr]%elem_of_prefixes; eauto).
  clear HT. induction (prefixes p) as [|k l IH]; cbn [act_each]; [apply moves_ret, _|].
  apply moves_bind; [apply _|apply ensure_dir_changes, Hp, elem_of_cons; by left|].
  intros []. apply IH. intros k' Hk'. apply Hp, elem_of_cons. by right.
Qed.

Lemma fs_create_dir_changes p : T p → moves (changes_only T) (fs_create_dir p).
Proof.
  intros HT. apply syscall_changes. intros fs a fs' k. repeat case_match; try done. intros [= _ <-].
  destruct (decide (k = p)) as [->|]; [by right|left]. by rewrite lookup_insert_ne.
Qed.

Lemma fs_create_new_changes p : T p → moves (changes_only T) (fs_create_new p).
Proof.
  intros HT. apply syscall_changes. intros fs a fs' k. repeat case_match; try done. intros [= _ <-].
  destruct (decide (k = p)) as [->|]; [by right|left]. by rewrite lookup_insert_ne.
Qed.

Lemma fs_write_all_changes p content : T p → moves (changes_only T) (fs_write_all p content).
Proof.
  intros HT. apply syscall_changes. intros fs a fs' k [= _ <-].
  destruct (decide (k = p)) as [->|]; [by right|left]. by rewrite lookup_insert_ne.
Qed.

Lemma fs_remove_file_changes p : T p → moves (changes_only T) (fs_remove_file p).
Proof.
  intros HT. apply syscall_changes. intros fs a fs' k. destruct (fs !! p) as [[]|]; [|done..].
  intros [= _ <-]. destruct (decide (k = p)) as [->|]; [by right|left]. by rewrite lookup_delete_ne.
Qed.
End changes.

(** ** Moving a tree *)

Definition moved (p q k : path) : path :=
  match below p k with Some r => q ++ r | None => k end.

(** Nothing at or below [q], and [q] not at or below [p]. *)
Definition free_target (p q : path) (fs : Fs) : Prop :=
  below p q = None ∧ ∀ r, fs !! (q ++ r) = None.

Lemma moved_inj p q fs k1 k2 v1 v2 :
  free_target p q fs → fs !! k1 = Some v1 → fs !! k2 = Some v2 → moved p q k1 = moved p q k2 → k1 = k2.
Proof.
  intros [_ Hq] H1 H2. unfold moved.
  destruct (below p k1) as [r1|] eqn:E1, (below p k2) as [r2|] eqn:E2.
  - apply below_Some in E1 as ->. apply below_Some in E2 as ->. by intros ->%(inj (app q)).
  - intros <-. by rewrite Hq in H2.
  - intros ->. by rewrite Hq in H1.
  - done.
Qed.

Lemma lookup_move p q fs k v :
  free_target p q fs →
  move p q fs !! k = Some v ↔ ∃ k0, fs !! k0 = Some v ∧ k = moved p q k0.
Proof.
  intros Hfree. unfold move. rewrite <- elem_of_list_to_map.
  - rewrite list_elem_of_fmap. split.
    + intros ([k0 v0] & [= -> ->] & H0%elem_of_map_to_list). exists k0. done.
    + intros (k0 & H0 & ->). exists (k0, v). split; [done|]. by apply elem_of_map_to_list.
  - rewrite <- list_fmap_compose. apply NoDup_fmap_2_strong; [|apply NoDup_map_to_list].
    intros [k1 v1] [k2 v2] H1%elem_of_map_to_list H2%elem_of_map_to_list Heq. simpl in Heq.
    assert (k1 = k2) as <- by (by eapply moved_inj). congruence.
Qed.

Lemma move_inside p q fs r :
  free_target p q fs → move p q fs !! (q ++ r) = fs !! (p ++ r).
Proof.
  intros Hfree. apply option_eq. intros v. rewrite lookup_move by done. split.
  - intros (k0 & H0 & Heq). unfold moved in Heq. destruct (below p k0) as [r0|] eqn:E.
    + apply below_Some in E as ->. by apply (inj (app q)) in Heq as ->.
    + subst k0. by rewrite (proj2 Hfree) in H0.
  - intros H0. exists (p ++ r). split; [done|]. unfold moved. by rewrite below_app.
Qed.

Lemma move_source p q fs r : free_target p q fs → (∀ r', q ++ r' ≠ p ++ r) → move p q fs !! (p ++ r) = None.
Proof.
  intros Hfree Hne. apply eq_None_not_Some. intros [v (k0 & H0 & Heq)%lookup_move]; [|done].
  unfold moved in Heq. destruct (below p k0) as [r0|] eqn:E; [by eapply Hne|].
  subst k0. by rewrite below_app in E.
Qed.

Lemma move_outside p q fs k :
  free_target p q fs → below p k = None → below q k = None → move p q fs !! k = fs !! k.
Proof.
  intros Hfree Hp Hq. apply option_eq. intros v. rewrite lookup_move by done. split.
  - intros (k0 & H0 & ->). unfold moved in *. destruct (below p k0) as [r0|] eqn:E; [|done].
    by rewrite below_app in Hq.
  - intros H0. exists k. split; [done|]. unfold moved. by rewrite Hp.
Qed.

Lemma move_elsewhere (p q : path) (fs : Fs) k :
  below p k = None → below q k = None → move p q fs !! k = fs !! k.
Proof.
  intros Hp Hq. assert (∀ k0, k = moved p q k0 → k0 = k) as Hk.
  { intros k0 ->. unfold moved in *. destruct (below p k0) as [r|]; [|done].
    by rewrite below_app in Hq. }
  unfold move. destruct (fs !! k) as [v|] eqn:E.
  - apply elem_of_list_to_map_1'.
    + intros y ([k0 v0] & [= Hk0 ->] & H0%elem_of_map_to_list)%list_elem_of_fmap.
      rewrite (Hk k0 Hk0) in H0. congruence.
    + apply list_elem_of_fmap. exists (k, v). unfold moved. simpl. rewrite Hp.
      split; [done|]. by apply elem_of_map_to_list.
  - apply not_elem_of_list_to_map_1. intros ([k1 v] & -> & H0)%list_elem_of_fmap.
    apply list_elem_of_fmap in H0 as ([k0 v0] & [= Hk0 ->] & H0%elem_of_map_to_list).
    simpl in *. rewrite (Hk k0 Hk0) in H0. congruence.
Qed.

Section more_changes.
Context (T : path → Prop).

Lemma fs_rename_changes p q :
  (∀ r, T (p ++ r)) → (∀ r, T (q ++ r)) → moves (changes_only T) (fs_rename p q).
Proof.
  intros Hp Hq. apply syscall_changes. intros fs a fs' k Hf.
  destruct (below p k) as [r|] eqn:Ep; [right; apply below_Some in Ep as ->; apply Hp|].
  destruct (below q k) as [r|] eqn:Eq; [right; apply below_Some in Eq as ->; apply Hq|].
  assert (k ≠ p ∧ k ≠ q) as [Hkp Hkq].
  { split; intros ->; [by rewrite below_self in Ep|by rewrite below_self in Eq]. }
  left. repeat case_match; simplify_eq.
  - by rewrite lookup_insert_ne, lookup_delete_ne by done.
  - rewrite move_elsewhere by done. by rewrite lookup_delete_ne.
  - by rewrite move_elsewhere.
Qed.

Lemma syscall_Ok {A} (f : Fs → result IoError (A * Fs)) d a d' :
  syscall f d = (Ok a, d') → f (disk_fs d) = Ok (a, disk_fs d').
Proof.
  unfold syscall. pose proof (disk_next_fault_fs d) as Hd.
  destruct (disk_next_fault d) as [[] d1]; [done|]. simpl in Hd. rewrite <- Hd.
  destruct (f (disk_fs d1)) as [[b fs]|]; [|done]. by intros [= -> <-].
Qed.

Lemma deletes_changes (l : list path) :
  (∀ k, k ∈ l → T k) →
  moves (changes_only T) (act_each (λ k, syscall (λ fs, Ok (tt, delete k fs))) l : act Disk IoError unit).
Proof.
  intros Hl. induction l as [|k l IH]; cbn [act_each]; [apply moves_ret, _|].
  apply moves_bind; [apply _| |intros []; apply IH; intros k' ?; apply Hl, elem_of_cons; by right].
  apply syscall_changes. intros fs a fs' k' [= _ <-]. destruct (decide (k' = k)) as [->|].
  - right. apply Hl, elem_of_cons. by left.
  - left. by rewrite lookup_delete_ne.
Qed.

Lemma fs_remove_dir_all_changes p :
  (∀ r, T (p ++ r)) → moves (changes_only T) (fs_remove_dir_all p).
Proof.
  intros HT d. unfold fs_remove_dir_all, mbind, act_bind.
  destruct (syscall _ d) as [[found|e] d1] eqn:E; pose proof E as H1;
    apply (moves_run (changes_only T)) in H1;
    try (apply syscall_reads; intros fs a fs'; destruct (fs !! p) as [[]|]; naive_solver); [|done].
  etrans; [exact H1|]. apply deletes_changes. intros k Hk. apply syscall_Ok in E.
  destruct (disk_fs d !! p) as [[]|]; simplify_eq. unfold tree_entries in Hk.
  apply list_elem_of_fmap in Hk as ([k' v] & -> & Hk%elem_of_sort_by).
  apply list_elem_of_In, List.filter_In in Hk as [_ Hk]. simpl in *.
  apply below_is_Some in Hk as [r ->]. apply HT.
Qed.
End more_changes.

(** ** Files *)

Lemma rename_file_Ok (p q : path) content d d' :
  disk_fs d !! p = Some (File content) → fs_rename p q d = (Ok tt, d') →
  disk_fs d' = <[q := File content]> (delete p (disk_fs d)).
Proof.
  intros Hp H%syscall_Ok. rewrite Hp in H. destruct (negb _); [done|].
  destruct (is_dir _ _); [done|]. by injection H as <-.
Qed.

Lemma fs_create_new_Ok p d d' :
  fs_create_new p d = (Ok tt, d') →
  disk_fs d !! p = None ∧ disk_fs d' = <[p := File []]> (disk_fs d).
Proof.
  intros H%syscall_Ok. destruct (disk_fs d !! p); [done|]. simpl in H.
  destruct (negb _); [done|]. by injection H as <-.
Qed.

Lemma fs_write_all_Ok p content d d' :
  fs_write_all p content d = (Ok tt, d') → disk_fs d' = <[p := File content]> (disk_fs d).
Proof. intros H%syscall_Ok. by injection H as <-. Qed.

Lemma fs_sync_Ok p d d' : fs_sync p d = (Ok tt, d') → disk_fs d' = disk_fs d.
Proof. intros H%syscall_Ok. by destruct (is_some _); simplify_eq. Qed.

(** ** Trees *)

(** Every entry lies in a directory. *)
Definition tree (fs : Fs) : Prop := ∀ k x, is_Some (fs !! (k ++ [x])) → fs !! k = Some Dir.

Lemma tree_above fs k r : tree fs → is_Some (fs !! (k ++ r)) → r ≠ [] → fs !! k = Some Dir.
Proof.
  intros Ht. induction r as [|x r IH] using rev_ind; [done|]. rewrite app_assoc. intros Hx%Ht _.
  destruct r as [|y r]; [by rewrite app_nil_r in Hx|]. apply IH; [by eexists|done].
Qed.

(** Entries below [q] hang on [q]. *)
Definition rooted (q : path) (fs : Fs) : Prop :=
  ∀ x r, is_Some (fs !! (q ++ x :: r)) → is_Some (fs !! q) ∧ is_Some (fs !! (q ++ [x])).

Lemma tree_rooted q fs : tree fs → rooted q fs.
Proof.
  intros Ht x r Hx. split; [eexists; by eapply (tree_above _ _ (x :: r))|].
  destruct r as [|y r]; [done|]. exists Dir. apply (tree_above _ _ (y :: r)); [done| |done].
  by rewrite <- app_assoc.
Qed.

Lemma rooted_same (q : path) (fs fs' : Fs) : (∀ r, fs' !! (q ++ r) = fs !! (q ++ r)) → rooted q fs → rooted q fs'.
Proof.
  intros Heq Hr x r. rewrite !Heq. intros Hx. rewrite <- (app_nil_r q) at 1. rewrite Heq, app_nil_r.
  by eapply Hr.
Qed.

Lemma elem_of_children p fs name v : (name, v) ∈ children p fs ↔ fs !! (p ++ [name]) = Some v.
Proof.
  unfold children. rewrite list_elem_of_omap. split.
  - intros ([k v'] & Hk%elem_of_map_to_list & Hs). simpl in Hs.
    destruct (below p k) as [[|n [|]]|] eqn:E; simplify_eq. by apply below_Some in E as ->.
  - intros Hk. exists (p ++ [name], v). split; [by apply elem_of_map_to_list|]. simpl.
    by rewrite below_app.
Qed.

Lemma rename_dir_Ok (p q : path) d d' :
  rooted q (disk_fs d) → disk_fs d !! p = Some Dir → below q p = None →
  fs_rename p q d = (Ok tt, d') →
  (∀ r, disk_fs d' !! (q ++ r) = disk_fs d !! (p ++ r)) ∧
  (∀ r, disk_fs d' !! (p ++ r) = None) ∧
  ∀ k, below p k = None → below q k = None → disk_fs d' !! k = disk_fs d !! k.
Proof.
  intros Hq Hp Hqp H%syscall_Ok. rewrite Hp in H.
  destruct (negb _); [done|]. destruct (below p q) eqn:Hpq; [done|]. simpl in H.
  assert (∀ fs, free_target p q fs → move p q fs = disk_fs d' →
    (∀ r, fs !! (p ++ r) = disk_fs d !! (p ++ r)) →
    (∀ k, below q k = None → fs !! k = disk_fs d !! k) →
    (∀ r, disk_fs d' !! (q ++ r) = disk_fs d !! (p ++ r)) ∧
    (∀ r, disk_fs d' !! (p ++ r) = None) ∧
    ∀ k, below p k = None → below q k = None → disk_fs d' !! k = disk_fs d !! k) as Hmove.
  { intros fs Hfree <- Hin Hout. split_and!.
    - intros r. by rewrite move_inside, Hin.
    - intros r. apply move_source; [done|]. intros r' Heq.
      assert (below q (p ++ r) ≠ None) as Hb by (rewrite <- Heq; by rewrite below_app).
      clear -Hb Hqp Hpq Heq. revert p Hqp Hpq Hb Heq.
      induction q as [|x q IH]; intros p Hqp Hpq Hb Heq; [done|].
      destruct p as [|y p]; [done|]. simpl in *. injection Heq as -> Heq.
      rewrite decide_True in * by done. eapply IH; eauto.
    - intros k Hk1 Hk2. by rewrite move_outside, Hout. }
  destruct (disk_fs d !! q) as [[]|] eqn:Eq; [done| |].
  - destruct (length _ =? 0)%nat eqn:El; [|done]. injection H as H.
    apply Nat.eqb_eq, length_zero_iff_nil in El.
    assert (∀ x r, disk_fs d !! (q ++ x :: r) = None) as Hempty.
    { intros x r. apply eq_None_not_Some. intros [_ [v Hx]]%Hq.
      apply elem_of_children in Hx. rewrite El in Hx. by apply elem_of_nil in Hx. }
    apply (Hmove (delete q (disk_fs d))); [|done| |].
    + split; [done|]. intros [|x r]; [by rewrite app_nil_r, lookup_delete_eq|].
      rewrite lookup_delete_ne; [apply Hempty|]. intros Heq. apply (f_equal length) in Heq.
      rewrite length_app in Heq. simpl in Heq. lia.
    + intros r. apply lookup_delete_ne. intros ->. by rewrite below_app in Hpq.
    + intros k Hk. apply lookup_delete_ne. intros <-. by rewrite below_self in Hk.
  - injection H as H. apply (Hmove (disk_fs d)); [|done..].
    split; [done|]. intros [|x r]; [by rewrite app_nil_r|]. apply eq_None_not_Some.
    intros [[v Hv] _]%Hq. congruence.
Qed.
