(* ===== verification/InstallOperation.v ===== *)
(** * Install operations of the supervisor
    (crates/audiodown-supervisor/src/install_operation.rs)

    The supervisor builds a plugin's image in a background task and keeps one
    record per operation: in memory under a mutex, and as a JSON file that is
    replaced atomically.  The core drives the operation through [begin],
    [status], [finalize], [abort] and [acknowledge], and after a restart the
    files are read back.  The build adapter (Docker) is an interface; files are
    those of Fs.v.  A critical section of the mutex is one definition here
    ([begin_locked], [set_state], [set_built], [set_failed], [acknowledge]); the
    code between them does not touch the records. *)

From S2P Require Import Prelude Text Domain Stateful Database SupervisorProtocol Fs.

(** [chrono::Duration::minutes(30)], in nanoseconds. *)
Definition ACKNOWLEDGED_RETENTION : time := 30 * 60 * 10 ^ 9.
Definition MAX_UNACKNOWLEDGED_OPERATIONS : Z := 256.
Definition RESTART_ERROR_CODE : string := "SUPERVISOR_RESTARTED".

Record BuildRequest := mkBuildRequest {
  build_installation_id : string;
  build_operation_id : Uuid;
  build_plugin_id : PluginId;
  build_candidate_dir : path;
  build_prepared_request : path;
  build_mirrored_grant : path;
}.

Record BuildOutput := mkBuildOutput {
  output_artifact : PluginInstallArtifact;
  output_manifest : list byte;
  output_base_image_digest : string;
  output_sdk_hash : string;
  output_build_logs : list PluginBuildLog;
}.

Record BuildAdapterError := mkBuildAdapterError {
  adapter_error_code : string;
  adapter_error_build_logs : list PluginBuildLog;
}.

Class InstallBuildAdapter (W : Type) := {
  adapter_build : BuildRequest → act W BuildAdapterError BuildOutput;
  adapter_remove_image : string → act W BuildAdapterError unit;
  adapter_cleanup : Uuid → act W BuildAdapterError unit;
}.

Record StoredOperation := mkStoredOperation {
  stored_installation_id : string;
  stored_operation : PluginInstallOperation;
  stored_created_at : time;
  stored_updated_at : time;
  stored_sequence : Z;
}.
Global Instance StoredOperation_eq_dec : EqDecision StoredOperation.
Proof. solve_decision. Defined.

Record OperationState := mkOperationState {
  operations : gmap Uuid StoredOperation;
  next_sequence : Z;
}.
Definition OperationState_default : OperationState := mkOperationState ∅ 0.

(** [BTreeMap::values]: by ascending key. *)
Definition values (s : OperationState) : list StoredOperation :=
  (sort_by (cmp_on fst Z.compare) (map_to_list (operations s))).*2.

Record InstallAttestation := mkInstallAttestation {
  attestation_installation_id : string;
  attestation_operation_id : Uuid;
  attestation_plugin_id : PluginId;
  attestation_image_id : string;
  attestation_source_kind : string;
  attestation_repository_id : string;
  attestation_commit_sha : string;
  attestation_source_hash : string;
  attestation_manifest_hash : string;
  attestation_base_image_digest : string;
  attestation_sdk_hash : string;
  attestation_memory_bytes : Z;
  attestation_nano_cpus : Z;
  attestation_pids_limit : Z;
  attestation_run_mode : RunMode;
}.
Global Instance InstallAttestation_eq_dec : EqDecision InstallAttestation.
Proof. solve_decision. Defined.

Inductive InstallOperationError :=
  | OperationIdMismatch | BuildBusy | OperationCapacityReached | OperationNotFound
  | InvalidTransition | NotTerminal | InstalledAttestationMismatch | CandidateAlreadyExists
  | InvalidPath | AdapterFailed (error : BuildAdapterError) | OperationIo | OperationJsonError.

Definition InstallOperationError_error_code (self : InstallOperationError) : string :=
  match self with
  | CandidateAlreadyExists => "CANDIDATE_ALREADY_EXISTS"
  | InstalledAttestationMismatch => "INSTALL_ATTESTATION_MISMATCH"
  | _ => "BUILD_STATE_FAILED"
  end.

(** serde_json at the records of this file, and the [Value] of a prepared
    request. *)
Class OperationJson {K : Codec} := {
  operation_to_vec_pretty : StoredOperation → option (list byte);
  operation_from_slice : list byte → option StoredOperation;
  attestation_to_vec_pretty : InstallAttestation → option (list byte);
  attestation_from_slice : list byte → option InstallAttestation;
  json_from_slice : list byte → option Json;
  json_as_str : Json → option string;
}.

Record InstallOperationPaths := mkInstallOperationPaths {
  operation_record : path;
  candidate_dir : path;
  installed_dir : path;
  prepared_request : path;
  mirrored_grant : path;
}.

(** [let _ = m.await] *)
Definition ignore {S E F A} (m : act S E A) : act S F unit := λ s, (Ok tt, (m s).2).

Definition io {A} (m : act Disk IoError A) : act Disk InstallOperationError A :=
  map_errors (λ _, OperationIo) m.

Section files.
Context {K : Codec} {J : OperationJson}.

Definition json_file (id : Uuid) : string := uuid_to_string id +:+ ".json".

Definition operation_record_path (root : path) (id : Uuid) : path :=
  root ++ ["operations"; json_file id].

Definition paths (root : path) (plugin_id : PluginId) (id : Uuid) : InstallOperationPaths := {|
  operation_record := operation_record_path root id;
  candidate_dir := root ++ ["candidates"; uuid_to_string id];
  installed_dir := root ++ ["installed"; PluginId_as_str plugin_id];
  prepared_request := root ++ ["prepared"; json_file id];
  mirrored_grant := root ++ ["risk-grants"; json_file id];
|}.

(** [File::open] and [sync_all] *)
Definition sync_directory (p : path) : act Disk InstallOperationError unit :=
  io (fs_sync p);; io (fs_sync p).

Definition atomic_write (p : path) (content : list byte) : act Disk InstallOperationError unit :=
  match p with
  | [] => throw InvalidPath
  | _ =>
      io (fs_create_dir_all (parent p));;
      uuid ← query new_v4;
      let temporary := parent p ++ [".write-" +:+ uuid_to_string uuid] in
      on_error
        (io (fs_create_new temporary);;
         io (fs_write_all temporary content);;
         io (fs_sync temporary);;
         io (fs_rename temporary p);;
         sync_directory (parent p))
        (fs_remove_file temporary)
  end.

Definition persist_record (root : path) (record : StoredOperation) :
    act Disk InstallOperationError unit :=
  bytes ← pure (ok_or (operation_to_vec_pretty record) OperationJsonError);
  atomic_write (operation_record_path root (operation_id (stored_operation record))) bytes.

Definition write_candidate (directory : path) (attestation : InstallAttestation)
    (manifest : list byte) : act Disk InstallOperationError unit :=
  found ← query (path_exists directory);
  if (found : bool) then throw CandidateAlreadyExists
  else
    match directory with
    | [] => throw InvalidPath
    | _ =>
        io (fs_create_dir_all (parent directory));;
        uuid ← query new_v4;
        let temporary := parent directory ++ [".candidate-" +:+ uuid_to_string uuid] in
        io (fs_create_dir temporary);;
        on_error
          (atomic_write (temporary ++ ["audiodown-plugin.json"]) manifest;;
           bytes ← pure (ok_or (attestation_to_vec_pretty attestation) OperationJsonError);
           atomic_write (temporary ++ ["install.json"]) bytes;;
           sync_directory temporary;;
           io (fs_rename temporary directory);;
           sync_directory (parent directory))
          (fs_remove_dir_all temporary)
    end.

Definition read_attestation (directory : path) :
    act Disk InstallOperationError InstallAttestation :=
  bytes ← map_errors (λ _, InstalledAttestationMismatch) (fs_read (directory ++ ["install.json"]));
  pure (ok_or (attestation_from_slice bytes) InstalledAttestationMismatch).

Definition verify_attestation (directory : path) (expected : InstallAttestation) :
    act Disk InstallOperationError unit :=
  actual ← read_attestation directory;
  if negb (eqb actual expected) then throw InstalledAttestationMismatch else mret tt.

Definition missing_is_ok (m : act Disk IoError unit) : act Disk InstallOperationError unit := λ d,
  match m d with
  | (Ok _, d) => (Ok tt, d)
  | (Err IoNotFound, d) => (Ok tt, d)
  | (Err IoOther, d) => (Err OperationIo, d)
  end.
Definition remove_file_if_exists (p : path) : act Disk InstallOperationError unit :=
  missing_is_ok (fs_remove_file p).
Definition remove_directory (p : path) : act Disk InstallOperationError unit :=
  missing_is_ok (fs_remove_dir_all p).

(** The grant a prepared request names. *)
Definition prepared_grant_id (content : list byte) : option Uuid :=
  value ← json_from_slice content;
  grant ← json_get value "riskGrantId";
  text ← json_as_str grant;
  uuid_parse_str text.

Definition remove_mirrors (root : path) (p : InstallOperationPaths) :
    act Disk InstallOperationError unit :=
  (λ d, match fs_read (prepared_request p) d with
        | (Ok bytes, d) =>
            match prepared_grant_id bytes with
            | Some grant_id => remove_file_if_exists (root ++ ["grants"; json_file grant_id]) d
            | None => (Ok tt, d)
            end
        | (Err _, d) => (Ok tt, d)
        end);;
  remove_file_if_exists (prepared_request p);;
  remove_file_if_exists (mirrored_grant p).

Definition ensure_layout (root : path) : act Disk InstallOperationError unit :=
  act_each (λ name, io (fs_create_dir_all (root ++ [name])))
    ["operations"; "candidates"; "installed"; "prepared"; "risk-grants"].

(** [path.extension() == Some("json")]: after the last dot, which is not the
    first byte of the name. *)
Definition has_json_extension (name : string) : bool :=
  is_some_and (λ '(stem, extension), negb (str_is_empty stem) && eqb extension "json")
    (rsplit_once "."%char name).

Definition load_record (operations_dir : path) (name : string) :
    act Disk InstallOperationError (option StoredOperation) :=
  if negb (has_json_extension name) then mret None
  else
    bytes ← io (fs_read (operations_dir ++ [name]));
    record ← pure (ok_or (operation_from_slice bytes) OperationJsonError);
    mret (Some record).

(** [u64::saturating_add(1)] *)
Definition next_after (sequence : Z) : Z := Z.min (sequence + 1) (2 ^ 64 - 1).

Definition load_one (state : OperationState) (record : StoredOperation) : OperationState :=
  mkOperationState
    (<[operation_id (stored_operation record) := record]> (operations state))
    (Z.max (next_sequence state) (next_after (stored_sequence record))).

Definition load_state (root : path) : act Disk InstallOperationError OperationState :=
  let operations_dir := root ++ ["operations"] in
  names ← io (fs_read_dir operations_dir);
  records ← act_map (load_record operations_dir) names;
  mret (foldl load_one OperationState_default
          (sort_by (cmp_on stored_sequence Z.compare) (omap id records))).
End files.

(** ** The manager *)

Record Ops (W : Type) := mkOps {
  ops_state : OperationState;
  ops_disk : Disk;
  ops_adapter : W;
}.
Global Arguments mkOps {_}.
Global Arguments ops_state {_}.
Global Arguments ops_disk {_}.
Global Arguments ops_adapter {_}.

Definition put_state {W} (s : OperationState) (o : Ops W) : Ops W :=
  mkOps s (ops_disk o) (ops_adapter o).
Definition on_disk {W A} (m : act Disk InstallOperationError A) :
    act (Ops W) InstallOperationError A :=
  focus ops_disk (λ d o, mkOps (ops_state o) d (ops_adapter o)) m.
Definition on_adapter {W A} (m : act W BuildAdapterError A) :
    act (Ops W) InstallOperationError A :=
  map_errors AdapterFailed (focus ops_adapter (λ w o, mkOps (ops_state o) (ops_disk o) w) m).

Definition matching_operation (s : OperationState) (plugin_id : PluginId) (id : Uuid) :
    result InstallOperationError StoredOperation :=
  stored ← ok_or (operations s !! id) OperationNotFound;
  if negb (eqb (operation_plugin_id (stored_operation stored)) plugin_id)
  then Err OperationNotFound
  else Ok stored.

Section manager.
Context {K : Codec} {J : OperationJson}.
Context {W : Type} {A : InstallBuildAdapter W}.
Context (root : path) (installation_id : string).

(** Replace a record in memory, then on disk: when the write fails the memory
    already has the new record. *)
Definition store_operation (stored : StoredOperation) :
    act (Ops W) InstallOperationError PluginInstallOperation :=
  query (λ o, (tt, put_state (mkOperationState
      (<[operation_id (stored_operation stored) := stored]> (operations (ops_state o)))
      (next_sequence (ops_state o))) o));;
  on_disk (persist_record root stored);;
  mret (stored_operation stored).

Definition locked_operation (plugin_id : PluginId) (id : Uuid) :
    act (Ops W) InstallOperationError StoredOperation := λ o,
  (matching_operation (ops_state o) plugin_id id, o).

Definition with_operation (stored : StoredOperation) (operation : PluginInstallOperation)
    (now : time) : StoredOperation :=
  mkStoredOperation (stored_installation_id stored) operation (stored_created_at stored) now
    (stored_sequence stored).

Definition set_state (plugin_id : PluginId) (id : Uuid) (state_value : PluginInstallOperationState)
    (error_code : option string) (now : time) :
    act (Ops W) InstallOperationError PluginInstallOperation :=
  stored ← locked_operation plugin_id id;
  let operation := stored_operation stored in
  if is_terminal (operation_state operation) && negb (eqb (operation_state operation) state_value)
  then throw InvalidTransition
  else
    store_operation (with_operation stored
      (mkPluginInstallOperation (operation_id operation) (operation_plugin_id operation)
         state_value (operation_artifact operation) (operation_build_logs operation)
         error_code (operation_acknowledged operation)) now).

Definition set_failed (plugin_id : PluginId) (id : Uuid) (error_code : string)
    (build_logs : list PluginBuildLog) (now : time) :
    act (Ops W) InstallOperationError PluginInstallOperation :=
  stored ← locked_operation plugin_id id;
  let operation := stored_operation stored in
  store_operation (with_operation stored
    (mkPluginInstallOperation (operation_id operation) (operation_plugin_id operation)
       Failed (operation_artifact operation) build_logs (Some error_code)
       (operation_acknowledged operation)) now).

Definition set_built (plugin_id : PluginId) (id : Uuid) (artifact : PluginInstallArtifact)
    (build_logs : list PluginBuildLog) (now : time) :
    act (Ops W) InstallOperationError PluginInstallOperation :=
  stored ← locked_operation plugin_id id;
  let operation := stored_operation stored in
  if negb (eqb (operation_state operation) Building) then throw InvalidTransition
  else
    store_operation (with_operation stored
      (mkPluginInstallOperation (operation_id operation) (operation_plugin_id operation)
         Built (Some artifact) build_logs None (operation_acknowledged operation)) now).

(** [begin] up to the spawned task, which is [run_build]. *)
Definition begin_locked (plugin_id : PluginId) (id : Uuid) (now : time) :
    act (Ops W) InstallOperationError (PluginInstallOperation * bool) := λ o,
  let state := ops_state o in
  match operations state !! id with
  | Some existing =>
      if negb (eqb (operation_plugin_id (stored_operation existing)) plugin_id)
      then (Err OperationIdMismatch, o)
      else (Ok (stored_operation existing, false), o)
  | None =>
      if existsb (λ stored, negb (is_terminal (operation_state (stored_operation stored))))
           (values state)
      then (Err BuildBusy, o)
      else if zlen (List.filter (λ stored, negb (operation_acknowledged (stored_operation stored)))
                      (values state)) >=? MAX_UNACKNOWLEDGED_OPERATIONS
      then (Err OperationCapacityReached, o)
      else
        let operation := mkPluginInstallOperation id plugin_id Accepted None [] None false in
        let sequence := next_sequence state in
        let stored := mkStoredOperation installation_id operation now now sequence in
        (query (λ o, (tt, put_state (mkOperationState (operations state) (next_after sequence)) o));;
         on_disk (persist_record root stored);;
         query (λ o, (tt, put_state (mkOperationState (<[id := stored]> (operations (ops_state o)))
                                       (next_sequence (ops_state o))) o));;
         mret (operation, true)) o
  end.

Definition status (plugin_id : PluginId) (id : Uuid) :
    act (Ops W) InstallOperationError PluginInstallOperation :=
  stored ← locked_operation plugin_id id; mret (stored_operation stored).

Definition list_ops (o : Ops W) : PluginInstallOperationList :=
  PluginInstallOperationList_new
    ((λ stored, operation_summary (stored_operation stored))
       <$> sort_by (cmp_on stored_sequence Z.compare)
             (List.filter (λ stored, eqb (stored_installation_id stored) installation_id
                            && negb (operation_acknowledged (stored_operation stored)))
                (values (ops_state o)))).

Definition attestation (plugin_id : PluginId) (id : Uuid) (artifact : PluginInstallArtifact)
    (base_image_digest sdk_hash : string) : InstallAttestation := {|
  attestation_installation_id := installation_id;
  attestation_operation_id := id;
  attestation_plugin_id := plugin_id;
  attestation_image_id := artifact_image_id artifact;
  attestation_source_kind := "github_public_repository";
  attestation_repository_id := artifact_repository_id artifact;
  attestation_commit_sha := artifact_commit_sha artifact;
  attestation_source_hash := artifact_source_hash artifact;
  attestation_manifest_hash := artifact_manifest_hash artifact;
  attestation_base_image_digest := base_image_digest;
  attestation_sdk_hash := sdk_hash;
  attestation_memory_bytes := 128 * 1024 * 1024;
  attestation_nano_cpus := 500000000;
  attestation_pids_limit := 64;
  attestation_run_mode := OnDemand;
|}.

(** The fields of an attestation that name the operation and its artifact. *)
Definition attests (plugin_id : PluginId) (id : Uuid) (artifact : PluginInstallArtifact)
    (a : InstallAttestation) : bool :=
  negb (negb (eqb (attestation_installation_id a) installation_id)
        || negb (eqb (attestation_operation_id a) id)
        || negb (eqb (attestation_plugin_id a) plugin_id)
        || negb (eqb (attestation_image_id a) (artifact_image_id artifact))
        || negb (eqb (attestation_repository_id a) (artifact_repository_id artifact))
        || negb (eqb (attestation_commit_sha a) (artifact_commit_sha artifact))
        || negb (eqb (attestation_source_hash a) (artifact_source_hash artifact))
        || negb (eqb (attestation_manifest_hash a) (artifact_manifest_hash artifact))).

Definition attestation_from_directory (directory : path) (plugin_id : PluginId) (id : Uuid)
    (artifact : PluginInstallArtifact) : act Disk InstallOperationError InstallAttestation :=
  a ← read_attestation directory;
  if negb (attests plugin_id id artifact a) then throw InstalledAttestationMismatch else mret a.

(** The candidate takes its place, unless it already has. *)
Definition install_candidate (p : InstallOperationPaths) (expected : InstallAttestation) :
    act Disk InstallOperationError unit :=
  installed ← query (path_exists (installed_dir p));
  if (installed : bool) then
    verify_attestation (installed_dir p) expected;;
    candidate ← query (path_exists (candidate_dir p));
    if (candidate : bool) then throw InstalledAttestationMismatch else mret tt
  else
    verify_attestation (candidate_dir p) expected;;
    io (fs_create_dir_all (parent (installed_dir p)));;
    io (fs_rename (candidate_dir p) (installed_dir p));;
    sync_directory (parent (installed_dir p)).

Definition finalize (plugin_id : PluginId) (id : Uuid) (now : time) :
    act (Ops W) InstallOperationError PluginInstallOperation :=
  operation ← status plugin_id id;
  artifact ← pure (ok_or (operation_artifact operation) InvalidTransition);
  let p := paths root plugin_id id in
  installed ← on_disk (query (path_exists (installed_dir p)));
  expected ← on_disk (attestation_from_directory
                        (if (installed : bool) then installed_dir p else candidate_dir p)
                        plugin_id id artifact);
  match operation_state operation with
  | Finalized =>
      on_disk (verify_attestation (installed_dir p) expected);;
      on_disk (remove_mirrors root p);;
      mret operation
  | Built =>
      on_disk (install_candidate p expected);;
      finalized ← set_state plugin_id id Finalized None now;
      on_disk (remove_mirrors root p);;
      mret finalized
  | _ => throw InvalidTransition
  end.

Definition abort (plugin_id : PluginId) (id : Uuid) (now : time) :
    act (Ops W) InstallOperationError PluginInstallOperation :=
  operation ← status plugin_id id;
  let p := paths root plugin_id id in
  let verify_installed :=
    artifact ← pure (ok_or (operation_artifact operation) InvalidTransition);
    expected ← attestation_from_directory (installed_dir p) plugin_id id artifact;
    verify_attestation (installed_dir p) expected in
  (if eqb (operation_state operation) Finalized then on_disk verify_installed else mret tt);;
  aborted ← (if eqb (operation_state operation) Aborted then mret operation
             else set_state plugin_id id Aborted (operation_error_code operation) now);
  on_disk (remove_directory (candidate_dir p));;
  (if eqb (operation_state operation) Finalized then
     on_disk (installed ← query (path_exists (installed_dir p));
              if (installed : bool)
              then verify_installed;; remove_directory (installed_dir p)
              else mret tt)
   else mret tt);;
  on_disk (remove_mirrors root p);;
  match operation_artifact operation with
  | Some artifact => on_adapter (adapter_remove_image (artifact_image_id artifact))
  | None => mret tt
  end;;
  on_adapter (adapter_cleanup id);;
  mret aborted.

Definition acknowledge (plugin_id : PluginId) (id : Uuid) (now : time) :
    act (Ops W) InstallOperationError PluginInstallOperation :=
  stored ← locked_operation plugin_id id;
  let operation := stored_operation stored in
  if negb (is_terminal (operation_state operation)) then throw NotTerminal
  else
    store_operation (with_operation stored
      (mkPluginInstallOperation (operation_id operation) (operation_plugin_id operation)
         (operation_state operation) (operation_artifact operation)
         (operation_build_logs operation) (operation_error_code operation) true) now).

(** The two critical sections of [cleanup_acknowledged]. *)
Definition expired_operations (now : time) (s : OperationState) : list Uuid :=
  (List.filter (λ e, operation_acknowledged (stored_operation e.2)
                     && is_terminal (operation_state (stored_operation e.2))
                     && (now - stored_updated_at e.2 >=? ACKNOWLEDGED_RETENTION))
     (sort_by (cmp_on fst Z.compare) (map_to_list (operations s)))).*1.

Definition forget (id : Uuid) : act (Ops W) InstallOperationError unit :=
  on_disk (remove_file_if_exists (operation_record_path root id));;
  query (λ o, (tt, put_state (mkOperationState (delete id (operations (ops_state o)))
                                (next_sequence (ops_state o))) o)).

Definition cleanup_acknowledged (now : time) : act (Ops W) InstallOperationError unit :=
  expired ← query (λ o, (expired_operations now (ops_state o), o));
  act_each forget expired.

(** The spawned task; [now] is what the clock says at each of its readings. *)
Definition run_build (plugin_id : PluginId) (id : Uuid) (now : nat → time) (o : Ops W) : Ops W :=
  match set_state plugin_id id Building None (now 0%nat) o with
  | (Err _, o) => o
  | (Ok _, o) =>
      let p := paths root plugin_id id in
      let request := mkBuildRequest installation_id id plugin_id (candidate_dir p)
                       (prepared_request p) (mirrored_grant p) in
      let '(built, w) := adapter_build request (ops_adapter o) in
      let o := mkOps (ops_state o) (ops_disk o) w in
      let run (m : act (Ops W) InstallOperationError unit) := (m o).2 in
      let remove_image (output : BuildOutput) : act (Ops W) InstallOperationError unit :=
        ignore (on_adapter (adapter_remove_image (artifact_image_id (output_artifact output)))) in
      let o :=
        match built with
        | Ok output =>
            let still_building :=
              match matching_operation (ops_state o) plugin_id id with
              | Ok stored => eqb (operation_state (stored_operation stored)) Building
              | Err _ => false
              end in
            if negb still_building then run (remove_image output)
            else
              let a := attestation plugin_id id (output_artifact output)
                         (output_base_image_digest output) (output_sdk_hash output) in
              match on_disk (write_candidate (candidate_dir p) a (output_manifest output)) o with
              | (Ok _, o) =>
                  (set_built plugin_id id (output_artifact output) (output_build_logs output)
                     (now 1%nat) o).2
              | (Err error, o) =>
                  let o := (remove_image output o).2 in
                  (set_failed plugin_id id (InstallOperationError_error_code error)
                     (output_build_logs output) (now 1%nat) o).2
              end
        | Err error =>
            (set_failed plugin_id id (adapter_error_code error) (adapter_error_build_logs error)
               (now 1%nat) o).2
        end in
      (on_adapter (adapter_cleanup id) o).2
  end.

Definition reconcile_one (now : time) (operation : PluginInstallOperation) :
    act (Ops W) InstallOperationError unit :=
  let plugin_id := operation_plugin_id operation in
  let id := operation_id operation in
  match operation_state operation with
  | Accepted | Building =>
      set_failed plugin_id id RESTART_ERROR_CODE [] now;;
      on_disk (remove_directory (candidate_dir (paths root plugin_id id)));;
      match operation_artifact operation with
      | Some artifact => on_adapter (adapter_remove_image (artifact_image_id artifact))
      | None => mret tt
      end;;
      on_adapter (adapter_cleanup id)
  | Finalized => finalize plugin_id id now;; mret tt
  | _ => mret tt
  end.

Definition reconcile_restart (now : time) : act (Ops W) InstallOperationError unit :=
  operations ← query (λ o, (stored_operation <$> values (ops_state o), o));
  act_each (reconcile_one now) operations.

(** [open]: the manager as it is after a start on a disk. *)
Definition open (now : time) (d : Disk) (w : W) :
    result InstallOperationError unit * Ops W :=
  match (ensure_layout root;; load_state root) d with
  | (Err e, d) => (Err e, mkOps OperationState_default d w)
  | (Ok state, d) =>
      (reconcile_restart now;; cleanup_acknowledged now) (mkOps state d w)
  end.
End manager.
