(* ===== verification/InstallOperationProps.v ===== *)
(** * Properties of the install operations

    The records in memory under every interleaving of the critical sections,
    and the public calls as sequences of them. *)

From S2P Require Import Prelude Text Domain Stateful Database SupervisorProtocol Fs InstallOperation.

Section records.
Context {K : Codec} {J : OperationJson}.
Context {W : Type} {A : InstallBuildAdapter W}.
Context (root : path) (installation_id : string).

Definition active (stored : StoredOperation) : bool :=
  negb (is_terminal (operation_state (stored_operation stored))).
Definition unacknowledged (stored : StoredOperation) : bool :=
  negb (operation_acknowledged (stored_operation stored)).

(** The records are filed under their own ids, at most one operation is in
    progress, at most 256 are not acknowledged, and only finished operations
    are. *)
Record ops_wf (s : OperationState) : Prop := {
  wf_keys id stored : operations s !! id = Some stored →
    operation_id (stored_operation stored) = id;
  wf_one_active i j a b : operations s !! i = Some a → operations s !! j = Some b →
    active a = true → active b = true → i = j;
  wf_unacknowledged :
    Z.of_nat (size (filter (λ e, unacknowledged e.2 = true) (operations s))) ≤
    MAX_UNACKNOWLEDGED_OPERATIONS;
  wf_acknowledged id stored : operations s !! id = Some stored →
    unacknowledged stored = false → active stored = false;
}.

(** One critical section, whatever the disk and the adapter are when the lock
    is taken. *)
Inductive critical : relation OperationState :=
  | critical_begin plugin_id id now (o : Ops W) :
      critical (ops_state o) (ops_state (begin_locked root installation_id plugin_id id now o).2)
  | critical_state plugin_id id state code now (o : Ops W) :
      critical (ops_state o) (ops_state (set_state root plugin_id id state code now o).2)
  | critical_built plugin_id id artifact logs now (o : Ops W) :
      critical (ops_state o) (ops_state (set_built root plugin_id id artifact logs now o).2)
  | critical_failed plugin_id id code logs now (o : Ops W) :
      critical (ops_state o) (ops_state (set_failed root plugin_id id code logs now o).2)
  | critical_acknowledge plugin_id id now (o : Ops W) :
      critical (ops_state o) (ops_state (acknowledge root plugin_id id now o).2)
  | critical_forget id (o : Ops W) :
      critical (ops_state o) (ops_state (forget root id o).2).

(** ** The critical sections as functions on the records *)

Lemma on_disk_state {B} (m : act Disk InstallOperationError B) (o : Ops W) :
  ops_state (on_disk m o).2 = ops_state o.
Proof. unfold on_disk, focus. by destruct (m (ops_disk o)). Qed.

Lemma on_adapter_state {B} (m : act W BuildAdapterError B) (o : Ops W) :
  ops_state (on_adapter m o).2 = ops_state o.
Proof. unfold on_adapter, map_errors, focus. by destruct (m (ops_adapter o)). Qed.

Lemma act_bind_state {B C} (m : act (Ops W) InstallOperationError B)
    (f : B → act (Ops W) InstallOperationError C) (o : Ops W) s :
  ops_state (m o).2 = s → (∀ b o', ops_state o' = s → ops_state (f b o').2 = s) →
  ops_state ((m ≫= f) o).2 = s.
Proof. unfold mbind, act_bind. destruct (m o) as [[b|e] o']; naive_solver. Qed.

Definition put_record (stored : StoredOperation) (s : OperationState) : OperationState :=
  mkOperationState (<[operation_id (stored_operation stored) := stored]> (operations s))
    (next_sequence s).

Lemma store_operation_state stored (o : Ops W) :
  ops_state (store_operation root stored o).2 = put_record stored (ops_state o).
Proof.
  unfold store_operation. unfold mbind at 1, act_bind, query. simpl.
  apply act_bind_state; [by rewrite on_disk_state|]. by intros [] o' <-.
Qed.

(** A section that finds the operation of a plugin and stores another one in
    its place: what happens to the records. *)
Definition replaces (plugin_id : PluginId) (id : Uuid) (s s' : OperationState)
    (ok : StoredOperation → StoredOperation → Prop) : Prop :=
  s' = s ∨ ∃ old new, operations s !! id = Some old ∧
    operation_plugin_id (stored_operation old) = plugin_id ∧ ok old new ∧
    operation_id (stored_operation new) = operation_id (stored_operation old) ∧
    s' = put_record new s.

Lemma locked_replaces {B} plugin_id id
    (k : StoredOperation → act (Ops W) InstallOperationError B) ok (o : Ops W) :
  (∀ old, ops_state (k old o).2 = ops_state o ∨
     ∃ new, ok old new ∧ operation_id (stored_operation new) = operation_id (stored_operation old) ∧
       ops_state (k old o).2 = put_record new (ops_state o)) →
  replaces plugin_id id (ops_state o) (ops_state ((locked_operation plugin_id id ≫= k) o).2) ok.
Proof.
  intros Hk. unfold mbind, act_bind, locked_operation, matching_operation.
  destruct (operations (ops_state o) !! id) as [old|] eqn:E; simpl; [|by left].
  destruct (eqb _ _) eqn:Ep; simpl; [|by left]. bool_prop.
  destruct (Hk old) as [?|(new & Hok & Hid & Hs)]; [by left|right; eauto 10].
Qed.

(** What a section may do to a record: a finished operation stays finished and
    an acknowledged one acknowledged. *)
Definition progress (old new : StoredOperation) : Prop :=
  (active new = true → active old = true) ∧
  (unacknowledged new = true → unacknowledged old = true) ∧
  (unacknowledged new = false → unacknowledged old = false ∨ active new = false).

Lemma set_state_replaces plugin_id id state code now (o : Ops W) :
  replaces plugin_id id (ops_state o) (ops_state (set_state root plugin_id id state code now o).2)
    (λ old new, progress old new ∧ operation_state (stored_operation new) = state ∧
       (active old = false → operation_state (stored_operation old) = state)).
Proof.
  apply locked_replaces. intros old. simpl.
  destruct (is_terminal _ && _) eqn:E; [by left|right]. rewrite store_operation_state.
  eexists. split; [|split; [|done]]; [|done]. unfold progress, active, unacknowledged. simpl.
  destruct (is_terminal (operation_state _)) eqn:Et; simpl in E |- *; bool_prop; [subst; rewrite Et|]; naive_solver.
Qed.

Lemma set_failed_replaces plugin_id id code logs now (o : Ops W) :
  replaces plugin_id id (ops_state o) (ops_state (set_failed root plugin_id id code logs now o).2)
    (λ old new, progress old new ∧ operation_state (stored_operation new) = Failed).
Proof.
  apply locked_replaces. intros old. right. rewrite store_operation_state.
  eexists. split; [|split; [|done]]; [|done]. unfold progress, active, unacknowledged. naive_solver.
Qed.

Lemma set_built_replaces plugin_id id artifact logs now (o : Ops W) :
  replaces plugin_id id (ops_state o) (ops_state (set_built root plugin_id id artifact logs now o).2)
    (λ old new, progress old new ∧ operation_state (stored_operation old) = Building ∧
       operation_state (stored_operation new) = Built).
Proof.
  apply locked_replaces. intros old. simpl. destruct (eqb _ _) eqn:E; simpl; [right|by left].
  rewrite store_operation_state. bool_prop. eexists. split; [|split; [|done]]; [|done].
  unfold progress, active, unacknowledged. rewrite E. naive_solver.
Qed.

Lemma acknowledge_replaces plugin_id id now (o : Ops W) :
  replaces plugin_id id (ops_state o) (ops_state (acknowledge root plugin_id id now o).2)
    (λ old new, progress old new ∧ active old = false ∧
       operation_state (stored_operation new) = operation_state (stored_operation old)).
Proof.
  apply locked_replaces. intros old. simpl. destruct (is_terminal _) eqn:E; simpl; [right|by left].
  rewrite store_operation_state. eexists. split; [|split; [|done]]; [|done].
  unfold progress, active, unacknowledged. simpl. rewrite E. naive_solver.
Qed.

Lemma forget_state id (o : Ops W) :
  ops_state (forget root id o).2 = ops_state o ∨
  ops_state (forget root id o).2 =
    mkOperationState (delete id (operations (ops_state o))) (next_sequence (ops_state o)).
Proof.
  unfold forget, mbind, act_bind. destruct (on_disk _ o) as [[[]|e] o'] eqn:E;
    pose proof (on_disk_state (remove_file_if_exists (operation_record_path root id)) o) as Hs;
    rewrite E in Hs; simpl in *; [right|left]; by rewrite <- Hs.
Qed.

(** ** The invariant *)

Lemma filter_size_insert_le (P : Uuid * StoredOperation → Prop) `{∀ e, Decision (P e)}
    (m : gmap Uuid StoredOperation) i old new :
  m !! i = Some old → (P (i, new) → P (i, old)) →
  (size (filter P (<[i := new]> m)) ≤ size (filter P m))%nat.
Proof.
  intros Hi HP. rewrite <- !size_dom. apply subseteq_size. intros k. rewrite !elem_of_dom.
  intros [x (Hx & HPx)%map_lookup_filter_Some]. destruct (decide (k = i)) as [->|Hne].
  - rewrite lookup_insert_eq in Hx. injection Hx as ->. exists old. apply map_lookup_filter_Some. eauto.
  - rewrite lookup_insert_ne in Hx by done. exists x. by apply map_lookup_filter_Some.
Qed.

Lemma put_record_wf s id old new :
  ops_wf s → operations s !! id = Some old → progress old new →
  operation_id (stored_operation new) = operation_id (stored_operation old) →
  ops_wf (put_record new s).
Proof.
  intros Hwf Hold (Ha & Hu & Hf) Hid. pose proof (wf_keys _ Hwf _ _ Hold) as Hkey.
  rewrite Hkey in Hid. unfold put_record. rewrite Hid.
  assert (∀ i x, <[id := new]> (operations s) !! i = Some x →
    ∃ y, operations s !! i = Some y ∧ (active x = true → active y = true) ∧
      (i = id ∧ x = new ∨ i ≠ id ∧ x = y)) as Hlook.
  { intros i x Hx. destruct (decide (i = id)) as [->|Hne].
    - rewrite lookup_insert_eq in Hx. injection Hx as ->. eauto 10.
    - rewrite lookup_insert_ne in Hx by done. eauto 10. }
  split; simpl.
  - intros i x (y & Hy & _ & [[-> ->]|[_ ->]])%Hlook; [done|]. by apply (wf_keys _ Hwf).
  - intros i j a b (a' & Ha' & Haa & _)%Hlook (b' & Hb' & Hbb & _)%Hlook ??.
    eapply (wf_one_active _ Hwf); eauto.
  - pose proof (wf_unacknowledged _ Hwf). pose proof (filter_size_insert_le
      (λ e, unacknowledged e.2 = true) (operations s) id old new Hold Hu). lia.
  - intros i x (y & Hy & _ & [[-> ->]|[_ ->]])%Hlook Hx; [|by apply (wf_acknowledged _ Hwf i)].
    destruct (Hf Hx) as [Ho|]; [|done]. simplify_eq.
    destruct (active new) eqn:En; [|done]. rewrite <- (wf_acknowledged _ Hwf _ _ Hold Ho). by rewrite Ha.
Qed.

Lemma replaces_wf plugin_id id s s' ok :
  (∀ old new, ok old new → progress old new) → replaces plugin_id id s s' ok →
  ops_wf s → ops_wf s'.
Proof. intros Hok [->|(old & new & Hold & _ & Hn & Hid & ->)] Hwf; [done|]. eapply put_record_wf; eauto. Qed.

Lemma forget_wf id s : ops_wf s → ops_wf (mkOperationState (delete id (operations s)) (next_sequence s)).
Proof.
  intros Hwf. split; simpl.
  - intros i x [_ Hx]%lookup_delete_Some. by apply (wf_keys _ Hwf).
  - intros i j a b [_ ?]%lookup_delete_Some [_ ?]%lookup_delete_Some. by apply (wf_one_active _ Hwf).
  - etrans; [|apply (wf_unacknowledged _ Hwf)]. apply inj_le. rewrite <- !size_dom.
    apply subseteq_size, subseteq_dom, map_filter_subseteq_mono, delete_subseteq.
  - intros i x [_ Hx]%lookup_delete_Some. by apply (wf_acknowledged _ Hwf i).
Qed.

Lemma elem_of_values s stored :
  stored ∈ values s ↔ ∃ id, operations s !! id = Some stored.
Proof.
  unfold values. rewrite list_elem_of_fmap. split.
  - intros ([id x] & -> & Hx%elem_of_sort_by). apply elem_of_map_to_list in Hx. by exists id.
  - intros [id Hx]. exists (id, stored). split; [done|]. by apply elem_of_sort_by, elem_of_map_to_list.
Qed.

Lemma filter_values_size (p : StoredOperation → bool) s :
  zlen (List.filter p (values s)) =
  Z.of_nat (size (filter (λ e, p e.2 = true) (operations s))).
Proof.
  unfold zlen. f_equal. rewrite <- length_map_to_list, map_filter_alt.
  rewrite map_to_list_to_map by
    (apply (sublist_NoDup _ (map_to_list (operations s)).*1);
       [apply NoDup_fst_map_to_list|apply fmap_sublist, sublist_filter]).
  unfold values. set (l := sort_by _ _).
  assert (l ≡ₚ map_to_list (operations s)) as Hp by apply sort_by_perm.
  rewrite <- Hp. clear Hp. induction l as [|[i x] l IH]; [done|].
  rewrite filter_cons. simpl. destruct (p x) eqn:E; simpl; [by f_equal|done].
Qed.

Lemma begin_locked_state plugin_id id now (o : Ops W) :
  let s := ops_state o in
  let s' := ops_state (begin_locked root installation_id plugin_id id now o).2 in
  operations s' = operations s ∨
  operations s !! id = None ∧ (∀ i x, operations s !! i = Some x → active x = false) ∧
  Z.of_nat (size (filter (λ e, unacknowledged e.2 = true) (operations s))) <
    MAX_UNACKNOWLEDGED_OPERATIONS ∧
  operations s' = <[id := mkStoredOperation installation_id
    (mkPluginInstallOperation id plugin_id Accepted None [] None false) now now
    (next_sequence s)]> (operations s).
Proof.
  intros s s'. subst s s'. unfold begin_locked.
  destruct (operations (ops_state o) !! id) as [old|] eqn:E.
  { destruct (negb _); by left. }
  destruct (existsb _ _) eqn:Ea; [by left|]. destruct (_ >=? _) eqn:Ec; [by left|].
  unfold mbind, act_bind, query. simpl. set (stored := mkStoredOperation _ _ _ _ _).
  match goal with |- context [on_disk _ ?x] => set (o1 := x) end.
  pose proof (on_disk_state (persist_record root stored) o1) as Hs.
  destruct (on_disk (persist_record root stored) o1) as [[[]|e] o2]; simpl in *.
  - right. rewrite Hs. subst o1. simpl. split_and!; [done| | |done].
    + intros i x Hx. destruct (active x) eqn:Hact; [|done].
      assert (existsb active (values (ops_state o)) = true) as Hx'; [|unfold active in Hx'; congruence].
      apply existsb_exists. exists x. split; [|done]. apply list_elem_of_In, elem_of_values. eauto.
    + rewrite <- filter_values_size. unfold unacknowledged. bool_prop. lia.
  - left. rewrite Hs. done.
Qed.

Lemma begin_locked_wf plugin_id id now (o : Ops W) :
  ops_wf (ops_state o) →
  ops_wf (ops_state (begin_locked root installation_id plugin_id id now o).2).
Proof.
  intros Hwf. pose proof (begin_locked_state plugin_id id now o) as Hs. cbv zeta in Hs.
  destruct (ops_state (begin_locked _ _ _ _ _ _).2) as [m n]. simpl in Hs.
  destruct Hs as [->|(Hnone & Hidle & Hcount & ->)]; [by destruct Hwf; split|].
  split; simpl.
  - intros i x [[<- <-]|[_ Hx]]%lookup_insert_Some; [done|]. by apply (wf_keys _ Hwf).
  - intros i j a b Ha Hb ??. apply lookup_insert_Some in Ha as [[<- _]|[? Ha]];
      apply lookup_insert_Some in Hb as [[<- _]|[? Hb]]; [done|..];
      first [apply Hidle in Ha | apply Hidle in Hb]; congruence.
  - rewrite map_filter_insert_True, map_size_insert_None by
      (done || by apply map_lookup_filter_None; left). lia.
  - intros i x [[<- <-]|[_ Hx]]%lookup_insert_Some; [done|]. by apply (wf_acknowledged _ Hwf i).
Qed.

Lemma critical_wf s s' : critical s s' → ops_wf s → ops_wf s'.
Proof.
  intros [plugin_id id now o|plugin_id id state code now o|plugin_id id artifact logs now o
    |plugin_id id code logs now o|plugin_id id now o|id o] Hwf.
  - by apply begin_locked_wf.
  - eapply replaces_wf; [|apply set_state_replaces|done]. by intros ?? [].
  - eapply replaces_wf; [|apply set_built_replaces|done]. by intros ?? [].
  - eapply replaces_wf; [|apply set_failed_replaces|done]. by intros ?? [].
  - eapply replaces_wf; [|apply acknowledge_replaces|done]. by intros ?? [].
  - destruct (forget_state id o) as [->| ->]; [done|]. by apply forget_wf.
Qed.

(** ** The public calls *)

Inductive InstallCall :=
  | CallBegin (plugin_id : PluginId) (id : Uuid) (now : time)
  | CallBuild (plugin_id : PluginId) (id : Uuid) (now : nat → time)
  | CallFinalize (plugin_id : PluginId) (id : Uuid) (now : time)
  | CallAbort (plugin_id : PluginId) (id : Uuid) (now : time)
  | CallAcknowledge (plugin_id : PluginId) (id : Uuid) (now : time)
  | CallCleanup (now : time).

Definition run_call (c : InstallCall) (o : Ops W) : Ops W :=
  match c with
  | CallBegin plugin_id id now => (begin_locked root installation_id plugin_id id now o).2
  | CallBuild plugin_id id now => run_build root installation_id plugin_id id now o
  | CallFinalize plugin_id id now => (finalize root installation_id plugin_id id now o).2
  | CallAbort plugin_id id now => (abort root installation_id plugin_id id now o).2
  | CallAcknowledge plugin_id id now => (acknowledge root plugin_id id now o).2
  | CallCleanup now => (cleanup_acknowledged root now o).2
  end.

Definition sections : relation (Ops W) := λ o o', rtc critical (ops_state o) (ops_state o').
Global Instance sections_preorder : PreOrder sections.
Proof. split; [intros o; apply rtc_refl|]. intros a b c. unfold sections. apply transitivity. Qed.

Lemma sections_once {E B} (m : act (Ops W) E B) :
  (∀ o, critical (ops_state o) (ops_state (m o).2)) → moves sections m.
Proof. intros Hm o. apply rtc_once, Hm. Qed.

Lemma sections_same {E B} (m : act (Ops W) E B) :
  (∀ o, ops_state (m o).2 = ops_state o) → moves sections m.
Proof. intros Hm o. unfold sections. rewrite Hm. apply rtc_refl. Qed.

Lemma status_sections plugin_id id :
  moves sections (status plugin_id id : act (Ops W) InstallOperationError _).
Proof. unfold status. moves. intros o. apply rtc_refl. Qed.

Ltac sections :=
  moves; try (apply sections_same; intros ?; first [apply on_disk_state | apply on_adapter_state]);
  try apply status_sections; try (apply sections_once; intros ?; constructor).

Lemma finalize_sections plugin_id id now :
  moves sections (finalize root installation_id plugin_id id now : act (Ops W) _ _).
Proof. unfold finalize. sections. Qed.

Lemma abort_sections plugin_id id now :
  moves sections (abort root installation_id plugin_id id now : act (Ops W) _ _).
Proof. unfold abort. sections. Qed.

Lemma cleanup_sections now :
  moves sections (cleanup_acknowledged root now : act (Ops W) _ _).
Proof. unfold cleanup_acknowledged. sections. apply moves_query. intros o. apply rtc_refl. Qed.

Lemma sections_run {E B} (m : act (Ops W) E B) o r o' :
  moves sections m → m o = (r, o') → sections o o'.
Proof. intros Hm Ho. specialize (Hm o). by rewrite Ho in Hm. Qed.

Lemma run_build_sections plugin_id id now (o : Ops W) :
  sections o (run_build root installation_id plugin_id id now o).
Proof.
  unfold run_build. destruct (set_state _ _ _ _ _ _ o) as [[op|e] o1] eqn:E1;
    apply sections_run in E1; [|sections|done|sections].
  etrans; [exact E1|]. destruct (adapter_build _ _) as [built w].
  change (ops_state o1) with (ops_state (mkOps (ops_state o1) (ops_disk o1) w)).
  transitivity (mkOps (ops_state o1) (ops_disk o1) w); [apply rtc_refl|].
  set (o2 := mkOps _ _ w). clearbody o2. cbv zeta.
  etrans; [|apply (sections_same (on_adapter (adapter_cleanup id))); intros; apply on_adapter_state].
  destruct built as [output|error]; [|apply (sections_once (set_failed _ _ _ _ _ _)); constructor].
  destruct (negb _); [apply (sections_same (ignore _)); intros; apply on_adapter_state|].
  destruct (on_disk _ o2) as [[u|error] o3] eqn:E3; apply sections_run in E3; try sections;
    (etrans; [exact E3|]).
  - apply (sections_once (set_built _ _ _ _ _ _)). constructor.
  - etrans; [|apply (sections_once (set_failed _ _ _ _ _ _)); constructor].
    apply (sections_same (ignore _)). intros. apply on_adapter_state.
Qed.

Lemma call_sections c (o : Ops W) : sections o (run_call c o).
Proof.
  destruct c; simpl; [apply rtc_once; constructor|apply run_build_sections|apply finalize_sections
    |apply abort_sections|apply rtc_once; constructor|apply cleanup_sections].
Qed.

Lemma ops_wf_default : ops_wf OperationState_default.
Proof. split; simpl; intros; simplify_map_eq. unfold MAX_UNACKNOWLEDGED_OPERATIONS. done. Qed.

Lemma sections_wf s s' : rtc critical s s' → ops_wf s → ops_wf s'.
Proof. induction 1; eauto using critical_wf. Qed.

(** [list] leaves nothing out as long as its bound is the bound on operations. *)
Lemma list_ops_complete (o : Ops W) x :
  ops_wf (ops_state o) →
  x ∈ list_operations (list_ops installation_id o) ↔
  ∃ id stored, operations (ops_state o) !! id = Some stored ∧
    stored_installation_id stored = installation_id ∧ unacknowledged stored = true ∧
    x = operation_summary (stored_operation stored).
Proof.
  intros Hwf. unfold list_ops, PluginInstallOperationList_new. cbn [list_operations].
  rewrite take_ge.
  - rewrite list_elem_of_fmap. split.
    + intros (stored & -> & Hs%elem_of_sort_by). apply list_elem_of_In, List.filter_In in Hs as [Hs Hp].
      apply list_elem_of_In, elem_of_values in Hs as [id Hs]. apply andb_prop in Hp as [Hi Hu].
      exists id, stored. split_and!; [done|by apply bool_decide_eq_true in Hi|done|done].
    + intros (id & stored & Hs & Hi & Hu & ->). exists stored. split; [done|].
      apply elem_of_sort_by, list_elem_of_In, List.filter_In. split.
      { apply list_elem_of_In, elem_of_values. eauto. }
      unfold unacknowledged in Hu. by rewrite Hi, eqb_refl, Hu.
  - rewrite length_fmap, length_sort_by. pose proof (wf_unacknowledged _ Hwf) as Hn.
    rewrite <- filter_values_size in Hn. unfold zlen, MAX_UNACKNOWLEDGED_OPERATIONS in Hn.
    change (Z.to_nat MAX_OPERATION_LIST_ITEMS) with 256%nat.
    enough (length (List.filter (λ stored, eqb (stored_installation_id stored) installation_id
      && negb (operation_acknowledged (stored_operation stored))) (values (ops_state o))) ≤
      length (List.filter unacknowledged (values (ops_state o))))%nat by lia.
    clear. induction (values (ops_state o)) as [|x l IH]; [done|]. simpl. unfold unacknowledged at 1.
    destruct (eqb _ _), (operation_acknowledged _); simpl; lia.
Qed.

(** C11. Whatever calls and build tasks run, in whatever interleaving of their
    critical sections and with whatever failures of the disk and the adapter: at
    most one operation is in progress, at most 256 are not acknowledged, only
    finished operations are acknowledged, and [list] reports every operation
    that is not acknowledged. *)
Theorem operations_bounded s (o : Ops W) :
  ops_wf s → rtc critical s (ops_state o) →
  ops_wf (ops_state o) ∧
  (∀ x, x ∈ list_operations (list_ops installation_id o) ↔
     ∃ id stored, operations (ops_state o) !! id = Some stored ∧
       stored_installation_id stored = installation_id ∧ unacknowledged stored = true ∧
       x = operation_summary (stored_operation stored)) ∧
  ∀ c, rtc critical s (ops_state (run_call c o)).
Proof.
  intros Hwf Hs. assert (ops_wf (ops_state o)) by (by eapply sections_wf).
  split_and!; [done| |].
  - intros x. by apply list_ops_complete.
  - intros c. etrans; [exact Hs|apply call_sections].
Qed.
End records.
