(* ===== verification/InstallFiles.v ===== *)
(** * The files of an install operation

    What [finalize] leaves on disk when it succeeds, that it can be repeated
    after any failure, and what a retry does not repair. *)

From S2P Require Import Prelude Text Domain Stateful Database SupervisorProtocol Fs.
From S2P Require Import InstallOperation InstallOperationProps.

(** [root/name] with everything below it, and the directories above it. *)
Definition area (root : path) (name : string) (k : path) : Prop :=
  (∃ r, k = root ++ name :: r) ∨ ∃ r, root = k ++ r.

Lemma area_other root name name' r : name ≠ name' → ¬ area root name (root ++ name' :: r).
Proof.
  intros Hne [[r' Heq]|[r' Heq]].
  - apply (inj (app root)) in Heq. congruence.
  - apply (f_equal length) in Heq. rewrite !length_app in Heq. simpl in Heq. lia.
Qed.

Lemma parent_two root a b : parent (root ++ [a; b]) = root ++ [a].
Proof. unfold parent. by rewrite (removelast_app root) by done. Qed.

Lemma area_ancestor root name k r : root ++ [name] = k ++ r → area root name k.
Proof.
  intros Heq. destruct r as [|x r _] using rev_ind.
  - rewrite app_nil_r in Heq. subst k. left. by exists [].
  - rewrite app_assoc in Heq. apply app_inj_tail in Heq as [Heq _]. right. by exists r.
Qed.

Section files.
Context {K : Codec} {J : OperationJson}.

Lemma sync_directory_changes T p : moves (changes_only T) (sync_directory p).
Proof. unfold sync_directory, io. moves; apply fs_sync_changes. Qed.

(** An atomic write in [root/name] stays in that area. *)
Lemma atomic_write_changes root name file content :
  moves (changes_only (area root name)) (atomic_write (root ++ [name; file]) content).
Proof.
  assert (∀ f r, area root name ((root ++ [name]) ++ f :: r)) as Hin
    by (intros f r; left; exists (f :: r); by rewrite <- app_assoc).
  unfold atomic_write. destruct (root ++ [name; file]) as [|x l] eqn:Ep; [moves|].
  rewrite <- Ep, parent_two. unfold io. moves.
  - apply fs_create_dir_all_changes. intros k r. apply area_ancestor.
  - apply moves_query. intros d. apply new_v4_changes.
  - apply on_error_moves; [apply _| |apply fs_remove_file_changes, Hin].
    moves; [apply fs_create_new_changes, Hin|apply fs_write_all_changes, Hin
      |apply fs_sync_changes|apply fs_rename_changes|apply sync_directory_changes].
    + intros r. rewrite <- app_assoc. apply Hin.
    + intros r. rewrite <- app_assoc. left. by exists (file :: r).
Qed.

Lemma io_Ok {A} (m : act Disk IoError A) d a d' : io m d = (Ok a, d') → m d = (Ok a, d').
Proof. apply map_errors_Ok. Qed.

Lemma sync_directory_Ok p d d' : sync_directory p d = (Ok tt, d') → disk_fs d' = disk_fs d.
Proof.
  unfold sync_directory. intros H. act_steps. apply io_Ok, fs_sync_Ok in H.
  match goal with Hs : io _ _ = (Ok ?u, _) |- _ => destruct u; apply io_Ok, fs_sync_Ok in Hs end.
  congruence.
Qed.

(** A successful atomic write leaves exactly the content. *)
Lemma atomic_write_Ok p content d d' :
  atomic_write p content d = (Ok tt, d') → disk_fs d' !! p = Some (File content).
Proof.
  unfold atomic_write. destruct p as [|x p]; [done|]. intros H. act_steps.
  apply on_error_Ok in H. act_steps. apply sync_directory_Ok in H.
  repeat match goal with Hs : io _ _ = (Ok ?u, _) |- _ => destruct u; apply io_Ok in Hs end.
  match goal with Hs : fs_sync _ _ = _ |- _ => apply fs_sync_Ok in Hs as Hsync; clear Hs end.
  match goal with Hs : fs_write_all _ _ _ = _ |- _ => apply fs_write_all_Ok in Hs; rename Hs into Hw end.
  match goal with Hs : fs_rename _ _ _ = _ |- _ => apply (rename_file_Ok _ _ content) in Hs;
    [rename Hs into Hr|by rewrite Hsync, Hw, lookup_insert_eq] end.
  by rewrite H, Hr, lookup_insert_eq.
Qed.

(** ... and the other files of the directory as they were. *)
Lemma atomic_write_others root name file content d d' other :
  atomic_write (root ++ [name; file]) content d = (Ok tt, d') → other ≠ file →
  disk_fs d' !! (root ++ [name; other]) = disk_fs d !! (root ++ [name; other]).
Proof.
  intros H Hne. unfold atomic_write in H.
  destruct (root ++ [name; file]) as [|x l] eqn:Ep; [done|]. rewrite <- Ep, parent_two in H. clear x l Ep.
  apply act_bind_Ok in H as ([] & d1 & Hmk%io_Ok & H). apply act_bind_Ok in H as (uuid & d2 & Hu & H).
  apply query_inv in Hu. injection Hu as <- <-. apply on_error_Ok in H.
  set (temporary := (root ++ [name]) ++ [_]) in H.
  apply act_bind_Ok in H as ([] & d3 & Hc%io_Ok%fs_create_new_Ok & H).
  apply act_bind_Ok in H as ([] & d4 & Hw%io_Ok%fs_write_all_Ok & H).
  apply act_bind_Ok in H as ([] & d5 & Hs%io_Ok%fs_sync_Ok & H).
  apply act_bind_Ok in H as ([] & d6 & Hr%io_Ok & H). apply sync_directory_Ok in H as ->.
  apply (rename_file_Ok _ _ content) in Hr; [|by rewrite Hs, Hw, lookup_insert_eq].
  destruct Hc as [Hnone Hc]. simpl in Hnone, Hc. rewrite Hr, Hs, Hw, Hc.
  assert (disk_fs d1 !! (root ++ [name; other]) = disk_fs d !! (root ++ [name; other])) as <-.
  { eapply (moves_run (changes_only (λ k, ∃ r, root ++ [name] = k ++ r))) in Hmk.
    - destruct (Hmk (root ++ [name; other])) as [?|[r Hlen]]; [done|].
      apply (f_equal length) in Hlen. rewrite !length_app in Hlen. simpl in Hlen. lia.
    - apply fs_create_dir_all_changes. eauto. }
  rewrite lookup_insert_ne by (intros Heq%(inj (app root)); congruence).
  destruct (decide (temporary = root ++ [name; other])) as [Heq|Hneq].
  - rewrite <- Heq, lookup_delete_eq. done.
  - by rewrite lookup_delete_ne, !lookup_insert_ne.
Qed.

(** ** Reading back and removing *)

Lemma read_attestation_Ok directory d a d' :
  read_attestation directory d = (Ok a, d') →
  disk_fs d' = disk_fs d ∧ ∃ content, disk_fs d !! (directory ++ ["install.json"]) = Some (File content) ∧
    attestation_from_slice content = Some a.
Proof.
  unfold read_attestation. intros H. act_steps.
  match goal with Hs : fs_read _ _ = _ |- _ => apply syscall_Ok in Hs end.
  repeat case_match; simplify_eq. split; [congruence|eauto].
Qed.

Definition attested (directory : path) (a : InstallAttestation) (fs : Fs) : Prop :=
  ∃ content, fs !! (directory ++ ["install.json"]) = Some (File content) ∧
    attestation_from_slice content = Some a.

Lemma verify_attestation_Ok directory expected d d' :
  verify_attestation directory expected d = (Ok tt, d') →
  disk_fs d' = disk_fs d ∧ attested directory expected (disk_fs d).
Proof.
  unfold verify_attestation. intros H. act_steps.
  match goal with Hs : read_attestation _ _ = _ |- _ => apply read_attestation_Ok in Hs as [Hd (c & ?)] end.
  bool_prop. subst. split; [done|]. by exists c.
Qed.

Lemma missing_is_ok_moves R m : moves R m → moves R (missing_is_ok m).
Proof. intros Hm d. unfold missing_is_ok. specialize (Hm d). by destruct (m d) as [[|[]]]. Qed.

Lemma remove_file_if_exists_Ok p d d' :
  remove_file_if_exists p d = (Ok tt, d') →
  disk_fs d' !! p = None ∧ ∀ k, k ≠ p → disk_fs d' !! k = disk_fs d !! k.
Proof.
  unfold remove_file_if_exists, missing_is_ok.
  destruct (fs_remove_file p d) as [[[]|[]] d1] eqn:E; [..|done]; intros [= <-].
  - apply syscall_Ok in E. destruct (disk_fs d !! p) as [[]|]; try discriminate. injection E as <-.
    split; [by rewrite lookup_delete_eq|intros k ?; by rewrite lookup_delete_ne].
  - unfold fs_remove_file, syscall in E. pose proof (disk_next_fault_fs d) as Hd.
    destruct (disk_next_fault d) as [[] d2]; [done|]. simpl in *. rewrite Hd in E.
    repeat case_match; simplify_eq. rewrite Hd. by split.
Qed.

Definition mirror_names : list string := ["grants"; "prepared"; "risk-grants"].

Lemma remove_mirrors_changes root plugin_id id :
  moves (changes_only (λ k, ∃ name r, name ∈ mirror_names ∧ k = root ++ name :: r))
    (remove_mirrors root (paths root plugin_id id)).
Proof.
  set (T := λ k, _). assert (∀ name f, name ∈ mirror_names → T (root ++ [name; f])) as HT.
  { intros name f Hn. exists name, [f]. done. }
  assert (∀ name f, name ∈ mirror_names →
    moves (changes_only T) (remove_file_if_exists (root ++ [name; f]))) as Hr.
  { intros name f Hn. by apply missing_is_ok_moves, fs_remove_file_changes, HT. }
  unfold remove_mirrors. moves; [|apply Hr; set_solver..].
  intros d. pose proof (fs_read_changes T (prepared_request (paths root plugin_id id)) d) as Hd.
  destruct (fs_read _ d) as [[content|e] d1]; [|done]. simpl in Hd.
  destruct (prepared_grant_id content); [|done]. etrans; [exact Hd|]. apply Hr. set_solver.
Qed.

Lemma remove_mirrors_Ok root plugin_id id d d' :
  remove_mirrors root (paths root plugin_id id) d = (Ok tt, d') →
  disk_fs d' !! (root ++ ["prepared"; json_file id]) = None ∧
  disk_fs d' !! (root ++ ["risk-grants"; json_file id]) = None.
Proof.
  unfold remove_mirrors. intros H. act_steps.
  apply remove_file_if_exists_Ok in H as [Hm Hk].
  match goal with Hs : remove_file_if_exists _ _ = _ |- _ =>
    apply remove_file_if_exists_Ok in Hs as [Hp _] end. split; [|done]. rewrite Hk; [done|].
  intros Heq%(inj (app root)). congruence.
Qed.

(** The grant that the prepared request names goes too, unless the request could
    not be read. *)
Lemma remove_mirrors_grant root plugin_id id d d' content grant_id :
  true ∉ disk_faults d → disk_fs d !! (root ++ ["prepared"; json_file id]) = Some (File content) →
  prepared_grant_id content = Some grant_id →
  remove_mirrors root (paths root plugin_id id) d = (Ok tt, d') →
  disk_fs d' !! (root ++ ["grants"; json_file grant_id]) = None.
Proof.
  intros Hd Hp Hg. unfold remove_mirrors. intros H.
  apply act_bind_Ok in H as ([] & d1 & H1 & H). apply act_bind_Ok in H as ([] & d2 & H2 & H3).
  destruct (sound_read (root ++ ["prepared"; json_file id]) content d) as (d0 & Hr & _); [done..|].
  simpl in H1. rewrite Hr, Hg in H1. apply remove_file_if_exists_Ok in H1 as [H1 _].
  apply remove_file_if_exists_Ok in H2 as [_ H2]. apply remove_file_if_exists_Ok in H3 as [_ H3].
  rewrite H3, H2; [done|..]; intros Heq%(inj (app root)); congruence.
Qed.

Lemma on_error_faults {E A F B} (m : act Disk E A) (undo : act Disk F B) :
  moves sound_disk m → moves sound_disk undo → moves sound_disk (on_error m undo).
Proof. apply on_error_moves, _. Qed.

Lemma persist_record_faults root record : moves sound_disk (persist_record root record).
Proof.
  unfold persist_record. moves.
  generalize (operation_record_path root (operation_id (stored_operation record))). intros q.
  unfold atomic_write, io, fs_create_dir_all, sync_directory, io. destruct q; moves; try apply syscall_faults.
  { apply moves_query. by intros d Hd. }
  apply on_error_faults; [|apply syscall_faults]. moves; apply syscall_faults.
Qed.
Lemma attestation_faults installation_id directory plugin_id id artifact :
  moves sound_disk (attestation_from_directory installation_id directory plugin_id id artifact).
Proof. unfold attestation_from_directory, read_attestation. moves. apply syscall_faults. Qed.
Lemma verify_faults directory expected : moves sound_disk (verify_attestation directory expected).
Proof. unfold verify_attestation, read_attestation. moves. apply syscall_faults. Qed.
Lemma install_candidate_faults p a : moves sound_disk (install_candidate p a).
Proof.
  unfold install_candidate, io, sync_directory, fs_create_dir_all, io. moves;
    try apply verify_faults; try apply syscall_faults;
    apply moves_query; intros d; apply path_exists_faults.
Qed.
End files.

Section manager.
Context {K : Codec} {J : OperationJson}.
Context {W : Type} {A : InstallBuildAdapter W}.
Context (root : path) (installation_id : string).

Lemma on_disk_Ok {B} (m : act Disk InstallOperationError B) (o : Ops W) b o' :
  on_disk m o = (Ok b, o') →
  m (ops_disk o) = (Ok b, ops_disk o') ∧ ops_state o' = ops_state o ∧ ops_adapter o' = ops_adapter o.
Proof. unfold on_disk, focus. destruct (m (ops_disk o)). by intros [= -> <-]. Qed.

Lemma locked_operation_Ok plugin_id id (o : Ops W) stored o' :
  locked_operation plugin_id id o = (Ok stored, o') →
  o' = o ∧ operations (ops_state o) !! id = Some stored ∧
  operation_plugin_id (stored_operation stored) = plugin_id.
Proof.
  unfold locked_operation, matching_operation. intros [= H <-]. simplify_result. by bool_prop.
Qed.

Lemma persist_record_Ok record d d' :
  persist_record root record d = (Ok tt, d') →
  ∃ content, operation_to_vec_pretty record = Some content ∧
    disk_fs d' !! operation_record_path root (operation_id (stored_operation record)) =
      Some (File content).
Proof.
  unfold persist_record. intros H. act_steps. eexists. split; [done|]. by eapply atomic_write_Ok.
Qed.

Lemma persist_record_changes record :
  moves (changes_only (area root "operations")) (persist_record root record).
Proof. unfold persist_record. moves. apply atomic_write_changes. Qed.

(** A record stored successfully is in memory and on disk. *)
Lemma store_operation_Ok stored (o : Ops W) op o' :
  store_operation root stored o = (Ok op, o') →
  op = stored_operation stored ∧ ops_state o' = put_record stored (ops_state o) ∧
  changes_only (area root "operations") (ops_disk o) (ops_disk o') ∧
  ∃ content, operation_to_vec_pretty stored = Some content ∧
    disk_fs (ops_disk o') !! operation_record_path root (operation_id (stored_operation stored)) =
      Some (File content).
Proof.
  intros H. pose proof (store_operation_state root stored o) as Hs. rewrite H in Hs.
  unfold store_operation in H. act_steps.
  match goal with Hd : on_disk _ _ = _ |- _ => apply on_disk_Ok in Hd as (Hper & _ & _) end.
  simpl in *. split_and!; [done|done| |by eapply persist_record_Ok].
  eapply moves_run, Hper. apply persist_record_changes.
Qed.

Lemma set_state_Ok plugin_id id state code now (o : Ops W) op o' :
  ops_wf (ops_state o) → set_state root plugin_id id state code now o = (Ok op, o') →
  ∃ old new, operations (ops_state o) !! id = Some old ∧
    operation_plugin_id (stored_operation old) = plugin_id ∧
    operations (ops_state o') !! id = Some new ∧ op = stored_operation new ∧
    op = mkPluginInstallOperation id plugin_id state (operation_artifact (stored_operation old))
           (operation_build_logs (stored_operation old)) code
           (operation_acknowledged (stored_operation old)) ∧
    changes_only (area root "operations") (ops_disk o) (ops_disk o') ∧
    ∃ content, operation_to_vec_pretty new = Some content ∧
      disk_fs (ops_disk o') !! operation_record_path root id = Some (File content).
Proof.
  intros Hwf H. unfold set_state in H. apply act_bind_Ok in H as (old & o1 & Hl & H).
  apply locked_operation_Ok in Hl as (-> & Hold & Hp). simpl in H.
  destruct (is_terminal _ && _); [done|]. apply store_operation_Ok in H as (-> & Hs & Hd & Hc).
  match type of Hs with _ = put_record ?n _ => set (new := n) in * end.
  assert (operation_id (stored_operation new) = id) as Hid by apply (wf_keys _ Hwf _ _ Hold).
  unfold put_record in Hs. rewrite Hid in Hs, Hc. exists old, new.
  split_and!; [done|done| |done| |done|done].
  - rewrite Hs. apply lookup_insert_eq.
  - rewrite <- Hid, <- Hp. done.
Qed.

Lemma status_Ok plugin_id id (o : Ops W) op o' :
  status plugin_id id o = (Ok op, o') →
  o' = o ∧ ∃ stored, operations (ops_state o) !! id = Some stored ∧ op = stored_operation stored ∧
    operation_plugin_id op = plugin_id.
Proof.
  unfold status. intros H. act_steps.
  match goal with Hl : locked_operation _ _ _ = _ |- _ => apply locked_operation_Ok in Hl as (-> & ? & ?) end.
  eauto.
Qed.

Lemma attestation_from_directory_Ok directory plugin_id id artifact d a d' :
  attestation_from_directory installation_id directory plugin_id id artifact d = (Ok a, d') →
  disk_fs d' = disk_fs d ∧ attested directory a (disk_fs d) ∧
  attests installation_id plugin_id id artifact a = true.
Proof.
  unfold attestation_from_directory. intros H. act_steps.
  match goal with Hr : read_attestation _ _ = _ |- _ => apply read_attestation_Ok in Hr as [? ?] end.
  by bool_prop.
Qed.

Lemma path_exists_query p d found d' :
  (query (path_exists p) : act Disk InstallOperationError bool) d = (Ok found, d') →
  disk_fs d' = disk_fs d ∧ (found = true → is_Some (disk_fs d !! p)).
Proof.
  intros H%query_inv. unfold path_exists, syscall in H. pose proof (disk_next_fault_fs d) as Hd.
  destruct (disk_next_fault d) as [[] d1]; simpl in *; simplify_eq; [done|]. simpl.
  rewrite Hd. split; [done|]. by destruct (disk_fs d !! p).
Qed.

Lemma two_below root' (a b c : string) l : a ≠ b → below (root' ++ [a; c]) (root' ++ b :: l) = None.
Proof.
  intros Hne. destruct (below _ _) as [r|] eqn:E; [|done]. apply below_Some in E.
  rewrite <- app_assoc in E. apply (inj (app root')) in E. simpl in E. congruence.
Qed.

Lemma create_installed_changes d d' :
  io (fs_create_dir_all (root ++ ["installed"])) d = (Ok tt, d') →
  ∀ name x r, disk_fs d' !! (root ++ name :: x :: r) = disk_fs d !! (root ++ name :: x :: r).
Proof.
  intros H%io_Ok name x r.
  assert (changes_only (λ k, ∃ r, root ++ ["installed"] = k ++ r) d d') as Hc.
  { eapply moves_run, H. apply fs_create_dir_all_changes. intros k s Hs. by exists s. }
  destruct (Hc (root ++ name :: x :: r)) as [?|[s Hs]]; [done|]. apply (f_equal length) in Hs.
  rewrite !length_app in Hs. simpl in Hs. lia.
Qed.

Lemma install_candidate_Ok plugin_id id expected d d' :
  let p := paths root plugin_id id in
  tree (disk_fs d) → install_candidate p expected d = (Ok tt, d') →
  attested (installed_dir p) expected (disk_fs d') ∧
  (disk_fs d !! installed_dir p = None →
   ∀ r, disk_fs d' !! (installed_dir p ++ r) = disk_fs d !! (candidate_dir p ++ r) ∧
     disk_fs d' !! (candidate_dir p ++ r) = None).
Proof.
  intros p Ht H. unfold install_candidate in H. apply act_bind_Ok in H as (installed & d1 & Hq & H).
  apply path_exists_query in Hq as [H1 Hinst]. rewrite <- H1 in Ht, Hinst |- *. clear H1 d.
  destruct installed.
  - apply act_bind_Ok in H as ([] & d2 & Hv & H). apply verify_attestation_Ok in Hv as [H2 Ha].
    apply act_bind_Ok in H as (cand & d3 & Hc & H). apply path_exists_query in Hc as [H3 _].
    destruct cand; [done|]. injection H as <-. rewrite H3, H2. split; [done|].
    intros Hn. destruct Hinst as [v Hv']; [done|]. congruence.
  - apply act_bind_Ok in H as ([] & d2 & Hv & H). apply verify_attestation_Ok in Hv as [H2 Ha].
    apply act_bind_Ok in H as ([] & d3 & Hm & H). apply act_bind_Ok in H as ([] & d4 & Hr & H).
    apply sync_directory_Ok in H as ->. unfold p in Hm. simpl in Hm. rewrite parent_two in Hm.
    pose proof (create_installed_changes _ _ Hm) as Hsame. rewrite H2 in Hsame. apply io_Ok in Hr.
    assert (∀ r, disk_fs d3 !! (candidate_dir p ++ r) = disk_fs d1 !! (candidate_dir p ++ r)) as Hcand
      by (intros r; unfold p; simpl; rewrite <- app_assoc; apply Hsame).
    assert (∀ r, disk_fs d3 !! (installed_dir p ++ r) = disk_fs d1 !! (installed_dir p ++ r)) as Hins
      by (intros r; unfold p; simpl; rewrite <- app_assoc; apply Hsame).
    apply rename_dir_Ok in Hr as (Hmoved & Hgone & _).
    + split.
      * destruct Ha as (c & Hc & Hs). exists c. by rewrite Hmoved, Hcand.
      * intros _ r. by rewrite Hmoved, Hcand, Hgone.
    + apply (rooted_same _ (disk_fs d1)); [done|]. by apply tree_rooted.
    + pose proof (Hcand []) as Hc. rewrite !app_nil_r in Hc. rewrite Hc.
      destruct Ha as (c & Hc' & _). by eapply (tree_above _ _ ["install.json"]).
    + unfold p. simpl. by apply two_below.
Qed.

Lemma install_candidate_keeps plugin_id id a d d' x :
  install_candidate (paths root plugin_id id) a d = (Ok tt, d') →
  disk_fs d' !! (root ++ ["prepared"; x]) = disk_fs d !! (root ++ ["prepared"; x]).
Proof.
  unfold install_candidate. intros H. apply act_bind_Ok in H as (installed & d1 & Hq & H).
  apply path_exists_query in Hq as [H1 _]. rewrite <- H1. clear H1 d. destruct installed.
  - apply act_bind_Ok in H as ([] & d2 & Hv & H). apply verify_attestation_Ok in Hv as [H2 _].
    apply act_bind_Ok in H as (cand & d3 & Hc & H). apply path_exists_query in Hc as [H3 _].
    destruct cand; [done|]. injection H as <-. by rewrite H3, H2.
  - apply act_bind_Ok in H as ([] & d2 & Hv & H). apply verify_attestation_Ok in Hv as [H2 _].
    apply act_bind_Ok in H as ([] & d3 & Hm & H). apply act_bind_Ok in H as ([] & d4 & Hr & H).
    apply sync_directory_Ok in H as ->. simpl in Hm, Hr. rewrite parent_two in Hm.
    rewrite <- H2, <- (create_installed_changes _ _ Hm). apply io_Ok in Hr.
    assert (changes_only (λ k, ∃ name r, name ≠ "prepared" ∧ k = root ++ name :: r) d3 d4) as Hc.
    { eapply moves_run, Hr. apply fs_rename_changes; intros r; rewrite <- app_assoc;
        do 2 eexists; (split; [|reflexivity]); done. }
    destruct (Hc (root ++ ["prepared"; x])) as [?|(name & r & Hn & Heq)]; [done|].
    apply (inj (app root)) in Heq. congruence.
Qed.

Lemma set_state_faults plugin_id id state code now (o : Ops W) op o' :
  set_state root plugin_id id state code now o = (Ok op, o') → sound_disk (ops_disk o) (ops_disk o').
Proof.
  intros H. unfold set_state in H. apply act_bind_Ok in H as (old & o1 & Hl & H).
  apply locked_operation_Ok in Hl as (-> & _ & _). destruct (_ && _); [done|].
  unfold store_operation in H. apply act_bind_Ok in H as ([] & o2 & Hq & H).
  unfold query in Hq. injection Hq as <-.
  apply act_bind_Ok in H as ([] & o3 & Hd & H). injection H as _ <-.
  apply on_disk_Ok in Hd as (Hd & _ & _). eapply moves_run in Hd; [exact Hd|].
  apply persist_record_faults.
Qed.

Lemma remove_mirrors_keeps plugin_id id d d' name r :
  remove_mirrors root (paths root plugin_id id) d = (Ok tt, d') → name ∉ mirror_names →
  disk_fs d' !! (root ++ name :: r) = disk_fs d !! (root ++ name :: r).
Proof.
  intros H Hn. eapply moves_run in H; [|apply remove_mirrors_changes].
  destruct (H (root ++ name :: r)) as [?|(name' & r' & Hn' & Heq)]; [done|].
  apply (inj (app root)) in Heq. by injection Heq as <- _.
Qed.

Lemma changes_only_other d d' name name' r :
  changes_only (area root name) d d' → name ≠ name' →
  disk_fs d' !! (root ++ name' :: r) = disk_fs d !! (root ++ name' :: r).
Proof.
  intros Hc Hne. destruct (Hc (root ++ name' :: r)) as [?|Ha]; [done|].
  by apply (area_other root name name' r) in Ha.
Qed.

(** What [finalize] does before it looks at the state of the operation. *)
Lemma finalize_prefix plugin_id id now (o : Ops W) op o' :
  finalize root installation_id plugin_id id now o = (Ok op, o') →
  let p := paths root plugin_id id in
  ∃ old artifact a o1, operations (ops_state o) !! id = Some old ∧
    operation_plugin_id (stored_operation old) = plugin_id ∧
    operation_artifact (stored_operation old) = Some artifact ∧
    attests installation_id plugin_id id artifact a = true ∧
    ops_state o1 = ops_state o ∧ disk_fs (ops_disk o1) = disk_fs (ops_disk o) ∧
    sound_disk (ops_disk o) (ops_disk o1) ∧
    ((operation_state (stored_operation old) = Finalized ∧ op = stored_operation old ∧
      ∃ d2, verify_attestation (installed_dir p) a (ops_disk o1) = (Ok tt, d2) ∧
        remove_mirrors root p d2 = (Ok tt, ops_disk o') ∧ ops_state o' = ops_state o) ∨
     (operation_state (stored_operation old) = Built ∧
      ∃ o2 o3, on_disk (install_candidate p a) o1 = (Ok tt, o2) ∧
        set_state root plugin_id id Finalized None now o2 = (Ok op, o3) ∧
        on_disk (remove_mirrors root p) o3 = (Ok tt, o'))).
Proof.
  intros H p. unfold finalize in H. apply act_bind_Ok in H as (op0 & o0 & Hst & H).
  apply status_Ok in Hst as (-> & old & Hold & -> & Hp).
  apply act_bind_Ok in H as (artifact & o0 & Hart & H). apply pure_Ok in Hart as [Hart ->].
  apply ok_or_Ok in Hart. fold p in H.
  apply act_bind_Ok in H as (installed & o1 & Hq & H). apply on_disk_Ok in Hq as (Hq & Hs1 & _).
  assert (sound_disk (ops_disk o) (ops_disk o1)) as Hf1.
  { eapply moves_run in Hq; [exact Hq|]. apply moves_query. intros d. apply path_exists_faults. }
  apply path_exists_query in Hq as [Hd1 _].
  apply act_bind_Ok in H as (a & o2 & Ha & H). apply on_disk_Ok in Ha as (Ha & Hs2 & _).
  assert (sound_disk (ops_disk o1) (ops_disk o2)) as Hf2.
  { eapply moves_run in Ha; [exact Ha|]. apply attestation_faults. }
  apply attestation_from_directory_Ok in Ha as (Hd2 & _ & Hatt).
  exists old, artifact, a, o2. split_and!; [done..|congruence|congruence|by etrans|].
  destruct (operation_state (stored_operation old)) eqn:E; try done; [right|left]; split; try done.
  - apply act_bind_Ok in H as ([] & o3 & Hi & H). apply act_bind_Ok in H as (op1 & o4 & Hset & H).
    apply act_bind_Ok in H as ([] & o5 & Hm & H). injection H as -> ->. eauto.
  - apply act_bind_Ok in H as ([] & o3 & Hv & H). apply act_bind_Ok in H as ([] & o4 & Hm & H).
    injection H as <- ->. apply on_disk_Ok in Hv as (Hv & Hs3 & _). apply on_disk_Ok in Hm as (Hm & Hs4 & _).
    split; [done|]. exists (ops_disk o3). split_and!; [done|done|congruence].
Qed.

(** What [finalize] does last: it removes the mirrors, on a disk that still holds
    the prepared request it started with. *)
Lemma finalize_removes plugin_id id now (o : Ops W) op o' :
  finalize root installation_id plugin_id id now o = (Ok op, o') → ops_wf (ops_state o) →
  ∃ d, remove_mirrors root (paths root plugin_id id) d = (Ok tt, ops_disk o') ∧
    sound_disk (ops_disk o) d ∧
    disk_fs d !! (root ++ ["prepared"; json_file id]) =
      disk_fs (ops_disk o) !! (root ++ ["prepared"; json_file id]).
Proof.
  intros H Hwf. apply finalize_prefix in H
    as (old & artifact & a & o1 & _ & _ & _ & _ & Hs1 & Hd1 & Hf1 & Hcase).
  destruct Hcase as [(_ & _ & d2 & Hv & Hm & _)|(_ & o2 & o3 & Hi & Hset & Hm)].
  - exists d2. pose proof Hv as [Hd2 _]%verify_attestation_Ok.
    eapply moves_run in Hv; [|apply verify_faults].
    split_and!; [done|by etrans|by rewrite Hd2, Hd1].
  - apply on_disk_Ok in Hi as (Hi & Hs2 & _). apply on_disk_Ok in Hm as (Hm & _ & _).
    exists (ops_disk o3). pose proof (install_candidate_keeps _ _ _ _ _ (json_file id) Hi) as Hk.
    eapply moves_run in Hi; [|apply install_candidate_faults].
    pose proof (set_state_faults _ _ _ _ _ _ _ _ Hset) as Hf3. rewrite <- Hs1, <- Hs2 in Hwf.
    apply set_state_Ok in Hset as (? & ? & _ & _ & _ & _ & _ & Hch & _); [|done].
    split_and!; [done|etrans; [done|by etrans]|].
    by rewrite (changes_only_other _ _ "operations" "prepared" _ Hch), Hk, Hd1.
Qed.

(** C13. A successful [finalize] has installed the plugin: the operation is finished
    in memory, the installed directory holds an attestation that names the
    operation and its artifact, and the prepared request and the mirrored grant
    are gone.  So is the grant [grants/<id>.json] that the request names, as long
    as no system call fails: a failed read of the request is ignored and leaves
    that grant behind.  An operation that was built is also recorded as
    finalized on disk; if nothing was installed before, the installed directory
    is the candidate, moved as a whole.  All but the removal of the named grant
    holds with any number of failing system calls along the way. *)
Theorem finalize_installs plugin_id id now (o : Ops W) op o' :
  let p := paths root plugin_id id in
  ops_wf (ops_state o) → tree (disk_fs (ops_disk o)) →
  finalize root installation_id plugin_id id now o = (Ok op, o') →
  ∃ stored artifact a,
    operations (ops_state o') !! id = Some stored ∧ stored_operation stored = op ∧
    operation_plugin_id op = plugin_id ∧ operation_state op = Finalized ∧
    operation_artifact op = Some artifact ∧
    attests installation_id plugin_id id artifact a = true ∧
    attested (installed_dir p) a (disk_fs (ops_disk o')) ∧
    disk_fs (ops_disk o') !! prepared_request p = None ∧
    disk_fs (ops_disk o') !! mirrored_grant p = None ∧
    (∀ content grant_id, disk_fs (ops_disk o) !! prepared_request p = Some (File content) →
       prepared_grant_id content = Some grant_id → true ∉ disk_faults (ops_disk o) →
       disk_fs (ops_disk o') !! (root ++ ["grants"; json_file grant_id]) = None) ∧
    ∀ old, operations (ops_state o) !! id = Some old →
      operation_state (stored_operation old) = Built →
      (∃ content, operation_to_vec_pretty stored = Some content ∧
        disk_fs (ops_disk o') !! operation_record p = Some (File content)) ∧
      (disk_fs (ops_disk o) !! installed_dir p = None →
       ∀ r, disk_fs (ops_disk o') !! (installed_dir p ++ r) =
            disk_fs (ops_disk o) !! (candidate_dir p ++ r) ∧
         disk_fs (ops_disk o') !! (candidate_dir p ++ r) = None).
Proof.
  intros p Hwf Ht H.
  assert (∀ content grant_id, disk_fs (ops_disk o) !! prepared_request p = Some (File content) →
    prepared_grant_id content = Some grant_id → true ∉ disk_faults (ops_disk o) →
    disk_fs (ops_disk o') !! (root ++ ["grants"; json_file grant_id]) = None) as Hgrant.
  { intros content grant_id Hc Hg Hf. apply finalize_removes in H as (d & Hm & Hsound & Hk); [|done].
    eapply remove_mirrors_grant; [by apply Hsound|rewrite Hk; exact Hc|done|exact Hm]. }
  apply finalize_prefix in H
    as (old & artifact & a & o1 & Hold & Hp & Hart & Hatt & Hs1 & Hd1 & _ & Hcase). fold p in Hcase.
  destruct Hcase as [(Hst & -> & d2 & Hv & Hm & Hs)|(Hst & o2 & o3 & Hi & Hset & Hm)].
  - exists old, artifact, a. apply verify_attestation_Ok in Hv as [Hd2 (c & Hc & Hparse)].
    pose proof (remove_mirrors_Ok _ _ _ _ _ Hm) as [Hprep Hmirr]. rewrite Hs.
    split_and!; try done.
    + exists c. split; [|done]. unfold p in *. simpl in *. rewrite <- app_assoc in Hc |- *. simpl in *.
      rewrite (remove_mirrors_keeps _ _ _ _ "installed" _ Hm) by (unfold mirror_names; set_solver).
      by rewrite Hd2.
    + intros old' Hold' Hb. simplify_eq. congruence.
  - apply on_disk_Ok in Hi as (Hi & Hs2 & _). rewrite <- Hd1 in Ht.
    apply install_candidate_Ok in Hi as [(c & Hc & Hparse) Hfresh]; [|done].
    rewrite <- Hs1, <- Hs2 in Hwf.
    apply set_state_Ok in Hset as (old' & new & Hold' & _ & Hnew & Hop & Hop' & Hch & Hrec); [|done].
    rewrite Hs2, Hs1, Hold in Hold'. injection Hold' as <-.
    apply on_disk_Ok in Hm as (Hm & Hs3 & _). pose proof (remove_mirrors_Ok _ _ _ _ _ Hm) as [Hprep Hmirr].
    assert (∀ name r, name ≠ "operations" → name ∉ mirror_names →
      disk_fs (ops_disk o') !! (root ++ name :: r) = disk_fs (ops_disk o2) !! (root ++ name :: r)) as Hkeep.
    { intros name r Hn1 Hn2. rewrite (remove_mirrors_keeps _ _ _ _ _ _ Hm) by done.
      by apply (changes_only_other _ _ "operations"). }
    exists new, artifact, a. rewrite Hs3. subst op. rewrite Hop'. split_and!; try done.
    + exists c. split; [|done]. unfold p in *. simpl in *. rewrite <- app_assoc in Hc |- *. simpl in *.
      rewrite Hkeep; [done..|unfold mirror_names; set_solver].
    + intros old'' Hold'' _. rewrite Hold in Hold''. injection Hold'' as <-. split.
      * destruct Hrec as (content & Hv & Hf). exists content. split; [done|].
        unfold p. simpl. unfold operation_record_path in *.
        rewrite (remove_mirrors_keeps _ _ _ _ "operations" _ Hm); [done|unfold mirror_names; set_solver].
      * rewrite <- Hd1. intros Hn r. specialize (Hfresh Hn r). unfold p in *. simpl in *.
        rewrite <- !app_assoc in *. simpl in *.
        rewrite !Hkeep; [done|..]; try done; unfold mirror_names; set_solver.
Qed.

(** Finalizing an operation that is finalized in memory writes no record: if the
    first [finalize] failed in writing it, a successful retry leaves the record
    on disk as it was. *)
Theorem finalize_retry_unrecorded plugin_id id now (o : Ops W) stored op o' :
  operations (ops_state o) !! id = Some stored →
  operation_state (stored_operation stored) = Finalized →
  finalize root installation_id plugin_id id now o = (Ok op, o') →
  op = stored_operation stored ∧ ops_state o' = ops_state o ∧
  ∀ r, disk_fs (ops_disk o') !! (root ++ "operations" :: r) =
       disk_fs (ops_disk o) !! (root ++ "operations" :: r).
Proof.
  intros Hold Hst H. apply finalize_prefix in H
    as (old & artifact & a & o1 & Hold' & _ & _ & _ & Hs1 & Hd1 & _ & Hcase). simplify_eq.
  destruct Hcase as [(_ & -> & d2 & Hv & Hm & Hs)|(? & _)]; [|congruence].
  split_and!; [done|done|]. intros r. apply verify_attestation_Ok in Hv as [Hd2 _].
  rewrite (remove_mirrors_keeps _ _ _ _ "operations" _ Hm) by (unfold mirror_names; set_solver).
  by rewrite Hd2, Hd1.
Qed.

(** ** Aborting a finished operation *)

Lemma verify_installed_reads plugin_id id artifact :
  moves (changes_only (λ _, False))
    (artifact ← pure (ok_or artifact InvalidTransition);
     expected ← attestation_from_directory installation_id (installed_dir (paths root plugin_id id))
                  plugin_id id artifact;
     verify_attestation (installed_dir (paths root plugin_id id)) expected).
Proof.
  unfold attestation_from_directory, verify_attestation, read_attestation.
  moves; apply fs_read_changes.
Qed.

Lemma set_state_refused plugin_id id state code now (o : Ops W) stored :
  operations (ops_state o) !! id = Some stored →
  is_terminal (operation_state (stored_operation stored)) = true →
  operation_state (stored_operation stored) ≠ state →
  ∃ e, set_state root plugin_id id state code now o = (Err e, o).
Proof.
  intros Hold Ht Hne. unfold set_state, mbind, act_bind, locked_operation, matching_operation.
  rewrite Hold. simpl. destruct (negb (eqb _ _)); [by eexists|].
  rewrite Ht. destruct (eqb _ state) eqn:E; [by bool_prop|]. by eexists.
Qed.

(** The records, the adapter and the files are as before. *)
Definition untouched (o o' : Ops W) : Prop :=
  ops_state o' = ops_state o ∧ ops_adapter o' = ops_adapter o ∧
  ∀ k, disk_fs (ops_disk o') !! k = disk_fs (ops_disk o) !! k.

Lemma bind_fails {B C} (m : act (Ops W) InstallOperationError B)
    (f : B → act (Ops W) InstallOperationError C) o :
  untouched o (m o).2 →
  (∀ b o1, m o = (Ok b, o1) → ∃ e o', f b o1 = (Err e, o') ∧ untouched o1 o') →
  ∃ e o', (m ≫= f) o = (Err e, o') ∧ untouched o o'.
Proof.
  intros Hm Hf. unfold mbind, act_bind. destruct (m o) as [[b|e] o1]; [|by exists e, o1].
  destruct (Hf b o1 eq_refl) as (e & o' & He & Ho). exists e, o'. split; [done|].
  simpl in Hm. destruct Hm as (? & ? & Hk), Ho as (? & ? & Hk'). split_and!; [congruence..|].
  intros k. by rewrite Hk'.
Qed.

Lemma on_disk_untouched {B} (m : act Disk InstallOperationError B) (o : Ops W) :
  moves (changes_only (λ _, False)) m → untouched o (on_disk m o).2.
Proof.
  intros Hm. unfold on_disk, focus. specialize (Hm (ops_disk o)). destruct (m (ops_disk o)) as [r d].
  split_and!; [done..|]. intros k. by destruct (Hm k).
Qed.

(** [abort] refuses an operation that has failed or is finalized, whatever the
    disk says: it returns an error, and neither the records nor the files nor
    the images change. *)
Theorem abort_finished_refused plugin_id id now (o : Ops W) stored :
  operations (ops_state o) !! id = Some stored →
  operation_state (stored_operation stored) = Failed ∨
  operation_state (stored_operation stored) = Finalized →
  ∃ e o', abort root installation_id plugin_id id now o = (Err e, o') ∧ untouched o o'.
Proof.
  intros Hold Hst. unfold abort. apply bind_fails.
  { unfold status, mbind, act_bind, locked_operation. by destruct (matching_operation _ _ _). }
  intros op o1 (-> & stored' & Hold' & -> & Hp)%status_Ok. simplify_eq. cbv zeta.
  apply bind_fails; [destruct (eqb _ Finalized); [apply on_disk_untouched, verify_installed_reads|done]|].
  intros [] o1 H1. assert (ops_state o1 = ops_state o) as Hs.
  { destruct (eqb _ Finalized); [by apply on_disk_Ok in H1 as (_ & ? & _)|by injection H1 as <-]. }
  assert (eqb (operation_state (stored_operation stored)) Aborted = false) as ->
    by (destruct Hst as [-> | ->]; done).
  destruct (set_state_refused (operation_plugin_id (stored_operation stored)) id Aborted
    (operation_error_code (stored_operation stored)) now
    o1 stored) as [e He]; [by rewrite Hs|by destruct Hst as [-> | ->]..|].
  exists e, o1. unfold mbind, act_bind. by rewrite He.
Qed.
End manager.
