(* ===== verification/InstallRecovery.v ===== *)
(** * Restart of the supervisor

    [open] reads the records back from the files that mirror the memory of the
    previous run, fails what was in progress, and forgets what was acknowledged
    long enough ago. *)

From S2P Require Import Prelude Text Domain Stateful Database SupervisorProtocol Fs.
From S2P Require Import InstallOperation InstallOperationProps InstallFiles.

(** A record whose fields fit their types, with a time RFC 3339 can write. *)
Definition stored_ok (stored : StoredOperation) : Prop :=
  uuid_value (operation_id (stored_operation stored)) ∧ rfc3339_time (stored_created_at stored) ∧
  rfc3339_time (stored_updated_at stored) ∧ 0 ≤ stored_sequence stored < 2 ^ 64.

(** serde_json reads back what it has written, and a UUID has a text. *)
Class OperationJsonLaws {K : Codec} (J : OperationJson) : Prop := {
  operation_roundtrip stored content : stored_ok stored →
    operation_to_vec_pretty stored = Some content → operation_from_slice content = Some stored;
  attestation_roundtrip a content :
    attestation_to_vec_pretty a = Some content → attestation_from_slice content = Some a;
  uuid_text u : uuid_to_string u ≠ "";
}.

Section recovery.
Context {K : Codec} `{!CodecLaws K} {J : OperationJson} `{!OperationJsonLaws J}.
Context {W : Type} {A : InstallBuildAdapter W}.
Context (root : path) (installation_id : string).

(** The record files hold exactly the records of [s]; other files in the
    directory do not have the extension [json]. *)
Record mirrors (fs : Fs) (s : OperationState) : Prop := {
  mirror_record id stored : operations s !! id = Some stored →
    operation_id (stored_operation stored) = id ∧
    ∃ content, fs !! operation_record_path root id = Some (File content) ∧
      operation_from_slice content = Some stored;
  mirror_file name v : fs !! (root ++ ["operations"; name]) = Some v →
    has_json_extension name = true →
    ∃ id stored, name = json_file id ∧ operations s !! id = Some stored;
}.

Lemma json_file_extension id : has_json_extension (json_file id) = true.
Proof.
  pose proof (uuid_text id) as Hne. unfold has_json_extension, rsplit_once, json_file. rewrite bytes_app, rev_app_distr.
  set (u := uuid_to_string id) in *.
  assert (split_once_bytes "."%char (rev (bytes ".json") ++ rev (bytes u)) =
    Some (rev (bytes "json"), rev (bytes u))) as ->.
  { apply split_once_bytes_Some. split; [done|]. simpl. set_solver. }
  unfold mbind, option_bind, is_some_and. rewrite !rev_involutive, !str_bytes.
  destruct (str_is_empty u) eqn:E; [|done]. by apply str_is_empty_true in E.
Qed.

(** ** Loading *)

Lemma load_fold_lookup l (s : OperationState) id stored :
  (∀ r1 r2, r1 ∈ l → r2 ∈ l → operation_id (stored_operation r1) = operation_id (stored_operation r2) →
     r1 = r2) →
  operations (foldl load_one s l) !! id = Some stored ↔
  (stored ∈ l ∧ operation_id (stored_operation stored) = id) ∨
  (operations s !! id = Some stored ∧ ∀ r, r ∈ l → operation_id (stored_operation r) ≠ id).
Proof.
  revert s. induction l as [|r l IH]; intros s Huniq; simpl; [set_solver|].
  rewrite IH by (intros; apply Huniq; set_solver). simpl. split.
  - intros [[Hin Hid]|[Hs Hno]]; [left; set_solver|].
    destruct (decide (operation_id (stored_operation r) = id)) as [<-|Hne].
    + rewrite lookup_insert_eq in Hs. injection Hs as <-. left. set_solver.
    + rewrite lookup_insert_ne in Hs by done. right. set_solver.
  - intros [[[->|Hin]%elem_of_cons Hid]|[Hs Hno]].
    + destruct (decide (r ∈ l)) as [Hr|Hr]; [by left|right]. subst id.
      rewrite lookup_insert_eq. split; [done|]. intros r' Hr' Heq.
      assert (r' = r) as -> by (apply Huniq; set_solver). done.
    + by left.
    + right. rewrite lookup_insert_ne by (apply Hno; set_solver). set_solver.
Qed.

Lemma load_record_Ok name d record d' :
  load_record (root ++ ["operations"]) name d = (Ok record, d') →
  disk_fs d' = disk_fs d ∧
  match record with
  | None => has_json_extension name = false
  | Some stored => has_json_extension name = true ∧
      ∃ content, disk_fs d !! (root ++ ["operations"; name]) = Some (File content) ∧
        operation_from_slice content = Some stored
  end.
Proof.
  unfold load_record. destruct (has_json_extension name) eqn:En; simpl; [|by intros [= <- <-]].
  intros H. apply act_bind_Ok in H as (content & d1 & Hr%io_Ok & H). apply syscall_Ok in Hr.
  apply act_bind_Ok in H as (stored & d2 & [Hp ->]%pure_Ok & H). apply ok_or_Ok in Hp.
  injection H as <- <-. rewrite <- app_assoc in Hr. simpl in Hr.
  destruct (disk_fs d !! _) as [[]|] eqn:E; try discriminate. injection Hr as -> <-.
  split; [done|]. split; [done|]. by exists content.
Qed.

Lemma load_records_Ok names d records d' :
  act_map (load_record (root ++ ["operations"])) names d = (Ok records, d') →
  disk_fs d' = disk_fs d ∧
  ∀ stored, Some stored ∈ records ↔
    ∃ name content, name ∈ names ∧ has_json_extension name = true ∧
      disk_fs d !! (root ++ ["operations"; name]) = Some (File content) ∧
      operation_from_slice content = Some stored.
Proof.
  revert d records. induction names as [|name names IH]; intros d records H.
  { injection H as <- <-. split; [done|]. intros stored. split; [set_solver|].
    by intros (? & ? & ?%elem_of_nil & _). }
  apply act_map_Ok in H as (record & d1 & records' & Hr & Hl & ->).
  apply load_record_Ok in Hr as [Hd1 Hr]. apply IH in Hl as [Hd Hl]. rewrite Hd1 in Hd, Hl.
  split; [done|]. intros stored. rewrite elem_of_cons, Hl. split.
  - intros [<-|(n & c & ? & ?)]; [|exists n, c; set_solver].
    destruct Hr as (Hext & c & Hc & Hs). exists name, c. set_solver.
  - intros (n & c & [->|Hn]%elem_of_cons & Hext & Hc & Hs); [left|right; eauto 10].
    destruct record as [stored'|]; [|congruence]. destruct Hr as (_ & c' & Hc' & Hs'). congruence.
Qed.

Lemma load_state_Ok d s0 s d' :
  mirrors (disk_fs d) s0 → load_state root d = (Ok s, d') →
  disk_fs d' = disk_fs d ∧ operations s = operations s0.
Proof.
  intros Hm H. unfold load_state in H. apply act_bind_Ok in H as (names & d1 & Hn%io_Ok & H).
  apply syscall_Ok in Hn. apply act_bind_Ok in H as (records & d2 & Hl & H).
  injection H as <- <-. apply load_records_Ok in Hl as [Hd2 Hl].
  assert (names = (children (root ++ ["operations"]) (disk_fs d)).*1 ∧ disk_fs d1 = disk_fs d) as [-> Hd1].
  { repeat case_match; simplify_eq. done. }
  rewrite Hd1 in Hd2, Hl. split; [done|]. clear Hn d1 Hd1 d2 Hd2.
  assert (∀ stored, stored ∈ omap id records ↔
    operations s0 !! operation_id (stored_operation stored) = Some stored) as Hin.
  { intros stored. rewrite list_elem_of_omap. split.
    - intros (r & Hr & [= ->]). apply Hl in Hr as (name & content & _ & Hext & Hc & Hs).
      destruct (mirror_file _ _ Hm _ _ Hc Hext) as (i & st & -> & Hi).
      destruct (mirror_record _ _ Hm _ _ Hi) as (Hid & c & Hc' & Hs').
      unfold operation_record_path in Hc'. rewrite Hc in Hc'. by simplify_eq.
    - intros Hi. exists (Some stored). split; [|done]. apply Hl.
      destruct (mirror_record _ _ Hm _ _ Hi) as (_ & c & Hc & Hs).
      exists (json_file (operation_id (stored_operation stored))), c. 
      split_and!; [|apply json_file_extension|done|done].
      apply list_elem_of_fmap. exists (json_file (operation_id (stored_operation stored)), File c).
      split; [done|]. apply elem_of_children. by rewrite <- app_assoc. }
  apply map_eq. intros i. apply option_eq. intros stored. rewrite load_fold_lookup.
  - setoid_rewrite elem_of_sort_by. simpl. rewrite lookup_empty. rewrite Hin.
    split; [intros [[? <-]|[? _]]; done|]. intros Hi. left.
    destruct (mirror_record _ _ Hm _ _ Hi) as [<- _]. done.
  - intros r1 r2 H1%elem_of_sort_by%Hin H2%elem_of_sort_by%Hin Heq. rewrite Heq in H1. congruence.
Qed.

(** ** Reconciling *)

(** What a restart makes of a record. *)
Definition restarted (now : time) (stored : StoredOperation) : StoredOperation :=
  let operation := stored_operation stored in
  match operation_state operation with
  | Accepted | Building =>
      with_operation stored
        (mkPluginInstallOperation (operation_id operation) (operation_plugin_id operation) Failed
           (operation_artifact operation) [] (Some RESTART_ERROR_CODE)
           (operation_acknowledged operation)) now
  | _ => stored
  end.

Lemma restarted_id now stored :
  operation_id (stored_operation (restarted now stored)) = operation_id (stored_operation stored).
Proof. unfold restarted. by destruct (operation_state _). Qed.

Lemma on_adapter_Ok_state {B} (m : act W BuildAdapterError B) (o : Ops W) b o' :
  on_adapter m o = (Ok b, o') → ops_state o' = ops_state o.
Proof. intros H. pose proof (on_adapter_state m o) as Hs. by rewrite H in Hs. Qed.

Lemma on_disk_Ok_state {B} (m : act Disk InstallOperationError B) (o : Ops W) b o' :
  on_disk m o = (Ok b, o') → ops_state o' = ops_state o.
Proof. by intros (_ & ? & _)%on_disk_Ok. Qed.

Lemma reconcile_one_Ok now stored (o o' : Ops W) :
  let id := operation_id (stored_operation stored) in
  operations (ops_state o) !! id = Some stored →
  reconcile_one root installation_id now (stored_operation stored) o = (Ok tt, o') →
  operations (ops_state o') = <[id := restarted now stored]> (operations (ops_state o)).
Proof.
  intros id Hid H. unfold reconcile_one in H.
  assert (∀ m, m !! id = Some stored → m = <[id := stored]> m) as Hsame
    by (intros m Hm; by rewrite insert_id).
  unfold restarted. destruct (operation_state (stored_operation stored)) eqn:Est.
  1, 2: apply act_bind_Ok in H as (op & o1 & Hf & H);
    apply act_bind_Ok in H as ([] & o2 & H2%on_disk_Ok_state & H);
    apply act_bind_Ok in H as ([] & o3 & H3 & H4%on_adapter_Ok_state);
    assert (ops_state o' = ops_state o1) as -> by
      (destruct (operation_artifact _); [apply on_adapter_Ok_state in H3|injection H3 as <-]; congruence);
    unfold set_failed in Hf; apply act_bind_Ok in Hf as (stored' & o4 & Hl & Hf);
    apply locked_operation_Ok in Hl as (-> & Hl & _); fold id in Hl; simplify_eq;
    apply store_operation_Ok in Hf as (_ & -> & _); done.
  1, 3, 4: injection H as <-; by apply Hsame.
  apply act_bind_Ok in H as (op & o1 & Hf & H). injection H as <-.
  apply finalize_prefix in Hf as (old & artifact & a & o2 & Hold & _ & _ & _ & _ & _ & _ & Hcase).
  fold id in Hold. simplify_eq.
  destruct Hcase as [(_ & _ & d2 & _ & _ & ->)|(? & _)]; [by apply Hsame|congruence].
Qed.

Definition op_key (stored : StoredOperation) : Uuid := operation_id (stored_operation stored).

Lemma reconcile_each_Ok now l (o o' : Ops W) :
  NoDup (op_key <$> l) →
  (∀ stored, stored ∈ l → operations (ops_state o) !! op_key stored = Some stored) →
  act_each (reconcile_one root installation_id now) (stored_operation <$> l) o = (Ok tt, o') →
  ∀ id, operations (ops_state o') !! id =
    if decide (id ∈ op_key <$> l) then restarted now <$> operations (ops_state o) !! id
    else operations (ops_state o) !! id.
Proof.
  revert o. induction l as [|stored l IH]; intros o Hnd Hin H id.
  { by injection H as <-. }
  rewrite fmap_cons in Hnd |- *. apply NoDup_cons in Hnd as [Hnotin Hnd].
  apply act_bind_Ok in H as ([] & o1 & H1 & H).
  apply reconcile_one_Ok in H1; [|apply Hin, elem_of_cons; by left]. fold (op_key stored) in H1.
  assert (∀ r, r ∈ l → operations (ops_state o1) !! op_key r = Some r) as Hin1.
  { intros r Hr. rewrite H1, lookup_insert_ne; [apply Hin, elem_of_cons; by right|].
    intros Heq. apply Hnotin. rewrite Heq. by apply list_elem_of_fmap_2. }
  rewrite (IH o1 Hnd Hin1 H), H1.
  destruct (decide (id = op_key stored)) as [->|Hne].
  - rewrite decide_False by done. rewrite decide_True by (apply elem_of_cons; by left).
    by rewrite lookup_insert_eq, Hin by (apply elem_of_cons; by left).
  - rewrite lookup_insert_ne by done.
    destruct (decide (id ∈ op_key <$> l)) as [Hl|Hl].
    + by rewrite decide_True by (apply elem_of_cons; by right).
    + by rewrite decide_False by (by intros [|]%elem_of_cons).
Qed.

Lemma values_keys s :
  (∀ id stored, operations s !! id = Some stored → op_key stored = id) →
  NoDup (op_key <$> values s) ∧ ∀ id, id ∈ op_key <$> values s ↔ is_Some (operations s !! id).
Proof.
  intros Hkeys.
  assert (op_key <$> values s = (sort_by (cmp_on fst Z.compare) (map_to_list (operations s))).*1) as ->.
  { unfold values. rewrite <- list_fmap_compose. apply list_fmap_ext. intros i [id stored] Hi.
    apply list_elem_of_lookup_2, elem_of_sort_by, elem_of_map_to_list in Hi. by apply Hkeys. }
  split.
  - rewrite sort_by_perm. apply NoDup_fst_map_to_list.
  - intros id. rewrite list_elem_of_fmap. split.
    + intros ([i stored] & -> & Hi%elem_of_sort_by%elem_of_map_to_list). by exists stored.
    + intros [stored Hi]. exists (id, stored). split; [done|]. by apply elem_of_sort_by, elem_of_map_to_list.
Qed.

Lemma reconcile_restart_Ok now (o o' : Ops W) :
  (∀ id stored, operations (ops_state o) !! id = Some stored → op_key stored = id) →
  reconcile_restart root installation_id now o = (Ok tt, o') →
  ∀ id, operations (ops_state o') !! id = restarted now <$> operations (ops_state o) !! id.
Proof.
  intros Hkeys H id. unfold reconcile_restart in H. apply act_bind_Ok in H as (ops & o1 & Hq & H).
  apply query_inv in Hq. injection Hq as <- <-. destruct (values_keys _ Hkeys) as [Hnd Hdom].
  rewrite (reconcile_each_Ok now (values (ops_state o)) o o' Hnd); [|..|done].
  - destruct (decide _) as [|Hn]; [done|]. rewrite Hdom in Hn. by apply eq_None_not_Some in Hn as ->.
  - intros stored [i Hi]%elem_of_values. by rewrite (Hkeys _ _ Hi).
Qed.

(** ** Forgetting *)

Definition expired (now : time) (stored : StoredOperation) : bool :=
  operation_acknowledged (stored_operation stored)
  && is_terminal (operation_state (stored_operation stored))
  && (now - stored_updated_at stored >=? ACKNOWLEDGED_RETENTION).

Lemma forget_each_Ok ids (o o' : Ops W) :
  act_each (forget root) ids o = (Ok tt, o') →
  ∀ id, operations (ops_state o') !! id =
    if decide (id ∈ ids) then None else operations (ops_state o) !! id.
Proof.
  revert o. induction ids as [|i ids IH]; intros o H id; [by injection H as <-|].
  cbn [act_each] in H. apply act_bind_Ok in H as ([] & o1 & H1 & H). rewrite (IH o1 H).
  unfold forget in H1. apply act_bind_Ok in H1 as ([] & o2 & Hs%on_disk_Ok_state & H1).
  apply query_inv in H1. injection H1 as <-. simpl. rewrite Hs.
  destruct (decide (id ∈ ids)) as [Hin|Hin].
  - by rewrite decide_True by (apply elem_of_cons; by right).
  - destruct (decide (id = i)) as [->|Hne].
    + by rewrite lookup_delete_eq, decide_True by (apply elem_of_cons; by left).
    + by rewrite lookup_delete_ne, decide_False by (done || by intros [|]%elem_of_cons).
Qed.

Lemma cleanup_acknowledged_Ok now (o o' : Ops W) :
  cleanup_acknowledged root now o = (Ok tt, o') →
  ∀ id, operations (ops_state o') !! id =
    stored ← operations (ops_state o) !! id; if expired now stored then None else Some stored.
Proof.
  intros H id. unfold cleanup_acknowledged in H. apply act_bind_Ok in H as (ids & o1 & Hq & H).
  apply query_inv in Hq. injection Hq as <- <-. rewrite (forget_each_Ok _ _ _ H).
  assert (id ∈ expired_operations now (ops_state o) ↔
    ∃ stored, operations (ops_state o) !! id = Some stored ∧ expired now stored = true) as Hin.
  { unfold expired_operations. rewrite list_elem_of_fmap. split.
    - intros ([i stored] & -> & [Hi%list_elem_of_In%elem_of_sort_by%elem_of_map_to_list He]%list_elem_of_In%List.filter_In).
      by exists stored.
    - intros (stored & Hi & He). exists (id, stored). split; [done|].
      apply list_elem_of_In, List.filter_In. split; [|done].
      by apply list_elem_of_In, elem_of_sort_by, elem_of_map_to_list. }
  destruct (decide _) as [Hd|Hd]; rewrite Hin in Hd.
  - destruct Hd as (stored & -> & He). simpl. by rewrite He.
  - destruct (operations (ops_state o) !! id) as [stored|] eqn:E; [|done]. simpl.
    destruct (expired now stored) eqn:Ee; [|done]. exfalso. eauto.
Qed.

(** ** Recording

    The steps of a run whose writes to the record files all succeed; other files
    and the adapter may change in any way. *)

Inductive recorded_step : relation (Ops W) :=
  | recorded_begin plugin_id id now o op o' : uuid_value id → rfc3339_time now →
      begin_locked root installation_id plugin_id id now o = (Ok op, o') → recorded_step o o'
  | recorded_state plugin_id id state code now o op o' : rfc3339_time now →
      set_state root plugin_id id state code now o = (Ok op, o') → recorded_step o o'
  | recorded_built plugin_id id artifact logs now o op o' : rfc3339_time now →
      set_built root plugin_id id artifact logs now o = (Ok op, o') → recorded_step o o'
  | recorded_failed plugin_id id code logs now o op o' : rfc3339_time now →
      set_failed root plugin_id id code logs now o = (Ok op, o') → recorded_step o o'
  | recorded_acknowledge plugin_id id now o op o' : rfc3339_time now →
      acknowledge root plugin_id id now o = (Ok op, o') → recorded_step o o'
  | recorded_forget id o o' : uuid_value id → forget root id o = (Ok tt, o') → recorded_step o o'
  | recorded_other o o' : ops_state o' = ops_state o →
      (∀ name, disk_fs (ops_disk o') !! (root ++ ["operations"; name]) =
               disk_fs (ops_disk o) !! (root ++ ["operations"; name])) → recorded_step o o'.

Definition state_ok (s : OperationState) : Prop :=
  (∀ id stored, operations s !! id = Some stored → stored_ok stored ∧ op_key stored = id) ∧
  0 ≤ next_sequence s < 2 ^ 64.

Definition recorded (o : Ops W) : Prop :=
  mirrors (disk_fs (ops_disk o)) (ops_state o) ∧ state_ok (ops_state o).

Lemma json_file_inj u v : uuid_value u → uuid_value v → json_file u = json_file v → u = v.
Proof.
  intros Hu Hv H. unfold json_file in H. apply (f_equal bytes) in H. rewrite !bytes_app in H.
  apply app_inv_tail, (inj bytes) in H. pose proof (uuid_roundtrip u Hu) as Hr.
  rewrite H, uuid_roundtrip in Hr by done. congruence.
Qed.

Lemma mirrors_insert fs fs' s stored content :
  mirrors fs s → state_ok s → stored_ok stored →
  operation_from_slice content = Some stored →
  fs' !! operation_record_path root (op_key stored) = Some (File content) →
  (∀ name, name ≠ json_file (op_key stored) →
     fs' !! (root ++ ["operations"; name]) = fs !! (root ++ ["operations"; name])) →
  mirrors fs' (put_record stored s).
Proof.
  intros Hm [Hok _] Hst Hparse Hfile Hothers. unfold put_record. fold (op_key stored).
  split; simpl.
  - intros id stored' [[<- <-]|[Hne Hid]]%lookup_insert_Some; [eauto|].
    destruct (mirror_record _ _ Hm _ _ Hid) as (Hkey & c & Hc & Hp). split; [done|]. exists c.
    split; [|done]. unfold operation_record_path. rewrite Hothers; [done|].
    intros Heq. apply Hne. symmetry. apply json_file_inj; [|apply Hst|done].
    destruct (Hok _ _ Hid) as [[? _] <-]. done.
  - intros name v Hv Hext. destruct (decide (name = json_file (op_key stored))) as [->|Hne].
    + do 2 eexists. split; [done|]. by rewrite lookup_insert_eq.
    + rewrite Hothers in Hv by done. destruct (mirror_file _ _ Hm _ _ Hv Hext) as (id & st & -> & Hid).
      exists id, st. split; [done|]. rewrite lookup_insert_ne; [done|]. by intros <-.
Qed.

Lemma persist_mirrors s stored d d' :
  mirrors (disk_fs d) s → state_ok s → stored_ok stored →
  persist_record root stored d = (Ok tt, d') → mirrors (disk_fs d') (put_record stored s).
Proof.
  intros Hm Hok Hst H. pose proof (persist_record_Ok _ _ _ _ H) as (content & Hv & Hf).
  eapply mirrors_insert; [done..|by apply operation_roundtrip|done|].
  intros name Hne. unfold persist_record in H. apply act_bind_Ok in H as (c & d1 & [_ ->]%pure_Ok & H).
  by eapply atomic_write_others.
Qed.

Lemma state_ok_put s stored : state_ok s → stored_ok stored → state_ok (put_record stored s).
Proof.
  intros [Hok Hseq] Hst. split; [|done]. intros id stored'. unfold put_record. simpl.
  intros [[<- <-]|[_ Hid]]%lookup_insert_Some; [done|by apply Hok].
Qed.

Lemma store_recorded stored (o : Ops W) op o' :
  recorded o → stored_ok stored → store_operation root stored o = (Ok op, o') → recorded o'.
Proof.
  intros [Hm Hok] Hst H. pose proof (store_operation_Ok _ _ _ _ _ H) as (_ & Hs & _).
  unfold store_operation in H. apply act_bind_Ok in H as ([] & o1 & Hq & H). apply query_inv in Hq.
  injection Hq as <-. apply act_bind_Ok in H as ([] & o2 & Hd & H). injection H as _ <-.
  apply on_disk_Ok in Hd as (Hd & _ & _). unfold recorded. rewrite Hs.
  split; [by eapply persist_mirrors|by apply state_ok_put].
Qed.

(** A section that rewrites a record keeps its key, creation time and sequence. *)
Lemma locked_recorded {B} plugin_id id (k : StoredOperation → act (Ops W) InstallOperationError B)
    (o : Ops W) b o' :
  recorded o →
  (∀ old o1, k old o = (Ok b, o1) → stored_ok old → recorded o1) →
  (locked_operation plugin_id id ≫= k) o = (Ok b, o') → recorded o'.
Proof.
  intros Ho Hk H. apply act_bind_Ok in H as (old & o1 & Hl & H).
  apply locked_operation_Ok in Hl as (-> & Hold & _). eapply Hk; [done|]. by apply Ho in Hold as [? _].
Qed.
Lemma rewrite_recorded old operation now (o : Ops W) op o' :
  recorded o → rfc3339_time now → stored_ok old →
  operation_id operation = operation_id (stored_operation old) →
  store_operation root (with_operation old operation now) o = (Ok op, o') → recorded o'.
Proof.
  intros Ho Hnow (Hu & Hc & _ & Hseq) Hid. apply store_recorded; [done|].
  unfold stored_ok. simpl. by rewrite Hid.
Qed.

Lemma begin_recorded plugin_id id now (o : Ops W) op o' :
  uuid_value id → rfc3339_time now → recorded o →
  begin_locked root installation_id plugin_id id now o = (Ok op, o') → recorded o'.
Proof.
  intros Hu Hnow [Hm Hok] H. unfold begin_locked in H.
  destruct (operations (ops_state o) !! id) as [existing|] eqn:E.
  { destruct (negb _); [done|]. by injection H as _ <-. }
  destruct (existsb _ _); [done|]. destruct (_ >=? _); [done|].
  apply act_bind_Ok in H as ([] & o1 & Hq & H). apply query_inv in Hq. injection Hq as <-.
  apply act_bind_Ok in H as ([] & o2 & Hd & H). apply on_disk_Ok in Hd as (Hd & Hs & _). simpl in *.
  apply act_bind_Ok in H as ([] & o3 & Hq & H). apply query_inv in Hq. injection Hq as <-.
  injection H as _ <-. unfold recorded. simpl. rewrite Hs. simpl.
  pose proof (proj2 Hok) as Hseq. set (stored := mkStoredOperation _ _ _ _ _) in *.
  assert (stored_ok stored) as Hst by done. split.
  - pose proof (persist_mirrors _ _ _ _ Hm Hok Hst Hd) as [Hrec Hfile]. by split.
  - pose proof (state_ok_put _ _ Hok Hst) as [Hput _]. split; [done|]. simpl. unfold next_after. lia.
Qed.

Lemma forget_recorded id (o o' : Ops W) :
  uuid_value id → recorded o → forget root id o = (Ok tt, o') → recorded o'.
Proof.
  intros Hu [Hm [Hok Hseq]] H. unfold forget in H. apply act_bind_Ok in H as ([] & o1 & Hd & H).
  apply on_disk_Ok in Hd as (Hd & Hs & _). apply query_inv in H. injection H as <-.
  apply remove_file_if_exists_Ok in Hd as [Hgone Hothers].
  assert (∀ name, name ≠ json_file id → disk_fs (ops_disk o1) !! (root ++ ["operations"; name]) =
    disk_fs (ops_disk o) !! (root ++ ["operations"; name])) as Hkeep.
  { intros name Hne. apply Hothers. unfold operation_record_path.
    intros Heq%app_inv_head. by injection Heq. }
  unfold recorded. simpl. rewrite Hs. split; [|split; [|done]]; simpl.
  - split; simpl.
    + intros i stored [Hne Hi]%lookup_delete_Some.
      destruct (mirror_record _ _ Hm _ _ Hi) as (Hkey & c & Hc & Hp). split; [done|]. exists c.
      split; [|done]. unfold operation_record_path. rewrite Hkeep; [done|]. intros Heq. apply Hne.
      symmetry. apply json_file_inj; [|done|done]. destruct (Hok _ _ Hi) as [[? _] <-]. done.
    + intros name v Hv Hext. destruct (decide (name = json_file id)) as [->|Hne].
      { unfold operation_record_path in Hgone. congruence. }
      rewrite Hkeep in Hv by done. destruct (mirror_file _ _ Hm _ _ Hv Hext) as (i & st & -> & Hi).
      exists i, st. split; [done|]. rewrite lookup_delete_ne; [done|]. by intros <-.
  - intros i stored [_ Hi]%lookup_delete_Some. by apply Hok.
Qed.

Lemma mirrors_same (fs fs' : Fs) s :
  (∀ name, fs' !! (root ++ ["operations"; name]) = fs !! (root ++ ["operations"; name])) →
  mirrors fs s → mirrors fs' s.
Proof.
  intros Hsame [Hrec Hfile]. split.
  - intros id stored Hid. unfold operation_record_path. rewrite Hsame. by apply Hrec.
  - intros name v. rewrite Hsame. apply Hfile.
Qed.

Lemma step_recorded (o o' : Ops W) : recorded_step o o' → recorded o → recorded o'.
Proof.
  destruct 1 as [plugin_id id now o op o' Hu Hn H|plugin_id id state code now o op o' Hn H
    |plugin_id id artifact logs now o op o' Hn H|plugin_id id code logs now o op o' Hn H
    |plugin_id id now o op o' Hn H|id o o' Hu H|o o' Hs Hf]; intros Ho.
  - by eapply begin_recorded.
  - eapply locked_recorded; [done| |exact H]. intros old o1 H1 Hst. simpl in H1.
    destruct (is_terminal _ && _); [done|]. by refine (rewrite_recorded _ _ _ _ _ _ Ho Hn Hst _ H1).
  - eapply locked_recorded; [done| |exact H]. intros old o1 H1 Hst. simpl in H1.
    destruct (negb _); [done|]. by refine (rewrite_recorded _ _ _ _ _ _ Ho Hn Hst _ H1).
  - eapply locked_recorded; [done| |exact H]. intros old o1 H1 Hst. by refine (rewrite_recorded _ _ _ _ _ _ Ho Hn Hst _ H1).
  - eapply locked_recorded; [done| |exact H]. intros old o1 H1 Hst. simpl in H1.
    destruct (negb _); [done|]. by refine (rewrite_recorded _ _ _ _ _ _ Ho Hn Hst _ H1).
  - by eapply forget_recorded.
  - destruct Ho as [Hm Hok]. unfold recorded. rewrite Hs. split; [|done]. by eapply mirrors_same.
Qed.

(** A root directory with no record in it, and a manager that has just opened it. *)
Definition fresh_root (o : Ops W) : Prop :=
  ops_state o = OperationState_default ∧
  ∀ name, has_json_extension name = true →
    disk_fs (ops_disk o) !! (root ++ ["operations"; name]) = None.

Lemma run_recorded (o o' : Ops W) : fresh_root o → rtc recorded_step o o' → recorded o'.
Proof.
  intros [Hs Hf] Hrun. assert (recorded o) as Ho.
  { unfold recorded. rewrite Hs. split; split; simpl; [done| |done|lia].
    intros name v Hv Hext. by rewrite Hf in Hv. }
  clear Hs Hf. induction Hrun as [|o1 o2 o3 Hstep _ IH]; [done|]. by apply IH, (step_recorded o1).
Qed.

Lemma ensure_layout_keeps d r d' name file :
  ensure_layout root d = (r, d') →
  disk_fs d' !! (root ++ [name; file]) = disk_fs d !! (root ++ [name; file]).
Proof.
  intros H. eapply (moves_run (changes_only (λ k, ∃ dir s, root ++ [dir] = k ++ s))) in H.
  - destruct (H (root ++ [name; file])) as [?|(dir & s & Hs)]; [done|].
    apply (f_equal length) in Hs. rewrite !length_app in Hs. simpl in Hs. lia.
  - unfold ensure_layout, io. moves. apply fs_create_dir_all_changes. eauto.
Qed.

Lemma expired_restarted now stored : expired now (restarted now stored) = expired now stored.
Proof.
  unfold expired, restarted. destruct (operation_state (stored_operation stored)) eqn:E;
    rewrite ?E; try done; simpl; rewrite ?andb_true_r, ?andb_false_r, Z.sub_diag;
    unfold ACKNOWLEDGED_RETENTION; simpl; apply andb_false_r.
Qed.

Lemma open_recovers now d w s (o : Ops W) :
  mirrors (disk_fs d) s → open root installation_id now d w = (Ok tt, o) →
  ∀ id, operations (ops_state o) !! id =
    stored ← operations s !! id;
    if expired now stored then None else Some (restarted now stored).
Proof.
  intros Hm H id. unfold open in H.
  destruct ((ensure_layout root;; load_state root) d) as [[loaded|e] d2] eqn:El; [|done].
  apply act_bind_Ok in El as ([] & d1 & Hlay & Hl).
  assert (mirrors (disk_fs d1) s) as Hm1.
  { eapply mirrors_same, Hm. intros name. by apply (ensure_layout_keeps _ _ _ _ _ Hlay). }
  apply (load_state_Ok _ s) in Hl as [_ Hops]; [|done].
  apply act_bind_Ok in H as ([] & o1 & Hr & Hc). rewrite (cleanup_acknowledged_Ok _ _ _ Hc).
  rewrite (reconcile_restart_Ok _ _ _) with (2 := Hr).
  - simpl. rewrite Hops. destruct (operations s !! id) as [stored|]; [|done]. simpl.
    by rewrite expired_restarted.
  - simpl. rewrite Hops. intros i st Hi. by apply (mirror_record _ _ Hm) in Hi as [? _].
Qed.

(** C12. A crash and a restart lose nothing: after any run from an empty root whose
    record writes succeeded, stopped at any point between two critical sections,
    a manager that opens the files has the records of the previous one. What was
    finished or built is as before, what was in progress has failed with the
    restart code, nothing else appears, and only operations acknowledged at
    least half an hour ago are forgotten. *)
Theorem restart_recovers now d w (o0 o1 o2 : Ops W) :
  fresh_root o0 → rtc recorded_step o0 o1 →
  (∀ name, disk_fs d !! (root ++ ["operations"; name]) =
           disk_fs (ops_disk o1) !! (root ++ ["operations"; name])) →
  open root installation_id now d w = (Ok tt, o2) →
  ∀ id, operations (ops_state o2) !! id =
    stored ← operations (ops_state o1) !! id;
    if expired now stored then None else Some (restarted now stored).
Proof.
  intros Hfresh Hrun Hdisk H. destruct (run_recorded _ _ Hfresh Hrun) as [Hm _].
  eapply open_recovers, H. by eapply mirrors_same.
Qed.
End recovery.
