(* ===== verification/Program.v ===== *)
(** * Programs that call their environment

    Code that runs as one of several asynchronous tasks: a tree of calls, to
    ports, clocks and shared memory, with what the code does for each answer.
    The same tree runs alone against a handler of its calls, or in a pool of
    tasks of which one at a time makes its next call.  [wp] is the proof rule:
    a protocol says, along a ghost state, which calls are allowed and which
    answers can come back, and a program has to keep to it whatever the
    answers. *)

From S2P Require Import Prelude.

Inductive prog {C : Type} (answer : C → Type) (A : Type) : Type :=
| Ret (a : A)
| Vis (c : C) (k : answer c → prog answer A).
Global Arguments Ret {_ _ _} _.
Global Arguments Vis {_ _ _} _ _.

Section prog.
Context {C : Type} {answer : C → Type}.

Fixpoint prog_bind {A B} (f : A → prog answer B) (p : prog answer A) : prog answer B :=
  match p with
  | Ret a => f a
  | Vis c k => Vis c (λ r, prog_bind f (k r))
  end.
Global Instance prog_mret : MRet (prog answer) := λ A, Ret.
Global Instance prog_mbind : MBind (prog answer) := λ A B, prog_bind.

Definition call (c : C) : prog answer (answer c) := Vis c Ret.

(** The [?] operator: [x ←? p; k] continues with a success and returns an
    error; [p ?? f] is [p.map_err(f)?]. *)
Definition prog_try {E A B} (p : prog answer (result E A)) (f : A → prog answer (result E B)) :
    prog answer (result E B) :=
  r ← p; match r with Ok a => f a | Err e => Ret (Err e) end.
Definition prog_map_err {E F A} (f : E → F) (p : prog answer (result E A)) :
    prog answer (result F A) :=
  r ← p; Ret (map_err f r).

(** [for x in l { f(x).await?; }] *)
Fixpoint prog_each {E A} (f : A → prog answer (result E unit)) (l : list A) :
    prog answer (result E unit) :=
  match l with
  | [] => Ret (Ok tt)
  | x :: l => prog_try (f x) (λ _, prog_each f l)
  end.

(** A loop without early exit that threads a value. *)
Fixpoint prog_fold {A B} (f : B → A → prog answer B) (b : B) (l : list A) : prog answer B :=
  match l with
  | [] => Ret b
  | x :: l => b ← f b x; prog_fold f b l
  end.

(** [tokio::time::timeout]: the future is dropped at one of its calls, which
    may have taken effect; [expired] is the question to the timer. *)
Fixpoint prog_timeout {A} (expired : C) (is_expired : answer expired → bool)
    (p : prog answer A) : prog answer (option A) :=
  match p with
  | Ret a => Ret (Some a)
  | Vis c k =>
      Vis expired (λ r,
        if is_expired r then Ret None
        else Vis c (λ x, Vis expired (λ r,
          if is_expired r then Ret None else prog_timeout expired is_expired (k x))))
  end.

(** A program alone with a handler of its calls. *)
Fixpoint run {S A} (h : ∀ c, S → answer c * S) (p : prog answer A) (s : S) : A * S :=
  match p with
  | Ret a => (a, s)
  | Vis c k => let '(r, s) := h c s in run h (k r) s
  end.

Lemma run_bind {S A B} (h : ∀ c, S → answer c * S) (p : prog answer A) (f : A → prog answer B) s :
  run h (p ≫= f) s = let '(a, s) := run h p s in run h (f a) s.
Proof.
  revert s. induction p as [a|c k IH]; intros s; [done|]. simpl. destruct (h c s) as [r s1].
  apply IH.
Qed.

(** ** Protocols *)

Record protocol (G : Type) := mkProtocol {
  allowed : G → C → Prop;
  possible : G → ∀ c, answer c → Prop;
  next : G → ∀ c, answer c → G;
}.
Global Arguments mkProtocol {_}.
Global Arguments allowed {_}.
Global Arguments possible {_}.
Global Arguments next {_}.

Fixpoint wp {G A} (P : protocol G) (p : prog answer A) (Q : A → G → Prop) (g : G) : Prop :=
  match p with
  | Ret a => Q a g
  | Vis c k => allowed P g c ∧ ∀ r, possible P g c r → wp P (k r) Q (next P g c r)
  end.

(** All calls of a program are of some kind. *)
Definition only (N : C → bool) : protocol unit :=
  mkProtocol (λ _ c, N c = true) (λ _ _ _, True) (λ g _ _, g).
Definition all_calls {A} (N : C → bool) (p : prog answer A) : Prop :=
  wp (only N) p (λ _ _, True) tt.

Section rules.
Context {G : Type} (P : protocol G).

Lemma wp_bind {A B} (p : prog answer A) (f : A → prog answer B) Q g :
  wp P (p ≫= f) Q g ↔ wp P p (λ a g, wp P (f a) Q g) g.
Proof.
  revert g. induction p as [a|c k IH]; intros g; [done|]. simpl.
  split; intros [Hc Hk]; (split; [done|]); intros r Hr; by apply IH, Hk.
Qed.

Lemma wp_mono {A} (p : prog answer A) (Q Q' : A → G → Prop) g :
  (∀ a g, Q a g → Q' a g) → wp P p Q g → wp P p Q' g.
Proof.
  intros HQ. revert g. induction p as [a|c k IH]; intros g; [apply HQ|].
  intros [Hc Hk]. split; [done|]. intros r Hr. by apply IH, Hk.
Qed.

Lemma wp_ret {A} (a : A) (Q : A → G → Prop) g : Q a g → wp P (Ret a) Q g.
Proof. done. Qed.

Lemma wp_mret {A} (a : A) (Q : A → G → Prop) g : Q a g → wp P (mret a) Q g.
Proof. done. Qed.

Lemma wp_call c (Q : answer c → G → Prop) g :
  allowed P g c → (∀ r, possible P g c r → Q r (next P g c r)) → wp P (call c) Q g.
Proof. done. Qed.

Lemma wp_try {E A B} (p : prog answer (result E A)) (f : A → prog answer (result E B)) Q g :
  wp P p (λ r g, match r with Ok a => wp P (f a) Q g | Err e => Q (Err e) g end) g →
  wp P (prog_try p f) Q g.
Proof.
  intros H. unfold prog_try. apply wp_bind. eapply wp_mono, H. by intros [a|e] g'.
Qed.

Lemma wp_map_err {E F A} (f : E → F) (p : prog answer (result E A)) Q g :
  wp P p (λ r, Q (map_err f r)) g → wp P (prog_map_err f p) Q g.
Proof. intros H. unfold prog_map_err. apply wp_bind. by eapply wp_mono, H. Qed.

(** A loop keeps what each turn keeps. *)
Lemma wp_each {E A} (f : A → prog answer (result E unit)) l (I : G → Prop) g :
  (∀ x g, x ∈ l → I g → wp P (f x) (λ _, I) g) → I g → wp P (prog_each f l) (λ _, I) g.
Proof.
  revert g. induction l as [|x l IH]; intros g Hf Hg; [done|]. apply wp_try.
  eapply wp_mono, Hf; [|set_solver|done]. intros [[]|e] g' Hg'; [|done].
  apply IH; [|done]. intros y g'' Hy. apply Hf. set_solver.
Qed.

Lemma wp_fold {A B} (f : B → A → prog answer B) b l (I : B → G → Prop) g :
  (∀ b x g, x ∈ l → I b g → wp P (f b x) I g) → I b g → wp P (prog_fold f b l) I g.
Proof.
  revert b g. induction l as [|x l IH]; intros b g Hf Hg; [done|]. apply wp_bind.
  eapply wp_mono, Hf; [|set_solver|done]. intros b' g' Hb. apply IH; [|done].
  intros b'' y g'' Hy. apply Hf. set_solver.
Qed.

(** A program whose calls leave the ghost state [g] as it is; it may be dropped
    at any of them. *)
Definition frozen (g : G) : protocol unit := mkProtocol
  (λ _ c, allowed P g c ∧ ∀ r, next P g c r = g) (λ _ c r, possible P g c r) (λ u _ _, u).

Lemma frozen_wp {A} (p : prog answer A) (Q : A → Prop) g :
  wp (frozen g) p (λ a _, Q a) tt → wp P p (λ a g', g' = g ∧ Q a) g.
Proof.
  induction p as [a|c k IH]; [done|]. intros [[Hc Hn] Hk]. split; [done|]. intros r Hr.
  rewrite Hn. by apply IH, (Hk r).
Qed.

Lemma wp_timeout {A} expired is_expired (p : prog answer A) (Q : A → Prop) g :
  allowed P g expired → (∀ r, next P g expired r = g) → wp (frozen g) p (λ a _, Q a) tt →
  wp P (prog_timeout expired is_expired p)
    (λ r g', g' = g ∧ match r with Some a => Q a | None => True end) g.
Proof.
  intros Ha Hn. induction p as [a|c k IH]; [done|]. intros [[Hc Hcn] Hk]. split; [done|].
  intros r _. rewrite Hn. destruct (is_expired r); [done|]. split; [done|]. intros x Hx. rewrite Hcn.
  split; [done|]. intros r' _. rewrite Hn. destruct (is_expired r'); [done|]. by apply IH, (Hk x).
Qed.

(** A program whose calls, of kind [N], keep an invariant that lets it be dropped
    at any of them. *)
Lemma wp_timeout_keeps {A} expired is_expired (N : C → bool) (I : G → Prop) (p : prog answer A) Q g :
  (∀ g, I g → allowed P g expired ∧ ∀ r, next P g expired r = g) →
  (∀ g c r, N c = true → I g → I (next P g c r)) →
  all_calls N p → I g → wp P p Q g →
  wp P (prog_timeout expired is_expired p)
    (λ r g', I g' ∧ match r with Some a => Q a g' | None => True end) g.
Proof.
  intros Hexp Hkeep Hcalls. revert g. unfold all_calls in Hcalls.
  induction p as [a|c k IH]; intros g Hg Hp; [done|]. destruct Hp as [Hc Hk]. destruct Hcalls as [HN Hcalls].
  destruct (Hexp g Hg) as [Ha Hn]. split; [done|]. intros r _. rewrite Hn.
  destruct (is_expired r); [done|]. split; [done|]. intros x Hx.
  assert (I (next P g c x)) as Hx' by (by apply Hkeep). destruct (Hexp _ Hx') as [Ha' Hn'].
  split; [done|]. intros r' _. rewrite Hn'. destruct (is_expired r'); [done|].
  by apply IH; [apply (Hcalls x)|..|apply Hk].
Qed.

(** Calls that leave [g] alone. *)
Lemma wp_neutral {A} (N : C → bool) (p : prog answer A) Q g :
  (∀ c, N c = true → allowed P g c ∧ ∀ r, next P g c r = g) →
  all_calls N p → (∀ a, Q a g) → wp P p Q g.
Proof.
  intros HN Hp HQ. unfold all_calls in Hp. induction p as [a|c k IH]; [apply HQ|].
  destruct Hp as [Hc Hk]. simpl in Hc. destruct (HN c Hc) as [Ha Hn]. split; [done|]. intros r Hr.
  rewrite Hn. apply IH. by apply (Hk r).
Qed.

(** What a protocol shows of a run alone, against a handler that keeps to the
    answers the protocol expects. *)
Lemma wp_run {S A} (h : ∀ c, S → answer c * S) (R : S → G → Prop) (p : prog answer A) Q s g :
  (∀ s g c, R s g → allowed P g c → possible P g c (h c s).1 ∧ R (h c s).2 (next P g c (h c s).1)) →
  R s g → wp P p Q g →
  ∃ g', R (run h p s).2 g' ∧ Q (run h p s).1 g'.
Proof.
  intros Hh. revert s g. induction p as [a|c k IH]; intros s g HR Hp; [by exists g|].
  destruct Hp as [Hc Hk]. destruct (Hh s g c HR Hc) as [Hr HR']. simpl.
  destruct (h c s) as [r s1]. by apply (IH r s1 (next P g c r)), Hk.
Qed.
End rules.

(** ** Programs with calls of some kind, by their syntax *)

Section calls.
Context (N : C → bool).

Lemma calls_ret {A} (a : A) : all_calls N (Ret a).
Proof. done. Qed.

Lemma calls_call c : N c = true → all_calls N (call c).
Proof. done. Qed.

Lemma calls_bind {A B} (p : prog answer A) (f : A → prog answer B) :
  all_calls N p → (∀ a, all_calls N (f a)) → all_calls N (p ≫= f).
Proof. intros Hp Hf. apply wp_bind. eapply wp_mono, Hp. intros a [] _. apply Hf. Qed.

Lemma calls_try {E A B} (p : prog answer (result E A)) (f : A → prog answer (result E B)) :
  all_calls N p → (∀ a, all_calls N (f a)) → all_calls N (prog_try p f).
Proof. intros Hp Hf. apply calls_bind; [done|]. by intros [a|e]; [apply Hf|]. Qed.

Lemma calls_map_err {E F A} (f : E → F) (p : prog answer (result E A)) :
  all_calls N p → all_calls N (prog_map_err f p).
Proof. intros Hp. by apply calls_bind. Qed.

Lemma calls_each {E A} (f : A → prog answer (result E unit)) l :
  (∀ x, all_calls N (f x)) → all_calls N (prog_each f l).
Proof. intros Hf. apply (wp_each (only N) f l (λ _, True)); [|done]. intros x [] _ _. apply Hf. Qed.

Lemma calls_fold {A B} (f : B → A → prog answer B) b l :
  (∀ b x, all_calls N (f b x)) → all_calls N (prog_fold f b l).
Proof.
  intros Hf. apply (wp_fold (only N) f b l (λ _ _, True)); [|done]. intros b' x [] _ _. apply Hf.
Qed.
End calls.

(** ** Pools of tasks *)

Lemma insert_cases {G} (i j : nat) (g g' : G) (gs : list G) :
  <[i := g']> gs !! j = Some g → (j = i ∧ g = g') ∨ (j ≠ i ∧ gs !! j = Some g).
Proof.
  intros H. destruct (decide (j = i)) as [->|Hne].
  - left. apply list_lookup_insert_Some in H as [(_ & <- & _)|(? & _)]; done.
  - right. by rewrite list_lookup_insert_ne in H.
Qed.


(** The calls a task has made, with their answers. *)
Definition event : Type := {c : C & answer c}.
Definition history : Type := list event.

(** The ghost state after a history. *)
Definition ghost {G} (P : protocol G) (g : G) (h : history) : G :=
  foldl (λ g e, next P g (projT1 e) (projT2 e)) g h.

Section pool.
Context {S : Type} (sem : ∀ c, S → answer c → S → Prop) (task : prog answer unit → Prop).

(** A task starts, or one of the tasks makes its next call. *)
Inductive pool_step : relation (list (history * prog answer unit) * S) :=
| pool_spawn ps s p : task p → pool_step (ps, s) (ps ++ [([], p)], s)
| pool_call ps s i h c k r s' :
    ps !! i = Some (h, Vis c k) → sem c s r s' →
    pool_step (ps, s) (<[i := (h ++ [existT c r], k r)]> ps, s').

(** An invariant of the shared state and the ghost states of all tasks. *)
Lemma pool_invariant {G} (P : protocol G) (g0 : G) (I : S → list G → Prop) (Q : unit → G → Prop) :
  (∀ p, task p → wp P p Q g0) →
  (∀ s gs, I s gs → I s (gs ++ [g0])) →
  (∀ s gs i g c r s', I s gs → gs !! i = Some g → allowed P g c → sem c s r s' →
     possible P g c r ∧ I s' (<[i := next P g c r]> gs)) →
  ∀ s ps' s', I s [] → rtc pool_step ([], s) (ps', s') →
  Forall (λ t, wp P t.2 Q (ghost P g0 t.1)) ps' ∧ I s' ((ghost P g0 ∘ fst) <$> ps').
Proof.
  intros Htask Hspawn Hcall s ps' s' Hs Hrun.
  apply (rtc_ind_r (λ c, Forall (λ t, wp P t.2 Q (ghost P g0 t.1)) c.1 ∧
    I c.2 ((ghost P g0 ∘ fst) <$> c.1)) ([], s)) in Hrun; [done|by split|].
  intros c1 c2 _ Hstep [Hps HI]. destruct Hstep as [ps s1 p Hp|ps s1 i h c k r s2 Hi Hsem]; simpl in *.
  - rewrite fmap_app. split; [|by apply Hspawn]. apply Forall_app. split; [done|].
    repeat constructor. by apply Htask.
  - pose proof (Forall_lookup_1 _ _ _ _ Hps Hi) as [Hc Hk]. simpl in *.
    assert (((ghost P g0 ∘ fst) <$> ps) !! i = Some (ghost P g0 h)) as Hg
      by (rewrite list_lookup_fmap; by setoid_rewrite Hi).
    destruct (Hcall _ _ _ _ _ _ _ HI Hg Hc Hsem) as [Hr HI'].
    assert (ghost P g0 (h ++ [existT c r]) = next P (ghost P g0 h) c r) as Hnext
      by (unfold ghost; by rewrite foldl_app).
    split; [apply Forall_insert; [done|]; simpl; rewrite Hnext; by apply Hk|].
    rewrite list_fmap_insert. simpl. by rewrite Hnext.
Qed.
End pool.
End prog.
(** ** Locks

    Tasks that hold at most one lock each, out of a set of locks in memory. *)
Section locks.
Context {G Key : Type} `{Countable Key} (lock_of : G → option Key).

Record locks_inv (locks : gset Key) (gs : list G) : Prop := {
  lock_held i g key : gs !! i = Some g → lock_of g = Some key → key ∈ locks;
  lock_unique i j g g' key : gs !! i = Some g → gs !! j = Some g' →
    lock_of g = Some key → lock_of g' = Some key → i = j;
}.

Lemma locks_spawn locks gs g : lock_of g = None → locks_inv locks gs → locks_inv locks (gs ++ [g]).
Proof.
  intros Hg [Hh Hu].
  assert (∀ i x key, (gs ++ [g]) !! i = Some x → lock_of x = Some key → gs !! i = Some x) as Happ.
  { intros i x key [?|(_ & Hx)]%lookup_app_Some Hl; [done|].
    apply list_lookup_singleton_Some in Hx as [_ <-]. by rewrite Hg in Hl. }
  split; [intros i x key Hi Hl; by eapply Hh; [eapply Happ|]|].
  intros i j x x' key Hi Hj Hl Hl'. by eapply Hu; [eapply Happ|eapply Happ|..].
Qed.

Lemma locks_keep locks gs i g g' :
  gs !! i = Some g → lock_of g' = lock_of g → locks_inv locks gs → locks_inv locks (<[i := g']> gs).
Proof.
  intros Hi Hl [Hh Hu]. split.
  - intros j x key [[-> ->]|[_ Hj]]%insert_cases; [rewrite Hl|]; by eapply Hh.
  - intros j j' x x' key [[-> ->]|[Hne Hj]]%insert_cases [[-> ->]|[Hne' Hj']]%insert_cases;
      rewrite ?Hl; intros Hx Hx'; [done|by eapply Hu..].
Qed.

Lemma locks_take locks gs i g' key :
  lock_of g' = Some key → key ∉ locks → locks_inv locks gs →
  locks_inv ({[key]} ∪ locks) (<[i := g']> gs).
Proof.
  intros Hl Hnew [Hh Hu]. split.
  - intros j x key' [[-> ->]|[_ Hj]]%insert_cases Hx; [|pose proof (Hh _ _ _ Hj Hx); set_solver].
    rewrite Hl in Hx. set_solver.
  - intros j j' x x' key' [[-> ->]|[Hne Hj]]%insert_cases [[-> ->]|[Hne' Hj']]%insert_cases Hx Hx';
      rewrite ?Hl in *; simplify_eq; [done|destruct Hnew; by eapply Hh..|by eapply Hu].
Qed.

Lemma locks_release locks gs i g g' key :
  gs !! i = Some g → lock_of g = Some key → lock_of g' = None → locks_inv locks gs →
  locks_inv (locks ∖ {[key]}) (<[i := g']> gs).
Proof.
  intros Hi Hl Hl' [Hh Hu]. split.
  - intros j x key' [[-> ->]|[Hne Hj]]%insert_cases Hx; [by rewrite Hl' in Hx|].
    assert (key' ≠ key) by (intros ->; by apply Hne, (Hu j i x g key)).
    pose proof (Hh _ _ _ Hj Hx). set_solver.
  - intros j j' x x' key' [[-> ->]|[Hne Hj]]%insert_cases [[-> ->]|[Hne' Hj']]%insert_cases Hx Hx';
      rewrite ?Hl' in *; try done. by eapply Hu.
Qed.
End locks.

Global Arguments protocol {_} _ _.
Global Arguments mkProtocol {_ _ _}.

Create HintDb calls.
#[export] Hint Resolve calls_ret calls_bind calls_try calls_map_err calls_each calls_fold : calls.
#[export] Hint Extern 1 (all_calls _ (call _)) => apply calls_call; reflexivity : calls.
#[export] Hint Extern 2 (all_calls _ (match ?x with _ => _ end)) => destruct x : calls.

Notation "x ←? y ; z" := (prog_try y (λ x : _, z))
  (at level 20, y at level 100, z at level 200, only parsing).
Notation "y ;;? z" := (prog_try y (λ _ : _, z))
  (at level 100, z at level 200, only parsing, right associativity).

(** One syntax-directed step of [wp]; results of calls are split. *)
Ltac wp_answer :=
  let r := fresh "r" in let Hr := fresh "Hr" in
  intros r Hr; cbv beta; simpl in r;
  lazymatch type of r with
  | result _ _ => destruct r as [r|r]
  | unit => destruct r
  | Empty_set => destruct r
  | _ => idtac
  end; cbn [map_err].
Ltac wp_step :=
  lazymatch goal with
  | |- wp _ (Ret _) _ _ => apply wp_ret
  | |- wp _ (mret _) _ _ => apply wp_mret
  | |- wp _ (prog_try _ _) _ _ => apply wp_try
  | |- wp _ (prog_map_err _ _) _ _ => apply wp_map_err
  | |- wp _ (mbind _ _) _ _ => apply wp_bind
  | |- wp ?P (call ?c) ?Q ?g => refine (wp_call P c Q g _ _); [|wp_answer]
  | |- wp _ (match ?x with _ => _ end) _ _ => destruct x eqn:?
  end; cbv beta iota zeta.
