(* ===== verification/Redaction.v ===== *)
(** * Redaction of logs (crates/audiodown-logging/src/redaction.rs)

    Secrets are taken out of a log message by regular expressions, and out of a
    JSON value by the names of its members. The engine of the regular expressions
    is a parameter: the patterns and what replaces their matches are the code's. *)

From S2P Require Import Prelude Text.

(** [Regex::new(pattern).replace_all(input, f)]: [f] is given the captures of a
    match, the whole match first. *)
Class RegexLib := {
  replace_all : string → string → (list string → string) → string;
}.

#[local] Set Warnings "-register-all".

(** [serde_json::Value]; the members of an object in the order of its map. *)
Inductive Value (Number : Type) :=
  | Null
  | Bool (b : bool)
  | Num (n : Number)
  | Str (text : string)
  | Array (items : list (Value Number))
  | Object (members : list (string * Value Number)).
Arguments Null {_}. Arguments Bool {_} _. Arguments Num {_} _. Arguments Str {_} _.
Arguments Array {_} _. Arguments Object {_} _.

Definition REDACTED : string := "[REDACTED]".

Section redaction.
Context {R : RegexLib}.

(** [captures[1]], which the patterns that are replaced this way always have *)
Definition keep_first_capture (captures : list string) : string :=
  default "" (captures !! 1%nat) ++ REDACTED.

Definition redact_text (input : string) : string :=
  let output := replace_all "(?i)(authorization\s*:\s*)[^;\r\n]+" input keep_first_capture in
  let output := replace_all "(?i)(cookie\s*:\s*)[^;\r\n]+" output keep_first_capture in
  let output := replace_all "(?i)\bbearer\s+[a-z0-9._~+/=-]+" output (λ _, REDACTED) in
  let output := replace_all "\b1[3-9][0-9]{9}\b" output (λ _, REDACTED) in
  replace_all "(?i)([?&](?:token|access_token|password|secret)=)[^&#\s]*" output
    keep_first_capture.

Definition is_sensitive_key (key : string) : bool :=
  existsb (eqb (to_ascii_lowercase key))
    ["cookie"; "authorization"; "token"; "password"; "secret"; "set-cookie"].

Fixpoint redact_json {N} (value : Value N) : Value N :=
  match value with
  | Object object =>
      Object (map (λ '(key, value),
                (key, if is_sensitive_key key then Str REDACTED else redact_json value)) object)
  | Array items => Array (map redact_json items)
  | Str text => Str (redact_text text)
  | other => other
  end.

(** ** What is left of a value

    A path goes through the members of objects and the items of arrays. *)

Inductive segment := Key (key : string) | Index (index : nat).

Definition child {N} (s : segment) (v : Value N) : option (Value N) :=
  match s, v with
  | Key key, Object members => snd <$> List.find (λ m, eqb m.1 key) members
  | Index index, Array items => items !! index
  | _, _ => None
  end.
Fixpoint at_path {N} (path : list segment) (v : Value N) : option (Value N) :=
  match path with
  | [] => Some v
  | s :: path => child s v ≫= at_path path
  end.

(** The first step of a path that is a sensitive name ends it. *)
Definition sensitive (s : segment) : bool :=
  match s with Key key => is_sensitive_key key | Index _ => false end.

Lemma child_redact {N} s (v : Value N) :
  child s (redact_json v) =
  (λ w, if sensitive s then Str REDACTED else redact_json w) <$> child s v.
Proof.
  destruct s as [key|index], v as [|b|n|t|items|members]; simpl; try done.
  - induction members as [|[k w] members IH]; simpl; [done|].
    destruct (eqb k key) eqn:E; [|exact IH].
    simpl. by rewrite (proj1 (eqb_eq _ _) E).
  - apply (list_lookup_fmap redact_json).
Qed.

Lemma at_path_app {N} path path' (v : Value N) :
  at_path (path ++ path') v = at_path path v ≫= at_path path'.
Proof.
  revert v. induction path as [|s path IH]; intros v; simpl; [done|].
  destruct (child s v); simpl; [apply IH|done].
Qed.

Lemma at_path_redact {N} path (v : Value N) :
  forallb (λ s, negb (sensitive s)) path = true →
  at_path path (redact_json v) = redact_json <$> at_path path v.
Proof.
  revert v. induction path as [|s path IH]; intros v; simpl; [done|].
  intros [Hs%negb_true_iff Hpath]%andb_prop. rewrite child_redact, Hs.
  destruct (child s v); simpl; [by apply IH|done].
Qed.

(** A path that meets no sensitive name gives the redaction of what it gave
    before; the first sensitive name on a path gives the mark, and nothing is
    found below it. *)
Theorem redact_json_hides {N} (v : Value N) safe key rest :
  forallb (λ s, negb (sensitive s)) safe = true → is_sensitive_key key = true →
  at_path safe (redact_json v) = redact_json <$> at_path safe v ∧
  at_path (safe ++ Key key :: rest) (redact_json v) =
  match rest with
  | [] => (λ _, Str REDACTED) <$> at_path (safe ++ [Key key]) v
  | _ => None
  end.
Proof.
  intros Hsafe Hkey. split; [by apply at_path_redact|].
  rewrite !at_path_app, (at_path_redact _ _ Hsafe).
  destruct (at_path safe v) as [w|]; [|by destruct rest].
  cbn [fmap option_fmap option_map mbind option_bind at_path].
  rewrite (child_redact (Key key)). cbn [sensitive]. rewrite Hkey.
  destruct (child (Key key) w), rest as [|[] ?]; done.
Qed.
End redaction.
