(* ===== verification/PluginManager.v ===== *)
(** * The plugin manager (crates/audiodown-plugin-manager/src/service.rs)

    Installing, starting, stopping and calling plugins.  The service is an
    asynchronous object shared by the request handlers and background tasks of
    the core: every operation is a program (Program.v) whose calls are the
    service's ports, its clocks, and its memory: one lock per plugin for
    operations, one for starting on demand, the number of calls in flight, and
    the number of failed automatic starts.  A lock is held from the call that
    takes it to the one that releases it, also when the code returns early. *)

From S2P Require Import Prelude Text Domain ContentContract CredentialContract Database.
From S2P Require Import Redaction SupervisorProtocol Program.

(** ** Data *)

Definition MAX_CONCURRENT_INSPECTIONS : Z := 2.
Definition LIFECYCLE_RISK_KIND : string := "npm_lifecycle_scripts".
(** Durations in nanoseconds. *)
Definition DEFAULT_INSTALL_POLL_INTERVAL : Z := 500 * 10 ^ 6.
Definition DEFAULT_INSTALL_WAIT_TIMEOUT : Z := 10 * 60 * 10 ^ 9.
Definition RUNTIME_CLEANUP_TIMEOUT : Z := 30 * 10 ^ 9.

Inductive PluginManagerError :=
  | InvalidRepositoryUrl | InvalidServiceBaseUrl | HttpClient | RepositoryRequest
  | NonSuccessResponse | InvalidServiceResponse | MissingDefaultBranch | InvalidCommitSha
  | ArchiveTooLarge | SnapshotIo | ArchiveCompressedTooLarge | ArchivePathEscape
  | ArchiveUnsupportedEntry | ArchiveMultipleRoots | ArchiveDuplicatePath | ArchiveCaseConflict
  | ArchiveNonUtf8Path | ArchiveTooManyFiles | ArchiveFileTooLarge | ArchiveExtractedTooLarge
  | ArchiveInvalid | ArchiveIo | InvalidRepositoryIndex | InvalidPluginPath
  | InvalidPluginManifest | IncompatiblePlugin | DuplicatePlugin | InvalidPackage
  | ForbiddenPluginFile | InvalidStagingMetadata | SnapshotNotFound | RiskGrantMismatch
  | PluginStateUnavailable | PluginRuntimeUnavailable.

Abbreviation store_result := (result PluginManagerError).

Inductive LifecycleAuthorizationError := DeveloperModeRequired | TokenRequired.

Inductive PluginManagementError :=
  | ManagementNotFound | InvalidPriority | ManagementInProgress | ManagementDisabled
  | InvalidRuntimeState | ManagementUnavailable | ManagementInternal.
Global Instance PluginManagementError_eq_dec : EqDecision PluginManagementError.
Proof. solve_decision. Defined.

Inductive ContentInvocationError :=
  | InvocationInvalidRequest | InvocationNotFound | InvocationDisabled | NotContentPlugin
  | CapabilityMissing | PluginBusy | InvocationUnavailable | InvocationInvalidResponse
  | InvocationInternal.
Global Instance ContentInvocationError_eq_dec : EqDecision ContentInvocationError.
Proof. solve_decision. Defined.

Definition ContentInvocationError_standard_code (self : ContentInvocationError) : string :=
  match self with
  | InvocationInvalidRequest => "INVALID_REQUEST"
  | InvocationNotFound => "PLUGIN_NOT_FOUND"
  | InvocationDisabled => "PLUGIN_DISABLED"
  | NotContentPlugin | CapabilityMissing => "PLUGIN_CAPABILITY_MISSING"
  | PluginBusy | InvocationUnavailable => "PLUGIN_UNAVAILABLE"
  | InvocationInvalidResponse => "PLUGIN_RESPONSE_INVALID"
  | InvocationInternal => "PLUGIN_INTERNAL_ERROR"
  end.

Inductive InstallError :=
  | InstallSnapshotNotFound | PluginNotInSnapshot | PluginAlreadyInstalled
  | PluginOperationInProgress | RiskGrantRequired | InstallDeveloperModeRequired
  | DevTokenRequired | BuildFailed | InstallTimeout | RuntimeUnavailable | ArtifactMismatch
  | InstallInternal.
Global Instance InstallError_eq_dec : EqDecision InstallError.
Proof. solve_decision. Defined.

Record LifecycleRiskGrant := mkLifecycleRiskGrant {
  grant_id : Uuid;
  grant_repository_id : string;
  grant_plugin_id : PluginId;
  grant_commit_sha : string;
  grant_risk_kind : string;
  grant_reason : string;
  grant_granted_at : time;
}.

Record StagedPlugin := mkStagedPlugin {
  staged_snapshot_id : Uuid;
  staged_repository_id : string;
  staged_source_url : string;
  staged_commit_sha : string;
  staged_plugin_path : string;
  staged_manifest : PluginManifest;
  staged_manifest_hash : string;
  staged_source_hash : string;
  staged_requires_lifecycle_scripts : bool;
  staged_lifecycle_script_reason : option string;
}.

Record PreparedOperation := mkPreparedOperation {
  prepared_operation_id : Uuid;
  prepared_plugin_id : PluginId;
}.

Record LifecycleRiskInput := mkLifecycleRiskInput {
  explicitly_approved : bool;
  developer_token : option string;
}.

Record InstallPluginCommand := mkInstallPluginCommand {
  command_snapshot_id : Uuid;
  command_plugin_id : PluginId;
  command_lifecycle_risk : LifecycleRiskInput;
}.

Record PluginBuildLogRecord := mkPluginBuildLogRecord {
  build_record_operation_id : Uuid;
  build_record_plugin_id : PluginId;
  build_record_plugin_version : string;
  build_record_platform_id : string;
  build_record_sequence : Z;
  build_record_stream : PluginBuildLogStream;
  build_record_message : string;
  build_record_timestamp : time;
}.

Inductive ContentCallEvent := CallStarted | CallSucceeded | CallFailed.
Global Instance ContentCallEvent_eq_dec : EqDecision ContentCallEvent.
Proof. solve_decision. Defined.

Record ContentCallLogRecord := mkContentCallLogRecord {
  call_log_request_id : string;
  call_log_plugin_id : PluginId;
  call_log_plugin_version : string;
  call_log_platform_id : string;
  call_log_method : ContentMethod;
  call_log_event : ContentCallEvent;
  call_log_duration_ms : Z;
  call_log_error_code : option string;
  call_log_timestamp : time;
}.

Record UpdatePluginSettingsCommand := mkUpdatePluginSettingsCommand {
  settings_plugin_id : PluginId;
  settings_enabled : bool;
  settings_run_mode : RunMode;
  settings_priority : Z;
}.

Record LifecycleReconcileReport := mkLifecycleReconcileReport {
  reconcile_scanned : Z;
  reconcile_started : Z;
  reconcile_stopped : Z;
  reconcile_skipped_busy : Z;
  reconcile_failed : Z;
}.

Record RuntimeCleanupReport := mkRuntimeCleanupReport {
  cleanup_scanned : Z;
  cleanup_cleaned : Z;
  cleanup_skipped_installing : Z;
  cleanup_failed : Z;
  cleanup_failures : list (PluginId * PluginManagementError);
}.

Inductive ReconcileOutcome := OutcomeStarted | OutcomeStopped | SkippedBusy | OutcomeFailed | Noop.

(** ** The memory of the service

    A lock of the registries exists as long as somebody holds or awaits it, so a
    registry is the set of the plugins whose lock is held. The closures under
    the registries' own mutexes do not panic, so these are never poisoned. *)

Record Memory := mkMemory {
  operation_locks : gset PluginId;
  content_startup_locks : gset PluginId;
  active_calls : gmap PluginId Z;
  automatic_start_failures : gmap PluginId Z;
}.

Definition try_operation_lock (plugin_id : PluginId) (m : Memory) : bool * Memory :=
  if decide (plugin_id ∈ operation_locks m) then (false, m)
  else (true, mkMemory ({[plugin_id]} ∪ operation_locks m) (content_startup_locks m)
                (active_calls m) (automatic_start_failures m)).
Definition release_operation_lock (plugin_id : PluginId) (m : Memory) : Memory :=
  mkMemory (operation_locks m ∖ {[plugin_id]}) (content_startup_locks m) (active_calls m)
    (automatic_start_failures m).

(** [lock_owned().await] goes on when the lock is free. *)
Definition content_startup_lock (plugin_id : PluginId) (m : Memory) : option Memory :=
  if decide (plugin_id ∈ content_startup_locks m) then None
  else Some (mkMemory (operation_locks m) ({[plugin_id]} ∪ content_startup_locks m)
               (active_calls m) (automatic_start_failures m)).
Definition release_startup_lock (plugin_id : PluginId) (m : Memory) : Memory :=
  mkMemory (operation_locks m) (content_startup_locks m ∖ {[plugin_id]}) (active_calls m)
    (automatic_start_failures m).

Definition usize_max : Z := 2 ^ 64 - 1.
Definition begin_active_call (plugin_id : PluginId) (m : Memory) : Memory :=
  mkMemory (operation_locks m) (content_startup_locks m)
    (<[plugin_id := Z.min (default 0 (active_calls m !! plugin_id) + 1) usize_max]> (active_calls m))
    (automatic_start_failures m).

(** The lease of an active call is dropped. *)
Definition drop_active_call (plugin_id : PluginId) (m : Memory) : Memory :=
  mkMemory (operation_locks m) (content_startup_locks m)
    (match active_calls m !! plugin_id with
     | None => active_calls m
     | Some count =>
         let count := Z.max (count - 1) 0 in
         if count =? 0 then delete plugin_id (active_calls m)
         else <[plugin_id := count]> (active_calls m)
     end)
    (automatic_start_failures m).
Definition has_active_calls (plugin_id : PluginId) (m : Memory) : bool :=
  is_some_and (λ count, count >? 0) (active_calls m !! plugin_id).

Definition automatic_start_failure_count (plugin_id : PluginId) (m : Memory) : Z :=
  default 0 (automatic_start_failures m !! plugin_id).
Definition increment_automatic_start_failures (plugin_id : PluginId) (m : Memory) : Z * Memory :=
  let count := Z.min (automatic_start_failure_count plugin_id m + 1) 255 in
  (count, mkMemory (operation_locks m) (content_startup_locks m) (active_calls m)
            (<[plugin_id := count]> (automatic_start_failures m))).
Definition reset_automatic_start_failures (plugin_id : PluginId) (m : Memory) : Memory :=
  mkMemory (operation_locks m) (content_startup_locks m) (active_calls m)
    (delete plugin_id (automatic_start_failures m)).

(** What the service writes as JSON, and the engine of the regular expressions;
    a JSON value is opened for the redaction of logs. *)
Class ManagerLib {K : Codec} := {
  manifest_to_value : PluginManifest → option Json;
  json_null : Json;
  Number : Type;
  json_value : Json → Value Number;
  value_json : Value Number → Json;
  #[global] manager_regex :: RegexLib;
}.

Section manager.
Context {K : Codec} {P : ProtocolJson} {L : ManagerLib}.

Record InstallPluginRecord := mkInstallPluginRecord {
  record_operation_id : Uuid;
  record_plugin_id : PluginId;
  record_plugin_type : PluginType;
  record_platform_id : string;
  record_name : string;
  record_version : string;
  record_protocol_version : string;
  record_source_ref : string;
  record_commit_sha : string;
  record_repository_id : string;
  record_manifest_json : Json;
  record_manifest_hash : string;
  record_source_hash : string;
  record_image_id : option string;
  record_status : PluginStatus;
  record_run_mode : RunMode;
  record_priority : Z;
  record_enabled : bool;
  record_last_error : option string;
  record_install_operation_id : option Uuid;
  record_last_used_at : option time;
  record_installed_at : time;
  record_updated_at : time;
}.

Record PluginRuntimeLogRecord := mkPluginRuntimeLogRecord {
  runtime_record_plugin_id : PluginId;
  runtime_record_plugin_version : string;
  runtime_record_platform_id : string;
  runtime_record_level : string;
  runtime_record_message : string;
  runtime_record_context : Json;
  runtime_record_container_id : option string;
  runtime_record_timestamp : time;
}.

Record ContentInvocationRequest := mkContentInvocationRequest {
  invocation_request_id : string;
  invocation_plugin_id : PluginId;
  invocation_method : ContentMethod;
  invocation_params : Json;
}.

(** Assignments to the fields that change: status, settings, error, times. *)
Definition with_fields (r : InstallPluginRecord) (status : PluginStatus) (run_mode : RunMode)
    (priority : Z) (enabled : bool) (last_error : option string) (last_used_at : option time)
    (updated_at : time) : InstallPluginRecord :=
  mkInstallPluginRecord (record_operation_id r) (record_plugin_id r) (record_plugin_type r)
    (record_platform_id r) (record_name r) (record_version r) (record_protocol_version r)
    (record_source_ref r) (record_commit_sha r) (record_repository_id r) (record_manifest_json r)
    (record_manifest_hash r) (record_source_hash r) (record_image_id r) status run_mode priority
    enabled last_error (record_install_operation_id r) last_used_at (record_installed_at r)
    updated_at.
Definition set_status (status : PluginStatus) (r : InstallPluginRecord) : InstallPluginRecord :=
  with_fields r status (record_run_mode r) (record_priority r) (record_enabled r)
    (record_last_error r) (record_last_used_at r) (record_updated_at r).
Definition set_error (error : option string) (updated_at : time) (r : InstallPluginRecord) :
    InstallPluginRecord :=
  with_fields r (record_status r) (record_run_mode r) (record_priority r) (record_enabled r) error
    (record_last_used_at r) updated_at.
Definition set_last_used (at_ : time) (r : InstallPluginRecord) : InstallPluginRecord :=
  with_fields r (record_status r) (record_run_mode r) (record_priority r) (record_enabled r)
    (record_last_error r) (Some at_) (record_updated_at r).

(** ** Calls *)

Inductive ManagerCall :=
  (** [PluginStateStore] *)
  | StorePersistRiskGrant (grant : LifecycleRiskGrant)
  | StoreInsertInstalling (record : InstallPluginRecord)
  | StoreCompleteInstall (plugin_id : PluginId) (operation_id : Uuid)
  | StoreRollbackInstall (plugin_id : PluginId) (operation_id : Uuid)
  | StoreListInstallRecords
  | StorePersistBuildLog (record : PluginBuildLogRecord)
  | StoreGetPlugin (plugin_id : PluginId)
  | StoreSavePlugin (record : InstallPluginRecord)
  | StoreDeletePlugin (plugin_id : PluginId)
  | StorePersistRuntimeLog (record : PluginRuntimeLogRecord)
  | StoreTouch (plugin_id : PluginId) (last_used_at : time)
  | StorePersistContentCallLog (record : ContentCallLogRecord)
  (** [PluginRuntimeControl] *)
  | RuntimeStart (plugin_id : PluginId)
  | RuntimeStop (plugin_id : PluginId)
  | RuntimeInspect (plugin_id : PluginId)
  | RuntimeInvoke (plugin_id : PluginId) (method : ContentMethod) (params : Json)
  | RuntimeRemove (plugin_id : PluginId)
  | BeginInstall (plugin_id : PluginId) (operation_id : Uuid)
  | InstallStatus (plugin_id : PluginId) (operation_id : Uuid)
  | FinalizeInstall (plugin_id : PluginId) (operation_id : Uuid)
  | AbortInstall (plugin_id : PluginId) (operation_id : Uuid)
  | ListInstallOperations
  | AcknowledgeInstall (plugin_id : PluginId) (operation_id : Uuid)
  (** [LifecycleRiskAuthorizer], [SnapshotStore] *)
  | Authorize (token : option string)
  | SnapshotLoadPlugin (snapshot_id : Uuid) (plugin_id : PluginId) (now : time)
  | SnapshotPrepareInstall (snapshot_id : Uuid) (plugin_id : PluginId)
      (grant : option LifecycleRiskGrant)
  (** the memory of the service *)
  | TryOperationLock (plugin_id : PluginId)
  | ReleaseOperationLock (plugin_id : PluginId)
  | ContentStartupLock (plugin_id : PluginId)
  | ReleaseStartupLock (plugin_id : PluginId)
  | BeginActiveCall (plugin_id : PluginId)
  | EndActiveCall (plugin_id : PluginId)
  | HasActiveCalls (plugin_id : PluginId)
  | FailureCount (plugin_id : PluginId)
  | IncrementFailures (plugin_id : PluginId)
  | ResetFailures (plugin_id : PluginId)
  (** [Utc::now], [Instant::now], [sleep], the timer of [timeout], [Uuid::new_v4] *)
  | UtcNow
  | InstantNow
  | Sleep (duration : Z)
  | TimerExpired
  | NewUuid
  (** a loop of the model that has used its fuel *)
  | OutOfFuel.


Definition answer (c : ManagerCall) : Type :=
  match c with
  | StorePersistRiskGrant _ | StoreInsertInstalling _ | StoreRollbackInstall _ _
  | StorePersistBuildLog _ | StoreSavePlugin _ | StoreDeletePlugin _ | StorePersistRuntimeLog _
  | StoreTouch _ _ | StorePersistContentCallLog _ => store_result unit
  | StoreCompleteInstall _ _ => store_result InstallPluginRecord
  | StoreListInstallRecords => store_result (list InstallPluginRecord)
  | StoreGetPlugin _ => store_result (option InstallPluginRecord)
  | RuntimeStart _ | RuntimeStop _ | RuntimeInspect _ => store_result (PluginRuntimeState Json)
  | RuntimeInvoke _ _ _ => store_result PluginRpcResult
  | RuntimeRemove _ => store_result PluginRemoveResult
  | BeginInstall _ _ | InstallStatus _ _ | FinalizeInstall _ _ | AbortInstall _ _
  | AcknowledgeInstall _ _ => store_result PluginInstallOperation
  | ListInstallOperations => store_result PluginInstallOperationList
  | Authorize _ => result LifecycleAuthorizationError unit
  | SnapshotLoadPlugin _ _ _ => store_result StagedPlugin
  | SnapshotPrepareInstall _ _ _ => store_result PreparedOperation
  | TryOperationLock _ | HasActiveCalls _ | TimerExpired => bool
  | ReleaseOperationLock _ | ContentStartupLock _ | ReleaseStartupLock _ | BeginActiveCall _
  | EndActiveCall _ | ResetFailures _ | Sleep _ | OutOfFuel => unit
  | FailureCount _ | IncrementFailures _ | InstantNow => Z
  | UtcNow => time
  | NewUuid => Uuid
  end.

(** The calls that the memory answers; [None] is a lock that is not free yet, or
    a call of another kind. *)
Definition memory_call (c : ManagerCall) : bool :=
  match c with
  | TryOperationLock _ | ReleaseOperationLock _ | ContentStartupLock _ | ReleaseStartupLock _
  | BeginActiveCall _ | EndActiveCall _ | HasActiveCalls _ | FailureCount _ | IncrementFailures _
  | ResetFailures _ => true
  | _ => false
  end.
Definition memory (c : ManagerCall) (m : Memory) : option (answer c * Memory) :=
  match c with
  | TryOperationLock plugin_id => Some (try_operation_lock plugin_id m)
  | ReleaseOperationLock plugin_id => Some (tt, release_operation_lock plugin_id m)
  | ContentStartupLock plugin_id => (tt,.) <$> content_startup_lock plugin_id m
  | ReleaseStartupLock plugin_id => Some (tt, release_startup_lock plugin_id m)
  | BeginActiveCall plugin_id => Some (tt, begin_active_call plugin_id m)
  | EndActiveCall plugin_id => Some (tt, drop_active_call plugin_id m)
  | HasActiveCalls plugin_id => Some (has_active_calls plugin_id m, m)
  | FailureCount plugin_id => Some (automatic_start_failure_count plugin_id m, m)
  | IncrementFailures plugin_id => Some (increment_automatic_start_failures plugin_id m)
  | ResetFailures plugin_id => Some (tt, reset_automatic_start_failures plugin_id m)
  | _ => None
  end.

Abbreviation task := (prog answer).
Abbreviation attempt E A := (prog answer (result E A)).

Definition utc_now : task time := call UtcNow.
(** What the model does then is not the code's doing; [install_ends] shows that it
    does not come to it. *)
Definition out_of_fuel {A} : attempt InstallError A := Vis OutOfFuel (λ _, Ret (Err InstallTimeout)).

(** A port call whose error is replaced. *)
Definition port {E A} (e : E) (m : prog answer (store_result A)) : attempt E A :=
  prog_map_err (λ _, e) m.
Definition fail {E A} (e : E) : attempt E A := Ret (Err e).
Definition succeed {E A} (a : A) : attempt E A := Ret (Ok a).

(** ** Helpers *)

Definition inactive_status (enabled : bool) : PluginStatus :=
  if enabled then Stopped else Disabled.

Definition FAILED_ACTION : string := "plugin runtime action failed".

Definition artifact_matches_staged (artifact : PluginInstallArtifact) (staged : StagedPlugin) :
    bool :=
  eqb (artifact_repository_id artifact) (staged_repository_id staged)
  && eqb (artifact_commit_sha artifact) (staged_commit_sha staged)
  && eqb (artifact_source_hash artifact) (staged_source_hash staged)
  && eqb (artifact_manifest_hash artifact) (staged_manifest_hash staged).

Definition operation_identity_matches (operation : PluginInstallOperation) (plugin_id : PluginId)
    (id : Uuid) : bool :=
  eqb (operation_plugin_id operation) plugin_id && eqb (operation_id operation) id.

Definition artifact_matches_record (artifact : PluginInstallArtifact)
    (record : InstallPluginRecord) : bool :=
  eqb (artifact_repository_id artifact) (record_repository_id record)
  && eqb (artifact_commit_sha artifact) (record_commit_sha record)
  && eqb (artifact_source_hash artifact) (record_source_hash record)
  && eqb (artifact_manifest_hash artifact) (record_manifest_hash record)
  && eqb (record_image_id record) (Some (artifact_image_id artifact)).

Definition merge_build_logs (target incoming : list PluginBuildLog) : list PluginBuildLog :=
  sort_by (cmp_on build_log_sequence Z.compare)
    (foldl (λ target log,
       if existsb (λ existing, build_log_sequence existing =? build_log_sequence log) target
       then target else target ++ [log]) target incoming).

Definition redact_build_log (message : string) : string :=
  replace_all "(?i)\b(token|access_token|password|secret)=([^\s;&]+)" (redact_text message)
    (λ captures, (default "" (captures !! 1%nat) ++ "=[REDACTED]")%string).

Definition map_staged_error (error : PluginManagerError) : InstallError :=
  match error with
  | SnapshotNotFound => InstallSnapshotNotFound
  | InvalidStagingMetadata => PluginNotInSnapshot
  | _ => InstallInternal
  end.

Definition map_content_management_error (error : PluginManagementError) : ContentInvocationError :=
  match error with
  | ManagementNotFound => InvocationNotFound
  | ManagementDisabled => InvocationDisabled
  | ManagementInProgress => PluginBusy
  | ManagementUnavailable | InvalidRuntimeState => InvocationUnavailable
  | InvalidPriority | ManagementInternal => InvocationInternal
  end.

Definition install_record (staged : StagedPlugin) (operation_id : Uuid)
    (artifact : PluginInstallArtifact) (now : time) : InstallPluginRecord :=
  let manifest := staged_manifest staged in {|
  record_operation_id := operation_id;
  record_plugin_id := PluginManifest_id manifest;
  record_plugin_type := PluginManifest_plugin_type manifest;
  record_platform_id := PlatformSpec_id (PluginManifest_platform manifest);
  record_name := PluginManifest_name manifest;
  record_version := PluginManifest_version manifest;
  record_protocol_version := PluginManifest_schema_version manifest;
  record_source_ref := staged_source_url staged;
  record_commit_sha := staged_commit_sha staged;
  record_repository_id := staged_repository_id staged;
  record_manifest_json := default json_null (manifest_to_value manifest);
  record_manifest_hash := staged_manifest_hash staged;
  record_source_hash := staged_source_hash staged;
  record_image_id := Some (artifact_image_id artifact);
  record_status := Installing;
  record_run_mode := OnDemand;
  record_priority := 100;
  record_enabled := true;
  record_last_error := None;
  record_install_operation_id := Some operation_id;
  record_last_used_at := None;
  record_installed_at := now;
  record_updated_at := now;
|}.

Definition runtime_log_record (record : InstallPluginRecord) (runtime : PluginRuntimeState Json)
    (log : PluginRuntimeLog Json) (now : time) : PluginRuntimeLogRecord := {|
  runtime_record_plugin_id := record_plugin_id record;
  runtime_record_plugin_version := record_version record;
  runtime_record_platform_id := record_platform_id record;
  runtime_record_level := runtime_log_level log;
  runtime_record_message := redact_build_log (runtime_log_message log);
  runtime_record_context := value_json (redact_json (json_value (runtime_log_context log)));
  runtime_record_container_id := runtime_state_container_id runtime;
  runtime_record_timestamp := now;
|}.

Definition validate_content_invocation (record : InstallPluginRecord) (method : ContentMethod) :
    result ContentInvocationError unit :=
  if negb (record_enabled record) then Err InvocationDisabled
  else if negb (eqb (record_plugin_type record) Content) then Err NotContentPlugin
  else
    manifest ← ok_or (manifest_from_value (record_manifest_json record)) InvocationInternal;
    if negb (eqb (PluginManifest_id manifest) (record_plugin_id record))
       || negb (eqb (PluginManifest_plugin_type manifest) Content)
       || negb (existsb (λ capability, eqb capability (ContentMethod_capability method))
                  (PluginManifest_capabilities manifest))
    then Err CapabilityMissing
    else Ok tt.

Definition validate_runtime (runtime : PluginRuntimeState Json) (plugin_id : PluginId) :
    result PluginManagementError unit :=
  if negb (eqb (runtime_state_plugin_id runtime) plugin_id)
     || negb (match runtime_state_status runtime with
              | Healthy | Stopped | Unhealthy => true | _ => false end)
  then Err InvalidRuntimeState
  else Ok tt.

(** ** Storing *)

Definition load_plugin (plugin_id : PluginId) : attempt PluginManagementError InstallPluginRecord :=
  found ←? port ManagementInternal (call (StoreGetPlugin plugin_id));
  Ret (ok_or found ManagementNotFound).

Definition save_plugin {E} (e : E) (record : InstallPluginRecord) : attempt E unit :=
  port e (call (StoreSavePlugin record)).

Definition save_and_reload (record : InstallPluginRecord) :
    attempt PluginManagementError InstallPluginRecord :=
  save_plugin ManagementInternal record;;?
  load_plugin (record_plugin_id record).

Definition record_management_failure (record : InstallPluginRecord) : task unit :=
  now ← utc_now;
  _ ← call (StoreSavePlugin (set_error (Some FAILED_ACTION) now record));
  Ret tt.

Definition record_cleanup_failure (record : InstallPluginRecord) : task unit :=
  let record :=
    match record_status record with
    | Stopped | Disabled => record
    | _ => set_status (if record_enabled record then Unhealthy else Disabled) record
    end in
  now ← utc_now;
  _ ← call (StoreSavePlugin (set_error (Some FAILED_ACTION) now record));
  Ret tt.

Definition persist_runtime_logs (record : InstallPluginRecord) (runtime : PluginRuntimeState Json) :
    attempt PluginManagementError unit :=
  prog_each (λ log,
    now ← utc_now;
    port ManagementInternal (call (StorePersistRuntimeLog (runtime_log_record record runtime log now))))
    (runtime_state_logs runtime).

Definition persist_content_call_log (plugin : InstallPluginRecord)
    (request : ContentInvocationRequest) (event : ContentCallEvent) (duration_ms : Z)
    (error_code : option string) : attempt ContentInvocationError unit :=
  now ← utc_now;
  port InvocationInternal (call (StorePersistContentCallLog {|
    call_log_request_id := invocation_request_id request;
    call_log_plugin_id := record_plugin_id plugin;
    call_log_plugin_version := record_version plugin;
    call_log_platform_id := record_platform_id plugin;
    call_log_method := invocation_method request;
    call_log_event := event;
    call_log_duration_ms := duration_ms;
    call_log_error_code := error_code;
    call_log_timestamp := now |})).

(** ** Transitions of a runtime

    [&mut record]: the record comes back with the result. *)

Definition rollback_started_runtime (record : InstallPluginRecord)
    (original_error : PluginManagementError) :
    task (result PluginManagementError unit * InstallPluginRecord) :=
  stopped ← call (RuntimeStop (record_plugin_id record));
  '(cleanup, record) ←
    match stopped with
    | Ok stopped =>
        match validate_runtime stopped (record_plugin_id record) with
        | Ok _ =>
            if eqb (runtime_state_status stopped) Stopped then
              now ← utc_now;
              let record := set_error (record_last_error record) now
                              (set_status (inactive_status (record_enabled record)) record) in
              r ← persist_runtime_logs record stopped;
              Ret (r, record)
            else Ret (Err InvalidRuntimeState, record)
        | Err error => Ret (Err error, record)
        end
    | Err _ => Ret (Err ManagementUnavailable, record)
    end;
  now ← utc_now;
  let record := set_error (Some FAILED_ACTION) now record in
  match cleanup with
  | Ok _ => Ret (Err original_error, record)
  | Err cleanup_error =>
      let record :=
        match record_status record with
        | Stopped | Disabled => record
        | _ => if record_enabled record then set_status Unhealthy record else record
        end in
      Ret (Err cleanup_error, record)
  end.

Definition start_transition (record : InstallPluginRecord) :
    task (result PluginManagementError unit * InstallPluginRecord) :=
  let plugin_id := record_plugin_id record in
  started ← call (RuntimeStart plugin_id);
  match started with
  | Err _ => Ret (Err ManagementUnavailable, record)
  | Ok started =>
      match validate_runtime started plugin_id with
      | Err error => rollback_started_runtime record error
      | Ok _ =>
          logged ← persist_runtime_logs record started;
          match logged with
          | Err error => rollback_started_runtime record error
          | Ok _ =>
              inspected ← call (RuntimeInspect plugin_id);
              match inspected with
              | Err _ => rollback_started_runtime record ManagementUnavailable
              | Ok inspected =>
                  match validate_runtime inspected plugin_id with
                  | Err error => rollback_started_runtime record error
                  | Ok _ =>
                      if negb (eqb (runtime_state_status inspected) Healthy) then
                        if eqb (runtime_state_status inspected) Stopped then
                          now ← utc_now;
                          Ret (Err InvalidRuntimeState,
                               set_error (Some FAILED_ACTION) now
                                 (set_status (inactive_status (record_enabled record)) record))
                        else rollback_started_runtime record InvalidRuntimeState
                      else
                        logged ← persist_runtime_logs record inspected;
                        match logged with
                        | Err error => rollback_started_runtime record error
                        | Ok _ =>
                            used ← utc_now;
                            now ← utc_now;
                            Ret (Ok tt, set_error None now
                                          (set_last_used used (set_status Healthy record)))
                        end
                  end
              end
          end
      end
  end.

Definition stop_transition (record : InstallPluginRecord) :
    task (result PluginManagementError unit * InstallPluginRecord) :=
  stopped ← call (RuntimeStop (record_plugin_id record));
  match stopped with
  | Err _ => Ret (Err ManagementUnavailable, record)
  | Ok stopped =>
      match validate_runtime stopped (record_plugin_id record) with
      | Err error => Ret (Err error, record)
      | Ok _ =>
          if negb (eqb (runtime_state_status stopped) Stopped)
          then Ret (Err InvalidRuntimeState, record)
          else
            now ← utc_now;
            let record := set_error None now
                            (set_status (inactive_status (record_enabled record)) record) in
            r ← persist_runtime_logs record stopped;
            Ret (r, record)
      end
  end.

(** ** Operations on an installed plugin *)

(** [let _operation_guard = self.try_operation_lock(plugin_id)?;]: the guard
    lives to the end of the function. *)
Definition with_operation_lock {E A} (plugin_id : PluginId) (busy : E) (body : attempt E A) :
    attempt E A :=
  locked ← call (TryOperationLock plugin_id);
  if (locked : bool) then
    r ← body;
    _ ← call (ReleaseOperationLock plugin_id);
    Ret r
  else fail busy.

Definition start (plugin_id : PluginId) : attempt PluginManagementError InstallPluginRecord :=
  with_operation_lock plugin_id ManagementInProgress (
    active ← call (HasActiveCalls plugin_id);
    if (active : bool) then fail ManagementInProgress
    else
      record ←? load_plugin plugin_id;
      if negb (record_enabled record) then fail ManagementDisabled
      else
        '(r, record) ← start_transition record;
        match r with
        | Err error => record_management_failure record;; fail error
        | Ok _ => save_and_reload record
        end).

Definition stop (plugin_id : PluginId) : attempt PluginManagementError InstallPluginRecord :=
  with_operation_lock plugin_id ManagementInProgress (
    active ← call (HasActiveCalls plugin_id);
    if (active : bool) then fail ManagementInProgress
    else
      record ←? load_plugin plugin_id;
      '(r, record) ← stop_transition record;
      match r with
      | Err error => record_management_failure record;; fail error
      | Ok _ => save_and_reload record
      end).

Definition inspect_runtime (plugin_id : PluginId) :
    attempt PluginManagementError InstallPluginRecord :=
  with_operation_lock plugin_id ManagementInProgress (
    record ←? load_plugin plugin_id;
    runtime ← call (RuntimeInspect plugin_id);
    match runtime with
    | Err _ => record_management_failure record;; fail ManagementUnavailable
    | Ok runtime =>
        match validate_runtime runtime plugin_id with
        | Err error => fail error
        | Ok _ =>
            persist_runtime_logs record runtime;;?
            let status := if eqb (runtime_state_status runtime) Stopped
                          then inactive_status (record_enabled record)
                          else runtime_state_status runtime in
            now ← utc_now;
            save_and_reload (set_error None now (set_status status record))
        end
    end).

(** The call itself, after the locks are released. *)
Definition perform_call (record : InstallPluginRecord) (request : ContentInvocationRequest) :
    attempt ContentInvocationError PluginRpcResult :=
  started_at ← call InstantNow;
  persist_content_call_log record request CallStarted 0 None;;?
  now ← utc_now;
  port InvocationInternal (call (StoreTouch (record_plugin_id record) now));;?
  result ← call (RuntimeInvoke (record_plugin_id record) (invocation_method request)
                   (invocation_params request));
  ended_at ← call InstantNow;
  let duration_ms := Z.min ((ended_at - started_at) / 10 ^ 6) (2 ^ 64 - 1) in
  match result with
  | Ok result =>
      match PluginRpcResult_validate result with
      | Err _ =>
          let error := InvocationInvalidResponse in
          persist_content_call_log record request CallFailed duration_ms
            (Some (ContentInvocationError_standard_code error));;?
          fail error
      | Ok _ =>
          persist_content_call_log record request CallSucceeded duration_ms None;;?
          succeed result
      end
  | Err _ =>
      let error := InvocationUnavailable in
      persist_content_call_log record request CallFailed duration_ms
        (Some (ContentInvocationError_standard_code error));;?
      fail error
  end.

(** The part under the active call and both locks: the runtime is healthy or is
    started. *)
Definition ensure_started (record : InstallPluginRecord) :
    attempt ContentInvocationError InstallPluginRecord :=
  if eqb (record_status record) Installing || eqb (record_status record) Starting
  then fail InvocationUnavailable
  else if negb (eqb (record_status record) Healthy) then
    '(r, record) ← start_transition record;
    match r with
    | Err error =>
        record_management_failure record;;
        fail (map_content_management_error error)
    | Ok _ =>
        save_plugin InvocationInternal record;;?
        succeed record
    end
  else succeed record.

Definition invoke_content (request : ContentInvocationRequest) :
    attempt ContentInvocationError PluginRpcResult :=
  let plugin_id := invocation_plugin_id request in
  if str_is_empty (invocation_request_id request)
     || (str_len (invocation_request_id request) >? 128)
     || str_contains (invocation_request_id request) (chr 0)
  then fail InvocationInvalidRequest
  else
    _ ← call (ContentStartupLock plugin_id);
    locked ← call (TryOperationLock plugin_id);
    if negb locked then
      _ ← call (ReleaseStartupLock plugin_id);
      fail PluginBusy
    else
      checked ← (record ←? prog_map_err map_content_management_error (load_plugin plugin_id);
                 Ret (validate_content_invocation record (invocation_method request);; Ok record));
      match checked with
      | Err error =>
          _ ← call (ReleaseOperationLock plugin_id);
          _ ← call (ReleaseStartupLock plugin_id);
          fail error
      | Ok record =>
          _ ← call (BeginActiveCall plugin_id);
          ready ← ensure_started record;
          match ready with
          | Err error =>
              _ ← call (EndActiveCall plugin_id);
              _ ← call (ReleaseOperationLock plugin_id);
              _ ← call (ReleaseStartupLock plugin_id);
              fail error
          | Ok record =>
              _ ← call (ReleaseOperationLock plugin_id);
              _ ← call (ReleaseStartupLock plugin_id);
              r ← perform_call record request;
              _ ← call (EndActiveCall plugin_id);
              Ret r
          end
      end.

Definition update_settings (command : UpdatePluginSettingsCommand) :
    attempt PluginManagementError InstallPluginRecord :=
  let plugin_id := settings_plugin_id command in
  if negb ((0 <=? settings_priority command) && (settings_priority command <=? 1000))
  then fail InvalidPriority
  else
    with_operation_lock plugin_id ManagementInProgress (
      active ← (if negb (settings_enabled command) then call (HasActiveCalls plugin_id)
                else Ret false);
      if (active : bool) then fail ManagementInProgress
      else
        record ←? load_plugin plugin_id;
        let previous := record in
        '(r, record) ←
          (if negb (settings_enabled command) && record_enabled record then stop_transition record
           else if settings_enabled command && eqb (settings_run_mode command) Always
                   && (negb (record_enabled record) || negb (eqb (record_run_mode record) Always))
           then start_transition record
           else Ret (Ok tt, record));
        match r with
        | Err error => record_management_failure previous;; fail error
        | Ok _ =>
            now ← utc_now;
            let status :=
              if negb (settings_enabled command) then Disabled
              else if eqb (record_status previous) Disabled
                      && eqb (settings_run_mode command) OnDemand
              then Stopped
              else record_status record in
            save_and_reload
              (with_fields record status (settings_run_mode command) (settings_priority command)
                 (settings_enabled command) None (record_last_used_at record) now)
        end).

Definition uninstall (plugin_id : PluginId) : attempt PluginManagementError unit :=
  with_operation_lock plugin_id ManagementInProgress (
    active ← call (HasActiveCalls plugin_id);
    if (active : bool) then fail ManagementInProgress
    else
      record ←? load_plugin plugin_id;
      '(r, record) ← stop_transition record;
      match r with
      | Err error => record_management_failure record;; fail error
      | Ok _ =>
          save_plugin ManagementInternal record;;?
          removed ← call (RuntimeRemove plugin_id);
          match removed with
          | Err _ => record_management_failure record;; fail ManagementUnavailable
          | Ok removed =>
              if negb (eqb (removed_plugin_id removed) plugin_id)
                 || negb (removed_image removed)
                 || negb (removed_install_directory removed)
              then record_management_failure record;; fail ManagementUnavailable
              else port ManagementInternal (call (StoreDeletePlugin plugin_id))
          end
      end).

(** ** The background task *)

Definition try_reconcile_plugin (plugin_id : PluginId) (now : time) (idle_timeout : Z) :
    task ReconcileOutcome :=
  locked ← call (TryOperationLock plugin_id);
  if negb locked then Ret SkippedBusy
  else
    outcome ←
      (loaded ← load_plugin plugin_id;
       match loaded with
       | Err _ => Ret OutcomeFailed
       | Ok record =>
           if negb (record_enabled record) || eqb (record_status record) Installing then Ret Noop
           else
             match record_run_mode record with
             | Always =>
                 if eqb (record_status record) Healthy then
                   _ ← call (ResetFailures plugin_id);
                   Ret Noop
                 else
                   count ← call (FailureCount plugin_id);
                   if count >=? 3 then Ret Noop
                   else
                     '(r, record) ← start_transition record;
                     match r with
                     | Ok _ =>
                         saved ← call (StoreSavePlugin record);
                         match saved with
                         | Err _ => Ret OutcomeFailed
                         | Ok _ =>
                             _ ← call (ResetFailures plugin_id);
                             Ret OutcomeStarted
                         end
                     | Err _ =>
                         failures ← call (IncrementFailures plugin_id);
                         now ← utc_now;
                         let record := set_error (Some FAILED_ACTION) now record in
                         let record := if failures >=? 3 then set_status Unhealthy record
                                       else record in
                         _ ← call (StoreSavePlugin record);
                         Ret OutcomeFailed
                     end
             | OnDemand =>
                 if negb (eqb (record_status record) Healthy) then Ret Noop
                 else
                   active ← call (HasActiveCalls plugin_id);
                   if (active : bool) then Ret Noop
                   else
                     let last_used_at :=
                       default (record_updated_at record) (record_last_used_at record) in
                     (** [num_seconds] and [as_secs] *)
                     let idle_seconds := Z.quot (now - last_used_at) (10 ^ 9) in
                     let timeout_seconds := Z.min (idle_timeout / 10 ^ 9) (2 ^ 63 - 1) in
                     if idle_seconds <? timeout_seconds then Ret Noop
                     else
                       '(r, record) ← stop_transition record;
                       match r with
                       | Ok _ =>
                           saved ← call (StoreSavePlugin record);
                           Ret match saved with Err _ => OutcomeFailed | Ok _ => OutcomeStopped end
                       | Err _ =>
                           record_management_failure record;;
                           Ret OutcomeFailed
                       end
             end
       end);
    _ ← call (ReleaseOperationLock plugin_id);
    Ret outcome.

Definition count_outcome (report : LifecycleReconcileReport) (outcome : ReconcileOutcome) :
    LifecycleReconcileReport :=
  let '(mkLifecycleReconcileReport scanned started stopped busy failed) := report in
  match outcome with
  | OutcomeStarted => mkLifecycleReconcileReport (scanned + 1) (started + 1) stopped busy failed
  | OutcomeStopped => mkLifecycleReconcileReport (scanned + 1) started (stopped + 1) busy failed
  | SkippedBusy => mkLifecycleReconcileReport (scanned + 1) started stopped (busy + 1) failed
  | OutcomeFailed => mkLifecycleReconcileReport (scanned + 1) started stopped busy (failed + 1)
  | Noop => mkLifecycleReconcileReport (scanned + 1) started stopped busy failed
  end.

Definition plugin_id_cmp (left right : PluginId) : comparison :=
  String.compare (PluginId_as_str left) (PluginId_as_str right).

Definition reconcile_due_plugins (now : time) (idle_timeout : Z) :
    attempt PluginManagementError LifecycleReconcileReport :=
  records ←? port ManagementInternal (call StoreListInstallRecords);
  let plugin_ids := sort_by plugin_id_cmp (record_plugin_id <$> records) in
  report ← prog_fold (λ report plugin_id,
      outcome ← try_reconcile_plugin plugin_id now idle_timeout;
      Ret (count_outcome report outcome))
    (mkLifecycleReconcileReport 0 0 0 0 0) plugin_ids;
  succeed report.

Definition cleanup_runtime_for_record (record : InstallPluginRecord) :
    attempt PluginManagementError unit :=
  let plugin_id := record_plugin_id record in
  with_operation_lock plugin_id ManagementInProgress (
    active ← call (HasActiveCalls plugin_id);
    if (active : bool) then record_cleanup_failure record;; fail ManagementInProgress
    else
      record ←? load_plugin plugin_id;
      transition ← prog_timeout TimerExpired (λ expired : answer TimerExpired, expired)
                     (stop_transition record);
      match transition with
      | None => fail ManagementUnavailable
      | Some (Err error, record) => record_cleanup_failure record;; fail error
      | Some (Ok _, record) =>
          save_plugin ManagementInternal (set_status (inactive_status (record_enabled record)) record)
      end).

Definition cleanup_one (report : RuntimeCleanupReport) (record : InstallPluginRecord) :
    task RuntimeCleanupReport :=
  let '(mkRuntimeCleanupReport scanned cleaned skipped failed failures) := report in
  if eqb (record_status record) Installing
  then Ret (mkRuntimeCleanupReport scanned cleaned (skipped + 1) failed failures)
  else
    r ← cleanup_runtime_for_record record;
    Ret match r with
        | Ok _ => mkRuntimeCleanupReport scanned (cleaned + 1) skipped failed failures
        | Err error =>
            mkRuntimeCleanupReport scanned cleaned skipped (failed + 1)
              (failures ++ [(record_plugin_id record, error)])
        end.

Definition cleanup_all_runtimes : attempt PluginManagementError RuntimeCleanupReport :=
  records ←? port ManagementInternal (call StoreListInstallRecords);
  let records := sort_by (cmp_on record_plugin_id plugin_id_cmp) records in
  report ← prog_fold cleanup_one (mkRuntimeCleanupReport (zlen records) 0 0 0 []) records;
  succeed report.

(** ** Installing *)

Context (install_poll_interval install_wait_timeout : Z).

Definition acknowledge (plugin_id : PluginId) (operation_id : Uuid) : attempt InstallError unit :=
  acknowledged ←? port RuntimeUnavailable (call (AcknowledgeInstall plugin_id operation_id));
  if negb (operation_acknowledged acknowledged)
     || negb (operation_identity_matches acknowledged plugin_id operation_id)
  then fail RuntimeUnavailable
  else succeed tt.

Definition abort_and_ack_result (plugin_id : PluginId) (operation_id : Uuid) :
    attempt InstallError unit :=
  aborted ←? port RuntimeUnavailable (call (AbortInstall plugin_id operation_id));
  if negb (eqb (operation_state aborted) Aborted)
     || negb (operation_identity_matches aborted plugin_id operation_id)
  then fail RuntimeUnavailable
  else acknowledge plugin_id operation_id.

Definition abort_and_ack (plugin_id : PluginId) (operation_id : Uuid) : task unit :=
  _ ← abort_and_ack_result plugin_id operation_id;
  Ret tt.

Definition persist_build_logs (staged : StagedPlugin) (operation_id : Uuid)
    (logs : list PluginBuildLog) : attempt InstallError unit :=
  let manifest := staged_manifest staged in
  prog_each (λ log,
    now ← utc_now;
    port InstallInternal (call (StorePersistBuildLog {|
      build_record_operation_id := operation_id;
      build_record_plugin_id := PluginManifest_id manifest;
      build_record_plugin_version := PluginManifest_version manifest;
      build_record_platform_id := PlatformSpec_id (PluginManifest_platform manifest);
      build_record_sequence := build_log_sequence log;
      build_record_stream := build_log_stream log;
      build_record_message := redact_build_log (build_log_message log);
      build_record_timestamp := now |}))) logs.

Definition persist_reconciled_build_logs (record : option InstallPluginRecord)
    (operation : PluginInstallOperation) : attempt InstallError unit :=
  prog_each (λ log,
    now ← utc_now;
    port InstallInternal (call (StorePersistBuildLog {|
      build_record_operation_id := operation_id operation;
      build_record_plugin_id := operation_plugin_id operation;
      build_record_plugin_version := default "" (record_version <$> record);
      build_record_platform_id := default "" (record_platform_id <$> record);
      build_record_sequence := build_log_sequence log;
      build_record_stream := build_log_stream log;
      build_record_message := redact_build_log (build_log_message log);
      build_record_timestamp := now |}))) (operation_build_logs operation).

Definition authorize_lifecycle_risk (staged : StagedPlugin) (input : LifecycleRiskInput) :
    attempt InstallError (option LifecycleRiskGrant) :=
  if negb (staged_requires_lifecycle_scripts staged) then succeed None
  else if negb (explicitly_approved input) then fail RiskGrantRequired
  else
    prog_map_err (λ error, match error with
                           | DeveloperModeRequired => InstallDeveloperModeRequired
                           | TokenRequired => DevTokenRequired
                           end) (call (Authorize (developer_token input)));;?
    match staged_lifecycle_script_reason staged with
    | None => fail RiskGrantRequired
    | Some reason =>
        id ← call NewUuid;
        now ← utc_now;
        succeed (Some {|
          grant_id := id;
          grant_repository_id := staged_repository_id staged;
          grant_plugin_id := PluginManifest_id (staged_manifest staged);
          grant_commit_sha := staged_commit_sha staged;
          grant_risk_kind := LIFECYCLE_RISK_KIND;
          grant_reason := reason;
          grant_granted_at := now |})
    end.

(** Enough turns for the deadline: a turn sleeps for the poll interval. *)
Definition install_fuel : nat := Z.to_nat (install_wait_timeout / install_poll_interval + 2).

Fixpoint recover_ambiguous_begin (fuel : nat) (plugin_id : PluginId) (operation_id : Uuid)
    (started_at : Z) : attempt InstallError PluginInstallOperation :=
  match fuel with
  | O => out_of_fuel
  | S fuel =>
      status ← call (InstallStatus plugin_id operation_id);
      match status with
      | Ok operation => succeed operation
      | Err _ =>
          now ← call InstantNow;
          if now - started_at <? install_wait_timeout then
            _ ← call (Sleep install_poll_interval);
            recover_ambiguous_begin fuel plugin_id operation_id started_at
          else
            abort_and_ack plugin_id operation_id;;
            fail InstallTimeout
      end
  end.

(** A build that did not work out: keep its logs, abort and acknowledge it. *)
Definition give_up_build (staged : StagedPlugin) (operation_id : Uuid)
    (logs : list PluginBuildLog) (error : InstallError) {A} : attempt InstallError A :=
  log_result ← persist_build_logs staged operation_id logs;
  abort_and_ack_result (PluginManifest_id (staged_manifest staged)) operation_id;;?
  (Ret log_result;;? fail error).

Fixpoint wait_until_built (fuel : nat) (staged : StagedPlugin) (operation_id : Uuid)
    (operation : PluginInstallOperation) (started_at : Z) (logs : list PluginBuildLog) :
    attempt InstallError (PluginInstallOperation * list PluginBuildLog) :=
  match fuel with
  | O => out_of_fuel
  | S fuel =>
      let plugin_id := PluginManifest_id (staged_manifest staged) in
      if negb (operation_identity_matches operation plugin_id operation_id)
      then fail RuntimeUnavailable
      else
        let logs := merge_build_logs logs (operation_build_logs operation) in
        match operation_state operation with
        | Built => succeed (operation, logs)
        | Failed | Aborted => give_up_build staged operation_id logs BuildFailed
        | Finalized => fail RuntimeUnavailable
        | Accepted | Building =>
            now ← call InstantNow;
            if now - started_at >=? install_wait_timeout
            then give_up_build staged operation_id logs InstallTimeout
            else
              _ ← call (Sleep install_poll_interval);
              status ← call (InstallStatus plugin_id operation_id);
              match status with
              | Ok operation => wait_until_built fuel staged operation_id operation started_at logs
              | Err _ =>
                  persist_build_logs staged operation_id logs;;?
                  fail RuntimeUnavailable
              end
        end
  end.

(** After the plugin is recorded as installing: finalize, complete, acknowledge.
    An error leaves the record for [reconcile_install_operations]. *)
Definition finish_install (plugin_id : PluginId) (operation_id : Uuid)
    (artifact_matches : PluginInstallArtifact → bool) : attempt InstallError InstallPluginRecord :=
  finalized ←? port RuntimeUnavailable (call (FinalizeInstall plugin_id operation_id));
  if negb (eqb (operation_state finalized) Finalized)
     || negb (operation_identity_matches finalized plugin_id operation_id)
     || negb (is_some_and artifact_matches (operation_artifact finalized))
  then fail RuntimeUnavailable
  else
    completed ←? port InstallInternal (call (StoreCompleteInstall plugin_id operation_id));
    acknowledge plugin_id operation_id;;?
    succeed completed.

(** An operation that cannot be installed: abort it, keep its logs. *)
Definition discard_build (staged : StagedPlugin) (plugin_id : PluginId) (operation_id : Uuid)
    (logs : list PluginBuildLog) (error : InstallError) {A} : attempt InstallError A :=
  abort_and_ack plugin_id operation_id;;
  (persist_build_logs staged operation_id logs;;? fail error).

(** The operation is built: record the plugin and finish, if the artifact is that
    of the staged plugin. *)
Definition install_built (staged : StagedPlugin) (plugin_id : PluginId) (operation_id : Uuid)
    (built : PluginInstallOperation) (build_logs : list PluginBuildLog) :
    attempt InstallError InstallPluginRecord :=
  match
    artifact ← operation_artifact built;
    if artifact_matches_staged artifact staged then Some artifact else None
  with
  | None => discard_build staged plugin_id operation_id build_logs ArtifactMismatch
  | Some artifact =>
      now ← utc_now;
      inserted ← call (StoreInsertInstalling (install_record staged operation_id artifact now));
      match inserted with
      | Err _ => discard_build staged plugin_id operation_id build_logs InstallInternal
      | Ok _ =>
          persist_build_logs staged operation_id build_logs;;?
          finish_install plugin_id operation_id (λ value, artifact_matches_staged value staged)
      end
  end.

Definition install_locked (command : InstallPluginCommand) :
    attempt InstallError InstallPluginRecord :=
  let plugin_id := command_plugin_id command in
  now ← utc_now;
  staged ←? prog_map_err map_staged_error
              (call (SnapshotLoadPlugin (command_snapshot_id command) plugin_id now));
  records ←? port InstallInternal (call StoreListInstallRecords);
  match List.find (λ record, eqb (record_plugin_id record) plugin_id) records with
  | Some existing =>
      fail (if eqb (record_status existing) Installing then PluginOperationInProgress
            else PluginAlreadyInstalled)
  | None =>
      grant ←? authorize_lifecycle_risk staged (command_lifecycle_risk command);
      (match grant with
       | Some grant => port InstallInternal (call (StorePersistRiskGrant grant))
       | None => succeed tt
       end);;?
      prepared ←? prog_map_err map_staged_error
                    (call (SnapshotPrepareInstall (command_snapshot_id command) plugin_id grant));
      let operation_id := prepared_operation_id prepared in
      started_at ← call InstantNow;
      begun ← call (BeginInstall plugin_id operation_id);
      initial ←? match begun with
                 | Ok operation => succeed operation
                 | Err _ => recover_ambiguous_begin install_fuel plugin_id operation_id started_at
                 end;
      built ←? wait_until_built install_fuel staged operation_id initial started_at [];
      let '(built, build_logs) := built in
      install_built staged plugin_id operation_id built build_logs
  end.

Definition install (command : InstallPluginCommand) : attempt InstallError InstallPluginRecord :=
  with_operation_lock (command_plugin_id command) PluginOperationInProgress
    (install_locked command).

(** ** Install operations left by an earlier run *)

Definition matching_installing (operation : PluginInstallOperationSummary)
    (record : option InstallPluginRecord) : option InstallPluginRecord :=
  record ← record;
  if eqb (record_status record) Installing
     && eqb (record_install_operation_id record) (Some (summary_operation_id operation))
  then Some record else None.

Definition matching_installed (operation : PluginInstallOperationSummary)
    (record : option InstallPluginRecord) : option InstallPluginRecord :=
  record ← record;
  if eqb (record_status record) Installed
     && is_none (record_install_operation_id record)
     && is_some_and (λ artifact, artifact_matches_record artifact record)
          (summary_artifact operation)
  then Some record else None.

Definition reconcile_operation (operation : PluginInstallOperationSummary)
    (record : option InstallPluginRecord) : attempt InstallError unit :=
  let plugin_id := summary_plugin_id operation in
  let operation_id := summary_operation_id operation in
  let matches record :=
    is_some_and (λ artifact, artifact_matches_record artifact record) (summary_artifact operation) in
  match summary_state operation with
  | Accepted | Building =>
      match matching_installing operation record with
      | None => abort_and_ack_result plugin_id operation_id
      | Some _ => succeed tt
      end
  | Built =>
      match matching_installing operation record with
      | Some record =>
          if negb (matches record) then fail ArtifactMismatch
          else
            finish_install plugin_id operation_id (λ value, artifact_matches_record value record);;?
            succeed tt
      | None => abort_and_ack_result plugin_id operation_id
      end
  | Finalized =>
      match matching_installing operation record with
      | Some record =>
          if negb (matches record) then fail ArtifactMismatch
          else
            port InstallInternal (call (StoreCompleteInstall plugin_id operation_id));;?
            acknowledge plugin_id operation_id
      | None =>
          match matching_installed operation record with
          | Some _ => acknowledge plugin_id operation_id
          | None => abort_and_ack_result plugin_id operation_id
          end
      end
  | Failed | Aborted =>
      aborted ←? port RuntimeUnavailable (call (AbortInstall plugin_id operation_id));
      if negb (eqb (operation_state aborted) Aborted)
         || negb (operation_identity_matches aborted plugin_id operation_id)
      then fail RuntimeUnavailable
      else
        (match matching_installing operation record with
         | Some _ => port InstallInternal (call (StoreRollbackInstall plugin_id operation_id))
         | None => succeed tt
         end);;?
        acknowledge plugin_id operation_id
  end.

(** One operation: ask for its details, keep its logs, settle it. *)
Definition reconcile_listed (plugin_id : PluginId) (operation_id : Uuid)
    (record : option InstallPluginRecord) : attempt InstallError unit :=
  detailed ←? port RuntimeUnavailable (call (InstallStatus plugin_id operation_id));
  if negb (operation_identity_matches detailed plugin_id operation_id)
  then fail RuntimeUnavailable
  else
    persist_reconciled_build_logs record detailed;;?
    reconcile_operation (operation_summary detailed) record.

Definition first_error {E A} (error : option E) (r : result E A) : option E :=
  match error, r with
  | None, Err e => Some e
  | error, _ => error
  end.

Definition reconcile_install_operations : attempt InstallError unit :=
  operations ←? port RuntimeUnavailable (call ListInstallOperations);
  records ←? port InstallInternal (call StoreListInstallRecords);
  let operations := list_operations operations in
  let listed := (λ o, (summary_plugin_id o, summary_operation_id o)) <$> operations in
  error ← prog_fold (λ error operation,
      let plugin_id := summary_plugin_id operation in
      r ← reconcile_listed plugin_id (summary_operation_id operation)
            (List.find (λ record, eqb (record_plugin_id record) plugin_id) records);
      Ret (first_error error r)) None operations;
  error ← prog_fold (λ error record,
      match record_install_operation_id record with
      | Some operation_id =>
          if eqb (record_status record) Installing
             && negb (existsb (λ entry, eqb entry (record_plugin_id record, operation_id)) listed)
          then
            r ← reconcile_listed (record_plugin_id record) operation_id (Some record);
            Ret (first_error error r)
          else Ret error
      | None => Ret error
      end) error records;
  Ret match error with Some e => Err e | None => Ok tt end.
End manager.

#[export] Hint Extern 1 (all_calls _ (port _ _)) => unfold port : calls.
#[export] Hint Extern 1 (all_calls _ (fail _)) => apply calls_ret : calls.
#[export] Hint Extern 1 (all_calls _ (succeed _)) => apply calls_ret : calls.
#[export] Hint Extern 1 (all_calls _ utc_now) => apply calls_call; reflexivity : calls.
#[export] Hint Extern 1 (all_calls _ out_of_fuel) => split; [reflexivity|done] : calls.
