(* ===== verification/PluginManagerTasks.v ===== *)
(** * The plugin manager's tasks together

    Whatever operations run as tasks of the core, in whatever interleaving of
    their calls: one operation at a time manages a plugin, a plugin is not
    removed, nor stopped by an operation that did not start it, while a content
    call is in flight, and automatic starts give up after three failures. *)

From S2P Require Import Prelude Text Domain ContentContract CredentialContract Database.
From S2P Require Import SupervisorProtocol Program PluginManager.

Section tasks.
Context {K : Codec} {P : ProtocolJson} {L : ManagerLib}.
Context (install_poll_interval install_wait_timeout : Z).

Definition discard {A} (p : prog answer A) : prog answer unit := _ ← p; Ret tt.

(** The operations the core runs: handlers of requests and background tasks. *)
Inductive manager_task : prog answer unit → Prop :=
  | TaskInstall command :
      manager_task (discard (install install_poll_interval install_wait_timeout command))
  | TaskReconcileInstalls : manager_task (discard reconcile_install_operations)
  | TaskStart plugin_id : manager_task (discard (start plugin_id))
  | TaskStop plugin_id : manager_task (discard (stop plugin_id))
  | TaskInspect plugin_id : manager_task (discard (inspect_runtime plugin_id))
  | TaskInvoke request : manager_task (discard (invoke_content request))
  | TaskUpdate command : manager_task (discard (update_settings command))
  | TaskUninstall plugin_id : manager_task (discard (uninstall plugin_id))
  | TaskReconcile now idle_timeout : manager_task (discard (reconcile_due_plugins now idle_timeout))
  | TaskCleanup : manager_task (discard cleanup_all_runtimes).

(** What the environment can answer, and what the memory becomes: a store finds
    a plugin under its own identifier. *)
Definition found_under (plugin_id : PluginId) (found : store_result (option InstallPluginRecord)) :
    Prop :=
  ∀ record, found = Ok (Some record) → record_plugin_id record = plugin_id.
Definition answers (c : ManagerCall) : answer c → Prop :=
  match c return answer c → Prop with
  | StoreGetPlugin plugin_id => found_under plugin_id
  | _ => λ _, True
  end.
Definition manager_sem (c : ManagerCall) (m : Memory) (r : answer c) (m' : Memory) : Prop :=
  if memory_call c then memory c m = Some (r, m') else m' = m ∧ answers c r.

(** ** The protocol of one task *)

Record phase := mkPhase {
  (** the operation lock it holds *)
  ph_lock : option PluginId;
  (** under that lock it has seen that no content call is in flight *)
  ph_idle : bool;
  (** under that lock it has called [start] *)
  ph_started : bool;
  (** its content call in flight *)
  ph_lease : option PluginId;
  (** under that lock it has seen fewer than three failed starts *)
  ph_below : bool;
}.
Definition phase0 : phase := mkPhase None false false None false.

Definition lifecycle_allowed (g : phase) (c : ManagerCall) : Prop :=
  match c with
  | TryOperationLock _ => ph_lock g = None
  | ReleaseOperationLock plugin_id | RuntimeStart plugin_id => ph_lock g = Some plugin_id
  | RuntimeStop plugin_id =>
      ph_lock g = Some plugin_id ∧ (ph_idle g = true ∨ ph_started g = true)
  | RuntimeRemove plugin_id | StoreDeletePlugin plugin_id =>
      ph_lock g = Some plugin_id ∧ ph_idle g = true
  | StoreSavePlugin record => ph_lock g = Some (record_plugin_id record)
  | BeginActiveCall plugin_id => ph_lock g = Some plugin_id ∧ ph_lease g = None
  | EndActiveCall plugin_id | RuntimeInvoke plugin_id _ _ => ph_lease g = Some plugin_id
  | IncrementFailures plugin_id => ph_lock g = Some plugin_id ∧ ph_below g = true
  | _ => True
  end.

Definition lifecycle_next (g : phase) (c : ManagerCall) : answer c → phase :=
  match c return answer c → phase with
  | TryOperationLock plugin_id => λ locked : bool,
      if locked then mkPhase (Some plugin_id) false false (ph_lease g) false else g
  | ReleaseOperationLock _ => λ _, mkPhase None false false (ph_lease g) false
  | HasActiveCalls plugin_id => λ active : bool,
      mkPhase (ph_lock g) (ph_idle g || eqb (ph_lock g) (Some plugin_id) && negb active)
        (ph_started g) (ph_lease g) (ph_below g)
  | RuntimeStart plugin_id => λ _,
      mkPhase (ph_lock g) (ph_idle g) (ph_started g || eqb (ph_lock g) (Some plugin_id))
        (ph_lease g) (ph_below g)
  | BeginActiveCall plugin_id => λ _,
      mkPhase (ph_lock g) false (ph_started g) (Some plugin_id) (ph_below g)
  | EndActiveCall _ => λ _, mkPhase (ph_lock g) (ph_idle g) (ph_started g) None (ph_below g)
  | FailureCount plugin_id => λ count : Z,
      mkPhase (ph_lock g) (ph_idle g) (ph_started g) (ph_lease g)
        (ph_below g || eqb (ph_lock g) (Some plugin_id) && (count <? 3))
  | IncrementFailures _ => λ _,
      mkPhase (ph_lock g) (ph_idle g) (ph_started g) (ph_lease g) false
  | _ => λ _, g
  end.

Definition lifecycle : protocol answer phase :=
  mkProtocol lifecycle_allowed (λ _, answers) lifecycle_next.

(** ** Calls that leave the phase alone *)

Definition quiet (c : ManagerCall) : bool :=
  match c with
  | TryOperationLock _ | ReleaseOperationLock _ | RuntimeStart _ | RuntimeStop _ | RuntimeRemove _
  | StoreDeletePlugin _ | StoreSavePlugin _ | BeginActiveCall _ | EndActiveCall _
  | RuntimeInvoke _ _ _ | IncrementFailures _ | HasActiveCalls _ | FailureCount _ => false
  | _ => true
  end.

Lemma quiet_neutral g c :
  quiet c = true → allowed lifecycle g c ∧ ∀ r, next lifecycle g c r = g.
Proof. by destruct c. Qed.
End tasks.

Abbreviation all_quiet := (all_calls quiet).

Section quiet_programs.
Context {K : Codec} {P : ProtocolJson} {L : ManagerLib}.
Context (install_poll_interval install_wait_timeout : Z).

Lemma acknowledge_quiet plugin_id id : all_quiet (acknowledge plugin_id id).
Proof. unfold acknowledge. auto 20 with calls. Qed.
Hint Resolve acknowledge_quiet : calls.

Lemma abort_and_ack_result_quiet plugin_id id : all_quiet (abort_and_ack_result plugin_id id).
Proof. unfold abort_and_ack_result. auto 20 with calls. Qed.
Hint Resolve abort_and_ack_result_quiet : calls.

Lemma abort_and_ack_quiet plugin_id id : all_quiet (abort_and_ack plugin_id id).
Proof. unfold abort_and_ack. auto 20 with calls. Qed.
Hint Resolve abort_and_ack_quiet : calls.

Lemma persist_build_logs_quiet staged id logs : all_quiet (persist_build_logs staged id logs).
Proof. unfold persist_build_logs. auto 20 with calls. Qed.
Hint Resolve persist_build_logs_quiet : calls.

Lemma persist_reconciled_build_logs_quiet record operation :
  all_quiet (persist_reconciled_build_logs record operation).
Proof. unfold persist_reconciled_build_logs. auto 20 with calls. Qed.
Hint Resolve persist_reconciled_build_logs_quiet : calls.

Lemma recover_ambiguous_begin_quiet fuel plugin_id id started_at :
  all_quiet (recover_ambiguous_begin install_poll_interval install_wait_timeout fuel plugin_id id
    started_at).
Proof. induction fuel as [|fuel IH]; cbn [recover_ambiguous_begin]; auto 20 with calls. Qed.
Hint Resolve recover_ambiguous_begin_quiet : calls.

Lemma give_up_build_quiet staged id logs error {A} :
  all_quiet (give_up_build staged id logs error (A := A)).
Proof. unfold give_up_build. auto 20 with calls. Qed.
Hint Resolve give_up_build_quiet : calls.

Lemma wait_until_built_quiet fuel staged id operation started_at logs :
  all_quiet (wait_until_built install_poll_interval install_wait_timeout fuel staged id operation
    started_at logs).
Proof.
  revert operation logs. induction fuel as [|fuel IH]; intros operation logs; cbn [wait_until_built];
    auto 20 with calls.
Qed.
Hint Resolve wait_until_built_quiet : calls.

Lemma authorize_quiet staged input : all_quiet (authorize_lifecycle_risk staged input).
Proof. unfold authorize_lifecycle_risk. auto 20 with calls. Qed.
Hint Resolve authorize_quiet : calls.

Lemma finish_install_quiet plugin_id id matches_ : all_quiet (finish_install plugin_id id matches_).
Proof. unfold finish_install. auto 20 with calls. Qed.
Hint Resolve finish_install_quiet : calls.

Lemma discard_build_quiet staged plugin_id id logs error {A} :
  all_quiet (discard_build staged plugin_id id logs error (A := A)).
Proof. unfold discard_build. auto 20 with calls. Qed.
Hint Resolve discard_build_quiet : calls.

Lemma install_built_quiet staged plugin_id id built logs :
  all_quiet (install_built staged plugin_id id built logs).
Proof. unfold install_built. auto 20 with calls. Qed.
Hint Resolve install_built_quiet : calls.

Lemma install_locked_quiet command :
  all_quiet (install_locked install_poll_interval install_wait_timeout command).
Proof. unfold install_locked. auto 30 with calls. Qed.
Hint Resolve install_locked_quiet : calls.

Lemma reconcile_operation_quiet operation record : all_quiet (reconcile_operation operation record).
Proof. unfold reconcile_operation. auto 20 with calls. Qed.
Hint Resolve reconcile_operation_quiet : calls.

Lemma reconcile_listed_quiet plugin_id id record : all_quiet (reconcile_listed plugin_id id record).
Proof. unfold reconcile_listed. auto 20 with calls. Qed.
Hint Resolve reconcile_listed_quiet : calls.

Lemma reconcile_install_operations_quiet : all_quiet reconcile_install_operations.
Proof. unfold reconcile_install_operations. auto 20 with calls. Qed.

Lemma persist_runtime_logs_quiet record runtime : all_quiet (persist_runtime_logs record runtime).
Proof. unfold persist_runtime_logs. auto 20 with calls. Qed.

Lemma persist_content_call_log_quiet record request event duration code :
  all_quiet (persist_content_call_log record request event duration code).
Proof. unfold persist_content_call_log. auto 20 with calls. Qed.
End quiet_programs.

#[export] Hint Resolve persist_runtime_logs_quiet persist_content_call_log_quiet
  install_locked_quiet reconcile_install_operations_quiet : calls.

(** ** Every operation keeps to the protocol *)

Section operations.
Context {K : Codec} {P : ProtocolJson} {L : ManagerLib}.
Context (install_poll_interval install_wait_timeout : Z).

(** Under the lock of a plugin, with a lease. *)
Definition under (plugin_id : PluginId) (lease : option PluginId) (g : phase) : Prop :=
  ph_lock g = Some plugin_id ∧ ph_lease g = lease.

Definition started (g : phase) : phase :=
  mkPhase (ph_lock g) (ph_idle g) true (ph_lease g) (ph_below g).

Lemma wp_quiet {A} (p : prog answer A) Q g :
  all_quiet p → (∀ a, Q a g) → wp lifecycle p Q g.
Proof. intros Hp HQ. by apply (wp_neutral _ quiet); [apply quiet_neutral|..]. Qed.

Ltac wp_calm := apply wp_quiet; [auto with calls|].

Lemma load_plugin_wp plugin_id Q g :
  (∀ error, Q (Err error) g) → (∀ record, record_plugin_id record = plugin_id → Q (Ok record) g) →
  wp lifecycle (load_plugin plugin_id) Q g.
Proof.
  intros Herr Hok. unfold load_plugin, port. wp_step. wp_step. wp_step; [done|..]; [|apply Herr].
  apply wp_ret. destruct r as [record|]; [|apply Herr]. by apply Hok, Hr.
Qed.

Lemma save_plugin_wp {E} (e : E) record Q g :
  ph_lock g = Some (record_plugin_id record) → (∀ r, Q r g) → wp lifecycle (save_plugin e record) Q g.
Proof. intros Hl HQ. unfold save_plugin, port. wp_step. by wp_step. Qed.

Lemma save_and_reload_wp record Q g :
  ph_lock g = Some (record_plugin_id record) → (∀ r, Q r g) →
  wp lifecycle (save_and_reload record) Q g.
Proof.
  intros Hl HQ. unfold save_and_reload. wp_step. apply save_plugin_wp; [done|]. intros [[]|e]; [|done].
  by apply load_plugin_wp.
Qed.

Lemma record_management_failure_wp record Q g :
  ph_lock g = Some (record_plugin_id record) → Q tt g →
  wp lifecycle (record_management_failure record) Q g.
Proof.
  intros Hl HQ. unfold record_management_failure. wp_step. wp_calm.
  intros now. wp_step. by wp_step.
Qed.

Lemma record_cleanup_failure_wp record Q g :
  ph_lock g = Some (record_plugin_id record) → Q tt g →
  wp lifecycle (record_cleanup_failure record) Q g.
Proof.
  intros Hl HQ. unfold record_cleanup_failure. wp_step. wp_calm.
  intros now. wp_step. wp_step; [|done..]. simpl. by destruct (record_status record).
Qed.

Lemma rollback_wp record error Q g :
  ph_lock g = Some (record_plugin_id record) → ph_started g = true →
  (∀ r record', record_plugin_id record' = record_plugin_id record → Q (r, record') g) →
  wp lifecycle (rollback_started_runtime record error) Q g.
Proof.
  intros Hl Hs HQ. unfold rollback_started_runtime. wp_step. wp_step; [simpl; auto|..];
    apply wp_bind.
  - apply wp_mono with (Q := λ r g', g' = g ∧ record_plugin_id r.2 = record_plugin_id record).
    + intros [cleanup record'] g' [-> Hid]. simpl in Hid. wp_step. wp_calm.
      intros now. destruct cleanup as [[]|e]; apply wp_ret, HQ; [done|]. simpl.
      repeat case_match; simpl; done.
    + destruct (validate_runtime _ _); [|done]. destruct (eqb _ _); [|done].
      wp_step. wp_calm. intros now. wp_step. by wp_calm.
  - apply wp_ret. wp_step. wp_calm. intros now. apply wp_ret, HQ. simpl.
    by repeat case_match.
Qed.

Lemma next_start g plugin_id r :
  ph_lock g = Some plugin_id → next lifecycle g (RuntimeStart plugin_id) r = started g.
Proof.
  intros Hl. unfold started. simpl. rewrite Hl. unfold eqb. rewrite bool_decide_eq_true_2 by done.
  by rewrite orb_true_r.
Qed.

Lemma start_transition_wp record Q g :
  ph_lock g = Some (record_plugin_id record) →
  (∀ r record', record_plugin_id record' = record_plugin_id record → Q (r, record') (started g)) →
  wp lifecycle (start_transition record) Q g.
Proof.
  intros Hl HQ. unfold start_transition. wp_step. wp_step; [done|..]; rewrite (next_start _ _ _ Hl);
    [|by apply wp_ret, HQ].
  assert (∀ error, wp lifecycle (rollback_started_runtime record error) Q (started g)) as Hroll
    by (intros error; by apply rollback_wp).
  destruct (validate_runtime _ _); [|apply Hroll]. wp_step. wp_calm.
  intros [[]|e]; [|apply Hroll]. wp_step. wp_step; [done|..]; [|apply Hroll].
  destruct (validate_runtime _ _); [|apply Hroll]. destruct (negb _).
  - destruct (eqb _ _); [|apply Hroll]. wp_step. wp_calm. intros now.
    by apply wp_ret, HQ.
  - wp_step. wp_calm. intros [[]|e']; [|apply Hroll].
    wp_step. wp_calm. intros used. wp_step. wp_calm.
    intros now. by apply wp_ret, HQ.
Qed.

Lemma quiet_frozen {A} (p : prog answer A) Q g u :
  all_quiet p → (∀ a, Q a tt) → wp (frozen lifecycle g) p Q u.
Proof.
  intros Hp HQ. destruct u. apply (wp_neutral _ quiet); [|done..]. intros c Hc. by split; [apply quiet_neutral|].
Qed.

Lemma stop_transition_frozen record g :
  ph_lock g = Some (record_plugin_id record) → ph_idle g = true →
  wp (frozen lifecycle g) (stop_transition record)
    (λ r _, record_plugin_id r.2 = record_plugin_id record) tt.
Proof.
  intros Hl Hi.
  unfold stop_transition. wp_step. wp_step; [simpl; auto|..]; [|done].
  destruct (validate_runtime _ _); [|done]. destruct (negb _); [done|].
  wp_step. apply quiet_frozen; [auto with calls|]. intros now. wp_step.
  by apply quiet_frozen; [auto with calls|].
Qed.

Lemma stop_transition_wp record Q g :
  ph_lock g = Some (record_plugin_id record) → ph_idle g = true →
  (∀ r record', record_plugin_id record' = record_plugin_id record → Q (r, record') g) →
  wp lifecycle (stop_transition record) Q g.
Proof.
  intros Hl Hi HQ. eapply wp_mono, frozen_wp, stop_transition_frozen; [|done..].
  intros [r record'] g' [-> Hid]. by apply HQ.
Qed.

Lemma with_operation_lock_wp {E A} plugin_id (busy : E) (body : prog answer (result E A)) g :
  ph_lock g = None → g = mkPhase None false false (ph_lease g) false →
  (∀ g', under plugin_id (ph_lease g) g' → wp lifecycle body (λ _, under plugin_id (ph_lease g)) g') →
  wp lifecycle (with_operation_lock plugin_id busy body) (λ _ g', g' = g) g.
Proof.
  intros Hl Hg Hbody. unfold with_operation_lock. wp_step. wp_step; [done|].
  destruct r; [|done]. wp_step. eapply wp_mono, Hbody; [|done]. intros r' g' [Hl' Hlease].
  wp_step. wp_step; [done|]. simpl. by rewrite Hlease.
Qed.

(** Under the lock: seeing that no call is in flight. *)
Lemma has_active_calls_wp plugin_id lease Q g :
  under plugin_id lease g →
  (∀ g', under plugin_id lease g' → Q true g') →
  (∀ g', under plugin_id lease g' → ph_idle g' = true → Q false g') →
  wp lifecycle (call (HasActiveCalls plugin_id)) Q g.
Proof.
  intros [Hl Hle] Ht Hf. wp_step; [done|]. simpl. rewrite Hl. rewrite eqb_refl. simpl.
  destruct r; simpl.
  - apply Ht. by split.
  - apply Hf; [by split|]. apply orb_true_r.
Qed.

Lemma start_wp plugin_id : wp lifecycle (start plugin_id) (λ _ g, g = phase0) phase0.
Proof.
  apply with_operation_lock_wp; [done..|]. intros g Hg. wp_step.
  eapply has_active_calls_wp; [done|intros g' Hg'; by apply wp_ret|]. intros g' [Hl Hle] Hi.
  wp_step. apply load_plugin_wp; [done|]. intros record Hid. destruct (negb _); [by apply wp_ret|].
  wp_step. apply start_transition_wp; [congruence|]. intros r record' Hid'.
  destruct r as [[]|e].
  - apply save_and_reload_wp; [simpl; congruence|]. done.
  - wp_step. apply record_management_failure_wp; [simpl; congruence|]. done.
Qed.

Lemma stop_wp plugin_id : wp lifecycle (stop plugin_id) (λ _ g, g = phase0) phase0.
Proof.
  apply with_operation_lock_wp; [done..|]. intros g Hg. wp_step.
  eapply has_active_calls_wp; [done|intros g' Hg'; by apply wp_ret|]. intros g' [Hl Hle] Hi.
  wp_step. apply load_plugin_wp; [done|]. intros record Hid.
  wp_step. apply stop_transition_wp; [congruence|done|]. intros r record' Hid'.
  destruct r as [[]|e].
  - apply save_and_reload_wp; [congruence|done].
  - wp_step. apply record_management_failure_wp; [congruence|done].
Qed.

Lemma inspect_runtime_wp plugin_id :
  wp lifecycle (inspect_runtime plugin_id) (λ _ g, g = phase0) phase0.
Proof.
  apply with_operation_lock_wp; [done..|]. intros g [Hl Hle]. wp_step.
  apply load_plugin_wp; [done|]. intros record Hid. wp_step. wp_step; [done|..].
  - destruct (validate_runtime _ _); [|done]. wp_step. wp_calm. intros [[]|e]; [|done].
    wp_step. wp_calm. intros now. apply save_and_reload_wp; [simpl; congruence|done].
  - wp_step. apply record_management_failure_wp; [simpl; congruence|done].
Qed.

Lemma ensure_started_wp record lease Q g :
  under (record_plugin_id record) lease g →
  (∀ r g', (∀ record', r = Ok record' → record_plugin_id record' = record_plugin_id record) →
     under (record_plugin_id record) lease g' → Q r g') →
  wp lifecycle (ensure_started record) Q g.
Proof.
  intros [Hl Hle] HQ. unfold ensure_started. destruct (_ || _); [by apply wp_ret, HQ|].
  destruct (negb _); [|by apply wp_ret, HQ; [intros ? [= <-]|]].
  wp_step. apply start_transition_wp; [done|]. intros r record' Hid. destruct r as [[]|e].
  - wp_step. apply save_plugin_wp; [simpl; congruence|]. intros [[]|e]; [|by apply HQ].
    apply wp_ret, HQ; [|done]. by intros ? [= <-].
  - wp_step. apply record_management_failure_wp; [simpl; congruence|]. by apply wp_ret, HQ.
Qed.

Lemma perform_call_wp record request g :
  ph_lease g = Some (record_plugin_id record) →
  wp lifecycle (perform_call record request) (λ _ g', g' = g) g.
Proof.
  intros Hle. unfold perform_call. wp_step. wp_calm. intros started_at. wp_step. wp_calm.
  intros [[]|e]; [|done]. wp_step. wp_calm. intros now. wp_step. wp_calm. intros [[]|e]; [|done].
  wp_step. wp_step; [done|..]; wp_step; wp_calm; intros ended_at.
  - destruct (PluginRpcResult_validate _) as [[]|e]; wp_step; wp_calm; by intros [[]|e'].
  - wp_step; wp_calm; by intros [[]|e'].
Qed.

Lemma invoke_content_wp request :
  wp lifecycle (invoke_content request) (λ _ g, g = phase0) phase0.
Proof.
  unfold invoke_content. destruct (_ || _); [done|]. wp_step. wp_calm. intros [].
  wp_step. wp_step; [done|]. destruct r; cbn [negb].
  2: { wp_step. wp_calm. by intros []. }
  wp_step. wp_step. apply wp_map_err, load_plugin_wp; [intros error|intros record Hid]; cbn [map_err].
  { wp_step. wp_step; [done|]. wp_step. wp_calm. by intros []. }
  apply wp_ret. destruct (validate_content_invocation _ _) as [[]|error];
    cbn [mbind result_bind].
  2: { wp_step. wp_step; [done|]. wp_step. wp_calm. by intros []. }
  wp_step. wp_step; [done|]. wp_step.
  apply (ensure_started_wp _ (Some (invocation_plugin_id request))); [by rewrite Hid|].
  rewrite Hid. intros r g Hrec [Hl Hle]. destruct r as [record'|error].
  - wp_step. wp_step; [done|]. wp_step. wp_calm. intros []. wp_step.
    eapply wp_mono, perform_call_wp; [|simpl; rewrite Hle; f_equal; symmetry; by apply Hrec].
    intros r g' ->. wp_step. wp_step; [done|]. done.
  - wp_step. wp_step; [done|]. wp_step. wp_step; [done|]. wp_step. wp_calm. intros []. done.
Qed.

Lemma update_settings_wp command :
  wp lifecycle (update_settings command) (λ _ g, g = phase0) phase0.
Proof.
  unfold update_settings. destruct (negb _); [done|]. apply with_operation_lock_wp; [done..|].
  intros g Hg. wp_step.
  apply wp_mono with (Q := λ active g', under (settings_plugin_id command) None g' ∧
    (active = false → settings_enabled command = false → ph_idle g' = true)).
  2: { destruct (settings_enabled command); [by apply wp_ret; split|].
       eapply has_active_calls_wp; [done|by intros g' Hg'; split|by intros g' Hg' Hi; split]. }
  intros active g' [[Hl Hle] Hi]. destruct active; [by apply wp_ret|].
  wp_step. apply load_plugin_wp; [done|]. intros record Hid. wp_step.
  apply wp_mono with (Q := λ r g', under (settings_plugin_id command) None g' ∧
    record_plugin_id r.2 = settings_plugin_id command).
  - intros [r record'] g'' [[Hl' Hle'] Hid']. simpl in Hid'. destruct r as [[]|e].
    + wp_step. wp_calm. intros now. apply save_and_reload_wp; [simpl; congruence|done].
    + wp_step. apply record_management_failure_wp; [congruence|done].
  - destruct (settings_enabled command); simpl.
    + destruct (eqb _ _ && _); [|by apply wp_ret].
      apply start_transition_wp; [congruence|]. intros r record' Hid'. split; [done|]. simpl. congruence.
    + destruct (record_enabled record); [|by apply wp_ret].
      apply stop_transition_wp; [congruence|by apply Hi|]. intros r record' Hid'. split; [done|].
      simpl. congruence.
Qed.

Lemma uninstall_wp plugin_id : wp lifecycle (uninstall plugin_id) (λ _ g, g = phase0) phase0.
Proof.
  apply with_operation_lock_wp; [done..|]. intros g Hg. wp_step.
  eapply has_active_calls_wp; [done|intros g' Hg'; by apply wp_ret|]. intros g' [Hl Hle] Hi.
  wp_step. apply load_plugin_wp; [done|]. intros record Hid.
  wp_step. apply stop_transition_wp; [congruence|done|]. intros r record' Hid'.
  assert (wp lifecycle (record_management_failure record';; fail (A := unit) ManagementUnavailable)
    (λ _, under plugin_id (ph_lease phase0)) g') as Hfail.
  { wp_step. apply record_management_failure_wp; [congruence|done]. }
  destruct r as [[]|e]; [|wp_step; apply record_management_failure_wp; [congruence|done]].
  wp_step. apply save_plugin_wp; [congruence|]. intros [[]|e]; [|done].
  wp_step. wp_step; [done|..]; [|exact Hfail]. destruct (_ || _); [exact Hfail|].
  unfold port. wp_step. by wp_step.
Qed.

Lemma try_reconcile_plugin_wp plugin_id now idle_timeout :
  wp lifecycle (try_reconcile_plugin plugin_id now idle_timeout) (λ _ g, g = phase0) phase0.
Proof.
  unfold try_reconcile_plugin. wp_step. wp_step; [done|]. destruct r; cbn [negb]; [|done].
  wp_step. apply wp_mono with (Q := λ _, under plugin_id None).
  { intros outcome g [Hl Hle]. wp_step. wp_step; [done|]. simpl. by rewrite Hle. }
  wp_step. apply load_plugin_wp; [done|]. intros record Hid. destruct (_ || _); [done|].
  destruct (record_run_mode record).
  - destruct (negb _); [done|]. wp_step.
    eapply has_active_calls_wp; [done|by intros g' Hg'; apply wp_ret|]. intros g' [Hl Hle] Hi.
    destruct (_ <? _); [done|]. wp_step. apply stop_transition_wp; [congruence|done|].
    intros r record' Hid'. destruct r as [[]|e].
    + wp_step. wp_step; [simpl; congruence|..]; done.
    + wp_step. apply record_management_failure_wp; [congruence|done].
  - destruct (eqb _ Healthy); [wp_step; wp_calm; by intros []|].
    wp_step. wp_step; [done|]. destruct (r >=? 3) eqn:E; [done|].
    wp_step. apply start_transition_wp; [simpl; congruence|]. intros r' record' Hid'.
    destruct r' as [[]|e].
    + wp_step. wp_step; [simpl; congruence|..]; [|done]. wp_step. wp_calm. by intros [].
    + wp_step. wp_step.
      { simpl. split; [done|]. rewrite eqb_refl. simpl. bool_prop. lia. }
      wp_step. wp_calm. intros t. wp_step. wp_step; [|done..]. simpl.
      transitivity (Some (record_plugin_id record')); [congruence|by case_match].
Qed.

Lemma reconcile_due_plugins_wp now idle_timeout :
  wp lifecycle (reconcile_due_plugins now idle_timeout) (λ _ g, g = phase0) phase0.
Proof.
  unfold reconcile_due_plugins. wp_step. wp_calm. intros [records|e]; [|done]. wp_step.
  apply wp_mono with (Q := λ _ g, g = phase0); [intros report g ->; done|].
  apply (wp_fold lifecycle _ _ _ (λ _ g, g = phase0)); [|done]. intros report plugin_id g _ ->.
  wp_step. eapply wp_mono, try_reconcile_plugin_wp. by intros outcome g ->.
Qed.

Lemma cleanup_runtime_wp record :
  wp lifecycle (cleanup_runtime_for_record record) (λ _ g, g = phase0) phase0.
Proof.
  apply with_operation_lock_wp; [done..|]. intros g Hg. wp_step.
  eapply has_active_calls_wp; [done| |].
  { intros g' [Hl Hle]. wp_step. by apply record_cleanup_failure_wp. }
  intros g' [Hl Hle] Hi. wp_step. apply load_plugin_wp; [done|]. intros record1 Hid. wp_step.
  eapply wp_mono, wp_timeout, stop_transition_frozen; [|done|done|congruence|done].
  intros [[[[]|e] record2]|] g'' [-> Hid']; [..|done]; simpl in Hid'.
  - apply save_plugin_wp; [simpl; congruence|done].
  - wp_step. apply record_cleanup_failure_wp; [congruence|done].
Qed.

Lemma cleanup_all_runtimes_wp : wp lifecycle cleanup_all_runtimes (λ _ g, g = phase0) phase0.
Proof.
  unfold cleanup_all_runtimes. wp_step. wp_calm. intros [records|e]; [|done]. wp_step.
  apply wp_mono with (Q := λ _ g, g = phase0); [intros report g ->; done|].
  apply (wp_fold lifecycle _ _ _ (λ _ g, g = phase0)); [|done]. intros [] record g _ ->.
  unfold cleanup_one. destruct (eqb _ _); [done|].
  wp_step. eapply wp_mono, cleanup_runtime_wp. by intros [] g ->.
Qed.

Lemma manager_task_wp p :
  manager_task install_poll_interval install_wait_timeout p →
  wp lifecycle p (λ _ g, g = phase0) phase0.
Proof.
  destruct 1; unfold discard; wp_step;
    [|wp_calm; done
     |eapply wp_mono, start_wp; done|eapply wp_mono, stop_wp; done
     |eapply wp_mono, inspect_runtime_wp; done|eapply wp_mono, invoke_content_wp; done
     |eapply wp_mono, update_settings_wp; done|eapply wp_mono, uninstall_wp; done
     |eapply wp_mono, reconcile_due_plugins_wp; done
     |eapply wp_mono, cleanup_all_runtimes_wp; done].
  eapply wp_mono; [|apply with_operation_lock_wp]; [done..|].
  intros g [Hl Hle]. apply wp_quiet; [auto with calls|]. done.
Qed.
End operations.

(** ** All tasks together *)

Section together.
Context {K : Codec} {P : ProtocolJson} {L : ManagerLib}.
Context (install_poll_interval install_wait_timeout : Z).

Definition leases (plugin_id : PluginId) (gs : list phase) : Z :=
  zlen (List.filter (λ g, eqb (ph_lease g) (Some plugin_id)) gs).

Record tasks_inv (m : Memory) (gs : list phase) : Prop := {
  inv_held i g p : gs !! i = Some g → ph_lock g = Some p → p ∈ operation_locks m;
  inv_unique i j g g' p : gs !! i = Some g → gs !! j = Some g' →
    ph_lock g = Some p → ph_lock g' = Some p → i = j;
  inv_active p : default 0 (active_calls m !! p) = leases p gs;
  inv_idle i g p : gs !! i = Some g → ph_lock g = Some p → ph_idle g = true → leases p gs = 0;
  inv_below i g p : gs !! i = Some g → ph_lock g = Some p → ph_below g = true →
    automatic_start_failure_count p m < 3;
  inv_failures p : automatic_start_failure_count p m ≤ 3;
}.

Definition lease_weight (plugin_id : PluginId) (g : phase) : Z :=
  if eqb (ph_lease g) (Some plugin_id) then 1 else 0.

Lemma leases_cons p g gs : leases p (g :: gs) = lease_weight p g + leases p gs.
Proof. unfold leases, lease_weight, zlen. simpl. destruct (eqb _ _); simpl; lia. Qed.

Lemma leases_app p gs gs' : leases p (gs ++ gs') = leases p gs + leases p gs'.
Proof.
  induction gs as [|g gs IH]; [done|]. rewrite <- app_comm_cons, !leases_cons, IH. lia.
Qed.

Lemma leases_insert p i g g' gs :
  gs !! i = Some g → leases p (<[i := g']> gs) = leases p gs - lease_weight p g + lease_weight p g'.
Proof.
  revert i. induction gs as [|x gs IH]; intros [|i] Hi; [done..| |]; simpl in *.
  - injection Hi as ->. rewrite !leases_cons. lia.
  - rewrite !leases_cons, (IH i Hi). lia.
Qed.

Lemma leases_bound p gs : 0 ≤ leases p gs ≤ zlen gs.
Proof.
  unfold leases, zlen. pose proof (List.filter_length_le (λ g, eqb (ph_lease g) (Some p)) gs). lia.
Qed.

Lemma leases_member p i g gs : gs !! i = Some g → ph_lease g = Some p → 0 < leases p gs.
Proof.
  intros Hi Hg. pose proof (leases_insert p i g phase0 gs Hi) as H.
  pose proof (leases_bound p (<[i := phase0]> gs)). unfold lease_weight in H. rewrite Hg, eqb_refl in H.
  simpl in H. lia.
Qed.

(** A task changes what it knows under its lock. *)
Lemma inv_learn m gs i g g' :
  tasks_inv m gs → gs !! i = Some g → ph_lock g' = ph_lock g → ph_lease g' = ph_lease g →
  (∀ p, ph_lock g = Some p → ph_idle g' = true → leases p gs = 0) →
  (∀ p, ph_lock g = Some p → ph_below g' = true → automatic_start_failure_count p m < 3) →
  tasks_inv m (<[i := g']> gs).
Proof.
  intros Hinv Hi Hl Hle Hidle Hbelow.
  assert (∀ p, leases p (<[i := g']> gs) = leases p gs) as Hleases.
  { intros p. rewrite (leases_insert p i g g' gs Hi). unfold lease_weight. rewrite Hle. lia. }
  split.
  - intros j x p [[-> ->]|[_ Hj]]%insert_cases; [rewrite Hl|]; by eapply (inv_held _ _ Hinv).
  - intros j j' x x' p [[-> ->]|[Hne Hj]]%insert_cases [[-> ->]|[Hne' Hj']]%insert_cases;
      rewrite ?Hl; intros Hx Hx'; [done|by eapply inv_unique..].
  - intros p. rewrite Hleases. by apply inv_active.
  - intros j x p [[-> ->]|[_ Hj]]%insert_cases; rewrite Hleases; [rewrite Hl; apply Hidle|].
    by eapply inv_idle.
  - intros j x p [[-> ->]|[_ Hj]]%insert_cases; [rewrite Hl; apply Hbelow|by eapply (inv_below _ _ Hinv)].
  - apply (inv_failures _ _ Hinv).
Qed.

Lemma inv_same m gs i g : tasks_inv m gs → gs !! i = Some g → tasks_inv m (<[i := g]> gs).
Proof. intros Hinv Hi. by rewrite list_insert_id. Qed.

Lemma inv_lock m gs i g p :
  tasks_inv m gs → gs !! i = Some g → ph_lock g = None → p ∉ operation_locks m →
  tasks_inv (try_operation_lock p m).2 (<[i := mkPhase (Some p) false false (ph_lease g) false]> gs).
Proof.
  intros Hinv Hi Hl Hp. unfold try_operation_lock. rewrite decide_False by done. simpl.
  set (g' := mkPhase _ _ _ _ _).
  assert (∀ p, leases p (<[i := g']> gs) = leases p gs) as Hleases.
  { intros q. rewrite (leases_insert q i g g' gs Hi). unfold lease_weight, g'. simpl. lia. }
  split; simpl.
  - intros j x q [[-> ->]|[_ Hj]]%insert_cases; simpl; [set_solver|].
    intros Hq. apply (inv_held _ _ Hinv _ _ _ Hj) in Hq. set_solver.
  - intros j j' x x' q [[-> ->]|[Hne Hj]]%insert_cases [[-> ->]|[Hne' Hj']]%insert_cases;
      intros Hx Hx'; simpl in *; simplify_eq; [done|..].
    + by apply (inv_held _ _ Hinv _ _ _ Hj') in Hx'.
    + by apply (inv_held _ _ Hinv _ _ _ Hj) in Hx.
    + by eapply inv_unique.
  - intros q. rewrite Hleases. by apply inv_active.
  - intros j x q [[-> ->]|[_ Hj]]%insert_cases; simpl; [done|]. rewrite Hleases. by eapply inv_idle.
  - intros j x q [[-> ->]|[_ Hj]]%insert_cases; simpl; [done|]. by eapply (inv_below _ _ Hinv).
  - apply (inv_failures _ _ Hinv).
Qed.

Lemma inv_release m gs i g p :
  tasks_inv m gs → gs !! i = Some g → ph_lock g = Some p →
  tasks_inv (release_operation_lock p m) (<[i := mkPhase None false false (ph_lease g) false]> gs).
Proof.
  intros Hinv Hi Hl. set (g' := mkPhase _ _ _ _ _).
  assert (∀ p, leases p (<[i := g']> gs) = leases p gs) as Hleases.
  { intros q. rewrite (leases_insert q i g g' gs Hi). unfold lease_weight, g'. simpl. lia. }
  split; simpl.
  - intros j x q [[-> ->]|[Hne Hj]]%insert_cases; simpl; [done|]. intros Hq.
    assert (q ≠ p) by (intros ->; by apply Hne, (inv_unique _ _ Hinv j i x g p)).
    apply (inv_held _ _ Hinv _ _ _ Hj) in Hq. set_solver.
  - intros j j' x x' q [[-> ->]|[Hne Hj]]%insert_cases [[-> ->]|[Hne' Hj']]%insert_cases;
      intros Hx Hx'; simpl in *; [done..|]. by eapply inv_unique.
  - intros q. rewrite Hleases. by apply inv_active.
  - intros j x q [[-> ->]|[_ Hj]]%insert_cases; simpl; [done|]. rewrite Hleases. by eapply inv_idle.
  - intros j x q [[-> ->]|[_ Hj]]%insert_cases; simpl; [done|]. by eapply (inv_below _ _ Hinv).
  - apply (inv_failures _ _ Hinv).
Qed.

Lemma inv_begin_call m gs i g p :
  tasks_inv m gs → zlen gs ≤ usize_max → gs !! i = Some g → ph_lock g = Some p → ph_lease g = None →
  tasks_inv (begin_active_call p m)
    (<[i := mkPhase (ph_lock g) false (ph_started g) (Some p) (ph_below g)]> gs).
Proof.
  intros Hinv Hlen Hi Hl Hle. set (g' := mkPhase _ _ _ _ _).
  assert (∀ q, leases q (<[i := g']> gs) = leases q gs + (if decide (q = p) then 1 else 0)) as Hleases.
  { intros q. rewrite (leases_insert q i g g' gs Hi). unfold lease_weight, g'. rewrite Hle. simpl.
    case_decide as Hq; [subst q; rewrite eqb_refl; simpl; lia|].
    destruct (eqb (Some p) (Some q)) eqn:E; [bool_prop; congruence|simpl; lia]. }
  split; simpl.
  - intros j x q [[-> ->]|[_ Hj]]%insert_cases; simpl; by eapply (inv_held _ _ Hinv).
  - intros j j' x x' q [[-> ->]|[Hne Hj]]%insert_cases [[-> ->]|[Hne' Hj']]%insert_cases;
      intros Hx Hx'; simpl in *; [done|by eapply inv_unique..].
  - intros q. rewrite Hleases. case_decide as Hq; [subst q|rewrite lookup_insert_ne by done].
    + rewrite lookup_insert_eq. simpl. rewrite (inv_active _ _ Hinv).
      pose proof (leases_bound p (<[i := g']> gs)) as Hb. rewrite Hleases, decide_True in Hb by done.
      unfold zlen in *. rewrite length_insert in Hb. lia.
    + rewrite (inv_active _ _ Hinv). lia.
  - intros j x q [[-> ->]|[Hne Hj]]%insert_cases; simpl; [done|]. intros Hq Hidle. rewrite Hleases.
    case_decide as Hqp; [subst q; exfalso; by apply Hne, (inv_unique _ _ Hinv j i x g p)|].
    rewrite (inv_idle _ _ Hinv _ _ _ Hj Hq Hidle). done.
  - intros j x q [[-> ->]|[_ Hj]]%insert_cases; simpl; by eapply (inv_below _ _ Hinv).
  - apply (inv_failures _ _ Hinv).
Qed.

Lemma inv_end_call m gs i g p :
  tasks_inv m gs → gs !! i = Some g → ph_lease g = Some p →
  tasks_inv (drop_active_call p m)
    (<[i := mkPhase (ph_lock g) (ph_idle g) (ph_started g) None (ph_below g)]> gs).
Proof.
  intros Hinv Hi Hle. set (g' := mkPhase _ _ _ _ _).
  assert (∀ q, leases q (<[i := g']> gs) = leases q gs - (if decide (q = p) then 1 else 0)) as Hleases.
  { intros q. rewrite (leases_insert q i g g' gs Hi). unfold lease_weight, g'. rewrite Hle. simpl.
    case_decide as Hq; [subst q; rewrite eqb_refl; simpl; lia|].
    destruct (eqb (Some p) (Some q)) eqn:E; [bool_prop; congruence|simpl; lia]. }
  pose proof (leases_member _ _ _ _ Hi Hle) as Hpos.
  split; simpl.
  - intros j x q [[-> ->]|[_ Hj]]%insert_cases; simpl; by eapply (inv_held _ _ Hinv).
  - intros j j' x x' q [[-> ->]|[Hne Hj]]%insert_cases [[-> ->]|[Hne' Hj']]%insert_cases;
      intros Hx Hx'; simpl in *; [done|by eapply inv_unique..].
  - intros q. rewrite Hleases. pose proof (inv_active _ _ Hinv p) as Hp.
    pose proof (inv_active _ _ Hinv q) as Hq. destruct (active_calls m !! p) as [count|] eqn:Ec; [|simpl in Hp; lia].
    simpl in Hp. case_decide as Hqp; [subst q|].
    + destruct (Z.eqb_spec (Z.max (count - 1) 0) 0); [rewrite lookup_delete_eq|rewrite lookup_insert_eq];
        simpl; lia.
    + destruct (Z.eqb_spec (Z.max (count - 1) 0) 0); [rewrite lookup_delete_ne by done|
        rewrite lookup_insert_ne by done]; lia.
  - assert (∀ q, leases q gs = 0 → leases q (<[i := g']> gs) = 0) as Hzero.
    { intros q Hq. rewrite Hleases. case_decide; [subst; lia|lia]. }
    intros j x q [[-> ->]|[Hne Hj]]%insert_cases; simpl; intros Hq Hidle;
      eapply Hzero, inv_idle; done.
  - intros j x q [[-> ->]|[_ Hj]]%insert_cases; simpl; by eapply (inv_below _ _ Hinv).
  - apply (inv_failures _ _ Hinv).
Qed.

(** The failure counters change at a plugin whose lock the task holds. *)
Lemma inv_count m m' gs i g g' p :
  tasks_inv m gs → gs !! i = Some g → ph_lock g = Some p → ph_lock g' = ph_lock g →
  ph_lease g' = ph_lease g → ph_idle g' = ph_idle g → ph_below g' = false →
  operation_locks m' = operation_locks m → active_calls m' = active_calls m →
  automatic_start_failure_count p m' ≤ 3 →
  (∀ q, q ≠ p → automatic_start_failure_count q m' = automatic_start_failure_count q m) →
  tasks_inv m' (<[i := g']> gs).
Proof.
  intros Hinv Hi Hl Hl' Hle Hidle Hb Hlocks Hact Hcount Hothers.
  assert (tasks_inv m (<[i := g']> gs)) as Hinv'.
  { eapply inv_learn; [done..| |]; [|by rewrite Hb]. rewrite Hidle. intros q. by eapply inv_idle. }
  split.
  - intros j x q. rewrite Hlocks. apply (inv_held _ _ Hinv').
  - apply (inv_unique _ _ Hinv').
  - intros q. rewrite Hact. apply (inv_active _ _ Hinv').
  - apply (inv_idle _ _ Hinv').
  - intros j x q Hj Hq Hbelow. destruct (decide (q = p)) as [->|Hne].
    + exfalso. assert (j = i) as -> by (eapply (inv_unique _ _ Hinv' j i);
        [done| |done|by rewrite Hl']; apply list_lookup_insert_eq; by eapply lookup_lt_Some).
      apply insert_cases in Hj as [[_ ->]|[? _]]; congruence.
    + rewrite Hothers by done. by eapply (inv_below _ _ Hinv').
  - intros q. destruct (decide (q = p)) as [->|Hne]; [done|]. rewrite Hothers by done.
    apply (inv_failures _ _ Hinv).
Qed.

Lemma inv_reset m gs p :
  tasks_inv m gs → tasks_inv (reset_automatic_start_failures p m) gs.
Proof.
  intros Hinv.
  assert (∀ q, automatic_start_failure_count q (reset_automatic_start_failures p m) ≤
    Z.max 0 (automatic_start_failure_count q m)) as Hle.
  { intros q. unfold automatic_start_failure_count. simpl. destruct (decide (q = p)) as [->|Hne].
    - rewrite lookup_delete_eq. simpl. lia.
    - rewrite lookup_delete_ne by done. lia. }
  split; try apply Hinv.
  - intros j x q Hj Hq Hb. specialize (Hle q). pose proof (inv_below _ _ Hinv _ _ _ Hj Hq Hb). lia.
  - intros q. specialize (Hle q). pose proof (inv_failures _ _ Hinv q). lia.
Qed.

Lemma inv_spawn m gs : tasks_inv m gs → tasks_inv m (gs ++ [phase0]).
Proof.
  intros Hinv. assert (∀ p, leases p (gs ++ [phase0]) = leases p gs) as Hl.
  { intros p. rewrite leases_app. unfold leases at 2, zlen. simpl. lia. }
  assert (∀ (j : nat) x p, (gs ++ [phase0]) !! j = Some x → ph_lock x = Some p → gs !! j = Some x) as Hold.
  { intros j x p [Hj|[_ Hx]]%lookup_app_Some Hp; [done|].
    apply list_lookup_singleton_Some in Hx as [_ <-]. done. }
  split.
  - intros j x p Hj Hp. by eapply (inv_held _ _ Hinv); [eapply Hold|].
  - intros j j' x x' p Hj Hj' Hp Hp'. eapply (inv_unique _ _ Hinv j j'); eauto.
  - intros p. rewrite Hl. apply (inv_active _ _ Hinv).
  - intros j x p Hj Hp Hi. rewrite Hl. eapply (inv_idle _ _ Hinv); eauto.
  - intros j x p Hj Hp Hb. eapply (inv_below _ _ Hinv); eauto.
  - apply (inv_failures _ _ Hinv).
Qed.

Lemma inv_other_locks m m' gs :
  operation_locks m' = operation_locks m → active_calls m' = active_calls m →
  automatic_start_failures m' = automatic_start_failures m → tasks_inv m gs → tasks_inv m' gs.
Proof.
  destruct m, m'. simpl. intros -> -> -> []. by split.
Qed.

Lemma sem_possible g c m r m' : manager_sem c m r m' → possible lifecycle g c r.
Proof. unfold manager_sem. destruct c; simpl; try done; by intros [_ H]. Qed.

Lemma step_inv m gs i g c r m' :
  tasks_inv m gs → zlen gs ≤ usize_max → gs !! i = Some g → allowed lifecycle g c →
  manager_sem c m r m' → tasks_inv m' (<[i := next lifecycle g c r]> gs).
Proof.
  intros Hinv Hlen Hi Ha Hsem.
  destruct c; unfold manager_sem in Hsem; cbn [memory_call] in Hsem;
    try solve [match type of Hsem with _ ∧ _ => destruct Hsem as [-> _]; by apply inv_same end]; simpl in Ha, Hsem |- *.
  - destruct Hsem as [-> _]. eapply inv_learn; [done..| |]; simpl; intros p; [by eapply inv_idle|].
    by eapply (inv_below _ _ Hinv).
  - unfold try_operation_lock in Hsem. case_decide as Hp; injection Hsem as <- <-; [by apply inv_same|].
    pose proof (inv_lock _ _ _ _ _ Hinv Hi Ha Hp) as Hnew. unfold try_operation_lock in Hnew.
    by rewrite decide_False in Hnew.
  - injection Hsem as _ <-. by apply inv_release.
  - unfold content_startup_lock in Hsem. case_decide; [done|]. injection Hsem as _ <-.
    apply inv_same; [|done]. by apply (inv_other_locks m).
  - injection Hsem as _ <-. apply inv_same; [|done]. by apply (inv_other_locks m).
  - injection Hsem as _ <-. destruct Ha. by apply inv_begin_call.
  - injection Hsem as _ <-. by apply inv_end_call.
  - injection Hsem as <- <-. eapply inv_learn; [done..| |]; simpl; intros p Hp.
    + intros [Hidle|[Hq Hact]%andb_prop]%orb_prop; [by eapply inv_idle|]. bool_prop.
      rewrite <- (inv_active _ _ Hinv). unfold has_active_calls in Hact.
      assert (plugin_id = p) as -> by congruence. pose proof (leases_bound p gs).
      rewrite <- (inv_active _ _ Hinv) in H. destruct (active_calls m !! p); [|done]. simpl in *.
      apply negb_true_iff in Hact. lia.
    + by eapply (inv_below _ _ Hinv).
  - injection Hsem as <- <-. eapply inv_learn; [done..| |]; simpl; intros p Hp; [by eapply inv_idle|].
    intros [Hb|[Hq Hcount]%andb_prop]%orb_prop; [by eapply (inv_below _ _ Hinv)|]. bool_prop.
    assert (plugin_id = p) as -> by congruence. lia.
  - injection Hsem as _ <-. destruct Ha as [Hl Hb].
    eapply inv_count; try done; unfold automatic_start_failure_count; simpl.
    + rewrite lookup_insert_eq. simpl. pose proof (inv_below _ _ Hinv _ _ _ Hi Hl Hb).
      unfold automatic_start_failure_count in *. lia.
    + intros q Hq. by rewrite lookup_insert_ne.
  - injection Hsem as _ <-. apply inv_same; [|done]. by apply inv_reset.
Qed.

(** ** The theorem *)

Definition memory0 : Memory := mkMemory ∅ ∅ ∅ ∅.

Definition manager_pool : Type := list (history (answer := answer) * prog answer unit).

(** The next call of a task. *)
Definition about (ps : manager_pool) (i : nat) (c : ManagerCall) : Prop :=
  ∃ h k, ps !! i = Some (h, Vis c k).

(** Calls that manage the runtime or the record of a plugin. *)
Definition manages (plugin_id : PluginId) (c : ManagerCall) : Prop :=
  match c with
  | RuntimeStart q | RuntimeStop q | RuntimeRemove q | StoreDeletePlugin q => q = plugin_id
  | StoreSavePlugin record => record_plugin_id record = plugin_id
  | _ => False
  end.

(** The task has called [start] for the plugin since it last took or released a
    lock: what the rollback of a failed start undoes. *)
Definition locks (c : ManagerCall) : bool :=
  match c with TryOperationLock _ | ReleaseOperationLock _ => true | _ => false end.
Definition has_started (plugin_id : PluginId) (h : history (answer := answer)) : Prop :=
  ∃ before r after, h = before ++ existT (RuntimeStart plugin_id) r :: after ∧
    Forall (λ e, locks (projT1 e) = true → ∃ q, e = existT (TryOperationLock q) false) after.

Lemma ghost_started h plugin_id :
  ph_lock (ghost lifecycle phase0 h) = Some plugin_id →
  ph_started (ghost lifecycle phase0 h) = true → has_started plugin_id h.
Proof.
  unfold ghost. induction h as [|e h IH] using rev_ind; [done|]. rewrite foldl_snoc.
  match goal with |- context [foldl ?f phase0 h] => set (g := foldl f phase0 h) in * end.
  destruct e as [c r]. simpl.
  assert (∀ c r, (locks c = true → ∃ q, existT c r = existT (TryOperationLock q) false) →
    has_started plugin_id h → has_started plugin_id (h ++ [existT c r])) as Hsnoc.
  { intros c' r' Hq (before & r0 & after & -> & Hall). exists before, r0, (after ++ [existT c' r']).
    rewrite <- app_assoc. split; [done|]. apply Forall_app. split; [done|]. by apply Forall_singleton. }
  intros Hl Hs. destruct c; simpl in *; try (by apply Hsnoc; [|apply IH]); try done.
  - apply orb_prop in Hs as [Hs|Hs]; [by apply Hsnoc; [|apply IH]|]. bool_prop.
    assert (plugin_id0 = plugin_id) as -> by congruence. by exists h, r, [].
  - destruct r; [done|]. apply Hsnoc; [|by apply IH]. intros _. by eexists.
Qed.

Lemma reachable_inv ps m :
  rtc (pool_step manager_sem (manager_task install_poll_interval install_wait_timeout))
    ([], memory0) (ps, m) →
  zlen ps ≤ usize_max →
  Forall (λ t, wp lifecycle t.2 (λ _ g, g = phase0) (ghost lifecycle phase0 t.1)) ps ∧
  tasks_inv m ((ghost lifecycle phase0 ∘ fst) <$> ps).
Proof.
  intros Hrun Hlen.
  destruct (pool_invariant manager_sem (manager_task install_poll_interval install_wait_timeout)
    lifecycle phase0 (λ m gs, zlen gs ≤ usize_max → tasks_inv m gs) (λ _ g, g = phase0))
    with (s := memory0) (ps' := ps) (s' := m) as [Hwp Hinv]; [..|done|].
  - apply manager_task_wp.
  - intros s gs Hgs Hl. apply inv_spawn, Hgs. unfold zlen in *. rewrite length_app in Hl. simpl in Hl. lia.
  - intros s gs i g c r s' Hgs Hi Ha Hsem. split; [by eapply sem_possible|]. intros Hl.
    unfold zlen in *. rewrite length_insert in Hl. by eapply step_inv; [apply Hgs|..].
  - intros _. split; try done; by intros [].
  - split; [done|]. apply Hinv. unfold zlen in *. by rewrite length_fmap.
Qed.

Lemma about_phase (ps : manager_pool) i c h k :
  Forall (λ t, wp lifecycle t.2 (λ _ g, g = phase0) (ghost lifecycle phase0 t.1)) ps →
  ps !! i = Some (h, Vis c k) →
  ((ghost lifecycle phase0 ∘ fst) <$> ps) !! i = Some (ghost lifecycle phase0 h) ∧
  allowed lifecycle (ghost lifecycle phase0 h) c.
Proof.
  intros Hwp Hi. split; [rewrite list_lookup_fmap; by setoid_rewrite Hi|].
  by apply (Forall_lookup_1 _ _ _ _ Hwp Hi).
Qed.

(** C27. Whatever operations run together, in whatever interleaving and with whatever
    answers of the store and the runtime: at most one task is about to start,
    stop, remove, save or delete a plugin; a plugin is not removed or deleted
    while a content call to it is about to be made; a task that is about to stop a
    plugin at such a moment has itself called [start] for it under the lock it
    holds (the rollback of a failed start stops the runtime whether or not calls
    are in flight; no other stop does); and a plugin is started automatically only
    until three starts have failed. *)
Theorem manager_tasks_exclusive ps m :
  rtc (pool_step manager_sem (manager_task install_poll_interval install_wait_timeout))
    ([], memory0) (ps, m) →
  zlen ps ≤ usize_max →
  (∀ i j c c' p, about ps i c → about ps j c' → manages p c → manages p c' → i = j) ∧
  (∀ i j c p method params, about ps i c → c = RuntimeRemove p ∨ c = StoreDeletePlugin p →
     ¬ about ps j (RuntimeInvoke p method params)) ∧
  (∀ i j p h k method params, ps !! i = Some (h, Vis (RuntimeStop p) k) →
     about ps j (RuntimeInvoke p method params) → has_started p h) ∧
  ∀ p, automatic_start_failure_count p m ≤ 3.
Proof.
  intros Hrun Hlen. destruct (reachable_inv _ _ Hrun Hlen) as [Hwp Hinv].
  assert (∀ p g c, manages p c → allowed lifecycle g c → ph_lock g = Some p) as Hmanages.
  { intros p g [] Hm Ha; simpl in *; naive_solver. }
  assert (∀ i j h c k p method params, ps !! i = Some (h, Vis c k) →
    ph_lock (ghost lifecycle phase0 h) = Some p → ph_idle (ghost lifecycle phase0 h) = true →
    ¬ about ps j (RuntimeInvoke p method params)) as Hidle.
  { intros i j h c k p method params Hi Hl Hidle (h' & k' & Hj).
    destruct (about_phase _ _ _ _ _ Hwp Hi) as [Hgi _], (about_phase _ _ _ _ _ Hwp Hj) as [Hgj Haj].
    pose proof (leases_member _ _ _ _ Hgj Haj) as Hpos.
    rewrite (inv_idle _ _ Hinv _ _ _ Hgi Hl Hidle) in Hpos. lia. }
  split_and!; [| | |apply (inv_failures _ _ Hinv)].
  - intros i j c c' p (h & k & Hi) (h' & k' & Hj) Hc Hc'.
    destruct (about_phase _ _ _ _ _ Hwp Hi) as [Hgi Hai], (about_phase _ _ _ _ _ Hwp Hj) as [Hgj Haj].
    eapply (inv_unique _ _ Hinv i j); [done..|exact (Hmanages _ _ _ Hc Hai)|exact (Hmanages _ _ _ Hc' Haj)].
  - intros i j c p method params (h & k & Hi) Hc. destruct (about_phase _ _ _ _ _ Hwp Hi) as [_ Ha].
    eapply Hidle; [done|..]; destruct Hc as [->| ->]; apply Ha.
  - intros i j p h k method params Hi Hj. destruct (about_phase _ _ _ _ _ Hwp Hi) as [_ [Hl [Hid|Hs]]].
    + by destruct (Hidle _ _ _ _ _ _ _ _ Hi Hl Hid Hj).
    + by apply ghost_started.
Qed.
End together.
