(* ===== verification/PluginManagerInstall.v ===== *)
(** * Installing a plugin

    The order in which [install] may call the store, the snapshots and the
    supervisor, whatever they answer, and that its waiting loops end. *)

From S2P Require Import Prelude Text Domain ContentContract CredentialContract Database.
From S2P Require Import SupervisorProtocol Program PluginManager.

Section install.
Context {K : Codec} {P : ProtocolJson} {L : ManagerLib}.
Context (install_poll_interval install_wait_timeout : Z).
Context (command : InstallPluginCommand).

(** ** The protocol *)

(** What an installation knows from the answers so far. *)
Record install_phase := mkInstallPhase {
  (** the staged plugin, and that the store has no record of it *)
  ip_staged : option StagedPlugin;
  ip_free : bool;
  (** the authorizer agreed, and the grant the store has taken *)
  ip_authorized : bool;
  ip_grant : option LifecycleRiskGrant;
  (** the prepared operation, and whether the supervisor was told to begin it *)
  ip_operation : option Uuid;
  ip_begun : bool;
  (** the artifact if the last report of the operation was that it is built *)
  ip_built : option PluginInstallArtifact;
  (** the record is in the store; the supervisor has finalized the operation *)
  ip_inserted : bool;
  ip_finalized : bool;
  (** the record as completed; the operation as aborted; as acknowledged *)
  ip_completed : option InstallPluginRecord;
  ip_aborted : bool;
  ip_acknowledged : bool;
}.
Definition install0 : install_phase :=
  mkInstallPhase None false false None None false None false false None false false.

Definition plugin : PluginId := command_plugin_id command.

(** A plugin whose installation runs scripts needs an approval, the authorizer's
    agreement and a stored grant for this plugin, commit and reason; any other
    plugin gets no grant. *)
Definition consented (g : install_phase) (staged : StagedPlugin)
    (grant : option LifecycleRiskGrant) : Prop :=
  if staged_requires_lifecycle_scripts staged then
    explicitly_approved (command_lifecycle_risk command) = true ∧ ip_authorized g = true ∧
    ∃ given, grant = Some given ∧ ip_grant g = Some given ∧
      grant_repository_id given = staged_repository_id staged ∧
      grant_plugin_id given = plugin ∧
      grant_commit_sha given = staged_commit_sha staged ∧
      grant_risk_kind given = LIFECYCLE_RISK_KIND ∧
      staged_lifecycle_script_reason staged = Some (grant_reason given)
  else grant = None.

Definition install_allowed (g : install_phase) (c : ManagerCall) : Prop :=
  match c with
  | SnapshotPrepareInstall snapshot_id plugin_id grant =>
      snapshot_id = command_snapshot_id command ∧ plugin_id = plugin ∧ ip_free g = true ∧
      ∃ staged, ip_staged g = Some staged ∧ consented g staged grant
  | BeginInstall plugin_id id =>
      plugin_id = plugin ∧ ip_operation g = Some id ∧ ip_begun g = false
  | StoreInsertInstalling record =>
      ip_aborted g = false ∧
      ∃ staged id artifact now, ip_staged g = Some staged ∧ ip_operation g = Some id ∧
        ip_built g = Some artifact ∧ artifact_matches_staged artifact staged = true ∧
        record = install_record staged id artifact now
  | FinalizeInstall plugin_id id =>
      plugin_id = plugin ∧ ip_operation g = Some id ∧ ip_inserted g = true
  | StoreCompleteInstall plugin_id id =>
      plugin_id = plugin ∧ ip_operation g = Some id ∧ ip_finalized g = true
  | AbortInstall plugin_id id =>
      plugin_id = plugin ∧ ip_operation g = Some id ∧ ip_inserted g = false
  | AcknowledgeInstall plugin_id id =>
      plugin_id = plugin ∧ ip_operation g = Some id ∧
      (ip_aborted g = true ∨ is_Some (ip_completed g))
  | StoreRollbackInstall _ _ | StoreSavePlugin _ | StoreDeletePlugin _ | RuntimeStart _
  | RuntimeStop _ | RuntimeRemove _ | RuntimeInvoke _ _ _ => False
  | _ => True
  end.

(** A snapshot answers with the plugin it was asked for. *)
Definition install_possible (c : ManagerCall) : answer c → Prop :=
  match c return answer c → Prop with
  | SnapshotLoadPlugin _ plugin_id _ => λ r : store_result StagedPlugin,
      ∀ staged, r = Ok staged → PluginManifest_id (staged_manifest staged) = plugin_id
  | _ => λ _, True
  end.

Definition reported_artifact (g : install_phase) (operation : PluginInstallOperation) :
    option PluginInstallArtifact :=
  if eqb (operation_state operation) Built
     && is_some_and (operation_identity_matches operation plugin) (ip_operation g)
  then operation_artifact operation else None.

Definition set_built_report (g : install_phase) (r : store_result PluginInstallOperation) :
    install_phase :=
  mkInstallPhase (ip_staged g) (ip_free g) (ip_authorized g) (ip_grant g) (ip_operation g) true
    (match r with Ok operation => reported_artifact g operation | Err _ => None end)
    (ip_inserted g) (ip_finalized g) (ip_completed g) (ip_aborted g) (ip_acknowledged g).

Definition finalized_as_staged (g : install_phase) (operation : PluginInstallOperation) : bool :=
  eqb (operation_state operation) Finalized
  && is_some_and (operation_identity_matches operation plugin) (ip_operation g)
  && is_some_and (λ staged, is_some_and (λ artifact, artifact_matches_staged artifact staged)
                              (operation_artifact operation)) (ip_staged g).

Definition install_next (g : install_phase) (c : ManagerCall) : answer c → install_phase :=
  let '(mkInstallPhase staged free authorized grant operation begun built inserted finalized
          completed aborted acknowledged) := g in
  let mine o := is_some_and (operation_identity_matches o plugin) operation in
  match c return answer c → install_phase with
  | SnapshotLoadPlugin _ _ _ => λ r : store_result StagedPlugin,
      mkInstallPhase (match r with Ok s => Some s | Err _ => None end) free authorized grant
        operation begun built inserted finalized completed aborted acknowledged
  | StoreListInstallRecords => λ r : store_result (list InstallPluginRecord),
      mkInstallPhase staged
        (match r with
         | Ok records => forallb (λ record, negb (eqb (record_plugin_id record) plugin)) records
         | Err _ => false
         end) authorized grant operation begun built inserted finalized completed aborted acknowledged
  | Authorize _ => λ r : result LifecycleAuthorizationError unit,
      mkInstallPhase staged free (is_ok r) grant operation begun built inserted finalized completed
        aborted acknowledged
  | StorePersistRiskGrant given => λ r : store_result unit,
      mkInstallPhase staged free authorized (if is_ok r then Some given else None) operation begun
        built inserted finalized completed aborted acknowledged
  | SnapshotPrepareInstall _ _ _ => λ r : store_result PreparedOperation,
      mkInstallPhase staged free authorized grant
        (match r with Ok prepared => Some (prepared_operation_id prepared) | Err _ => None end) begun
        built inserted finalized completed aborted acknowledged
  | BeginInstall _ _ => set_built_report g
  | InstallStatus _ _ => set_built_report g
  | StoreInsertInstalling _ => λ r : store_result unit,
      mkInstallPhase staged free authorized grant operation begun built (is_ok r) finalized completed
        aborted acknowledged
  | FinalizeInstall _ _ => λ r : store_result PluginInstallOperation,
      mkInstallPhase staged free authorized grant operation begun built inserted
        (match r with Ok o => finalized_as_staged g o | Err _ => false end) completed aborted
        acknowledged
  | StoreCompleteInstall _ _ => λ r : store_result InstallPluginRecord,
      mkInstallPhase staged free authorized grant operation begun built inserted finalized
        (match r with Ok record => Some record | Err _ => None end) aborted acknowledged
  | AbortInstall _ _ => λ r : store_result PluginInstallOperation,
      mkInstallPhase staged free authorized grant operation begun built inserted finalized completed
        (match r with Ok o => eqb (operation_state o) Aborted && mine o | Err _ => false end)
        acknowledged
  | AcknowledgeInstall _ _ => λ r : store_result PluginInstallOperation,
      mkInstallPhase staged free authorized grant operation begun built inserted finalized completed
        aborted (match r with Ok o => operation_acknowledged o && mine o | Err _ => false end)
  | _ => λ _, g
  end.

Definition installing : protocol answer install_phase :=
  mkProtocol install_allowed (λ _, install_possible) install_next.

(** ** Keeping to it *)

Definition plain (c : ManagerCall) : bool :=
  match c with
  | StorePersistBuildLog _ | UtcNow | InstantNow | Sleep _ | NewUuid | OutOfFuel
  | TryOperationLock _ | ReleaseOperationLock _ => true
  | _ => false
  end.

Lemma wp_plain {A} (p : prog answer A) Q g :
  all_calls plain p → (∀ a, Q a g) → wp installing p Q g.
Proof. apply wp_neutral. intros [] Hc; try done; by destruct g. Qed.

Ltac wp_plain := apply wp_plain; [auto 20 with calls|].

Lemma persist_build_logs_plain staged id logs : all_calls plain (persist_build_logs staged id logs).
Proof. unfold persist_build_logs. auto 20 with calls. Qed.
Hint Resolve persist_build_logs_plain : calls.

(** Waiting for the build: nothing is recorded or aborted yet. *)
Definition waiting (staged : StagedPlugin) (id : Uuid) (g : install_phase) : Prop :=
  ip_staged g = Some staged ∧ ip_operation g = Some id ∧ ip_inserted g = false ∧
  ip_aborted g = false.

(** A failed installation has not recorded the plugin. *)
Definition unrecorded {A} (r : result InstallError A) (g : install_phase) : Prop :=
  is_ok r = false ∧ ip_inserted g = false.

Lemma acknowledge_wp id g (Q : result InstallError unit → install_phase → Prop) :
  ip_operation g = Some id → ip_aborted g = true ∨ is_Some (ip_completed g) →
  (∀ r g', ip_inserted g' = ip_inserted g → ip_completed g' = ip_completed g →
     ip_aborted g' = ip_aborted g →
     (r = Ok tt → ip_acknowledged g' = true) → Q r g') →
  wp installing (acknowledge plugin id) Q g.
Proof.
  intros Hop Hsettled HQ. unfold acknowledge, port. wp_step. wp_step.
  wp_step; [done|..]; [|by apply HQ; destruct g].
  destruct (operation_acknowledged r) eqn:Ea, (operation_identity_matches r plugin id) eqn:E;
    apply wp_ret, HQ; destruct g; simpl in *; subst; simpl; rewrite ?Ea, ?E; done.
Qed.

Lemma abort_and_ack_result_wp staged id g :
  waiting staged id g →
  wp installing (abort_and_ack_result plugin id) (λ _ g', ip_inserted g' = false) g.
Proof.
  intros (Hs & Hop & Hi & Ha). unfold abort_and_ack_result, port. wp_step. wp_step.
  wp_step; [done|..]; [|by destruct g]. destruct (_ || _) eqn:E; [by destruct g|].
  apply orb_false_iff in E as [E1%negb_false_iff E2%negb_false_iff].
  apply acknowledge_wp; [by destruct g| |].
  - left. destruct g. simpl in *. subst. simpl. by rewrite E1, E2.
  - intros r' g' Hins _ _ _. rewrite Hins. by destruct g.
Qed.

Lemma abort_and_ack_wp staged id g :
  waiting staged id g → wp installing (abort_and_ack plugin id) (λ _ g', ip_inserted g' = false) g.
Proof.
  intros Hg. unfold abort_and_ack. wp_step. eapply wp_mono, abort_and_ack_result_wp; [|done].
  by intros r g' Hi.
Qed.

Lemma give_up_build_wp staged id logs error g {A} :
  PluginManifest_id (staged_manifest staged) = plugin → waiting staged id g →
  wp installing (give_up_build staged id logs error (A := A)) unrecorded g.
Proof.
  intros Hid Hg. unfold give_up_build. rewrite Hid. wp_step. wp_plain. intros log_result.
  wp_step. eapply wp_mono, abort_and_ack_result_wp; [|done]. intros [[]|e] g' Hi; [|done].
  wp_step. by destruct log_result as [[]|e].
Qed.

Lemma discard_build_wp staged id logs error g {A} :
  waiting staged id g →
  wp installing (discard_build staged plugin id logs error (A := A)) unrecorded g.
Proof.
  intros Hg. unfold discard_build. wp_step. eapply wp_mono, abort_and_ack_wp; [|done].
  intros [] g' Hi. wp_step. wp_plain. by intros [[]|e].
Qed.

Lemma waiting_report staged id g r : waiting staged id g → waiting staged id (set_built_report g r).
Proof. by destruct g. Qed.

(** What the report in hand says of the artifact. *)
Definition in_hand (operation : PluginInstallOperation) (g : install_phase) : Prop :=
  ip_built g = reported_artifact g operation.

Lemma out_of_fuel_wp {A} (Q : result InstallError A → install_phase → Prop) g :
  Q (Err InstallTimeout) g → wp installing out_of_fuel Q g.
Proof. intros HQ. split; [done|]. intros [] _. by destruct g. Qed.

Lemma recover_wp fuel staged id started_at g :
  waiting staged id g →
  wp installing (recover_ambiguous_begin install_poll_interval install_wait_timeout fuel plugin id
      started_at)
    (λ r g', match r with
             | Ok operation => waiting staged id g' ∧ in_hand operation g'
             | Err _ => ip_inserted g' = false
             end) g.
Proof.
  revert g. induction fuel as [|fuel IH]; intros g Hg; cbn [recover_ambiguous_begin];
    [apply out_of_fuel_wp, Hg|].
  wp_step. wp_step; [done|..].
  - apply wp_ret. destruct g. split; [by apply waiting_report|done].
  - wp_step. wp_plain. intros now. destruct (_ <? _).
    + wp_step. wp_plain. intros []. apply IH. by destruct g.
    + wp_step. eapply wp_mono, (abort_and_ack_wp staged); [|by destruct g]. done.
Qed.

Definition built_post (staged : StagedPlugin) (id : Uuid)
    (r : result InstallError (PluginInstallOperation * list PluginBuildLog)) (g : install_phase) :
    Prop :=
  match r with
  | Ok (operation, _) => waiting staged id g ∧ ip_built g = operation_artifact operation
  | Err _ => ip_inserted g = false
  end.

Lemma wait_until_built_wp fuel staged id operation started_at logs g :
  PluginManifest_id (staged_manifest staged) = plugin →
  waiting staged id g → in_hand operation g →
  wp installing (wait_until_built install_poll_interval install_wait_timeout fuel staged id operation
      started_at logs) (built_post staged id) g.
Proof.
  intros Hid. revert operation logs g. induction fuel as [|fuel IH]; intros operation logs g Hg Hhand;
    cbn [wait_until_built]; [apply out_of_fuel_wp, Hg|].
  pose proof Hg as (Hs & Hop & Hi & Ha). rewrite Hid.
  assert (∀ error, wp installing (give_up_build staged id
      (merge_build_logs logs (operation_build_logs operation)) error) (built_post staged id) g) as Hgive.
  { intros error. eapply wp_mono, give_up_build_wp; [|done..]. by intros [[]|e] g' [? ?]. }
  destruct (negb _) eqn:E; [done|]. apply negb_false_iff in E.
  destruct (operation_state operation) eqn:Est; cbv zeta iota; [| | |done|apply Hgive|apply Hgive].
  3: { apply wp_ret. split; [done|]. rewrite Hhand. unfold reported_artifact. rewrite Est, Hop. simpl.
       by rewrite E. }
  all: wp_step; wp_plain; intros now; destruct (_ >=? _); [apply Hgive|];
    wp_step; wp_plain; intros []; wp_step; wp_step; [done|..];
    [apply IH; by destruct g|wp_step; wp_plain; by intros [[]|e]; destruct g].
Qed.

Definition with_grant (g : install_phase) (grant : option LifecycleRiskGrant) : install_phase :=
  mkInstallPhase (ip_staged g) (ip_free g) (ip_authorized g) grant (ip_operation g) (ip_begun g)
    (ip_built g) (ip_inserted g) (ip_finalized g) (ip_completed g) (ip_aborted g)
    (ip_acknowledged g).

Lemma authorize_wp staged g :
  ip_staged g = Some staged → PluginManifest_id (staged_manifest staged) = plugin →
  ip_inserted g = false → ip_aborted g = false →
  wp installing (authorize_lifecycle_risk staged (command_lifecycle_risk command))
    (λ r g', ip_inserted g' = false ∧ match r with
       | Ok grant => ip_staged g' = Some staged ∧ ip_free g' = ip_free g ∧ ip_begun g' = ip_begun g ∧
           ip_aborted g' = false ∧
           consented (with_grant g' grant) staged grant
       | Err _ => True
       end) g.
Proof.
  intros Hs Hid Hi Ha. unfold authorize_lifecycle_risk, consented.
  destruct (staged_requires_lifecycle_scripts staged); cbn [negb]; [|apply wp_ret; by repeat split].
  destruct (explicitly_approved _); cbn [negb]; [|done]. wp_step. wp_step. wp_step; [done|..]; [|by destruct g].
  destruct (staged_lifecycle_script_reason staged) as [reason|]; [|by destruct g].
  wp_step. wp_plain. intros id. wp_step. wp_plain. intros now. apply wp_ret. destruct g. simpl in *.
  subst. split_and!; try done. eexists. by repeat split.
Qed.

Lemma finish_install_wp staged id g :
  ip_staged g = Some staged → ip_operation g = Some id → ip_inserted g = true →
  ip_aborted g = false →
  wp installing (finish_install plugin id (λ value, artifact_matches_staged value staged))
    (λ r g', ip_aborted g' = false ∧
       ∀ record, r = Ok record → ip_completed g' = Some record ∧ ip_acknowledged g' = true) g.
Proof.
  intros Hs Hop Hi Ha. unfold finish_install, port. wp_step. wp_step. wp_step; [done|..]; [|by destruct g].
  destruct (_ || _) eqn:E; [by destruct g|].
  apply orb_false_iff in E as [[E1%negb_false_iff E2%negb_false_iff]%orb_false_iff E3%negb_false_iff].
  wp_step. wp_step. wp_step.
  { split_and!; [done|by destruct g|]. destruct g. simpl in *. subst. unfold finalized_as_staged. simpl.
    by rewrite E1, E2, E3. }
  - wp_step. apply acknowledge_wp; [by destruct g|right; by destruct g|].
    intros [[]|e] g' _ Hc Hab Hack; [|split; [rewrite Hab; by destruct g|done]].
    apply wp_ret. split; [rewrite Hab; by destruct g|]. intros record [= <-].
    split; [rewrite Hc; by destruct g|by apply Hack].
  - by destruct g.
Qed.

(** A recorded plugin's operation was not aborted; a success returns the completed
    record of an acknowledged operation. *)
Definition install_post (r : result InstallError InstallPluginRecord) (g : install_phase) : Prop :=
  (ip_inserted g = true → ip_aborted g = false) ∧
  ∀ record, r = Ok record → ip_completed g = Some record ∧ ip_acknowledged g = true.

Lemma install_built_wp staged id built logs g :
  waiting staged id g → ip_built g = operation_artifact built →
  wp installing (install_built staged plugin id built logs)
    install_post g.
Proof.
  intros Hg Hbuilt. unfold install_built.
  assert (∀ error g, waiting staged id g → wp installing (discard_build staged plugin id logs error)
    install_post g) as Hdiscard.
  { intros error g' Hg'. eapply wp_mono, discard_build_wp; [|done]. intros [record|e] g'' [? Hi]; [done|].
    by split; [rewrite Hi|]. }
  destruct (operation_artifact built) as [artifact|] eqn:Ea;
    cbn [mbind option_bind]; [|by apply Hdiscard].
  destruct (artifact_matches_staged artifact staged) eqn:Em; [|by apply Hdiscard].
  pose proof Hg as (Hs & Hop & Hi & Ha). wp_step. wp_plain. intros now. wp_step.
  wp_step; [by split; [|eauto 10]|..].
  - wp_step. wp_plain. intros [[]|e]; [|by destruct g].
    eapply wp_mono, finish_install_wp; [|by destruct g..]. by intros r' g' [? ?].
  - apply Hdiscard. by destruct g.
Qed.

Lemma install_waiting_wp fuel staged id initial started_at g :
  PluginManifest_id (staged_manifest staged) = plugin → waiting staged id g → in_hand initial g →
  wp installing (built ←? wait_until_built install_poll_interval install_wait_timeout fuel staged id
        initial started_at [];
      let '(built, build_logs) := built in install_built staged plugin id built build_logs)
    install_post g.
Proof.
  intros Hid Hg Hhand. wp_step. eapply wp_mono, wait_until_built_wp; [|done..].
  intros [[built logs]|e] g'; [intros [Hg' Hb']; by apply install_built_wp|].
  intros Hi. by split; [rewrite Hi|].
Qed.

Lemma install_locked_wp g :
  g = install0 →
  wp installing (install_locked install_poll_interval install_wait_timeout command)
    install_post g.
Proof.
  intros ->. unfold install_locked. fold plugin. wp_step. wp_plain. intros now.
  wp_step. wp_step. wp_step; [done|..]; [|done]. rename r into staged.
  assert (PluginManifest_id (staged_manifest staged) = plugin) as Hid by (by apply Hr).
  wp_step. unfold port at 1. wp_step. wp_step; [done|..]; [|done]. rename r into records.
  destruct (List.find _ records) as [existing|] eqn:Ef; [done|].
  assert (forallb (λ record, negb (eqb (record_plugin_id record) plugin)) records = true) as Hfree.
  { apply forallb_forall. intros record Hin. by apply negb_true_iff, (List.find_none _ _ Ef). }
  wp_step. eapply wp_mono, authorize_wp; [|done..].
  intros [grant|e] g1 [Hi1 Hg1]; [|by split; [rewrite Hi1|]].
  destruct Hg1 as (Hs1 & Hf1 & Hb1 & Ha1 & Hc1). wp_step.
  apply wp_mono with (Q := λ r g2, ip_inserted g2 = false ∧ (r = Ok tt → ip_staged g2 = Some staged ∧
    ip_free g2 = true ∧ ip_begun g2 = false ∧ ip_aborted g2 = false ∧ consented g2 staged grant)).
  2: { assert (ip_free g1 = true) as Hf by (rewrite Hf1; exact Hfree). destruct grant as [given|].
       - unfold port. wp_step. wp_step; [done|..]; [|by destruct g1]. destruct g1. by split_and!.
       - apply wp_ret. split; [done|]. intros _. split_and!; try done. revert Hc1. unfold consented.
         destruct (staged_requires_lifecycle_scripts staged); [|done]. by intros (_ & _ & ? & ? & _). }
  intros [[]|e] g2 [Hi2 Hg2]; [|by split; [rewrite Hi2|]].
  destruct (Hg2 eq_refl) as (Hs2 & Hf2 & Hb2 & Ha2 & Hc2). wp_step. wp_step.
  wp_step; [by split_and!; eauto|..]; [|by split; destruct g2]. rename r into prepared.
  set (id := prepared_operation_id prepared). set (g3 := next _ g2 _ _).
  assert (waiting staged id g3 ∧ ip_begun g3 = false) as [Hg3 Hb3] by (unfold g3; by destruct g2).
  clearbody g3. clear -Hg3 Hb3 Hid.
  wp_step. wp_plain. intros started_at. wp_step. wp_step; [by destruct Hg3 as (_ & ? & _)|..];
    set (g4 := next _ g3 _ _); assert (waiting staged id g4) as Hg4 by (unfold g4; by destruct g3).
  - wp_step. apply wp_ret, install_waiting_wp; [done..|]. unfold g4. by destruct g3.
  - wp_step. eapply wp_mono, (recover_wp _ staged); [|done].
    intros [initial|e] g5; [intros [? ?]; by apply install_waiting_wp|].
    intros Hi. by split; [rewrite Hi|].
Qed.

(** The lock around an operation concerns no phase. *)
Lemma with_lock_wp {A} plugin_id (body : prog answer (result InstallError A)) Q g :
  wp installing body Q g → Q (Err PluginOperationInProgress) g →
  wp installing (with_operation_lock plugin_id PluginOperationInProgress body) Q g.
Proof.
  intros Hbody Hbusy. unfold with_operation_lock. wp_step. wp_plain. intros [|]; [|done].
  wp_step. eapply wp_mono, Hbody. intros r g' Hg'. wp_step. wp_plain. done.
Qed.

(** C28. Whatever the store, the snapshots, the authorizer and the supervisor answer,
    [install] keeps to the protocol: an operation is prepared only for a plugin
    the store does not have and, where scripts run, with approval, agreement and
    a stored grant; it is begun once; the plugin is recorded only when the
    supervisor has reported an artifact that is the staged plugin's; only a
    recorded plugin is finalized, only a finalized one completed, and an
    operation is aborted only while the plugin is not recorded.  On success the
    record is the completed one and the operation acknowledged. *)
Theorem install_keeps_protocol :
  wp installing (install install_poll_interval install_wait_timeout command) install_post install0.
Proof. apply with_lock_wp; [by apply install_locked_wp|done]. Qed.
End install.

(** ** Waiting ends *)

Section ends.
Context {K : Codec} {P : ProtocolJson} {L : ManagerLib}.
Context (install_poll_interval install_wait_timeout : Z).

(** A clock that does not go back, and a sleep that lasts at least as long as it
    should; the ghost state is a lower bound of the time.  No loop may run out of
    its turns. *)
Definition clocked : protocol answer Z := mkProtocol
  (λ _ c, match c with OutOfFuel => False | _ => True end)
  (λ t c, match c return answer c → Prop with InstantNow => λ now : Z, t ≤ now | _ => λ _, True end)
  (λ t c, match c return answer c → Z with
          | InstantNow => λ now : Z, now
          | Sleep duration => λ _, t + duration
          | _ => λ _, t
          end).

Definition timeless (c : ManagerCall) : bool :=
  match c with InstantNow | Sleep _ | OutOfFuel => false | _ => true end.

Lemma wp_timeless {A} (p : prog answer A) Q t : all_calls timeless p → (∀ a, Q a t) → wp clocked p Q t.
Proof. apply wp_neutral. by intros [] Hc. Qed.

Ltac wp_timeless := apply wp_timeless; [auto 20 with calls|].

Lemma persist_build_logs_timeless staged id logs :
  all_calls timeless (persist_build_logs staged id logs).
Proof. unfold persist_build_logs. auto 20 with calls. Qed.
Hint Resolve persist_build_logs_timeless : calls.

Lemma acknowledge_timeless plugin_id id : all_calls timeless (acknowledge plugin_id id).
Proof. unfold acknowledge. auto 20 with calls. Qed.
Hint Resolve acknowledge_timeless : calls.

Lemma abort_timeless plugin_id id : all_calls timeless (abort_and_ack_result plugin_id id).
Proof. unfold abort_and_ack_result. auto 20 with calls. Qed.
Hint Resolve abort_timeless : calls.

Lemma abort_and_ack_timeless plugin_id id : all_calls timeless (abort_and_ack plugin_id id).
Proof. unfold abort_and_ack. auto 20 with calls. Qed.
Hint Resolve abort_and_ack_timeless : calls.

Lemma give_up_build_timeless staged id logs error {A} :
  all_calls timeless (give_up_build staged id logs error (A := A)).
Proof. unfold give_up_build. auto 20 with calls. Qed.
Hint Resolve give_up_build_timeless : calls.

Lemma install_built_timeless staged plugin_id id built logs :
  all_calls timeless (install_built staged plugin_id id built logs).
Proof. unfold install_built, discard_build, finish_install. auto 20 with calls. Qed.
Hint Resolve install_built_timeless : calls.

Lemma authorize_timeless staged input : all_calls timeless (authorize_lifecycle_risk staged input).
Proof. unfold authorize_lifecycle_risk. auto 20 with calls. Qed.
Hint Resolve authorize_timeless : calls.

Hypothesis poll_positive : 0 < install_poll_interval.
Hypothesis timeout_nonnegative : 0 ≤ install_wait_timeout.

Abbreviation fuel0 := (install_fuel install_poll_interval install_wait_timeout).

(** The time that has passed for the turns that are used. *)
Definition on_time (fuel : nat) (started_at t : Z) : Prop :=
  (1 ≤ fuel)%nat ∧ started_at ≤ t ∧
  (Z.of_nat fuel0 - Z.of_nat fuel) * install_poll_interval ≤ t - started_at.

Lemma fuel0_Z : Z.of_nat fuel0 = install_wait_timeout / install_poll_interval + 2.
Proof.
  unfold install_fuel. rewrite Z2Nat.id; [done|].
  pose proof (Z.div_pos install_wait_timeout install_poll_interval). lia.
Qed.

Lemma on_time_start started_at t : started_at ≤ t → on_time fuel0 started_at t.
Proof.
  intros Ht. pose proof fuel0_Z.
  pose proof (Z.div_pos install_wait_timeout install_poll_interval). split_and!; lia.
Qed.

(** Before the deadline there is a turn left after this one. *)
Lemma on_time_next fuel started_at t now :
  on_time (S fuel) started_at t → t ≤ now → now - started_at < install_wait_timeout →
  on_time fuel started_at (now + install_poll_interval).
Proof.
  intros (_ & Hs & Ht) Hnow Hd. pose proof fuel0_Z as Hf.
  pose proof (Z.div_mod install_wait_timeout install_poll_interval) as Hdiv.
  pose proof (Z.mod_pos_bound install_wait_timeout install_poll_interval poll_positive) as Hmod.
  split_and!; nia.
Qed.

Lemma recover_ends fuel plugin_id id started_at t :
  on_time fuel started_at t →
  wp clocked (recover_ambiguous_begin install_poll_interval install_wait_timeout fuel plugin_id id
    started_at) (λ _ t', started_at ≤ t') t.
Proof.
  revert t. induction fuel as [|fuel IH]; intros t Ht; [destruct Ht; lia|].
  pose proof Ht as (_ & Hs & _). cbn [recover_ambiguous_begin]. wp_step. wp_step; [done|..]; [done|].
  wp_step. wp_step; [done|]. simpl in Hr. destruct (Z.ltb_spec (r0 - started_at) install_wait_timeout).
  - wp_step. wp_step; [done|]. by eapply IH, on_time_next.
  - wp_step. wp_timeless. intros []. apply wp_ret. simpl in *. lia.
Qed.

Lemma wait_ends fuel staged id operation started_at logs t :
  on_time fuel started_at t →
  wp clocked (wait_until_built install_poll_interval install_wait_timeout fuel staged id operation
    started_at logs) (λ _ _, True) t.
Proof.
  revert operation logs t. induction fuel as [|fuel IH]; intros operation logs t Ht; [destruct Ht; lia|].
  cbn [wait_until_built]. destruct (negb _); [done|]. cbv zeta.
  destruct (operation_state operation); [| |done|done|by wp_timeless..].
  all: wp_step; wp_step; [done|]; simpl in Hr;
    destruct (Z.geb_spec (r - started_at) install_wait_timeout); [by wp_timeless|];
    wp_step; wp_step; [done|]; wp_step; wp_step; [done|..];
    [by eapply IH, on_time_next|by wp_timeless].
Qed.

(** C29. With a clock that does not go back and sleeps that are not cut short, an
    installation comes to an end whatever the ports answer: both waiting loops
    stop at the deadline and the turns of the model are enough for them. *)
Theorem install_ends command t :
  wp clocked (install install_poll_interval install_wait_timeout command) (λ _ _, True) t.
Proof.
  unfold install, with_operation_lock. wp_step. wp_timeless. intros [|]; [|done]. wp_step.
  apply wp_mono with (Q := λ _ _, True); [intros; wp_step; by wp_timeless|].
  unfold install_locked. wp_step. wp_timeless. intros now. wp_step. wp_timeless.
  intros [staged|e]; [|done]. wp_step. wp_timeless. intros [records|e]; [|done].
  destruct (List.find _ _); [done|]. wp_step. wp_timeless. intros [grant|e]; [|done].
  wp_step. wp_timeless. intros [[]|e]; [|done]. wp_step. wp_timeless. intros [prepared|e]; [|done].
  wp_step. wp_step; [done|]. rename r into started_at. wp_step. wp_timeless. intros begun.
  wp_step. apply wp_mono with (Q := λ _ t', started_at ≤ t').
  - intros [initial|e] t' Ht'; [|done]. wp_step. eapply wp_mono, wait_ends; [|by apply on_time_start].
    intros [[built logs]|e] t'' _; [|done]. by wp_timeless.
  - destruct begun as [initial|e]; [simpl; lia|]. by apply recover_ends, on_time_start.
Qed.
End ends.
