(* ===== verification/PluginManagerFaults.v ===== *)
(** * Where the plugin manager and its ports disagree

    The plugin manager run against the supervisor's operations
    (InstallOperation.v): a build that failed can never be acknowledged.  And a
    change of settings that fails after the runtime was stopped leaves the plugin
    recorded as healthy. *)

From S2P Require Import Prelude Text Domain ContentContract CredentialContract Stateful Database.
From S2P Require Import SupervisorProtocol Fs InstallOperation InstallOperationProps InstallFiles.
From S2P Require Import Program PluginManager.

(** ** The supervisor behind the port *)

Section supervisor.
Context {K : Codec} {P : ProtocolJson} {L : ManagerLib} {J : OperationJson}.
Context {W : Type} {A : InstallBuildAdapter W}.
Context (root : path) (installation_id : string).
(** the other ports, with a state of their own, and the supervisor's clock *)
Context {D : Type} (rest : ∀ c, D → answer c * D) (now : time).

Definition asked {B} (m : act (Ops W) InstallOperationError B) (s : Ops W * D) :
    store_result B * (Ops W * D) :=
  let '(r, o) := m s.1 in (map_err (λ _, PluginRuntimeUnavailable) r, (o, s.2)).

Definition with_supervisor (c : ManagerCall) (s : Ops W * D) : answer c * (Ops W * D) :=
  match c return answer c * (Ops W * D) with
  | BeginInstall plugin_id id =>
      asked (operation ← begin_locked root installation_id plugin_id id now; mret operation.1) s
  | InstallStatus plugin_id id => asked (status plugin_id id) s
  | FinalizeInstall plugin_id id => asked (finalize root installation_id plugin_id id now) s
  | AbortInstall plugin_id id => asked (abort root installation_id plugin_id id now) s
  | AcknowledgeInstall plugin_id id => asked (InstallOperation.acknowledge root plugin_id id now) s
  | ListInstallOperations => (Ok (list_ops installation_id s.1), s)
  | c => let '(r, d) := rest c s.2 in (r, (s.1, d))
  end.

Definition same_records (o : Ops W) (s : Ops W * D) : Prop := ops_state s.1 = ops_state o.

(** Calls that do not concern the supervisor. *)
Definition elsewhere (c : ManagerCall) : bool :=
  match c with
  | BeginInstall _ _ | InstallStatus _ _ | FinalizeInstall _ _ | AbortInstall _ _
  | AcknowledgeInstall _ _ | ListInstallOperations => false
  | _ => true
  end.

Lemma run_elsewhere {B} (p : prog answer B) s :
  all_calls elsewhere p → (run with_supervisor p s).2.1 = s.1.
Proof.
  unfold all_calls. revert s. induction p as [b|c k IH]; intros s; [done|]. intros [Hc Hk]. simpl in Hc.
  assert (∃ r d, with_supervisor c s = (r, (s.1, d))) as (r & d & Hh).
  { destruct c; try done; simpl; destruct (rest _ _); eauto. }
  simpl. rewrite Hh. rewrite IH; [done|]. by apply (Hk r).
Qed.

Lemma run_try {E B B'} (p : prog answer (result E B)) (f : B → prog answer (result E B')) s :
  run with_supervisor (prog_try p f) s =
  match run with_supervisor p s with
  | (Ok b, s) => run with_supervisor (f b) s
  | (Err e, s) => (Err e, s)
  end.
Proof. unfold prog_try. rewrite run_bind. by destruct (run with_supervisor p s) as [[b|e] s']. Qed.

(** A loop of port calls fails with the ports' error only. *)
Lemma run_each_error {E B} (e : E) (f : B → prog answer (result E unit)) l s :
  (∀ x s e', (run with_supervisor (f x) s).1 = Err e' → e' = e) →
  ∀ e', (run with_supervisor (prog_each f l) s).1 = Err e' → e' = e.
Proof.
  intros Hf. revert s. induction l as [|x l IH]; intros s e'; [done|]. cbn [prog_each]. rewrite run_try.
  specialize (Hf x s). destruct (run with_supervisor (f x) s) as [[[]|e1] s1]; [apply IH|]. apply Hf.
Qed.

Lemma run_logs_error log_record (l : list PluginBuildLog) s e :
  (run with_supervisor (prog_each (λ log,
     now ← utc_now; port InstallInternal (call (StorePersistBuildLog (log_record log now)))) l) s).1 =
    Err e → e = InstallInternal.
Proof.
  apply run_each_error. intros log s1 e'. rewrite run_bind.
  destruct (run with_supervisor utc_now s1) as [t s2]. unfold port, prog_map_err. rewrite run_bind.
  cbn [call run].
  match goal with |- context [with_supervisor ?c s2] => destruct (with_supervisor c s2) as [r s3] end.
  simpl in r. destruct r; simpl; congruence.
Qed.

Section failed.
Context (plugin_id : PluginId) (id : Uuid) (o : Ops W) (stored : StoredOperation).
Hypothesis known : operations (ops_state o) !! id = Some stored.
Hypothesis failed : operation_state (stored_operation stored) = Failed.

(** The supervisor's records are as before, and the answer is one of these. *)
Definition refused {B} (errors : list InstallError) (out : result InstallError B * (Ops W * D)) : Prop :=
  ops_state out.2.1 = ops_state o ∧ ∃ e, out.1 = Err e ∧ e ∈ errors.

Lemma abort_call_refused o1 d :
  ops_state o1 = ops_state o →
  ∃ o', with_supervisor (AbortInstall plugin_id id) (o1, d) = (Err PluginRuntimeUnavailable, (o', d)) ∧
    ops_state o' = ops_state o.
Proof.
  intros Ho. destruct (abort_finished_refused root installation_id plugin_id id now o1 stored)
    as (e & o' & He & Hs & _); [by rewrite Ho|by left|].
  exists o'. simpl. unfold asked. simpl. rewrite He. split; [done|congruence].
Qed.

Lemma abort_and_ack_refused s :
  ops_state s.1 = ops_state o →
  refused [RuntimeUnavailable] (run with_supervisor (abort_and_ack_result plugin_id id) s).
Proof.
  intros Ho. destruct s as [o1 d]. destruct (abort_call_refused o1 d Ho) as (o' & Hc & Ho').
  unfold abort_and_ack_result. rewrite run_try. unfold port, prog_map_err. rewrite run_bind.
  cbn [call run]. rewrite Hc. split; [done|]. eexists. split; [done|]. set_solver.
Qed.

Lemma logs_elsewhere staged logs : all_calls elsewhere (persist_build_logs staged id logs).
Proof. unfold persist_build_logs. auto 20 with calls. Qed.

Lemma reconciled_logs_elsewhere record operation :
  all_calls elsewhere (persist_reconciled_build_logs record operation).
Proof. unfold persist_reconciled_build_logs. auto 20 with calls. Qed.

Lemma reconcile_failed_refused record d :
  refused [RuntimeUnavailable; InstallInternal]
    (run with_supervisor (reconcile_listed plugin_id id record) (o, d)).
Proof.
  unfold reconcile_listed. rewrite run_try. unfold port, prog_map_err. rewrite run_bind.
  cbn [call run with_supervisor]. unfold asked, status, mbind, act_bind, locked_operation, matching_operation.
  simpl. rewrite known. simpl.
  destruct (negb (eqb _ plugin_id)); simpl; [split; [done|]; eexists; split; [done|set_solver]|].
  destruct (negb _) eqn:Em; [split; [done|]; eexists; split; [done|set_solver]|].
  apply negb_false_iff, andb_prop in Em as [Hp Hi]. bool_prop. rewrite run_try.
  pose proof (run_elsewhere _ (o, d) (reconciled_logs_elsewhere record (stored_operation stored))) as Ho.
  assert (∀ e, (run with_supervisor (persist_reconciled_build_logs record (stored_operation stored))
    (o, d)).1 = Err e → e = InstallInternal) as He by (intros e; apply run_logs_error).
  destruct (run with_supervisor _ (o, d)) as [[[]|e] [o1 d1]]; simpl in Ho, He; subst o1;
    [|split; [done|]; exists e; split; [done|]; rewrite (He e eq_refl); set_solver].
  unfold reconcile_operation. simpl. rewrite failed, run_try. unfold port, prog_map_err. rewrite run_bind.
  cbn [call run]. rewrite Hp, Hi. destruct (abort_call_refused o d1 eq_refl) as (o' & Hc & Ho').
  rewrite Hc. split; [done|]. eexists. split; [done|set_solver].
Qed.

Lemma wait_failed_refused poll timeout fuel staged started_at logs s :
  ops_state s.1 = ops_state o → PluginManifest_id (staged_manifest staged) = plugin_id →
  refused [RuntimeUnavailable]
    (run with_supervisor (wait_until_built poll timeout (S fuel) staged id (stored_operation stored)
       started_at logs) s).
Proof.
  intros Ho Hid. cbn [wait_until_built]. destruct (negb _).
  { split; [done|]. eexists. split; [done|set_solver]. }
  rewrite failed. unfold give_up_build. rewrite run_bind, Hid. cbv zeta.
  set (all_logs := merge_build_logs _ _).
  pose proof (run_elsewhere _ s (logs_elsewhere staged all_logs)) as Hs.
  destruct (run with_supervisor _ s) as [log_result s1]. simpl in Hs. rewrite run_try.
  destruct (abort_and_ack_refused s1) as [Hs1 (e & He & Hin)]; [congruence|].
  destruct (run with_supervisor (abort_and_ack_result _ _) s1) as [r s2]. simpl in *. subst r.
  split; [done|]. by exists e.
Qed.
End failed.

(** C40. A build that failed stays: reconciling its operation fails and leaves the
    supervisor's record as it is, not acknowledged, whatever the other ports do;
    and an installation that waits for it ends with [RuntimeUnavailable], never
    with [BuildFailed]. *)
Theorem failed_builds_stay plugin_id id (o : Ops W) stored record d poll timeout fuel staged started_at :
  operations (ops_state o) !! id = Some stored →
  operation_state (stored_operation stored) = Failed →
  PluginManifest_id (staged_manifest staged) = plugin_id →
  (let '(r, (o', _)) := run with_supervisor (reconcile_listed plugin_id id record) (o, d) in
   is_ok r = false ∧ operations (ops_state o') !! id = Some stored) ∧
  (let '(r, (o', _)) := run with_supervisor (wait_until_built poll timeout (S fuel) staged id
                          (stored_operation stored) started_at []) (o, d) in
   r = Err RuntimeUnavailable ∧ operations (ops_state o') !! id = Some stored).
Proof.
  intros Hk Hf Hid. split.
  - destruct (reconcile_failed_refused plugin_id id o stored Hk Hf record d) as [Hs (e & He & _)].
    destruct (run _ _ _) as [r [o' d']]. simpl in *. subst r. by rewrite Hs.
  - destruct (wait_failed_refused plugin_id id o stored Hk Hf poll timeout fuel staged started_at []
      (o, d)) as [Hs (e & He & Hin)]; [done..|].
    destruct (run _ _ _) as [r [o' d']]. simpl in *. subst r. rewrite Hs. split; [|done].
    set_solver.
Qed.
End supervisor.

(** ** Settings that fail *)

Section settings.
Context {K : Codec} {P : ProtocolJson} {L : ManagerLib}.
Context (record : InstallPluginRecord) (runtime stopped : PluginRuntimeState Json) (now : time).

(** A runtime that starts but cannot be inspected, and is then stopped; the state
    is what the store has saved and whether the runtime is running. *)
Definition uninspectable (c : ManagerCall) (s : list InstallPluginRecord * bool) :
    option (answer c * (list InstallPluginRecord * bool)) :=
  match c return option (answer c * (list InstallPluginRecord * bool)) with
  | TryOperationLock _ => Some (true, s)
  | ReleaseOperationLock _ => Some (tt, s)
  | StoreGetPlugin _ => Some (Ok (Some (default record (last s.1))), s)
  | StoreSavePlugin saved => Some (Ok tt, (s.1 ++ [saved], s.2))
  | RuntimeStart _ => Some (Ok runtime, (s.1, true))
  | RuntimeInspect _ => Some (Err PluginRuntimeUnavailable, s)
  | RuntimeStop _ => Some (Ok stopped, (s.1, false))
  | UtcNow => Some (now, s)
  | _ => None
  end.
Definition answered_by {S} (script : ∀ c, S → option (answer c * S)) (h : ∀ c, S → answer c * S) :
    Prop :=
  ∀ c s r, script c s = Some r → h c s = r.

(** A healthy plugin is to run always instead of on demand, and its start fails:
    the runtime is stopped, but the plugin is saved as healthy, so that the next
    content call does not start it. *)
Theorem settings_failure_leaves_healthy h (plugin_id : PluginId) priority :
  answered_by uninspectable h →
  record_plugin_id record = plugin_id → record_status record = Healthy →
  record_run_mode record = OnDemand → record_enabled record = true →
  validate_runtime runtime plugin_id = Ok tt → runtime_state_logs runtime = [] →
  validate_runtime stopped plugin_id = Ok tt → runtime_state_status stopped = Stopped →
  runtime_state_logs stopped = [] → 0 ≤ priority ≤ 1000 →
  run h (update_settings (mkUpdatePluginSettingsCommand plugin_id true Always priority)) ([], true) =
    (Err ManagementUnavailable, ([set_error (Some FAILED_ACTION) now record], false)) ∧
  record_status (set_error (Some FAILED_ACTION) now record) = Healthy.
Proof.
  intros Hh <- Hst Hmode Hen Hrt Hrl Hsv Hss Hsl Hprio. split; [|done].
  unfold update_settings. simpl.
  assert ((0 <=? priority) && (priority <=? 1000) = true) as -> by (apply andb_true_iff; lia). simpl.
  rewrite (Hh (TryOperationLock _) _ _ eq_refl). simpl.
  rewrite (Hh (StoreGetPlugin _) _ _ eq_refl). simpl. rewrite Hen, Hmode. simpl.
  rewrite (Hh (RuntimeStart _) _ _ eq_refl). simpl. rewrite Hrt. simpl.
  unfold persist_runtime_logs. rewrite Hrl. simpl.
  rewrite (Hh (RuntimeInspect _) _ _ eq_refl). simpl.
  rewrite (Hh (RuntimeStop _) _ _ eq_refl). simpl. rewrite Hsv, Hss. simpl.
  rewrite (Hh UtcNow _ _ eq_refl). unfold persist_runtime_logs. rewrite Hsl. simpl.
  rewrite (Hh UtcNow _ _ eq_refl). simpl. rewrite (Hh UtcNow _ _ eq_refl). simpl.
  rewrite (Hh (StoreSavePlugin _) _ _ eq_refl). simpl.
  by rewrite (Hh (ReleaseOperationLock _) _ _ eq_refl).
Qed.
End settings.
