(* ===== verification/StoreAdapter.v ===== *)
(** * The plugin manager's store on the database

    [SqlitePluginManagerStore] and the risk authorizer of
    crates/audiodown-server/src/plugin_manager_adapters.rs: the ports of the
    plugin manager for what it keeps, on the repositories of PluginStore.v. *)

From S2P Require Import Prelude Text Domain ContentContract CredentialContract Foreign Stateful.
From S2P Require Import Database PluginStore SupervisorProtocol Redaction Program.
From S2P Require Import PluginManager.

(** The contexts of log entries ([serde_json::json!]) and [Uuid::new_v5] in the
    namespace of object identifiers. *)
Class AdapterJson {K : Codec} := {
  build_log_context : PluginBuildLogRecord → Json;
  call_log_context : string → string → Z → Json;
  uuid_new_v5 : list byte → Uuid;
  u64_to_string : Z → string;
}.

Record DevelopmentConfig := mkDevelopmentConfig {
  development_enabled : bool;
  development_token : option string;
}.

Section adapter.
Context {K : Codec} {A : AdapterJson} {B : Encoding}.

Definition non_empty (value : string) : option string :=
  if str_is_empty value then None else Some value.

Definition parse_log_level (level : string) : LogLevel :=
  if eqb level "trace" then LogTrace
  else if eqb level "debug" then LogDebug
  else if eqb level "warn" then LogWarn
  else if eqb level "error" then LogError
  else LogInfo.

Definition storage_record (record : InstallPluginRecord) : PluginRecord := {|
  PluginRecord_plugin_id := record_plugin_id record;
  PluginRecord_plugin_type := record_plugin_type record;
  PluginRecord_platform_id := record_platform_id record;
  PluginRecord_name := record_name record;
  PluginRecord_version := record_version record;
  PluginRecord_protocol_version := record_protocol_version record;
  PluginRecord_source_kind := "github";
  PluginRecord_source_ref := record_source_ref record;
  PluginRecord_commit_sha := Some (record_commit_sha record);
  PluginRecord_repository_id := Some (record_repository_id record);
  PluginRecord_manifest_json := record_manifest_json record;
  PluginRecord_manifest_hash := record_manifest_hash record;
  PluginRecord_source_hash := Some (record_source_hash record);
  PluginRecord_image_id := record_image_id record;
  PluginRecord_status := record_status record;
  PluginRecord_run_mode := record_run_mode record;
  PluginRecord_priority := record_priority record;
  PluginRecord_enabled := record_enabled record;
  PluginRecord_last_error := record_last_error record;
  PluginRecord_install_operation_id := record_install_operation_id record;
  PluginRecord_last_used_at := record_last_used_at record;
  PluginRecord_installed_at := record_installed_at record;
  PluginRecord_updated_at := record_updated_at record;
|}.

Definition manager_record (record : PluginRecord) (operation_id : Uuid) : InstallPluginRecord := {|
  record_operation_id := operation_id;
  record_plugin_id := PluginRecord_plugin_id record;
  record_plugin_type := PluginRecord_plugin_type record;
  record_platform_id := PluginRecord_platform_id record;
  record_name := PluginRecord_name record;
  record_version := PluginRecord_version record;
  record_protocol_version := PluginRecord_protocol_version record;
  record_source_ref := PluginRecord_source_ref record;
  record_commit_sha := default "" (PluginRecord_commit_sha record);
  record_repository_id := default "" (PluginRecord_repository_id record);
  record_manifest_json := PluginRecord_manifest_json record;
  record_manifest_hash := PluginRecord_manifest_hash record;
  record_source_hash := default "" (PluginRecord_source_hash record);
  record_image_id := PluginRecord_image_id record;
  record_status := PluginRecord_status record;
  record_run_mode := PluginRecord_run_mode record;
  record_priority := PluginRecord_priority record;
  record_enabled := PluginRecord_enabled record;
  record_last_error := PluginRecord_last_error record;
  record_install_operation_id := PluginRecord_install_operation_id record;
  record_last_used_at := PluginRecord_last_used_at record;
  record_installed_at := PluginRecord_installed_at record;
  record_updated_at := PluginRecord_updated_at record;
|}.

Definition uuid_nil : Uuid := 0.

(** [.map_err(|_| PluginManagerError::PluginStateUnavailable)] *)
Definition stored {T} (m : act Store StorageError T) : act Store PluginManagerError T :=
  map_errors (λ _, PluginStateUnavailable) m.

Definition sqlite_is_installed (plugin_id : PluginId) : act Store PluginManagerError bool :=
  record ← stored (get_plugin plugin_id);
  mret (is_some record).

Definition sqlite_persist_risk_grant (grant : LifecycleRiskGrant) :
    act Store PluginManagerError unit :=
  stored (replace_commit_grant {|
    risk_id := grant_id grant;
    risk_repository_id := grant_repository_id grant;
    risk_plugin_id := grant_plugin_id grant;
    risk_commit_sha := grant_commit_sha grant;
    risk_risk_kind := grant_risk_kind grant;
    risk_reason := grant_reason grant;
    risk_granted_at := grant_granted_at grant |}).

Definition sqlite_insert_installing (record : InstallPluginRecord) :
    act Store PluginManagerError unit :=
  stored (insert_installing (storage_record record)).

(** The repository reads the clock. *)
Definition sqlite_complete_install (now : time) (plugin_id : PluginId) (operation_id : Uuid) :
    act Store PluginManagerError InstallPluginRecord :=
  stored (complete_install now plugin_id operation_id);;
  found ← stored (get_plugin plugin_id);
  record ← pure (ok_or found PluginStateUnavailable);
  mret (manager_record record operation_id).

Definition sqlite_rollback_install (plugin_id : PluginId) (operation_id : Uuid) :
    act Store PluginManagerError unit :=
  stored (rollback_install plugin_id operation_id).

Definition sqlite_list_install_records : act Store PluginManagerError (list InstallPluginRecord) :=
  records ← stored list_plugins;
  mret (map (λ record, manager_record record
               (default uuid_nil (PluginRecord_install_operation_id record))) records).

Definition sqlite_persist_build_log (record : PluginBuildLogRecord) :
    act Store PluginManagerError unit :=
  stored (append_log_if_absent {|
    log_id := uuid_new_v5 (bytes (uuid_to_string (build_record_operation_id record) ++ ":"
                                  ++ u64_to_string (build_record_sequence record)));
    log_timestamp := build_record_timestamp record;
    log_level := match build_record_stream record with Stderr => LogWarn | _ => LogInfo end;
    log_component := "plugin-build";
    log_message := build_record_message record;
    log_plugin_id := Some (PluginId_as_str (build_record_plugin_id record));
    log_plugin_version := non_empty (build_record_plugin_version record);
    log_platform_id := non_empty (build_record_platform_id record);
    log_request_id := Some (uuid_to_string (build_record_operation_id record));
    log_task_id := None;
    log_container_id := None;
    log_error_code := None;
    log_context := build_log_context record |}).

Definition sqlite_get_plugin (plugin_id : PluginId) :
    act Store PluginManagerError (option InstallPluginRecord) :=
  found ← stored (get_plugin plugin_id);
  mret ((λ record, manager_record record uuid_nil) <$> found).

Definition sqlite_save_plugin (record : InstallPluginRecord) : act Store PluginManagerError unit :=
  stored (upsert_plugin (storage_record record)).

Definition sqlite_delete_plugin (plugin_id : PluginId) : act Store PluginManagerError unit :=
  stored (delete_plugin plugin_id).

Definition sqlite_persist_runtime_log (id : Uuid) (record : PluginRuntimeLogRecord) :
    act Store PluginManagerError unit :=
  stored (append_log {|
    log_id := id;
    log_timestamp := runtime_record_timestamp record;
    log_level := parse_log_level (runtime_record_level record);
    log_component := "plugin-runtime";
    log_message := runtime_record_message record;
    log_plugin_id := Some (PluginId_as_str (runtime_record_plugin_id record));
    log_plugin_version := non_empty (runtime_record_plugin_version record);
    log_platform_id := non_empty (runtime_record_platform_id record);
    log_request_id := None;
    log_task_id := None;
    log_container_id := runtime_record_container_id record;
    log_error_code := None;
    log_context := runtime_record_context record |}).

Definition sqlite_touch (now : time) (plugin_id : PluginId) (last_used_at : time) :
    act Store PluginManagerError unit :=
  stored (touch now plugin_id last_used_at).

Definition sqlite_persist_content_call_log (id : Uuid) (record : ContentCallLogRecord) :
    act Store PluginManagerError unit :=
  let '(message, event) :=
    match call_log_event record with
    | CallStarted => ("Plugin content call started", "started")
    | CallSucceeded => ("Plugin content call succeeded", "succeeded")
    | CallFailed => ("Plugin content call failed", "failed")
    end in
  stored (append_log {|
    log_id := id;
    log_timestamp := call_log_timestamp record;
    log_level := if eqb (call_log_event record) CallFailed then LogWarn else LogInfo;
    log_component := "plugin-content";
    log_message := message;
    log_plugin_id := Some (PluginId_as_str (call_log_plugin_id record));
    log_plugin_version := non_empty (call_log_plugin_version record);
    log_platform_id := non_empty (call_log_platform_id record);
    log_request_id := Some (call_log_request_id record);
    log_task_id := None;
    log_container_id := None;
    log_error_code := call_log_error_code record;
    log_context := call_log_context (ContentMethod_capability (call_log_method record)) event
                     (call_log_duration_ms record) |}).

(** ** The authorizer *)

Definition secret_matches (expected supplied : string) : bool :=
  eqb (sha256 (bytes expected)) (sha256 (bytes supplied)).

Definition configured_authorize (development : DevelopmentConfig) (token : option string) :
    result LifecycleAuthorizationError unit :=
  if negb (development_enabled development) then Err DeveloperModeRequired
  else
    match development_token development, token with
    | Some expected, Some supplied =>
        if negb (secret_matches expected supplied) then Err TokenRequired else Ok tt
    | _, _ => Err TokenRequired
    end.
End adapter.
