(* ===== verification/StoreAdapterProps.v ===== *)
(** * What the plugin manager leaves in the database

    The store of StoreAdapter.v gives back what it was given, finds a plugin
    under its own identifier, and a successful installation that runs on it has
    recorded the plugin it installed. *)

From S2P Require Import Prelude Text Domain ContentContract CredentialContract Foreign Stateful.
From S2P Require Import Database CredentialStore CredentialStoreFacts PluginStore GrantProps.
From S2P Require Import SupervisorProtocol Redaction Program PluginManager PluginManagerTasks.
From S2P Require Import PluginManagerInstall StoreAdapter.

Section rows.
Context {K : Codec} {A : AdapterJson} {B : Encoding} `{!CodecLaws K}.

(** A record whose identifier, times and operation have a text form. *)
Record record_ok (r : PluginRecord) : Prop := {
  ok_plugin : PluginId_parse (PluginId_as_str (PluginRecord_plugin_id r)) = Ok (PluginRecord_plugin_id r);
  ok_operation id : PluginRecord_install_operation_id r = Some id → uuid_value id;
  ok_used t : PluginRecord_last_used_at r = Some t → rfc3339_time t;
  ok_installed : rfc3339_time (PluginRecord_installed_at r);
  ok_updated : rfc3339_time (PluginRecord_updated_at r);
}.

Lemma uuid_option_roundtrip (o : option Uuid) :
  (∀ id, o = Some id → uuid_value id) → parse_optional_uuid (uuid_to_string <$> o) = Ok o.
Proof.
  destruct o as [id|]; [|done]. intros Hid. unfold parse_optional_uuid. simpl.
  by rewrite uuid_roundtrip by (by apply Hid).
Qed.

Lemma decode_plugin_row r manifest :
  record_ok r → json_to_string (PluginRecord_manifest_json r) = Some manifest →
  decode_plugin (PluginId_as_str (PluginRecord_plugin_id r)) (plugin_row r manifest) = Ok r.
Proof.
  intros [Hid Hop Hused Hinst Hupd] Hm%json_roundtrip. unfold decode_plugin. rewrite Hid.
  cbn [plugin_row invalid map_err mbind result_bind plugin_row_plugin_type plugin_row_status
    plugin_row_run_mode plugin_row_manifest_json plugin_row_install_operation_id
    plugin_row_last_used_at plugin_row_installed_at plugin_row_updated_at].
  replace (plugin_type_from_str _) with (Ok (E := StorageError) (PluginRecord_plugin_type r))
    by (by destruct (PluginRecord_plugin_type r)).
  replace (plugin_status_from_str _) with (Ok (E := StorageError) (PluginRecord_status r))
    by (by destruct (PluginRecord_status r)).
  replace (run_mode_from_str _) with (Ok (E := StorageError) (PluginRecord_run_mode r))
    by (by destruct (PluginRecord_run_mode r)).
  rewrite Hm, uuid_option_roundtrip, time_option_roundtrip by done. cbn [mbind result_bind ok_or].
  unfold store_parse_timestamp. rewrite !rfc3339_roundtrip by done. cbn [mbind result_bind ok_or].
  by destruct r.
Qed.

(** ** Saving and loading *)

Definition installed_at_set (at_ : time) (r : PluginRecord) : PluginRecord :=
  mkPluginRecord (PluginRecord_plugin_id r) (PluginRecord_plugin_type r)
    (PluginRecord_platform_id r) (PluginRecord_name r) (PluginRecord_version r)
    (PluginRecord_protocol_version r) (PluginRecord_source_kind r) (PluginRecord_source_ref r)
    (PluginRecord_commit_sha r) (PluginRecord_repository_id r) (PluginRecord_manifest_json r)
    (PluginRecord_manifest_hash r) (PluginRecord_source_hash r) (PluginRecord_image_id r)
    (PluginRecord_status r) (PluginRecord_run_mode r) (PluginRecord_priority r)
    (PluginRecord_enabled r) (PluginRecord_last_error r) (PluginRecord_install_operation_id r)
    (PluginRecord_last_used_at r) at_ (PluginRecord_updated_at r).

(** What is loaded after [record] was saved in a row first written at [at_]. *)
Definition reloaded (record : InstallPluginRecord) (at_ : time) : InstallPluginRecord :=
  manager_record (installed_at_set at_ (storage_record record)) uuid_nil.

Lemma stored_plugin_Ok plugin_id s found s' :
  get_plugin plugin_id s = (Ok found, s') →
  store_db s' = store_db s ∧
  transpose_map (decode_plugin (PluginId_as_str plugin_id))
    (db_plugins (store_db s) !! PluginId_as_str plugin_id) = Ok found.
Proof.
  unfold get_plugin. intros (row & s1 & [-> Hdb]%select_Ok & [Hd ->]%pure_Ok)%act_bind_Ok. done.
Qed.

Lemma sqlite_get_plugin_Ok plugin_id s found s' :
  sqlite_get_plugin plugin_id s = (Ok found, s') →
  ∃ record, get_plugin plugin_id s = (Ok record, s') ∧
    found = (λ record, manager_record record uuid_nil) <$> record.
Proof.
  unfold sqlite_get_plugin, stored.
  intros (record & s1 & Hg%map_errors_Ok & [-> ->]%act_ret_Ok)%act_bind_Ok. eauto.
Qed.

Lemma decode_plugin_id plugin_id row record :
  decode_plugin (PluginId_as_str plugin_id) row = Ok record → PluginRecord_plugin_id record = plugin_id.
Proof.
  unfold decode_plugin, invalid. intros Hd. simplify_result.
  match goal with Hp : PluginId_parse _ = Ok ?q |- _ =>
    apply PluginId_parse_str in Hp; destruct q, plugin_id end.
  simpl in *. congruence.
Qed.

(** The manager relies on it. *)
Lemma sqlite_found_under plugin_id s : found_under plugin_id (sqlite_get_plugin plugin_id s).1.
Proof.
  intros record. destruct (sqlite_get_plugin plugin_id s) as [[found|e] s'] eqn:E; [|done].
  intros [= ->]. apply sqlite_get_plugin_Ok in E as ([found|] & Hg & Hrec); [|done].
  apply stored_plugin_Ok in Hg as [_ Hd]. destruct (db_plugins _ !! _) as [row|]; [|done].
  injection Hrec as ->. simpl in Hd. destruct (decode_plugin _ _) eqn:Ed; [|done].
  injection Hd as ->. by apply decode_plugin_id in Ed.
Qed.

Lemma sqlite_save_plugin_Ok record s s' :
  sqlite_save_plugin record s = (Ok tt, s') →
  ∃ manifest, json_to_string (record_manifest_json record) = Some manifest ∧
    let id := PluginId_as_str (record_plugin_id record) in
    let row := plugin_row (storage_record record) manifest in
    store_db s' = set_plugins <[id := match db_plugins (store_db s) !! id with
                                      | Some old => keep_unassigned old row
                                      | None => row
                                      end]> (store_db s).
Proof.
  unfold sqlite_save_plugin, stored, upsert_plugin. intros Hs%map_errors_Ok.
  apply act_bind_Ok in Hs as (? & s1 & [_ ->]%pure_Ok & Hs).
  apply act_bind_Ok in Hs as (manifest & s2 & [Hm ->]%pure_Ok & Hs%execute_sql_Ok).
  exists manifest. split; [by destruct (json_to_string _); simplify_eq/=|].
  unfold sql_upsert_plugin in Hs. by injection Hs as <-.
Qed.

Lemma decode_keep_unassigned r manifest old at_ :
  record_ok r → json_to_string (PluginRecord_manifest_json r) = Some manifest →
  decode_plugin (PluginId_as_str (PluginRecord_plugin_id r))
    (keep_unassigned old (plugin_row r manifest)) = Ok at_ →
  ∃ t, store_parse_timestamp (plugin_row_installed_at old) = Ok t ∧ at_ = installed_at_set t r.
Proof.
  intros Hr Hm. pose proof (decode_plugin_row r manifest Hr Hm) as Hd. revert Hd.
  unfold decode_plugin, keep_unassigned.
  cbn [plugin_row_plugin_type plugin_row_status plugin_row_run_mode plugin_row_manifest_json
    plugin_row_install_operation_id plugin_row_last_used_at plugin_row_installed_at
    plugin_row_updated_at plugin_row_platform_id plugin_row_name plugin_row_version
    plugin_row_protocol_version plugin_row_source_kind plugin_row_source_ref plugin_row_commit_sha
    plugin_row_repository_id plugin_row_manifest_hash plugin_row_source_hash plugin_row_image_id
    plugin_row_priority plugin_row_enabled plugin_row_last_error].
  intros Hd Hk. simplify_result. eexists. split; [done|].
  repeat match goal with
  | H : ?a = Ok ?x, H' : ?a = Ok ?y |- _ => rewrite H in H'; injection H' as ->
  end.
  match goal with H : _ = r |- _ => by rewrite <- H end.
Qed.

(** A plugin that was saved is loaded as it was saved, but for the operation
    that is not kept and the time of the installation, which is that of the
    first time it was saved; no other plugin is affected. *)
Theorem saved_plugin_loads record s s' :
  record_ok (storage_record record) → sqlite_save_plugin record s = (Ok tt, s') →
  (∀ other, other ≠ PluginId_as_str (record_plugin_id record) →
     db_plugins (store_db s') !! other = db_plugins (store_db s) !! other) ∧
  ∀ found s'', sqlite_get_plugin (record_plugin_id record) s' = (Ok found, s'') →
  ∃ at_, found = Some (reloaded record at_) ∧
    match db_plugins (store_db s) !! PluginId_as_str (record_plugin_id record) with
    | None => at_ = record_installed_at record
    | Some old => store_parse_timestamp (plugin_row_installed_at old) = Ok at_
    end.
Proof.
  intros Hok (manifest & Hm & Hdb)%sqlite_save_plugin_Ok. split.
  { intros other Ho. rewrite Hdb. by apply lookup_insert_ne. }
  intros found s'' (loaded & [_ Hd]%stored_plugin_Ok & ->)%sqlite_get_plugin_Ok.
  rewrite Hdb in Hd. cbn [db_plugins set_plugins] in Hd. rewrite lookup_insert_eq in Hd. simpl in Hd.
  destruct (db_plugins (store_db s) !! _) as [old|] eqn:Eold.
  - destruct (decode_plugin _ _) as [r|] eqn:Er; [|done]. injection Hd as <-.
    apply (decode_keep_unassigned (storage_record record)) in Er as (t & Ht & ->); [|done..].
    by exists t.
  - rewrite (decode_plugin_row (storage_record record)) in Hd by done. injection Hd as <-.
    by exists (record_installed_at record).
Qed.
End rows.

(** ** An installation on the database *)

Section database.
Context {K : Codec} {A : AdapterJson} {B : Encoding} {P : ProtocolJson} {L : ManagerLib}.
(** the other ports with a state of their own, the repository's clock and
    [Uuid::new_v4] *)
Context {D : Type} (rest : ∀ c, D → answer c * D) (clock : D → time) (fresh : D → Uuid).

Definition on_store {T} (m : act Store PluginManagerError T) (s : Store * D) :
    store_result T * (Store * D) :=
  let '(r, store) := m s.1 in (r, (store, s.2)).

Definition with_database (c : ManagerCall) (s : Store * D) : answer c * (Store * D) :=
  match c return answer c * (Store * D) with
  | StorePersistRiskGrant grant => on_store (sqlite_persist_risk_grant grant) s
  | StoreInsertInstalling record => on_store (sqlite_insert_installing record) s
  | StoreCompleteInstall plugin_id id => on_store (sqlite_complete_install (clock s.2) plugin_id id) s
  | StoreRollbackInstall plugin_id id => on_store (sqlite_rollback_install plugin_id id) s
  | StoreListInstallRecords => on_store sqlite_list_install_records s
  | StorePersistBuildLog record => on_store (sqlite_persist_build_log record) s
  | StoreGetPlugin plugin_id => on_store (sqlite_get_plugin plugin_id) s
  | StoreSavePlugin record => on_store (sqlite_save_plugin record) s
  | StoreDeletePlugin plugin_id => on_store (sqlite_delete_plugin plugin_id) s
  | StorePersistRuntimeLog record => on_store (sqlite_persist_runtime_log (fresh s.2) record) s
  | StoreTouch plugin_id at_ => on_store (sqlite_touch (clock s.2) plugin_id at_) s
  | StorePersistContentCallLog record =>
      on_store (sqlite_persist_content_call_log (fresh s.2) record) s
  | c => let '(r, d) := rest c s.2 in (r, (s.1, d))
  end.

(** The snapshot holds [staged] and answers with the plugin it was asked for. *)
Context (command : InstallPluginCommand) (staged : StagedPlugin).
Context (Hstaged : ∀ snapshot_id plugin_id now d loaded,
  (rest (SnapshotLoadPlugin snapshot_id plugin_id now) d).1 = Ok loaded →
  loaded = staged ∧ PluginManifest_id (staged_manifest staged) = plugin_id).
Context (Hplugin : PluginManifest_id (staged_manifest staged) = command_plugin_id command).

Abbreviation plugin_text := (PluginId_as_str (command_plugin_id command)).

(** What the calls so far and their answers show: the operation that was prepared,
    and that the supervisor has reported it as built, with this artifact. *)
Definition prepared_as (h : history (answer := answer)) (id : Uuid) : Prop :=
  ∃ snapshot_id plugin_id grant prepared,
    existT (SnapshotPrepareInstall snapshot_id plugin_id grant) (Ok prepared) ∈ h ∧
    prepared_operation_id prepared = id.
Definition reported_built (h : history (answer := answer)) (artifact : PluginInstallArtifact) : Prop :=
  ∃ id operation q i, prepared_as h id ∧
    (existT (BeginInstall q i) (Ok operation) ∈ h ∨ existT (InstallStatus q i) (Ok operation) ∈ h) ∧
    operation_state operation = Built ∧
    operation_identity_matches operation (command_plugin_id command) id = true ∧
    operation_artifact operation = Some artifact.

Section reports.
Context (h : history (answer := answer)).

(** The row of the staged plugin with the image of an artifact that was built from
    it, as the supervisor reported. *)
Definition row_of_staged (row : PluginRow) : Prop :=
  let manifest := staged_manifest staged in
  plugin_row_plugin_type row = plugin_type_to_str (PluginManifest_plugin_type manifest) ∧
  plugin_row_version row = PluginManifest_version manifest ∧
  plugin_row_source_ref row = staged_source_url staged ∧
  plugin_row_commit_sha row = Some (staged_commit_sha staged) ∧
  plugin_row_repository_id row = Some (staged_repository_id staged) ∧
  plugin_row_manifest_hash row = staged_manifest_hash staged ∧
  plugin_row_source_hash row = Some (staged_source_hash staged) ∧
  ∃ artifact, reported_built h artifact ∧ artifact_matches_staged artifact staged = true ∧
    plugin_row_image_id row = Some (artifact_image_id artifact).

Definition recorded (db : Db) : Prop :=
  ∃ row, db_plugins db !! plugin_text = Some row ∧ row_of_staged row.
Definition completed (db : Db) : Prop :=
  ∃ row, db_plugins db !! plugin_text = Some row ∧ row_of_staged row ∧
    plugin_row_status row = "installed" ∧ plugin_row_install_operation_id row = None.
Definition granted (db : Db) : Prop :=
  staged_requires_lifecycle_scripts staged = true →
  is_Some (sql_risk_for plugin_text (staged_commit_sha staged) LIFECYCLE_RISK_KIND db).

(** What the database shows of the phases of an installation. *)
Record reflects (db : Db) (g : install_phase) : Prop := {
  reflects_staged loaded : ip_staged g = Some loaded → loaded = staged;
  reflects_prepared id : ip_operation g = Some id → prepared_as h id;
  reflects_built artifact : ip_built g = Some artifact → reported_built h artifact;
  reflects_grant given : ip_grant g = Some given →
    is_Some (sql_risk_for (PluginId_as_str (grant_plugin_id given)) (grant_commit_sha given)
      (grant_risk_kind given) db);
  reflects_operation : is_Some (ip_operation g) → granted db;
  reflects_recorded : ip_inserted g = true ∨ ip_finalized g = true → recorded db;
  reflects_completed : is_Some (ip_completed g) → completed db ∧ granted db;
}.

(** A database that keeps the rows of the plugin, and grants. *)
Definition keeps (db db' : Db) : Prop :=
  (recorded db → recorded db') ∧ (completed db → completed db') ∧
  ∀ plugin commit kind, is_Some (sql_risk_for plugin commit kind db) →
    is_Some (sql_risk_for plugin commit kind db').

Lemma reflects_keeps db db' g : keeps db db' → reflects db g → reflects db' g.
Proof.
  intros (Hr & Hc & Hk) [Hs Hp Hb Hg Ho Hi Hd]. split; [done..|naive_solver|unfold granted in *; naive_solver|
    naive_solver|]. intros H. destruct (Hd H) as [? Hgr]. split; [auto|]. intros Hreq. auto.
Qed.

Lemma keeps_same db db' :
  db_plugins db' = db_plugins db → db_risk_grants db' = db_risk_grants db → keeps db db'.
Proof.
  intros Hp Hr. unfold keeps, recorded, completed, sql_risk_for. rewrite Hp, Hr. done.
Qed.

(** *** Each call *)

Lemma risk_for_Some plugin commit kind db :
  is_Some (sql_risk_for plugin commit kind db) ↔
  ∃ id row, db_risk_grants db !! id = Some row ∧ risk_row_plugin_id row = plugin ∧
    risk_row_commit_sha row = commit ∧ risk_row_risk_kind row = kind.
Proof.
  unfold sql_risk_for. split.
  - intros [[id row] [Hin%list_elem_of_In%elem_of_map_to_list Hk]%List.find_some].
    bool_prop. naive_solver.
  - intros (id & row & Hrow & <- & <- & <-). destruct (List.find _ _) eqn:E; [done|].
    apply (List.find_none _ _) with (x := (id, row)) in E;
      [|by apply list_elem_of_In, elem_of_map_to_list]. by rewrite !eqb_refl in E.
Qed.

Lemma replace_risk_keeps id row db u db' :
  sql_replace_risk id row db = Ok (u, db') →
  keeps db db' ∧ is_Some (sql_risk_for (risk_row_plugin_id row) (risk_row_commit_sha row)
    (risk_row_risk_kind row) db').
Proof.
  intros Hr. assert (db_plugins db' = db_plugins db ∧ db_risk_grants db' !! id = Some row ∧
    ∀ old r, db_risk_grants db !! old = Some r → same_risk row r = false →
      db_risk_grants db' !! old = Some r) as (Hp & Hid & Hold).
  { unfold sql_replace_risk in Hr. destruct (List.find _ _) as [[old r]|] eqn:E.
    - apply List.find_some in E as [Hin%list_elem_of_In%elem_of_map_to_list Hs].
      destruct (negb _ && _) eqn:Ec; [done|]. injection Hr as _ <-. simpl.
      split_and!; [done|by rewrite lookup_insert_eq|]. intros old' r' Hr' Hs'.
      assert (old' ≠ old) by congruence. rewrite lookup_insert_ne; [by rewrite lookup_delete_ne|].
      intros <-. rewrite Hr' in Ec. simpl in Ec. rewrite andb_true_r in Ec.
      by bool_prop.
    - destruct (db_risk_grants db !! id) as [?|] eqn:Ei; [done|]. injection Hr as _ <-. simpl.
      split_and!; [done|by rewrite lookup_insert_eq|]. intros old r Hr _.
      rewrite lookup_insert_ne; [done|congruence]. }
  split; [|apply risk_for_Some; eauto 10]. split_and!.
  - intros (r & Hr' & ?). exists r. by rewrite Hp.
  - intros (r & Hr' & ?). exists r. by rewrite Hp.
  - intros plugin commit kind (old & r & Hr' & H1 & H2 & H3)%risk_for_Some. apply risk_for_Some.
    destruct (same_risk row r) eqn:Es; [|by eauto 10].
    exists id, row. unfold same_risk in Es. bool_prop. naive_solver congruence.
Qed.

Lemma update_keeps id p a now db n db' :
  assign_repository_id a = None → assign_source_hash a = None → assign_image_id a = None →
  (assign_status a = None ∨ assign_status a = Some "installed") →
  (assign_install_operation_id a = None ∨ assign_install_operation_id a = Some None) →
  sql_update_plugin id p (assign a now) db = Ok (n, db') → keeps db db'.
Proof.
  intros Hrepo Hsource Himage Hstatus Hop. unfold sql_update_plugin.
  destruct (db_plugins db !! id) as [row|] eqn:Erow; [destruct (p row)|];
    intros [= _ <-]; [|by apply keeps_same..].
  assert (row_of_staged row → row_of_staged (assign a now row)) as Hassign.
  { unfold row_of_staged, assign. simpl. by rewrite Hrepo, Hsource, Himage. }
  split_and!; [| |done]; unfold recorded, completed; simpl;
    destruct (decide (id = plugin_text)) as [->|Hne];
    rewrite ?lookup_insert_eq, ?lookup_insert_ne by done; rewrite ?Erow; try done.
  - intros (? & [= <-] & Hrow). eauto.
  - intros (? & [= <-] & Hrow & Hs & Ho). eexists. split_and!; [done|auto|..].
    + unfold assign. simpl. by destruct Hstatus as [-> | ->].
    + unfold assign. simpl. by destruct Hop as [-> | ->].
Qed.

Global Instance keeps_preorder : PreOrder keeps.
Proof. unfold keeps. split; [done|]. intros db1 db2 db3 (? & ? & ?) (? & ? & ?). naive_solver. Qed.

Lemma append_log_keeps or_ignore id row db u db' :
  sql_append_log or_ignore id row db = Ok (u, db') → keeps db db'.
Proof.
  unfold sql_append_log. intros H. apply keeps_same; destruct (log_has_id id db), or_ignore;
    by simplify_eq/=.
Qed.

Lemma insert_plugin_keeps id row db u db' :
  sql_insert_plugin id row db = Ok (u, db') → keeps db db'.
Proof.
  unfold sql_insert_plugin. destruct (db_plugins db !! id) eqn:E; [done|]. intros [= _ <-].
  split_and!; [| |done]; unfold recorded, completed; intros (old & Hold & ?); exists old;
    (split; [|done]); simpl; (rewrite lookup_insert_ne; [done|]); congruence.
Qed.

(** Every call of an installation on the store. *)
Definition installing_call (c : ManagerCall) : bool :=
  match c with
  | StoreRollbackInstall _ _ | StoreSavePlugin _ | StoreDeletePlugin _ => false
  | _ => true
  end.

Lemma update_plugin_keeps plugin_id p a now :
  assign_repository_id a = None → assign_source_hash a = None → assign_image_id a = None →
  (assign_status a = None ∨ assign_status a = Some "installed") →
  (assign_install_operation_id a = None ∨ assign_install_operation_id a = Some None) →
  preserves keeps (update_plugin plugin_id p a now).
Proof.
  intros. unfold update_plugin. apply preserves_execute_sql; [apply _|]. intros db n db'.
  by apply update_keeps.
Qed.

Lemma get_plugin_keeps plugin_id : preserves keeps (get_plugin plugin_id).
Proof. unfold get_plugin. preserves. Qed.

Lemma stored_keeps {T} (m : act Store StorageError T) : preserves keeps m → preserves keeps (stored m).
Proof. apply preserves_map_errors. Qed.

Ltac keep_store :=
  repeat first
    [ apply stored_keeps
    | apply get_plugin_keeps
    | apply update_plugin_keeps; simpl; auto
    | progress preserves
    | eapply append_log_keeps; eassumption
    | eapply insert_plugin_keeps; eassumption
    | eapply replace_risk_keeps; eassumption ].

Lemma with_database_keeps c s :
  installing_call c = true → keeps (store_db s.1) (store_db (with_database c s).2.1).
Proof.
  assert (∀ T (m : act Store PluginManagerError T), preserves keeps m →
    keeps (store_db s.1) (store_db (on_store m s).2.1)) as Hon.
  { intros T m Hm. unfold on_store. destruct (m s.1) as [r s1] eqn:E. by eapply Hm. }
  destruct c; try done; intros _; simpl; try (by destruct (rest _ _)); apply Hon.
  - unfold sqlite_persist_risk_grant, replace_commit_grant. keep_store.
  - unfold sqlite_insert_installing, insert_installing. keep_store.
  - unfold sqlite_complete_install, complete_install. keep_store.
  - unfold sqlite_list_install_records, list_plugins. keep_store.
  - unfold sqlite_persist_build_log, append_log_if_absent. keep_store.
  - unfold sqlite_get_plugin. keep_store.
  - unfold sqlite_persist_runtime_log, append_log. keep_store.
  - unfold sqlite_touch, touch. keep_store.
  - unfold sqlite_persist_content_call_log, append_log. destruct (call_log_event record); keep_store.
Qed.

Lemma persist_grant_granted grant s s' :
  sqlite_persist_risk_grant grant s = (Ok tt, s') →
  is_Some (sql_risk_for (PluginId_as_str (grant_plugin_id grant)) (grant_commit_sha grant)
    (grant_risk_kind grant) (store_db s')).
Proof.
  unfold sqlite_persist_risk_grant, stored, replace_commit_grant.
  intros Hs%map_errors_Ok%execute_sql_Ok. by apply replace_risk_keeps in Hs as [_ ?].
Qed.

Lemma insert_installing_recorded id artifact now s s' :
  artifact_matches_staged artifact staged = true → reported_built h artifact →
  sqlite_insert_installing (install_record staged id artifact now) s = (Ok tt, s') →
  recorded (store_db s').
Proof.
  intros Hm Hb. unfold sqlite_insert_installing, stored, insert_installing. intros Hs%map_errors_Ok.
  apply act_bind_Ok in Hs as (? & s1 & [_ ->]%pure_Ok & Hs). cbn [negb eqb orb is_none] in Hs.
  destruct (_ || _); [done|].
  apply act_bind_Ok in Hs as (manifest & s2 & [_ ->]%pure_Ok & Hs%execute_sql_Ok).
  unfold sql_insert_plugin in Hs. destruct (is_some _); [done|]. injection Hs as <-.
  eexists. split.
  - simpl. rewrite Hplugin. apply lookup_insert_eq.
  - split_and!; eauto.
Qed.

Lemma complete_install_completed now id s record s' :
  recorded (store_db s) →
  sqlite_complete_install now (command_plugin_id command) id s = (Ok record, s') →
  completed (store_db s').
Proof.
  intros (row & Hrow & Hdesc) Hs. unfold sqlite_complete_install, stored in Hs.
  apply act_bind_Ok in Hs as ([] & s1 & Hc%map_errors_Ok & Hs).
  apply act_bind_Ok in Hs as (found & s2 & Hg%map_errors_Ok & Hs). apply stored_plugin_Ok in Hg as [Hdb _].
  apply act_bind_Ok in Hs as (r & s3 & [_ ->]%pure_Ok & [_ ->]%act_ret_Ok). rewrite Hdb.
  unfold complete_install in Hc.
  apply act_bind_Ok in Hc as (n & s4 & Hu & [Hn ->]%pure_Ok). apply ensure_one_row_Ok in Hn as ->.
  unfold update_plugin in Hu. apply execute_sql_Ok in Hu. unfold sql_update_plugin in Hu.
  rewrite Hrow in Hu. destruct (has_operation id row); [|done]. injection Hu as <-.
  eexists. split_and!; [apply lookup_insert_eq| |done..]. done.
Qed.

End reports.

(** Later calls show no less. *)
Lemma reflects_later h h' db g : h ⊆ h' → reflects h db g → reflects h' db g.
Proof.
  intros Hh. assert (∀ id, prepared_as h id → prepared_as h' id) as Hprep.
  { intros id (s & p & gr & prepared & Hin & Hid). exists s, p, gr, prepared. auto. }
  assert (∀ artifact, reported_built h artifact → reported_built h' artifact) as Hrep.
  { intros a (id & o & q & i & Hp & Ho & Hrest). exists id, o, q, i. naive_solver. }
  assert (∀ row, row_of_staged h row → row_of_staged h' row) as Hrow.
  { intros row. unfold row_of_staged. naive_solver. }
  intros [Hs Hp Hb Hg Ho Hi Hd]. split; [done|naive_solver|naive_solver|done|done|..].
  - intros H. destruct (Hi H) as (row & Hr & Hst). exists row. auto.
  - intros H. destruct (Hd H) as [(row & Hr & Hst & Hrest) Hgr]. split; [|done]. exists row. auto.
Qed.

(** [with_database], remembering the calls and their answers. *)
Definition remembering (c : ManagerCall) (s : Store * D * history (answer := answer)) :
    answer c * (Store * D * history (answer := answer)) :=
  let '(r, s1) := with_database c s.1 in (r, (s1, existT c r :: s.2)).

Abbreviation phases := (installing command).

Lemma report_shown h g operation artifact :
  (∃ q i, existT (BeginInstall q i) (Ok operation) ∈ h) ∨
    (∃ q i, existT (InstallStatus q i) (Ok operation) ∈ h) →
  (∀ id, ip_operation g = Some id → prepared_as h id) →
  reported_artifact command g operation = Some artifact → reported_built h artifact.
Proof.
  intros Hin Hprep Hr. unfold reported_artifact in Hr.
  destruct (eqb _ _) eqn:Estate; [|done]. destruct (ip_operation g) as [id|]; [|done]. simpl in Hr.
  destruct (operation_identity_matches _ _ _) eqn:Eid; [|done]. bool_prop.
  destruct Hin as [(q & i & Hin)|(q & i & Hin)]; exists id, operation, q, i; split_and!; auto.
Qed.

(** Whatever call an installation makes, the database goes on showing its phase. *)
Lemma reflects_step s h g c :
  reflects h (store_db s.1) g → allowed phases g c →
  possible phases g c (with_database c s).1 ∧
  reflects (existT c (with_database c s).1 :: h) (store_db (with_database c s).2.1)
    (next phases g c (with_database c s).1).
Proof.
  intros Hg0 Ha. assert (installing_call c = true) as Hcall by (by destruct c).
  assert (h ⊆ existT c (with_database c s).1 :: h) as Hh by (intros e He; by right).
  pose proof (reflects_later _ _ _ _ Hh Hg0) as Hg.
  pose proof (reflects_keeps _ _ _ _ (with_database_keeps _ c s Hcall) Hg) as [Rs Rp Rb Rg Ro Ri Rc].
  pose proof Hg as [Hs Hp Hb Hgr Hop Hins Hcomp]. clear Hg0 Hh.
  destruct g as [staged' free authorized grant operation begun built inserted finalized completed'
    aborted acknowledged].
  destruct c; try (split; [done|split; assumption]).
  all: cbn [possible next allowed installing install_allowed ip_staged ip_grant ip_operation
    ip_inserted ip_finalized ip_completed ip_aborted ip_built ip_free] in *.
  - split; [done|]. cbn [with_database] in *. unfold on_store in *.
    destruct (sqlite_persist_risk_grant grant0 s.1) as [[[]|e] s1] eqn:E; split; simpl in *; try done.
    intros given [= <-]. by eapply persist_grant_granted.
  - destruct Ha as (_ & loaded & id & artifact & now & Hl & _ & Hbuilt & Hm & ->).
    rewrite (Hs _ Hl) in *. split; [done|]. cbn [with_database] in *. unfold on_store in *.
    destruct (sqlite_insert_installing _ s.1) as [[[]|e] s1] eqn:E; split; simpl in *; try done.
    + intros _. by eapply insert_installing_recorded; [|apply Hb|].
    + intros [?|?]; [done|auto].
  - destruct Ha as (-> & Ho & Hf). split; [done|]. cbn [with_database] in *. unfold on_store in *.
    destruct (sqlite_complete_install _ _ _ s.1) as [[record|e] s1] eqn:E; split; simpl in *; try done.
    all: try (by intros []).
    intros _. split; [|by apply Ro; rewrite Ho]. eapply complete_install_completed, E. auto.
  - split; [done|]. cbn [with_database] in *. destruct (rest _ _) as [r d1]. split; simpl in *; try done.
    intros artifact Hr. destruct r as [o|e]; [|done].
    eapply report_shown; [| |exact Hr]; [by left; do 2 eexists; left|exact Rp].
  - split; [done|]. cbn [with_database] in *. destruct (rest _ _) as [r d1]. split; simpl in *; try done.
    intros artifact Hr. destruct r as [o|e]; [|done].
    eapply report_shown; [| |exact Hr]; [by right; do 2 eexists; left|exact Rp].
  - destruct Ha as (-> & Ho & Hi). split; [done|]. cbn [with_database] in *.
    destruct (rest _ _) as [[o|e] d1]; split; simpl in *; try done; auto.
  - cbn [with_database] in *. destruct (rest _ _) as [r d1] eqn:E. simpl in *.
    assert (∀ loaded, r = Ok loaded → loaded = staged ∧
      PluginManifest_id (staged_manifest staged) = plugin_id) as Hr.
    { intros loaded ->. eapply Hstaged. by rewrite E. }
    split; [naive_solver|]. split; simpl; try done. destruct r; naive_solver.
  - destruct Ha as (_ & _ & _ & loaded & Hl & Hc). rewrite (Hs _ Hl) in *. split; [done|].
    cbn [with_database] in *. destruct (rest _ _) as [r d1]. split; simpl in *; try done.
    + intros id Hid. destruct r as [prepared|e]; [|done]. injection Hid as <-.
      do 4 eexists. split; [by left|done].
    + intros _ Hreq. unfold consented in Hc. rewrite Hreq in Hc.
      destruct Hc as (_ & _ & given & _ & Hgiven & _ & Hp' & Hcommit & Hkind & _). simpl in Hgiven.
      specialize (Rg _ Hgiven). rewrite Hp', Hcommit, Hkind in Rg. exact Rg.
Qed.

(** C30. A successful installation on the database, whatever statements fail on the
    way and whatever the supervisor and the other ports answer, has left the row
    of the staged plugin, as installed and with no operation pending, with the
    image of the artifact that the supervisor reported in this very run for the
    operation that was prepared, when it reported it as built, and which agrees
    with the staged plugin; and where the plugin runs scripts the grant for its
    commit is stored. *)
Theorem install_stored install_poll_interval install_wait_timeout s d record s' d' h :
  run remembering (install install_poll_interval install_wait_timeout command) (s, d, []) =
    (Ok record, (s', d', h)) →
  completed h (store_db s') ∧ granted (store_db s').
Proof.
  intros Hrun.
  destruct (wp_run phases remembering (λ s, reflects s.2 (store_db s.1.1))
    (install install_poll_interval install_wait_timeout command) (install_post) (s, d, []) install0)
    as (g & Hg & Hpost).
  - intros [s1 h1] g c Hr Ha. unfold remembering. simpl.
    destruct (reflects_step s1 h1 g c Hr Ha) as [Hp Hr']. by destruct (with_database c s1).
  - split; naive_solver.
  - apply with_lock_wp; [by apply install_locked_wp|done].
  - rewrite Hrun in Hg, Hpost. destruct Hpost as [_ Hpost]. destruct (Hpost record eq_refl) as [Hc _].
    by apply Hg.
Qed.
End database.
