(* ===== verification/RuntimeAdapter.v ===== *)
(** * Plugin runtimes behind the supervisor

    [SupervisorPluginRuntime] of
    crates/audiodown-server/src/plugin_manager_adapters.rs: starting, stopping and
    inspecting the runtime of a plugin through the supervisor, together with the
    token its runtime authenticates with at the gateway.  The operations are
    programs (Program.v) that call the client of the supervisor, the token
    registry (ProxyGateway.v) and the adapter's memory: the generation of each
    runtime it has started and one lifecycle lock per plugin. *)

From S2P Require Import Prelude Text Domain ContentContract CredentialContract Foreign Stateful.
From S2P Require Import Database ProxyGateway SupervisorProtocol Redaction Program PluginManager.

Inductive SupervisorError :=
  | SupervisorUnavailable | SupervisorTimeout | SupervisorInvalidResponse
  | SupervisorResponseTooLarge | SupervisorRejected (code : string).

Definition runtime_error (_ : SupervisorError) : PluginManagerError := PluginRuntimeUnavailable.

(** The mutexes of both maps are never poisoned: no code panics under them. *)
Record RuntimeMemory := mkRuntimeMemory {
  runtime_registry : ProxyTokenRegistry;
  generations : gmap PluginId RuntimeGeneration;
  lifecycle_locks : gset PluginId;
}.
Definition set_generations (f : gmap PluginId RuntimeGeneration → gmap PluginId RuntimeGeneration)
    (m : RuntimeMemory) : RuntimeMemory :=
  mkRuntimeMemory (runtime_registry m) (f (generations m)) (lifecycle_locks m).
Definition set_registry (registry : ProxyTokenRegistry) (m : RuntimeMemory) : RuntimeMemory :=
  mkRuntimeMemory registry (generations m) (lifecycle_locks m).

Definition lifecycle_lock (plugin_id : PluginId) (m : RuntimeMemory) : option RuntimeMemory :=
  if decide (plugin_id ∈ lifecycle_locks m) then None
  else Some (mkRuntimeMemory (runtime_registry m) (generations m)
               ({[plugin_id]} ∪ lifecycle_locks m)).
Definition release_lifecycle_lock (plugin_id : PluginId) (m : RuntimeMemory) : RuntimeMemory :=
  mkRuntimeMemory (runtime_registry m) (generations m) (lifecycle_locks m ∖ {[plugin_id]}).

Definition remember_generation (plugin_id : PluginId) (generation : RuntimeGeneration)
    (m : RuntimeMemory) : store_result unit * RuntimeMemory :=
  (Ok tt, set_generations <[plugin_id := generation]> m).
(** The generation that [revoke_generation] takes out of the map. *)
Definition take_generation (plugin_id : PluginId) (m : RuntimeMemory) :
    option RuntimeGeneration * RuntimeMemory :=
  (generations m !! plugin_id, set_generations (delete plugin_id) m).
Definition take_if_current (plugin_id : PluginId) (generation : RuntimeGeneration)
    (m : RuntimeMemory) : bool * RuntimeMemory :=
  if eqb (generations m !! plugin_id) (Some generation)
  then (true, set_generations (delete plugin_id) m) else (false, m).
Definition has_generation (plugin_id : PluginId) (m : RuntimeMemory) : bool :=
  is_some (generations m !! plugin_id).
Definition current_generation (plugin_id : PluginId) (m : RuntimeMemory) :
    option RuntimeGeneration :=
  generations m !! plugin_id.

Section runtime.
Context {K : Codec} {P : ProtocolJson} {B : Encoding}.

Abbreviation State := (PluginRuntimeState Json).
Abbreviation client_result := (result SupervisorError).

Inductive RuntimeCall :=
  (** [SupervisorClient] *)
  | ClientStart (plugin_id : PluginId)
  | ClientStartWithProxy (plugin_id : PluginId) (token : ProxyToken)
  | ClientStop (plugin_id : PluginId)
  | ClientConfirmStopped (plugin_id : PluginId)
  | ClientInspect (plugin_id : PluginId)
  | ClientInvoke (plugin_id : PluginId) (method : ContentMethod) (params : Json)
  | ClientRemove (plugin_id : PluginId)
  | ClientBeginInstall (plugin_id : PluginId) (operation_id : Uuid)
  | ClientInstallStatus (plugin_id : PluginId) (operation_id : Uuid)
  | ClientFinalizeInstall (plugin_id : PluginId) (operation_id : Uuid)
  | ClientAbortInstall (plugin_id : PluginId) (operation_id : Uuid)
  | ClientListInstalls
  | ClientAcknowledgeInstall (plugin_id : PluginId) (operation_id : Uuid)
  (** the token registry *)
  | RegisterToken (plugin_id : PluginId)
  | RevokeToken (plugin_id : PluginId) (generation : RuntimeGeneration)
  (** the adapter's memory *)
  | LifecycleLock (plugin_id : PluginId)
  | ReleaseLifecycleLock (plugin_id : PluginId)
  | RememberGeneration (plugin_id : PluginId) (generation : RuntimeGeneration)
  | TakeGeneration (plugin_id : PluginId)
  | TakeIfCurrent (plugin_id : PluginId) (generation : RuntimeGeneration)
  | HasGeneration (plugin_id : PluginId)
  | CurrentGeneration (plugin_id : PluginId).

Definition runtime_answer (c : RuntimeCall) : Type :=
  match c with
  | ClientStart _ | ClientStartWithProxy _ _ | ClientStop _ | ClientConfirmStopped _
  | ClientInspect _ => client_result State
  | ClientInvoke _ _ _ => client_result PluginRpcResult
  | ClientRemove _ => client_result PluginRemoveResult
  | ClientBeginInstall _ _ | ClientInstallStatus _ _ | ClientFinalizeInstall _ _
  | ClientAbortInstall _ _ | ClientAcknowledgeInstall _ _ => client_result PluginInstallOperation
  | ClientListInstalls => client_result PluginInstallOperationList
  | RegisterToken _ => result ProxyRegistryError RegisteredProxyToken
  | RevokeToken _ _ | TakeIfCurrent _ _ | HasGeneration _ => bool
  | LifecycleLock _ | ReleaseLifecycleLock _ => unit
  | RememberGeneration _ _ => store_result unit
  | TakeGeneration _ | CurrentGeneration _ => option RuntimeGeneration
  end.

Abbreviation rtask := (prog runtime_answer).
Abbreviation rattempt A := (prog runtime_answer (store_result A)).

Definition client {A} (m : prog runtime_answer (client_result A)) : rattempt A :=
  prog_map_err runtime_error m.
Definition unavailable {A} : rattempt A := Ret (Err PluginRuntimeUnavailable).

(** [let _guard = lifecycle_lock.lock().await;] *)
Definition with_lifecycle_lock {A} (plugin_id : PluginId) (body : rattempt A) : rattempt A :=
  _ ← call (LifecycleLock plugin_id);
  r ← body;
  _ ← call (ReleaseLifecycleLock plugin_id);
  Ret r.

(** [self.proxy_tokens] is set or not. *)
Context (proxy_tokens : bool).

Definition revoke_generation (plugin_id : PluginId) : rtask unit :=
  generation ← call (TakeGeneration plugin_id);
  match proxy_tokens, generation with
  | true, Some generation => _ ← call (RevokeToken plugin_id generation); Ret tt
  | _, _ => Ret tt
  end.

Definition revoke_if_current (plugin_id : PluginId) (generation : RuntimeGeneration) : rtask unit :=
  removed ← call (TakeIfCurrent plugin_id generation);
  if (removed : bool) && proxy_tokens
  then _ ← call (RevokeToken plugin_id generation); Ret tt
  else Ret tt.

Definition is_stopped (state : State) (plugin_id : PluginId) : bool :=
  eqb (runtime_state_plugin_id state) plugin_id && eqb (runtime_state_status state) Stopped.

Definition confirm_cleanup (plugin_id : PluginId) : rattempt State :=
  stopped ←? client (call (ClientConfirmStopped plugin_id));
  if negb (is_stopped stopped plugin_id) then unavailable else Ret (Ok stopped).

(** A new token is registered and the runtime started with it. *)
Definition start_with_token (plugin_id : PluginId) : rattempt State :=
  registered ← call (RegisterToken plugin_id);
  match registered with
  | Err _ => unavailable
  | Ok registered =>
      let generation := registered_generation registered in
      match ProxyToken_new (registered_token registered) with
      | Err _ => unavailable
      | Ok proxy_token =>
          remembered ← call (RememberGeneration plugin_id generation);
          match remembered with
          | Err error => _ ← call (RevokeToken plugin_id generation); Ret (Err error)
          | Ok _ =>
              started ← call (ClientStartWithProxy plugin_id proxy_token);
              match started with
              | Ok state => Ret (Ok state)
              | Err error =>
                  confirm_cleanup plugin_id;;?
                  (_ ← revoke_if_current plugin_id generation; Ret (Err (runtime_error error)))
              end
          end
      end
  end.

Definition runtime_start (plugin_id : PluginId) : rattempt State :=
  with_lifecycle_lock plugin_id (
    if negb proxy_tokens then client (call (ClientStart plugin_id))
    else
      (had ← call (HasGeneration plugin_id);
       if (had : bool) then
         confirm_cleanup plugin_id;;?
         (_ ← revoke_generation plugin_id; Ret (Ok tt))
       else Ret (Ok tt));;?
      start_with_token plugin_id).

Definition runtime_stop (plugin_id : PluginId) : rattempt State :=
  with_lifecycle_lock plugin_id (
    state ←? client (call (ClientStop plugin_id));
    if negb (is_stopped state plugin_id) then unavailable
    else
      _ ← revoke_generation plugin_id;
      Ret (Ok state)).

(** The runtime is made to stop, and its token revoked if it had one. *)
Definition inspect_cleanup (plugin_id : PluginId) (generation : option RuntimeGeneration) :
    rattempt State :=
  stopped ←? confirm_cleanup plugin_id;
  _ ← match generation with
      | Some generation => revoke_if_current plugin_id generation
      | None => Ret tt
      end;
  Ret (Ok stopped).

Definition runtime_inspect (plugin_id : PluginId) : rattempt State :=
  with_lifecycle_lock plugin_id (
    if negb proxy_tokens then client (call (ClientInspect plugin_id))
    else
      generation ← call (CurrentGeneration plugin_id);
      inspected ← call (ClientInspect plugin_id);
      match inspected with
      | Err _ => inspect_cleanup plugin_id generation
      | Ok state =>
          if negb (eqb (runtime_state_plugin_id state) plugin_id)
          then inspect_cleanup plugin_id generation
          else if negb (eqb (runtime_state_status state) Healthy) || is_none generation
          then inspect_cleanup plugin_id generation
          else Ret (Ok state)
      end).

Definition runtime_invoke (plugin_id : PluginId) (method : ContentMethod) (params : Json) :
    rattempt PluginRpcResult :=
  client (call (ClientInvoke plugin_id method params)).

Definition runtime_remove (plugin_id : PluginId) : rattempt PluginRemoveResult :=
  with_lifecycle_lock plugin_id (
    removed ←? client (call (ClientRemove plugin_id));
    _ ← revoke_generation plugin_id;
    Ret (Ok removed)).

Definition runtime_begin_install (plugin_id : PluginId) (operation_id : Uuid) :
    rattempt PluginInstallOperation :=
  client (call (ClientBeginInstall plugin_id operation_id)).
Definition runtime_install_status (plugin_id : PluginId) (operation_id : Uuid) :
    rattempt PluginInstallOperation :=
  client (call (ClientInstallStatus plugin_id operation_id)).
Definition runtime_finalize_install (plugin_id : PluginId) (operation_id : Uuid) :
    rattempt PluginInstallOperation :=
  client (call (ClientFinalizeInstall plugin_id operation_id)).
Definition runtime_abort_install (plugin_id : PluginId) (operation_id : Uuid) :
    rattempt PluginInstallOperation :=
  client (call (ClientAbortInstall plugin_id operation_id)).
Definition runtime_list_install_operations : rattempt PluginInstallOperationList :=
  client (call ClientListInstalls).
Definition runtime_acknowledge_install (plugin_id : PluginId) (operation_id : Uuid) :
    rattempt PluginInstallOperation :=
  client (call (ClientAcknowledgeInstall plugin_id operation_id)).
End runtime.
