(* ===== verification/RuntimeAdapterProps.v ===== *)
(** * Tokens of plugin runtimes

    Whatever operations of the runtime adapter run as tasks, in whatever
    interleaving of their calls and with whatever answers of the supervisor: a
    runtime is managed by one of them at a time, it is started with the token that
    is registered for it, and when an operation ends after the supervisor has
    reported the runtime as stopped, no token authenticates as it any more. *)

From S2P Require Import Prelude Text Domain ContentContract CredentialContract Foreign Stateful.
From S2P Require Import Database ProxyGateway SupervisorProtocol Redaction Program PluginManager.
From S2P Require Import RuntimeAdapter.

Section tokens.
Context {K : Codec} {P : ProtocolJson} {B : Encoding}.

Definition discarded {A} (p : prog runtime_answer A) : prog runtime_answer unit := _ ← p; Ret tt.

Inductive runtime_task : prog runtime_answer unit → Prop :=
  | RuntimeTaskStart plugin_id : runtime_task (discarded (runtime_start true plugin_id))
  | RuntimeTaskStop plugin_id : runtime_task (discarded (runtime_stop true plugin_id))
  | RuntimeTaskInspect plugin_id : runtime_task (discarded (runtime_inspect true plugin_id))
  | RuntimeTaskRemove plugin_id : runtime_task (discarded (runtime_remove true plugin_id)).

(** The registry draws 32 random bytes and a fresh generation, or fails. *)
Definition registered (plugin_id : PluginId) (m : RuntimeMemory)
    (r : result ProxyRegistryError RegisteredProxyToken) (m' : RuntimeMemory) : Prop :=
  ∃ random uuid registry, (∀ drawn, random = Some drawn → zlen drawn = 32) ∧
    register random uuid plugin_id (runtime_registry m) = (r, registry) ∧
    m' = set_registry registry m.

Definition runtime_sem (c : RuntimeCall) (m : RuntimeMemory) (r : runtime_answer c)
    (m' : RuntimeMemory) : Prop :=
  match c return runtime_answer c → Prop with
  | RegisterToken plugin_id => λ r, registered plugin_id m r m'
  | RevokeToken plugin_id generation => λ r,
      ∃ registry, revoke plugin_id generation (runtime_registry m) = (r, registry) ∧
        m' = set_registry registry m
  | LifecycleLock plugin_id => λ _, lifecycle_lock plugin_id m = Some m'
  | ReleaseLifecycleLock plugin_id => λ _, m' = release_lifecycle_lock plugin_id m
  | RememberGeneration plugin_id generation => λ r,
      remember_generation plugin_id generation m = (r, m')
  | TakeGeneration plugin_id => λ r, take_generation plugin_id m = (r, m')
  | TakeIfCurrent plugin_id generation => λ r, take_if_current plugin_id generation m = (r, m')
  | HasGeneration plugin_id => λ r, r = has_generation plugin_id m ∧ m' = m
  | CurrentGeneration plugin_id => λ r, r = current_generation plugin_id m ∧ m' = m
  | _ => λ _, m' = m
  end r.

(** ** The protocol of one task

    What the task that holds a plugin's lock knows of its token: that registry
    and memory agree, that there is none, that the registry has it and the memory
    as well, or only the registry. *)
Inductive token_state :=
  | Unsure
  | Gone
  | Live (generation : RuntimeGeneration) (token : option string)
  | Owing (generation : RuntimeGeneration)
  | Fresh (generation : RuntimeGeneration) (token : string).

Record rphase := mkRPhase {
  rp_lock : option PluginId;
  rp_token : token_state;
  (** the supervisor's last report was that the runtime is stopped or removed *)
  rp_stopped : bool;
}.
Definition rphase0 : rphase := mkRPhase None Unsure false.

Definition in_sync (t : token_state) : Prop :=
  match t with Unsure | Gone | Live _ _ => True | _ => False end.

Definition runtime_allowed (g : rphase) (c : RuntimeCall) : Prop :=
  match c with
  | LifecycleLock _ => rp_lock g = None
  | ReleaseLifecycleLock plugin_id =>
      rp_lock g = Some plugin_id ∧ in_sync (rp_token g) ∧ (rp_stopped g = true → rp_token g = Gone)
  | ClientStop plugin_id | ClientConfirmStopped plugin_id | ClientInspect plugin_id
  | ClientRemove plugin_id | TakeGeneration plugin_id | HasGeneration plugin_id
  | CurrentGeneration plugin_id =>
      rp_lock g = Some plugin_id ∧ in_sync (rp_token g)
  | TakeIfCurrent plugin_id generation =>
      rp_lock g = Some plugin_id ∧ ∃ token, rp_token g = Live generation token
  | RevokeToken plugin_id generation => rp_lock g = Some plugin_id ∧ rp_token g = Owing generation
  | RegisterToken plugin_id => rp_lock g = Some plugin_id ∧ rp_token g = Gone
  | RememberGeneration plugin_id generation =>
      rp_lock g = Some plugin_id ∧ ∃ token, rp_token g = Fresh generation token
  | ClientStartWithProxy plugin_id token =>
      rp_lock g = Some plugin_id ∧
      ∃ generation, rp_token g = Live generation (Some (proxy_token_value token))
  | _ => False
  end.

(** A registered token is one the supervisor accepts. *)
Definition runtime_possible (g : rphase) (c : RuntimeCall) : runtime_answer c → Prop :=
  match c return runtime_answer c → Prop with
  | RegisterToken _ => λ r : result ProxyRegistryError RegisteredProxyToken,
      ∀ token, r = Ok token → ProxyToken_new (registered_token token) = Ok (mkProxyToken (registered_token token))
  | TakeIfCurrent _ _ => λ r : bool, r = true
  | RememberGeneration _ _ => λ r : store_result unit, r = Ok tt
  | _ => λ _, True
  end.

(** The last report of the supervisor on a runtime. *)
Definition report_next (stopped : bool) (c : RuntimeCall) : runtime_answer c → bool :=
  match c return runtime_answer c → bool with
  | ClientStop plugin_id => λ r : result SupervisorError (PluginRuntimeState Json),
      match r with Ok state => is_stopped state plugin_id | Err _ => stopped end
  | ClientConfirmStopped plugin_id => λ r : result SupervisorError (PluginRuntimeState Json),
      match r with Ok state => is_stopped state plugin_id | Err _ => stopped end
  | ClientRemove _ => λ r : result SupervisorError PluginRemoveResult, is_ok r || stopped
  | ClientStartWithProxy _ _ | LifecycleLock _ => λ _, false
  | _ => λ _, stopped
  end.

Definition token_next (t : token_state) (c : RuntimeCall) : runtime_answer c → token_state :=
  match c return runtime_answer c → token_state with
  | LifecycleLock _ | ReleaseLifecycleLock _ => λ _, Unsure
  | HasGeneration _ => λ had : bool, if had then t else Gone
  | CurrentGeneration _ => λ r : option RuntimeGeneration,
      match r with Some generation => Live generation None | None => Gone end
  | TakeGeneration _ => λ r : option RuntimeGeneration,
      match r with Some generation => Owing generation | None => Gone end
  | TakeIfCurrent _ generation => λ _, Owing generation
  | RevokeToken _ _ => λ _, Gone
  | RegisterToken _ => λ r : result ProxyRegistryError RegisteredProxyToken,
      match r with
      | Ok token => Fresh (registered_generation token) (registered_token token)
      | Err _ => t
      end
  | RememberGeneration _ generation => λ _,
      match t with Fresh _ token => Live generation (Some token) | _ => t end
  | _ => λ _, t
  end.

Definition runtime_next (g : rphase) (c : RuntimeCall) (r : runtime_answer c) : rphase :=
  mkRPhase (match c with
            | LifecycleLock plugin_id => Some plugin_id
            | ReleaseLifecycleLock _ => None
            | _ => rp_lock g
            end) (token_next (rp_token g) c r) (report_next (rp_stopped g) c r).

Definition tracking : protocol runtime_answer rphase :=
  mkProtocol runtime_allowed runtime_possible runtime_next.

(** ** Every operation keeps to it *)

(** The operation on a plugin can end. *)
Definition settled (p : PluginId) (g : rphase) : Prop :=
  rp_lock g = Some p ∧ in_sync (rp_token g) ∧ (rp_stopped g = true → rp_token g = Gone).

Lemma with_lifecycle_lock_wp {A} p (body : prog runtime_answer (store_result A)) g :
  wp tracking body (λ _, settled p) (mkRPhase (Some p) Unsure false) → rp_lock g = None →
  wp tracking (with_lifecycle_lock p body) (λ _ _, True) g.
Proof.
  intros Hbody Hg. unfold with_lifecycle_lock. wp_step. wp_step; [done|]. wp_step.
  eapply wp_mono, Hbody. intros r g' Hg'. wp_step. by wp_step.
Qed.

Lemma revoke_generation_wp p t stopped Q :
  in_sync t → Q tt (mkRPhase (Some p) Gone stopped) →
  wp tracking (revoke_generation true p) Q (mkRPhase (Some p) t stopped).
Proof.
  intros Ht HQ. unfold revoke_generation. wp_step. wp_step; [done|]. destruct r as [generation|].
  - wp_step. by wp_step.
  - by wp_step.
Qed.

Lemma revoke_if_current_wp p generation token stopped Q :
  Q tt (mkRPhase (Some p) Gone stopped) →
  wp tracking (revoke_if_current true p generation) Q
    (mkRPhase (Some p) (Live generation token) stopped).
Proof.
  intros HQ. unfold revoke_if_current. wp_step. wp_step; [split; [done|by eexists]|].
  simpl in Hr. subst r. cbn [andb]. wp_step. by wp_step.
Qed.

(** A confirmation is a report; without it the report is that of before, or none. *)
Lemma confirm_cleanup_wp p t stopped Q :
  in_sync t →
  (∀ state, Q (Ok state) (mkRPhase (Some p) t true)) →
  (∀ error, Q (Err error) (mkRPhase (Some p) t false)) →
  (∀ error, Q (Err error) (mkRPhase (Some p) t stopped)) →
  wp tracking (confirm_cleanup p) Q (mkRPhase (Some p) t stopped).
Proof.
  intros Ht Hok Herr Hkeep. unfold confirm_cleanup, client. wp_step. wp_step. wp_step; [done|..]; [|apply Hkeep].
  unfold tracking, runtime_next. cbn [next report_next token_next rp_lock rp_token].
  destruct (is_stopped r p); cbn [negb]; apply wp_ret; [apply Hok|apply Herr].
Qed.

Lemma start_with_token_wp p stopped :
  wp tracking (start_with_token true p) (λ _, settled p) (mkRPhase (Some p) Gone stopped).
Proof.
  unfold start_with_token. wp_step. wp_step; [done|..]; [|done]. simpl in Hr. rewrite (Hr r eq_refl).
  wp_step. wp_step; [split; [done|by eexists]|..]; [|done]. wp_step.
  wp_step; [split; [done|by eexists]|..]; [done|].
  wp_step. apply confirm_cleanup_wp; [done| |done..]. intros state. wp_step.
  by apply revoke_if_current_wp.
Qed.

Lemma runtime_start_wp p g : rp_lock g = None → wp tracking (runtime_start true p) (λ _ _, True) g.
Proof.
  intros Hg. apply with_lifecycle_lock_wp; [|done]. cbn [negb]. wp_step. wp_step. wp_step; [done|].
  destruct r; [|apply start_with_token_wp]. wp_step. apply confirm_cleanup_wp; [done| |done..].
  intros state. wp_step. apply revoke_generation_wp; [done|]. wp_step. apply start_with_token_wp.
Qed.

Lemma runtime_stop_wp p g : rp_lock g = None → wp tracking (runtime_stop true p) (λ _ _, True) g.
Proof.
  intros Hg. apply with_lifecycle_lock_wp; [|done]. unfold client. wp_step. wp_step. wp_step; [done|..]; [|done].
  unfold tracking, runtime_next. cbn [next report_next token_next rp_lock rp_token].
  destruct (is_stopped r p); cbn [negb]; [|done]. wp_step. by apply revoke_generation_wp.
Qed.

Lemma inspect_cleanup_wp p generation :
  wp tracking (inspect_cleanup true p generation) (λ _, settled p)
    (mkRPhase (Some p) (match generation with Some g => Live g None | None => Gone end) false).
Proof.
  unfold inspect_cleanup. wp_step. apply confirm_cleanup_wp; [by destruct generation| |by destruct generation..].
  intros state. wp_step. destruct generation; [by apply revoke_if_current_wp|done].
Qed.

Lemma inspect_wp p g : rp_lock g = None → wp tracking (runtime_inspect true p) (λ _ _, True) g.
Proof.
  intros Hg. apply with_lifecycle_lock_wp; [|done]. cbn [negb]. wp_step. wp_step; [done|].
  rename r into generation. wp_step. wp_step; [split; [done|by destruct generation]|..];
    [|by apply inspect_cleanup_wp].
  destruct (negb (eqb (runtime_state_plugin_id r) p)); [by apply inspect_cleanup_wp|].
  destruct (negb (eqb (runtime_state_status r) Healthy) || is_none generation);
    [by apply inspect_cleanup_wp|]. by destruct generation.
Qed.

Lemma remove_wp p g : rp_lock g = None → wp tracking (runtime_remove true p) (λ _ _, True) g.
Proof.
  intros Hg. apply with_lifecycle_lock_wp; [|done]. unfold client. wp_step. wp_step. wp_step; [done|..]; [|done].
  wp_step. by apply revoke_generation_wp.
Qed.

Lemma runtime_task_wp p : runtime_task p → wp tracking p (λ _ _, True) rphase0.
Proof.
  intros [plugin_id|plugin_id|plugin_id|plugin_id]; unfold discarded; wp_step.
  - by eapply wp_mono, runtime_start_wp.
  - by eapply wp_mono, runtime_stop_wp.
  - by eapply wp_mono, inspect_wp.
  - by eapply wp_mono, remove_wp.
Qed.

(** ** The registry *)

Definition registry_ok (registry : ProxyTokenRegistry) : Prop :=
  registry_poisoned registry = false ∧
  ∀ digest runtime, by_digest registry !! digest = Some runtime →
    by_plugin registry !! runtime_plugin_id runtime = Some (runtime_generation runtime, digest).

Lemma register_spec random uuid p registry r registry' :
  registry_ok registry → register random uuid p registry = (r, registry') →
  registry_ok registry' ∧ (∀ q, q ≠ p → by_plugin registry' !! q = by_plugin registry !! q) ∧
  match r with
  | Ok token => (∃ drawn, random = Some drawn ∧ registered_token token = b64_encode drawn) ∧
      by_plugin registry' !! p =
        Some (registered_generation token, token_digest (registered_token token))
  | Err _ => registry' = registry
  end.
Proof.
  intros [Hp Hd]. unfold register. destruct random as [drawn|]; [|by intros [= <- <-]].
  rewrite Hp. destruct (_ && _); [by intros [= <- <-]|]. intros [= <- <-]. simpl.
  split_and!; [split; [done|]|..]; simpl.
  - intros digest runtime. destruct (decide (digest = token_digest (b64_encode drawn))) as [->|Hne].
    { rewrite lookup_insert_eq. intros [= <-]. simpl. by rewrite lookup_insert_eq. }
    rewrite lookup_insert_ne by done. intros Hr.
    assert (by_digest registry !! digest = Some runtime ∧ runtime_plugin_id runtime ≠ p) as [Hr' Hq].
    { destruct (by_plugin registry !! p) as [[g d]|] eqn:E.
      - apply lookup_delete_Some in Hr as [Hne' Hr]. split; [done|]. intros Hp'.
        apply Hd in Hr. rewrite Hp', E in Hr. congruence.
      - split; [done|]. intros Hp'. apply Hd in Hr. by rewrite Hp', E in Hr. }
    rewrite lookup_insert_ne, lookup_delete_ne by done. by apply Hd.
  - intros q Hq. by rewrite lookup_insert_ne, lookup_delete_ne by done.
  - by eexists.
  - by rewrite lookup_insert_eq.
Qed.

Lemma revoke_spec p generation registry r registry' digest :
  registry_ok registry → by_plugin registry !! p = Some (generation, digest) →
  revoke p generation registry = (r, registry') →
  registry_ok registry' ∧ (∀ q, q ≠ p → by_plugin registry' !! q = by_plugin registry !! q) ∧
  by_plugin registry' !! p = None.
Proof.
  intros [Hp Hd] He. unfold revoke. rewrite Hp, He, eqb_refl. intros [= _ <-]. simpl.
  split_and!; [split; [done|]|..]; simpl.
  - intros d runtime [Hne Hr]%lookup_delete_Some. rewrite lookup_delete_ne; [by apply Hd|].
    intros Hq. apply Hd in Hr. rewrite <- Hq, He in Hr. congruence.
  - intros q Hq. by rewrite lookup_delete_ne.
  - by rewrite lookup_delete_eq.
Qed.

(** ** All tasks together *)

Definition entry (p : PluginId) (m : RuntimeMemory) : option (RuntimeGeneration * list byte) :=
  by_plugin (runtime_registry m) !! p.
Definition agrees (p : PluginId) (m : RuntimeMemory) : Prop :=
  fst <$> entry p m = generations m !! p.

Definition token_ok (m : RuntimeMemory) (p : PluginId) (t : token_state) : Prop :=
  match t with
  | Unsure => agrees p m
  | Gone => entry p m = None ∧ generations m !! p = None
  | Live g token => generations m !! p = Some g ∧
      ∃ digest, entry p m = Some (g, digest) ∧ ∀ t, token = Some t → digest = token_digest t
  | Owing g => generations m !! p = None ∧ ∃ digest, entry p m = Some (g, digest)
  | Fresh g token => entry p m = Some (g, token_digest token)
  end.

Lemma in_sync_agrees m p t : in_sync t → token_ok m p t → agrees p m.
Proof.
  unfold agrees. destruct t as [| |g token|g|g token]; try done; simpl; intros _.
  - intros [-> ->]. done.
  - intros (-> & digest & -> & _). done.
Qed.

Record tokens_inv (m : RuntimeMemory) (gs : list rphase) : Prop := {
  tokens_registry : registry_ok (runtime_registry m);
  tokens_held i g p : gs !! i = Some g → rp_lock g = Some p → p ∈ lifecycle_locks m;
  tokens_unique i j g g' p : gs !! i = Some g → gs !! j = Some g' →
    rp_lock g = Some p → rp_lock g' = Some p → i = j;
  tokens_idle p : p ∉ lifecycle_locks m → agrees p m;
  tokens_owned i g p : gs !! i = Some g → rp_lock g = Some p → token_ok m p (rp_token g);
}.

(** The task that holds the lock of [p] changes what there is for [p]. *)
Lemma tokens_update m m' gs i g g' p :
  tokens_inv m gs → gs !! i = Some g → rp_lock g = Some p → rp_lock g' = Some p →
  registry_ok (runtime_registry m') → lifecycle_locks m' = lifecycle_locks m →
  (∀ q, q ≠ p → entry q m' = entry q m ∧ generations m' !! q = generations m !! q) →
  token_ok m' p (rp_token g') → tokens_inv m' (<[i := g']> gs).
Proof.
  intros Hinv Hi Hl Hl' Hreg Hlocks Hother Hok.
  assert (∀ q t, q ≠ p → token_ok m q t → token_ok m' q t) as Hframe.
  { intros q t Hq. destruct (Hother q Hq) as [He Hg]. destruct t; unfold token_ok, agrees;
      rewrite He, ?Hg; done. }
  split; [done|..].
  - intros j x q [[-> ->]|[_ Hj]]%insert_cases; rewrite Hlocks; [rewrite Hl'|];
      [intros [= <-]; by eapply (tokens_held _ _ Hinv)|by eapply (tokens_held _ _ Hinv)].
  - intros j j' x x' q [[-> ->]|[Hne Hj]]%insert_cases [[-> ->]|[Hne' Hj']]%insert_cases;
      rewrite ?Hl', <- ?Hl; intros Hx Hx'; [done|by eapply (tokens_unique _ _ Hinv)..].
  - intros q Hq. rewrite Hlocks in Hq.
    assert (q ≠ p) as Hqp by (intros ->; by apply Hq, (tokens_held _ _ Hinv _ _ _ Hi)).
    apply (Hframe q Unsure Hqp), (tokens_idle _ _ Hinv), Hq.
  - intros j x q [[-> ->]|[Hne Hj]]%insert_cases; [rewrite Hl'; by intros [= <-]|]. intros Hx.
    apply Hframe; [|by eapply (tokens_owned _ _ Hinv)].
    intros ->. by apply Hne, (tokens_unique _ _ Hinv j i x g p).
Qed.

Lemma tokens_lock m m' gs i g g' p :
  tokens_inv m gs → gs !! i = Some g → rp_lock g = None → lifecycle_lock p m = Some m' →
  g' = mkRPhase (Some p) Unsure false → tokens_inv m' (<[i := g']> gs).
Proof.
  intros Hinv Hi Hl. unfold lifecycle_lock. case_decide as Hp; [done|]. intros [= <-] ->. split; simpl.
  - apply (tokens_registry _ _ Hinv).
  - intros j x q [[-> ->]|[_ Hj]]%insert_cases; simpl; [set_solver|]. intros Hq.
    apply (tokens_held _ _ Hinv _ _ _ Hj) in Hq. set_solver.
  - intros j j' x x' q [[-> ->]|[Hne Hj]]%insert_cases [[-> ->]|[Hne' Hj']]%insert_cases;
      intros Hx Hx'; simpl in *; simplify_eq; [done|..].
    + by apply (tokens_held _ _ Hinv _ _ _ Hj') in Hx'.
    + by apply (tokens_held _ _ Hinv _ _ _ Hj) in Hx.
    + by eapply (tokens_unique _ _ Hinv).
  - intros q Hq. apply (tokens_idle _ _ Hinv). set_solver.
  - intros j x q [[-> ->]|[_ Hj]]%insert_cases; simpl.
    + intros [= <-]. by apply (tokens_idle _ _ Hinv).
    + by eapply (tokens_owned _ _ Hinv).
Qed.

Lemma tokens_release m gs i g g' p :
  tokens_inv m gs → gs !! i = Some g → rp_lock g = Some p → in_sync (rp_token g) →
  rp_lock g' = None → tokens_inv (release_lifecycle_lock p m) (<[i := g']> gs).
Proof.
  intros Hinv Hi Hl Hsync Hl'. split; simpl.
  - apply (tokens_registry _ _ Hinv).
  - intros j x q [[-> ->]|[Hne Hj]]%insert_cases; [by rewrite Hl'|]. intros Hq.
    assert (q ≠ p) by (intros ->; by apply Hne, (tokens_unique _ _ Hinv j i x g p)).
    apply (tokens_held _ _ Hinv _ _ _ Hj) in Hq. set_solver.
  - intros j j' x x' q [[-> ->]|[Hne Hj]]%insert_cases [[-> ->]|[Hne' Hj']]%insert_cases;
      rewrite ?Hl'; intros Hx Hx'; [done..|]. by eapply (tokens_unique _ _ Hinv).
  - intros q Hq. destruct (decide (q = p)) as [->|Hne].
    + eapply in_sync_agrees; [done|]. by apply (tokens_owned _ _ Hinv _ _ _ Hi Hl).
    + apply (tokens_idle _ _ Hinv). set_solver.
  - intros j x q [[-> ->]|[_ Hj]]%insert_cases; [by rewrite Hl'|]. by eapply (tokens_owned _ _ Hinv).
Qed.

(** The encoding of 32 bytes is a token the supervisor accepts. *)
Definition tokens_acceptable : Prop :=
  ∀ drawn, zlen drawn = 32 →
    ProxyToken_new (b64_encode drawn) = Ok (mkProxyToken (b64_encode drawn)).

(** The calls that change the registry or the memory, by the task that holds the
    lock of the plugin. *)
Section changes.
Context (m m' : RuntimeMemory) (gs : list rphase) (i : nat) (g : rphase) (p : PluginId).
Context (Hinv : tokens_inv m gs) (Hi : gs !! i = Some g) (Hl : rp_lock g = Some p).

(** What the task knows of the token when registry and memory agree. *)
Lemma owned_agrees : in_sync (rp_token g) → agrees p m.
Proof. intros Hsync. eapply in_sync_agrees; [done|]. by eapply (tokens_owned _ _ Hinv). Qed.

Lemma register_inv r :
  tokens_acceptable → rp_token g = Gone → registered p m r m' →
  possible tracking g (RegisterToken p) r ∧
  tokens_inv m' (<[i := next tracking g (RegisterToken p) r]> gs).
Proof.
  intros Hb64 Ht (random & uuid & registry & Hdrawn & Hr & ->).
  pose proof (tokens_owned _ _ Hinv i g p Hi Hl) as Hown. rewrite Ht in Hown. destruct Hown as [He Hg].
  apply register_spec in Hr as (Hok & Hother & Hr); [|by apply (tokens_registry _ _ Hinv)]. split.
  - intros token ->. destruct Hr as [(drawn & -> & ->) _]. by apply Hb64, Hdrawn.
  - apply (tokens_update m _ gs i g _ p); try done.
    + intros q Hq. split; [by apply Hother|done].
    + simpl. rewrite Ht. destruct r as [token|e]; simpl; [by apply Hr|]. by subst registry.
Qed.

Lemma revoke_inv generation r :
  rp_token g = Owing generation →
  (∃ registry, revoke p generation (runtime_registry m) = (r, registry) ∧ m' = set_registry registry m) →
  tokens_inv m' (<[i := next tracking g (RevokeToken p generation) r]> gs).
Proof.
  intros Ht (registry & Hr & ->). pose proof (tokens_owned _ _ Hinv i g p Hi Hl) as Hown.
  rewrite Ht in Hown. destruct Hown as (Hg & digest & He).
  eapply revoke_spec in Hr as (Hok & Hother & Hnone); [|by apply (tokens_registry _ _ Hinv)|done].
  apply (tokens_update m _ gs i g _ p); try done. intros q Hq. split; [by apply Hother|done].
Qed.

Lemma remember_inv generation r :
  (∃ token, rp_token g = Fresh generation token) → remember_generation p generation m = (r, m') →
  r = Ok tt ∧ tokens_inv m' (<[i := next tracking g (RememberGeneration p generation) r]> gs).
Proof.
  intros (token & Ht) [= <- <-]. pose proof (tokens_owned _ _ Hinv i g p Hi Hl) as Hown.
  rewrite Ht in Hown. split; [done|]. apply (tokens_update m _ gs i g _ p); try done.
  - apply (tokens_registry _ _ Hinv).
  - intros q Hq. split; [done|]. by apply lookup_insert_ne.
  - simpl. rewrite Ht. split; [apply lookup_insert_eq|]. eexists. split; [exact Hown|]. by intros t [= <-].
Qed.

(** The generation is taken out of the memory. *)
Lemma take_inv g' :
  rp_lock g' = Some p → m' = set_generations (delete p) m → agrees p m →
  rp_token g' = match generations m !! p with Some generation => Owing generation | None => Gone end →
  tokens_inv m' (<[i := g']> gs).
Proof.
  intros Hl' -> Hagree Ht. apply (tokens_update m _ gs i g _ p); try done.
  - apply (tokens_registry _ _ Hinv).
  - intros q Hq. split; [done|]. by apply lookup_delete_ne.
  - rewrite Ht. unfold agrees in Hagree. destruct (generations m !! p) as [generation|] eqn:E;
      simpl; rewrite lookup_delete_eq; destruct (entry p m) as [[gen digest]|] eqn:Ee; simplify_eq/=;
      unfold entry in *; simpl; rewrite Ee; eauto.
Qed.
End changes.

Lemma tokens_step m gs i g c r m' :
  tokens_acceptable → tokens_inv m gs → gs !! i = Some g → allowed tracking g c →
  runtime_sem c m r m' → possible tracking g c r ∧ tokens_inv m' (<[i := next tracking g c r]> gs).
Proof.
  intros Hb64 Hinv Hi Ha Hsem. pose proof (tokens_registry _ _ Hinv) as Hreg.
  pose proof (λ p, tokens_owned _ _ Hinv i g p Hi) as Hown.
  assert (∀ p g', rp_lock g = Some p → rp_lock g' = Some p → token_ok m p (rp_token g') →
    tokens_inv m (<[i := g']> gs)) as Hlearn.
  { intros p g' Hl Hl' Ht. by apply (tokens_update m m gs i g g' p). }
  destruct c; simpl in Ha, Hsem; try done.
  1-5: destruct Ha as [Hl _]; subst m'; (split; [done|]); by apply (Hlearn plugin_id); [..|apply Hown].
  - destruct Ha as [Hl Ht]. by apply (register_inv m m').
  - destruct Ha as [Hl Ht]. split; [done|]. by apply (revoke_inv m m').
  - split; [done|]. by eapply (tokens_lock m m').
  - destruct Ha as (Hl & Hsync & _). subst m'. split; [done|]. by eapply tokens_release.
  - destruct Ha as [Hl Ht]. by apply (remember_inv m m').
  - destruct Ha as [Hl Ht]. injection Hsem as <- <-. split; [done|].
    eapply take_inv; try done. by eapply owned_agrees.
  - destruct Ha as (Hl & token & Ht). pose proof (Hown _ Hl) as Hlive. rewrite Ht in Hlive.
    destruct Hlive as (Hg & digest & He & _).
    unfold take_if_current in Hsem. rewrite Hg, eqb_refl in Hsem. injection Hsem as <- <-.
    split; [done|]. eapply take_inv; try done; [|by rewrite Hg].
    eapply owned_agrees; [done..|by rewrite Ht].
  - destruct Ha as [Hl Ht]. destruct Hsem as [-> ->]. split; [done|]. apply (Hlearn plugin_id); [done..|].
    pose proof (owned_agrees m gs i g plugin_id Hinv Hi Hl Ht) as Hagree. simpl.
    unfold has_generation, agrees in *. destruct (generations m !! plugin_id) eqn:E; simpl; [by apply Hown|].
    split; [|done]. by destruct (entry plugin_id m).
  - destruct Ha as [Hl Ht]. destruct Hsem as [-> ->]. split; [done|]. apply (Hlearn plugin_id); [done..|].
    pose proof (owned_agrees m gs i g plugin_id Hinv Hi Hl Ht) as Hagree. simpl.
    unfold current_generation, agrees in *. destruct (generations m !! plugin_id) eqn:E; simpl;
      destruct (entry plugin_id m) as [[gen digest]|] eqn:Ee; simplify_eq/=; [|done].
    split; [done|]. by exists digest.
Qed.

(** ** The result *)

Definition lifecycle_call (p : PluginId) (c : RuntimeCall) : Prop :=
  c = ClientStop p ∨ c = ClientConfirmStopped p ∨ c = ClientInspect p ∨ c = ClientRemove p ∨
  ∃ token, c = ClientStartWithProxy p token.

(** The last report of the supervisor in a history, since the lock was taken. *)
Definition reported_stopped (h : history) : bool :=
  foldl (λ stopped (e : event), report_next stopped (projT1 e) (projT2 e)) false h.

Lemma ghost_stopped h : rp_stopped (ghost tracking rphase0 h) = reported_stopped h.
Proof.
  unfold ghost, reported_stopped. induction h as [|e h IH] using rev_ind; [done|].
  rewrite !foldl_app, <- IH. done.
Qed.

Definition runtime_pool : Type := list (history (answer := runtime_answer) * prog runtime_answer unit).
Definition runtime0 (capacity : Z) : RuntimeMemory :=
  mkRuntimeMemory (mkProxyTokenRegistry capacity ∅ ∅ false) ∅ ∅.

Lemma tokens_reachable capacity (ps : runtime_pool) m :
  tokens_acceptable → rtc (pool_step runtime_sem runtime_task) ([], runtime0 capacity) (ps, m) →
  Forall (λ t, wp tracking t.2 (λ _ _, True) (ghost tracking rphase0 t.1)) ps ∧
  tokens_inv m ((ghost tracking rphase0 ∘ fst) <$> ps).
Proof.
  intros Hb64. apply pool_invariant.
  - apply runtime_task_wp.
  - intros s gs Hinv. assert (∀ i g p, (gs ++ [rphase0]) !! i = Some g → rp_lock g = Some p →
      gs !! i = Some g) as Happ.
    { intros i g p [?|(_ & Hg)]%lookup_app_Some Hl; [done|].
      apply list_lookup_singleton_Some in Hg as [_ <-]. done. }
    split; [apply (tokens_registry _ _ Hinv)| | |apply (tokens_idle _ _ Hinv)|].
    + intros i g p Hi Hl. eapply (tokens_held _ _ Hinv); eauto.
    + intros i j g g' p Hi Hj Hl Hl'. eapply (tokens_unique _ _ Hinv); eauto.
    + intros i g p Hi Hl. eapply (tokens_owned _ _ Hinv); eauto.
  - intros s gs i g c r s' Hinv Hi Ha Hsem. by eapply tokens_step.
  - split; simpl; try done.
Qed.

Lemma pending_phase (ps : runtime_pool) m i h c k :
  Forall (λ t, wp tracking t.2 (λ _ _, True) (ghost tracking rphase0 t.1)) ps →
  tokens_inv m ((ghost tracking rphase0 ∘ fst) <$> ps) → ps !! i = Some (h, Vis c k) →
  ((ghost tracking rphase0 ∘ fst) <$> ps) !! i = Some (ghost tracking rphase0 h) ∧
  runtime_allowed (ghost tracking rphase0 h) c.
Proof.
  intros Hps Hinv Hi. split; [rewrite list_lookup_fmap; by setoid_rewrite Hi|].
  pose proof (Forall_lookup_1 _ _ _ _ Hps Hi) as [Hc _]. done.
Qed.

Lemma lifecycle_locked g p c : lifecycle_call p c → runtime_allowed g c → rp_lock g = Some p.
Proof. intros [->|[->|[->|[->|(token & ->)]]]]; by intros [? ?]. Qed.

(** C31. Whatever operations on runtimes run, in whatever interleaving and with
    whatever answers of the supervisor: two tasks never talk to the supervisor
    about the same runtime; a runtime is started with the token registered for it
    and remembered; an operation that ends after the supervisor reported the
    runtime stopped or removed leaves no token that authenticates as the plugin;
    and for a plugin nobody is working on the registry has exactly the
    generation that is remembered. *)
Theorem runtime_tokens_tracked capacity (ps : runtime_pool) m :
  tokens_acceptable → rtc (pool_step runtime_sem runtime_task) ([], runtime0 capacity) (ps, m) →
  (∀ i j h h' c c' k k' p, ps !! i = Some (h, Vis c k) → ps !! j = Some (h', Vis c' k') →
     lifecycle_call p c → lifecycle_call p c' → i = j) ∧
  (∀ i h p token k, ps !! i = Some (h, Vis (ClientStartWithProxy p token) k) →
     ∃ generation, generations m !! p = Some generation ∧
       by_plugin (runtime_registry m) !! p = Some (generation, token_digest (proxy_token_value token))) ∧
  (∀ i h p k token runtime, ps !! i = Some (h, Vis (ReleaseLifecycleLock p) k) →
     reported_stopped h = true → authenticate (runtime_registry m) token = Ok runtime →
     runtime_plugin_id runtime ≠ p) ∧
  ∀ p, p ∉ lifecycle_locks m →
    fst <$> by_plugin (runtime_registry m) !! p = generations m !! p.
Proof.
  intros Hb64 Hrun. destruct (tokens_reachable _ _ _ Hb64 Hrun) as [Hps Hinv]. split_and!.
  - intros i j h h' c c' k k' p Hi Hj Hc Hc'.
    destruct (pending_phase _ _ _ _ _ _ Hps Hinv Hi) as [Hgi Hai].
    destruct (pending_phase _ _ _ _ _ _ Hps Hinv Hj) as [Hgj Haj].
    eapply (tokens_unique _ _ Hinv); eauto using lifecycle_locked.
  - intros i h p token k Hi.
    destruct (pending_phase _ _ _ _ _ _ Hps Hinv Hi) as [Hgi (Hl & generation & Ht)].
    pose proof (tokens_owned _ _ Hinv _ _ _ Hgi Hl) as Hown. rewrite Ht in Hown.
    destruct Hown as (Hg & digest & He & Hd). exists generation. split; [done|].
    rewrite <- (Hd _ eq_refl). exact He.
  - intros i h p k token runtime Hi Hstopped Hauth Hp.
    destruct (pending_phase _ _ _ _ _ _ Hps Hinv Hi) as [Hgi (Hl & _ & Hgone)].
    rewrite <- ghost_stopped in Hstopped. pose proof (tokens_owned _ _ Hinv _ _ _ Hgi Hl) as Hown.
    rewrite (Hgone Hstopped) in Hown. destruct Hown as [Hnone _].
    destruct (tokens_registry _ _ Hinv) as [_ Hd]. unfold authenticate in Hauth.
    destruct (_ || _); [done|]. destruct (registry_poisoned _); [done|].
    apply ok_or_Ok, Hd in Hauth. rewrite Hp in Hauth. unfold entry in Hnone. congruence.
  - apply (tokens_idle _ _ Hinv).
Qed.
End tokens.
