(* ===== verification/ContainerPolicy.v ===== *)
(** * Container policy of the supervisor (crates/audiodown-supervisor/src/policy.rs)

    What an installed plugin may do: the settings of its container, of the
    gateway next to it and of the network that joins the two.  SHA-256 is the
    [Encoding] interface; a label map is a [gmap]. *)

From S2P Require Import Prelude Text Domain Foreign SupervisorProtocol.

Definition DEFAULT_GATEWAY_IMAGE : string := "audiodown/plugin-gateway:1.0.0-alpha.1".
Definition DEFAULT_PROXY_VOLUME : string := "audiodown-proxy".
Definition PROXY_GATEWAY_URL : string := "http://audiodown-gateway:18081".
Definition PROXY_GATEWAY_ALIAS : string := "audiodown-gateway".
Definition PROXY_BACKEND_SOCKET : string := "/run/audiodown-proxy/core.sock".
Definition PROXY_MOUNT_PATH : string := "/run/audiodown-proxy".
Definition GATEWAY_MEMORY_BYTES : Z := 64 * 1024 * 1024.
Definition GATEWAY_NANO_CPUS : Z := 250000000.
Definition GATEWAY_PIDS_LIMIT : Z := 32.

Abbreviation labels := (gmap string string).

Inductive PolicyError :=
  InvalidLimit | InvalidRuntimePath | InvalidGatewayImage | InvalidProxyVolume.

Record InstalledPlugin := mkInstalledPlugin {
  installed_plugin_id : PluginId;
  installed_image_id : string;
  installed_installation_id : string;
  installed_runtime_path : string;
  installed_memory_bytes : Z;
  installed_nano_cpus : Z;
  installed_pids_limit : Z;
}.

(** What plugin and gateway containers have in common in the specifications. *)
Record ContainerSettings := mkContainerSettings {
  settings_container_name : string;
  settings_labels : labels;
  settings_read_only : bool;
  settings_tmpfs : list string;
  settings_mounts : list string;
  settings_public_ports : list Z;
  settings_privileged : bool;
  settings_cap_add : list string;
  settings_cap_drop : list string;
  settings_security_opt : list string;
  settings_pids_limit : Z;
  settings_memory_bytes : Z;
  settings_nano_cpus : Z;
  settings_host_network : bool;
}.

Record PluginContainerSpec := mkPluginContainerSpec {
  spec_plugin_id : PluginId;
  spec_image_id : string;
  spec_command : list string;
  spec_settings : ContainerSettings;
}.

Record GatewayRuntimeConfig := mkGatewayRuntimeConfig {
  gateway_config_image : string;
  gateway_config_proxy_volume : string;
}.

Definition is_ascii_alphanumeric (byte : ascii) : bool :=
  is_ascii_lowercase byte || is_ascii_uppercase byte || is_ascii_digit byte.

Definition GatewayRuntimeConfig_new (image proxy_volume : string) :
    result PolicyError GatewayRuntimeConfig :=
  if str_is_empty image || (str_len image >? 512)
     || negb (str_all (λ byte, is_ascii_alphanumeric byte || str_contains "._-/:@" byte) image)
  then Err InvalidGatewayImage
  else if str_is_empty proxy_volume || (str_len proxy_volume >? 255)
          || negb (is_some_and is_ascii_alphanumeric (head (bytes proxy_volume)))
          || negb (str_all (λ byte, is_ascii_alphanumeric byte || str_contains "._-" byte)
                     proxy_volume)
  then Err InvalidProxyVolume
  else Ok (mkGatewayRuntimeConfig image proxy_volume).

Record RuntimeResourceNames := mkRuntimeResourceNames {
  names_plugin_container : string;
  names_gateway_container : string;
  names_network : string;
}.

Record PluginNetworkSpec := mkPluginNetworkSpec {
  network_name : string;
  network_labels : labels;
  network_internal : bool;
  network_attachable : bool;
}.

Record RuntimePluginContainerSpec := mkRuntimePluginContainerSpec {
  plugin_spec_plugin_id : PluginId;
  plugin_spec_image_id : string;
  plugin_spec_command : list string;
  plugin_spec_settings : ContainerSettings;
  plugin_spec_network_name : string;
  plugin_spec_proxy_url : string;
  plugin_spec_proxy_token : ProxyToken;
  plugin_spec_dns : list string;
}.

Record GatewayContainerSpec := mkGatewayContainerSpec {
  gateway_spec_image : string;
  gateway_spec_settings : ContainerSettings;
  gateway_spec_network_name : string;
  gateway_spec_network_alias : string;
  gateway_spec_backend_socket : string;
  gateway_spec_proxy_volume : string;
  gateway_spec_dns : list string;
}.

Record PluginRuntimePolicy := mkPluginRuntimePolicy {
  policy_plugin : RuntimePluginContainerSpec;
  policy_gateway : GatewayContainerSpec;
  policy_network : PluginNetworkSpec;
}.

(** [format!("{byte:02x}")] *)
Definition hex_digit (n : Z) : ascii := chr (if n <? 10 then 48 + n else 87 + n).
Definition hex_byte (byte : ascii) : list ascii :=
  [hex_digit (code byte / 16); hex_digit (code byte mod 16)].
Definition hex (l : list ascii) : string := str (concat (hex_byte <$> l)).

Section policy.
Context {B : Encoding}.

Definition short_plugin_hash (plugin_id : PluginId) : string :=
  hex (take 6 (sha256 (bytes (PluginId_as_str plugin_id)))).

Definition RuntimeResourceNames_for_plugin (plugin_id : PluginId) : RuntimeResourceNames :=
  let short_hash := short_plugin_hash plugin_id in
  mkRuntimeResourceNames ("audiodown-plugin-" +:+ short_hash) ("audiodown-gateway-" +:+ short_hash)
    ("audiodown-plugin-network-" +:+ short_hash).

Definition PluginContainerPolicy_build (installed : InstalledPlugin) :
    result PolicyError PluginContainerSpec :=
  if (installed_memory_bytes installed <=? 0) || (installed_nano_cpus installed <=? 0)
     || (installed_pids_limit installed <=? 0)
  then Err InvalidLimit
  else if negb (starts_with (installed_runtime_path installed) "/plugin/")
  then Err InvalidRuntimePath
  else
    let short_hash := short_plugin_hash (installed_plugin_id installed) in
    let labels : labels :=
      <["io.audiodown.plugin-id" := PluginId_as_str (installed_plugin_id installed)]>
        (<["io.audiodown.installation" := installed_installation_id installed]>
          (<["io.audiodown.managed" := "true"]> ∅)) in
    Ok {|
      spec_plugin_id := installed_plugin_id installed;
      spec_image_id := installed_image_id installed;
      spec_command := ["node"; installed_runtime_path installed];
      spec_settings := {|
        settings_container_name := "audiodown-plugin-" +:+ short_hash;
        settings_labels := labels;
        settings_read_only := true;
        settings_tmpfs := [
          "/tmp:rw,noexec,nosuid,nodev,size=67108864";
          "/run/audiodown-secrets:rw,noexec,nosuid,nodev,size=4096,mode=0700,uid=10002,gid=10002"];
        settings_mounts := [];
        settings_public_ports := [];
        settings_privileged := false;
        settings_cap_add := [];
        settings_cap_drop := ["ALL"];
        settings_security_opt := ["no-new-privileges:true"];
        settings_pids_limit := installed_pids_limit installed;
        settings_memory_bytes := installed_memory_bytes installed;
        settings_nano_cpus := installed_nano_cpus installed;
        settings_host_network := false;
      |};
    |}.

(** [None] is the panic of indexing a map at a key it does not have. *)
Definition managed_labels (plugin_id : PluginId) (plugin_labels : labels) (resource : string) :
    option labels :=
  installation ← plugin_labels !! "io.audiodown.installation";
  Some (<["io.audiodown.resource" := resource]>
    (<["io.audiodown.plugin-id" := PluginId_as_str plugin_id]>
      (<["io.audiodown.installation" := installation]>
        (<["io.audiodown.managed" := "true"]> ∅)))).

Definition set_container_name (name : string) (s : ContainerSettings) : ContainerSettings :=
  mkContainerSettings name (settings_labels s) (settings_read_only s) (settings_tmpfs s)
    (settings_mounts s) (settings_public_ports s) (settings_privileged s) (settings_cap_add s)
    (settings_cap_drop s) (settings_security_opt s) (settings_pids_limit s)
    (settings_memory_bytes s) (settings_nano_cpus s) (settings_host_network s).
Definition set_labels (f : labels → labels) (s : ContainerSettings) : ContainerSettings :=
  mkContainerSettings (settings_container_name s) (f (settings_labels s)) (settings_read_only s)
    (settings_tmpfs s) (settings_mounts s) (settings_public_ports s) (settings_privileged s)
    (settings_cap_add s) (settings_cap_drop s) (settings_security_opt s) (settings_pids_limit s)
    (settings_memory_bytes s) (settings_nano_cpus s) (settings_host_network s).

Definition PluginRuntimePolicy_build (installed : InstalledPlugin)
    (gateway_config : GatewayRuntimeConfig) (proxy_token : ProxyToken) :
    option (result PolicyError PluginRuntimePolicy) :=
  match PluginContainerPolicy_build installed with
  | Err error => Some (Err error)
  | Ok plugin =>
      let plugin_id := spec_plugin_id plugin in
      let names := RuntimeResourceNames_for_plugin plugin_id in
      let settings :=
        set_labels (<["io.audiodown.resource" := "plugin"]>)
          (set_container_name (names_plugin_container names) (spec_settings plugin)) in
      network_labels ← managed_labels plugin_id (settings_labels settings) "network";
      gateway_labels ← managed_labels plugin_id (settings_labels settings) "gateway";
      Some (Ok {|
        policy_network := {|
          network_name := names_network names;
          network_labels := network_labels;
          network_internal := true;
          network_attachable := false;
        |};
        policy_gateway := {|
          gateway_spec_image := gateway_config_image gateway_config;
          gateway_spec_settings := {|
            settings_container_name := names_gateway_container names;
            settings_labels := gateway_labels;
            settings_read_only := true;
            settings_tmpfs := ["/tmp:rw,noexec,nosuid,nodev,size=16777216"];
            settings_mounts :=
              [gateway_config_proxy_volume gateway_config +:+ ":" +:+ PROXY_MOUNT_PATH +:+ ":ro"];
            settings_public_ports := [];
            settings_privileged := false;
            settings_cap_add := [];
            settings_cap_drop := ["ALL"];
            settings_security_opt := ["no-new-privileges:true"];
            settings_pids_limit := GATEWAY_PIDS_LIMIT;
            settings_memory_bytes := GATEWAY_MEMORY_BYTES;
            settings_nano_cpus := GATEWAY_NANO_CPUS;
            settings_host_network := false;
          |};
          gateway_spec_network_name := names_network names;
          gateway_spec_network_alias := PROXY_GATEWAY_ALIAS;
          gateway_spec_backend_socket := PROXY_BACKEND_SOCKET;
          gateway_spec_proxy_volume := gateway_config_proxy_volume gateway_config;
          gateway_spec_dns := ["0.0.0.0"];
        |};
        policy_plugin := {|
          plugin_spec_plugin_id := plugin_id;
          plugin_spec_image_id := spec_image_id plugin;
          plugin_spec_command := spec_command plugin;
          plugin_spec_settings := settings;
          plugin_spec_network_name := names_network names;
          plugin_spec_proxy_url := PROXY_GATEWAY_URL;
          plugin_spec_proxy_token := proxy_token;
          plugin_spec_dns := ["0.0.0.0"];
        |};
      |})
  end.
End policy.
