(* ===== verification/SupervisorHost.v ===== *)
(** * What the supervisor asks of its host

    The code of the supervisor that runs in tasks is written as programs
    (Program.v) over these calls: the Docker API of the bollard crate, files,
    clocks, and the parts of shared memory that are guarded by a mutex.  What
    Docker and the disk answer is unknown: Docker may fail at any call, and other
    processes may have created containers, networks, images and links. *)

From S2P Require Import Prelude Text Domain ContentContract CredentialContract Database.
From S2P Require Import SupervisorProtocol Fs InstallOperation ContainerPolicy Program.

(** ** The Docker API *)

(** [bollard::errors::Error]: the status of a server error, and its text. *)
Record DockerError := mkDockerError {
  docker_status_code : option Z;
  docker_error_text : string;
}.

Record ContainerSummary := mkContainerSummary {
  summary_id : option string;
  summary_labels : option labels;
}.

Record NetworkInspect := mkNetworkInspect {
  inspect_labels : option labels;
  inspect_internal : option bool;
  inspect_attachable : option bool;
}.

(** The fields of [NetworkCreateRequest] that are set. *)
Record NetworkCreateRequest := mkNetworkCreateRequest {
  create_network_name : string;
  create_driver : string;
  create_internal : bool;
  create_attachable : bool;
  create_ingress : bool;
  create_enable_ipv6 : bool;
  create_options : labels;
  create_labels : labels;
}.

Record HostConfig := mkHostConfig {
  host_memory : Z;
  host_memory_swap : Z;
  host_nano_cpus : Z;
  host_pids_limit : Z;
  host_binds : list string;
  host_devices : list string;
  host_network_mode : string;
  host_privileged : bool;
  host_publish_all_ports : bool;
  host_readonly_rootfs : bool;
  host_cap_add : list string;
  host_cap_drop : list string;
  host_security_opt : list string;
  host_tmpfs : labels;
  host_dns : list string;
  host_init : bool;
  host_auto_remove : bool;
}.

Record ContainerCreateBody := mkContainerCreateBody {
  body_image : string;
  body_user : string;
  body_working_dir : string;
  body_entrypoint : option (list string);
  body_cmd : option (list string);
  body_env : list string;
  body_labels : labels;
  body_network_disabled : bool;
  body_attach_stdout : bool;
  body_attach_stderr : bool;
  body_open_stdin : bool;
  body_tty : bool;
  body_host_config : HostConfig;
  (** [networking_config.endpoints_config]: the aliases per network *)
  body_endpoints : gmap string (list string);
}.

Record CreateExecOptions := mkCreateExecOptions {
  exec_attach_stdin : bool;
  exec_cmd : list string;
  exec_user : string;
  exec_working_dir : string;
}.

Inductive StartExecResults := Attached | Detached.
Inductive LogOutput :=
  | StdOut (message : list byte) | Console (message : list byte)
  | StdErr (message : list byte) | StdIn (message : list byte).
Definition log_output_bytes (output : LogOutput) : list byte :=
  match output with StdOut m | Console m | StdErr m | StdIn m => m end.

Record ExecInspect := mkExecInspect {
  exec_running : option bool;
  exec_exit_code : option Z;
}.

(** [std::fs::Metadata] of [symlink_metadata] *)
Inductive Metadata := MetaFile | MetaDir | MetaSymlink | MetaOther.
Global Instance Metadata_eq_dec : EqDecision Metadata.
Proof. solve_decision. Defined.

Inductive AuthError := InvalidToken | StaleTimestamp | InvalidNonce | DuplicateNonce | StatePoisoned.

Section calls.
Context {K : Codec}.

Inductive SupervisorCall :=
  (* Docker *)
  | ListContainers (label_filters : list string)
  | ListNetworks (label_filters : list string)
  | CreateNetwork (request : NetworkCreateRequest)
  | CreateContainer (name : string) (body : ContainerCreateBody)
  | StartContainer (id : string)
  | RemoveContainer (id : string)
  | InspectContainer (id : string)
  | InspectNetwork (name : string)
  | RemoveNetwork (name : string)
  | InspectImage (id : string)
  | RemoveImage (id : string)
  | CreateExec (container_id : string) (options : CreateExecOptions)
  | StartExec (id : string)
  | ExecInput (id : string) (input : list byte)
  | ExecOutput (id : string)
  | InspectExec (id : string)
  | ContainerLogs (id : string)
  (* files *)
  | ReadFile (path : string)
  | SymlinkMetadata (path : string)
  | Canonicalize (path : string)
  | RemoveDirAll (path : string)
  (* time and randomness *)
  | SleepMillis (millis : Z)
  | RpcExpired
  | UtcNow
  | NewUuid
  (* the connection *)
  | ReadByte
  | WriteAll (bytes : list byte)
  | Shutdown
  (* shared memory *)
  | Authenticate (request : SupervisorRequest)
  | LockFor (plugin_id : PluginId)
  | LockLifecycle (plugin_id : PluginId)
  | UnlockLifecycle (plugin_id : PluginId)
  (* install operations, InstallOperation.v *)
  | OperationsBegin (plugin_id : PluginId) (operation_id : Uuid) (now : time)
  | OperationsStatus (plugin_id : PluginId) (operation_id : Uuid)
  | OperationsFinalize (plugin_id : PluginId) (operation_id : Uuid) (now : time)
  | OperationsAbort (plugin_id : PluginId) (operation_id : Uuid) (now : time)
  | OperationsList
  | OperationsAcknowledge (plugin_id : PluginId) (operation_id : Uuid) (now : time)
  (* a panic aborts the process *)
  | Panic.

Definition supervisor_answer (c : SupervisorCall) : Type :=
  match c with
  | ListContainers _ => result DockerError (list ContainerSummary)
  | ListNetworks _ => result DockerError (list (option labels))
  | CreateNetwork _ | StartContainer _ | RemoveContainer _ | RemoveNetwork _ | RemoveImage _ =>
      result DockerError unit
  | CreateContainer _ _ | CreateExec _ _ => result DockerError string
  | InspectContainer _ => result DockerError (option bool)
  | InspectNetwork _ => result DockerError NetworkInspect
  | InspectImage _ => result DockerError (option labels)
  | StartExec _ => result DockerError StartExecResults
  | ExecInput _ _ => result IoError unit
  | ExecOutput _ => list (result DockerError LogOutput)
  | InspectExec _ => result DockerError ExecInspect
  | ContainerLogs _ => list (result DockerError LogOutput)
  | ReadFile _ => result IoError (list byte)
  | SymlinkMetadata _ => result IoError Metadata
  | Canonicalize _ => result IoError string
  | RemoveDirAll _ => result IoError unit
  | SleepMillis _ => unit
  | RpcExpired => bool
  | UtcNow => time
  | NewUuid => Uuid
  | ReadByte => result IoError (option byte)
  | WriteAll _ | Shutdown => result IoError unit
  | Authenticate _ => result AuthError unit
  | LockFor _ => result unit unit
  | LockLifecycle _ | UnlockLifecycle _ => unit
  | OperationsBegin _ _ _ | OperationsStatus _ _ | OperationsFinalize _ _ _
  | OperationsAbort _ _ _ | OperationsAcknowledge _ _ _ =>
      result InstallOperationError PluginInstallOperation
  | OperationsList => PluginInstallOperationList
  | Panic => Empty_set
  end.

Abbreviation stask := (prog supervisor_answer).

(** An output stream that is read to its end: [while let Some(chunk) =
    stream.next().await]; an error in it ends the loop. *)
Fixpoint fold_stream {S E F} (into : E → F) (f : S → LogOutput → result F S) (s : S)
    (chunks : list (result E LogOutput)) : result F S :=
  match chunks with
  | [] => Ok s
  | Err error :: _ => Err (into error)
  | Ok chunk :: chunks =>
      match f s chunk with Ok s => fold_stream into f s chunks | Err e => Err e end
  end.

Definition panic {A} : stask A := Vis Panic (λ r : Empty_set, match r with end).
Definition unwrap {A} (o : option A) : stask A :=
  match o with Some a => Ret a | None => panic end.
End calls.
Abbreviation stask := (prog supervisor_answer).
