(* ===== verification/InstallRecord.v ===== *)
(** * Install records (crates/audiodown-supervisor/src/install_record.rs)

    Before a plugin is started or removed, the supervisor reads what is
    installed: the record next to the manifest, the manifest itself, and checks
    that both belong to the plugin and to this installation. *)

From S2P Require Import Prelude Text Domain Foreign ContentContract CredentialContract Database.
From S2P Require Import SupervisorProtocol Fs Std InstallOperation ContainerPolicy Program.
From S2P Require Import SupervisorHost.

Definition VIRTUAL_IMAGE_ID : string := "audiodown/plugin-virtual:dev".

Record LegacyInstallRecord := mkLegacyInstallRecord {
  legacy_plugin_id : PluginId;
  legacy_image_id : string;
  legacy_manifest_path : string;
  legacy_manifest_hash : string;
  legacy_installation_id : string;
  legacy_memory_bytes : Z;
  legacy_nano_cpus : Z;
  legacy_pids_limit : Z;
  legacy_run_mode : RunMode;
}.

Record ValidatedInstall := mkValidatedInstall {
  validated_installed : InstalledPlugin;
  validated_manifest : PluginManifest;
  validated_expected_image_labels : option labels;
}.

Record ManagedInstallRecord := mkManagedInstallRecord {
  managed_installation_id : string;
  managed_operation_id : Uuid;
  managed_plugin_id : PluginId;
  managed_image_id : string;
  managed_source_kind : string;
  managed_repository_id : string;
  managed_commit_sha : string;
  managed_source_hash : string;
  managed_manifest_hash : string;
  managed_base_image_digest : string;
  managed_sdk_hash : string;
  managed_memory_bytes : Z;
  managed_nano_cpus : Z;
  managed_pids_limit : Z;
  managed_run_mode : RunMode;
}.

Inductive InstallRecordError :=
  | RecordRead (path : string) | RecordInvalidJson | PluginIdMismatch | InstallationIdMismatch
  | ImageNotAllowed | InvalidManagedAttestation | RunModeNotAllowed | InvalidManifestHash
  | ManifestOutsideInstallDirectory | ManifestHashMismatch | ManifestIdMismatch
  | RuntimeNotAllowed.

(** serde_json at the records of this file. *)
Class RecordJson := {
  managed_record_from_slice : list byte → option ManagedInstallRecord;
  legacy_record_from_slice : list byte → option LegacyInstallRecord;
  manifest_from_slice : list byte → option PluginManifest;
}.

Definition is_lower_hex (value : string) (length : Z) : bool :=
  (str_len value =? length)
  && str_all (λ byte, is_ascii_digit byte || in_range 97 102 byte) value.
Definition is_lower_hex_sha256 (value : string) : bool := is_lower_hex value 64.
Definition is_sha256_digest (value : string) : bool :=
  is_some_and is_lower_hex_sha256 (strip_prefix value "sha256:").

Definition is_plain_manifest_path (path : string) : bool :=
  is_absolute path && forallb (λ component, negb (eqb component ParentDir)) (components path).

(** [Path::new("/plugin").join(entry)] *)
Definition plugin_runtime_path (entry : string) : result InstallRecordError string :=
  if is_absolute entry
     || existsb (λ component, eqb component ParentDir || eqb component RootDir) (components entry)
  then Err RuntimeNotAllowed
  else Ok (path_join "/plugin" entry).

Section record.
Context {K : Codec} {R : RecordJson} {B : Encoding}.

(** [format!("{:x}", Sha256::digest(bytes))] *)
Definition sha256_hex (content : list byte) : string := hex (sha256 content).

Definition validate_manifest (content : list byte) (requested_plugin_id : PluginId) :
    result InstallRecordError PluginManifest :=
  manifest ← ok_or (manifest_from_slice content) RecordInvalidJson;
  if negb (eqb (PluginManifest_id manifest) requested_plugin_id) then Err ManifestIdMismatch
  else if negb (eqb (PluginManifest_schema_version manifest) "1.0")
          || negb (match RuntimeSpec_kind (PluginManifest_runtime manifest) with Nodejs => true end)
          || negb (eqb (RuntimeSpec_version (PluginManifest_runtime manifest)) "22")
  then Err RuntimeNotAllowed
  else Ok manifest.

(** A read, with the path in the error. *)
Definition read_error {A} (path : string) (p : stask (result IoError A)) :
    stask (result InstallRecordError A) :=
  prog_map_err (λ _, RecordRead path) p.

Definition load_legacy (plugin_dir : string) (expected_installation_id : string)
    (requested_plugin_id : PluginId) (record : LegacyInstallRecord) :
    stask (result InstallRecordError ValidatedInstall) :=
  if negb (eqb (legacy_plugin_id record) requested_plugin_id) then Ret (Err PluginIdMismatch)
  else if negb (eqb (legacy_installation_id record) expected_installation_id)
  then Ret (Err InstallationIdMismatch)
  else if negb (eqb (legacy_image_id record) VIRTUAL_IMAGE_ID) then Ret (Err ImageNotAllowed)
  else if negb (eqb (legacy_run_mode record) OnDemand) then Ret (Err RunModeNotAllowed)
  else if negb (is_lower_hex_sha256 (legacy_manifest_hash record))
  then Ret (Err InvalidManifestHash)
  else if negb (is_plain_manifest_path (legacy_manifest_path record))
  then Ret (Err ManifestOutsideInstallDirectory)
  else
    canonical_plugin_dir ←? read_error plugin_dir (call (Canonicalize plugin_dir));
    canonical_manifest ←? read_error (legacy_manifest_path record)
                            (call (Canonicalize (legacy_manifest_path record)));
    if negb (path_starts_with canonical_manifest canonical_plugin_dir)
       || negb (eqb (file_name canonical_manifest) (Some "audiodown-plugin.json"))
    then Ret (Err ManifestOutsideInstallDirectory)
    else
      manifest_bytes ←? read_error canonical_manifest (call (ReadFile canonical_manifest));
      if negb (eqb (sha256_hex manifest_bytes) (legacy_manifest_hash record))
      then Ret (Err ManifestHashMismatch)
      else
        manifest ←? Ret (validate_manifest manifest_bytes requested_plugin_id);
        runtime_path ←? Ret (plugin_runtime_path
                               (RuntimeSpec_entry (PluginManifest_runtime manifest)));
        Ret (Ok {|
          validated_installed := {|
            installed_plugin_id := legacy_plugin_id record;
            installed_image_id := legacy_image_id record;
            installed_installation_id := legacy_installation_id record;
            installed_runtime_path := runtime_path;
            installed_memory_bytes := legacy_memory_bytes record;
            installed_nano_cpus := legacy_nano_cpus record;
            installed_pids_limit := legacy_pids_limit record;
          |};
          validated_manifest := manifest;
          validated_expected_image_labels := None;
        |}).

Definition managed_record_ok (record : ManagedInstallRecord) : bool :=
  negb (
    negb (eqb (managed_source_kind record) "github_public_repository")
    || str_is_empty (trim (managed_repository_id record))
    || negb (is_lower_hex (managed_commit_sha record) 40)
    || negb (is_lower_hex_sha256 (managed_source_hash record))
    || negb (is_lower_hex_sha256 (managed_manifest_hash record))
    || negb (is_sha256_digest (managed_base_image_digest record))
    || negb (is_lower_hex_sha256 (managed_sdk_hash record))
    || negb (eqb (managed_run_mode record) OnDemand)
    || negb (managed_memory_bytes record =? 128 * 1024 * 1024)
    || negb (managed_nano_cpus record =? 500000000)
    || negb (managed_pids_limit record =? 64)).

Definition expected_image_labels (record : ManagedInstallRecord) : labels :=
  list_to_map [
    ("io.audiodown.managed", "true");
    ("io.audiodown.installation", managed_installation_id record);
    ("io.audiodown.plugin-id", PluginId_as_str (managed_plugin_id record));
    ("io.audiodown.commit-sha", managed_commit_sha record);
    ("io.audiodown.source-hash", managed_source_hash record);
    ("io.audiodown.manifest-hash", managed_manifest_hash record);
    ("io.audiodown.base-image-digest", managed_base_image_digest record);
    ("io.audiodown.sdk-hash", managed_sdk_hash record)].

Definition load_managed (plugin_dir : string) (expected_installation_id : string)
    (requested_plugin_id : PluginId) (record : ManagedInstallRecord) :
    stask (result InstallRecordError ValidatedInstall) :=
  if negb (eqb (managed_plugin_id record) requested_plugin_id) then Ret (Err PluginIdMismatch)
  else if negb (eqb (managed_installation_id record) expected_installation_id)
  then Ret (Err InstallationIdMismatch)
  else if negb (managed_record_ok record) then Ret (Err InvalidManagedAttestation)
  else
    let manifest_path := path_join plugin_dir "audiodown-plugin.json" in
    metadata ←? read_error manifest_path (call (SymlinkMetadata manifest_path));
    if negb (eqb metadata MetaFile) then Ret (Err ManifestOutsideInstallDirectory)
    else
      manifest_bytes ←? read_error manifest_path (call (ReadFile manifest_path));
      if negb (eqb (sha256_hex manifest_bytes) (managed_manifest_hash record))
      then Ret (Err ManifestHashMismatch)
      else
        manifest ←? Ret (validate_manifest manifest_bytes requested_plugin_id);
        runtime_path ←? Ret (plugin_runtime_path
                               (RuntimeSpec_entry (PluginManifest_runtime manifest)));
        Ret (Ok {|
          validated_installed := {|
            installed_plugin_id := managed_plugin_id record;
            installed_image_id := managed_image_id record;
            installed_installation_id := managed_installation_id record;
            installed_runtime_path := runtime_path;
            installed_memory_bytes := managed_memory_bytes record;
            installed_nano_cpus := managed_nano_cpus record;
            installed_pids_limit := managed_pids_limit record;
          |};
          validated_manifest := manifest;
          validated_expected_image_labels := Some (expected_image_labels record);
        |}).

Definition load_install (plugin_data : string) (expected_installation_id : string)
    (requested_plugin_id : PluginId) : stask (result InstallRecordError ValidatedInstall) :=
  let plugin_dir :=
    path_join (path_join plugin_data "installed") (PluginId_as_str requested_plugin_id) in
  let record_path := path_join plugin_dir "install.json" in
  record_bytes ←? read_error record_path (call (ReadFile record_path));
  match managed_record_from_slice record_bytes with
  | Some record => load_managed plugin_dir expected_installation_id requested_plugin_id record
  | None =>
      record ←? Ret (ok_or (legacy_record_from_slice record_bytes) RecordInvalidJson);
      load_legacy plugin_dir expected_installation_id requested_plugin_id record
  end.
End record.
