(* ===== verification/Docker.v ===== *)
(** * The Docker adapter of the supervisor (crates/audiodown-supervisor/src/docker.rs)

    Starting, stopping, inspecting, calling and removing plugin containers, and
    the cleanup at startup, as programs over the Docker API.  The shell and
    JavaScript texts that run inside containers are parameters ([Scripts]). *)

From stdpp Require Import pretty.
From S2P Require Import Prelude Text Std Domain Foreign ContentContract CredentialContract Database.
From S2P Require Import SupervisorProtocol Fs Std InstallOperation ContainerPolicy Program.
From S2P Require Import SupervisorHost InstallRecord.

Definition RPC_SOCKET : string := "/tmp/audiodown-rpc.sock".
Definition HANDSHAKE_ATTEMPTS : nat := 40.
Definition HANDSHAKE_RETRY_DELAY : Z := 100.
Definition PROXY_TOKEN_SECRET_DIR : string := "/run/audiodown-secrets".
Definition PROXY_TOKEN_SECRET_PATH : string := "/run/audiodown-secrets/proxy-token".
Definition PROXY_TOKEN_TEMPORARY_PATH : string := "/run/audiodown-secrets/.proxy-token.tmp".

Inductive DockerAdapterError :=
  | DockerFailed (error : DockerError) | PolicyRejected (error : PolicyError)
  | LabelMismatch | ImageLabelMismatch | RemovalAttestationMismatch | UnsafeInstallDirectory
  | RuntimeCleanupFailed | RuntimeReconcileFailed (failures : Z) | SecretDeliveryFailed
  | Handshake (error : string) | PluginNotRunning | AdapterInvalidRpcRequest | AdapterRpcTimeout
  | AdapterRpcExecFailed | AdapterRpcStderr | AdapterInvalidRpcResponse
  | AdapterRpcResponseTooLarge.

(** The texts of [PLUGIN_BOOTSTRAP_SCRIPT], [HANDSHAKE_SCRIPT],
    [CONTENT_RPC_SCRIPT] and the one of [proxy_token_publish_command]. *)
Record Scripts := mkScripts {
  PLUGIN_BOOTSTRAP_SCRIPT : string;
  HANDSHAKE_SCRIPT : string;
  CONTENT_RPC_SCRIPT : string;
  PUBLISH_SCRIPT : string;
}.

(** [serde_json::json!] and the messages of the plugin's RPC. *)
Class DockerJson {K : Codec} := {
  json_object : list (string * Json) → Json;
  json_string : string → Json;
  (** [serde_json::to_string(&JsonRpcRequest::new(id, method, params)?)] *)
  rpc_request_to_string : string → string → Json → option string;
  rpc_response_from_str : string → option (JsonRpcResponse Json);
}.

Record PluginLog {K : Codec} := mkPluginLog {
  log_level : string;
  log_message : string;
  log_context : Json;
}.
Global Arguments mkPluginLog {_}.

Record StartedPlugin {K : Codec} := mkStartedPlugin {
  started_container_id : string;
  started_logs : list PluginLog;
}.
Global Arguments mkStartedPlugin {_}.

Record ManagedRemovalPlan := mkManagedRemovalPlan {
  plan_plugin_id : PluginId;
  plan_image_id : string;
  plan_install_directory : string;
  plan_expected_image_labels : labels;
}.

Record ContentRpcExecPlan := mkContentRpcExecPlan {
  exec_plan_command : list string;
  exec_plan_user : string;
  exec_plan_working_dir : string;
}.

(** [RuntimeCleanup], and [PluginInspection] *)
Record RuntimeCleanup := mkRuntimeCleanup { cleanup_plugin_container_id : option string }.
Record PluginInspection := mkPluginInspection {
  inspection_container_id : option string;
  inspection_running : bool;
}.

(** ** Labels *)

Definition verify_managed_labels (found : labels) (installation_id resource : string) :
    result DockerAdapterError unit :=
  if negb (eqb (found !! "io.audiodown.managed") (Some "true"))
     || negb (eqb (found !! "io.audiodown.installation") (Some installation_id))
     || negb (eqb (found !! "io.audiodown.resource") (Some resource))
  then Err LabelMismatch
  else Ok tt.

Definition verify_runtime_labels (found : labels) (installation_id : string)
    (plugin_id : PluginId) (resource : string) : result DockerAdapterError unit :=
  verify_managed_labels found installation_id resource;;
  if negb (eqb (found !! "io.audiodown.plugin-id") (Some (PluginId_as_str plugin_id)))
  then Err LabelMismatch
  else Ok tt.

Definition runtime_plugin_id (found : labels) (installation_id resource : string) :
    result DockerAdapterError PluginId :=
  verify_managed_labels found installation_id resource;;
  value ← ok_or (found !! "io.audiodown.plugin-id") LabelMismatch;
  map_err (λ _, LabelMismatch) (PluginId_parse value).

Definition network_is_owned_for_cleanup (found : labels) (installation_id : string)
    (plugin_id : PluginId) : bool :=
  is_ok (verify_runtime_labels found installation_id plugin_id "network").

Definition network_is_healthy (internal attachable : bool) : bool := internal && negb attachable.

(** [expected.iter().all(|(key, value)| labels.get(key) == Some(value))] *)
Definition labels_include (expected found : labels) : bool :=
  forallb (λ p, eqb (found !! p.1) (Some p.2)) (map_to_list expected).

Definition reconcile_cleanup_results {E} (results : list (result E unit)) :
    result DockerAdapterError unit :=
  let failures := zlen (List.filter (λ r, negb (is_ok r)) results) in
  if failures =? 0 then Ok tt else Err (RuntimeReconcileFailed failures).

(** Collecting into a [Result] ends at the first error. *)
Definition discover_runtime_plugin_ids (installation_id : string) (resources : list labels) :
    result DockerAdapterError (gset PluginId) :=
  found ← mapM (λ found : labels,
    resource ← ok_or (found !! "io.audiodown.resource") LabelMismatch;
    if negb (list_contains ["plugin"; "gateway"; "network"] resource) then Err LabelMismatch
    else runtime_plugin_id found installation_id resource) resources;
  Ok (list_to_set found).

Definition is_not_found (error : DockerError) : bool := eqb (docker_status_code error) (Some 404).

(** ** Container settings *)

Definition tmpfs_options (entries : list string) : labels :=
  foldl (λ options p, <[p.1 := p.2]> options) ∅ (omap (split_once ":"%char) entries).

Definition networking_config (network_name : string) (aliases : list string) :
    gmap string (list string) :=
  {[network_name := aliases]}.

Definition host_config (settings : ContainerSettings) (network_name : string)
    (dns : list string) : HostConfig := {|
  host_memory := settings_memory_bytes settings;
  host_memory_swap := settings_memory_bytes settings;
  host_nano_cpus := settings_nano_cpus settings;
  host_pids_limit := settings_pids_limit settings;
  host_binds := settings_mounts settings;
  host_devices := [];
  host_network_mode := network_name;
  host_privileged := settings_privileged settings;
  host_publish_all_ports := false;
  host_readonly_rootfs := settings_read_only settings;
  host_cap_add := settings_cap_add settings;
  host_cap_drop := settings_cap_drop settings;
  host_security_opt := settings_security_opt settings;
  host_tmpfs := tmpfs_options (settings_tmpfs settings);
  host_dns := dns;
  host_init := true;
  host_auto_remove := false;
|}.

Definition network_create_request (network : PluginNetworkSpec) : NetworkCreateRequest := {|
  create_network_name := network_name network;
  create_driver := "bridge";
  create_internal := network_internal network;
  create_attachable := network_attachable network;
  create_ingress := false;
  create_enable_ipv6 := false;
  create_options := {["com.docker.network.bridge.enable_ip_masquerade" := "false"]};
  create_labels := network_labels network;
|}.

Definition gateway_container_config (gateway : GatewayContainerSpec) : ContainerCreateBody := {|
  body_image := gateway_spec_image gateway;
  body_user := "10003:10003";
  body_working_dir := "/";
  body_entrypoint := None;
  body_cmd := None;
  body_env := [];
  body_labels := settings_labels (gateway_spec_settings gateway);
  body_network_disabled := false;
  body_attach_stdout := false;
  body_attach_stderr := false;
  body_open_stdin := false;
  body_tty := false;
  body_host_config :=
    host_config (gateway_spec_settings gateway) (gateway_spec_network_name gateway)
      (gateway_spec_dns gateway);
  body_endpoints :=
    networking_config (gateway_spec_network_name gateway) [gateway_spec_network_alias gateway];
|}.

Definition plugin_container_config (scripts : Scripts) (policy : RuntimePluginContainerSpec) :
    ContainerCreateBody := {|
  body_image := plugin_spec_image_id policy;
  body_user := "10002:10002";
  body_working_dir := "/plugin";
  body_entrypoint :=
    Some ["/bin/sh"; "-c"; PLUGIN_BOOTSTRAP_SCRIPT scripts; "audiodown-plugin-bootstrap"];
  body_cmd := Some (plugin_spec_command policy);
  body_env := ["AUDIODOWN_RPC_SOCKET=" +:+ RPC_SOCKET;
               "AUDIODOWN_NODE_SDK_PATH=/sdk/src/index.js";
               "AUDIODOWN_PROXY_URL=" +:+ plugin_spec_proxy_url policy;
               "NODE_ENV=production"];
  body_labels := settings_labels (plugin_spec_settings policy);
  body_network_disabled := false;
  body_attach_stdout := false;
  body_attach_stderr := false;
  body_open_stdin := false;
  body_tty := false;
  body_host_config :=
    host_config (plugin_spec_settings policy) (plugin_spec_network_name policy)
      (plugin_spec_dns policy);
  body_endpoints :=
    networking_config (plugin_spec_network_name policy)
      [settings_container_name (plugin_spec_settings policy)];
|}.

Definition proxy_token_publish_command (scripts : Scripts) (token_len : Z)
    (temporary_path final_path : string) : list string :=
  ["sh"; "-c"; PUBLISH_SCRIPT scripts; "audiodown-secret-publish"; pretty token_len;
   temporary_path; final_path].

(** ** Calls of the plugin *)

Section adapter.
Context {K : Codec} {P : ProtocolJson} {J : OperationJson} {D : DockerJson} {B : Encoding}.
Context (scripts : Scripts) (installation_id : string) (gateway_config : GatewayRuntimeConfig).

Definition build_content_rpc_exec (method : ContentMethod) (params : Json) (request_id : string) :
    result DockerAdapterError ContentRpcExecPlan :=
  if str_is_empty request_id || (str_len request_id >? 128) || str_contains request_id (chr 0)
  then Err AdapterInvalidRpcRequest
  else
    request ← ok_or (rpc_request_to_string request_id (ContentMethod_capability method) params)
                AdapterInvalidRpcRequest;
    if str_len request >? MAX_PLUGIN_RPC_BYTES then Err AdapterInvalidRpcRequest
    else Ok (mkContentRpcExecPlan
      ["node"; "-e"; CONTENT_RPC_SCRIPT scripts; RPC_SOCKET; request; request_id]
      "10002:10002" "/tmp").

Definition parse_content_rpc_output (request_id : string) (stdout stderr : list byte)
    (exit_code : Z) : result DockerAdapterError PluginRpcResult :=
  if zlen stdout + zlen stderr >? MAX_PLUGIN_RPC_BYTES then Err AdapterRpcResponseTooLarge
  else if negb (exit_code =? 0) then Err AdapterRpcExecFailed
  else if negb (zlen stderr =? 0) then Err AdapterRpcStderr
  else
    output ← ok_or (from_utf8 stdout) AdapterInvalidRpcResponse;
    match List.filter (λ line, negb (str_is_empty (trim line))) (lines output) with
    | [line] =>
        response ← ok_or (rpc_response_from_str line) AdapterInvalidRpcResponse;
        if negb (eqb (JsonRpcResponse_id response) request_id) then Err AdapterInvalidRpcResponse
        else
          map_err (λ error, match error with
                            | RpcResponseTooLarge => AdapterRpcResponseTooLarge
                            | _ => AdapterInvalidRpcResponse
                            end) (PluginRpcResult_new response)
    | _ => Err AdapterInvalidRpcResponse
    end.

Definition append_rpc_bytes (destination other new : list byte) :
    result DockerAdapterError (list byte) :=
  if zlen destination + zlen other + zlen new >? MAX_PLUGIN_RPC_BYTES
  then Err AdapterRpcResponseTooLarge
  else Ok (destination ++ new).

(** One chunk of the output: [stdout] and [stderr] so far. *)
Definition collect_output (buffers : list byte * list byte) (chunk : LogOutput) :
    result DockerAdapterError (list byte * list byte) :=
  let '(stdout, stderr) := buffers in
  match chunk with
  | StdOut message | Console message =>
      stdout ← append_rpc_bytes stdout stderr message; Ok (stdout, stderr)
  | StdErr message => stderr ← append_rpc_bytes stderr stdout message; Ok (stdout, stderr)
  | StdIn _ => Ok (stdout, stderr)
  end.

Definition parse_plugin_log (line : string) : option PluginLog :=
  let line := trim line in
  if str_is_empty line then None
  else
    match json_from_str line with
    | None => Some (mkPluginLog "info" line (json_object [("stream", json_string "stdio")]))
    | Some value =>
        if negb (eqb (json_get value "method" ≫= json_as_str) (Some "log.emit")) then None
        else
          params ← json_get value "params";
          Some (mkPluginLog
            (default "info" (json_get params "level" ≫= json_as_str))
            (default "plugin log event" (json_get params "message" ≫= json_as_str))
            (default (json_object []) (json_get params "context")))
    end.

(** ** Programs *)

Abbreviation adapter A := (stask (result DockerAdapterError A)).

(** [?] on a call of the Docker API *)
Definition docker {A} (p : stask (result DockerError A)) : adapter A :=
  prog_map_err DockerFailed p.

Definition label_filters (plugin_id : option PluginId) (resource : string) : list string :=
  ["io.audiodown.managed=true"; "io.audiodown.installation=" +:+ installation_id]
  ++ match plugin_id with
     | Some plugin_id => ["io.audiodown.plugin-id=" +:+ PluginId_as_str plugin_id]
     | None => []
     end
  ++ ["io.audiodown.resource=" +:+ resource].

(** The containers Docker listed must all be the plugin's, and be at most one. *)
Fixpoint single_owned (plugin_id : PluginId) (resource : string) (found : option string)
    (containers : list ContainerSummary) : result DockerAdapterError (option string) :=
  match containers with
  | [] => Ok found
  | container :: containers =>
      let labels := default ∅ (summary_labels container) in
      if negb (is_ok (verify_managed_labels labels installation_id resource))
         || negb (eqb (labels !! "io.audiodown.plugin-id") (Some (PluginId_as_str plugin_id)))
      then Err LabelMismatch
      else
        match summary_id container with
        | Some id =>
            if is_some found then Err LabelMismatch
            else single_owned plugin_id resource (Some id) containers
        | None => single_owned plugin_id resource found containers
        end
  end.

Definition find_managed_container_by_resource (plugin_id : PluginId) (resource : string) :
    adapter (option string) :=
  containers ←? docker (call (ListContainers (label_filters (Some plugin_id) resource)));
  Ret (single_owned plugin_id resource None containers).

Definition find_managed_container (plugin_id : PluginId) : adapter (option string) :=
  find_managed_container_by_resource plugin_id "plugin".

Definition remove_runtime_container (container_id : string) : adapter unit :=
  removed ← call (RemoveContainer container_id);
  match removed with
  | Ok _ => Ret (Ok tt)
  | Err error => if is_not_found error then Ret (Ok tt) else Ret (Err (DockerFailed error))
  end.

Definition inspect_managed_network (plugin_id : PluginId) (name : string) : adapter bool :=
  inspected ← call (InspectNetwork name);
  match inspected with
  | Err error => if is_not_found error then Ret (Ok false) else Ret (Err (DockerFailed error))
  | Ok network =>
      Ret (verify_runtime_labels (default ∅ (inspect_labels network)) installation_id plugin_id
             "network") ;;?
      Ret (Ok (network_is_healthy (eqb (inspect_internal network) (Some true))
                 (eqb (inspect_attachable network) (Some true))))
  end.

Definition remove_managed_network (plugin_id : PluginId) (name : string) : adapter unit :=
  inspected ← call (InspectNetwork name);
  match inspected with
  | Err error => if is_not_found error then Ret (Ok tt) else Ret (Err (DockerFailed error))
  | Ok network =>
      if negb (network_is_owned_for_cleanup (default ∅ (inspect_labels network)) installation_id
                 plugin_id)
      then Ret (Err LabelMismatch)
      else
        removed ← call (RemoveNetwork name);
        match removed with
        | Ok _ => Ret (Ok tt)
        | Err error => if is_not_found error then Ret (Ok tt) else Ret (Err (DockerFailed error))
        end
  end.

(** The first two steps of the cleanup: what was found, and whether it failed. *)
Definition cleanup_container (plugin_id : PluginId) (resource : string) :
    stask (option string * bool) :=
  found ← find_managed_container_by_resource plugin_id resource;
  match found with
  | Ok (Some container_id) =>
      removed ← remove_runtime_container container_id;
      Ret (Some container_id, negb (is_ok removed))
  | Ok None => Ret (None, false)
  | Err _ => Ret (None, true)
  end.

Definition cleanup_runtime_resources (plugin_id : PluginId) : adapter RuntimeCleanup :=
  let names := RuntimeResourceNames_for_plugin plugin_id in
  plugin ← cleanup_container plugin_id "plugin";
  gateway ← cleanup_container plugin_id "gateway";
  network ← remove_managed_network plugin_id (names_network names);
  if plugin.2 || gateway.2 || negb (is_ok network) then Ret (Err RuntimeCleanupFailed)
  else Ret (Ok (mkRuntimeCleanup plugin.1)).

Definition verify_install_image (install : ValidatedInstall) : adapter unit :=
  match validated_expected_image_labels install with
  | None => Ret (Ok tt)
  | Some expected =>
      found ←? docker (call (InspectImage (installed_image_id (validated_installed install))));
      if labels_include expected (default ∅ found) then Ret (Ok tt)
      else Ret (Err ImageLabelMismatch)
  end.

(** The output of an exec, read to its end. *)
Definition exec_output {S F} (into : DockerError → F) (f : S → LogOutput → result F S) (s : S)
    (exec : string) : stask (result F S) :=
  chunks ← call (ExecOutput exec); Ret (fold_stream into f s chunks).

Definition append_chunk {F} (content : list byte) (chunk : LogOutput) : result F (list byte) :=
  Ok (content ++ log_output_bytes chunk).

Definition handshake (container_id : string) (plugin_id : PluginId) (plugin_version : string) :
    stask (result string unit) :=
  exec ←? prog_map_err docker_error_text (call (CreateExec container_id (mkCreateExecOptions false
            ["node"; "-e"; HANDSHAKE_SCRIPT scripts; RPC_SOCKET; PluginId_as_str plugin_id;
             plugin_version] "10002:10002" "/tmp")));
  started ←? prog_map_err docker_error_text (call (StartExec exec));
  match started with
  | Detached => Ret (Err "handshake exec unexpectedly detached")
  | Attached =>
      content ←? exec_output docker_error_text append_chunk [] exec;
      inspection ←? prog_map_err docker_error_text (call (InspectExec exec));
      if negb (eqb (exec_exit_code inspection) (Some 0))
      then Ret (Err (trim (from_utf8_lossy content)))
      else Ret (Ok tt)
  end.

Fixpoint wait_for_handshake (attempts : nat) (container_id : string) (plugin_id : PluginId)
    (plugin_version : string) (last_error : option string) : adapter unit :=
  match attempts with
  | O => Ret (Err (Handshake (default "plugin did not expose its RPC socket" last_error)))
  | S attempts =>
      answered ← handshake container_id plugin_id plugin_version;
      match answered with
      | Ok _ => Ret (Ok tt)
      | Err error =>
          _ ← call (SleepMillis HANDSHAKE_RETRY_DELAY);
          wait_for_handshake attempts container_id plugin_id plugin_version (Some error)
      end
  end.

Definition undelivered {E A} (p : stask (result E A)) : adapter A :=
  prog_map_err (λ _, SecretDeliveryFailed) p.

(** [for _ in 0..100] *)
Fixpoint await_delivery (turns : nat) (exec : string) : adapter unit :=
  match turns with
  | O => Ret (Err SecretDeliveryFailed)
  | S turns =>
      inspection ←? undelivered (call (InspectExec exec));
      if eqb (exec_running inspection) (Some false)
      then if eqb (exec_exit_code inspection) (Some 0) then Ret (Ok tt)
           else Ret (Err SecretDeliveryFailed)
      else _ ← call (SleepMillis 10); await_delivery turns exec
  end.

Definition deliver_proxy_token (container_id : string) (proxy_token : ProxyToken) : adapter unit :=
  let token := bytes (proxy_token_value proxy_token) in
  exec ←? undelivered (call (CreateExec container_id (mkCreateExecOptions true
            (proxy_token_publish_command scripts (zlen token) PROXY_TOKEN_TEMPORARY_PATH
               PROXY_TOKEN_SECRET_PATH) "10002:10002" PROXY_TOKEN_SECRET_DIR)));
  started ←? undelivered (call (StartExec exec));
  match started with
  | Detached => Ret (Err SecretDeliveryFailed)
  | Attached =>
      undelivered (call (ExecInput exec token)) ;;?
      await_delivery 100 exec
  end.

Definition plugin_logs_by_container (container_id : string) : adapter (list PluginLog) :=
  chunks ← call (ContainerLogs container_id);
  content ←? Ret (fold_stream DockerFailed append_chunk [] chunks);
  Ret (Ok (omap parse_plugin_log (lines (from_utf8_lossy content)))).

Definition start_runtime (policy : PluginRuntimePolicy) (plugin_version : string) :
    adapter StartedPlugin :=
  docker (call (CreateNetwork (network_create_request (policy_network policy)))) ;;?
  gateway ←? docker (call (CreateContainer
               (settings_container_name (gateway_spec_settings (policy_gateway policy)))
               (gateway_container_config (policy_gateway policy))));
  docker (call (StartContainer gateway)) ;;?
  plugin ←? docker (call (CreateContainer
              (settings_container_name (plugin_spec_settings (policy_plugin policy)))
              (plugin_container_config scripts (policy_plugin policy))));
  docker (call (StartContainer plugin)) ;;?
  deliver_proxy_token plugin (plugin_spec_proxy_token (policy_plugin policy)) ;;?
  wait_for_handshake HANDSHAKE_ATTEMPTS plugin (plugin_spec_plugin_id (policy_plugin policy))
    plugin_version None ;;?
  logs ←? plugin_logs_by_container plugin;
  Ret (Ok (mkStartedPlugin plugin logs)).

Definition start_plugin (install : ValidatedInstall) (proxy_token : ProxyToken) :
    adapter StartedPlugin :=
  let plugin_id := installed_plugin_id (validated_installed install) in
  let plugin_version := PluginManifest_version (validated_manifest install) in
  cleanup_runtime_resources plugin_id ;;?
  verify_install_image install ;;?
  built ← unwrap (PluginRuntimePolicy_build (validated_installed install) gateway_config
                    proxy_token);
  policy ←? Ret (map_err PolicyRejected built);
  started ← start_runtime policy plugin_version;
  match started with
  | Ok started => Ret (Ok started)
  | Err start_error =>
      cleaned ← cleanup_runtime_resources plugin_id;
      match cleaned with
      | Ok _ => Ret (Err start_error)
      | Err _ => Ret (Err RuntimeCleanupFailed)
      end
  end.

Definition stop_plugin (plugin_id : PluginId) : adapter (option string) :=
  cleanup ←? cleanup_runtime_resources plugin_id;
  Ret (Ok (cleanup_plugin_container_id cleanup)).

Definition inspect_plugin (plugin_id : PluginId) : adapter PluginInspection :=
  found ←? find_managed_container plugin_id;
  match found with
  | None => Ret (Ok (mkPluginInspection None false))
  | Some container_id =>
      gateway ←? find_managed_container_by_resource plugin_id "gateway";
      match gateway with
      | None => Ret (Ok (mkPluginInspection (Some container_id) false))
      | Some gateway_id =>
          plugin_running ←? docker (call (InspectContainer container_id));
          gateway_running ←? docker (call (InspectContainer gateway_id));
          let names := RuntimeResourceNames_for_plugin plugin_id in
          network_running ←? inspect_managed_network plugin_id (names_network names);
          Ret (Ok (mkPluginInspection (Some container_id)
                     (network_running && default false plugin_running
                      && default false gateway_running)))
      end
  end.

Definition plugin_logs (plugin_id : PluginId) : adapter (list PluginLog) :=
  found ←? find_managed_container plugin_id;
  match found with
  | None => Ret (Ok [])
  | Some container_id => plugin_logs_by_container container_id
  end.

Definition rpc_execution (container_id request_id : string) (plan : ContentRpcExecPlan) :
    adapter PluginRpcResult :=
  exec ←? docker (call (CreateExec container_id (mkCreateExecOptions false
            (exec_plan_command plan) (exec_plan_user plan) (exec_plan_working_dir plan))));
  started ←? docker (call (StartExec exec));
  match started with
  | Detached => Ret (Err AdapterRpcExecFailed)
  | Attached =>
      output ←? exec_output DockerFailed collect_output ([], []) exec;
      inspection ←? docker (call (InspectExec exec));
      exit_code ←? Ret (ok_or (exec_exit_code inspection) AdapterRpcExecFailed);
      Ret (parse_content_rpc_output request_id output.1 output.2 exit_code)
  end.

Definition invoke_plugin (plugin_id : PluginId) (method : ContentMethod) (params : Json) :
    adapter PluginRpcResult :=
  found ←? find_managed_container plugin_id;
  container_id ←? Ret (ok_or found PluginNotRunning);
  running ←? docker (call (InspectContainer container_id));
  if negb (default false running) then Ret (Err PluginNotRunning)
  else
    uuid ← call NewUuid;
    let request_id := uuid_to_string uuid in
    plan ←? Ret (build_content_rpc_exec method params request_id);
    executed ← prog_timeout RpcExpired (λ expired : bool, expired)
                 (rpc_execution container_id request_id plan);
    match executed with
    | None => Ret (Err AdapterRpcTimeout)
    | Some executed => Ret executed
    end.

Definition validate_install_directory (path : string) : adapter unit :=
  metadata ←? prog_map_err (λ _, UnsafeInstallDirectory) (call (SymlinkMetadata path));
  if negb (eqb metadata MetaDir) then Ret (Err UnsafeInstallDirectory) else Ret (Ok tt).

Definition managed_removal_plan (plugin_data : string) (install : ValidatedInstall) :
    adapter ManagedRemovalPlan :=
  let installed := validated_installed install in
  expected ←? Ret (ok_or (validated_expected_image_labels install) RemovalAttestationMismatch);
  if negb (eqb (installed_installation_id installed) installation_id)
     || negb (eqb (expected !! "io.audiodown.managed") (Some "true"))
     || negb (eqb (expected !! "io.audiodown.installation") (Some installation_id))
     || negb (eqb (expected !! "io.audiodown.plugin-id")
                  (Some (PluginId_as_str (installed_plugin_id installed))))
  then Ret (Err RemovalAttestationMismatch)
  else
    let install_directory :=
      path_join (path_join plugin_data "installed")
        (PluginId_as_str (installed_plugin_id installed)) in
    validate_install_directory install_directory ;;?
    Ret (Ok (mkManagedRemovalPlan (installed_plugin_id installed) (installed_image_id installed)
               install_directory expected)).

Definition remove_managed_install_directory (path : string) : adapter unit :=
  validate_install_directory path ;;?
  prog_map_err (λ _, UnsafeInstallDirectory) (call (RemoveDirAll path)).

Definition remove_plugin (plugin_data : string) (install : ValidatedInstall) :
    adapter PluginRemoveResult :=
  plan ←? managed_removal_plan plugin_data install;
  cleanup ←? cleanup_runtime_resources (plan_plugin_id plan);
  found ←? docker (call (InspectImage (plan_image_id plan)));
  if negb (labels_include (plan_expected_image_labels plan) (default ∅ found))
  then Ret (Err ImageLabelMismatch)
  else
    docker (call (RemoveImage (plan_image_id plan))) ;;?
    remove_managed_install_directory (plan_install_directory plan) ;;?
    Ret (Ok (mkPluginRemoveResult (plan_plugin_id plan)
               (is_some (cleanup_plugin_container_id cleanup)) true true)).

(** ** Startup *)

(** The plugins named by the labels of one listing, and how many were not. *)
Definition discover_plugins (resource : string) (listed : list (option labels)) :
    list PluginId * Z :=
  let found := (λ l, runtime_plugin_id (default ∅ l) installation_id resource) <$> listed in
  (omap to_option found, zlen (List.filter (λ r, negb (is_ok r)) found)).

Definition discover_resource {A} (resource : string) (labels_of : A → option labels)
    (listing : stask (result DockerError (list A))) : stask (list PluginId * Z) :=
  listed ← listing;
  match listed with
  | Ok listed => Ret (discover_plugins resource (labels_of <$> listed))
  | Err _ => Ret ([], 1)
  end.

Definition reconcile_runtime_resources : adapter unit :=
  plugins ← discover_resource "plugin" summary_labels (call (ListContainers (label_filters None "plugin")));
  gateways ← discover_resource "gateway" summary_labels
               (call (ListContainers (label_filters None "gateway")));
  networks ← discover_resource "network" (λ l : option labels, l)
               (call (ListNetworks (label_filters None "network")));
  let plugin_ids := dedup (plugins.1 ++ gateways.1 ++ networks.1) in
  let discovery_failures := plugins.2 + gateways.2 + networks.2 in
  results ← prog_fold (λ results plugin_id,
              cleaned ← cleanup_runtime_resources plugin_id;
              Ret (results ++ [map_err (λ _, tt) ((λ _, tt) <$> cleaned)]))
              (replicate (Z.to_nat discovery_failures) (Err tt)) plugin_ids;
  Ret (reconcile_cleanup_results results).
End adapter.
