(* ===== verification/SupervisorServer.v ===== *)
(** * The socket server of the supervisor (crates/audiodown-supervisor/src/server.rs)

    One connection carries one request: a line of JSON that is parsed, checked
    for its shape, authenticated and then dispatched.  [Authenticator] keeps the
    nonces of the last two minutes under a mutex.  The text of errors in answers
    and the JSON of results are parameters. *)

From S2P Require Import Prelude Text Domain Foreign ContentContract CredentialContract Database.
From S2P Require Import SupervisorProtocol Fs Std InstallOperation ContainerPolicy Program.
From S2P Require Import SupervisorHost InstallRecord Docker.

Definition MAX_REQUEST_BYTES : Z := 64 * 1024.
Definition MAX_CLOCK_SKEW_SECONDS : Z := 30.
(** in nanoseconds *)
Definition NONCE_RETENTION : Z := 120 * 10 ^ 9.

(** ** Authentication *)

(** Arithmetic of [i64] in a release build, which wraps around. *)
Definition wrap_i64 (z : Z) : Z := (z + 2 ^ 63) mod 2 ^ 64 - 2 ^ 63.
Definition i64_sub (a b : Z) : Z := wrap_i64 (a - b).
Definition i64_abs (a : Z) : Z := wrap_i64 (Z.abs a).

(** The nonces with the [Instant] at which they were stored. *)
Abbreviation Nonces := (gmap string Z).

(** What an attempt reads of the clocks: [Utc::now().timestamp()], the instant at
    which the age of a nonce is looked at, and the one stored with the new nonce. *)
Record AuthClocks := mkAuthClocks {
  clock_wall : Z;
  clock_elapsed_at : string → Z;
  clock_inserted_at : Z;
}.

Section authenticator.
Context {K : Codec}.

Definition validate (token : string) (request : SupervisorRequest) (clocks : AuthClocks)
    (nonces : Nonces) : result AuthError unit * Nonces :=
  if negb (eqb (supervisor_request_token request) token) then (Err InvalidToken, nonces)
  else if str_is_empty (supervisor_request_nonce request) then (Err InvalidNonce, nonces)
  else if i64_abs (i64_sub (clock_wall clocks) (supervisor_request_timestamp request))
            >? MAX_CLOCK_SKEW_SECONDS
  then (Err StaleTimestamp, nonces)
  else
    let nonces := filter (λ p, clock_elapsed_at clocks p.1 - p.2 < NONCE_RETENTION) nonces in
    if is_some (nonces !! supervisor_request_nonce request) then (Err DuplicateNonce, nonces)
    else (Ok tt, <[supervisor_request_nonce request := clock_inserted_at clocks]> nonces).
End authenticator.

(** ** Answers *)

(** The JSON and the texts of the answers. *)
Class ServerLib {K : Codec} := {
  json_bool : bool → Json;
  json_option_string : option string → Json;
  status_to_value : PluginStatus → Json;
  logs_to_value : list PluginLog → Json;
  (** [Err] has the text of the error *)
  operation_to_value : PluginInstallOperation → result string Json;
  operation_list_to_value : PluginInstallOperationList → result string Json;
  rpc_result_to_value : PluginRpcResult → result string Json;
  removed_to_value : PluginRemoveResult → result string Json;
  request_from_slice : list byte → result string SupervisorRequest;
  response_to_vec : SupervisorResponse → option (list byte);
  protocol_error_to_string : ProtocolError → string;
  auth_error_to_string : AuthError → string;
  docker_error_to_string : DockerAdapterError → string;
  record_error_to_string : InstallRecordError → string;
  operation_error_to_string : InstallOperationError → string;
}.

Section server.
Context {K : Codec} {P : ProtocolJson} {J : OperationJson} {R : RecordJson} {D : DockerJson}.
Context {B : Encoding} {L : ServerLib}.
Context (scripts : Scripts) (plugin_data installation_id : string).
Context (gateway_config : GatewayRuntimeConfig).

Definition serialized_success (request_id : string) (result : result string Json) :
    SupervisorResponse :=
  match result with
  | Ok result => SupervisorResponse_success request_id result
  | Err error =>
      SupervisorResponse_failure request_id "INTERNAL_ERROR"
        ("Failed to serialize Supervisor result: " +:+ error)
  end.

Definition operation_failure (request_id : string) (error : InstallOperationError) :
    SupervisorResponse :=
  let code :=
    match error with
    | OperationIdMismatch => "OPERATION_ID_MISMATCH"
    | BuildBusy => "BUILD_BUSY"
    | OperationCapacityReached => "OPERATION_CAPACITY_REACHED"
    | OperationNotFound => "OPERATION_NOT_FOUND"
    | InvalidTransition => "INVALID_OPERATION_TRANSITION"
    | NotTerminal => "OPERATION_NOT_TERMINAL"
    | InstalledAttestationMismatch => "INSTALL_ATTESTATION_MISMATCH"
    | CandidateAlreadyExists => "CANDIDATE_ALREADY_EXISTS"
    | InvalidPath => "INVALID_OPERATION_PATH"
    | AdapterFailed _ => "BUILD_ADAPTER_FAILED"
    | OperationIo | OperationJsonError => "OPERATION_STATE_UNAVAILABLE"
    end in
  SupervisorResponse_failure request_id code (operation_error_to_string error).

Definition docker_failure (request_id : string) (error : DockerAdapterError) : SupervisorResponse :=
  SupervisorResponse_failure request_id "DOCKER_OPERATION_FAILED" (docker_error_to_string error).

Definition plugin_rpc_failure (request_id : string) (error : DockerAdapterError) :
    SupervisorResponse :=
  let code :=
    match error with
    | PluginNotRunning => "PLUGIN_UNAVAILABLE"
    | AdapterRpcTimeout => "PLUGIN_TIMEOUT"
    | AdapterInvalidRpcRequest | AdapterRpcExecFailed | AdapterRpcStderr
    | AdapterInvalidRpcResponse | AdapterRpcResponseTooLarge => "PLUGIN_RESPONSE_INVALID"
    | _ => "DOCKER_OPERATION_FAILED"
    end in
  SupervisorResponse_failure request_id code (docker_error_to_string error).

(** ** Parameters: [unreachable!] for a request of another shape *)

Definition plugin_params (params : option SupervisorParams) : stask PluginRequest :=
  match params with Some (ParamsPlugin params) => Ret params | _ => panic end.
Definition start_params (params : option SupervisorParams) : stask PluginStartRequest :=
  match params with Some (ParamsStart params) => Ret params | _ => panic end.
Definition install_params (params : option SupervisorParams) : stask PluginInstallRequest :=
  match params with Some (ParamsInstall params) => Ret params | _ => panic end.
Definition rpc_request_params (params : option SupervisorParams) : stask PluginRpcRequest :=
  match params with Some (ParamsRpc params) => Ret params | _ => panic end.

(** ** Dispatch *)

(** [let _guard = lifecycle_lock.lock().await;] until the end of the branch *)
Definition with_plugin_lock (request_id : string) (plugin_id : PluginId)
    (body : stask SupervisorResponse) : stask SupervisorResponse :=
  lock ← call (LockFor plugin_id);
  match lock with
  | Err _ =>
      Ret (SupervisorResponse_failure request_id "DOCKER_OPERATION_FAILED"
             "plugin lifecycle lock is unavailable")
  | Ok _ =>
      _ ← call (LockLifecycle plugin_id);
      response ← body;
      _ ← call (UnlockLifecycle plugin_id);
      Ret response
  end.

Definition runtime_state (plugin_id : PluginId) (status : PluginStatus)
    (container_id : option string) : list (string * Json) :=
  [("pluginId", json_string (PluginId_as_str plugin_id)); ("status", status_to_value status);
   ("containerId", json_option_string container_id)].

Definition dispatch_inspect (id : string) (plugin_id : PluginId) : stask SupervisorResponse :=
  inspected ← inspect_plugin installation_id plugin_id;
  match inspected with
  | Ok inspection =>
      Ret (SupervisorResponse_success id (json_object (runtime_state plugin_id
             (if inspection_running inspection then Healthy else Stopped)
             (inspection_container_id inspection))))
  | Err error => Ret (docker_failure id error)
  end.

Definition dispatch_start (id : string) (params : PluginStartRequest) : stask SupervisorResponse :=
  let plugin_id := start_plugin_id params in
  with_plugin_lock id plugin_id (
    loaded ← load_install plugin_data installation_id plugin_id;
    match loaded with
    | Err error =>
        _ ← stop_plugin installation_id plugin_id;
        Ret (SupervisorResponse_failure id "INVALID_INSTALL_RECORD" (record_error_to_string error))
    | Ok install =>
        started ← start_plugin scripts installation_id gateway_config install
                    (start_proxy_token params);
        match started with
        | Ok started =>
            Ret (SupervisorResponse_success id (json_object
                   (runtime_state plugin_id Healthy (Some (started_container_id started))
                    ++ [("logs", logs_to_value (started_logs started))])))
        | Err (Handshake error) =>
            Ret (SupervisorResponse_failure id "PLUGIN_NOT_COMPATIBLE" error)
        | Err error => Ret (docker_failure id error)
        end
    end).

Definition dispatch_stop (id : string) (plugin_id : PluginId) : stask SupervisorResponse :=
  with_plugin_lock id plugin_id (
    stopped ← stop_plugin installation_id plugin_id;
    match stopped with
    | Ok container_id =>
        Ret (SupervisorResponse_success id
               (json_object (runtime_state plugin_id Stopped container_id)))
    | Err error => Ret (docker_failure id error)
    end).

Definition dispatch_logs (id : string) (plugin_id : PluginId) : stask SupervisorResponse :=
  logs ← plugin_logs installation_id plugin_id;
  match logs with
  | Ok logs =>
      Ret (SupervisorResponse_success id (json_object
             [("pluginId", json_string (PluginId_as_str plugin_id)); ("logs", logs_to_value logs)]))
  | Err error => Ret (docker_failure id error)
  end.

Definition dispatch_rpc (id : string) (params : PluginRpcRequest) : stask SupervisorResponse :=
  invoked ← invoke_plugin scripts installation_id (rpc_plugin_id params) (rpc_method params)
              (rpc_params params);
  match invoked with
  | Ok result => Ret (serialized_success id (rpc_result_to_value result))
  | Err error => Ret (plugin_rpc_failure id error)
  end.

Definition operation_response (id : string)
    (r : result InstallOperationError PluginInstallOperation) : SupervisorResponse :=
  match r with
  | Ok operation => serialized_success id (operation_to_value operation)
  | Err error => operation_failure id error
  end.

Definition dispatch_build (id : string) (params : PluginInstallRequest) :
    stask SupervisorResponse :=
  now ← call UtcNow;
  begun ← call (OperationsBegin (install_plugin_id params) (install_operation_id params) now);
  match begun with
  | Err OperationIdMismatch =>
      Ret (SupervisorResponse_failure id "OPERATION_ID_MISMATCH"
             "The operation ID belongs to another plugin")
  | begun => Ret (operation_response id begun)
  end.

Definition dispatch_remove (id : string) (plugin_id : PluginId) : stask SupervisorResponse :=
  with_plugin_lock id plugin_id (
    loaded ← load_install plugin_data installation_id plugin_id;
    match loaded with
    | Err error =>
        Ret (SupervisorResponse_failure id "INVALID_INSTALL_RECORD" (record_error_to_string error))
    | Ok install =>
        removed ← remove_plugin installation_id plugin_data install;
        match removed with
        | Ok removed => Ret (serialized_success id (removed_to_value removed))
        | Err error => Ret (docker_failure id error)
        end
    end).

Definition dispatch (request : SupervisorRequest) : stask SupervisorResponse :=
  let id := supervisor_request_id request in
  let params := supervisor_request_params request in
  match supervisor_request_method request with
  | SystemPing =>
      Ret (SupervisorResponse_success id
             (json_object [("ok", json_bool true); ("service", json_string "audiodown-supervisor")]))
  | PluginInspect =>
      params ← plugin_params params; dispatch_inspect id (request_plugin_id params)
  | PluginStart => params ← start_params params; dispatch_start id params
  | PluginStop => params ← plugin_params params; dispatch_stop id (request_plugin_id params)
  | PluginLogs => params ← plugin_params params; dispatch_logs id (request_plugin_id params)
  | PluginRpc => params ← rpc_request_params params; dispatch_rpc id params
  | PluginInstallBuild => params ← install_params params; dispatch_build id params
  | PluginInstallStatus =>
      params ← install_params params;
      operation ← call (OperationsStatus (install_plugin_id params) (install_operation_id params));
      Ret (operation_response id operation)
  | PluginInstallFinalize =>
      params ← install_params params;
      now ← call UtcNow;
      operation ← call (OperationsFinalize (install_plugin_id params)
                          (install_operation_id params) now);
      Ret (operation_response id operation)
  | PluginInstallAbort =>
      params ← install_params params;
      now ← call UtcNow;
      operation ← call (OperationsAbort (install_plugin_id params)
                          (install_operation_id params) now);
      Ret (operation_response id operation)
  | PluginInstallList =>
      operations ← call OperationsList;
      Ret (serialized_success id (operation_list_to_value operations))
  | PluginInstallAck =>
      params ← install_params params;
      now ← call UtcNow;
      operation ← call (OperationsAcknowledge (install_plugin_id params)
                          (install_operation_id params) now);
      Ret (operation_response id operation)
  | PluginRemove => params ← plugin_params params; dispatch_remove id (request_plugin_id params)
  end.

(** ** Connections *)

(** The loop reads a byte per turn; it ends by itself when the limit is passed. *)
Fixpoint read_request_loop (fuel : nat) (request : list byte) : stask (result unit (list byte)) :=
  match fuel with
  | O => Ret (Err tt)
  | S fuel =>
      read ←? prog_map_err (λ _ : IoError, tt) (call ReadByte);
      match read with
      | None => Ret (Ok request)
      | Some byte =>
          if eqb byte (chr 10) then Ret (Ok request)
          else
            let request := request ++ [byte] in
            if zlen request >? MAX_REQUEST_BYTES then Ret (Err tt)
            else read_request_loop fuel request
      end
  end.
Definition read_request : stask (result unit (list byte)) :=
  read_request_loop (Z.to_nat (MAX_REQUEST_BYTES + 1)) [].

Definition write_response (response : SupervisorResponse) : stask (result unit unit) :=
  encoded ←? Ret (ok_or (response_to_vec response) tt);
  prog_map_err (λ _ : IoError, tt) (call (WriteAll (encoded ++ [chr 10]))) ;;?
  prog_map_err (λ _ : IoError, tt) (call Shutdown).

Definition handle_request (request : SupervisorRequest) : stask SupervisorResponse :=
  match validate_shape request with
  | Err error =>
      Ret (SupervisorResponse_failure (supervisor_request_id request) "INVALID_REQUEST"
             (protocol_error_to_string error))
  | Ok _ =>
      authenticated ← call (Authenticate request);
      match authenticated with
      | Err error =>
          Ret (SupervisorResponse_failure (supervisor_request_id request) "UNAUTHORIZED"
                 (auth_error_to_string error))
      | Ok _ => dispatch request
      end
  end.

Definition handle_connection : stask (result unit unit) :=
  content ←? read_request;
  match request_from_slice content with
  | Err error =>
      write_response (SupervisorResponse_failure String.EmptyString "INVALID_REQUEST"
                        ("Malformed request: " +:+ error))
  | Ok request =>
      response ← handle_request request;
      write_response response
  end.
End server.
