(* ===== verification/SupervisorConfined.v ===== *)
(** * What the supervisor may do with Docker

    The rules every connection keeps to, over what it has been told so far:
    nothing happens before the request is authenticated; containers, networks,
    images and directories are touched only under the lock of the plugin and only
    when Docker or the disk has shown that they belong to it; what is created is
    confined. *)

From S2P Require Import Prelude Text Std Domain ContentContract Foreign CredentialContract Database.
From S2P Require Import SupervisorProtocol Fs InstallOperation Program ContainerPolicy.
From S2P Require Import SupervisorHost InstallRecord Docker SupervisorServer.

Section rules.
Context {K : Codec} {P : ProtocolJson} {J : OperationJson} {R : RecordJson} {D : DockerJson}.
Context {B : Encoding} {L : ServerLib}.
Context (scripts : Scripts) (plugin_data installation_id : string).
Context (gateway_config : GatewayRuntimeConfig).

(** The plugin a request is about. *)
Definition request_plugin (request : SupervisorRequest) : option PluginId :=
  match supervisor_request_params request with
  | Some (ParamsStart params) => Some (start_plugin_id params)
  | Some (ParamsInstall params) => Some (install_plugin_id params)
  | Some (ParamsPlugin params) => Some (request_plugin_id params)
  | Some (ParamsRpc params) => Some (rpc_plugin_id params)
  | None => None
  end.

(** What a connection knows. *)
Record watch := mkWatch {
  (** the request it authenticated, and the plugin it has locked *)
  w_request : option SupervisorRequest;
  w_lock : option PluginId;
  (** listings of containers that were answered *)
  w_asked : list (list string);
  (** containers that were listed and not removed since, with their labels *)
  w_listed : list (string * labels);
  (** networks and images that were inspected, with their labels *)
  w_networks : list (string * labels);
  w_images : list (string * labels);
  (** paths that were seen to be directories and not links *)
  w_directories : list string;
  (** containers it created, and execs with their containers *)
  w_created : list (string * ContainerCreateBody);
  w_execs : list (string * string);
}.
Definition watch0 : watch := mkWatch None None [] [] [] [] [] [] [].
(** With the lock of a plugin everything is looked at anew. *)
Definition watch_locked (g : watch) (plugin_id : PluginId) : watch :=
  mkWatch (w_request g) (Some plugin_id) [] [] [] [] [] [] [].

Definition authenticated (g : watch) : Prop := is_some (w_request g) = true.
(** The connection serves a request with one of the methods about a plugin. *)
Definition serving (g : watch) (methods : list SupervisorMethod) (plugin_id : PluginId) : Prop :=
  ∃ request, w_request g = Some request ∧ supervisor_request_method request ∈ methods ∧
    request_plugin request = Some plugin_id.
Definition holding (g : watch) (methods : list SupervisorMethod) (plugin_id : PluginId) : Prop :=
  serving g methods plugin_id ∧ w_lock g = Some plugin_id.

Definition owned (resource : string) (plugin_id : PluginId) (found : labels) : Prop :=
  verify_runtime_labels found installation_id plugin_id resource = Ok tt.
(** An image that was built for the plugin in this installation. *)
Definition owned_image (plugin_id : PluginId) (found : labels) : Prop :=
  found !! "io.audiodown.managed" = Some "true" ∧
  found !! "io.audiodown.installation" = Some installation_id ∧
  found !! "io.audiodown.plugin-id" = Some (PluginId_as_str plugin_id).

(** Docker was asked for the containers of the plugin, and all it named are gone. *)
Definition cleaned (g : watch) (plugin_id : PluginId) : Prop :=
  label_filters installation_id (Some plugin_id) "plugin" ∈ w_asked g ∧
  label_filters installation_id (Some plugin_id) "gateway" ∈ w_asked g ∧ w_listed g = [].

(** ** Confinement *)

Definition own_network (plugin_id : PluginId) : string :=
  names_network (RuntimeResourceNames_for_plugin plugin_id).

Record confined (plugin_id : PluginId) (resource : string) (body : ContainerCreateBody) : Prop := {
  conf_unprivileged : host_privileged (body_host_config body) = false ∧
    host_devices (body_host_config body) = [];
  conf_capabilities : host_cap_add (body_host_config body) = [] ∧
    host_cap_drop (body_host_config body) = ["ALL"] ∧
    host_security_opt (body_host_config body) = ["no-new-privileges:true"];
  conf_user : body_user body ≠ "" ∧ ¬ starts_with (body_user body) "0" = true ∧
    ¬ starts_with (body_user body) "root" = true;
  conf_read_only : host_readonly_rootfs (body_host_config body) = true;
  conf_ports : host_publish_all_ports (body_host_config body) = false;
  conf_network : host_network_mode (body_host_config body) = own_network plugin_id ∧
    dom (body_endpoints body) = {[own_network plugin_id]} ∧
    host_dns (body_host_config body) = ["0.0.0.0"];
  conf_limits : 0 < host_memory (body_host_config body) ∧
    host_memory_swap (body_host_config body) = host_memory (body_host_config body) ∧
    0 < host_nano_cpus (body_host_config body) ∧ 0 < host_pids_limit (body_host_config body);
  conf_labels : owned resource plugin_id (body_labels body);
}.

(** The gateway sees the proxy socket, read only; the plugin nothing, and runs a
    file of the plugin's directory of its image. *)
Definition gateway_body (plugin_id : PluginId) (body : ContainerCreateBody) : Prop :=
  confined plugin_id "gateway" body ∧ body_image body = gateway_config_image gateway_config ∧
  host_binds (body_host_config body) =
    [gateway_config_proxy_volume gateway_config +:+ ":" +:+ PROXY_MOUNT_PATH +:+ ":ro"].
Definition plugin_body (plugin_id : PluginId) (body : ContainerCreateBody) : Prop :=
  confined plugin_id "plugin" body ∧ host_binds (body_host_config body) = [] ∧
  ∃ file names, body_cmd body = Some ["node"; file] ∧
    components file = RootDir :: Normal "plugin" :: (Normal <$> names).

Record network_confined (plugin_id : PluginId) (request : NetworkCreateRequest) : Prop := {
  net_name : create_network_name request = own_network plugin_id;
  net_internal : create_internal request = true;
  net_attachable : create_attachable request = false;
  net_ingress : create_ingress request = false;
  net_labels : owned "network" plugin_id (create_labels request);
}.

(** ** The rules *)

Definition lifecycle : list SupervisorMethod := [PluginStart; PluginStop; PluginRemove].

(** The proxy token of a request to start a plugin. *)
Definition carries_token (g : watch) (token : list byte) : Prop :=
  ∃ request params, w_request g = Some request ∧
    supervisor_request_params request = Some (ParamsStart params) ∧
    token = bytes (proxy_token_value (start_proxy_token params)).

Definition watch_allowed (g : watch) (c : SupervisorCall) : Prop :=
  match c with
  | ReadByte | WriteAll _ | Shutdown => w_lock g = None
  | Authenticate _ => w_request g = None ∧ w_lock g = None
  | LockFor plugin_id | LockLifecycle plugin_id => serving g lifecycle plugin_id ∧ w_lock g = None
  | UnlockLifecycle plugin_id => w_lock g = Some plugin_id
  | CreateNetwork request =>
      ∃ plugin_id, holding g [PluginStart] plugin_id ∧ cleaned g plugin_id ∧
        network_confined plugin_id request
  | CreateContainer name body =>
      ∃ plugin_id, holding g [PluginStart] plugin_id ∧ cleaned g plugin_id ∧
        let names := RuntimeResourceNames_for_plugin plugin_id in
        (name = names_gateway_container names ∧ gateway_body plugin_id body ∨
         name = names_plugin_container names ∧ plugin_body plugin_id body ∧
         (body_image body = VIRTUAL_IMAGE_ID ∨
          ∃ found, (body_image body, found) ∈ w_images g ∧ owned_image plugin_id found))
  | StartContainer id =>
      ∃ plugin_id body, holding g [PluginStart] plugin_id ∧ (id, body) ∈ w_created g
  | RemoveContainer id =>
      ∃ plugin_id resource found, holding g lifecycle plugin_id ∧ (id, found) ∈ w_listed g ∧
        resource ∈ ["plugin"; "gateway"] ∧ owned resource plugin_id found
  | RemoveNetwork name =>
      ∃ plugin_id found, holding g lifecycle plugin_id ∧ name = own_network plugin_id ∧
        (name, found) ∈ w_networks g ∧ owned "network" plugin_id found
  | RemoveImage id =>
      ∃ plugin_id found, holding g [PluginRemove] plugin_id ∧ (id, found) ∈ w_images g ∧
        owned_image plugin_id found
  | RemoveDirAll path =>
      ∃ plugin_id, holding g [PluginRemove] plugin_id ∧ path ∈ w_directories g ∧
        path = path_join (path_join plugin_data "installed") (PluginId_as_str plugin_id)
  | CreateExec container_id _ =>
      (∃ body, (container_id, body) ∈ w_created g) ∨
      ∃ plugin_id found, serving g [PluginRpc] plugin_id ∧ (container_id, found) ∈ w_listed g ∧
        owned "plugin" plugin_id found
  | StartExec exec | ExecOutput exec | InspectExec exec => exec ∈ (w_execs g).*1
  | ExecInput exec input =>
      ∃ plugin_id container_id body, holding g [PluginStart] plugin_id ∧
        (exec, container_id) ∈ w_execs g ∧ (container_id, body) ∈ w_created g ∧
        plugin_body plugin_id body ∧ carries_token g input
  | Panic => False
  | _ => authenticated g
  end.

(** Docker may answer anything. *)
Definition watch_possible (g : watch) (c : SupervisorCall) : supervisor_answer c → Prop :=
  λ _, True.

Definition listed_ids (containers : list ContainerSummary) : list (string * labels) :=
  omap (λ c, (λ id, (id, default ∅ (summary_labels c))) <$> summary_id c) containers.

Definition removed (r : result DockerError unit) : bool :=
  match r with Ok _ => true | Err error => is_not_found error end.

Definition watch_next (g : watch) (c : SupervisorCall) : supervisor_answer c → watch :=
  let '(mkWatch request lock asked listed networks images directories created execs) := g in
  match c return supervisor_answer c → watch with
  | Authenticate request => λ r : result AuthError unit,
      if is_ok r then mkWatch (Some request) lock asked listed networks images directories created execs
      else g
  | LockLifecycle plugin_id => λ _, watch_locked g plugin_id
  | UnlockLifecycle _ => λ _,
      mkWatch request None asked listed networks images directories created execs
  | ListContainers filters => λ r : result DockerError (list ContainerSummary),
      match r with
      | Ok containers =>
          mkWatch request lock (filters :: asked) (listed_ids containers ++ listed)
            networks images directories created execs
      | Err _ => g
      end
  | RemoveContainer id => λ r : result DockerError unit,
      if removed r
      then mkWatch request lock asked (List.filter (λ p, negb (eqb p.1 id)) listed)
             networks images directories created execs
      else g
  | InspectNetwork name => λ r : result DockerError NetworkInspect,
      match r with
      | Ok network =>
          mkWatch request lock asked listed ((name, default ∅ (inspect_labels network)) :: networks)
            images directories created execs
      | Err _ => g
      end
  | InspectImage id => λ r : result DockerError (option labels),
      match r with
      | Ok found =>
          mkWatch request lock asked listed networks ((id, default ∅ found) :: images)
            directories created execs
      | Err _ => g
      end
  | SymlinkMetadata path => λ r : result IoError Metadata,
      match r with
      | Ok MetaDir =>
          mkWatch request lock asked listed networks images (path :: directories) created execs
      | _ => g
      end
  | CreateContainer _ body => λ r : result DockerError string,
      match r with
      | Ok id =>
          mkWatch request lock asked listed networks images directories ((id, body) :: created) execs
      | Err _ => g
      end
  | CreateExec container_id _ => λ r : result DockerError string,
      match r with
      | Ok exec =>
          mkWatch request lock asked listed networks images directories created
            ((exec, container_id) :: execs)
      | Err _ => g
      end
  | _ => λ _, g
  end.

Definition supervised : protocol supervisor_answer watch :=
  mkProtocol watch_allowed watch_possible watch_next.
End rules.

(** * Every operation of the Docker adapter keeps to the rules

    The proofs follow the code: cleanup, image check, start, stop, removal, and
    the calls of a running plugin, each as a statement of [wp] over the rules of
    the first part. *)

(** ** Labels *)

Lemma verify_managed_Ok found installation resource u :
  verify_managed_labels found installation resource = Ok u →
  found !! "io.audiodown.managed" = Some "true" ∧
  found !! "io.audiodown.installation" = Some installation ∧
  found !! "io.audiodown.resource" = Some resource.
Proof. unfold verify_managed_labels. destruct (_ || _) eqn:H; [done|]. by bool_prop. Qed.

Lemma verify_runtime_spec found installation plugin_id resource :
  verify_runtime_labels found installation plugin_id resource = Ok tt ↔
  found !! "io.audiodown.managed" = Some "true" ∧
  found !! "io.audiodown.installation" = Some installation ∧
  found !! "io.audiodown.resource" = Some resource ∧
  found !! "io.audiodown.plugin-id" = Some (PluginId_as_str plugin_id).
Proof.
  unfold verify_runtime_labels, verify_managed_labels. split.
  - intros H. simplify_result. repeat case_match; by bool_prop.
  - intros (-> & -> & -> & ->). by rewrite !eqb_refl.
Qed.

Lemma labels_include_lookup expected found key value :
  labels_include expected found = true → expected !! key = Some value → found !! key = Some value.
Proof.
  unfold labels_include. rewrite forallb_forall. intros H Hk.
  apply eqb_eq, (H (key, value)), list_elem_of_In, elem_of_map_to_list, Hk.
Qed.

Section confined.
Context {K : Codec} {P : ProtocolJson} {J : OperationJson} {R : RecordJson} {D : DockerJson}.
Context {B : Encoding} {L : ServerLib}.
Context (scripts : Scripts) (plugin_data installation_id : string).
Context (gateway_config : GatewayRuntimeConfig).

Abbreviation rules := (supervised plugin_data installation_id gateway_config).

(** ** What stays as it was *)

Record session (g g' : watch) : Prop := {
  ses_request : w_request g' = w_request g;
  ses_lock : w_lock g' = w_lock g;
  ses_created : w_created g ⊆ w_created g';
  ses_asked : w_asked g ⊆ w_asked g';
  ses_images : w_images g ⊆ w_images g';
}.
Global Instance session_preorder : PreOrder session.
Proof.
  split; [by constructor|]. intros g1 g2 g3 [] []. constructor; (congruence || set_solver).
Qed.

Lemma session_serving g g' methods p : session g g' → serving g methods p → serving g' methods p.
Proof. intros [Hr _ _ _ _] (request & ? & ?). exists request. by rewrite Hr. Qed.
Lemma session_holding g g' methods p : session g g' → holding g methods p → holding g' methods p.
Proof.
  intros Hs [Hh Hl]. split; [by eapply session_serving|]. by rewrite (ses_lock _ _ Hs).
Qed.
Lemma session_authenticated g g' : session g g' → authenticated g → authenticated g'.
Proof. unfold authenticated. by intros [-> _ _ _ _]. Qed.
Lemma serving_authenticated g methods p : serving g methods p → authenticated g.
Proof. intros (request & Hr & _). unfold authenticated. by rewrite Hr. Qed.
Lemma holding_authenticated g methods p : holding g methods p → authenticated g.
Proof. intros [Hs _]. by eapply serving_authenticated. Qed.
Lemma holding_weaken g methods methods' p :
  methods ⊆ methods' → holding g methods p → holding g methods' p.
Proof. intros Hm [(request & ? & ? & ?) Hl]. split; [|done]. exists request. set_solver. Qed.

(** Calls that tell nothing the rules are about. *)
Lemma idle_wp c (Q : supervisor_answer c → watch → Prop) g :
  watch_allowed plugin_data installation_id gateway_config g c →
  (∀ r, watch_next g c r = g) → (∀ r, Q r g) → wp rules (call c) Q g.
Proof. intros Ha Hn HQ. apply wp_call; [done|]. intros r _. cbn [next supervised]. by rewrite Hn. Qed.

(** ** Finding and cleaning up *)

Lemma single_owned_Ok p resource found containers r :
  single_owned installation_id p resource found containers = Ok r →
  match found with
  | Some id => r = Some id ∧ listed_ids containers = []
  | None => r = None ∧ listed_ids containers = [] ∨
      ∃ id l, r = Some id ∧ listed_ids containers = [(id, l)] ∧ owned installation_id resource p l
  end.
Proof.
  revert found. induction containers as [|c containers IH]; intros found Hr; simpl in Hr.
  - injection Hr as ->. destruct r; [done|by left].
  - destruct (_ || _) eqn:Hl; [done|]. apply orb_false_iff in Hl as [Hm Hid]. bool_prop.
    unfold listed_ids. simpl. destruct (summary_id c) as [id|]; simpl.
    + destruct found as [x|]; [done|]. simpl in Hr. apply IH in Hr as [-> Hnil]. right.
      exists id, (default ∅ (summary_labels c)). split_and!; [done|by f_equal|].
      apply verify_runtime_spec. destruct (verify_managed_labels _ _ _) as [[]|] eqn:Hv; [|done].
      apply verify_managed_Ok in Hv as (? & ? & ?). done.
    + by apply IH.
Qed.

Definition found_post (p : PluginId) (resource : string) (g : watch)
    (r : result DockerAdapterError (option string)) (g' : watch) : Prop :=
  session g g' ∧
  match r with
  | Ok found =>
      label_filters installation_id (Some p) resource ∈ w_asked g' ∧
      match found with
      | Some id => ∃ l, w_listed g' = (id, l) :: w_listed g ∧ owned installation_id resource p l
      | None => w_listed g' = w_listed g
      end
  | Err _ => True
  end.

Lemma find_wp p resource g :
  authenticated g →
  wp rules (find_managed_container_by_resource installation_id p resource) (found_post p resource g) g.
Proof.
  intros Hg. unfold find_managed_container_by_resource, docker. wp_step. wp_step. wp_step; [done|..];
    [|by split; destruct g].
  wp_step. destruct (single_owned _ _ _ _ _) as [found|] eqn:Ho; [|split; [|done]; by destruct g; constructor; set_solver].
  apply single_owned_Ok in Ho. destruct g. split; [constructor; set_solver|]. split; [set_solver|].
  destruct Ho as [[-> Hnil]|(id & l & -> & Hl & Ho)]; simpl.
  - by rewrite Hnil.
  - exists l. by rewrite Hl.
Qed.

Lemma remove_container_wp p resource id l g :
  holding g lifecycle p → (id, l) ∈ w_listed g → resource ∈ ["plugin"; "gateway"] →
  owned installation_id resource p l →
  wp rules (remove_runtime_container id)
    (λ r g', session g g' ∧
       (is_ok r = true → w_listed g' = List.filter (λ p, negb (eqb p.1 id)) (w_listed g))) g.
Proof.
  intros Hh Hin Hres Ho. unfold remove_runtime_container. wp_step. wp_step; [by exists p, resource, l|..].
  - wp_step. by destruct g.
  - destruct (is_not_found r) eqn:Hn; wp_step; destruct g; simpl; rewrite Hn; simpl; [|done].
    by split.
Qed.

Lemma cleanup_container_wp p resource g :
  holding g lifecycle p → resource ∈ ["plugin"; "gateway"] →
  wp rules (cleanup_container installation_id p resource)
    (λ r g', session g g' ∧ (r.2 = false → w_listed g = [] →
       label_filters installation_id (Some p) resource ∈ w_asked g' ∧ w_listed g' = [])) g.
Proof.
  intros Hh Hres. unfold cleanup_container. wp_step.
  eapply wp_mono, find_wp; [|by eapply holding_authenticated].
  intros [[id|]|e] g1 [Hs Hf]; [|wp_step|wp_step; by split].
  - destruct Hf as (Hasked & l & Hl & Ho). wp_step.
    eapply wp_mono, remove_container_wp; [|by eapply session_holding|rewrite Hl; apply list_elem_of_here|done|done].
    intros r g2 [Hs2 Hr]. wp_step. split; [by etrans|]. simpl. intros Hok Hnil.
    destruct (is_ok r); [|done]. split; [by apply (ses_asked _ _ Hs2)|].
    rewrite (Hr eq_refl), Hl, Hnil. simpl. by rewrite eqb_refl.
  - split; [done|]. intros _ Hnil. destruct Hf as [Hasked Hf]. split; [done|]. by rewrite Hf.
Qed.

Lemma remove_network_wp p g :
  holding g lifecycle p →
  wp rules (remove_managed_network installation_id p (own_network p))
    (λ _ g', session g g' ∧ w_listed g' = w_listed g) g.
Proof.
  intros Hh. unfold remove_managed_network. wp_step. wp_step.
  - by eapply holding_authenticated.
  - unfold network_is_owned_for_cleanup. destruct (verify_runtime_labels _ _ _ _) as [[]|] eqn:Ho;
      cbn [is_ok negb].
    + wp_step. wp_step.
      * exists p, (default ∅ (inspect_labels r)). destruct g.
        split; [done|]. split; [done|]. split; [apply list_elem_of_here|done].
      * wp_step. destruct g. split; [by constructor|done].
      * destruct (is_not_found r0); wp_step; destruct g; (split; [by constructor|done]).
    + wp_step. destruct g. split; [by constructor|done].
  - destruct (is_not_found r); wp_step; by destruct g.
Qed.

(** A cleanup that succeeds from an empty session has left nothing. *)
Lemma cleanup_wp p g :
  holding g lifecycle p →
  wp rules (cleanup_runtime_resources installation_id p)
    (λ r g', session g g' ∧ (is_ok r = true → w_listed g = [] → cleaned installation_id g' p)) g.
Proof.
  intros Hh. unfold cleanup_runtime_resources. wp_step.
  eapply wp_mono, cleanup_container_wp; [|done|set_solver]. intros r1 g1 [Hs1 H1]. wp_step.
  eapply wp_mono, cleanup_container_wp; [|by eapply session_holding|set_solver]. intros r2 g2 [Hs2 H2].
  wp_step. eapply wp_mono, remove_network_wp; [|by eapply session_holding, session_holding].
  intros r3 g3 [Hs3 H3]. destruct (_ || _) eqn:Hf; wp_step; (split; [by do 2 (etrans; [done|])|done || intros _ Hnil]).
  apply orb_false_iff in Hf as [Hf _]. apply orb_false_iff in Hf as [Hf1 Hf2].
  destruct (H1 Hf1 Hnil) as [Ha1 Hl1]. destruct (H2 Hf2 Hl1) as [Ha2 Hl2].
  split_and!; [apply (ses_asked _ _ Hs3), (ses_asked _ _ Hs2), Ha1|apply (ses_asked _ _ Hs3), Ha2|].
  by rewrite H3.
Qed.

(** ** The image and the policy *)

(** What [load_install] has checked. *)
Record install_ok (p : PluginId) (install : ValidatedInstall) : Prop := {
  ok_plugin_id : installed_plugin_id (validated_installed install) = p;
  ok_installation : installed_installation_id (validated_installed install) = installation_id;
  ok_runtime_path : ∃ names, components (installed_runtime_path (validated_installed install)) =
    RootDir :: Normal "plugin" :: (Normal <$> names);
  ok_image : match validated_expected_image_labels install with
    | Some expected => owned_image installation_id p expected
    | None => installed_image_id (validated_installed install) = VIRTUAL_IMAGE_ID
    end;
}.

Definition image_seen (g : watch) (p : PluginId) (image : string) : Prop :=
  image = VIRTUAL_IMAGE_ID ∨ ∃ found, (image, found) ∈ w_images g ∧ owned_image installation_id p found.

Lemma owned_image_include p expected found :
  owned_image installation_id p expected → labels_include expected found = true →
  owned_image installation_id p found.
Proof. intros (? & ? & ?) Hi. repeat split; by eapply labels_include_lookup. Qed.

Lemma verify_image_wp p install g :
  authenticated g → install_ok p install →
  wp rules (verify_install_image install)
    (λ r g', session g g' ∧ w_listed g' = w_listed g ∧
       (is_ok r = true → image_seen g' p (installed_image_id (validated_installed install)))) g.
Proof.
  intros Hg [_ _ _ Hi]. unfold verify_install_image, docker.
  destruct (validated_expected_image_labels install) as [expected|].
  - wp_step. wp_step. wp_step; [done|..]; [|by destruct g].
    destruct (labels_include _ _) eqn:Hl; wp_step; destruct g; (split; [constructor; set_solver|]); [|done].
    split; [done|]. intros _. right. eexists. split; [apply list_elem_of_here|].
    by eapply owned_image_include.
  - wp_step. split; [done|]. split; [done|]. by left.
Qed.

(** The policy of an installed plugin confines it. *)
Lemma policy_confined installed token :
  installed_installation_id installed = installation_id →
  ∃ r, PluginRuntimePolicy_build installed gateway_config token = Some r ∧
  ∀ policy, r = Ok policy →
    let p := installed_plugin_id installed in
    network_confined installation_id p (network_create_request (policy_network policy)) ∧
    settings_container_name (gateway_spec_settings (policy_gateway policy)) =
      names_gateway_container (RuntimeResourceNames_for_plugin p) ∧
    gateway_body installation_id gateway_config p (gateway_container_config (policy_gateway policy)) ∧
    settings_container_name (plugin_spec_settings (policy_plugin policy)) =
      names_plugin_container (RuntimeResourceNames_for_plugin p) ∧
    plugin_spec_plugin_id (policy_plugin policy) = p ∧
    plugin_spec_proxy_token (policy_plugin policy) = token ∧
    let body := plugin_container_config scripts (policy_plugin policy) in
    confined installation_id p "plugin" body ∧ host_binds (body_host_config body) = [] ∧
    body_cmd body = Some ["node"; installed_runtime_path installed] ∧
    body_image body = installed_image_id installed.
Proof.
  intros Hi. unfold PluginRuntimePolicy_build, PluginContainerPolicy_build.
  destruct (_ || _) eqn:Hlimits; [by eexists|]. destruct (negb _); [by eexists|].
  bool_prop. eexists. split; [reflexivity|]. intros policy [= <-]. rewrite Hi.
  assert (∀ resource, owned installation_id resource (installed_plugin_id installed)
    (<["io.audiodown.resource":=resource]> (<["io.audiodown.plugin-id":=PluginId_as_str (installed_plugin_id installed)]>
      (<["io.audiodown.installation":=installation_id]> (<["io.audiodown.managed":="true"]> ∅))))) as Hlabels.
  { intros resource. by apply verify_runtime_spec. }
  split; [constructor; first [done|apply Hlabels]|]. split; [done|]. split.
  { split; [|done]. constructor; simpl;
      first [done|apply Hlabels|split; [done|]; split; [apply dom_singleton_L|done]]. }
  split_and!; try done. constructor; simpl;
    first [done|apply Hlabels|split; [done|]; split; [apply dom_singleton_L|done]].
Qed.

(** ** Execs *)

(** Nothing but new execs. *)
Record same (g g' : watch) : Prop := {
  same_session : session g g';
  same_listed : w_listed g' = w_listed g;
  same_asked : w_asked g' = w_asked g;
  same_created : w_created g' = w_created g;
}.
Global Instance same_preorder : PreOrder same.
Proof. split; [by constructor|]. intros g1 g2 g3 [] []. constructor; (congruence || by etrans). Qed.

Definition can_exec (g : watch) (container_id : string) : Prop :=
  (∃ body, (container_id, body) ∈ w_created g) ∨
  ∃ p found, serving g [PluginRpc] p ∧ (container_id, found) ∈ w_listed g ∧
    owned installation_id "plugin" p found.

Lemma can_exec_same g g' id : same g g' → can_exec g id → can_exec g' id.
Proof.
  intros [Hs Hl _ Hc] [Hb|(p & found & Hsv & Hin & Ho)]; [left; by rewrite Hc|].
  right. exists p, found. rewrite Hl. split; [by eapply session_serving|done].
Qed.

(** The new exec is known afterwards, and stays known. *)
Definition exec_known (id : string) (g g' : watch) (exec : string) : Prop :=
  same g g' ∧ (exec, id) ∈ w_execs g'.

Lemma create_exec_wp {E} id options (into : DockerError → E) g :
  can_exec g id →
  wp rules (prog_map_err into (call (CreateExec id options)))
    (λ r g', match r with Ok exec => exec_known id g g' exec | Err _ => g' = g end) g.
Proof.
  intros Hc. wp_step. wp_step; [exact Hc|..]; [|by destruct g].
  destruct g. split; [|apply list_elem_of_here]. by constructor.
Qed.

(** Calls on a known exec change nothing. *)
Lemma exec_call_wp {A} (id exec : string) c (Q : A → watch → Prop) k g :
  (exec, id) ∈ w_execs g →
  c = StartExec exec ∨ c = ExecOutput exec ∨ c = InspectExec exec →
  (∀ r, wp rules (k r) Q g) → wp rules (Vis c k) Q g.
Proof.
  intros Hin Hc Hk. assert (exec ∈ (w_execs g).*1) as Hexec
    by (apply list_elem_of_fmap; by exists (exec, id)).
  destruct Hc as [->|[->| ->]]; (split; [exact Hexec|]); intros r _; destruct g; apply Hk.
Qed.

Lemma exec_prog_wp (id exec : string) c (Q : supervisor_answer c → watch → Prop) g :
  (exec, id) ∈ w_execs g →
  c = StartExec exec ∨ c = ExecOutput exec ∨ c = InspectExec exec →
  (∀ r, Q r g) → wp rules (call c) Q g.
Proof. intros Hin Hc HQ. by eapply exec_call_wp. Qed.

Lemma handshake_wp id p version g :
  can_exec g id → wp rules (handshake scripts id p version) (λ _ g', same g g') g.
Proof.
  intros Hc. unfold handshake. wp_step. eapply wp_mono, create_exec_wp; [|done].
  intros [exec|] g1; [|by intros ->]. intros [Hs Hin]. wp_step. wp_step.
  eapply exec_prog_wp; [done|by left|]. intros [[]|]; [|done..].
  cbn [map_err]. wp_step. unfold exec_output. wp_step.
  eapply exec_prog_wp; [done|by right; left|]. intros chunks. wp_step.
  destruct (fold_stream _ _ _ _); [|done]. wp_step. wp_step.
  eapply exec_prog_wp; [done|by right; right|]. intros [inspection|]; [|done]. cbn [map_err].
  by destruct (negb _).
Qed.

Lemma wait_for_handshake_wp attempts id p version last g :
  can_exec g id → authenticated g →
  wp rules (wait_for_handshake scripts attempts id p version last) (λ _ g', same g g') g.
Proof.
  revert last g. induction attempts as [|attempts IH]; intros last g Hc Ha; [done|].
  cbn [wait_for_handshake]. wp_step. eapply wp_mono, handshake_wp; [|done].
  intros [[]|e] g1 Hs; [done|]. wp_step.
  assert (authenticated g1) by (eapply session_authenticated, Ha; apply (same_session _ _ Hs)).
  apply idle_wp; [done|by destruct g1|]. intros r.
  eapply wp_mono; [|apply IH; [by eapply can_exec_same|done]]. intros a g2 Hs2. by etrans.
Qed.

Lemma await_delivery_wp turns id exec g :
  (exec, id) ∈ w_execs g → authenticated g →
  wp rules (await_delivery turns exec) (λ _ g', g' = g) g.
Proof.
  intros Hin Ha. induction turns as [|turns IH]; [done|]. cbn [await_delivery]. unfold undelivered.
  wp_step. wp_step. eapply exec_prog_wp; [done|by right; right|]. intros [inspection|]; [|done]. cbn [map_err].
  destruct (eqb (exec_running inspection) (Some false)); [by destruct (eqb _ _)|].
  wp_step. apply idle_wp; [done|by destruct g|done].
Qed.

(** The token is written to an exec in the container of the plugin. *)
Lemma deliver_token_wp p id body token g :
  holding g [PluginStart] p → (id, body) ∈ w_created g →
  plugin_body installation_id p body → carries_token g (bytes (proxy_token_value token)) →
  wp rules (deliver_proxy_token scripts id token) (λ _ g', same g g') g.
Proof.
  intros Hh Hin Hb Ht. unfold deliver_proxy_token. wp_step. unfold undelivered at 1.
  eapply wp_mono, create_exec_wp; [|left; by eexists]. intros [exec|] g1; [|by intros ->].
  intros [Hs Hexec]. unfold undelivered at 1. wp_step. wp_step. eapply exec_prog_wp; [done|by left|].
  intros [[]|]; [|done..]. cbn [map_err]. unfold undelivered at 1. wp_step. wp_step.
  assert (holding g1 [PluginStart] p) as Hh1 by (eapply session_holding, Hh; apply (same_session _ _ Hs)).
  wp_step.
  - exists p, id, body. split; [done|]. split; [done|]. split; [by rewrite (same_created _ _ Hs)|].
    split; [done|]. destruct Ht as (request & params & Hr & ?). exists request, params.
    by rewrite (ses_request _ _ (same_session _ _ Hs)).
  - destruct g1. eapply wp_mono, await_delivery_wp; [by intros _ ? ->|done|by eapply holding_authenticated].
  - by destruct g1.
Qed.
End confined.
