(* ===== verification/SupervisorTasks.v ===== *)
(** * Requests are accepted at most once

    The authenticator of the supervisor against the same request sent again,
    with the clocks as they are: [i64] arithmetic that wraps, and instants that
    are read at different moments of one validation. *)

From S2P Require Import Prelude Text Std Domain ContentContract Foreign CredentialContract Database.
From S2P Require Import SupervisorProtocol Fs InstallOperation Program ContainerPolicy.
From S2P Require Import SupervisorHost InstallRecord Docker SupervisorServer SupervisorConfined.
From S2P Require Import SupervisorServing.

Lemma wrap_i64_id z : - 2 ^ 63 ≤ z < 2 ^ 63 → wrap_i64 z = z.
Proof. intros H. unfold wrap_i64. rewrite Z.mod_small; lia. Qed.

Lemma wrap_i64_over z : 2 ^ 63 ≤ z < 2 ^ 63 + 2 ^ 64 → wrap_i64 z = z - 2 ^ 64.
Proof.
  intros H. unfold wrap_i64. rewrite <- (Z.mod_unique (z + 2 ^ 63) (2 ^ 64) 1 (z - 2 ^ 63)); lia.
Qed.

(** Which timestamps are fresh: those within thirty seconds, and one at the other
    end of the range, where both operations overflow. *)
Lemma fresh_timestamp now timestamp :
  0 ≤ now < 2 ^ 62 → - 2 ^ 63 ≤ timestamp < 2 ^ 63 →
  i64_abs (i64_sub now timestamp) ≤ MAX_CLOCK_SKEW_SECONDS ↔
  Z.abs (now - timestamp) ≤ MAX_CLOCK_SKEW_SECONDS ∨ timestamp = now - 2 ^ 63.
Proof.
  intros Hnow Hts. unfold i64_sub, MAX_CLOCK_SKEW_SECONDS.
  destruct (decide (now - timestamp < 2 ^ 63)) as [Hlt|Hge].
  - rewrite wrap_i64_id by lia. unfold i64_abs. rewrite wrap_i64_id by lia. lia.
  - rewrite wrap_i64_over by lia. unfold i64_abs.
    destruct (decide (now - timestamp = 2 ^ 63)) as [Heq|Hne].
    + replace (Z.abs (now - timestamp - 2 ^ 64)) with (2 ^ 63) by lia.
      rewrite wrap_i64_over by lia. lia.
    + rewrite wrap_i64_id by lia. lia.
Qed.

Section replay.
Context {K : Codec}.
Context (token : string).

(** Validations in the order in which they hold the mutex. *)
Fixpoint validate_all (nonces : Nonces) (attempts : list (SupervisorRequest * AuthClocks)) :
    list (result AuthError unit) :=
  match attempts with
  | [] => []
  | (request, clocks) :: attempts =>
      let '(r, nonces) := validate token request clocks nonces in
      r :: validate_all nonces attempts
  end.

(** The clocks of attempts: monotonic, and from storing a nonce in one attempt to
    looking at it in a later one less than a minute more passes on the monotonic
    clock than between the two readings of the wall clock. *)
Definition clocks_ok (attempts : list (SupervisorRequest * AuthClocks)) : Prop :=
  (∀ i a, attempts !! i = Some a → 0 ≤ clock_wall a.2 < 2 ^ 62) ∧
  ∀ i j a b, (i < j)%nat → attempts !! i = Some a → attempts !! j = Some b →
    (∀ n n', clock_elapsed_at a.2 n ≤ clock_elapsed_at b.2 n') ∧
    ∀ n, clock_elapsed_at b.2 n - clock_inserted_at a.2 <
         (clock_wall b.2 - clock_wall a.2 + 60) * 10 ^ 9.

Lemma validate_Ok request clocks nonces nonces' :
  validate token request clocks nonces = (Ok tt, nonces') →
  i64_abs (i64_sub (clock_wall clocks) (supervisor_request_timestamp request))
    ≤ MAX_CLOCK_SKEW_SECONDS ∧
  (∀ at_, nonces !! supervisor_request_nonce request = Some at_ →
     NONCE_RETENTION ≤ clock_elapsed_at clocks (supervisor_request_nonce request) - at_) ∧
  nonces' !! supervisor_request_nonce request = Some (clock_inserted_at clocks).
Proof.
  unfold validate. destruct (negb _); [done|]. destruct (str_is_empty _); [done|].
  destruct (_ >? _) eqn:Hskew; [done|]. destruct (is_some _) eqn:Hdup; [done|].
  intros [= <-]. split; [lia|]. split; [|by rewrite lookup_insert_eq].
  intros at_ Hat. destruct (decide (clock_elapsed_at clocks (supervisor_request_nonce request) - at_
    < NONCE_RETENTION)) as [Hlt|]; [|lia].
  rewrite (proj2 (map_lookup_filter_Some _ _ _ _) (conj Hat Hlt)) in Hdup. done.
Qed.

(** A nonce stays for as long as it is looked at in time. *)
Lemma validate_keeps request clocks nonces r nonces' nonce at_ :
  validate token request clocks nonces = (r, nonces') → nonces !! nonce = Some at_ →
  clock_elapsed_at clocks nonce - at_ < NONCE_RETENTION →
  nonces' !! nonce = Some at_.
Proof.
  unfold validate. intros Hv Hn Hlt.
  assert (filter (λ p, clock_elapsed_at clocks p.1 - p.2 < NONCE_RETENTION) nonces !! nonce = Some at_)
    as Hf by (by apply map_lookup_filter_Some).
  destruct (negb _); [by simplify_eq|]. destruct (str_is_empty _); [by simplify_eq|].
  destruct (_ >? _); [by simplify_eq|].
  destruct (is_some _) eqn:Hdup; simplify_eq; [done|].
  rewrite lookup_insert_ne; [done|]. intros <-. by rewrite Hf in Hdup.
Qed.

Lemma validate_all_stored nonces attempts j b nonce at_ :
  nonces !! nonce = Some at_ → attempts !! j = Some b →
  supervisor_request_nonce b.1 = nonce →
  (∀ k c, (k ≤ j)%nat → attempts !! k = Some c →
     clock_elapsed_at c.2 nonce - at_ < NONCE_RETENTION) →
  validate_all nonces attempts !! j ≠ Some (Ok tt).
Proof.
  revert nonces j. induction attempts as [|[request clocks] attempts IH]; intros nonces j; [done|].
  intros Hn Hj Hb Hk. simpl. destruct (validate token request clocks nonces) as [r nonces'] eqn:Hv.
  pose proof (Hk 0%nat _ ltac:(lia) eq_refl) as H0. simpl in H0.
  destruct j as [|j]; simpl in *.
  - injection Hj as <-. simpl in *. intros [= ->].
    apply validate_Ok in Hv as (_ & Hold & _). subst nonce. specialize (Hold _ Hn). lia.
  - apply IH; [by eapply validate_keeps|done|done|]. intros k c Hkj Hc.
    apply (Hk (S k)); [lia|done].
Qed.

Lemma validate_all_Ok nonces attempts j b :
  validate_all nonces attempts !! j = Some (Ok tt) → attempts !! j = Some b →
  ∃ before after, validate token b.1 b.2 before = (Ok tt, after).
Proof.
  revert nonces j. induction attempts as [|[r c] attempts IH]; intros nonces j Hacc Hb; [done|].
  simpl in Hacc. destruct (validate token r c nonces) as [v n] eqn:Hv. destruct j as [|j]; simpl in *.
  - injection Hb as <-. injection Hacc as ->. eauto.
  - eauto.
Qed.

Lemma clocks_ok_tail a attempts : clocks_ok (a :: attempts) → clocks_ok attempts.
Proof.
  intros [Hw Hc]. split; [intros i b Hi; by apply (Hw (S i))|].
  intros i j b c Hij Hb Hcc. by apply (Hc (S i) (S j)); [lia|..].
Qed.

(** C10. Whatever requests arrive in whatever order, a request that was accepted is
    not accepted again: with the same nonce and timestamp it is refused for its
    nonce as long as its timestamp is fresh, and afterwards for its timestamp.
    The wall clock may be set back or stand still by less than a minute, delays
    inside a validation included. *)
Theorem no_replay nonces attempts i j a b :
  clocks_ok attempts → (i < j)%nat → attempts !! i = Some a → attempts !! j = Some b →
  supervisor_request_nonce a.1 = supervisor_request_nonce b.1 →
  supervisor_request_timestamp a.1 = supervisor_request_timestamp b.1 →
  - 2 ^ 63 ≤ supervisor_request_timestamp a.1 < 2 ^ 63 →
  validate_all nonces attempts !! i = Some (Ok tt) →
  validate_all nonces attempts !! j ≠ Some (Ok tt).
Proof.
  intros Hclocks Hij Ha Hb Hnonce Hts Hrange. revert nonces i j Hclocks Hij Ha Hb.
  induction attempts as [|[request clocks] attempts IH]; intros nonces i j Hclocks Hij Ha Hb; [done|].
  destruct j as [|j]; [lia|]. simpl.
  destruct (validate token request clocks nonces) as [r nonces'] eqn:Hv. destruct i as [|i]; simpl.
  - injection Ha as <-. intros [= ->]. apply validate_Ok in Hv as (Hfresh & _ & Hstored). simpl in *.
    intros Hacc. destruct (validate_all_Ok _ _ _ _ Hacc Hb) as (n2 & n3 & (Hfresh2 & _)%validate_Ok).
    destruct Hclocks as [Hw Hc].
    pose proof (Hw 0%nat _ eq_refl) as Hw0. pose proof (Hw (S j) _ Hb) as Hwj. simpl in *.
    rewrite <- Hts in Hfresh2. apply fresh_timestamp in Hfresh, Hfresh2; [|lia..].
    assert (clock_wall b.2 - clock_wall clocks ≤ 60) as Hdiff
      by (unfold MAX_CLOCK_SKEW_SECONDS in *; lia).
    destruct (Hc 0%nat (S j) _ _ ltac:(lia) eq_refl Hb) as [_ Hlate]. simpl in Hlate.
    revert Hacc. eapply validate_all_stored; [exact Hstored|exact Hb|done|].
    intros k c Hk Hck. specialize (Hlate (supervisor_request_nonce request)).
    assert (clock_elapsed_at c.2 (supervisor_request_nonce request)
      ≤ clock_elapsed_at b.2 (supervisor_request_nonce request)) as Hmono.
    { destruct (decide (k = j)) as [->|Hne]; [rewrite Hck in Hb; by simplify_eq|].
      by apply (Hc (S k) (S j) c b); [lia|..]. }
    unfold NONCE_RETENTION. lia.
  - apply IH; [by eapply clocks_ok_tail|lia|done|done].
Qed.
End replay.

(** * Any number of connections at once

    The supervisor serves every connection in a task of its own.  The tasks share
    the authenticator and one lock per plugin. *)

Record SupervisorMemory := mkSupervisorMemory {
  memory_nonces : Nonces;
  memory_locks : gset PluginId;
}.
Definition supervisor_memory0 : SupervisorMemory := mkSupervisorMemory ∅ ∅.

Section tasks.
Context {K : Codec} {P : ProtocolJson} {J : OperationJson} {R : RecordJson} {D : DockerJson}.
Context {B : Encoding} {L : ServerLib}.
Context (scripts : Scripts) (plugin_data installation_id token : string).
Context (gateway_config : GatewayRuntimeConfig).

Abbreviation rules := (supervised plugin_data installation_id gateway_config).

(** The answers of the authenticator and the locks; Docker, the disk, the clients
    and the install operations answer anything. *)
Definition supervisor_sem (c : SupervisorCall) (m : SupervisorMemory) (r : supervisor_answer c)
    (m' : SupervisorMemory) : Prop :=
  match c return supervisor_answer c → Prop with
  | Authenticate request => λ r : result AuthError unit,
      ∃ clocks nonces, (validate token request clocks (memory_nonces m) = (r, nonces)) ∧
        m' = mkSupervisorMemory nonces (memory_locks m)
  | LockLifecycle plugin_id => λ _,
      (plugin_id ∉ memory_locks m) ∧
      m' = mkSupervisorMemory (memory_nonces m) ({[plugin_id]} ∪ memory_locks m)
  | UnlockLifecycle plugin_id => λ _,
      m' = mkSupervisorMemory (memory_nonces m) (memory_locks m ∖ {[plugin_id]})
  | _ => λ _, m' = m
  end r.

(** [tokio::spawn] of a connection, its error logged. *)
Inductive connection_task : stask unit → Prop :=
  | ConnectionTask :
      connection_task
        (_ ← handle_connection scripts plugin_data installation_id gateway_config; Ret tt).

Definition supervisor_pool : Type :=
  list (history (answer := supervisor_answer) * stask unit).

Record serving_inv (m : SupervisorMemory) (gs : list watch) : Prop := {
  inv_locks : locks_inv w_lock (memory_locks m) gs;
  inv_token i g request : gs !! i = Some g → w_request g = Some request →
    supervisor_request_token request = token;
}.

Lemma validate_token request clocks nonces nonces' :
  validate token request clocks nonces = (Ok tt, nonces') → supervisor_request_token request = token.
Proof. unfold validate. destruct (negb _) eqn:Ht; [done|]. by bool_prop. Qed.

(** A request is served after it was authenticated, only the lock calls change
    the lock. *)
Lemma next_request g c m r m' request :
  supervisor_sem c m r m' → w_request (watch_next g c r) = Some request →
  w_request g = Some request ∨ supervisor_request_token request = token.
Proof.
  intros Hsem Hr. destruct g, c; try (by left); try (destruct r as [[]|]; by left);
    try (destruct r; by left).
  - simpl in Hr. destruct (removed r); by left.
  - destruct Hsem as (clocks & nonces & Hv & _). destruct r as [[]|]; [|by left]. simpl in Hr.
    injection Hr as ->. right. by eapply validate_token.
Qed.

Lemma next_lock g c r :
  match c with
  | LockLifecycle p => w_lock (watch_next g c r) = Some p
  | UnlockLifecycle _ => w_lock (watch_next g c r) = None
  | _ => w_lock (watch_next g c r) = w_lock g
  end.
Proof.
  destruct g, c; try done; try (by destruct r); try (by destruct r as [[]|]).
  simpl. by destruct (removed r).
Qed.

Lemma serving_step m gs i g c r m' :
  serving_inv m gs → gs !! i = Some g →
  watch_allowed plugin_data installation_id gateway_config g c → supervisor_sem c m r m' →
  serving_inv m' (<[i := watch_next g c r]> gs).
Proof.
  intros [Hlocks Htoken] Hi Ha Hsem. pose proof (next_lock g c r) as Hl. split.
  - destruct c; simpl in Hsem; try (subst m'; by apply (locks_keep _ _ _ _ g)).
    + destruct Hsem as (clocks & nonces & _ & ->). by apply (locks_keep _ _ _ _ g).
    + destruct Hsem as [Hnew ->]. by apply locks_take.
    + subst m'. by apply (locks_release _ _ _ _ g).
  - intros j x request [[-> ->]|[_ Hj]]%insert_cases Hx; [|by eapply Htoken].
    destruct (next_request g c m r m' request Hsem Hx) as [Hr|]; [by eapply Htoken|done].
Qed.

Lemma connection_wp p :
  connection_task p → wp rules p (λ _ _, True) watch0.
Proof. intros []. wp_step. eapply wp_mono, handle_connection_wp. done. Qed.

Lemma serving_reachable (ps : supervisor_pool) m :
  rtc (pool_step supervisor_sem connection_task) ([], supervisor_memory0) (ps, m) →
  Forall (λ t, wp rules t.2 (λ _ _, True) (ghost rules watch0 t.1)) ps ∧
  serving_inv m ((ghost rules watch0 ∘ fst) <$> ps).
Proof.
  apply pool_invariant.
  - apply connection_wp.
  - intros s gs [Hl Ht]. split; [by apply locks_spawn|].
    intros i g request [?|(_ & Hg)]%lookup_app_Some Hr; [by eapply Ht|].
    apply list_lookup_singleton_Some in Hg as [_ <-]. done.
  - intros s gs i g c r s' Hinv Hi Ha Hsem. split; [done|]. by eapply serving_step.
  - split; [by split|done].
Qed.

(** Calls that change what Docker and the disk have. *)
Definition changes (c : SupervisorCall) : bool :=
  match c with
  | CreateNetwork _ | CreateContainer _ _ | StartContainer _ | RemoveContainer _ | RemoveNetwork _
  | RemoveImage _ | RemoveDirAll _ | ExecInput _ _ => true
  | _ => false
  end.

Lemma changes_locked g c :
  changes c = true → watch_allowed plugin_data installation_id gateway_config g c →
  ∃ p, w_lock g = Some p ∧ serving g lifecycle p.
Proof.
  assert (∀ p methods, methods ⊆ lifecycle → holding g methods p →
    ∃ p, w_lock g = Some p ∧ serving g lifecycle p) as Hlift.
  { intros p methods Hm Hh. exists p. by apply (holding_weaken _ _ lifecycle) in Hh as [? ?]. }
  destruct c; try done; intros _ Ha; simpl in Ha;
    repeat match goal with
    | H : ex _ |- _ => destruct H
    | H : _ ∧ _ |- _ => destruct H
    end; (eapply Hlift; [|eassumption]; unfold lifecycle; set_solver).
Qed.

(** C9. With any number of connections, interleaved in any way, and whatever Docker,
    the disk and the clients answer: every call a connection is about to make is
    allowed by the rules, so nothing happens without authentication, only what
    belongs to the plugin is removed, and what is created is confined; the
    request it serves carried the token of the supervisor; and two connections
    that are about to change something for the same plugin are the same. *)
Theorem supervisor_keeps_rules (ps : supervisor_pool) m :
  rtc (pool_step supervisor_sem connection_task) ([], supervisor_memory0) (ps, m) →
  (∀ i h c k, ps !! i = Some (h, Vis c k) →
     watch_allowed plugin_data installation_id gateway_config (ghost rules watch0 h) c) ∧
  (∀ i h p request, ps !! i = Some (h, p) → w_request (ghost rules watch0 h) = Some request →
     supervisor_request_token request = token) ∧
  ∀ i j h h' c c' k k', ps !! i = Some (h, Vis c k) → ps !! j = Some (h', Vis c' k') →
    changes c = true → changes c' = true →
    w_lock (ghost rules watch0 h) = w_lock (ghost rules watch0 h') → i = j.
Proof.
  intros Hrun. destruct (serving_reachable _ _ Hrun) as [Hps [Hlocks Htoken]].
  assert (∀ i h c k, ps !! i = Some (h, Vis c k) →
    watch_allowed plugin_data installation_id gateway_config (ghost rules watch0 h) c) as Hallowed.
  { intros i h c k Hi. by destruct (Forall_lookup_1 _ _ _ _ Hps Hi) as [Hc _]. }
  assert (∀ i h p, ps !! i = Some (h, p) →
    ((ghost rules watch0 ∘ fst) <$> ps) !! i = Some (ghost rules watch0 h)) as Hghost.
  { intros i h p Hi. rewrite list_lookup_fmap. by setoid_rewrite Hi. }
  split_and!; [done|intros i h p request Hi; by eapply Htoken, Hghost|].
  intros i j h h' c c' k k' Hi Hj Hc Hc' Heq.
  destruct (changes_locked _ _ Hc (Hallowed _ _ _ _ Hi)) as (p & Hp & _).
  eapply (lock_unique _ _ _ Hlocks); [by eapply Hghost|by eapply Hghost|done|by rewrite <- Heq].
Qed.
End tasks.
