(* ===== verification/PluginArchive.v ===== *)
(** * Repository archives (crates/audiodown-plugin-manager/src/archive.rs)

    A plugin repository arrives as a gzip-compressed tar archive from the
    network.  Its entries are unpacked below a temporary directory, which is
    renamed when every entry was accepted.  The archive is untrusted: entries may
    have any type and any path, headers may lie about sizes. *)

From S2P Require Import Prelude Text Std Stateful Fs PluginManager.

(** ** The tar and flate2 crates *)

Inductive EntryType := EntryRegular | EntryDirectory | EntryOther.
Definition EntryType_is_file (t : EntryType) : bool :=
  match t with EntryRegular => true | _ => false end.
Definition EntryType_is_dir (t : EntryType) : bool :=
  match t with EntryDirectory => true | _ => false end.

(** An entry: its header, and what reading it yields before the end or an error. *)
Record TarEntry := mkTarEntry {
  entry_type : EntryType;
  entry_path : option (list byte);
  entry_size : option Z;
  entry_content : list byte;
  entry_fails : bool;
}.

Class ArchiveLib := {
  (** [Archive::new(GzDecoder::new(file)).entries()] on the bytes of the file: a
      failure, or the entries with those that could not be read *)
  tar_entries : list byte → option (list (option TarEntry));
}.

(** ** Limits *)

Record SnapshotLimits := mkSnapshotLimits {
  max_compressed_bytes : Z;
  max_extracted_bytes : Z;
  max_file_bytes : Z;
  max_files : Z;
  max_plugins : Z;
}.

Definition SnapshotLimits_default : SnapshotLimits :=
  mkSnapshotLimits (16 * 1024 * 1024) (64 * 1024 * 1024) (4 * 1024 * 1024) 2048 32.

Record ExtractedSnapshot := mkExtractedSnapshot {
  repository_root : path;
  extracted_file_count : Z;
  extracted_byte_count : Z;
}.

(** ** Paths on disk *)

(** [base.join(relative)] as the system resolves it; there are no links. *)
Definition descend (base : path) (c : Component) : path :=
  match c with
  | RootDir => []
  | CurDir => base
  | ParentDir => removelast base
  | Normal name => base ++ [name]
  end.
Definition resolve (base : path) (relative : string) : path :=
  fold_left descend (components relative) base.

(** [iter().collect::<PathBuf>()] *)
Definition collect_path (names : list string) : string := fold_left path_join names "".

(** [Path::parent] of a relative path, as its components *)
Definition without_last (relative : string) : list Component := removelast (components relative).

(** ** System calls of this file *)

Definition archive_io {A} (m : act Disk IoError A) : act Disk PluginManagerError A :=
  map_errors (λ _, ArchiveIo) m.

(** [std::fs::metadata(path)?.len()]; the length of a directory is the system's. *)
Definition fs_metadata_len (p : path) : act Disk IoError Z :=
  syscall (λ fs,
    match fs !! p with
    | Some (File content) => Ok (zlen content, fs)
    | Some Dir => Ok (4096, fs)
    | None => Err IoNotFound
    end).

(** [File::open]: a directory can be opened but not read. *)
Definition fs_open (p : path) : act Disk IoError (option (list byte)) :=
  syscall (λ fs,
    match fs !! p with
    | Some (File content) => Ok (Some content, fs)
    | Some Dir => Ok (None, fs)
    | None => Err IoNotFound
    end).

(** A read from an open file. *)
Definition fs_read_more : act Disk IoError unit := syscall (λ fs, Ok (tt, fs)).

(** [std::fs::set_permissions]: permissions are not modelled. *)
Definition fs_set_permissions (p : path) : act Disk IoError unit :=
  syscall (λ fs, if is_some (fs !! p) then Ok (tt, fs) else Err IoNotFound).

(** [Path::is_dir]: an error counts as no. *)
Definition path_is_dir (p : path) (d : Disk) : bool * Disk :=
  match syscall (λ fs, Ok (is_dir fs p, fs)) d with
  | (Ok found, d) => (found, d)
  | (Err _, d) => (false, d)
  end.

(** [io::copy(&mut entry, &mut output)]: the bytes copied. *)
Definition copy_entry (entry : TarEntry) (output : path) : act Disk IoError Z :=
  fs_write_all output (entry_content entry);;
  if entry_fails entry then throw IoOther else mret (zlen (entry_content entry)).

(** ** The code *)

Section archive.
Context {L : ArchiveLib}.

Definition archive_set_directory_mode (p : path) : act Disk PluginManagerError unit :=
  archive_io (fs_set_permissions p).

Definition create_directory (p : path) : act Disk PluginManagerError unit :=
  archive_io (fs_create_dir p);;
  archive_set_directory_mode p.

Definition archive_secure_file (p : path) : act Disk PluginManagerError unit :=
  archive_io (fs_create_new p).

(** [match create_directory(&current)]: only an [ArchiveIo] is looked at again,
    which is the only error there is. *)
Definition ensure_component (current : path) : act Disk PluginManagerError unit := λ d,
  match create_directory current d with
  | (Ok _, d) => (Ok tt, d)
  | (Err error, d) =>
      match error with
      | ArchiveIo =>
          let '(there, d) := path_is_dir current d in
          if there then archive_set_directory_mode current d else (Err error, d)
      | _ => (Err error, d)
      end
  end.

Fixpoint ensure_components (current : path) (relative : list Component) :
    act Disk PluginManagerError unit :=
  match relative with
  | [] => mret tt
  | Normal component :: relative =>
      ensure_component (current ++ [component]);;
      ensure_components (current ++ [component]) relative
  | _ :: _ => throw ArchivePathEscape
  end.

Definition ensure_directory (root : path) (relative : list Component) :
    act Disk PluginManagerError unit :=
  ensure_components root relative.

Fixpoint normalize_components (l : list Component) : result PluginManagerError (list string) :=
  match l with
  | [] => Ok []
  | Normal value :: l => normalized ← normalize_components l; Ok (value :: normalized)
  | CurDir :: l => normalize_components l
  | ParentDir :: _ | RootDir :: _ => Err ArchivePathEscape
  end.

Definition normalize_path (p : list byte) : result PluginManagerError (list string) :=
  p ← ok_or (from_utf8 p) ArchiveNonUtf8Path;
  if str_contains p (chr 92) then Err ArchivePathEscape
  else
    normalized ← normalize_components (components p);
    match normalized with
    | [] => Err ArchivePathEscape
    | _ => Ok normalized
    end.

(** The variables of the loop. *)
Record Extraction := mkExtraction {
  common_root : option string;
  seen_paths : gset string;
  case_folded_paths : gset string;
  file_count : Z;
  extracted_bytes : Z;
}.

(** The new file at [relative] with the content of the entry. *)
Definition extract_file (temporary_root : path) (limits : SnapshotLimits) (entry : TarEntry)
    (relative : string) (x : Extraction) : act Disk PluginManagerError Extraction :=
  count ← pure (ok_or (checked_add (file_count x) 1) ArchiveTooManyFiles);
  if max_files limits <? count then throw ArchiveTooManyFiles
  else
    file_bytes ← pure (ok_or (entry_size entry) ArchiveInvalid);
    if max_file_bytes limits <? file_bytes then throw ArchiveFileTooLarge
    else
      total ← pure (ok_or (checked_add (extracted_bytes x) file_bytes) ArchiveExtractedTooLarge);
      if max_extracted_bytes limits <? total then throw ArchiveExtractedTooLarge
      else
        ensure_directory temporary_root (without_last relative);;
        let output_path := resolve temporary_root relative in
        archive_secure_file output_path;;
        copied ← archive_io (copy_entry entry output_path);
        if negb (copied =? file_bytes) then throw ArchiveInvalid
        else
          archive_io (fs_sync output_path);;
          mret (mkExtraction (common_root x) (seen_paths x) (case_folded_paths x) count total).

(** [if !set.insert(value) { return Err(error) }] *)
Definition insert_new (error : PluginManagerError) (value : string) (set : gset string) :
    result PluginManagerError (gset string) :=
  if decide (value ∈ set) then Err error else Ok ({[value]} ∪ set).

Definition same_root (expected : option string) (root : string) : bool :=
  match expected with Some expected => eqb expected root | None => true end.

(** The body of the loop once the path of the entry is known. *)
Definition extract_named (temporary_root : path) (limits : SnapshotLimits) (entry : TarEntry)
    (x : Extraction) (components : list string) : act Disk PluginManagerError Extraction :=
  match components with
  | [] => throw ArchivePathEscape
  | root :: components =>
      if negb (same_root (common_root x) root) then throw ArchiveMultipleRoots
      else
        let relative := collect_path components in
        if str_is_empty relative then
          if EntryType_is_dir (entry_type entry)
          then mret (mkExtraction (Some root) (seen_paths x) (case_folded_paths x)
                       (file_count x) (extracted_bytes x))
          else throw ArchivePathEscape
        else
          seen ← pure (insert_new ArchiveDuplicatePath relative (seen_paths x));
          folded ← pure (insert_new ArchiveCaseConflict (to_ascii_lowercase relative)
                           (case_folded_paths x));
          let x := mkExtraction (Some root) seen folded (file_count x) (extracted_bytes x) in
          if EntryType_is_dir (entry_type entry) then
            ensure_directory temporary_root (Std.components relative);;
            mret x
          else extract_file temporary_root limits entry relative x
  end.

Definition extract_entry (temporary_root : path) (limits : SnapshotLimits) (entry : option TarEntry)
    (x : Extraction) : act Disk PluginManagerError Extraction :=
  map_errors (λ _, ArchiveInvalid) fs_read_more;;
  entry ← pure (ok_or entry ArchiveInvalid);
  if negb (EntryType_is_file (entry_type entry)) && negb (EntryType_is_dir (entry_type entry))
  then throw ArchiveUnsupportedEntry
  else
    entry_path ← pure (ok_or (entry_path entry) ArchiveInvalid);
    components ← pure (normalize_path entry_path);
    extract_named temporary_root limits entry x components.

Fixpoint extract_loop (temporary_root : path) (limits : SnapshotLimits)
    (entries : list (option TarEntry)) (x : Extraction) : act Disk PluginManagerError Extraction :=
  match entries with
  | [] => mret x
  | entry :: entries =>
      x ← extract_entry temporary_root limits entry x;
      extract_loop temporary_root limits entries x
  end.

(** The iterator over an archive that cannot be read yields an error. *)
Definition archive_entries (content : option (list byte)) :
    result PluginManagerError (list (option TarEntry)) :=
  match content with
  | Some content => ok_or (tar_entries content) ArchiveInvalid
  | None => Ok [None]
  end.

Definition extract_entries (archive_path temporary_root : path) (limits : SnapshotLimits) :
    act Disk PluginManagerError (Z * Z) :=
  content ← archive_io (fs_open archive_path);
  entries ← pure (archive_entries content);
  x ← extract_loop temporary_root limits entries (mkExtraction None ∅ ∅ 0 0);
  if negb (is_some (common_root x)) then throw ArchiveInvalid
  else mret (file_count x, extracted_bytes x).

(** The directories before the archive is read. *)
Definition prepare_directories (destination : path) : act Disk PluginManagerError unit :=
  archive_io (fs_create_dir_all destination);;
  let temporary_root := destination ++ ["repository.tmp"] in
  let repository_root := destination ++ ["repository"] in
  leftover ← query (path_exists temporary_root);
  (if leftover : bool then archive_io (fs_remove_dir_all temporary_root) else mret tt);;
  present ← query (path_exists repository_root);
  if present : bool then throw ArchiveIo
  else create_directory temporary_root.

(** [extract_snapshot] runs this on a thread of its own. *)
Definition extract_snapshot_blocking (archive_path destination : path) (limits : SnapshotLimits) :
    act Disk PluginManagerError ExtractedSnapshot :=
  compressed_bytes ← archive_io (fs_metadata_len archive_path);
  if max_compressed_bytes limits <? compressed_bytes then throw ArchiveCompressedTooLarge
  else
    prepare_directories destination;;
    let temporary_root := destination ++ ["repository.tmp"] in
    let repository_root := destination ++ ["repository"] in
    on_error
      (counts ← extract_entries archive_path temporary_root limits;
       archive_io (fs_rename temporary_root repository_root);;
       mret (mkExtractedSnapshot repository_root counts.1 counts.2))
      (fs_remove_dir_all temporary_root).
End archive.

(** ** Names of entries *)

(** A name that stays one component. *)
Definition plain (name : string) : Prop :=
  name ≠ "" ∧ name ≠ "." ∧ name ≠ ".." ∧ "/"%char ∉ bytes name.

Lemma segment_component_plain segment name :
  "/"%char ∉ bytes segment → segment_component segment = Some (Normal name) → plain name.
Proof.
  unfold segment_component. intros Hfree H. destruct (str_is_empty segment) eqn:E; [done|].
  apply str_is_empty_false in E. simpl in H. destruct (eqb segment ".") eqn:E1; [done|].
  destruct (eqb segment "..") eqn:E2; [done|]. injection H as <-. bool_prop. done.
Qed.

Lemma plain_segment name : plain name → segment_component name = Some (Normal name).
Proof.
  intros (H1 & H2 & H3 & _). unfold segment_component.
  rewrite (proj2 (str_is_empty_false name)) by done. simpl.
  unfold eqb. by rewrite !bool_decide_eq_false_2.
Qed.

Lemma components_plain p name : Normal name ∈ components p → plain name.
Proof.
  unfold components. intros [H|H]%elem_of_app.
  - repeat case_match; set_solver.
  - apply list_elem_of_omap in H as (segment & Hin & H). unfold split in Hin.
    apply list_elem_of_fmap in Hin as (w & -> & Hw).
    eapply segment_component_plain; [|exact H]. rewrite bytes_str.
    pose proof (split_bytes_free "/"%char (bytes p)) as Hf. rewrite Forall_forall in Hf. by apply Hf.
Qed.

Lemma normalize_components_plain l names :
  (∀ name, Normal name ∈ l → plain name) → normalize_components l = Ok names → Forall plain names.
Proof.
  revert names. induction l as [|c l IH]; intros names Hl H; simpl in H; [by injection H as <-|].
  destruct c as [| | |name]; try done; [apply IH; [set_solver|done]|].
  destruct (normalize_components l) as [names'|]; [|done]. injection H as <-.
  constructor; [apply Hl; set_solver|]. apply IH; [set_solver|done].
Qed.

Lemma normalize_path_plain p names : normalize_path p = Ok names → Forall plain names ∧ names ≠ [].
Proof.
  unfold normalize_path. intros H. repeat result_step.
  split; [|done]. eapply normalize_components_plain; [|done]. intros ?. apply components_plain.
Qed.

Lemma join_bytes_snoc c ws w : ws ≠ [] → join_bytes c (ws ++ [w]) = join_bytes c ws ++ c :: w.
Proof.
  induction ws as [|w1 [|w2 ws] IH]; intros Hne; [done|done|].
  change (join_bytes c ((w1 :: w2 :: ws) ++ [w])) with (w1 ++ c :: join_bytes c ((w2 :: ws) ++ [w])).
  rewrite IH by done. simpl. by rewrite <- app_assoc.
Qed.

Lemma join_bytes_snoc_last c ws w : w ≠ [] → last (join_bytes c (ws ++ [w])) = last w.
Proof.
  intros Hw. destruct (decide (ws = [])) as [->|Hne]; [done|]. rewrite join_bytes_snoc by done.
  destruct w as [|x w]; [done|]. rewrite last_app.
  change (last (c :: x :: w)) with (last (x :: w)).
  destruct (last (x :: w)) as [y|] eqn:E; [done|]. by apply last_None in E.
Qed.

(** The path of plain names. *)
Lemma collect_path_join names :
  Forall plain names → collect_path names = str (join_bytes "/"%char (bytes <$> names)).
Proof.
  induction names as [|name names IH] using rev_ind; intros H; [done|].
  apply Forall_app in H as [Hn Hx]. apply Forall_singleton in Hx as (Hx1 & _ & _ & Hx4).
  unfold collect_path in *. rewrite fold_left_app. simpl. rewrite IH, fmap_app by done.
  unfold path_join. destruct (is_absolute name) eqn:Ea.
  { apply starts_with_true in Ea as [k ->]. destruct Hx4. rewrite bytes_app. set_solver. }
  destruct (decide (names = [])) as [->|Hne]; [simpl; by rewrite str_bytes|].
  cbn [fmap list_fmap]. rewrite join_bytes_snoc by (by destruct names).
  destruct names as [|y ys _] using rev_ind; [done|]. apply Forall_app in Hn as [_ Hy].
  apply Forall_singleton in Hy as (Hy1 & _ & _ & Hy4). rewrite fmap_app. cbn [fmap list_fmap].
  set (s := join_bytes _ _).
  assert (last s = last (bytes y)) as Hs.
  { apply join_bytes_snoc_last. intros E. apply (f_equal str) in E. rewrite str_bytes in E. done. }
  assert (∃ c, last (bytes y) = Some c ∧ c ≠ "/"%char) as (c & Hc & Hc').
  { destruct (last (bytes y)) as [c|] eqn:E.
    - exists c. split; [done|]. intros ->. apply Hy4. by apply last_Some_elem_of.
    - apply last_None in E. apply (f_equal str) in E. rewrite str_bytes in E. done. }
  assert (str_is_empty (str s) = false) as ->.
  { apply str_is_empty_false. intros E. apply (f_equal bytes) in E. rewrite bytes_str in E.
    rewrite E in Hs. by rewrite <- Hs in Hc. }
  destruct (ends_with (str s) "/") eqn:Ee; simpl.
  { apply ends_with_true in Ee as [k Hk]. apply (f_equal bytes) in Hk. rewrite bytes_str, bytes_app in Hk.
    rewrite Hk, last_app in Hs. simpl in Hs. congruence. }
  rewrite <- (str_bytes (_ +:+ _)). by rewrite !bytes_app, bytes_str.
Qed.

Lemma components_collect names :
  Forall plain names → components (collect_path names) = Normal <$> names.
Proof.
  intros H. rewrite collect_path_join by done. destruct names as [|name names]; [done|].
  assert (split "/"%char (str (join_bytes "/"%char (bytes <$> name :: names))) = name :: names) as Hs.
  { unfold split. rewrite bytes_str, split_join_bytes; [|done|].
    - rewrite <- list_fmap_compose. rewrite <- (list_fmap_id (name :: names)) at 2.
      apply list_fmap_ext. intros _ x _. apply str_bytes.
    - apply Forall_fmap. eapply Forall_impl; [exact H|]. by intros x (_ & _ & _ & ?). }
  unfold components. rewrite Hs.
  apply Forall_cons in H as [Hn H]. pose proof Hn as (H1 & H2 & H3 & H4).
  assert (is_absolute (str (join_bytes "/"%char (bytes <$> name :: names))) = false) as ->.
  { destruct (is_absolute _) eqn:Ea; [|done]. apply starts_with_true in Ea as [k Hk].
    apply (f_equal bytes) in Hk. rewrite bytes_str, bytes_app in Hk. simpl in Hk.
    destruct (bytes name) as [|x w] eqn:Eb.
    - apply (f_equal str) in Eb. by rewrite str_bytes in Eb.
    - destruct names; simplify_eq/=; set_solver. }
  simpl. unfold eqb. rewrite bool_decide_eq_false_2 by congruence. simpl.
  rewrite plain_segment by done. f_equal. clear -H.
  induction H as [|x l Hx _ IH]; [done|]. simpl. rewrite plain_segment by done. by rewrite IH.
Qed.

Lemma descend_plain base names : fold_left descend (Normal <$> names) base = base ++ names.
Proof.
  revert base. induction names as [|x names IH]; intros base; simpl; [by rewrite app_nil_r|].
  by rewrite IH, <- app_assoc.
Qed.

Lemma resolve_collect base names : Forall plain names → resolve base (collect_path names) = base ++ names.
Proof. intros H. unfold resolve. by rewrite components_collect, descend_plain. Qed.

Lemma collect_path_empty names : Forall plain names → str_is_empty (collect_path names) = true ↔ names = [].
Proof.
  intros H. rewrite str_is_empty_true. split; [|by intros ->]. intros E.
  pose proof (components_collect names H) as Hc. rewrite E in Hc. by destruct names.
Qed.

Lemma collect_path_inj names names' :
  Forall plain names → Forall plain names' → collect_path names = collect_path names' → names = names'.
Proof.
  intros H H' E. apply (f_equal components) in E. rewrite !components_collect in E by done.
  clear H H'. revert names' E. induction names as [|x names IH]; intros [|x' names'] E; simplify_eq/=; [done|].
  f_equal. by apply IH.
Qed.

(** ** Where the extraction writes *)

Section confined.
Context {L : ArchiveLib}.

(** At [root] or below it. *)
Definition within (root k : path) : Prop := ∃ r, k = root ++ r.

Lemma within_app root r : within root (root ++ r).
Proof. by exists r. Qed.
Lemma within_trans a b k : within a b → within b k → within a k.
Proof. intros [r ->] [r' ->]. exists (r ++ r'). by rewrite app_assoc. Qed.

Lemma fs_set_permissions_changes T p : moves (changes_only T) (fs_set_permissions p).
Proof. apply syscall_reads. intros fs a fs'. destruct (is_some _); naive_solver. Qed.
Lemma fs_metadata_len_changes T p : moves (changes_only T) (fs_metadata_len p).
Proof. apply syscall_reads. intros fs a fs'. destruct (fs !! p) as [[]|]; naive_solver. Qed.
Lemma fs_open_changes T p : moves (changes_only T) (fs_open p).
Proof. apply syscall_reads. intros fs a fs'. destruct (fs !! p) as [[]|]; naive_solver. Qed.
Lemma fs_read_more_changes T : moves (changes_only T) fs_read_more.
Proof. apply syscall_reads. naive_solver. Qed.
Lemma path_is_dir_changes T p d : changes_only T d (path_is_dir p d).2.
Proof.
  unfold path_is_dir. assert (moves (changes_only T) (syscall (λ fs, Ok (is_dir fs p, fs)))) as Hm
    by (apply syscall_reads; naive_solver).
  specialize (Hm d). by destruct (syscall _ d) as [[]].
Qed.

Lemma copy_entry_changes (T : path → Prop) entry p : T p → moves (changes_only T) (copy_entry entry p).
Proof. intros HT. unfold copy_entry. moves. by apply fs_write_all_changes. Qed.

(** A relation that making a directory below [root] and looking at one keep. *)
Section ensure.
Context (R : relation Disk) `{!PreOrder R}.
Context (root : path).
Context (Hmode : ∀ p, moves R (fs_set_permissions p)).
Context (Hlook : ∀ p d, R d (path_is_dir p d).2).

Lemma create_directory_moves p : moves R (fs_create_dir p) → moves R (create_directory p).
Proof. intros Hc. unfold create_directory, archive_set_directory_mode, archive_io. moves; [done|apply Hmode]. Qed.

Lemma ensure_component_moves p : moves R (fs_create_dir p) → moves R (ensure_component p).
Proof.
  intros HT d. unfold ensure_component. pose proof (create_directory_moves p HT d) as Hc.
  destruct (create_directory p d) as [[[]|e] d1]; [done|]. simpl in Hc. destruct e; try done.
  pose proof (Hlook p d1) as Hd. destruct (path_is_dir p d1) as [[] d2]; simpl in Hd.
  - etrans; [exact Hc|]. etrans; [exact Hd|]. by apply (moves_map_errors R).
  - by etrans.
Qed.

Lemma ensure_directory_moves relative :
  (∀ r, moves R (fs_create_dir (root ++ r))) → moves R (ensure_directory root relative).
Proof.
  unfold ensure_directory. generalize root as current.
  induction relative as [|c relative IH]; intros current Hr; cbn [ensure_components]; [moves|].
  destruct c as [| | |name]; moves; [by apply ensure_component_moves|].
  apply IH. intros r. rewrite <- app_assoc. apply Hr.
Qed.
End ensure.

Lemma ensure_directory_changes root relative :
  moves (changes_only (within root)) (ensure_directory root relative).
Proof.
  apply ensure_directory_moves; [apply _|apply fs_set_permissions_changes|apply path_is_dir_changes|].
  intros r. apply fs_create_dir_changes, within_app.
Qed.

Lemma extract_file_changes root limits entry names x :
  Forall plain names →
  moves (changes_only (within root)) (extract_file root limits entry (collect_path names) x).
Proof.
  intros Hn. unfold extract_file, archive_secure_file, archive_io. rewrite resolve_collect by done. moves.
  - apply ensure_directory_changes.
  - apply fs_create_new_changes, within_app.
  - apply copy_entry_changes, within_app.
  - apply fs_sync_changes.
Qed.

Lemma moves_bind_pure {S E A B} (R : relation S) `{!PreOrder R} (r : result E A) (f : A → act S E B) :
  (∀ a, r = Ok a → moves R (f a)) → moves R (pure r ≫= f).
Proof. intros Hf s. unfold mbind, act_bind, pure. destruct r as [a|e]; [by apply Hf|done]. Qed.

Lemma extract_named_changes root limits entry x names :
  Forall plain names → moves (changes_only (within root)) (extract_named root limits entry x names).
Proof.
  intros Hn. unfold extract_named. destruct names as [|top names]; [moves|].
  apply Forall_cons in Hn as [_ Hn]. destruct (negb _); [moves|]. cbn zeta.
  destruct (str_is_empty _); [moves|]. moves; [apply ensure_directory_changes|].
  by apply extract_file_changes.
Qed.

Lemma extract_entry_changes root limits entry x :
  moves (changes_only (within root)) (extract_entry root limits entry x).
Proof.
  unfold extract_entry. apply moves_bind; [apply _|apply moves_map_errors, fs_read_more_changes|intros []].
  apply moves_bind; [apply _|moves|intros e]. destruct (_ && _); [moves|].
  apply moves_bind; [apply _|moves|intros p]. apply moves_bind_pure; [apply _|].
  intros names [Hn _]%normalize_path_plain. by apply extract_named_changes.
Qed.

Lemma extract_entries_changes archive_path root limits :
  moves (changes_only (within root)) (extract_entries archive_path root limits).
Proof.
  unfold extract_entries, archive_io.
  assert (∀ entries x, moves (changes_only (within root)) (extract_loop root limits entries x)) as Hloop.
  { intros entries. induction entries as [|entry entries IH]; intros x; cbn [extract_loop]; [moves|].
    moves; [apply extract_entry_changes|apply IH]. }
  moves; [apply fs_open_changes|apply Hloop].
Qed.

(** The directories above a path, and the path. *)
Definition above (p k : path) : Prop := ∃ r, p = k ++ r.

Lemma prepare_directories_changes destination :
  moves (changes_only (λ k, within (destination ++ ["repository.tmp"]) k ∨ above destination k))
    (prepare_directories destination).
Proof.
  unfold prepare_directories, archive_io. moves.
  - apply fs_create_dir_all_changes. intros k r ->. right. by exists r.
  - apply moves_query. intros d. apply path_exists_changes.
  - apply fs_remove_dir_all_changes. intros r. left. by exists r.
  - apply moves_query. intros d. apply path_exists_changes.
  - apply create_directory_moves; [apply _|apply fs_set_permissions_changes|].
    apply fs_create_dir_changes. left. exists []. by rewrite app_nil_r.
Qed.

(** C22. Whatever the archive holds and however it ends, extracting it only touches
    what lies below [destination] and makes the directories above it. *)
Theorem extract_confined archive_path destination limits :
  moves (changes_only (λ k, within destination k ∨ above destination k))
    (extract_snapshot_blocking archive_path destination limits).
Proof.
  set (T := λ k, _). assert (∀ name r, T ((destination ++ [name]) ++ r)) as Hin.
  { intros name r. left. exists (name :: r). by rewrite <- app_assoc. }
  assert (∀ name, T (destination ++ [name])) as Hat by (intros name; left; apply within_app).
  unfold extract_snapshot_blocking, archive_io. moves.
  - apply fs_metadata_len_changes.
  - eapply changes_only_mono; [|apply prepare_directories_changes]. intros k [[r ->]|Hk]; [apply Hin|by right].
  - apply on_error_moves; [apply _| |by apply fs_remove_dir_all_changes]. moves.
    + eapply changes_only_mono; [|apply extract_entries_changes]. intros k [r ->]. apply Hin.
    + by apply fs_rename_changes.
Qed.
End confined.

(** ** What a successful extraction has written *)

(** The file an entry stands for: its path below the common root and its content. *)
Definition entry_file (entry : option TarEntry) : option (path * list byte) :=
  match entry with
  | Some entry =>
      if EntryType_is_file (entry_type entry) then
        match entry_path entry with
        | Some p =>
            match normalize_path p with
            | Ok (_ :: names) => Some (names, entry_content entry)
            | _ => None
            end
        | None => None
        end
      else None
  | None => None
  end.
Definition archive_files (entries : list (option TarEntry)) : list (path * list byte) :=
  omap entry_file entries.

Definition folded_name (file : path * list byte) : string := to_ascii_lowercase (collect_path file.1).
Definition total_bytes (files : list (path * list byte)) : Z :=
  foldr (λ file total, zlen file.2 + total) 0 files.

(** The regular files below [root]. *)
Definition holds_files (root : path) (fs : Fs) (files : list (path * list byte)) : Prop :=
  ∀ r content, fs !! (root ++ r) = Some (File content) ↔ (r, content) ∈ files.

(** The extracted files respect the limits, and no two of them have names that
    differ in case only. *)
Record within_limits (limits : SnapshotLimits) (files : list (path * list byte)) : Prop := {
  limits_count : zlen files ≤ max_files limits;
  limits_total : total_bytes files ≤ max_extracted_bytes limits;
  limits_each : Forall (λ file, zlen file.2 ≤ max_file_bytes limits) files;
  limits_names : NoDup (folded_name <$> files);
  limits_plain : Forall (λ file, Forall plain file.1) files;
}.

Section extracted.
Context {L : ArchiveLib}.

Definition same_files : relation Disk := λ d d',
  ∀ k content, disk_fs d' !! k = Some (File content) ↔ disk_fs d !! k = Some (File content).
Local Instance same_files_preorder : PreOrder same_files.
Proof. split; [done|]. intros a b c Hab Hbc k content. rewrite (Hbc k content). apply Hab. Qed.

Lemma changes_none_same d d' : changes_only (λ _, False) d d' → same_files d d'.
Proof. intros H k content. by destruct (H k) as [->|]. Qed.

Lemma ensure_directory_files root relative : moves same_files (ensure_directory root relative).
Proof.
  apply ensure_directory_moves; [apply _|..].
  - intros p d. apply changes_none_same, fs_set_permissions_changes.
  - intros p d. apply changes_none_same, path_is_dir_changes.
  - intros r d k content. unfold fs_create_dir, syscall. pose proof (disk_next_fault_fs d) as Hd.
    destruct (disk_next_fault d) as [[] d1]; simpl in Hd |- *; rewrite <- Hd; [done|].
    destruct (disk_fs d1 !! (root ++ r)) eqn:E; [done|]. simpl. destruct (negb _); [done|]. simpl.
    destruct (decide (k = root ++ r)) as [->|]; [by rewrite lookup_insert_eq, E|].
    by rewrite lookup_insert_ne.
Qed.

(** The invariant of the loop. *)
Record extracting (root : path) (limits : SnapshotLimits) (files : list (path * list byte))
    (x : Extraction) (fs : Fs) : Prop := {
  extracting_files : holds_files root fs files;
  extracting_count : file_count x = zlen files;
  extracting_total : extracted_bytes x = total_bytes files;
  extracting_folded : ∀ file, file ∈ files → folded_name file ∈ case_folded_paths x;
  extracting_limits : within_limits limits files;
}.

Lemma total_bytes_snoc files file : total_bytes (files ++ [file]) = total_bytes files + zlen file.2.
Proof. induction files as [|f files IH]; simpl; [lia|]. rewrite IH. lia. Qed.

Lemma insert_new_Ok error value set set' :
  insert_new error value set = Ok set' → (value ∉ set) ∧ set' = ({[value]} ∪ set).
Proof. unfold insert_new. destruct (decide _); naive_solver. Qed.

(** What [extract_file] leaves. *)
Lemma extract_file_Ok root limits entry names x d x' d' :
  Forall plain names → extract_file root limits entry (collect_path names) x d = (Ok x', d') →
  (∀ content, disk_fs d !! (root ++ names) ≠ Some (File content)) ∧
  (∀ k content, disk_fs d' !! k = Some (File content) ↔
    ((k = root ++ names ∧ content = entry_content entry) ∨
     k ≠ root ++ names ∧ disk_fs d !! k = Some (File content))) ∧
  file_count x + 1 ≤ max_files limits ∧ zlen (entry_content entry) ≤ max_file_bytes limits ∧
  extracted_bytes x + zlen (entry_content entry) ≤ max_extracted_bytes limits ∧
  x' = mkExtraction (common_root x) (seen_paths x) (case_folded_paths x) (file_count x + 1)
         (extracted_bytes x + zlen (entry_content entry)).
Proof.
  intros Hn H. unfold extract_file, archive_secure_file, archive_io in H. rewrite resolve_collect in H by done.
  act_steps.
  repeat match goal with Hc : checked_add _ _ = Some _ |- _ => apply checked_add_Some in Hc as [Hc _] end.
  rename select (ensure_directory _ _ _ = _) into He. rename select (fs_create_new _ _ = _) into Hnew.
  rename select (copy_entry _ _ _ = _) into Hcopy. rename select (fs_sync _ _ = _) into Hsync.
  apply (moves_run same_files) in He; [|apply ensure_directory_files].
  apply fs_create_new_Ok in Hnew as [Hnone Hnew]. apply fs_sync_Ok in Hsync.
  unfold copy_entry in Hcopy. act_steps.
  match goal with Hw : fs_write_all _ _ _ = _ |- _ => apply fs_write_all_Ok in Hw; rename Hw into Hwrite end.
  bool_prop. subst.
  split_and!; try lia; try done.
  - intros content Hf%He. congruence.
  - intros k content. rewrite Hsync, Hwrite, Hnew. destruct (decide (k = root ++ names)) as [->|Hk].
    + rewrite lookup_insert_eq. naive_solver.
    + rewrite !lookup_insert_ne by done. rewrite (He k content). naive_solver.
Qed.

(** One more file. *)
Lemma extracting_snoc root limits files x top names content seen fs fs' :
  Forall plain names → extracting root limits files x fs →
  to_ascii_lowercase (collect_path names) ∉ case_folded_paths x →
  (∀ content, fs !! (root ++ names) ≠ Some (File content)) →
  (∀ k c, fs' !! k = Some (File c) ↔
    ((k = root ++ names ∧ c = content) ∨ (k ≠ root ++ names ∧ fs !! k = Some (File c)))) →
  file_count x + 1 ≤ max_files limits → zlen content ≤ max_file_bytes limits →
  extracted_bytes x + zlen content ≤ max_extracted_bytes limits →
  extracting root limits (files ++ [(names, content)])
    (mkExtraction top seen ({[to_ascii_lowercase (collect_path names)]} ∪ case_folded_paths x)
       (file_count x + 1) (extracted_bytes x + zlen content)) fs'.
Proof.
  intros Hn [Hf Hc Ht Hfold Hl] Hfresh Hnew Hfs Hmax Heach Htotal.
  assert (zlen (files ++ [(names, content)]) = zlen files + 1) as Hlen
    by (unfold zlen; rewrite length_app; simpl; lia).
  split; simpl; try (rewrite ?total_bytes_snoc; simpl; lia).
  - intros r c. rewrite Hfs, (Hf r c), elem_of_app, list_elem_of_singleton. split.
    + intros [[->%(inj (app root)) ->]|[_ ?]]; [by right|by left].
    + intros [Hin|[= -> ->]]; [right|by left]. split; [|done]. intros ->%(inj (app root)).
      by apply Hf, Hnew in Hin.
  - intros file [Hin| ->%list_elem_of_singleton]%elem_of_app; set_solver.
  - destruct Hl as [H1 H2 H3 H4 H5]. split; rewrite ?total_bytes_snoc; simpl; try lia.
    + apply Forall_app. by rewrite Forall_singleton.
    + rewrite fmap_app. apply NoDup_app. split; [done|]. split; [|apply NoDup_singleton].
      intros name (file & -> & Hin)%list_elem_of_fmap E%list_elem_of_singleton.
      apply Hfresh. apply Hfold in Hin. by rewrite E in Hin.
    + apply Forall_app. by rewrite Forall_singleton.
Qed.

Lemma extract_named_Ok root limits entry names x d x' d' files p :
  entry_path entry = Some p → normalize_path p = Ok names →
  (EntryType_is_file (entry_type entry) || EntryType_is_dir (entry_type entry) = true) →
  extracting root limits files x (disk_fs d) →
  extract_named root limits entry x names d = (Ok x', d') →
  extracting root limits (files ++ option_list (entry_file (Some entry))) x' (disk_fs d').
Proof.
  intros Hpath Hnorm Htype Hx H. unfold extract_named, entry_file in *. rewrite Hpath, Hnorm.
  apply normalize_path_plain in Hnorm as [Hn _]. destruct names as [|top names]; [done|].
  apply Forall_cons in Hn as [_ Hn]. cbn zeta in H.
  destruct (negb _); [done|]. destruct Hx as [Hf Hc Ht Hfold Hl].
  destruct (str_is_empty (collect_path names)) eqn:Eempty.
  { destruct (entry_type entry); simpl in *; try done. act_steps. rewrite app_nil_r. by split. }
  act_steps. repeat match goal with Hi : insert_new _ _ _ = _ |- _ => apply insert_new_Ok in Hi as [? ->] end.
  destruct (entry_type entry); [|simpl in *|done]; simpl in H.
  - apply extract_file_Ok in H as (Hnew & Hfiles & Hmax & Heach & Htotal & ->); [|done].
    eapply (extracting_snoc _ _ _ x); eauto. by split.
  - act_steps. rename select (ensure_directory _ _ _ = _) into He. rewrite app_nil_r.
    apply (moves_run same_files) in He; [|apply ensure_directory_files].
    split; simpl; try done; [|set_solver]. intros r content. by rewrite (He _ content).
Qed.

Lemma extract_entry_Ok root limits entry x d x' d' files :
  extracting root limits files x (disk_fs d) →
  extract_entry root limits entry x d = (Ok x', d') →
  extracting root limits (files ++ option_list (entry_file entry)) x' (disk_fs d').
Proof.
  intros Hx H. unfold extract_entry in H. act_steps.
  rename select (fs_read_more _ = _) into Hr. apply syscall_Ok in Hr. injection Hr as Hr.
  eapply extract_named_Ok; [done..| | |done]; [|by rewrite <- Hr].
  by destruct (entry_type _).
Qed.

Lemma extract_loop_Ok root limits entries x d x' d' files :
  extracting root limits files x (disk_fs d) →
  extract_loop root limits entries x d = (Ok x', d') →
  extracting root limits (files ++ archive_files entries) x' (disk_fs d').
Proof.
  revert x d files. induction entries as [|entry entries IH]; intros x d files Hx H; cbn [extract_loop] in H.
  - act_steps. by rewrite app_nil_r.
  - act_steps. rename select (extract_entry _ _ _ _ _ = _) into He.
    eapply extract_entry_Ok in He; [|exact Hx]. eapply IH in H; [|exact He].
    unfold archive_files in *. simpl. destruct (entry_file entry); simpl in H.
    + by rewrite <- app_assoc in H.
    + by rewrite app_nil_r in H.
Qed.

Lemma extract_entries_Ok archive_path root limits d n total d' :
  0 ≤ max_files limits → 0 ≤ max_extracted_bytes limits → holds_files root (disk_fs d) [] →
  extract_entries archive_path root limits d = (Ok (n, total), d') →
  ∃ content entries, disk_fs d !! archive_path = Some (File content) ∧
    tar_entries content = Some entries ∧ n = zlen (archive_files entries) ∧
    total = total_bytes (archive_files entries) ∧ within_limits limits (archive_files entries) ∧
    holds_files root (disk_fs d') (archive_files entries).
Proof.
  intros Hmax Htot Hroot H. unfold extract_entries, archive_io in H. act_steps.
  rename select (fs_open _ _ = _) into Ho. rename select (extract_loop _ _ _ _ _ = _) into Hloop.
  apply syscall_Ok in Ho. destruct (disk_fs d !! archive_path) as [[content|]|] eqn:E; simplify_eq.
  - rename select (archive_entries _ = _) into Ha. simpl in Ha. apply ok_or_Ok in Ha.
    eapply (extract_loop_Ok _ _ _ _ _ _ _ []) in Hloop as [Hf Hc Ht _ Hl].
    + exists content. eexists. split; [done|]. split; [exact Ha|]. done.
    + rewrite <- H. split; simpl; try done; [set_solver|].
      split; simpl; try done. by apply NoDup_nil.
  - rename select (archive_entries _ = _) into Ha. simpl in Ha. injection Ha as <-.
    exfalso. cbn [extract_loop] in Hloop. unfold extract_entry in Hloop. act_steps.
Qed.

(** Removing a tree that succeeds leaves nothing of it. *)
Lemma deletes_Ok (l : list path) d d' :
  (act_each (λ k, syscall (λ fs, Ok (tt, delete k fs))) l : act Disk IoError unit) d = (Ok tt, d') →
  ∀ k, disk_fs d' !! k = if decide (k ∈ l) then None else disk_fs d !! k.
Proof.
  revert d. induction l as [|x l IH]; intros d H k; cbn [act_each] in H.
  - apply act_ret_Ok in H as [_ ->]. destruct (decide _) as [?%elem_of_nil|]; done.
  - apply act_bind_Ok in H as ([] & d1 & Hs & H). apply syscall_Ok in Hs. injection Hs as Hs.
    rewrite (IH _ H k), <- Hs. destruct (decide (k ∈ l)) as [Hin|Hin].
    + rewrite decide_True by set_solver. done.
    + destruct (decide (k = x)) as [->|Hne]; [rewrite lookup_delete_eq, decide_True by set_solver; done|].
      rewrite lookup_delete_ne by done. rewrite decide_False by set_solver. done.
Qed.

Lemma fs_remove_dir_all_Ok p d d' :
  fs_remove_dir_all p d = (Ok tt, d') → ∀ r, disk_fs d' !! (p ++ r) = None.
Proof.
  unfold fs_remove_dir_all. intros H r. act_steps. rename select (syscall _ _ = _) into Hs.
  apply syscall_Ok in Hs. destruct (disk_fs d !! p) as [[]|]; simplify_eq.
  rewrite (deletes_Ok _ _ _ H). destruct (decide _) as [|Hin]; [done|].
  apply eq_None_not_Some. intros [v Hv]. apply Hin. apply list_elem_of_fmap.
  exists (p ++ r, v). split; [done|]. apply elem_of_sort_by, list_elem_of_In, List.filter_In.
  split; [apply list_elem_of_In, elem_of_map_to_list; congruence|]. simpl. by rewrite below_app.
Qed.

(** [create_dir_all] keeps what exists. *)
Lemma fs_create_dir_all_keeps p d k v :
  disk_fs d !! k = Some v → disk_fs (fs_create_dir_all p d).2 !! k = Some v.
Proof.
  set (R := λ d d', disk_fs d !! k = Some v → disk_fs d' !! k = Some v).
  assert (PreOrder R) as HR by (split; [by intros ? ?|intros a b c Hab Hbc ?; by apply Hbc, Hab]).
  revert d. change (moves R (fs_create_dir_all p)). unfold fs_create_dir_all. moves.
  intros d Hk. unfold ensure_dir, syscall. pose proof (disk_next_fault_fs d) as Hd.
  destruct (disk_next_fault d) as [[] d1]; simpl in Hd |- *; rewrite <- Hd in Hk; [done|].
  destruct (disk_fs d1 !! a) as [[]|] eqn:E; [done..|]. simpl. rewrite lookup_insert_ne; [done|congruence].
Qed.

Lemma above_not_below p x r : ¬ above p (p ++ x :: r).
Proof.
  intros [r' E]. apply (f_equal length) in E. rewrite !length_app in E. simpl in E. lia.
Qed.

Lemma path_exists_fs p d : disk_fs (path_exists p d).2 = disk_fs d.
Proof.
  apply map_eq. intros k. by destruct (path_exists_changes (λ _, False) p d k).
Qed.

Lemma create_directory_Ok p d d' :
  create_directory p d = (Ok tt, d') →
  disk_fs d !! p = None ∧ disk_fs d' = <[p := Dir]> (disk_fs d).
Proof.
  unfold create_directory, archive_set_directory_mode, archive_io. intros H. act_steps.
  rename select (fs_create_dir _ _ = _) into Hc. apply syscall_Ok in Hc, H.
  destruct (disk_fs d !! p); [done|]. simpl in Hc. destruct (negb _); [done|].
  destruct (is_some _); [|done]. split; [done|congruence].
Qed.

(** ** The directory the archive is extracted to *)

(** [root] stays a directory, and a disk that does not fail keeps working. *)
Definition sound_root (root : path) : relation Disk := λ d d',
  (disk_fs d !! root = Some Dir → disk_fs d' !! root = Some Dir) ∧
  (disk_faults d = [] → disk_faults d' = []).
Local Instance sound_root_preorder root : PreOrder (sound_root root).
Proof. split; [by split|]. intros a b c [? ?] [? ?]. split; auto. Qed.

Lemma syscall_sound {A} (root : path) (f : Fs → result IoError (A * Fs)) :
  (∀ fs a fs', f fs = Ok (a, fs') → fs !! root = Some Dir → fs' !! root = Some Dir) →
  moves (sound_root root) (syscall f).
Proof.
  intros Hf d. unfold syscall. pose proof (disk_next_fault_fs d) as Hd.
  assert (disk_faults d = [] → disk_faults (disk_next_fault d).2 = []) as Hq
    by (unfold disk_next_fault; destruct (disk_faults d) eqn:E; simpl; congruence).
  destruct (disk_next_fault d) as [[] d1]; simpl in *; [split; [by rewrite Hd|done]|].
  destruct (f (disk_fs d1)) as [[a fs]|] eqn:Ef; split; simpl; rewrite <- ?Hd; eauto.
Qed.

Lemma ensure_directory_sound root relative : moves (sound_root root) (ensure_directory root relative).
Proof.
  apply ensure_directory_moves; [apply _|..].
  - intros p. apply syscall_sound. intros fs a fs'. destruct (is_some _); naive_solver.
  - intros p d. unfold path_is_dir.
    assert (moves (sound_root root) (syscall (λ fs, Ok (is_dir fs p, fs)))) as Hm
      by (apply syscall_sound; naive_solver).
    specialize (Hm d). by destruct (syscall _ d) as [[]].
  - intros p. apply syscall_sound. intros fs a fs'. destruct (fs !! (root ++ p)) eqn:E; [done|]. simpl.
    destruct (negb _); [done|]. intros [= _ <-] Hr. by rewrite lookup_insert_ne by congruence.
Qed.

Lemma extract_file_sound root limits entry names x :
  Forall plain names → names ≠ [] →
  moves (sound_root root) (extract_file root limits entry (collect_path names) x).
Proof.
  intros Hn Hne. unfold extract_file, archive_secure_file, archive_io, copy_entry.
  rewrite resolve_collect by done. moves; [apply ensure_directory_sound|..]; apply syscall_sound; intros fs b fs'.
  - destruct (fs !! (root ++ names)) eqn:E; [done|]. simpl. destruct (negb _); [done|].
    intros [= _ <-] Hr. by rewrite lookup_insert_ne by congruence.
  - intros [= _ <-] Hr. rewrite lookup_insert_ne; [done|]. intros E. apply (f_equal length) in E.
    rewrite length_app in E. destruct names; [done|simpl in E; lia].
  - destruct (is_some _); naive_solver.
Qed.

Lemma extract_entry_sound root limits entry x : moves (sound_root root) (extract_entry root limits entry x).
Proof.
  unfold extract_entry.
  apply moves_bind; [apply _|apply moves_map_errors, syscall_sound; naive_solver|intros []].
  apply moves_bind; [apply _|moves|intros e]. destruct (_ && _); [moves|].
  apply moves_bind; [apply _|moves|intros p]. apply moves_bind_pure; [apply _|].
  intros [|top names] [Hn _]%normalize_path_plain; unfold extract_named; [moves|].
  apply Forall_cons in Hn as [_ Hn]. destruct (negb _); [moves|]. cbn zeta.
  destruct (str_is_empty _) eqn:Eempty; [moves|]. moves; [apply ensure_directory_sound|].
  apply extract_file_sound; [done|]. intros ->. discriminate.
Qed.

Lemma extract_entries_sound archive_path root limits :
  moves (sound_root root) (extract_entries archive_path root limits).
Proof.
  unfold extract_entries, archive_io. moves.
  - apply syscall_sound. intros fs b fs'. destruct (fs !! archive_path) as [[]|]; naive_solver.
  - generalize (mkExtraction None ∅ ∅ 0 0).
    rename select (list (option TarEntry)) into entries. induction entries as [|entry entries IH];
      intros x; cbn [extract_loop]; [moves|].
    apply moves_bind; [apply _|apply extract_entry_sound|apply IH].
Qed.

(** What preparing leaves: an empty temporary directory, the rest as it was. *)
Lemma prepare_directories_Ok destination d d' :
  let temporary := destination ++ ["repository.tmp"] in
  tree (disk_fs d) → prepare_directories destination d = (Ok tt, d') →
  disk_fs d' !! temporary = Some Dir ∧ (∀ x r, disk_fs d' !! (temporary ++ x :: r) = None) ∧
  ∀ k v, below temporary k = None → disk_fs d !! k = Some v → disk_fs d' !! k = Some v.
Proof.
  intros temporary Htree H. unfold prepare_directories, archive_io in H. fold temporary in H. act_steps.
  rename select (fs_create_dir_all _ _ = _) into Hall. apply create_directory_Ok in H as [Hnone ->].
  repeat match goal with Hp : path_exists ?p ?d = (_, _) |- _ =>
    let E := fresh "Hp" in pose proof (path_exists_fs p d) as E; rewrite Hp in E; clear Hp; simpl in E end.
  assert (∀ r, disk_fs x0 !! (temporary ++ r) = disk_fs d !! (temporary ++ r)) as Hbelow.
  { intros r. pose proof Hall as Hm. apply (moves_run (changes_only (above destination))) in Hm.
    - destruct (Hm (temporary ++ r)) as [?|Ha]; [done|]. unfold temporary in Ha. rewrite <- app_assoc in Ha.
      by apply above_not_below in Ha.
    - apply fs_create_dir_all_changes. intros k r' ->. by exists r'. }
  assert ((∀ r, disk_fs x6 !! (temporary ++ r) = None) ∧
    ∀ k, below temporary k = None → disk_fs x6 !! k = disk_fs x0 !! k) as [Hempty Hrest].
  { rewrite Hp. destruct x1.
    - apply map_errors_Ok in H2. pose proof (fs_remove_dir_all_Ok _ _ _ H2) as Hr. split; [done|].
      intros k Hk. apply (moves_run (changes_only (within temporary))) in H2.
      + destruct (H2 k) as [->|[r ->]]; [by rewrite Hp0|by rewrite below_app in Hk].
      + apply fs_remove_dir_all_changes. intros r. by exists r.
    - apply act_ret_Ok in H2 as [_ ->]. rewrite Hp0. rewrite Hp, Hp0 in Hnone. split; [|done]. intros [|x r].
      + by rewrite app_nil_r.
      + rewrite Hbelow. apply eq_None_not_Some. intros [[v Hv] _]%(tree_rooted temporary); [|done].
        rewrite <- (app_nil_r temporary), <- Hbelow, app_nil_r, Hnone in Hv. done. }
  split; [by rewrite lookup_insert_eq|]. split.
  - intros x r. rewrite lookup_insert_ne; [apply Hempty|]. intros E. apply (f_equal length) in E.
    rewrite length_app in E. simpl in E. lia.
  - intros k v Hk Hv. rewrite lookup_insert_ne by (intros <-; by rewrite below_self in Hk).
    rewrite Hrest by done. pose proof (fs_create_dir_all_keeps destination d k v Hv) as Hkeep.
    by rewrite Hall in Hkeep.
Qed.

Lemma outside_temporary destination r :
  below (destination ++ ["repository.tmp"]) (destination ++ "repository" :: r) = None.
Proof.
  destruct (below _ _) as [r'|] eqn:E; [|done]. apply below_Some in E. rewrite <- app_assoc in E.
  by apply (inj (app destination)) in E.
Qed.

(** Until the rename nothing changes at the repository. *)
Lemma untouched_repository destination (d d' : Disk) r :
  changes_only (λ k, within (destination ++ ["repository.tmp"]) k ∨ above destination k) d d' →
  disk_fs d' !! (destination ++ "repository" :: r) = disk_fs d !! (destination ++ "repository" :: r).
Proof.
  intros H. destruct (H (destination ++ "repository" :: r)) as [?|[[r' E]|Ha]]; [done|..].
  - rewrite <- app_assoc in E. by apply (inj (app destination)) in E.
  - by apply above_not_below in Ha.
Qed.

(** ** The names of the entries *)

(** The normalized names of an entry's path. *)
Definition entry_names (entry : option TarEntry) : option (list string) :=
  entry ← entry;
  p ← entry_path entry;
  match normalize_path p with Ok names => Some names | Err _ => None end.

(** The path below the root, in lower case. *)
Definition folded_path (entry : option TarEntry) : option string :=
  names ← entry_names entry;
  let relative := collect_path (tail names) in
  if str_is_empty relative then None else Some (to_ascii_lowercase relative).

(** An entry of the archive with root [top]: a file or a directory, below it. *)
Definition below_root (top : string) (entry : option TarEntry) : Prop :=
  ∃ e names, entry = Some e ∧ entry_names entry = Some (top :: names) ∧
    (EntryType_is_file (entry_type e) = true ∨ EntryType_is_dir (entry_type e) = true).

Lemma extract_file_root temporary_root limits entry relative x d x' d' :
  extract_file temporary_root limits entry relative x d = (Ok x', d') →
  common_root x' = common_root x ∧ case_folded_paths x' = case_folded_paths x.
Proof. unfold extract_file. intros H. act_steps. done. Qed.

Lemma extract_entry_root root limits entry x d x' d' :
  extract_entry root limits entry x d = (Ok x', d') →
  ∃ top, below_root top entry ∧ common_root x' = Some top ∧ same_root (common_root x) top = true ∧
    match folded_path entry with
    | Some name => (name ∉ case_folded_paths x) ∧ case_folded_paths x' = ({[name]} ∪ case_folded_paths x)
    | None => case_folded_paths x' = case_folded_paths x
    end.
Proof.
  unfold extract_entry. intros H. act_steps.
  match goal with Hg : _ && _ = false |- _ => rename Hg into Hkind end.
  match goal with Hp : entry_path ?e = Some ?p, Hn : normalize_path ?p = Ok ?names |- _ =>
    rename e into entry'; rename Hp into Hpath; rename Hn into Hnorm; rename names into components end.
  destruct components as [|top names]; [done|]. cbn [extract_named] in H.
  destruct (same_root (common_root x) top) eqn:Hroot; [|done]. cbn [negb] in H. exists top.
  assert (below_root top (Some entry')) as Hbelow.
  { exists entry', names. split; [done|]. unfold entry_names. cbn [mbind option_bind].
    rewrite Hpath. cbn [mbind option_bind]. rewrite Hnorm. split; [done|].
    destruct (EntryType_is_file _); [by left|right]. by destruct (EntryType_is_dir _). }
  split; [done|]. unfold folded_path, entry_names. cbn [mbind option_bind]. rewrite Hpath.
  cbn [mbind option_bind]. rewrite Hnorm. cbn [mbind option_bind tail]. destruct (str_is_empty _).
  { destruct (EntryType_is_dir _); [|done]. by apply act_ret_Ok in H as [-> _]. }
  apply act_bind_Ok in H as (seen & ? & [_ ->]%pure_Ok & H).
  apply act_bind_Ok in H as (folded & ? & [Hf ->]%pure_Ok & H). unfold insert_new in Hf.
  destruct (decide _) as [|Hnew]; [done|]. injection Hf as <-.
  destruct (EntryType_is_dir _).
  - apply act_bind_Ok in H as ([] & ? & _ & H). by apply act_ret_Ok in H as [-> _].
  - by apply extract_file_root in H as [-> ->].
Qed.

Lemma extract_loop_root root limits entries x d x' d' :
  extract_loop root limits entries x d = (Ok x', d') →
  NoDup (omap folded_path entries) ∧
  (∀ name, name ∈ omap folded_path entries → name ∉ case_folded_paths x) ∧
  ∀ top, common_root x' = Some top →
    Forall (below_root top) entries ∧ same_root (common_root x) top = true.
Proof.
  revert x d. induction entries as [|entry entries IH]; intros x d H; cbn [extract_loop] in H.
  { apply act_ret_Ok in H as [-> _]. split_and!; [constructor|set_solver|]. intros top E. rewrite E in *.
    split; [constructor|]. simpl. unfold eqb. by rewrite bool_decide_eq_true_2. }
  apply act_bind_Ok in H as (x1 & d1 & (top1 & Hb & Hx1 & Hs1 & Hfold)%extract_entry_root & H).
  apply IH in H as (Hnd & Hfresh & Htop). cbn [omap list_omap].
  split_and!; [destruct (folded_path entry) as [name|]..|].
  - destruct Hfold as [_ E]. constructor; [|done]. intros Hin. apply (Hfresh name Hin). set_solver.
  - done.
  - destruct Hfold as [Hn E]. intros n [->|Hin]%elem_of_cons; [done|]. specialize (Hfresh n Hin). set_solver.
  - rewrite <- Hfold. exact Hfresh.
  - intros top Ht. destruct (Htop top Ht) as [Hall Hs]. rewrite Hx1 in Hs. simpl in Hs. bool_prop.
    subst top1. split; [by constructor|done].
Qed.

Lemma extract_entries_root archive_path root limits d r d' content entries :
  extract_entries archive_path root limits d = (Ok r, d') →
  disk_fs d !! archive_path = Some (File content) → tar_entries content = Some entries →
  NoDup (omap folded_path entries) ∧ ∃ top, Forall (below_root top) entries.
Proof.
  intros H Hc He. unfold extract_entries, archive_io in H. act_steps.
  rename select (fs_open _ _ = _) into Ho. rename select (extract_loop _ _ _ _ _ = _) into Hloop.
  apply syscall_Ok in Ho. rewrite Hc in Ho. injection Ho as <- _.
  rename select (archive_entries _ = _) into Ha. simpl in Ha. apply ok_or_Ok in Ha. simplify_eq.
  apply extract_loop_root in Hloop as (Hnd & _ & Htop). split; [done|].
  destruct (common_root _) as [top|]; [|done]. exists top. by apply Htop.
Qed.

(** C24. On success the repository directory holds exactly the files of the archive,
    with their contents, within the limits, and the counts are those files'.  The
    archive holds only files and directories, all below one common root, which is
    dropped, and no two of their paths below it agree up to the case of ASCII
    letters. *)
Theorem extract_exact archive_path destination limits d snapshot d' :
  tree (disk_fs d) → 0 ≤ max_files limits → 0 ≤ max_extracted_bytes limits →
  below (destination ++ ["repository.tmp"]) archive_path = None →
  extract_snapshot_blocking archive_path destination limits d = (Ok snapshot, d') →
  ∃ content entries,
    disk_fs d !! archive_path = Some (File content) ∧ zlen content ≤ max_compressed_bytes limits ∧
    tar_entries content = Some entries ∧ within_limits limits (archive_files entries) ∧
    (∃ top, Forall (below_root top) entries) ∧ NoDup (omap folded_path entries) ∧
    holds_files (destination ++ ["repository"]) (disk_fs d') (archive_files entries) ∧
    snapshot = mkExtractedSnapshot (destination ++ ["repository"]) (zlen (archive_files entries))
                 (total_bytes (archive_files entries)).
Proof.
  intros Htree Hmax Htot Hout H. unfold extract_snapshot_blocking, archive_io in H.
  apply act_bind_Ok in H as (size & d1 & Hlen%map_errors_Ok & H). act_step.
  apply act_bind_Ok in H as ([] & d2 & Hprep & H). apply on_error_Ok in H.
  apply act_bind_Ok in H as ([n total] & d3 & Hex & H).
  apply act_bind_Ok in H as ([] & d4 & Hren%map_errors_Ok & H). act_steps.
  assert (disk_fs d1 = disk_fs d) as E1.
  { apply map_eq. intros k. apply (moves_run (changes_only (λ _, False))) in Hlen; [|apply fs_metadata_len_changes].
    by destruct (Hlen k). }
  pose proof Hprep as Hprep'. apply prepare_directories_Ok in Hprep' as (Hdir & Hempty & Hkeep); [|by rewrite E1].
  apply extract_entries_Ok in Hex as Hfiles; [|done..|].
  2:{ intros [|x r] c; [rewrite app_nil_r, Hdir; set_solver|]. rewrite Hempty. set_solver. }
  destruct Hfiles as (content & entries & Hc & Hentries & -> & -> & Hlimits & Hfiles).
  assert (disk_fs d !! archive_path = Some (File content)) as Harch.
  { apply syscall_Ok in Hlen. destruct (disk_fs d !! archive_path) as [v|] eqn:E; [|done].
    rewrite <- E1 in E. rewrite (Hkeep _ _ Hout E) in Hc. done. }
  destruct (extract_entries_root _ _ _ _ _ _ _ _ Hex Hc Hentries) as [Hnames Htop].
  exists content, entries. split_and!; try done.
  - apply syscall_Ok in Hlen. rewrite Harch in Hlen. simplify_eq. bool_prop. lia.
  - assert (disk_fs d3 !! (destination ++ ["repository.tmp"]) = Some Dir) as Hdir3.
    { apply (moves_run (sound_root (destination ++ ["repository.tmp"]))) in Hex as [Hs _];
        [by apply Hs|apply extract_entries_sound]. }
    apply rename_dir_Ok in Hren as (Hmoved & _ & _); [|..|done|].
    + intros r c. by rewrite Hmoved.
    + apply (rooted_same _ (disk_fs d)); [|by apply tree_rooted]. intros r. rewrite <- app_assoc.
      rewrite <- E1. apply untouched_repository. etrans.
      * eapply moves_run; [apply prepare_directories_changes|exact Hprep].
      * eapply moves_run; [|exact Hex]. eapply changes_only_mono; [|apply extract_entries_changes]. by left.
    + apply eq_None_not_Some. intros [r E%below_Some]. rewrite <- app_assoc in E.
      by apply (inj (app destination)) in E.
Qed.

(** ** A failed extraction *)

(** A disk that does not fail does not start to. *)
Definition quiet : relation Disk := λ d d', disk_faults d = [] → disk_faults d' = [].
Local Instance quiet_preorder : PreOrder quiet.
Proof. split; [by intros d Hd|]. intros a b c Hab Hbc ?. by apply Hbc, Hab. Qed.

Lemma syscall_quiet {A} (f : Fs → result IoError (A * Fs)) : moves quiet (syscall f).
Proof.
  intros d H. unfold syscall, disk_next_fault. rewrite H.
  by destruct (f (disk_fs d)) as [[a fs]|].
Qed.

Lemma path_exists_quiet p d : quiet d (path_exists p d).2.
Proof.
  unfold path_exists. pose proof (syscall_quiet (λ fs, Ok (is_some (fs !! p), fs)) d) as Hm.
  by destruct (syscall _ d) as [[]].
Qed.

Lemma quiet_syscall {A} (f : Fs → result IoError (A * Fs)) d :
  disk_faults d = [] →
  syscall f d = match f (disk_fs d) with Ok (a, fs) => (Ok a, set_fs fs d) | Err e => (Err e, d) end.
Proof. intros H. unfold syscall, disk_next_fault. by rewrite H. Qed.

Lemma create_directory_quiet p d e d' :
  disk_faults d = [] → create_directory p d = (Err e, d') → disk_fs d' = disk_fs d.
Proof.
  intros Hq H. unfold create_directory, archive_set_directory_mode, archive_io in H.
  apply act_bind_Err in H as [H|([] & d1 & H1 & H)].
  - apply map_errors_Err in H as (e' & H & _). unfold fs_create_dir in H. rewrite quiet_syscall in H by done.
    repeat case_match; simplify_eq; done.
  - apply map_errors_Ok in H1. apply map_errors_Err in H as (e' & H & _).
    unfold fs_set_permissions in H. rewrite quiet_syscall in H.
    + apply syscall_Ok in H1. destruct (disk_fs d !! p); [done|]. simpl in H1.
      destruct (negb _); [done|]. injection H1 as H1. rewrite <- H1, lookup_insert_eq in H. done.
    + eapply (moves_run quiet); [apply syscall_quiet|exact H1|done].
Qed.

Lemma fs_remove_dir_all_quiet p d :
  disk_faults d = [] → disk_fs d !! p = Some Dir → ∃ d', fs_remove_dir_all p d = (Ok tt, d').
Proof.
  intros Hq Hp. unfold fs_remove_dir_all, mbind, act_bind. rewrite quiet_syscall, Hp by done.
  set (d1 := set_fs _ d). assert (disk_faults d1 = []) as H1 by done. clearbody d1. clear Hq Hp.
  induction (tree_entries p (disk_fs d)) as [|k l IH] in d1, H1 |- *; [by exists d1|].
  cbn [act_each]. unfold mbind, act_bind. rewrite quiet_syscall by done. by apply IH.
Qed.

Lemma prepare_directories_quiet destination : moves quiet (prepare_directories destination).
Proof.
  unfold prepare_directories, archive_io, fs_create_dir_all, fs_remove_dir_all.
  moves; try apply syscall_quiet; try (apply moves_query; intros d; apply path_exists_quiet).
  apply create_directory_moves; [apply _|..]; intros; apply syscall_quiet.
Qed.

(** Preparing that fails, on a disk without a leftover, leaves no temporary directory. *)
Lemma prepare_directories_Err destination d e d' :
  let temporary := destination ++ ["repository.tmp"] in
  disk_faults d = [] → (∀ r, disk_fs d !! (temporary ++ r) = None) →
  prepare_directories destination d = (Err e, d') → ∀ r, disk_fs d' !! (temporary ++ r) = None.
Proof.
  intros temporary Hq Hnone H r. unfold prepare_directories, archive_io in H. fold temporary in H.
  assert (moves (changes_only (above destination)) (fs_create_dir_all destination)) as Hall.
  { apply fs_create_dir_all_changes. intros k r' ->. by exists r'. }
  assert (moves quiet (fs_create_dir_all destination)) as Hallq.
  { unfold fs_create_dir_all. moves. apply syscall_quiet. }
  assert (∀ d1, changes_only (above destination) d d1 → ∀ r, disk_fs d1 !! (temporary ++ r) = None) as Hstill.
  { intros d1 Hd r'. destruct (Hd (temporary ++ r')) as [->|Ha]; [done|]. unfold temporary in Ha.
    rewrite <- app_assoc in Ha. by apply above_not_below in Ha. }
  apply act_bind_Err in H as [(? & H & _)%map_errors_Err|([] & d1 & H1%map_errors_Ok & H)].
  { apply Hstill. by eapply moves_run. }
  pose proof (moves_run _ _ _ _ _ Hall H1) as Hd1. pose proof (moves_run _ _ _ _ _ Hallq H1 Hq) as Hq1.
  apply act_bind_Err in H as [[]%query_Err|(leftover & d2 & H2%query_inv & H)].
  assert (leftover = false) as ->.
  { unfold path_exists in H2. rewrite quiet_syscall in H2 by done. simpl in H2.
    rewrite <- (app_nil_r temporary), (Hstill d1 Hd1 []) in H2. by injection H2. }
  pose proof (path_exists_fs temporary d1) as E2. rewrite H2 in E2. simpl in E2.
  pose proof (path_exists_quiet temporary d1) as Hq2. rewrite H2 in Hq2. specialize (Hq2 Hq1).
  apply act_bind_Err in H as [H|([] & d3 & [_ ->]%act_ret_Ok & H)]; [done|].
  apply act_bind_Err in H as [[]%query_Err|(present & d4 & H4%query_inv & H)].
  pose proof (path_exists_fs (destination ++ ["repository"]) d2) as E4. rewrite H4 in E4. simpl in E4.
  pose proof (path_exists_quiet (destination ++ ["repository"]) d2) as Hq4. rewrite H4 in Hq4.
  specialize (Hq4 Hq2).
  assert (disk_fs d' = disk_fs d4) as ->; [|rewrite E4, E2; by apply Hstill].
  destruct present; [by injection H as <- <-|]. by eapply create_directory_quiet.
Qed.

Lemma on_error_Err {S E A F B} (m : act S E A) (undo : act S F B) s e s' :
  on_error m undo s = (Err e, s') → ∃ s1, m s = (Err e, s1) ∧ s' = (undo s1).2.
Proof. unfold on_error. destruct (m s) as [[]]; naive_solver. Qed.

Lemma syscall_Err {A} (f : Fs → result IoError (A * Fs)) d e d' :
  syscall f d = (Err e, d') → disk_fs d' = disk_fs d.
Proof.
  unfold syscall. pose proof (disk_next_fault_fs d) as Hd. destruct (disk_next_fault d) as [[] d1]; simpl in Hd.
  - congruence.
  - destruct (f (disk_fs d1)) as [[]|]; congruence.
Qed.

(** The block that reads the archive and renames: it fails without a trace at the
    repository, and the temporary directory can still be removed. *)
Lemma extract_block_Err archive_path destination limits d e d' :
  let temporary := destination ++ ["repository.tmp"] in
  (counts ← extract_entries archive_path temporary limits;
   archive_io (fs_rename temporary (destination ++ ["repository"]));;
   mret (mkExtractedSnapshot (destination ++ ["repository"]) counts.1 counts.2)) d = (Err e, d') →
  changes_only (within temporary) d d' ∧ sound_root temporary d d'.
Proof.
  intros temporary H.
  apply act_bind_Err in H as [H|(counts & d1 & H1 & H)].
  { split; eapply moves_run; [apply extract_entries_changes|exact H|apply extract_entries_sound|exact H]. }
  pose proof (moves_run _ _ _ _ _ (extract_entries_changes archive_path temporary limits) H1) as Hc.
  pose proof (moves_run _ _ _ _ _ (extract_entries_sound archive_path temporary limits) H1) as Hs.
  apply act_bind_Err in H as [(e' & H & _)%map_errors_Err|([] & d2 & _ & H)]; [|done].
  pose proof (moves_run _ _ _ _ _ (syscall_quiet _) H) as Hq. apply syscall_Err in H. split.
  - etrans; [exact Hc|]. intros k. left. by rewrite H.
  - etrans; [exact Hs|]. split; [by rewrite H|exact Hq].
Qed.

(** C38. An extraction that fails leaves the repository directory as it was; on a disk
    that does not fail and has no leftover, it leaves no temporary directory. *)
Theorem extract_failure archive_path destination limits d e d' :
  tree (disk_fs d) → extract_snapshot_blocking archive_path destination limits d = (Err e, d') →
  (∀ r, disk_fs d' !! (destination ++ "repository" :: r) = disk_fs d !! (destination ++ "repository" :: r)) ∧
  (disk_faults d = [] → (∀ r, disk_fs d !! (destination ++ "repository.tmp" :: r) = None) →
   ∀ r, disk_fs d' !! (destination ++ "repository.tmp" :: r) = None).
Proof.
  intros Htree H. unfold extract_snapshot_blocking, archive_io in H.
  assert (moves quiet (fs_metadata_len archive_path)) as Hq1 by apply syscall_quiet.
  apply act_bind_Err in H as [(e' & H & _)%map_errors_Err|(size & d1 & H1%map_errors_Ok & H)].
  { apply syscall_Err in H as ->. done. }
  assert (disk_fs d1 = disk_fs d) as E1.
  { apply map_eq. intros k. destruct (moves_run _ _ _ _ _ (fs_metadata_len_changes (λ _, False) archive_path) H1 k); done. }
  pose proof (moves_run _ _ _ _ _ Hq1 H1) as Hq. rewrite <- E1. rewrite <- E1 in Htree.
  assert (∀ r, destination ++ "repository.tmp" :: r = (destination ++ ["repository.tmp"]) ++ r) as Eapp
    by (intros r; by rewrite <- app_assoc).
  destruct (_ <? _); [injection H as <- <-; done|].
  apply act_bind_Err in H as [H|([] & d2 & Hprep & H)].
  { split; [intros r; eapply untouched_repository, moves_run, H; apply prepare_directories_changes|].
    intros Hf Hnone r. rewrite Eapp. eapply prepare_directories_Err; [by apply Hq| |exact H].
    intros r'. by rewrite <- Eapp. }
  pose proof (prepare_directories_Ok _ _ _ Htree Hprep) as (Hdir & _ & _).
  apply on_error_Err in H as (d3 & Eb & ->).
  apply extract_block_Err in Eb as [Hc [Hs1 Hs2]].
  assert (moves (changes_only (within (destination ++ ["repository.tmp"])))
    (fs_remove_dir_all (destination ++ ["repository.tmp"]))) as Hrm
    by (apply fs_remove_dir_all_changes; intros r; by exists r).
  split.
  - intros r. apply untouched_repository. etrans; [eapply moves_run, Hprep; apply prepare_directories_changes|].
    intros k. destruct (Hrm d3 k) as [->|]; [|by right; left]. destruct (Hc k) as [->|]; [by left|by right; left].
  - intros Hf _ r. rewrite Eapp.
    pose proof (moves_run _ _ _ _ _ (prepare_directories_quiet destination) Hprep (Hq Hf)) as Hf2.
    destruct (fs_remove_dir_all_quiet (destination ++ ["repository.tmp"]) d3) as [d4 H4];
[by apply Hs2|by apply Hs1|].
    rewrite H4. by eapply fs_remove_dir_all_Ok.
Qed.
End extracted.
