(* ===== verification/PluginRepository.v ===== *)
(** * Plugin repositories (audiodown-plugin-manager: github.rs, validation.rs, package.rs)

    Where a repository is downloaded from, and what its extracted files must
    look like before a plugin of it can be offered for installation: the index
    of the repository, the manifest of each plugin, its npm package and lock
    file, the names of its files and the hash over its sources. *)

From S2P Require Import Prelude Text Std Domain ContentContract Foreign CredentialContract Stateful.
From S2P Require Import Fs Redaction ContainerPolicy PluginManager PluginArchive.

(** ** Other crates *)

(** [semver::Version] *)
Record Version := mkVersion {
  version_major : Z;
  version_minor : Z;
  version_patch : Z;
  version_pre : string;
  version_build : string;
}.

Record RepositoryMetadata := mkRepositoryMetadata { metadata_id : string; metadata_name : string }.
Record RepositoryPluginRef := mkRepositoryPluginRef { ref_path : string }.
Record RepositoryIndex := mkRepositoryIndex {
  index_schema_version : string;
  index_repository : RepositoryMetadata;
  index_plugins : list RepositoryPluginRef;
}.

(** A JSON value; a number is what [as_u64] makes of it. *)
Abbreviation JsonValue := (Value (option Z)).
Abbreviation JsonObject := (list (string * JsonValue)).

Class RepositoryLib {U : UrlLib} := {
  (** [serde_json::from_slice]; the members of an object are in the order of
      their keys, which are distinct *)
  index_from_slice : list byte → option RepositoryIndex;
  plugin_manifest_from_slice : list byte → option PluginManifest;
  value_from_slice : list byte → option JsonValue;
  (** [RepositoryResponse] (the default branch) and [CommitResponse] (the SHA) *)
  repository_response_from_slice : list byte → option (option string);
  commit_response_from_slice : list byte → option string;
  (** semver *)
  VersionReq : Type;
  VersionReq_parse : string → option VersionReq;
  VersionReq_matches : VersionReq → Version → bool;
  (** url: [port], [path_segments], [set_path], and
      [path_segments_mut()?.pop_if_empty().extend(segments)] *)
  Url_port : Url → option Z;
  Url_path_segments : Url → option (list string);
  Url_set_path : Url → string → Url;
  Url_extend : Url → list string → option Url;
  (** base64: [STANDARD.decode] *)
  standard_decode : string → option (list byte);
}.

(** ** Strings *)

(** [str::chars().count()] *)
Definition char_count (s : string) : Z :=
  zlen (List.filter (λ c, negb (continuation c)) (bytes s)).

(** [str::split_whitespace] *)
Definition flush (word : list ascii) : list string :=
  match word with [] => [] | _ => [str word] end.
Fixpoint whitespace_words (fuel : nat) (word l : list ascii) : list string :=
  match fuel, l with
  | S fuel, x :: rest =>
      match strip_one whitespace_utf8 l with
      | Some rest => flush word ++ whitespace_words fuel [] rest
      | None => whitespace_words fuel (word ++ [x]) rest
      end
  | _, _ => flush word
  end.
Definition split_whitespace (s : string) : list string :=
  whitespace_words (length (bytes s)) [] (bytes s).

(** [value.contains(char::is_whitespace)] *)
Fixpoint contains_whitespace (l : list ascii) : bool :=
  match l with
  | [] => false
  | _ :: rest => is_some (strip_one whitespace_utf8 l) || contains_whitespace rest
  end.

(** [str::strip_suffix] *)
Definition strip_suffix (s suffix : string) : option string :=
  if ends_with s suffix then Some (str (take (String.length s - String.length suffix) (bytes s))) else None.

(** [value.contains("://")] *)
Definition contains_str (s pattern : string) : bool :=
  existsb (eqb (bytes pattern)) (windows (String.length pattern) (bytes s)).

(** ** github.rs: the reference to a repository *)

Definition MAX_ARCHIVE_BYTES : Z := 16 * 1024 * 1024.

Record GitHubRepositoryRef := mkGitHubRepositoryRef {
  github_owner : string;
  github_repository : string;
  github_canonical_url : string;
}.

(** [r{n}] *)
Fixpoint RExactly (n : nat) (r : regex) : regex :=
  match n with O => REps | S n => RCat r (RExactly n r) end.
(** [r+] *)
Definition RPlus (r : regex) : regex := RCat r (RStar r).

Definition is_alnum (c : ascii) : bool :=
  is_ascii_lowercase c || is_ascii_uppercase c || is_ascii_digit c.
Definition lower_alnum (c : ascii) : bool := is_ascii_lowercase c || is_ascii_digit c.

(** [^[A-Za-z0-9_.-]{1,100}$] *)
Definition segment_byte (c : ascii) : bool :=
  is_alnum c || eqb c "_"%char || eqb c "."%char || eqb c "-"%char.
Definition segment_pattern : regex := RCat (RSet segment_byte) (RUpTo 99 (RSet segment_byte)).
Definition valid_segment (value : string) : bool := is_match segment_pattern value.

(** [^[0-9a-f]{40}$] *)
Definition lower_hex_byte (c : ascii) : bool := is_ascii_digit c || in_range 97 102 c.
Definition valid_commit_sha (value : string) : bool :=
  is_match (RExactly 40 (RSet lower_hex_byte)) value.

Section repository.
Context {U : UrlLib} {B : Encoding} {L : RepositoryLib}.

(** The checks [GitHubRepositoryRef::parse] and [validate_resolved] share in shape. *)
Definition plain_https (url : Url) (host : string) : bool :=
  negb (negb (eqb (Url_scheme url) "https")
        || negb (eqb (Url_host_str url) (Some host))
        || negb (str_is_empty (Url_username url))
        || is_some (Url_password url)
        || is_some (Url_port url)
        || is_some (Url_query url)
        || is_some (Url_fragment url)).

Definition GitHubRepositoryRef_parse (input : string) :
    result PluginManagerError GitHubRepositoryRef :=
  authority ← ok_or (rest ← strip_prefix input "https://"; head (split "/"%char rest)) InvalidRepositoryUrl;
  if negb (eqb authority "github.com") then Err InvalidRepositoryUrl
  else
    url ← ok_or (Url_parse input) InvalidRepositoryUrl;
    if negb (plain_https url "github.com") then Err InvalidRepositoryUrl
    else
      segments ← ok_or (Url_path_segments url) InvalidRepositoryUrl;
      let segments := if eqb (last segments) (Some "") then removelast segments else segments in
      match segments with
      | [owner; second] =>
          let repository := default second (strip_suffix second ".git") in
          if negb (valid_segment owner) || negb (valid_segment repository) then Err InvalidRepositoryUrl
          else Ok (mkGitHubRepositoryRef owner repository
                     ("https://github.com/" +:+ owner +:+ "/" +:+ repository))
      | _ => Err InvalidRepositoryUrl
      end.

Definition parse_service_base (value : string) : result PluginManagerError Url :=
  url ← ok_or (Url_parse value) InvalidServiceBaseUrl;
  if negb (eqb (Url_scheme url) "http" || eqb (Url_scheme url) "https")
     || is_none (Url_host_str url)
     || negb (str_is_empty (Url_username url))
     || is_some (Url_password url)
     || is_some (Url_query url)
     || is_some (Url_fragment url)
  then Err InvalidServiceBaseUrl
  else if negb (ends_with (Url_path url) "/") then Ok (Url_set_path url (Url_path url +:+ "/"))
  else Ok url.

Definition endpoint (base : Url) (segments : list string) : result PluginManagerError Url :=
  ok_or (Url_extend base segments) InvalidServiceBaseUrl.
(** ** github.rs: the client *)

Record GitHubClient := mkGitHubClient { api_base : Url; archive_base : Url }.

(** [built]: whether the builder of the HTTP client succeeds. *)
Definition GitHubClient_new (built : bool) (api_base archive_base : string) :
    result PluginManagerError GitHubClient :=
  if negb built then Err HttpClient
  else
    api_base ← parse_service_base api_base;
    archive_base ← parse_service_base archive_base;
    Ok (mkGitHubClient api_base archive_base).
End repository.

(** A response of the HTTP client: the body comes in chunks, one of which may fail. *)
Record ArchiveResponse := mkArchiveResponse {
  response_success : bool;
  response_content_length : option Z;
  response_chunks : list (option (list byte));
}.

(** [client.get(url).send().await], without redirects *)
Class GitHubHttp {U : UrlLib} (W : Type) := {
  http_get : Url → W → option ArchiveResponse * W;
}.

(** [Response::bytes] *)
Fixpoint response_bytes (chunks : list (option (list byte))) : option (list byte) :=
  match chunks with
  | [] => Some []
  | None :: _ => None
  | Some chunk :: chunks => rest ← response_bytes chunks; Some (chunk ++ rest)
  end.

Record DownloadedSnapshot := mkDownloadedSnapshot {
  downloaded_commit_sha : string;
  downloaded_archive_path : path;
}.

(** [tokio::fs::File::create] and [write_all] on the open file *)
Definition fs_create (p : path) : act Disk IoError unit :=
  syscall (λ fs,
    match fs !! p with
    | Some Dir => Err IoOther
    | _ => if negb (is_dir fs (parent p)) then Err IoNotFound else Ok (tt, <[p := File []]> fs)
    end).
Definition fs_append (p : path) (chunk : list byte) : act Disk IoError unit :=
  syscall (λ fs,
    match fs !! p with
    | Some (File content) => Ok (tt, <[p := File (content ++ chunk)]> fs)
    | _ => Ok (tt, fs)
    end).

Section download.
Context {U : UrlLib} {B : Encoding} {L : RepositoryLib} {W : Type} {H : GitHubHttp W}.

Definition snapshot_io {A} (m : act Disk IoError A) : act Disk PluginManagerError A :=
  map_errors (λ _, SnapshotIo) m.

Definition send (url : Url) : act W PluginManagerError ArchiveResponse :=
  response ← query (http_get url);
  response ← pure (ok_or response RepositoryRequest);
  if negb (response_success response) then throw NonSuccessResponse else mret response.

(** [get_json] at a type with the given decoder *)
Definition get_json {T} (decode : list byte → option T) (url : Url) : act W PluginManagerError T :=
  response ← send url;
  pure (ok_or (bytes ← response_bytes (response_chunks response); decode bytes) InvalidServiceResponse).

Fixpoint write_chunks (temporary_path : path) (size : Z) (chunks : list (option (list byte))) :
    act Disk PluginManagerError unit :=
  match chunks with
  | [] => mret tt
  | chunk :: chunks =>
      chunk ← pure (ok_or chunk RepositoryRequest);
      size ← pure (ok_or (checked_add size (zlen chunk)) ArchiveTooLarge);
      if MAX_ARCHIVE_BYTES <? size then throw ArchiveTooLarge
      else
        snapshot_io (fs_append temporary_path chunk);;
        write_chunks temporary_path size chunks
  end.

(** What [download_archive] does with the response. *)
Definition store_archive (response : ArchiveResponse) (destination : path) :
    act Disk PluginManagerError path :=
  let temporary_path := destination ++ ["snapshot.tar.gz.tmp"] in
  let archive_path := destination ++ ["snapshot.tar.gz"] in
  on_error
    (snapshot_io (fs_create temporary_path);;
     write_chunks temporary_path 0 (response_chunks response);;
     snapshot_io (fs_sync temporary_path);;
     snapshot_io (fs_rename temporary_path archive_path);;
     mret archive_path)
    (fs_remove_file temporary_path).

(** The disk and the network together. *)
Definition on_disk_of {E A} (m : act Disk E A) : act (Disk * W) E A := focus fst (λ d s, (d, s.2)) m.
Definition on_net {E A} (m : act W E A) : act (Disk * W) E A := focus snd (λ w s, (s.1, w)) m.

Definition download_archive (url : Url) (destination : path) :
    act (Disk * W) PluginManagerError path :=
  response ← on_net (send url);
  if is_some_and (λ length, MAX_ARCHIVE_BYTES <? length) (response_content_length response)
  then throw ArchiveTooLarge
  else on_disk_of (store_archive response destination).

Definition resolve_and_download (self : GitHubClient) (source : GitHubRepositoryRef)
    (destination : path) : act (Disk * W) PluginManagerError DownloadedSnapshot :=
  repository_url ← pure (endpoint (api_base self)
                           ["repos"; github_owner source; github_repository source]);
  default_branch ← on_net (get_json repository_response_from_slice repository_url);
  default_branch ← pure (match default_branch with
                         | Some branch => if str_is_empty branch then Err MissingDefaultBranch else Ok branch
                         | None => Err MissingDefaultBranch
                         end);
  commit_url ← pure (endpoint (api_base self)
                       ["repos"; github_owner source; github_repository source; "commits";
                        default_branch]);
  sha ← on_net (get_json commit_response_from_slice commit_url);
  if negb (valid_commit_sha sha) then throw InvalidCommitSha
  else
    archive_url ← pure (endpoint (archive_base self)
                          [github_owner source; github_repository source; "tar.gz"; sha]);
    archive_path ← download_archive archive_url destination;
    mret (mkDownloadedSnapshot sha archive_path).
End download.

(** ** package.rs *)

Definition LIFECYCLE_SCRIPTS : list string :=
  ["preinstall"; "install"; "postinstall"; "prepublish"; "preprepare"; "prepare"; "postprepare"].

(** [Map::get], [contains_key] *)
Definition object_get (o : JsonObject) (field : string) : option JsonValue :=
  snd <$> find (λ e, eqb e.1 field) o.
Definition as_object (v : JsonValue) : option JsonObject :=
  match v with Object members => Some members | _ => None end.
Definition as_str (v : JsonValue) : option string := match v with Str text => Some text | _ => None end.
Definition as_u64 (v : JsonValue) : option Z := match v with Num n => n | _ => None end.
Definition as_bool (v : JsonValue) : option bool := match v with Bool b => Some b | _ => None end.

Definition object_of (v : JsonValue) : result PluginManagerError JsonObject :=
  ok_or (as_object v) InvalidPackage.

Definition required_string (o : JsonObject) (field : string) : result PluginManagerError string :=
  match (v ← object_get o field; as_str v) with
  | Some value => if str_is_empty value then Err InvalidPackage else Ok value
  | None => Err InvalidPackage
  end.

Definition validate_dependency_specification (value : string) : result PluginManagerError unit :=
  let value := trim value in
  let lowercase := to_ascii_lowercase value in
  if str_is_empty value
     || str_contains value "/"%char
     || str_contains value (chr 92)
     || contains_str value "://"
     || starts_with lowercase "file:"
     || starts_with lowercase "link:"
     || starts_with lowercase "git"
     || starts_with lowercase "github:"
     || starts_with lowercase "workspace:"
     || starts_with lowercase "http:"
     || starts_with lowercase "https:"
  then Err InvalidPackage
  else Ok tt.

(** The loop of [dependency_map], into an ordered map of the specifications. *)
Fixpoint dependency_entries (members : JsonObject) (normalized : gmap string string) :
    result PluginManagerError (gmap string string) :=
  match members with
  | [] => Ok normalized
  | (name, value) :: members =>
      if str_is_empty name then Err InvalidPackage
      else
        specification ← ok_or (as_str value) InvalidPackage;
        validate_dependency_specification specification;;
        dependency_entries members (<[name := specification]> normalized)
  end.
Definition dependency_map (o : JsonObject) (field : string) :
    result PluginManagerError (gmap string string) :=
  match object_get o field with
  | None => Ok ∅
  | Some value =>
      dependencies ← ok_or (as_object value) InvalidPackage;
      dependency_entries dependencies ∅
  end.

Definition dependency_fields : list string :=
  ["dependencies"; "optionalDependencies"; "devDependencies"; "peerDependencies"].
Definition validate_root_dependencies (package lock_root : JsonObject) :
    result PluginManagerError unit :=
  for_each (λ field,
    package_dependencies ← dependency_map package field;
    lock_dependencies ← dependency_map lock_root field;
    if negb (eqb package_dependencies lock_dependencies) then Err InvalidPackage else Ok tt)
    dependency_fields.
Definition validate_dependency_maps (o : JsonObject) : result PluginManagerError unit :=
  for_each (λ field, dependency_map o field;; Ok tt) dependency_fields.

Section package.
Context {U : UrlLib} {B : Encoding} {L : RepositoryLib}.

Definition validate_resolved (entry : JsonObject) : result PluginManagerError unit :=
  resolved ← required_string entry "resolved";
  url ← ok_or (Url_parse resolved) InvalidPackage;
  if negb (plain_https url "registry.npmjs.org") then Err InvalidPackage else Ok tt.

Definition validate_integrity (entry : JsonObject) : result PluginManagerError unit :=
  integrity ← required_string entry "integrity";
  encoded ← ok_or (strip_prefix integrity "sha512-") InvalidPackage;
  if contains_whitespace (bytes encoded) then Err InvalidPackage
  else
    digest ← ok_or (standard_decode encoded) InvalidPackage;
    if negb (zlen digest =? 64) then Err InvalidPackage else Ok tt.

Definition validate_locked_package (e : string * JsonValue) : result PluginManagerError unit :=
  let '(path, entry) := e in
  if str_is_empty path then Ok tt
  else if negb (starts_with path "node_modules/") || str_contains path (chr 92) then Err InvalidPackage
  else
    entry ← object_of entry;
    if eqb (link ← object_get entry "link"; as_bool link) (Some true) then Err InvalidPackage
    else
      validate_dependency_maps entry;;
      validate_resolved entry;;
      validate_integrity entry.

(** [.get(field).map(object).transpose()?.ok_or(InvalidPackage)?] *)
Definition required_object (o : JsonObject) (field : string) : result PluginManagerError JsonObject :=
  found ← transpose_map object_of (object_get o field);
  ok_or found InvalidPackage.

(** [validate_package] on the two parsed files *)
Definition validate_package_objects (package lockfile : JsonObject) (lifecycle_scripts_required : bool) :
    result PluginManagerError unit :=
  package_name ← required_string package "name";
  package_version ← required_string package "version";
  scripts ← transpose_map object_of (object_get package "scripts");
  let has_lifecycle_scripts :=
    is_some_and (λ scripts, existsb (λ name, is_some (object_get scripts name)) LIFECYCLE_SCRIPTS) scripts in
  if negb (eqb has_lifecycle_scripts lifecycle_scripts_required) then Err InvalidPackage
  else
    lockfile_version ← ok_or (v ← object_get lockfile "lockfileVersion"; as_u64 v) InvalidPackage;
    if lockfile_version <? 2 then Err InvalidPackage
    else
      packages ← required_object lockfile "packages";
      root_package ← required_object packages "";
      root_name ← required_string root_package "name";
      if negb (eqb root_name package_name) then Err InvalidPackage
      else
        root_version ← required_string root_package "version";
        if negb (eqb root_version package_version) then Err InvalidPackage
        else
          validate_root_dependencies package root_package;;
          if 256 <? Z.max 0 (zlen packages - 1) then Err InvalidPackage
          else for_each validate_locked_package packages.

Definition read_object (p : path) : act Disk PluginManagerError JsonObject :=
  content ← map_errors (λ _, InvalidPackage) (fs_read p);
  value ← pure (ok_or (value_from_slice content) InvalidPackage);
  pure (ok_or (as_object value) InvalidPackage).

Definition validate_package (plugin_root : path) (lifecycle_scripts_required : bool) :
    act Disk PluginManagerError unit :=
  package ← read_object (plugin_root ++ ["package.json"]);
  lockfile ← read_object (plugin_root ++ ["package-lock.json"]);
  pure (validate_package_objects package lockfile lifecycle_scripts_required).
End package.

(** ** validation.rs *)

Record ValidatedPlugin := mkValidatedPlugin {
  validated_relative_path : string;
  validated_manifest : PluginManifest;
  validated_manifest_hash : string;
  validated_source_hash : string;
  validated_entry_path : string;
  validated_requires_lifecycle_scripts : bool;
  validated_lifecycle_script_reason : option string;
}.

Record ValidatedRepository := mkValidatedRepository {
  validated_repository_id : string;
  validated_repository_name : string;
  validated_plugins : list ValidatedPlugin;
}.

(** [^[a-z0-9](?:[a-z0-9._-]{0,126}[a-z0-9])?$] *)
Definition repository_id_inner (c : ascii) : bool :=
  lower_alnum c || eqb c "."%char || eqb c "_"%char || eqb c "-"%char.
Definition repository_id_pattern : regex :=
  RCat (RSet lower_alnum)
       (ROpt (RCat (RUpTo 126 (RSet repository_id_inner)) (RSet lower_alnum))).
(** [^[a-z][a-z0-9]{0,31}$] *)
Definition platform_id_pattern : regex :=
  RCat (RSet is_ascii_lowercase) (RUpTo 31 (RSet lower_alnum)).
(** words of a lower-case letter and lower-case letters or digits, at least two,
    with dots between them *)
Definition capability_word : regex := RCat (RSet is_ascii_lowercase) (RStar (RSet lower_alnum)).
Definition capability_pattern : regex :=
  RCat capability_word (RPlus (RCat (RSet (eqb "."%char)) capability_word)).

Definition validate_repository_metadata (index : RepositoryIndex) : result PluginManagerError unit :=
  if negb (eqb (index_schema_version index) "1.0")
     || negb (is_match repository_id_pattern (metadata_id (index_repository index)))
  then Err InvalidRepositoryIndex
  else
    let name := trim (metadata_name (index_repository index)) in
    if str_is_empty name || (120 <? char_count name) then Err InvalidRepositoryIndex else Ok tt.

Definition allowed_host_matches (allowed host : string) : bool :=
  match strip_prefix allowed "*." with
  | Some suffix =>
      (str_len suffix <? str_len host)
      && ends_with host suffix
      && eqb (bytes host !! (String.length host - String.length suffix - 1)%nat) (Some "."%char)
  | None => eqb allowed host
  end.

Definition valid_host_label (label : string) : bool :=
  negb (str_is_empty label)
  && (str_len label <=? 63)
  && str_all (λ byte, is_ascii_lowercase byte || is_ascii_digit byte || eqb byte "-"%char) label
  && negb (starts_with label "-")
  && negb (ends_with label "-").

Definition valid_allowed_host (value : string) : bool :=
  if str_is_empty value || negb (eqb value (to_ascii_lowercase value)) || (253 <? str_len value)
  then false
  else
    let host := default value (strip_prefix value "*.") in
    if str_contains host "*"%char
       || eqb host "localhost"
       || ends_with host ".localhost"
       || is_some (IpAddr_parse host)
       || negb (str_contains host "."%char)
    then false
    else forallb valid_host_label (split "."%char host).

Definition forbidden_name (name : string) : bool :=
  existsb (eqb name)
    [".npmrc"; "npm-shrinkwrap.json"; "yarn.lock"; "pnpm-lock.yaml"; "Dockerfile"; ".dockerignore"].

(** The path as a string and as a [PathBuf]. *)
Definition check_segments (segments : list string) : result PluginManagerError unit :=
  for_each (λ segment,
    if str_is_empty segment || eqb segment "." || eqb segment ".." || str_contains segment ":"%char
    then Err InvalidPluginPath else Ok tt) segments.
Definition normalize_relative_path (value : string) : result PluginManagerError (string * string) :=
  if str_is_empty value
     || negb (eqb value (trim value))
     || starts_with value "/"
     || starts_with value (String (chr 92) "")
     || str_contains value (chr 92)
     || str_contains value (chr 0)
  then Err InvalidPluginPath
  else
    let segments := split "/"%char value in
    check_segments segments;;
    Ok (str (join_bytes "/"%char (bytes <$> segments)), collect_path segments).

Definition compatibility_version (version : Version) : Version :=
  mkVersion (version_major version) (version_minor version) (version_patch version) "" "".

(** [std::fs::read_dir] with the type of each entry. *)
Definition fs_read_entries (p : path) : act Disk IoError (list (string * node)) :=
  syscall (λ fs, if is_dir fs p then Ok (children p fs, fs)
                 else if is_some (fs !! p) then Err IoOther else Err IoNotFound).

(** [std::fs::symlink_metadata]; there are no links. *)
Definition fs_symlink_metadata (p : path) : act Disk IoError node :=
  syscall (λ fs, match fs !! p with Some n => Ok (n, fs) | None => Err IoNotFound end).
Definition node_is_dir (n : node) : bool := match n with Dir => true | File _ => false end.
Definition node_is_file (n : node) : bool := match n with File _ => true | Dir => false end.

(** [Path::is_file]: an error counts as no. *)
Definition path_is_file (p : path) (d : Disk) : bool * Disk :=
  match fs_symlink_metadata p d with
  | (Ok n, d) => (node_is_file n, d)
  | (Err _, d) => (false, d)
  end.

Definition name_to_str (name : string) : option string := from_utf8 (bytes name).

(** The entries of one directory: the directories to visit, last first. *)
Fixpoint check_entries (directory : path) (depth : nat) (entries : list (string * node))
    (pending : list (path * nat)) : result PluginManagerError (list (path * nat)) :=
  match entries with
  | [] => Ok pending
  | (name, n) :: entries =>
      text ← ok_or (name_to_str name) ForbiddenPluginFile;
      if forbidden_name text
         || ((0 <? depth)%nat && (eqb text "package.json" || eqb text "package-lock.json"))
      then Err ForbiddenPluginFile
      else
        check_entries directory depth entries
          (if node_is_dir n then (directory ++ [name], S depth) :: pending else pending)
  end.

Fixpoint tree_loop (fuel : nat) (pending : list (path * nat)) : act Disk PluginManagerError unit :=
  match fuel, pending with
  | _, [] => mret tt
  | O, _ => throw ForbiddenPluginFile
  | S fuel, (directory, depth) :: pending =>
      entries ← map_errors (λ _, ForbiddenPluginFile) (fs_read_entries directory);
      pending ← pure (check_entries directory depth entries pending);
      tree_loop fuel pending
  end.
(** Every turn visits another directory. *)
Definition validate_plugin_tree (plugin_root : path) : act Disk PluginManagerError unit := λ d,
  tree_loop (S (size (disk_fs d))) [(plugin_root, O)] d.

(** [path.strip_prefix(root)] as a string with [/] between the names *)
Definition relative_text (root p : path) : option string :=
  rest ← below root p;
  name_to_str (str (join_bytes "/"%char (bytes <$> rest))).

Fixpoint collect_files (fuel : nat) (root directory : path) :
    act Disk PluginManagerError (list (string * path)) :=
  match fuel with
  | O => throw InvalidPluginManifest
  | S fuel =>
      entries ← map_errors (λ _, InvalidPluginManifest) (fs_read_entries directory);
      files ← act_map (λ e : string * node,
                let p := directory ++ [e.1] in
                if node_is_dir e.2 then collect_files fuel root p
                else
                  relative ← pure (ok_or (relative_text root p) InvalidPluginManifest);
                  mret [(relative, p)]) entries;
      mret (concat files)
  end.

Section validation.
Context {U : UrlLib} {B : Encoding} {L : RepositoryLib}.

Definition sha256_hex (content : list byte) : string := hex (sha256 content).

(** What the hasher is fed for one file. *)
Definition hash_frame (relative_path : string) (content : list byte) : list byte :=
  be_bytes 8 (str_len relative_path) ++ bytes relative_path ++ be_bytes 8 (zlen content) ++ content.

Definition by_path (a b : string * path) : comparison := String.compare a.1 b.1.

(** The recursion descends at most as deep as the longest path. *)
Definition fs_depth (fs : Fs) : nat := foldr Nat.max O (length <$> (map_to_list fs).*1).

Definition hash_source_tree (plugin_root : path) : act Disk PluginManagerError string := λ d,
  (files ← collect_files (S (fs_depth (disk_fs d))) plugin_root plugin_root;
   frames ← act_map (λ file : string * path,
              content ← map_errors (λ _, InvalidPluginManifest) (fs_read file.2);
              mret (hash_frame file.1 content)) (sort_by by_path files);
   mret (hex (sha256 (concat frames)))) d.

Definition parse_version_requirement (value : string) : result PluginManagerError VersionReq :=
  let value := trim value in
  if str_is_empty value then Err InvalidPluginManifest
  else
    match VersionReq_parse value with
    | Some requirement => Ok requirement
    | None =>
        ok_or (VersionReq_parse (String.concat ", " (split_whitespace value))) InvalidPluginManifest
    end.

(** The loop over the capabilities, and the one over the hosts. *)
Fixpoint check_capabilities (plugin_type : PluginType) (capabilities : list string)
    (seen : gset string) : result PluginManagerError unit :=
  match capabilities with
  | [] => Ok tt
  | capability :: capabilities =>
      if negb (is_match capability_pattern capability) then Err InvalidPluginManifest
      else
        seen ← insert_new InvalidPluginManifest capability seen;
        if negb (capability_is_supported plugin_type capability) then Err InvalidPluginManifest
        else check_capabilities plugin_type capabilities seen
  end.
Fixpoint check_allowed_hosts (hosts : list string) (seen : gset string) :
    result PluginManagerError unit :=
  match hosts with
  | [] => Ok tt
  | host :: hosts =>
      if negb (valid_allowed_host host) then Err InvalidPluginManifest
      else
        seen ← insert_new InvalidPluginManifest host seen;
        check_allowed_hosts hosts seen
  end.

Fixpoint check_origins (allowed_hosts : list string) (origins : list CredentialTargetOrigin)
    (seen : gset string) : result PluginManagerError unit :=
  match origins with
  | [] => Ok tt
  | origin :: origins =>
      seen ← insert_new InvalidPluginManifest (CredentialTargetOrigin_as_str origin) seen;
      parsed ← ok_or (Url_parse (CredentialTargetOrigin_as_str origin)) InvalidPluginManifest;
      host ← ok_or (Url_host_str parsed) InvalidPluginManifest;
      if negb (existsb (λ allowed, allowed_host_matches allowed host) allowed_hosts)
      then Err InvalidPluginManifest
      else check_origins allowed_hosts origins seen
  end.

Definition validate_scope_declaration (manifest : PluginManifest)
    (declaration : CredentialScopeDeclaration) (scopes : gset string) :
    result PluginManagerError (gset string) :=
  let scope := CredentialScope_as_str (CredentialScopeDeclaration_scope declaration) in
  let origins := CredentialScopeDeclaration_target_origins declaration in
  scopes ← insert_new InvalidPluginManifest scope scopes;
  if is_none_or (λ parts, negb (eqb parts.1 (PlatformSpec_id (PluginManifest_platform manifest))))
       (split_once "."%char scope)
     || (zlen origins =? 0)
     || (MAX_CREDENTIAL_TARGET_ORIGINS <? zlen origins)
  then Err InvalidPluginManifest
  else
    check_origins (NetworkPolicy_allowed_hosts (PluginManifest_network manifest)) origins ∅;;
    Ok scopes.

Fixpoint check_declarations (manifest : PluginManifest)
    (declarations : list CredentialScopeDeclaration) (scopes : gset string) :
    result PluginManagerError unit :=
  match declarations with
  | [] => Ok tt
  | declaration :: declarations =>
      scopes ← validate_scope_declaration manifest declaration scopes;
      check_declarations manifest declarations scopes
  end.

Definition is_nil {A} (l : list A) : bool := match l with [] => true | _ => false end.

Definition validate_credential_declarations (manifest : PluginManifest) :
    result PluginManagerError unit :=
  let credentials := PluginManifest_credentials manifest in
  let provided := CredentialDeclarations_provided_scopes credentials in
  let required := CredentialDeclarations_required_scopes credentials in
  let optional := CredentialDeclarations_optional_scopes credentials in
  if MAX_CREDENTIAL_SCOPE_DECLARATIONS <? CredentialDeclarations_declaration_count credentials
  then Err InvalidPluginManifest
  else if match PluginManifest_plugin_type manifest with
          | Content => negb (is_nil provided)
          | Credential => is_nil provided || negb (is_nil required) || negb (is_nil optional)
          end
  then Err InvalidPluginManifest
  else check_declarations manifest (provided ++ required ++ optional) ∅.

(** [policy.reason.as_deref().map(str::trim).filter(|reason| !reason.is_empty())] *)
Definition trimmed_reason (policy : LifecycleScriptPolicy) : option string :=
  reason ← LifecycleScriptPolicy_reason policy;
  if str_is_empty (trim reason) then None else Some (trim reason).

(** [validate_manifest] up to the check of the entry file *)
Definition validate_manifest_fields (manifest : PluginManifest)
    (core_version plugin_api_version : Version) : result PluginManagerError string :=
  if negb (eqb (PluginManifest_schema_version manifest) "1.0")
     || negb (eqb (RuntimeSpec_version (PluginManifest_runtime manifest)) "22")
  then Err InvalidPluginManifest
  else if negb (is_match platform_id_pattern (PlatformSpec_id (PluginManifest_platform manifest)))
  then Err InvalidPluginManifest
  else
    core_requirement ← parse_version_requirement
                         (CompatibilitySpec_core (PluginManifest_compatibility manifest));
    plugin_api_requirement ← parse_version_requirement
                               (CompatibilitySpec_plugin_api (PluginManifest_compatibility manifest));
    if negb (VersionReq_matches core_requirement core_version)
       || negb (VersionReq_matches plugin_api_requirement plugin_api_version)
    then Err IncompatiblePlugin
    else
      check_capabilities (PluginManifest_plugin_type manifest) (PluginManifest_capabilities manifest) ∅;;
      if eqb (PluginManifest_plugin_type manifest) Credential
         && negb (existsb (λ capability, is_some (CredentialMethod_from_capability capability))
                    (PluginManifest_capabilities manifest))
      then Err InvalidPluginManifest
      else
        check_allowed_hosts (NetworkPolicy_allowed_hosts (PluginManifest_network manifest)) ∅;;
        validate_credential_declarations manifest;;
        (let policy := BuildSpec_npm_lifecycle_scripts (PluginManifest_build manifest) in
         if LifecycleScriptPolicy_required policy then
           reason ← ok_or (trimmed_reason policy) InvalidPluginManifest;
           if 240 <? char_count reason then Err InvalidPluginManifest else Ok tt
         else Ok tt);;
        snd <$> normalize_relative_path (RuntimeSpec_entry (PluginManifest_runtime manifest)).

Definition validate_manifest (manifest : PluginManifest) (plugin_root : path)
    (core_version plugin_api_version : Version) : act Disk PluginManagerError unit :=
  entry_path ← pure (validate_manifest_fields manifest core_version plugin_api_version);
  found ← query (path_is_file (resolve plugin_root entry_path));
  if negb found then throw InvalidPluginManifest else mret tt.

(** One turn of the loop over the plugins of the index. *)
Definition validate_plugin (repository_root : path) (core_version plugin_api_version : Version)
    (plugin_reference : RepositoryPluginRef) (plugin_paths plugin_ids : gset string) :
    act Disk PluginManagerError (ValidatedPlugin * gset string * gset string) :=
  paths ← pure (normalize_relative_path (ref_path plugin_reference));
  plugin_paths ← pure (insert_new InvalidPluginPath (to_ascii_lowercase paths.1) plugin_paths);
  let plugin_root := resolve repository_root paths.2 in
  metadata ← map_errors (λ _, InvalidPluginPath) (fs_symlink_metadata plugin_root);
  if negb (node_is_dir metadata) then throw InvalidPluginPath
  else
    validate_plugin_tree plugin_root;;
    manifest_bytes ← map_errors (λ _, InvalidPluginManifest) (fs_read (plugin_root ++ ["audiodown-plugin.json"]));
    manifest ← pure (ok_or (plugin_manifest_from_slice manifest_bytes) InvalidPluginManifest);
    validate_manifest manifest plugin_root core_version plugin_api_version;;
    plugin_ids ← pure (insert_new DuplicatePlugin (PluginId_as_str (PluginManifest_id manifest)) plugin_ids);
    entry ← pure (normalize_relative_path (RuntimeSpec_entry (PluginManifest_runtime manifest)));
    entry_metadata ← map_errors (λ _, InvalidPluginManifest)
                       (fs_symlink_metadata (resolve plugin_root entry.2));
    if negb (node_is_file entry_metadata) then throw InvalidPluginManifest
    else
      let policy := BuildSpec_npm_lifecycle_scripts (PluginManifest_build manifest) in
      let requires_lifecycle_scripts := LifecycleScriptPolicy_required policy in
      validate_package plugin_root requires_lifecycle_scripts;;
      source_hash ← hash_source_tree plugin_root;
      mret (mkValidatedPlugin paths.1 manifest (sha256_hex manifest_bytes) source_hash entry.1
              requires_lifecycle_scripts (trimmed_reason policy), plugin_paths, plugin_ids).

Fixpoint validate_plugins (repository_root : path) (core_version plugin_api_version : Version)
    (references : list RepositoryPluginRef) (plugin_paths plugin_ids : gset string) :
    act Disk PluginManagerError (list ValidatedPlugin) :=
  match references with
  | [] => mret []
  | reference :: references =>
      turn ← validate_plugin repository_root core_version plugin_api_version reference
               plugin_paths plugin_ids;
      plugins ← validate_plugins repository_root core_version plugin_api_version references
                  turn.1.2 turn.2;
      mret (turn.1.1 :: plugins)
  end.

Definition validate_repository (repository_root : path) (core_version plugin_api_version : Version)
    (limits : SnapshotLimits) : act Disk PluginManagerError ValidatedRepository :=
  index_bytes ← map_errors (λ _, InvalidRepositoryIndex)
                  (fs_read (repository_root ++ ["audiodown-repository.json"]));
  index ← pure (ok_or (index_from_slice index_bytes) InvalidRepositoryIndex);
  pure (validate_repository_metadata index);;
  if max_plugins limits <? zlen (index_plugins index) then throw InvalidRepositoryIndex
  else
    plugins ← validate_plugins repository_root (compatibility_version core_version)
                (compatibility_version plugin_api_version) (index_plugins index) ∅ ∅;
    mret (mkValidatedRepository (metadata_id (index_repository index))
            (metadata_name (index_repository index)) plugins).
End validation.
