(* ===== verification/PluginRepositoryProps.v ===== *)
(** * Properties of plugin repositories

    The downloaded archive is bounded; validating a repository only reads, and
    what it accepts has the properties the installer relies on; the source hash
    covers the whole tree of a plugin. *)

From S2P Require Import Prelude Text Std Domain Foreign CredentialContract Policy PolicyFacts Stateful.
From S2P Require Import Fs ContainerPolicy PluginManager PluginArchive PluginRepository.

(** ** Downloading *)

Section download.
Context {U : UrlLib} {B : Encoding} {L : RepositoryLib} {W : Type} {H : GitHubHttp W}.

Lemma snapshot_io_Ok {A} (m : act Disk IoError A) d a d' : snapshot_io m d = (Ok a, d') → m d = (Ok a, d').
Proof. apply map_errors_Ok. Qed.

Lemma write_chunks_Ok temporary size chunks d d' written :
  disk_fs d !! temporary = Some (File written) → zlen written = size → size ≤ MAX_ARCHIVE_BYTES →
  write_chunks temporary size chunks d = (Ok tt, d') →
  ∃ rest, response_bytes chunks = Some rest ∧ disk_fs d' !! temporary = Some (File (written ++ rest)) ∧
    zlen (written ++ rest) ≤ MAX_ARCHIVE_BYTES.
Proof.
  revert size d written. induction chunks as [|chunk chunks IH]; intros size d written Hw Hs Hm H0;
    cbn [write_chunks] in H0.
  - act_steps. exists []. rewrite app_nil_r. done.
  - apply act_bind_Ok in H0 as (bytes & d1 & [Hc%ok_or_Ok ->]%pure_Ok & H0). subst chunk.
    apply act_bind_Ok in H0 as (size' & d1 & [[Hc _]%ok_or_Ok%checked_add_Some ->]%pure_Ok & H0).
    act_step. bool_prop. apply act_bind_Ok in H0 as ([] & d1 & Ha%snapshot_io_Ok%syscall_Ok & H0).
    rewrite Hw in Ha. injection Ha as Ha.
    apply (IH _ _ (written ++ bytes)) in H0 as (rest & Hr & Hf & Hz);
      [|by rewrite <- Ha, lookup_insert_eq|unfold zlen in *; rewrite length_app; lia|done].
    exists (bytes ++ rest). cbn [response_bytes]. rewrite Hr, app_assoc. done.
Qed.

Lemma store_archive_Ok response destination d p d' :
  store_archive response destination d = (Ok p, d') →
  p = destination ++ ["snapshot.tar.gz"] ∧
  ∃ content, response_bytes (response_chunks response) = Some content ∧
    disk_fs d' !! p = Some (File content) ∧ zlen content ≤ MAX_ARCHIVE_BYTES.
Proof.
  unfold store_archive. intros H0%on_error_Ok.
  apply act_bind_Ok in H0 as ([] & d1 & Hc%snapshot_io_Ok%syscall_Ok & H0).
  apply act_bind_Ok in H0 as ([] & d2 & Hw & H0).
  apply act_bind_Ok in H0 as ([] & d3 & Hs%snapshot_io_Ok%fs_sync_Ok & H0).
  apply act_bind_Ok in H0 as ([] & d4 & Hr%snapshot_io_Ok & H0). act_steps. split; [done|].
  apply (write_chunks_Ok _ _ _ _ _ []) in Hw as (content & Hb & Hf & Hz); [|..|done|done].
  - exists content. split; [done|]. rewrite <- Hs in Hf. apply (rename_file_Ok _ _ content) in Hr; [|done].
    by rewrite Hr, lookup_insert_eq.
  - destruct (disk_fs d !! _) as [[]|]; try done; destruct (negb _); try done; injection Hc as <-;
      by rewrite lookup_insert_eq.
Qed.

(** The archive of a successful download is the whole body of the response to a
    request for [url], and at most 16 MiB long, whatever length the response announced. *)
Theorem download_bounded url destination d w p d' w' :
  download_archive url destination (d, w) = (Ok p, (d', w')) →
  ∃ response content, http_get url w = (Some response, w') ∧ response_success response = true ∧
    response_bytes (response_chunks response) = Some content ∧
    p = destination ++ ["snapshot.tar.gz"] ∧ disk_fs d' !! p = Some (File content) ∧
    zlen content ≤ MAX_ARCHIVE_BYTES.
Proof.
  unfold download_archive. intros H0. apply act_bind_Ok in H0 as (response & [d1 w1] & Hn & H0).
  unfold on_net, focus in Hn. simpl in Hn. destruct (send url w) as [r w2] eqn:Es. injection Hn as -> <- <-.
  unfold send in Es. apply act_bind_Ok in Es as (found & w3 & Hg%query_inv & Es).
  apply act_bind_Ok in Es as (response' & w4 & [Hf%ok_or_Ok ->]%pure_Ok & Es).
  do 2 act_step. apply act_ret_Ok in Es as [-> ->]. unfold on_disk_of, focus in H0. simpl in H0. subst found.
  destruct (store_archive response' destination d) as [r d2] eqn:Est. injection H0 as -> <- <-.
  apply store_archive_Ok in Est as (-> & content & Hb & Hf & Hz). bool_prop. by exists response', content.
Qed.
End download.

(** ** Hosts: the check at installation and the check of the proxy *)

Lemma valid_host_label_label label : valid_host_label label = valid_label label.
Proof.
  unfold valid_host_label, valid_label.
  destruct (negb (str_is_empty label)), (str_len label <=? 63), (negb (starts_with label "-")),
    (negb (ends_with label "-")), (str_all _ label); done.
Qed.

(** The host of an accepted pattern is a host name. *)
Lemma valid_allowed_host_name value :
  valid_allowed_host value = true → valid_hostname (default value (strip_prefix value "*.")) = true.
Proof.
  unfold valid_allowed_host. set (host := default value (strip_prefix value "*.")). intros H.
  destruct (str_is_empty value) eqn:E1; [done|]. destruct (negb _) eqn:E2; [done|].
  destruct (253 <? _) eqn:E3; [done|]. simpl in H.
  destruct (str_contains host "*"%char); [done|]. destruct (eqb host "localhost"); [done|].
  destruct (ends_with host ".localhost"); [done|]. destruct (is_some (IpAddr_parse host)) eqn:E4; [done|].
  destruct (str_contains host "."%char) eqn:E5; [|done]. simpl in H.
  assert (str_len host ≤ str_len value) as Hlen.
  { unfold host. destruct (strip_prefix value "*.") as [suffix|] eqn:Es; [|done].
    apply strip_star in Es as ->. rewrite !str_len_bytes, bytes_app. unfold zlen. rewrite length_app. simpl. lia. }
  unfold valid_hostname. rewrite E4. bool_prop.
  assert (str_is_empty host = false) as ->.
  { apply str_is_empty_false. intros ->. done. }
  assert ((str_len host >? 253) = false) as -> by (rewrite Z.gtb_ltb; apply Z.ltb_ge; lia). simpl.
  etrans; [|exact H]. clear. induction (split _ host) as [|label l IH]; [done|]. simpl.
  by rewrite IH, valid_host_label_label.
Qed.

(** An accepted pattern is in the proxy's normal form. *)
Lemma normalize_star suffix :
  valid_hostname suffix = true → normalize_host ("*." +:+ suffix) = "*." +:+ suffix.
Proof.
  intros Hv. pose proof (normalize_host_valid _ Hv) as Hn. apply (inj bytes).
  destruct (valid_hostname_last _ Hv) as (l & x & Heq & Hx).
  unfold normalize_host, trim_end_matches, to_ascii_lowercase in *. rewrite !bytes_str.
  apply (f_equal bytes) in Hn. rewrite !bytes_str in Hn. rewrite !bytes_app in *.
  assert (rev (drop_while (eqb "."%char) (rev (bytes suffix))) = bytes suffix) as Hr.
  { rewrite Heq, rev_app_distr. simpl. destruct (eqb _ x) eqn:E; bool_prop; [by subst|].
    simpl. by rewrite rev_involutive. }
  rewrite Hr in Hn.
  assert (rev (drop_while (eqb "."%char) (rev (bytes "*." ++ bytes suffix))) = bytes "*." ++ bytes suffix) as ->.
  { rewrite Heq, app_assoc, rev_app_distr. simpl. destruct (eqb _ x) eqn:E; bool_prop; [by subst|].
    cbn [rev]. by rewrite !rev_app_distr, rev_involutive. }
  rewrite map_app, Hn. done.
Qed.

Lemma normalize_allowed_host allowed :
  valid_allowed_host allowed = true → normalize_host allowed = allowed.
Proof.
  intros Hv%valid_allowed_host_name. destruct (strip_prefix allowed "*.") as [suffix|] eqn:Es; simpl in Hv.
  - apply strip_star in Es as ->. by apply normalize_star.
  - by apply normalize_host_valid.
Qed.

(** The three tests of the installer say that the host ends in a dot and the suffix. *)
Lemma wildcard_tests host suffix :
  (str_len suffix <? str_len host) && ends_with host suffix
    && eqb (bytes host !! (String.length host - String.length suffix - 1)%nat) (Some "."%char)
  = ends_with host ("." +:+ suffix).
Proof.
  apply eq_true_iff_eq. rewrite !andb_true_iff, !ends_with_true, eqb_eq, Z.ltb_lt. split.
  - intros [[Hlen [k ->]] Hdot]. rewrite !str_len_bytes, bytes_app in Hlen. unfold zlen in Hlen.
    rewrite length_app in Hlen.
    rewrite <- !length_bytes, bytes_app, length_app in Hdot.
    replace (length (bytes k) + length (bytes suffix) - length (bytes suffix) - 1)%nat
      with (length (bytes k) - 1)%nat in Hdot by lia.
    rewrite lookup_app_l in Hdot by lia.
    destruct (bytes k) as [|x l _] eqn:Ek using rev_ind; [simpl in Hlen; lia|].
    rewrite length_app in Hdot. simpl in Hdot. rewrite Nat.add_sub in Hdot.
    rewrite lookup_app_r, Nat.sub_diag in Hdot by lia. injection Hdot as ->.
    exists (str l). apply (inj bytes). rewrite !bytes_app, Ek, bytes_str, <- app_assoc. done.
  - intros [k ->]. split; [split|].
    + rewrite !str_len_bytes, !bytes_app. unfold zlen. rewrite !length_app. simpl. lia.
    + exists (k +:+ "."). by rewrite str_app_assoc.
    + rewrite <- !length_bytes, !bytes_app, !length_app. simpl.
      replace (length (bytes k) + S (length (bytes suffix)) - length (bytes suffix) - 1)%nat
        with (length (bytes k)) by lia.
      by rewrite lookup_app_r, Nat.sub_diag by lia.
Qed.

(** For a pattern the installer accepts, the proxy lets a host through exactly when
    the installer's check of declared origins matches it and, for a wildcard, it
    has one label more than the suffix: the installer accepts origins of any depth
    below the suffix, the proxy of one. *)
Theorem installed_pattern_matches allowed host :
  valid_allowed_host allowed = true → valid_hostname host = true →
  HostPattern_matches (HostPattern_parse allowed) host = true ↔
  allowed_host_matches allowed host = true ∧
  ∀ suffix, strip_prefix allowed "*." = Some suffix →
    length (split "."%char host) = (length (split "."%char suffix) + 1)%nat.
Proof.
  intros Ha Hv. rewrite (host_pattern_spec _ _ Hv), (normalize_allowed_host _ Ha).
  pose proof (valid_allowed_host_name _ Ha) as Hname. unfold allowed_host_matches.
  destruct (strip_prefix allowed "*.") as [suffix|] eqn:Es; simpl in Hname.
  - rewrite wildcard_tests. apply strip_star in Es as ->. split.
    + intros [<-|(label & suffix' & Heq & [Hs Hl] & ->)].
      * exfalso. eapply (valid_hostname_not_pattern _ "*"%char); [naive_solver|exact Hv|].
        rewrite bytes_app. set_solver.
      * apply (inj (String.append _)) in Heq as <-.
        destruct (proj2 (wildcard_match (label +:+ "." +:+ suffix) suffix)) as [H1 H2].
        { exists label. split; [by apply valid_label_free|done]. }
        split; [done|]. by intros ? [= <-].
    + intros [H1 H2]. right.
      destruct (proj1 (wildcard_match host suffix)) as (label & Hfree & ->); [split; [done|by apply H2]|].
      exists label, suffix. split_and!; [done..|by eapply wildcard_label|done].
  - rewrite eqb_eq. split.
    + intros [->|(label & suffix & Heq & _)]; [done|]. apply strip_star in Heq. congruence.
    + intros [-> _]. by left.
Qed.

(** The two checks differ: an origin two labels below the suffix is accepted at
    installation and refused by the proxy. *)
Lemma wildcard_depth_differs :
  valid_allowed_host "*.example.com" = true ∧
  allowed_host_matches "*.example.com" "a.b.example.com" = true ∧
  HostPattern_matches (HostPattern_parse "*.example.com") "a.b.example.com" = false.
Proof. vm_compute. done. Qed.

(** ** Reading the tree *)

Definition same_fs : relation Disk := λ d d', disk_fs d' = disk_fs d.
Global Instance same_fs_preorder : PreOrder same_fs.
Proof. split; [done|]. intros a b c Hab Hbc. unfold same_fs in *. congruence. Qed.

Lemma syscall_same_fs {A} (f : Fs → result IoError (A * Fs)) :
  (∀ fs a fs', f fs = Ok (a, fs') → fs' = fs) → moves same_fs (syscall f).
Proof.
  intros Hf d. apply map_eq. intros k.
  by destruct (syscall_reads (λ _, False) f Hf d k).
Qed.

Lemma fs_read_same p : moves same_fs (fs_read p).
Proof. apply syscall_same_fs. intros fs a fs'. destruct (fs !! p) as [[]|]; naive_solver. Qed.
Lemma fs_symlink_metadata_same p : moves same_fs (fs_symlink_metadata p).
Proof. apply syscall_same_fs. intros fs a fs'. destruct (fs !! p) as [[]|]; naive_solver. Qed.
Lemma fs_read_entries_same p : moves same_fs (fs_read_entries p).
Proof.
  apply syscall_same_fs. intros fs a fs'. destruct (is_dir fs p); [naive_solver|]. destruct (is_some _); naive_solver.
Qed.
Lemma path_is_file_same p d : same_fs d (path_is_file p d).2.
Proof.
  unfold path_is_file. pose proof (fs_symlink_metadata_same p d) as Hm.
  by destruct (fs_symlink_metadata p d) as [[]].
Qed.

Lemma fs_read_entries_Ok p d entries d' :
  fs_read_entries p d = (Ok entries, d') →
  disk_fs d !! p = Some Dir ∧ entries = children p (disk_fs d) ∧ disk_fs d' = disk_fs d.
Proof.
  intros H%syscall_Ok. destruct (is_dir (disk_fs d) p) eqn:E; [|by destruct (is_some _)].
  unfold is_dir in E. bool_prop. injection H as H1 H2. done.
Qed.

Lemma tree_loop_same fuel pending : moves same_fs (tree_loop fuel pending).
Proof.
  revert pending. induction fuel as [|fuel IH]; intros [|[directory depth] pending]; cbn [tree_loop]; moves.
  - apply fs_read_entries_same.
  - apply IH.
Qed.

Lemma collect_files_same fuel root directory : moves same_fs (collect_files fuel root directory).
Proof.
  revert directory. induction fuel as [|fuel IH]; intros directory; cbn [collect_files]; moves.
  - apply fs_read_entries_same.
  - apply IH.
Qed.

(** A name the tree of a plugin may hold, [depth] directories below its root. *)
Definition permitted (depth : nat) (name : string) : Prop :=
  forbidden_name name = false ∧
  (depth ≠ O → name ≠ "package.json" ∧ name ≠ "package-lock.json").

Lemma name_to_str_Some name text : name_to_str name = Some text → text = name.
Proof. unfold name_to_str, from_utf8. destruct (utf8_valid _ _); [|done]. intros [= <-]. apply str_bytes. Qed.

Lemma check_entries_Ok directory depth entries pending pending' :
  check_entries directory depth entries pending = Ok pending' →
  (∀ e, e ∈ entries → permitted depth e.1) ∧ (∀ e, e ∈ pending → e ∈ pending') ∧
  (∀ e, e ∈ entries → e.2 = Dir → (directory ++ [e.1], S depth) ∈ pending').
Proof.
  revert pending. induction entries as [|[name n] entries IH]; intros pending H; simpl in H.
  - injection H as ->. split_and!; set_solver.
  - apply bind_Ok in H as (text & Ht%ok_or_Ok%name_to_str_Some & H). subst text.
    result_step. apply IH in H as (H1 & H2 & H3). bool_prop. split_and!.
    + intros e [->|He]%elem_of_cons; [|by apply H1]. split; [done|]. intros Hd. simpl.
      destruct ((0 <? depth)%nat) eqn:Ed; [|apply Nat.ltb_ge in Ed; lia].
      rename select (true && _ = false) into Hp. simpl in Hp. bool_prop. done.
    + intros e He. apply H2. destruct (node_is_dir n); set_solver.
    + intros e [->|He]%elem_of_cons Hdir; [|by apply H3]. simpl in *. subst n. apply H2. simpl. set_solver.
Qed.

Lemma check_entries_below directory depth entries pending pending' :
  check_entries directory depth entries pending = Ok pending' →
  ∀ e, e ∈ pending' → e ∈ pending ∨ ∃ name, e.1 = directory ++ [name].
Proof.
  revert pending. induction entries as [|[name n] entries IH]; intros pending H e He; simpl in H.
  - injection H as ->. by left.
  - apply bind_Ok in H as (text & _ & H). result_step. destruct (IH _ H e He) as [Hp|?]; [|by right].
    destruct (node_is_dir n); [|by left]. apply elem_of_cons in Hp as [->|?]; [right; by exists name|by left].
Qed.

(** Below [p] every entry lies in a directory. *)
Definition tree_below (p : path) (fs : Fs) : Prop :=
  ∀ r x, is_Some (fs !! (p ++ r ++ [x])) → fs !! (p ++ r) = Some Dir.

Lemma tree_below_above p fs r s :
  tree_below p fs → is_Some (fs !! (p ++ r ++ s)) → s ≠ [] → fs !! (p ++ r) = Some Dir.
Proof.
  intros Ht. induction s as [|x s IH] using rev_ind; [done|]. rewrite (app_assoc r). intros Hx%Ht _.
  destruct s as [|y s]; [by rewrite app_nil_r in Hx|]. apply IH; [by eexists|done].
Qed.

Lemma tree_below_inner p r fs : tree_below p fs → tree_below (p ++ r) fs.
Proof. intros Ht s x. rewrite <- !app_assoc, (app_assoc r). apply Ht. Qed.

Lemma tree_tree_below p fs : tree fs → tree_below p fs.
Proof. intros Ht r x. rewrite app_assoc. apply Ht. Qed.

Lemma tree_loop_Ok fuel pending d d' :
  (∀ e, e ∈ pending → tree_below e.1 (disk_fs d)) → tree_loop fuel pending d = (Ok tt, d') →
  ∀ directory depth r name, (directory, depth) ∈ pending →
    is_Some (disk_fs d !! (directory ++ r ++ [name])) → permitted (depth + length r) name.
Proof.
  revert pending d. induction fuel as [|fuel IH]; intros [|[top depth0] pending] d Htree H directory depth r name Hin Hs;
    cbn [tree_loop] in H; [set_solver..|].
  apply act_bind_Ok in H as (entries & d1 & He%map_errors_Ok%fs_read_entries_Ok & H).
  apply act_bind_Ok in H as (pending' & d2 & [Hc ->]%pure_Ok & H). destruct He as (Hdir & -> & Hd).
  pose proof (check_entries_below _ _ _ _ _ Hc) as Hbelow.
  apply check_entries_Ok in Hc as (H1 & H2 & H3). rewrite <- Hd in Htree, Hs.
  assert (∀ e, e ∈ pending' → tree_below e.1 (disk_fs d1)) as Htree'.
  { intros e [He|[name' ->]]%Hbelow; [apply Htree; by right|]. apply tree_below_inner, (Htree (top, depth0)). by left. }
  specialize (IH _ _ Htree' H). apply elem_of_cons in Hin as [[= -> ->]|Hin]; [|by eapply IH; [apply H2|]].
  destruct r as [|x r].
  - destruct Hs as [v Hv]. simpl in Hv. rewrite Hd in Hv. apply elem_of_children in Hv.
    rewrite Nat.add_0_r. by apply (H1 (name, v)).
  - replace (depth0 + length (x :: r))%nat with (S depth0 + length r)%nat by (simpl; lia).
    assert (top ++ (x :: r) ++ [name] = (top ++ [x]) ++ r ++ [name]) as E by (by rewrite <- app_assoc).
    pose proof Hs as Hs'. rewrite E in Hs. eapply IH; [|exact Hs]. apply (H3 (x, Dir)); [|done].
    apply elem_of_children. rewrite <- Hd.
    eapply (tree_below_above _ _ [x] (r ++ [name])); [apply (Htree (top, depth0)); by left|exact Hs'|by destruct r].
Qed.

(** *** The scan ends *)

Lemma below_snoc dir n k :
  below (dir ++ [n]) k = match below dir k with Some (x :: r) => if decide (n = x) then Some r else None | _ => None end.
Proof.
  revert k. induction dir as [|y dir IH]; intros k; simpl.
  - destruct k as [|x k]; [done|]. by destruct (decide (n = x)).
  - destruct k as [|x k]; [done|]. destruct (decide (y = x)); [apply IH|done].
Qed.

Definition inside (dir : path) (k : path) : nat := if is_some (below dir k) then 1 else 0.
Definition entries_inside (dir : path) (keys : list path) : nat := foldr (λ k n, inside dir k + n)%nat O keys.
Definition sum_over {A} (f : A → nat) (l : list A) : nat := foldr (λ a n, f a + n)%nat O l.

Lemma sum_over_app {A} (f : A → nat) l k : sum_over f (l ++ k) = (sum_over f l + sum_over f k)%nat.
Proof. induction l as [|a l IH]; simpl; lia. Qed.

Lemma inside_children dir names k :
  NoDup names →
  (sum_over (λ n, inside (dir ++ [n]) k) names + (if decide (k = dir) then 1 else 0) ≤ inside dir k)%nat.
Proof.
  intros Hn. unfold inside at 2. destruct (below dir k) as [[|x r]|] eqn:E; simpl.
  - assert (∀ n, inside (dir ++ [n]) k = O) as H0 by (intros n; unfold inside; by rewrite below_snoc, E).
    assert (sum_over (λ n, inside (dir ++ [n]) k) names = O) as ->.
    { clear Hn. induction names as [|n names IH]; simpl; [done|]. by rewrite H0. }
    destruct (decide _); lia.
  - rewrite decide_False by (intros ->; by rewrite below_self in E).
    assert (∀ n, inside (dir ++ [n]) k = if decide (n = x) then 1%nat else O) as H0.
    { intros n. unfold inside. rewrite below_snoc, E. by destruct (decide (n = x)). }
    enough (sum_over (λ n, inside (dir ++ [n]) k) names ≤ if decide (x ∈ names) then 1 else 0)%nat
      by (destruct (decide (x ∈ names)); lia).
    induction Hn as [|n names Hnin _ IH]; simpl; [lia|]. rewrite H0.
    destruct (decide (n = x)) as [->|Hne].
    + rewrite (decide_False (P := x ∈ names)) in IH by done. rewrite decide_True by set_solver. lia.
    + destruct (decide (x ∈ names)) as [Hin|Hin].
      * rewrite decide_True by set_solver. lia.
      * rewrite decide_False by set_solver. lia.
  - rewrite decide_False by (intros ->; by rewrite below_self in E).
    assert (sum_over (λ n, inside (dir ++ [n]) k) names = O) as ->; [|lia].
    clear Hn. induction names as [|n names IH]; simpl; [done|]. unfold inside at 1. by rewrite below_snoc, E, IH.
Qed.

Lemma entries_inside_children dir names keys :
  NoDup names → dir ∈ keys →
  (sum_over (λ n, entries_inside (dir ++ [n]) keys) names < entries_inside dir keys)%nat.
Proof.
  intros Hn Hin.
  assert (∀ keys, (sum_over (λ n, entries_inside (dir ++ [n]) keys) names
    + sum_over (λ k, if decide (k = dir) then 1 else 0)%nat keys ≤ entries_inside dir keys)%nat) as Hall.
  { clear keys Hin. intros keys. induction keys as [|k keys IH]; simpl.
    - induction names as [|n names IH]; simpl; [done|]. apply NoDup_cons in Hn as [_ Hn]. auto.
    - pose proof (inside_children dir names k Hn) as Hk.
      assert (sum_over (λ n, inside (dir ++ [n]) k + entries_inside (dir ++ [n]) keys)%nat names
        = (sum_over (λ n, inside (dir ++ [n]) k) names
           + sum_over (λ n, entries_inside (dir ++ [n]) keys) names)%nat) as E.
      { clear. induction names as [|n names IH]; simpl; lia. }
      unfold entries_inside in *. simpl. rewrite E. lia. }
  specialize (Hall keys).
  assert (1 ≤ sum_over (λ k, if decide (k = dir) then 1 else 0)%nat keys)%nat; [|lia].
  clear Hall. induction keys as [|k keys IH]; [set_solver|]. simpl.
  apply elem_of_cons in Hin as [<-|Hin]; [rewrite decide_True by done; lia|]. specialize (IH Hin). lia.
Qed.

Definition fs_keys (fs : Fs) : list path := (map_to_list fs).*1.

Lemma elem_of_fs_keys fs k : k ∈ fs_keys fs ↔ is_Some (fs !! k).
Proof.
  unfold fs_keys. rewrite list_elem_of_fmap. split.
  - intros ([k' v] & -> & H%elem_of_map_to_list). by exists v.
  - intros [v H]. exists (k, v). split; [done|]. by apply elem_of_map_to_list.
Qed.

Lemma children_names p fs : NoDup (children p fs).*1.
Proof.
  unfold children. pose proof (NoDup_fst_map_to_list fs) as Hn.
  induction (map_to_list fs) as [|[k v] l IH]; simpl; [by apply NoDup_nil|].
  apply NoDup_cons in Hn as [Hk Hn]. destruct (below p k) as [[|name [|]]|] eqn:E; try by apply IH.
  simpl. apply NoDup_cons. split; [|by apply IH]. intros Hin. apply Hk.
  apply list_elem_of_fmap in Hin as ([name' v'] & Hname & Hin). simpl in Hname. subst name'.
  apply list_elem_of_omap in Hin as ([k' v''] & Hin & Hs). simpl in Hs.
  destruct (below p k') as [[|n [|]]|] eqn:E'; simplify_eq.
  apply below_Some in E as ->. apply below_Some in E' as ->. apply list_elem_of_fmap. by exists (p ++ [name], v').
Qed.

(** What is left to visit. *)
Definition turns (keys : list path) (pending : list (path * nat)) : nat :=
  sum_over (λ e, Nat.max 1 (entries_inside e.1 keys)) pending.

Lemma entries_inside_pos dir keys : dir ∈ keys → (1 ≤ entries_inside dir keys)%nat.
Proof.
  induction keys as [|k keys IH]; [set_solver|]. unfold entries_inside in *. simpl.
  intros [<-|Hin]%elem_of_cons; [unfold inside; rewrite below_self; simpl; lia|]. specialize (IH Hin). lia.
Qed.

Lemma check_entries_turns keys directory depth entries pending pending' :
  (∀ e, e ∈ entries → directory ++ [e.1] ∈ keys) →
  check_entries directory depth entries pending = Ok pending' →
  (turns keys pending' ≤ turns keys pending
   + sum_over (λ n, entries_inside (directory ++ [n]) keys) entries.*1)%nat.
Proof.
  revert pending. induction entries as [|[name n] entries IH]; intros pending Hk H; simpl in H.
  - injection H as ->. simpl. lia.
  - apply bind_Ok in H as (text & _ & H). result_step. apply IH in H; [|intros e He; apply Hk; set_solver].
    pose proof (entries_inside_pos (directory ++ [name]) keys (Hk (name, n) ltac:(set_solver))) as Hp.
    rewrite fmap_cons. unfold turns, sum_over in *. destruct (node_is_dir n); cbn [foldr fst] in *; lia.
Qed.

Lemma tree_loop_fuel fuel extra pending d :
  (turns (fs_keys (disk_fs d)) pending ≤ fuel)%nat →
  tree_loop (fuel + extra) pending d = tree_loop fuel pending d.
Proof.
  revert pending d. induction fuel as [|fuel IH]; intros [|[top depth] pending] d Ht; simpl in Ht.
  - by destruct extra.
  - lia.
  - done.
  - cbn [Nat.add tree_loop]. unfold mbind at 1 3, act_bind at 1 3.
    destruct (map_errors _ (fs_read_entries top) d) as [[entries|e] d1] eqn:He; [|done].
    apply map_errors_Ok, fs_read_entries_Ok in He as (Hdir & -> & Hd).
    unfold mbind, act_bind, pure. destruct (check_entries _ _ _ _) as [pending'|] eqn:Hc; [|done].
    apply IH. rewrite Hd. apply (check_entries_turns (fs_keys (disk_fs d))) in Hc.
    + pose proof (entries_inside_children top (children top (disk_fs d)).*1 (fs_keys (disk_fs d))
        (children_names _ _)) as Hlt.
      specialize (Hlt (proj2 (elem_of_fs_keys _ _) (ex_intro _ _ Hdir))). lia.
    + intros [name v] Hin. apply elem_of_fs_keys. apply elem_of_children in Hin. by eexists.
Qed.

Lemma entries_inside_le dir keys : (entries_inside dir keys ≤ length keys)%nat.
Proof.
  induction keys as [|k keys IH]; [done|]. unfold entries_inside in *. simpl. unfold inside at 1.
  destruct (is_some _); lia.
Qed.

(** *** The files of a tree *)

Lemma fs_depth_le fs k : is_Some (fs !! k) → (length k ≤ fs_depth fs)%nat.
Proof.
  intros Hk%elem_of_fs_keys. unfold fs_depth, fs_keys in *.
  induction (map_to_list fs).*1 as [|k' l IH]; [set_solver|]. rewrite fmap_cons. cbn [foldr].
  apply elem_of_cons in Hk as [->|Hk]; [lia|]. specialize (IH Hk). lia.
Qed.

Lemma act_map_ext {S E A C} (f g : A → act S E C) (P : S → Prop) l s :
  (∀ x s, x ∈ l → P s → f x s = g x s) → (∀ x s, x ∈ l → P s → P (f x s).2) → P s →
  act_map f l s = act_map g l s.
Proof.
  revert s. induction l as [|x l IH]; intros s Hfg Hp Hs; [done|]. cbn [act_map]. unfold mbind, act_bind.
  rewrite <- (Hfg x s) by set_solver. pose proof (Hp x s ltac:(set_solver) Hs) as H1.
  destruct (f x s) as [[y|e] s1]; [|done]. simpl in H1. rewrite (IH s1); [done|..|done].
  - intros ????. apply Hfg; set_solver.
  - intros ????. apply Hp; set_solver.
Qed.

Lemma collect_files_fuel fuel extra root directory d :
  (1 ≤ fuel)%nat → (fs_depth (disk_fs d) < fuel + length directory)%nat →
  collect_files (fuel + extra) root directory d = collect_files fuel root directory d.
Proof.
  revert directory d. induction fuel as [|fuel IH]; intros directory d H1 Hd; [lia|].
  cbn [Nat.add collect_files]. unfold mbind at 1 4, act_bind at 1 4.
  destruct (map_errors _ (fs_read_entries directory) d) as [[entries|e] d1] eqn:He; [|done].
  apply map_errors_Ok, fs_read_entries_Ok in He as (Hdir & -> & Hd1).
  unfold mbind at 1 3, act_bind at 1 3.
  rewrite (act_map_ext _ (λ e : string * node,
    let p := directory ++ [e.1] in
    if node_is_dir e.2 then collect_files fuel root p
    else relative ← pure (ok_or (relative_text root p) InvalidPluginManifest); mret [(relative, p)])
    (λ s, disk_fs s = disk_fs d)); [done|..|done].
  - intros [name n] s Hin Hs. simpl. destruct (node_is_dir n) eqn:En; [|done].
    apply elem_of_children in Hin.
    assert (length (directory ++ [name]) ≤ fs_depth (disk_fs d))%nat as Hl by (by apply fs_depth_le; eexists).
    rewrite length_app in Hl. simpl in Hl. apply IH; [lia|]. rewrite Hs, length_app. simpl. lia.
  - intros [name n] s Hin Hs. simpl. rewrite <- Hs. destruct (node_is_dir n).
    + apply collect_files_same.
    + unfold mbind, act_bind, pure. by destruct (ok_or _ _).
Qed.

(** The scan of a plugin's tree and the collection of its files end: more turns
    than the fuel gives them would not change the answer. *)
Theorem tree_scans_end root d extra :
  tree_loop (S (size (disk_fs d)) + extra) [(root, O)] d = validate_plugin_tree root d ∧
  collect_files (S (fs_depth (disk_fs d)) + extra) root root d
  = collect_files (S (fs_depth (disk_fs d))) root root d.
Proof.
  split.
  - apply tree_loop_fuel. unfold turns. simpl. pose proof (entries_inside_le root (fs_keys (disk_fs d))) as Hl.
    assert (length (fs_keys (disk_fs d)) = size (disk_fs d)) as E.
    { unfold fs_keys. rewrite length_fmap. apply length_map_to_list. }
    lia.
  - apply collect_files_fuel; lia.
Qed.

Lemma act_map_Forall2 {S E A C} (f : A → act S E C) (P : S → Prop) l ys s s' :
  (∀ x s, P s → P (f x s).2) → P s → act_map f l s = (Ok ys, s') →
  P s' ∧ Forall2 (λ x y, ∃ s1 s2, P s1 ∧ f x s1 = (Ok y, s2)) l ys.
Proof.
  intros Hp. revert s ys. induction l as [|x l IH]; intros s ys Hs H.
  - cbn [act_map] in H. apply act_ret_Ok in H as [-> ->]. done.
  - apply act_map_Ok in H as (y & s1 & ys' & Hx & Hl & ->).
    pose proof (Hp x s Hs) as H1. rewrite Hx in H1. apply IH in Hl as [? ?]; [|done].
    split; [done|]. constructor; [|done]. by exists s, s1.
Qed.

Lemma collect_entry_same fuel root directory (e : string * node) s d :
  disk_fs s = disk_fs d →
  disk_fs ((let p := directory ++ [e.1] in
    if node_is_dir e.2 then collect_files fuel root p
    else relative ← pure (ok_or (relative_text root p) InvalidPluginManifest); mret [(relative, p)]) s).2
  = disk_fs d.
Proof.
  intros <-. cbn zeta. destruct (node_is_dir e.2); [apply collect_files_same|].
  unfold mbind, act_bind, pure. by destruct (ok_or _ _).
Qed.

(** The collected files are those below the directory, each with its path as text. *)
Lemma collect_files_Ok fuel root directory d files d' :
  tree_below directory (disk_fs d) → collect_files fuel root directory d = (Ok files, d') →
  disk_fs d !! directory = Some Dir ∧
  (∀ file, file ∈ files → ∃ r content, file.2 = directory ++ r ∧
     disk_fs d !! file.2 = Some (File content) ∧ relative_text root file.2 = Some file.1) ∧
  (∀ r content, disk_fs d !! (directory ++ r) = Some (File content) →
     ∃ relative, (relative, directory ++ r) ∈ files).
Proof.
  revert directory d files d'. induction fuel as [|fuel IH]; intros directory d files d' Htree H;
    cbn [collect_files] in H; [done|].
  apply act_bind_Ok in H as (entries & d1 & He%map_errors_Ok%fs_read_entries_Ok & H).
  destruct He as (Hdir & -> & Hd1). apply act_bind_Ok in H as (parts & d2 & Hm & H).
  apply act_ret_Ok in H as [-> _]. split; [done|].
  apply (act_map_Forall2 _ (λ s, disk_fs s = disk_fs d)) in Hm as [_ Hm];
    [|intros e s; apply collect_entry_same|done]. split.
  - intros file (part & Hpart & Hin)%list_elem_of_In%in_concat. apply list_elem_of_In in Hpart, Hin.
    apply list_elem_of_lookup in Hpart as [i Hi].
    destruct (Forall2_lookup_r _ _ _ _ _ Hm Hi) as ([name n] & Hx & s1 & s2 & Hs & Hf).
    apply list_elem_of_lookup_2, elem_of_children in Hx. cbn zeta in Hf. simpl in Hf.
    destruct n as [content|]; simpl in Hf.
    + act_steps. apply list_elem_of_singleton in Hin as ->. exists [name], content. done.
    + eapply IH in Hf as (_ & Hf & _); [|rewrite Hs; by apply tree_below_inner]. destruct (Hf _ Hin) as (r & content & Hp & Hc & Hr).
      rewrite Hs in Hc. exists (name :: r), content. split; [by rewrite Hp, <- app_assoc|done].
  - intros [|name r] content Hc; [rewrite app_nil_r in Hc; congruence|].
    assert (∃ n, disk_fs d !! (directory ++ [name]) = Some n ∧ (r ≠ [] → n = Dir)) as (n & Hn & Hnd).
    { destruct r as [|y r]; [by eexists|]. exists Dir. split; [|done].
      eapply (tree_below_above _ _ [name] (y :: r)); [done|by eexists|done]. }
    pose proof Hn as Hx. apply elem_of_children, list_elem_of_lookup in Hx as [i Hi].
    destruct (Forall2_lookup_l _ _ _ _ _ Hm Hi) as (part & Hpart & s1 & s2 & Hs & Hf).
    cbn zeta in Hf. simpl in Hf. destruct n as [content'|]; simpl in Hf.
    + destruct r; [|by specialize (Hnd ltac:(done))].
      apply act_bind_Ok in Hf as (relative & s3 & _ & [-> _]%act_ret_Ok).
      exists relative. apply list_elem_of_In, in_concat. exists [(relative, directory ++ [name])].
      split; [|by left]. apply list_elem_of_In. by eapply list_elem_of_lookup_2.
    + eapply IH in Hf as (_ & _ & Hf); [|rewrite Hs; by apply tree_below_inner].
      destruct (Hf r content) as [relative Hin]; [by rewrite Hs, <- app_assoc|].
      rewrite <- app_assoc in Hin. exists relative. apply list_elem_of_In, in_concat. exists part.
      split; apply list_elem_of_In; [by eapply list_elem_of_lookup_2|done].
Qed.

Lemma NoDup_concat_keys (directory : path) (keys : list string) (parts : list (list path)) :
  NoDup keys → Forall2 (λ key part, NoDup part ∧ ∀ p, p ∈ part → ∃ r, p = directory ++ key :: r) keys parts →
  NoDup (concat parts).
Proof.
  intros Hk H. induction H as [|key part keys parts [Hp Hin] Hall IH]; [by apply NoDup_nil|].
  apply NoDup_cons in Hk as [Hnin Hk]. simpl. apply NoDup_app. split_and!; [done| |by apply IH].
  intros p Hp1 (part' & Hpart & Hp2)%list_elem_of_In%in_concat. apply list_elem_of_In in Hpart, Hp2.
  apply list_elem_of_lookup in Hpart as [i Hi].
  destruct (Forall2_lookup_r _ _ _ _ _ Hall Hi) as (key' & Hkey & _ & Hin').
  destruct (Hin _ Hp1) as [r ->]. destruct (Hin' _ Hp2) as [r' E]. apply (inj (app directory)) in E.
  injection E as -> _. apply Hnin. by eapply list_elem_of_lookup_2.
Qed.

(** No file is collected twice. *)
Lemma collect_files_NoDup fuel root directory d files d' :
  tree_below directory (disk_fs d) → collect_files fuel root directory d = (Ok files, d') → NoDup files.*2.
Proof.
  revert directory d files d'. induction fuel as [|fuel IH]; intros directory d files d' Htree H;
    cbn [collect_files] in H; [done|].
  apply act_bind_Ok in H as (entries & d1 & He%map_errors_Ok%fs_read_entries_Ok & H).
  destruct He as (Hdir & -> & Hd1). apply act_bind_Ok in H as (parts & d2 & Hm & [-> _]%act_ret_Ok).
  apply (act_map_Forall2 _ (λ s, disk_fs s = disk_fs d)) in Hm as [_ Hm];
    [|intros e s; apply collect_entry_same|done].
  assert ((concat parts).*2 = concat ((λ part : list (string * path), part.*2) <$> parts)) as ->.
  { clear. induction parts as [|part parts IH]; [done|]. simpl. by rewrite fmap_app, IH. }
  apply (NoDup_concat_keys directory (children directory (disk_fs d)).*1); [apply children_names|].
  apply Forall2_fmap. eapply Forall2_impl; [exact Hm|]. intros [name n] part (s1 & s2 & Hs & Hf).
  cbn zeta in Hf. simpl in *. destruct n as [content|]; simpl in Hf.
  - apply act_bind_Ok in Hf as (relative & s3 & _ & [-> _]%act_ret_Ok). simpl.
    split; [apply NoDup_singleton|]. intros p ->%list_elem_of_singleton. by exists [].
  - split; [eapply IH; [|exact Hf]; rewrite Hs; by apply tree_below_inner|]. intros p ([rel p'] & -> & Hin)%list_elem_of_fmap.
    apply collect_files_Ok in Hf as (_ & Hf & _); [|rewrite Hs; by apply tree_below_inner].
    destruct (Hf _ Hin) as (r & c & Hp & _). exists r. rewrite Hp. by rewrite <- app_assoc.
Qed.

(** ** The source hash *)

(** A name as a directory has it. *)
Definition file_name_ok (name : string) : Prop := name ≠ "" ∧ "/"%char ∉ bytes name.

(** Below [root] there is a tree whose names are single components and whose
    sizes fit in 64 bits. *)
Record posix_below (root : path) (fs : Fs) : Prop := {
  posix_tree : tree_below root fs;
  posix_names : ∀ r, is_Some (fs !! (root ++ r)) → Forall file_name_ok r;
  posix_paths : ∀ r, is_Some (fs !! (root ++ r)) → zlen (join_bytes "/"%char (bytes <$> r)) < 2 ^ 64;
  posix_sizes : ∀ r content, fs !! (root ++ r) = Some (File content) → zlen content < 2 ^ 64;
}.

Lemma posix_below_same (root root' : path) (fs fs' : Fs) :
  (∀ r, fs' !! (root' ++ r) = fs !! (root ++ r)) → posix_below root fs → posix_below root' fs'.
Proof.
  intros E [H1 H2 H3 H4]. split.
  - intros r x. rewrite !E. apply H1.
  - intros r. rewrite E. apply H2.
  - intros r. rewrite E. apply H3.
  - intros r content. rewrite E. apply H4.
Qed.

Lemma join_bytes_suffix c (ws ws' : list (list ascii)) :
  (length (join_bytes c ws') ≤ length (join_bytes c (ws ++ ws')))%nat.
Proof.
  induction ws as [|w ws IH]; [done|]. simpl. destruct (ws ++ ws') as [|w' l] eqn:E.
  - apply app_nil in E as [-> ->]. simpl. lia.
  - rewrite length_app. cbn [length]. lia.
Qed.

Lemma posix_below_inner root r fs : posix_below root fs → posix_below (root ++ r) fs.
Proof.
  intros [H1 H2 H3 H4]. split; [by apply tree_below_inner|..].
  - intros s. rewrite <- app_assoc. intros [_ ?]%H2%Forall_app. done.
  - intros s. rewrite <- app_assoc. intros Hs%H3. unfold zlen in *. rewrite fmap_app in Hs.
    pose proof (join_bytes_suffix "/"%char (bytes <$> r) (bytes <$> s)). lia.
  - intros s content. rewrite <- app_assoc. apply H4.
Qed.

Section hash.
Context {U : UrlLib} {B : Encoding} {L : RepositoryLib}.

Definition frames (files : list (string * list byte)) : list byte :=
  concat ((λ file, hash_frame file.1 file.2) <$> files).

Definition small (file : string * list byte) : Prop := str_len file.1 < 2 ^ 64 ∧ zlen file.2 < 2 ^ 64.

Lemma be_bytes_head n a b (k l : list ascii) :
  0 ≤ a < 256 ^ Z.of_nat n → 0 ≤ b < 256 ^ Z.of_nat n →
  be_bytes n a ++ k = be_bytes n b ++ l → a = b ∧ k = l.
Proof.
  intros Ha Hb H. apply app_inj_1 in H as [H ->]; [|by rewrite !length_be_bytes].
  split; [|done]. by apply (be_bytes_inj n).
Qed.

(** The framing of paths and contents is injective. *)
Lemma frames_inj l k : Forall small l → Forall small k → frames l = frames k → l = k.
Proof.
  intros Hl. revert k. induction Hl as [|[p c] l [Hp Hc] Hl IH]; intros k Hk H.
  - destruct k as [|[p' c'] k]; [done|]. apply (f_equal length) in H. unfold frames, hash_frame in H. rewrite fmap_cons in H.
    cbn [concat] in H. rewrite !length_app, length_be_bytes in H. simpl in H. lia.
  - destruct Hk as [|[p' c'] k [Hp' Hc'] Hk].
    { apply (f_equal length) in H. unfold frames, hash_frame in H. rewrite fmap_cons in H.
      cbn [concat] in H. rewrite !length_app, length_be_bytes in H. simpl in H. lia. }
    unfold frames, hash_frame in H. cbn [fmap list_fmap concat fst snd] in *. rewrite <- !app_assoc in H.
    rewrite !str_len_bytes in *.
    apply (be_bytes_head 8) in H as [Hlen H]; [|rewrite (eq_refl : 256 ^ Z.of_nat 8 = 2 ^ 64); unfold zlen in *; lia..].
    apply app_inj_1 in H as [Hpp H]; [|unfold zlen in Hlen; lia].
    apply (be_bytes_head 8) in H as [Hlen' H]; [|rewrite (eq_refl : 256 ^ Z.of_nat 8 = 2 ^ 64); unfold zlen in *; lia..].
    apply app_inj_1 in H as [-> H]; [|by apply Nat2Z.inj].
    apply (inj bytes) in Hpp as ->. f_equal. by apply IH.
Qed.

Lemma relative_text_join root r text :
  relative_text root (root ++ r) = Some text → bytes text = join_bytes "/"%char (bytes <$> r).
Proof.
  unfold relative_text. rewrite below_app. simpl. intros ->%name_to_str_Some. apply bytes_str.
Qed.

Lemma join_names_inj (r r' : list string) :
  Forall file_name_ok r →
  Forall file_name_ok r' →
  join_bytes "/"%char (bytes <$> r) = join_bytes "/"%char (bytes <$> r') → r = r'.
Proof.
  intros Hr Hr' H.
  assert (∀ l : list string, Forall file_name_ok l → l ≠ [] →
    split_bytes "/"%char (join_bytes "/"%char (bytes <$> l)) = bytes <$> l) as Hs.
  { intros l Hl Hne. apply split_join_bytes; [by destruct l|]. apply Forall_fmap.
    eapply Forall_impl; [exact Hl|]. by intros x [_ ?]. }
  assert (∀ l : list string, Forall file_name_ok l →
    join_bytes "/"%char (bytes <$> l) = [] → l = []) as He.
  { intros [|x l] Hl E; [done|]. apply Forall_cons in Hl as [[Hx _] _].
    assert (bytes x = []) as Eb by (destruct l; simpl in E; [done|by apply app_eq_nil in E as [? ?]]).
    apply (f_equal str) in Eb. by rewrite str_bytes in Eb. }
  destruct (decide (r = [])) as [->|Hne]; [symmetry in H; by apply He in H|].
  destruct (decide (r' = [])) as [->|Hne']; [by apply He in H|].
  apply (f_equal (split_bytes "/"%char)) in H. rewrite !Hs in H by done.
  by apply (inj (fmap bytes)) in H.
Qed.

Lemma read_frames_Ok (fs : Fs) (l : list (string * path)) (parts : list (list byte)) :
  Forall2 (λ (file : string * path) frame, ∃ s1 s2, disk_fs s1 = fs ∧
    (content ← map_errors (λ _, InvalidPluginManifest) (fs_read file.2); mret (hash_frame file.1 content)) s1
    = (Ok frame, s2)) l parts →
  ∃ files, concat parts = frames files ∧
    Forall2 (λ (file : string * path) f, f.1 = file.1 ∧ fs !! file.2 = Some (File f.2)) l files.
Proof.
  induction 1 as [|[rel p] frame l parts (s1 & s2 & Hs & Hf) _ (files & Hc & IH)].
  - by exists [].
  - apply act_bind_Ok in Hf as (content & s3 & Hr%map_errors_Ok%syscall_Ok & [-> _]%act_ret_Ok).
    rewrite Hs in Hr. simpl in Hr. exists ((rel, content) :: files). split.
    + unfold frames in *. simpl. by rewrite Hc.
    + constructor; [|done]. simpl. split; [done|]. destruct (fs !! p) as [[]|]; by simplify_eq.
Qed.

Definition file_cmp (a b : string * list byte) : comparison := cmp_on fst String.compare a b.

(** What is hashed: every file below the root, with its path and content, in the
    order of the paths. *)
Record source_files (root : path) (fs : Fs) (files : list (string * list byte)) : Prop := {
  source_sorted : StronglySorted (cmp_lt file_cmp) files;
  source_small : Forall small files;
  source_sound : ∀ f, f ∈ files → ∃ r, f.1 = str (join_bytes "/"%char (bytes <$> r)) ∧
    fs !! (root ++ r) = Some (File f.2);
  source_complete : ∀ r content, fs !! (root ++ r) = Some (File content) →
    (str (join_bytes "/"%char (bytes <$> r)), content) ∈ files;
  source_utf8 : ∀ r content, fs !! (root ++ r) = Some (File content) →
    is_Some (relative_text root (root ++ r));
}.

Local Instance by_path_preorder : CmpPreorder by_path.
Proof. apply (cmp_on_preorder fst String.compare). Qed.

(** Sorted by distinct keys. *)
Lemma sorted_keys {A} (l : list (string * A)) :
  NoDup l.*1 → StronglySorted (λ a b, String.compare a.1 b.1 ≠ Gt) l →
  StronglySorted (cmp_lt String.compare) l.*1.
Proof.
  intros Hn Hs. induction Hs as [|[k a] l Hs IH Ha]; simpl; [constructor|].
  apply NoDup_cons in Hn as [Hk Hn]. constructor; [by apply IH|].
  apply Forall_fmap, Forall_forall. intros [k' a'] Hin. rewrite Forall_forall in Ha.
  specialize (Ha _ Hin). simpl in *. unfold cmp_lt. destruct (String.compare k k') eqn:E; [|done..].
  apply (cmp_eq String.compare) in E as ->. destruct Hk. apply list_elem_of_fmap. by exists (k', a').
Qed.

Lemma sorted_files (files : list (string * list byte)) :
  StronglySorted (cmp_lt String.compare) files.*1 → StronglySorted (cmp_lt file_cmp) files.
Proof.
  induction files as [|f files IH]; intros Hs; [constructor|]. inversion_clear Hs as [|? ? H1 H2].
  constructor; [by apply IH|]. apply (Forall_fmap fst) in H2. exact H2.
Qed.

(** Sorted lists of files with the same elements are equal. *)
Lemma sorted_files_unique (l k : list (string * list byte)) :
  StronglySorted (cmp_lt file_cmp) l → StronglySorted (cmp_lt file_cmp) k → (∀ f, f ∈ l ↔ f ∈ k) → l = k.
Proof.
  intros Hl. revert k. induction Hl as [|x l Hl IH Hx]; intros k Hk Heq.
  - destruct k as [|y k]; [done|]. specialize (Heq y). set_solver.
  - destruct Hk as [|y k Hk Hy]; [specialize (Heq x); set_solver|]. rewrite Forall_forall in Hx, Hy.
    assert (∀ a b : string * list byte, cmp_lt file_cmp a b → cmp_lt file_cmp b a → False) as Hasym.
    { intros a b Hab Hba. unfold cmp_lt, file_cmp, cmp_on in *. by rewrite (cmp_flip String.compare), Hab in Hba. }
    assert (x = y) as <-.
    { assert (x ∈ y :: k) as [?|Hxk]%elem_of_cons by (apply Heq; by left); [done|].
      assert (y ∈ x :: l) as [?|Hyl]%elem_of_cons by (apply Heq; by left); [done|].
      by destruct (Hasym x y); [apply Hx|apply Hy]. }
    assert (∀ z, cmp_lt file_cmp z z → False) as Hirr by (intros z Hz; by eapply Hasym).
    f_equal. apply IH; [done|]. intros z. split; intros Hz.
    + assert (z ∈ x :: k) as [->|]%elem_of_cons by (apply Heq; by right); [by destruct (Hirr x); apply Hx|done].
    + assert (z ∈ x :: l) as [->|]%elem_of_cons by (apply Heq; by right); [by destruct (Hirr x); apply Hy|done].
Qed.

Lemma collected_keys root d fuel collected d1 :
  posix_below root (disk_fs d) → collect_files fuel root root d = (Ok collected, d1) → NoDup collected.*1.
Proof.
  intros [Htree Hnames _ _] Hcol. pose proof (collect_files_NoDup _ _ _ _ _ _ Htree Hcol) as Hnodup.
  apply collect_files_Ok in Hcol as (_ & Hsound & _); [|done].
  apply NoDup_fmap_2_strong; [|by eapply NoDup_fmap_1].
  intros [rel p] [rel' p'] H1 H2 E. simpl in E. subst rel'.
  destruct (Hsound _ H1) as (r & c & Hp & Hc & Ht), (Hsound _ H2) as (r' & c' & Hp' & Hc' & Ht').
  simpl in *. subst p p'. apply relative_text_join in Ht, Ht'. rewrite Ht in Ht'.
  apply join_names_inj in Ht' as ->; [done|..].
  - apply Hnames. by eexists.
  - apply Hnames. by eexists.
Qed.

(** Collected and sorted, then read. *)
Lemma sorted_files_read root d fuel collected d1 files :
  posix_below root (disk_fs d) → collect_files fuel root root d = (Ok collected, d1) →
  Forall2 (λ (file : string * path) f, f.1 = file.1 ∧ disk_fs d !! file.2 = Some (File f.2))
    (sort_by by_path collected) files →
  source_files root (disk_fs d) files.
Proof.
  intros [Htree Hnames Hpaths Hsizes] Hcol Hfiles.
  assert (NoDup collected.*1) as Hnodup by (by eapply collected_keys).
  apply collect_files_Ok in Hcol as (_ & Hsound & Hcomplete); [|done].
  assert (∀ f, f ∈ files → ∃ r, f.1 = str (join_bytes "/"%char (bytes <$> r)) ∧
    disk_fs d !! (root ++ r) = Some (File f.2)) as Hf.
  { intros f [i Hi]%list_elem_of_lookup. destruct (Forall2_lookup_r _ _ _ _ _ Hfiles Hi) as (file & Hx & Hf1 & Hf2).
    apply list_elem_of_lookup_2, elem_of_sort_by in Hx. destruct (Hsound _ Hx) as (r & content & Hp & Hc & Ht).
    rewrite Hp in Ht. apply relative_text_join in Ht. exists r. rewrite <- Ht, str_bytes, <- Hp. done. }
  split; [| |done| |].
  - apply sorted_files. assert (files.*1 = (sort_by by_path collected).*1) as ->.
    { clear -Hfiles. induction Hfiles as [|? ? ? ? [? _] _ IH]; [done|]. simpl. by f_equal. }
    apply sorted_keys; [by rewrite sort_by_perm|]. apply sort_by_sorted, _.
  - apply Forall_forall. intros f (r & Hf1 & Hf2)%Hf. split; [|by eapply Hsizes].
    rewrite Hf1, str_len_bytes, bytes_str. apply Hpaths. by eexists.
  - intros r content Hc. destruct (Hcomplete _ _ Hc) as [relative Hin].
    pose proof Hin as Hin'. rewrite <- (elem_of_sort_by by_path), list_elem_of_lookup in Hin'.
    destruct Hin' as [i Hi]. destruct (Forall2_lookup_l _ _ _ _ _ Hfiles Hi) as ([rel c] & Hx & Hx1 & Hx2).
    simpl in *. destruct (Hsound _ Hin) as (r' & c' & Hp & _ & Ht). simpl in *.
    apply relative_text_join in Ht. rewrite <- Ht, str_bytes. rewrite Hc in Hx2. simplify_eq.
    by eapply list_elem_of_lookup_2.
  - intros r content Hc. destruct (Hcomplete _ _ Hc) as [relative Hin].
    destruct (Hsound _ Hin) as (r' & c' & _ & _ & Ht). by eexists.
Qed.

Lemma hash_source_tree_Ok root d hash d' :
  posix_below root (disk_fs d) → hash_source_tree root d = (Ok hash, d') →
  ∃ files, hash = hex (sha256 (frames files)) ∧ source_files root (disk_fs d) files.
Proof.
  intros Hfs H. unfold hash_source_tree in H.
  apply act_bind_Ok in H as (collected & d1 & Hcol & H). pose proof Hcol as Hd1.
  apply (moves_run same_fs) in Hd1; [|apply collect_files_same].
  apply act_bind_Ok in H as (parts & d2 & Hm & [-> _]%act_ret_Ok).
  apply (act_map_Forall2 _ (λ s, disk_fs s = disk_fs d)) in Hm as [_ Hm]; [|intros file s <-|done].
  2:{ unfold mbind, act_bind.
      pose proof (moves_map_errors same_fs (λ _, InvalidPluginManifest) _ (fs_read_same file.2) s) as Hr.
      by destruct (map_errors _ _ s) as [[]]. }
  apply read_frames_Ok in Hm as (files & -> & Hfiles). exists files. split; [done|].
  by eapply sorted_files_read.
Qed.

(** The list of files is determined by the tree, and determines it. *)
Lemma source_files_unique root1 root2 fs1 fs2 files1 files2 :
  posix_below root1 fs1 → posix_below root2 fs2 → source_files root1 fs1 files1 → source_files root2 fs2 files2 →
  files1 = files2 ↔ ∀ r content, fs1 !! (root1 ++ r) = Some (File content) ↔ fs2 !! (root2 ++ r) = Some (File content).
Proof.
  intros P1 P2 S1 S2.
  assert (∀ root fs files r content, posix_below root fs → source_files root fs files →
    Forall file_name_ok r →
    (str (join_bytes "/"%char (bytes <$> r)), content) ∈ files → fs !! (root ++ r) = Some (File content)) as Hback.
  { intros root fs files r content P S Hr Hin. destruct (source_sound _ _ _ S _ Hin) as (r' & E & Hc).
    simpl in *. apply (f_equal bytes) in E. rewrite !bytes_str in E.
    apply join_names_inj in E as ->; [done..|]. apply (posix_names _ _ P). by eexists. }
  assert (∀ root fs r content, posix_below root fs → fs !! (root ++ r) = Some (File content) →
    Forall file_name_ok r) as Hplain.
  { intros root fs r content P Hc. apply (posix_names _ _ P). by eexists. }
  split.
  - intros <- r content. split; intros Hc.
    + eapply Hback; [done|exact S2|by apply (Hplain root1 fs1 r content)|by apply (source_complete _ _ _ S1)].
    + eapply Hback; [done|exact S1|by apply (Hplain root2 fs2 r content)|by apply (source_complete _ _ _ S2)].
  - intros Hsame. apply sorted_files_unique; [apply S1|apply S2|]. intros [rel content]. split; intros Hin.
    + destruct (source_sound _ _ _ S1 _ Hin) as (r & E & Hc). simpl in *. subst rel.
      by apply (source_complete _ _ _ S2), Hsame.
    + destruct (source_sound _ _ _ S2 _ Hin) as (r & E & Hc). simpl in *. subst rel.
      by apply (source_complete _ _ _ S1), Hsame.
Qed.

(** C25. The hash of a plugin's sources is computed from its whole tree: the inputs of
    two hashes agree exactly when the trees hold the same files with the same
    contents under the same paths. *)
Theorem source_hash_determines root1 root2 d1 d2 hash1 hash2 d1' d2' :
  posix_below root1 (disk_fs d1) → posix_below root2 (disk_fs d2) →
  hash_source_tree root1 d1 = (Ok hash1, d1') → hash_source_tree root2 d2 = (Ok hash2, d2') →
  ∃ input1 input2, hash1 = hex (sha256 input1) ∧ hash2 = hex (sha256 input2) ∧
    (input1 = input2 ↔
     ∀ r content, disk_fs d1 !! (root1 ++ r) = Some (File content) ↔
                  disk_fs d2 !! (root2 ++ r) = Some (File content)).
Proof.
  intros P1 P2 (files1 & -> & S1)%hash_source_tree_Ok (files2 & -> & S2)%hash_source_tree_Ok; [|done..].
  exists (frames files1), (frames files2). split_and!; [done..|].
  rewrite <- (source_files_unique root1 root2) by done. split; [|by intros ->].
  apply frames_inj; [apply S1|apply S2].
Qed.
End hash.

(** ** Validated repositories *)

Lemma normalize_relative_path_Ok value text buf :
  normalize_relative_path value = Ok (text, buf) →
  text = value ∧ ∃ names, Forall plain names ∧ names ≠ [] ∧ buf = collect_path names ∧ text = collect_path names.
Proof.
  unfold normalize_relative_path. intros H. result_step. apply bind_Ok in H as ([] & Hs & [= <- <-]).
  assert (bytes <$> split "/"%char value = split_bytes "/"%char (bytes value)) as Esplit.
  { unfold split. rewrite <- list_fmap_compose. rewrite <- (list_fmap_id (split_bytes _ _)) at 2.
    apply list_fmap_ext. intros _ x _. apply bytes_str. }
  assert (Forall plain (split "/"%char value)) as Hp.
  { apply Forall_forall. intros segment Hin.
    assert ("/"%char ∉ bytes segment) as Hfree.
    { pose proof (split_bytes_free "/"%char (bytes value)) as Hf. rewrite Forall_forall in Hf. apply Hf.
      rewrite <- Esplit. apply list_elem_of_fmap. by exists segment. }
    clear Esplit Hguard. induction (split "/"%char value) as [|x l IH]; [set_solver|].
    cbn [check_segments for_each] in Hs. apply bind_Ok in Hs as ([] & Hx & Hs). result_step. bool_prop.
    apply elem_of_cons in Hin as [->|Hin]; [|by apply IH]. split_and!; [by apply str_is_empty_false|done..]. }
  split; [by rewrite Esplit, split_bytes_join, str_bytes|].
  exists (split "/"%char value). split_and!; [done| |done|by rewrite collect_path_join].
  unfold split. intros E. by apply fmap_nil_inv, split_bytes_ne in E.
Qed.

Section validated.
Context {U : UrlLib} {B : Encoding} {L : RepositoryLib}.

Definition all_declarations (manifest : PluginManifest) : list CredentialScopeDeclaration :=
  let credentials := PluginManifest_credentials manifest in
  CredentialDeclarations_provided_scopes credentials
  ++ CredentialDeclarations_required_scopes credentials
  ++ CredentialDeclarations_optional_scopes credentials.

(** Every origin a plugin declares for a credential is on a host it may reach. *)
Definition origins_allowed (manifest : PluginManifest) : Prop :=
  ∀ declaration origin, declaration ∈ all_declarations manifest →
    origin ∈ CredentialScopeDeclaration_target_origins declaration →
    ∃ url host allowed, Url_parse (CredentialTargetOrigin_as_str origin) = Some url ∧
      Url_host_str url = Some host ∧
      allowed ∈ NetworkPolicy_allowed_hosts (PluginManifest_network manifest) ∧
      valid_allowed_host allowed = true ∧ allowed_host_matches allowed host = true.

Lemma check_origins_Ok hosts origins seen origin :
  check_origins hosts origins seen = Ok tt → origin ∈ origins →
  ∃ url host allowed, Url_parse (CredentialTargetOrigin_as_str origin) = Some url ∧
    Url_host_str url = Some host ∧ allowed ∈ hosts ∧ allowed_host_matches allowed host = true.
Proof.
  revert seen. induction origins as [|o origins IH]; intros seen H Hin; [set_solver|]. cbn [check_origins] in H.
  apply bind_Ok in H as (seen' & _ & H). apply bind_Ok in H as (url & Hu%ok_or_Ok & H).
  apply bind_Ok in H as (host & Hh%ok_or_Ok & H). result_step.
  apply elem_of_cons in Hin as [->|Hin]; [|by eapply IH].
  bool_prop. apply existsb_exists in Hguard as (allowed & Ha%list_elem_of_In & Hm).
  by exists url, host, allowed.
Qed.

Lemma check_declarations_Ok manifest declarations scopes declaration :
  check_declarations manifest declarations scopes = Ok tt → declaration ∈ declarations →
  check_origins (NetworkPolicy_allowed_hosts (PluginManifest_network manifest))
    (CredentialScopeDeclaration_target_origins declaration) ∅ = Ok tt.
Proof.
  revert scopes. induction declarations as [|x l IH]; intros scopes H Hin; [set_solver|].
  cbn [check_declarations] in H. apply bind_Ok in H as (scopes' & Hs & H).
  apply elem_of_cons in Hin as [->|Hin]; [|by eapply IH]. unfold validate_scope_declaration in Hs.
  cbn zeta in Hs. apply bind_Ok in Hs as (? & _ & Hs). result_step.
  by apply bind_Ok in Hs as ([] & Hs & _).
Qed.

Lemma check_allowed_hosts_Ok hosts seen host :
  check_allowed_hosts hosts seen = Ok tt → host ∈ hosts → valid_allowed_host host = true.
Proof.
  revert seen. induction hosts as [|x l IH]; intros seen H Hin; [set_solver|]. cbn [check_allowed_hosts] in H.
  result_step. apply bind_Ok in H as (? & _ & H). bool_prop.
  apply elem_of_cons in Hin as [->|Hin]; [done|by eapply IH].
Qed.

Lemma validate_manifest_fields_Ok manifest core api entry :
  validate_manifest_fields manifest core api = Ok entry →
  (PluginManifest_schema_version manifest = "1.0" ∧ RuntimeSpec_version (PluginManifest_runtime manifest) = "22") ∧
  origins_allowed manifest.
Proof.
  unfold validate_manifest_fields. intros H. do 2 result_step. bool_prop. split; [done|].
  apply bind_Ok in H as (? & _ & H). apply bind_Ok in H as (? & _ & H). result_step.
  apply bind_Ok in H as ([] & _ & H). result_step. apply bind_Ok in H as ([] & Hhosts & H).
  apply bind_Ok in H as ([] & Hc & _). unfold validate_credential_declarations in Hc. cbn zeta in Hc.
  do 2 result_step. intros declaration origin Hd Ho.
  apply (check_declarations_Ok _ _ _ declaration) in Hc; [|done].
  eapply check_origins_Ok in Hc as (url & host & allowed & ? & ? & ? & ?); [|done].
  exists url, host, allowed. split_and!; try done. by eapply check_allowed_hosts_Ok.
Qed.

(** A file that holds a JSON object. *)
Definition object_at (fs : Fs) (p : path) (o : JsonObject) : Prop :=
  ∃ content value, fs !! p = Some (File content) ∧ value_from_slice content = Some value ∧ as_object value = Some o.

(** What the installer relies on for a plugin of a validated repository. *)
Record validated_ok (repository_root : path) (fs : Fs) (p : ValidatedPlugin) (names : path) : Prop := {
  ok_names : Forall plain names;
  ok_path : validated_relative_path p = collect_path names;
  ok_relative : normalize_relative_path (validated_relative_path p) = Ok (collect_path names, collect_path names);
  ok_directory : fs !! (repository_root ++ names) = Some Dir;
  ok_manifest : ∃ content, fs !! (repository_root ++ names ++ ["audiodown-plugin.json"]) = Some (File content) ∧
    plugin_manifest_from_slice content = Some (validated_manifest p) ∧
    validated_manifest_hash p = sha256_hex content;
  ok_entry : ∃ entry content, Forall plain entry ∧ validated_entry_path p = collect_path entry ∧
    RuntimeSpec_entry (PluginManifest_runtime (validated_manifest p)) = collect_path entry ∧
    normalize_relative_path (collect_path entry) = Ok (collect_path entry, collect_path entry) ∧
    fs !! (repository_root ++ names ++ entry) = Some (File content);
  ok_tree : ∀ r name, is_Some (fs !! ((repository_root ++ names) ++ r ++ [name])) → permitted (length r) name;
  ok_fields : PluginManifest_schema_version (validated_manifest p) = "1.0" ∧
    RuntimeSpec_version (PluginManifest_runtime (validated_manifest p)) = "22";
  ok_origins : origins_allowed (validated_manifest p);
  ok_policy : let policy := BuildSpec_npm_lifecycle_scripts (PluginManifest_build (validated_manifest p)) in
    validated_requires_lifecycle_scripts p = LifecycleScriptPolicy_required policy ∧
    validated_lifecycle_script_reason p = trimmed_reason policy;
  ok_package : ∃ package lockfile,
    object_at fs (repository_root ++ names ++ ["package.json"]) package ∧
    object_at fs (repository_root ++ names ++ ["package-lock.json"]) lockfile ∧
    validate_package_objects package lockfile (validated_requires_lifecycle_scripts p) = Ok tt;
  ok_hash : ∃ files, validated_source_hash p = hex (sha256 (frames files)) ∧
    source_files (repository_root ++ names) fs files;
}.

Lemma read_object_same p : moves same_fs (read_object p).
Proof. unfold read_object. moves. apply fs_read_same. Qed.

Lemma read_object_Ok p d o d' :
  read_object p d = (Ok o, d') → object_at (disk_fs d) p o ∧ disk_fs d' = disk_fs d.
Proof.
  intros H. split; [|exact (moves_run _ _ _ _ _ (read_object_same p) H)]. unfold read_object in H.
  apply act_bind_Ok in H as (content & d1 & Hr%map_errors_Ok%syscall_Ok & H).
  apply act_bind_Ok in H as (value & ? & [Hv%ok_or_Ok ->]%pure_Ok & [Ho%ok_or_Ok ->]%pure_Ok).
  exists content, value. split_and!; [|done..]. destruct (disk_fs d !! p) as [[]|]; by simplify_eq.
Qed.

Lemma validate_package_Ok root required d d' :
  validate_package root required d = (Ok tt, d') →
  ∃ package lockfile, object_at (disk_fs d) (root ++ ["package.json"]) package ∧
    object_at (disk_fs d) (root ++ ["package-lock.json"]) lockfile ∧
    validate_package_objects package lockfile required = Ok tt.
Proof.
  unfold validate_package. intros H. apply act_bind_Ok in H as (package & d1 & [H1 E1]%read_object_Ok & H).
  apply act_bind_Ok in H as (lockfile & d2 & [H2 _]%read_object_Ok & [H _]%pure_Ok). rewrite E1 in H2.
  by exists package, lockfile.
Qed.

Lemma validate_package_same root required : moves same_fs (validate_package root required).
Proof. unfold validate_package. moves; apply read_object_same. Qed.

Lemma hash_source_tree_same root : moves same_fs (hash_source_tree root).
Proof.
  intros d. unfold hash_source_tree.
  match goal with |- same_fs d (?m d).2 => enough (moves same_fs m) as Hm by apply Hm end.
  moves; [apply collect_files_same|apply fs_read_same].
Qed.

Lemma validate_manifest_same manifest root core api : moves same_fs (validate_manifest manifest root core api).
Proof. unfold validate_manifest. moves. apply moves_query. intros d. apply path_is_file_same. Qed.

Lemma validate_plugin_Ok repository_root core api reference paths ids d p paths' ids' d' :
  posix_below repository_root (disk_fs d) →
  validate_plugin repository_root core api reference paths ids d = (Ok (p, paths', ids'), d') →
  disk_fs d' = disk_fs d ∧
  (to_ascii_lowercase (validated_relative_path p) ∉ paths) ∧
  paths' = {[to_ascii_lowercase (validated_relative_path p)]} ∪ paths ∧
  (PluginId_as_str (PluginManifest_id (validated_manifest p)) ∉ ids) ∧
  ids' = {[PluginId_as_str (PluginManifest_id (validated_manifest p))]} ∪ ids ∧
  ∃ names, validated_ok repository_root (disk_fs d) p names.
Proof.
  intros Hfs H. unfold validate_plugin in H. cbn zeta in H.
  apply act_bind_Ok in H as ([text buf] & ? & [Hnorm ->]%pure_Ok & H).
  destruct (normalize_relative_path_Ok _ _ _ Hnorm) as (Hval & names & Hplain & Hne & -> & ->).
  rewrite <- Hval in Hnorm. simpl in H.
  apply act_bind_Ok in H as (paths1 & ? & [[Hp ->]%insert_new_Ok ->]%pure_Ok & H).
  rewrite resolve_collect in H by done.
  apply act_bind_Ok in H as (n & d1 & Hmeta%map_errors_Ok & H). act_step.
  pose proof (moves_run _ _ _ _ _ (fs_symlink_metadata_same _) Hmeta) as E1. apply syscall_Ok in Hmeta.
  apply act_bind_Ok in H as ([] & d2 & Htree & H).
  pose proof (moves_run _ _ _ _ _ (tree_loop_same _ _) Htree) as E2.
  apply act_bind_Ok in H as (content & d3 & Hread%map_errors_Ok & H).
  pose proof (moves_run _ _ _ _ _ (fs_read_same _) Hread) as E3. apply syscall_Ok in Hread.
  apply act_bind_Ok in H as (manifest & ? & [Hm%ok_or_Ok ->]%pure_Ok & H).
  apply act_bind_Ok in H as ([] & d4 & Hval' & H).
  pose proof (moves_run _ _ _ _ _ (validate_manifest_same _ _ _ _) Hval') as E4.
  apply act_bind_Ok in H as (ids1 & ? & [[Hid ->]%insert_new_Ok ->]%pure_Ok & H).
  apply act_bind_Ok in H as ([etext ebuf] & ? & [Hentry ->]%pure_Ok & H).
  destruct (normalize_relative_path_Ok _ _ _ Hentry) as (Heval & entry & Heplain & _ & -> & ->).
  rewrite <- Heval in Hentry. simpl in H.
  rewrite resolve_collect in H by done.
  apply act_bind_Ok in H as (en & d5 & Hemeta%map_errors_Ok & H). act_step.
  pose proof (moves_run _ _ _ _ _ (fs_symlink_metadata_same _) Hemeta) as E5. apply syscall_Ok in Hemeta.
  apply act_bind_Ok in H as ([] & d6 & Hpack & H).
  pose proof (moves_run _ _ _ _ _ (validate_package_same _ _) Hpack) as E6.
  apply act_bind_Ok in H as (hash & d7 & Hhash & H).
  pose proof (moves_run _ _ _ _ _ (hash_source_tree_same _) Hhash) as E7.
  apply act_ret_Ok in H as [[= -> -> ->] ->]. unfold same_fs in *. simpl.
  assert (disk_fs d6 = disk_fs d ∧ disk_fs d5 = disk_fs d ∧ disk_fs d4 = disk_fs d ∧ disk_fs d2 = disk_fs d)
    as (E6d & E5d & E4d & E2d)
    by (split_and!; congruence).
  split_and!; [congruence|done..|]. exists names. split; simpl; try done.
  - destruct (disk_fs d !! _) as [n'|]; [|done]. injection Hmeta as -> _. by destruct n.
  - exists content. rewrite E2d, <- app_assoc in Hread.
    destruct (disk_fs d !! (repository_root ++ names ++ _)) as [[c|]|]; try done. by injection Hread as -> _.
  - rewrite E4d, <- app_assoc in Hemeta. destruct (disk_fs d !! (repository_root ++ names ++ entry)) as [n'|] eqn:Ee; [|done].
    injection Hemeta as -> _. destruct en as [ec|]; [|done]. by exists entry, ec.
  - intros r name Hs. refine (tree_loop_Ok _ [(_, O)] d1 d2 _ Htree (repository_root ++ names) O r name _ _); [| |by rewrite E1].
    + intros e ->%list_elem_of_singleton. rewrite E1. apply tree_below_inner, Hfs.
    + by apply list_elem_of_singleton.
  - unfold validate_manifest in Hval'. apply act_bind_Ok in Hval' as (e & ? & [Hv ->]%pure_Ok & _).
    by eapply validate_manifest_fields_Ok.
  - unfold validate_manifest in Hval'. apply act_bind_Ok in Hval' as (e & ? & [Hv ->]%pure_Ok & _).
    by eapply validate_manifest_fields_Ok.
  - apply validate_package_Ok in Hpack. rewrite E5d in Hpack.
    destruct Hpack as (package & lockfile & H1 & H2 & H3). rewrite <- !app_assoc in *. by exists package, lockfile.
  - rewrite <- E6d in Hfs |- *. eapply hash_source_tree_Ok; [by apply posix_below_inner|exact Hhash].
Qed.

Lemma validate_plugins_Ok repository_root core api references paths ids d plugins d' :
  posix_below repository_root (disk_fs d) →
  validate_plugins repository_root core api references paths ids d = (Ok plugins, d') →
  disk_fs d' = disk_fs d ∧ length plugins = length references ∧
  NoDup ((λ p, to_ascii_lowercase (validated_relative_path p)) <$> plugins) ∧
  NoDup ((λ p, PluginId_as_str (PluginManifest_id (validated_manifest p))) <$> plugins) ∧
  ∀ p, p ∈ plugins →
    (to_ascii_lowercase (validated_relative_path p) ∉ paths) ∧
    (PluginId_as_str (PluginManifest_id (validated_manifest p)) ∉ ids) ∧
    ∃ names, validated_ok repository_root (disk_fs d) p names.
Proof.
  revert paths ids d plugins. induction references as [|reference references IH]; intros paths ids d plugins Hfs H;
    cbn [validate_plugins] in H.
  - apply act_ret_Ok in H as [-> ->]. split_and!; try done; [by apply NoDup_nil..|set_solver].
  - apply act_bind_Ok in H as ([[p paths1] ids1] & d1 & Hp & H).
    apply act_bind_Ok in H as (rest & d2 & Hrest & [-> ->]%act_ret_Ok). simpl in Hrest.
    apply validate_plugin_Ok in Hp as (E1 & Hnew & -> & Hid & -> & Hok); [|done].
    apply IH in Hrest as (E2 & Hlen & Hn1 & Hn2 & Hall); [|by rewrite E1].
    split_and!; simpl; [congruence|by rewrite Hlen|..].
    + apply NoDup_cons. split; [|done]. intros (q & E & Hq)%list_elem_of_fmap.
      apply Hall in Hq as (Hq & _). rewrite <- E in Hq. set_solver.
    + apply NoDup_cons. split; [|done]. intros (q & E & Hq)%list_elem_of_fmap.
      apply Hall in Hq as (_ & Hq & _). rewrite <- E in Hq. set_solver.
    + intros q [->|Hq]%elem_of_cons; [by split_and!|].
      apply Hall in Hq as (H1 & H2 & names & Hq). split_and!; [set_solver..|].
      exists names. by rewrite <- E1.
Qed.

Lemma validate_repository_Ok repository_root core api limits d repository d' :
  posix_below repository_root (disk_fs d) →
  validate_repository repository_root core api limits d = (Ok repository, d') →
  disk_fs d' = disk_fs d ∧ str_is_empty (trim (validated_repository_name repository)) = false ∧
  zlen (validated_plugins repository) ≤ max_plugins limits ∧
  NoDup ((λ p, PluginId_as_str (PluginManifest_id (validated_manifest p))) <$> validated_plugins repository) ∧
  NoDup ((λ p, to_ascii_lowercase (validated_relative_path p)) <$> validated_plugins repository) ∧
  ∀ p, p ∈ validated_plugins repository → ∃ names, validated_ok repository_root (disk_fs d) p names.
Proof.
  intros Hfs H. unfold validate_repository in H.
  apply act_bind_Ok in H as (content & d1 & Hr%map_errors_Ok & H).
  apply (moves_run same_fs) in Hr; [|apply fs_read_same].
  apply act_bind_Ok in H as (index & ? & [_ ->]%pure_Ok & H).
  apply act_bind_Ok in H as ([] & ? & [Hmeta ->]%pure_Ok & H). act_step.
  apply act_bind_Ok in H as (plugins & d2 & Hp & [-> ->]%act_ret_Ok). simpl. unfold same_fs in Hr.
  apply validate_plugins_Ok in Hp as (E & Hlen & Hn1 & Hn2 & Hall); [|by rewrite Hr].
  unfold validate_repository_metadata in Hmeta. do 2 result_step.
  bool_prop. split_and!; [congruence|done|unfold zlen in *; lia|done..|].
  intros p (_ & _ & names & Hp)%Hall. exists names. by rewrite <- Hr.
Qed.
(** C23. Validating a repository only reads it.  When it succeeds there are at most
    [max_plugins] plugins with different identifiers, in directories below the
    repository whose names differ not only in case; each has the manifest whose
    hash is recorded, an entry file of its own, no forbidden file at any depth,
    credential origins only on hosts it may reach, and a source hash over its
    whole tree. *)
Theorem repository_validated repository_root core api limits d repository d' :
  posix_below repository_root (disk_fs d) →
  validate_repository repository_root core api limits d = (Ok repository, d') →
  disk_fs d' = disk_fs d ∧ zlen (validated_plugins repository) ≤ max_plugins limits ∧
  NoDup ((λ p, PluginId_as_str (PluginManifest_id (validated_manifest p))) <$> validated_plugins repository) ∧
  NoDup ((λ p, to_ascii_lowercase (validated_relative_path p)) <$> validated_plugins repository) ∧
  ∀ p, p ∈ validated_plugins repository → ∃ names, validated_ok repository_root (disk_fs d) p names.
Proof. intros Hfs H. by apply validate_repository_Ok in H as (? & _ & ?). Qed.
End validated.
