(* ===== verification/SnapshotStore.v ===== *)
(** * Staged snapshots (audiodown-plugin-manager: staging.rs; inspecting in service.rs)

    A validated repository is kept as a snapshot below [staging/] until one of its
    plugins is installed or half an hour has passed.  Preparing an installation
    writes its description below [prepared/], and the user's consent to lifecycle
    scripts below [grants/], where the supervisor reads them. *)

From S2P Require Import Prelude Text Std Domain Foreign CredentialContract Database Stateful Fs.
From S2P Require Import PluginManager PluginArchive PluginRepository.

(** ** Data *)

Global Instance CredentialScopeDeclaration_eq_dec : EqDecision CredentialScopeDeclaration.
Proof. solve_decision. Defined.
Global Instance CredentialDeclarations_eq_dec : EqDecision CredentialDeclarations.
Proof. solve_decision. Defined.

Definition SCHEMA_VERSION : string := "1.0".
Definition SNAPSHOT_TTL_MINUTES : Z := 30.
(** [Duration::minutes], in nanoseconds *)
Definition minutes (n : Z) : Z := n * 60 * 10 ^ 9.

Record PluginPreview := mkPluginPreview {
  preview_plugin_id : PluginId;
  preview_name : string;
  preview_version : string;
  preview_plugin_type : PluginType;
  preview_credentials : CredentialDeclarations;
  preview_requires_lifecycle_script_grant : bool;
  preview_lifecycle_script_reason : option string;
}.

Record RepositoryPreview := mkRepositoryPreview {
  preview_snapshot_id : Uuid;
  preview_repository_id : string;
  preview_repository_name : string;
  preview_source_url : string;
  preview_commit_sha : string;
  preview_plugins : list PluginPreview;
}.

Definition PluginPreview_from (value : ValidatedPlugin) : PluginPreview :=
  let manifest := validated_manifest value in
  mkPluginPreview (PluginManifest_id manifest) (PluginManifest_name manifest)
    (PluginManifest_version manifest) (PluginManifest_plugin_type manifest)
    (PluginManifest_credentials manifest) (validated_requires_lifecycle_scripts value)
    (validated_lifecycle_script_reason value).

Record SnapshotPlugin := mkSnapshotPlugin {
  snapshot_plugin_id : PluginId;
  snapshot_plugin_name : string;
  snapshot_plugin_version : string;
  snapshot_plugin_type : PluginType;
  snapshot_plugin_credentials : CredentialDeclarations;
  snapshot_plugin_path : string;
  snapshot_manifest_hash : string;
  snapshot_source_hash : string;
  snapshot_requires_lifecycle_scripts : bool;
  snapshot_lifecycle_script_reason : option string;
}.

Definition SnapshotPlugin_from (value : ValidatedPlugin) : SnapshotPlugin :=
  let manifest := validated_manifest value in
  mkSnapshotPlugin (PluginManifest_id manifest) (PluginManifest_name manifest)
    (PluginManifest_version manifest) (PluginManifest_plugin_type manifest)
    (PluginManifest_credentials manifest) (validated_relative_path value)
    (validated_manifest_hash value) (validated_source_hash value)
    (validated_requires_lifecycle_scripts value) (validated_lifecycle_script_reason value).

Record SnapshotMetadata := mkSnapshotMetadata {
  snapshot_schema_version : string;
  snapshot_id : Uuid;
  snapshot_repository_id : string;
  snapshot_repository_name : string;
  snapshot_source_url : string;
  snapshot_commit_sha : string;
  snapshot_created_at : time;
  snapshot_file_count : Z;
  snapshot_extracted_bytes : Z;
  snapshot_plugins : list SnapshotPlugin;
}.

(** [PreparedOperationMetadata] here, [PreparedMetadata] in the supervisor *)
Record PreparedMetadata := mkPreparedMetadata {
  prepared_schema_version : string;
  prepared_id : Uuid;
  prepared_snapshot_id : Uuid;
  prepared_plugin : PluginId;
  prepared_repository_id : string;
  prepared_source_url : string;
  prepared_commit_sha : string;
  prepared_plugin_path : string;
  prepared_manifest_hash : string;
  prepared_source_hash : string;
  prepared_allow_lifecycle_scripts : bool;
  prepared_risk_grant_id : option Uuid;
}.

Record GrantMirror := mkGrantMirror {
  mirror_schema_version : string;
  mirror_grant_id : Uuid;
  mirror_repository_id : string;
  mirror_plugin_id : PluginId;
  mirror_commit_sha : string;
  mirror_risk_kind : string;
  mirror_reason : string;
  mirror_granted_at : time;
}.

Definition GrantMirror_from (value : LifecycleRiskGrant) : GrantMirror :=
  mkGrantMirror SCHEMA_VERSION (grant_id value) (grant_repository_id value) (grant_plugin_id value)
    (grant_commit_sha value) (grant_risk_kind value) (grant_reason value) (grant_granted_at value).

(** serde_json at the types of the files; the core and the supervisor declare the
    same fields.  [CleanupMetadata] only reads the time. *)
Class StagingJson := {
  snapshot_to_vec : SnapshotMetadata → option (list byte);
  snapshot_from_slice : list byte → option SnapshotMetadata;
  cleanup_from_slice : list byte → option time;
  prepared_to_vec : PreparedMetadata → option (list byte);
  prepared_from_slice : list byte → option PreparedMetadata;
  grant_to_vec : GrantMirror → option (list byte);
  grant_from_slice : list byte → option GrantMirror;
}.

(** ** Files *)

Definition set_mode (p : path) : act Disk PluginManagerError unit := snapshot_io (fs_set_permissions p).

Definition create_secure_directory_all (p : path) : act Disk PluginManagerError unit :=
  snapshot_io (fs_create_dir_all p);;
  set_mode p.
Definition create_secure_directory (p : path) : act Disk PluginManagerError unit :=
  snapshot_io (fs_create_dir p);;
  set_mode p.
(** [File::open(path)] and [sync_all] *)
Definition staging_sync_directory (p : path) : act Disk PluginManagerError unit :=
  snapshot_io (fs_open p);;
  snapshot_io (fs_sync p).

Definition newline : list byte := [chr 10].

(** [atomic_write_json(parent.join(name), value)] with the value serialized *)
Definition atomic_write_json (directory : path) (name : string) (serialized : option (list byte)) :
    act Disk PluginManagerError unit :=
  create_secure_directory_all directory;;
  let temporary_path := directory ++ ["." +:+ name +:+ ".tmp"] in
  on_error
    (snapshot_io (fs_create_new temporary_path);;
     content ← pure (ok_or serialized InvalidStagingMetadata);
     map_errors (λ _, InvalidStagingMetadata) (fs_append temporary_path content);;
     snapshot_io (fs_append temporary_path newline);;
     snapshot_io (fs_sync temporary_path);;
     snapshot_io (fs_rename temporary_path (directory ++ [name]));;
     staging_sync_directory directory)
    (fs_remove_file temporary_path).

(** The entries of one directory of [secure_tree]. *)
Fixpoint secure_entries (directory : path) (entries : list (string * node)) (pending : list path) :
    act Disk PluginManagerError (list path) :=
  match entries with
  | [] => mret pending
  | (name, n) :: entries =>
      set_mode (directory ++ [name]);;
      secure_entries directory entries
        (if node_is_dir n then (directory ++ [name]) :: pending else pending)
  end.
Fixpoint secure_loop (fuel : nat) (pending : list path) : act Disk PluginManagerError unit :=
  match fuel, pending with
  | _, [] => mret tt
  | O, _ => throw InvalidStagingMetadata
  | S fuel, directory :: pending =>
      entries ← snapshot_io (fs_read_entries directory);
      pending ← secure_entries directory entries pending;
      secure_loop fuel pending
  end.
(** Every turn visits another directory. *)
Definition secure_scan (root : path) : act Disk PluginManagerError unit := λ d,
  secure_loop (S (size (disk_fs d))) [root] d.
Definition secure_tree (root : path) : act Disk PluginManagerError unit :=
  set_mode root;;
  secure_scan root.

(** ** The store *)

Section store.
Context {K : Codec} {U : UrlLib} {B : Encoding} {L : RepositoryLib} {J : StagingJson}.
Context (plugin_data : path).

Definition json_name (id : Uuid) : string := uuid_to_string id +:+ ".json".
Definition staging_root : path := plugin_data ++ ["staging"].
Definition snapshot_root (id : Uuid) : path := staging_root ++ [uuid_to_string id].

(** [Utc::now()] is read once, for [created_at]. *)
Definition create (source : GitHubRepositoryRef) (commit_sha : string)
    (extracted : ExtractedSnapshot) (validated : ValidatedRepository) (now : time) :
    act Disk PluginManagerError RepositoryPreview :=
  snapshot_id ← query new_v4;
  create_secure_directory_all staging_root;;
  let temporary_root := staging_root ++ ["." +:+ uuid_to_string snapshot_id +:+ ".tmp"] in
  create_secure_directory temporary_root;;
  on_error
    (let repository := temporary_root ++ ["repository"] in
     snapshot_io (fs_rename (repository_root extracted) repository);;
     secure_tree repository;;
     let metadata :=
       mkSnapshotMetadata SCHEMA_VERSION snapshot_id (validated_repository_id validated)
         (validated_repository_name validated) (github_canonical_url source) commit_sha now
         (extracted_file_count extracted) (extracted_byte_count extracted)
         (SnapshotPlugin_from <$> validated_plugins validated) in
     atomic_write_json temporary_root "snapshot.json" (snapshot_to_vec metadata);;
     staging_sync_directory temporary_root;;
     snapshot_io (fs_rename temporary_root (snapshot_root snapshot_id));;
     staging_sync_directory staging_root;;
     mret (mkRepositoryPreview snapshot_id (validated_repository_id validated)
             (validated_repository_name validated) (github_canonical_url source) commit_sha
             (PluginPreview_from <$> validated_plugins validated)))
    (fs_remove_dir_all temporary_root).

Definition load_snapshot (id : Uuid) : act Disk PluginManagerError SnapshotMetadata :=
  root_metadata ← map_errors (λ _, SnapshotNotFound) (fs_symlink_metadata (snapshot_root id));
  if negb (node_is_dir root_metadata) then throw InvalidStagingMetadata
  else
    let metadata_path := snapshot_root id ++ ["snapshot.json"] in
    file_metadata ← map_errors (λ _, SnapshotNotFound) (fs_symlink_metadata metadata_path);
    if negb (node_is_file file_metadata) then throw InvalidStagingMetadata
    else
      content ← snapshot_io (fs_read metadata_path);
      metadata ← pure (ok_or (snapshot_from_slice content) InvalidStagingMetadata);
      if negb (eqb (snapshot_schema_version metadata) SCHEMA_VERSION)
         || negb (eqb (snapshot_id metadata) id)
      then throw InvalidStagingMetadata
      else mret metadata.

Definition find_plugin (metadata : SnapshotMetadata) (plugin_id : PluginId) : option SnapshotPlugin :=
  find (λ candidate, eqb (snapshot_plugin_id candidate) plugin_id) (snapshot_plugins metadata).

Definition validate_grant (snapshot : SnapshotMetadata) (plugin : SnapshotPlugin)
    (grant : option LifecycleRiskGrant) : result PluginManagerError unit :=
  match snapshot_requires_lifecycle_scripts plugin, grant with
  | false, None => Ok tt
  | true, Some grant =>
      if eqb (grant_repository_id grant) (snapshot_repository_id snapshot)
         && eqb (grant_plugin_id grant) (snapshot_plugin_id plugin)
         && eqb (grant_commit_sha grant) (snapshot_commit_sha snapshot)
         && eqb (grant_risk_kind grant) LIFECYCLE_RISK_KIND
         && eqb (snapshot_lifecycle_script_reason plugin) (Some (grant_reason grant))
      then Ok tt
      else Err RiskGrantMismatch
  | _, _ => Err RiskGrantMismatch
  end.

Definition prepared_metadata (operation_id : Uuid) (metadata : SnapshotMetadata)
    (snapshot_id : Uuid) (plugin_id : PluginId) (plugin : SnapshotPlugin)
    (grant : option LifecycleRiskGrant) : PreparedMetadata :=
  mkPreparedMetadata SCHEMA_VERSION operation_id snapshot_id plugin_id
    (snapshot_repository_id metadata) (snapshot_source_url metadata) (snapshot_commit_sha metadata)
    (snapshot_plugin_path plugin) (snapshot_manifest_hash plugin) (snapshot_source_hash plugin)
    (snapshot_requires_lifecycle_scripts plugin) (grant_id <$> grant).

(** [if let Some(grant)]: the grant's file. *)
Definition mirror_grant (grant : option LifecycleRiskGrant) :
    act Disk PluginManagerError (option path) :=
  match grant with
  | None => mret None
  | Some grant =>
      let grants_root := plugin_data ++ ["grants"] in
      create_secure_directory_all grants_root;;
      atomic_write_json grants_root (json_name (grant_id grant)) (grant_to_vec (GrantMirror_from grant));;
      mret (Some (grants_root ++ [json_name (grant_id grant)]))
  end.

Definition remove_mirror (mirrored : option path) : act Disk IoError unit :=
  match mirrored with
  | None => mret tt
  | Some p => fs_remove_file p
  end.

Definition prepare_install (id : Uuid) (plugin_id : PluginId) (grant : option LifecycleRiskGrant) :
    act Disk PluginManagerError PreparedOperation :=
  metadata ← load_snapshot id;
  plugin ← pure (ok_or (find_plugin metadata plugin_id) InvalidStagingMetadata);
  pure (validate_grant metadata plugin grant);;
  operation_id ← query new_v4;
  let operation := prepared_metadata operation_id metadata id plugin_id plugin grant in
  let prepared_root := plugin_data ++ ["prepared"] in
  create_secure_directory_all prepared_root;;
  mirrored ← mirror_grant grant;
  on_error
    (atomic_write_json prepared_root (json_name operation_id) (prepared_to_vec operation))
    (remove_mirror mirrored);;
  mret (mkPreparedOperation operation_id plugin_id).

Definition expired (now created_at : time) : bool :=
  minutes SNAPSHOT_TTL_MINUTES <? now - created_at.

Definition load_plugin (id : Uuid) (plugin_id : PluginId) (now : time) :
    act Disk PluginManagerError StagedPlugin :=
  metadata ← load_snapshot id;
  if expired now (snapshot_created_at metadata) then throw SnapshotNotFound
  else
    plugin ← pure (ok_or (find_plugin metadata plugin_id) InvalidStagingMetadata);
    let manifest_path :=
      resolve (snapshot_root id ++ ["repository"]) (snapshot_plugin_path plugin)
      ++ ["audiodown-plugin.json"] in
    manifest_bytes ← snapshot_io (fs_read manifest_path);
    manifest ← pure (ok_or (plugin_manifest_from_slice manifest_bytes) InvalidPluginManifest);
    if negb (eqb (PluginManifest_id manifest) (snapshot_plugin_id plugin))
       || negb (eqb (PluginManifest_name manifest) (snapshot_plugin_name plugin))
       || negb (eqb (PluginManifest_version manifest) (snapshot_plugin_version plugin))
       || negb (eqb (PluginManifest_plugin_type manifest) (snapshot_plugin_type plugin))
       || negb (eqb (PluginManifest_credentials manifest) (snapshot_plugin_credentials plugin))
    then throw InvalidStagingMetadata
    else
      mret (mkStagedPlugin id (snapshot_repository_id metadata) (snapshot_source_url metadata)
              (snapshot_commit_sha metadata) (snapshot_plugin_path plugin) manifest
              (snapshot_manifest_hash plugin) (snapshot_source_hash plugin)
              (snapshot_requires_lifecycle_scripts plugin) (snapshot_lifecycle_script_reason plugin)).
(** One entry of the staging directory; what is not a snapshot is left alone. *)
Definition cleanup_entry (now : time) (name : string) : act Disk PluginManagerError unit :=
  if is_none (text ← name_to_str name; uuid_parse_str text) then mret tt
  else
    let entry_path := staging_root ++ [name] in
    metadata ← snapshot_io (fs_symlink_metadata entry_path);
    if negb (node_is_dir metadata) then mret tt
    else
      let snapshot_path := entry_path ++ ["snapshot.json"] in
      found ← query (path_is_file snapshot_path);
      if negb found then mret tt
      else
        content ← snapshot_io (fs_read snapshot_path);
        created_at ← pure (ok_or (cleanup_from_slice content) InvalidStagingMetadata);
        if expired now created_at then snapshot_io (fs_remove_dir_all entry_path) else mret tt.

Definition cleanup_expired (now : time) : act Disk PluginManagerError unit :=
  there ← query (path_exists staging_root);
  if negb there then mret tt
  else
    names ← snapshot_io (fs_read_dir staging_root);
    act_each (cleanup_entry now) names;;
    staging_sync_directory staging_root.
End store.

(** ** Inspecting a repository (service.rs) *)

Inductive InspectionError :=
  InspectionInvalidUrl | RepositoryUnavailable | InspectionInvalidRepository | InspectionBusy
| InspectionInternal.
Global Instance InspectionError_eq_dec : EqDecision InspectionError.
Proof. solve_decision. Defined.

Definition map_download_error (error : PluginManagerError) : InspectionError :=
  match error with
  | InvalidRepositoryUrl => InspectionInvalidUrl
  | _ => RepositoryUnavailable
  end.
Definition map_repository_error (_ : PluginManagerError) : InspectionError := InspectionInvalidRepository.

Record InspectedRepository := mkInspectedRepository {
  inspected_id : string;
  inspected_name : string;
  inspected_source_url : string;
  inspected_commit_sha : string;
}.
Record InspectedPlugin := mkInspectedPlugin {
  inspected_plugin_id : PluginId;
  inspected_plugin_name : string;
  inspected_version : string;
  inspected_plugin_type : PluginType;
  inspected_credentials : CredentialDeclarations;
  inspected_already_installed : bool;
  inspected_requires_grant : bool;
  inspected_reason : option string;
}.
Record RepositoryInspection := mkRepositoryInspection {
  inspection_snapshot_id : Uuid;
  inspection_repository : InspectedRepository;
  inspection_plugins : list InspectedPlugin;
}.

Definition InspectedPlugin_from_preview (preview : PluginPreview) (already_installed : bool) :
    InspectedPlugin :=
  mkInspectedPlugin (preview_plugin_id preview) (preview_name preview) (preview_version preview)
    (preview_plugin_type preview) (preview_credentials preview) already_installed
    (preview_requires_lifecycle_script_grant preview) (preview_lifecycle_script_reason preview).

(** What an inspection works on: the disk, the network with the plugin store, and
    the permits for concurrent inspections. *)
Record Inspector (W : Type) := mkInspector {
  inspector_disk : Disk;
  inspector_world : W;
  inspector_permits : Z;
}.
Arguments mkInspector {W}. Arguments inspector_disk {W}. Arguments inspector_world {W}.
Arguments inspector_permits {W}.

(** [Drop] of a guard: it runs however the block ends. *)
Definition finally {S E A F C} (m : act S E A) (last : act S F C) : act S E A := λ s,
  let '(r, s) := m s in (r, (last s).2).

Section inspect.
Context {K : Codec} {U : UrlLib} {B : Encoding} {L : RepositoryLib} {J : StagingJson} {R : ArchiveLib}.
Context {W : Type} {H : GitHubHttp W}.
(** [state_store.is_installed] *)
Context (is_installed : PluginId → act W PluginManagerError bool).
Context (plugin_data : path) (client : GitHubClient) (core_version plugin_api_version : Version).

Definition inspect_disk {E F A} (f : E → F) (m : act Disk E A) : act (Disk * W) F A :=
  map_errors f (on_disk_of m).

(** The work between the download directory and the answer. *)
Definition inspect_downloaded (source : GitHubRepositoryRef) (operation_root : path) (created_at : time) :
    act (Disk * W) InspectionError RepositoryInspection :=
  downloaded ← map_errors map_download_error (resolve_and_download client source operation_root);
  extracted ← inspect_disk map_repository_error
                (extract_snapshot_blocking (downloaded_archive_path downloaded)
                   (operation_root ++ ["extracted"]) SnapshotLimits_default);
  validated ← inspect_disk map_repository_error
                (validate_repository (repository_root extracted) core_version plugin_api_version
                   SnapshotLimits_default);
  preview ← inspect_disk (λ _, InspectionInternal)
              (create plugin_data source (downloaded_commit_sha downloaded) extracted validated created_at);
  plugins ← act_map (λ plugin,
              already_installed ← map_errors (λ _, InspectionInternal)
                                    (on_net (is_installed (preview_plugin_id plugin)));
              mret (InspectedPlugin_from_preview plugin already_installed)) (preview_plugins preview);
  mret (mkRepositoryInspection (preview_snapshot_id preview)
          (mkInspectedRepository (preview_repository_id preview) (preview_repository_name preview)
             (preview_source_url preview) (preview_commit_sha preview)) plugins).

(** With a permit; [created_at] is when the snapshot is created. *)
Definition inspect_permitted (source : GitHubRepositoryRef) (now created_at : time) :
    act (Disk * W) InspectionError RepositoryInspection :=
  inspect_disk (λ _, InspectionInternal) (cleanup_expired plugin_data now);;
  let incoming_root := plugin_data ++ ["incoming"] in
  inspect_disk (λ _, InspectionInternal) (fs_create_dir_all incoming_root);;
  id ← on_disk_of (query new_v4);
  let operation_root := incoming_root ++ [uuid_to_string id] in
  inspect_disk (λ _, InspectionInternal) (fs_create_dir operation_root);;
  finally (inspect_downloaded source operation_root created_at) (on_disk_of (fs_remove_dir_all operation_root)).

Definition inspect_repository_at (repository_url : string) (now created_at : time) :
    act (Inspector W) InspectionError RepositoryInspection := λ i,
  match GitHubRepositoryRef_parse repository_url with
  | Err _ => (Err InspectionInvalidUrl, i)
  | Ok source =>
      if inspector_permits i <=? 0 then (Err InspectionBusy, i)
      else
        let '(r, (d, w)) := inspect_permitted source now created_at (inspector_disk i, inspector_world i) in
        (r, mkInspector d w (inspector_permits i))
  end.
End inspect.
