(* ===== verification/PreparedInstall.v ===== *)
(** * Prepared installations (audiodown-supervisor: prepared_install.rs, trusted_images.rs)

    Before the supervisor builds a plugin it checks everything the core has
    written about the installation again: the prepared operation, the snapshot it
    refers to, the files of the plugin with their hashes, its npm package and the
    consent to lifecycle scripts.  The images it builds with are pinned. *)

From S2P Require Import Prelude Text Std Domain Foreign CredentialContract Database Stateful Fs Redaction.
From S2P Require Import ContainerPolicy PluginManager PluginArchive PluginRepository SnapshotStore InstallRecord.

(** ** prepared_install.rs *)

Inductive PreparedInstallError :=
  PreparedInvalidMetadata | IdentityMismatch | SnapshotMismatch | UnsafePath | PreparedFilesystem
| PreparedInvalidManifest | PreparedInvalidPackage | HashMismatch | PreparedRiskGrantMismatch.
Global Instance PreparedInstallError_eq_dec : EqDecision PreparedInstallError.
Proof. solve_decision. Defined.

Definition REGISTRY_HOST : string := "registry.npmjs.org".

Record ValidatedPreparedInstall := mkValidatedPreparedInstall {
  install_operation_id : Uuid;
  install_snapshot_id : Uuid;
  install_plugin_id : PluginId;
  install_repository_id : string;
  install_source_url : string;
  install_commit_sha : string;
  install_plugin_path : string;
  install_plugin_root : path;
  install_manifest : PluginManifest;
  install_manifest_hash : string;
  install_source_hash : string;
  install_allow_lifecycle_scripts : bool;
  install_risk_grant_id : option Uuid;
}.

Definition validate_commit_sha (value : string) : result PreparedInstallError unit :=
  if negb (is_lower_hex value 40) then Err PreparedInvalidMetadata else Ok tt.
Definition validate_hash (value : string) : result PreparedInstallError unit :=
  if negb (is_lower_hex value 64) then Err PreparedInvalidMetadata else Ok tt.

(** The [PathBuf] is the string itself. *)
Definition prepared_relative_path (value : string) : result PreparedInstallError string :=
  if str_is_empty value || negb (eqb value (trim value)) || str_contains value (chr 92)
     || str_contains value (chr 0)
  then Err UnsafePath
  else if is_absolute value
          || existsb (λ component, negb (is_normal component)) (components value)
          || existsb (λ segment, str_contains segment ":"%char) (split "/"%char value)
  then Err UnsafePath
  else Ok value.

Definition filesystem {A} (m : act Disk IoError A) : act Disk PreparedInstallError A :=
  map_errors (λ _, PreparedFilesystem) m.

Definition require_directory (p : path) : act Disk PreparedInstallError unit :=
  metadata ← filesystem (fs_symlink_metadata p);
  if negb (node_is_dir metadata) then throw UnsafePath else mret tt.
Definition require_regular_file (p : path) : act Disk PreparedInstallError unit :=
  metadata ← filesystem (fs_symlink_metadata p);
  if negb (node_is_file metadata) then throw UnsafePath else mret tt.
Definition read_regular_file (p : path) : act Disk PreparedInstallError (list byte) :=
  require_regular_file p;;
  filesystem (fs_read p).
Definition read_json_regular_file {T} (decode : list byte → option T) (p : path) :
    act Disk PreparedInstallError T :=
  content ← read_regular_file p;
  pure (ok_or (decode content) PreparedInvalidMetadata).

Fixpoint prepared_collect_files (fuel : nat) (root directory : path) :
    act Disk PreparedInstallError (list (string * path)) :=
  match fuel with
  | O => throw PreparedFilesystem
  | S fuel =>
      names ← filesystem (fs_read_dir directory);
      files ← act_map (λ name,
                let p := directory ++ [name] in
                metadata ← filesystem (fs_symlink_metadata p);
                if node_is_dir metadata then prepared_collect_files fuel root p
                else
                  relative ← pure (ok_or (relative_text root p) UnsafePath);
                  mret [(relative, p)]) names;
      mret (concat files)
  end.

(** The recursion descends at most as deep as the longest path. *)
Definition prepared_files (root : path) : act Disk PreparedInstallError (list (string * path)) := λ d,
  prepared_collect_files (S (fs_depth (disk_fs d))) root root d.

Definition validate_regular_tree (root : path) : act Disk PreparedInstallError unit :=
  prepared_files root;; mret tt.

Section hash.
Context {B : Encoding}.

Definition prepared_hash_source_tree (root : path) : act Disk PreparedInstallError string :=
  files ← prepared_files root;
  frames ← act_map (λ file : string * path,
             content ← read_regular_file file.2;
             mret (hash_frame file.1 content)) (sort_by by_path files);
  mret (hex (sha256 (concat frames))).
End hash.

(** *** The package *)

Definition package_string (o : JsonObject) (field : string) : result PreparedInstallError string :=
  match (v ← object_get o field; as_str v) with
  | Some value => if str_is_empty value then Err PreparedInvalidPackage else Ok value
  | None => Err PreparedInvalidPackage
  end.
Definition package_object (v : JsonValue) : result PreparedInstallError JsonObject :=
  ok_or (as_object v) PreparedInvalidPackage.

Definition valid_dependency_specification (value : string) : bool :=
  let value := trim value in
  let lowercase := to_ascii_lowercase value in
  negb (str_is_empty value)
  && negb (str_contains value "/"%char)
  && negb (str_contains value (chr 92))
  && negb (contains_str value "://")
  && negb (starts_with lowercase "file:")
  && negb (starts_with lowercase "link:")
  && negb (starts_with lowercase "git")
  && negb (starts_with lowercase "github:")
  && negb (starts_with lowercase "workspace:")
  && negb (starts_with lowercase "http:")
  && negb (starts_with lowercase "https:").

Fixpoint package_dependency_entries (members : JsonObject) (dependencies : gmap string string) :
    result PreparedInstallError (gmap string string) :=
  match members with
  | [] => Ok dependencies
  | (name, value) :: members =>
      match as_str value with
      | Some specification =>
          if negb (valid_dependency_specification specification) then Err PreparedInvalidPackage
          else if str_is_empty name then Err PreparedInvalidPackage
          else package_dependency_entries members (<[name := specification]> dependencies)
      | None => Err PreparedInvalidPackage
      end
  end.
Definition package_dependency_map (o : JsonObject) (field : string) :
    result PreparedInstallError (gmap string string) :=
  match object_get o field with
  | None => Ok ∅
  | Some value => values ← package_object value; package_dependency_entries values ∅
  end.

Definition validate_matching_dependency_maps (package lock_root : JsonObject) :
    result PreparedInstallError unit :=
  for_each (λ field,
    left ← package_dependency_map package field;
    right ← package_dependency_map lock_root field;
    if negb (eqb left right) then Err PreparedInvalidPackage else Ok tt) dependency_fields.

Section package.
Context {U : UrlLib} {B : Encoding} {L : RepositoryLib}.

Definition package_resolved (entry : JsonObject) : result PreparedInstallError unit :=
  resolved ← package_string entry "resolved";
  url ← ok_or (Url_parse resolved) PreparedInvalidPackage;
  if negb (plain_https url REGISTRY_HOST) then Err PreparedInvalidPackage else Ok tt.

Definition package_integrity (entry : JsonObject) : result PreparedInstallError unit :=
  integrity ← package_string entry "integrity";
  encoded ← ok_or (strip_prefix integrity "sha512-") PreparedInvalidPackage;
  if contains_whitespace (bytes encoded) then Err PreparedInvalidPackage
  else
    digest ← ok_or (standard_decode encoded) PreparedInvalidPackage;
    if negb (zlen digest =? 64) then Err PreparedInvalidPackage else Ok tt.

Definition package_entry (e : string * JsonValue) : result PreparedInstallError unit :=
  let '(path, value) := e in
  if str_is_empty path then Ok tt
  else if negb (starts_with path "node_modules/") || str_contains path (chr 92)
  then Err PreparedInvalidPackage
  else
    dependency ← package_object value;
    if eqb (link ← object_get dependency "link"; as_bool link) (Some true)
    then Err PreparedInvalidPackage
    else
      for_each (λ field, package_dependency_map dependency field;; Ok tt) dependency_fields;;
      package_resolved dependency;;
      package_integrity dependency.

(** [Option<u64>]'s order: [None] comes first. *)
Definition option_lt (a b : option Z) : bool :=
  match a, b with
  | None, Some _ => true
  | Some a, Some b => a <? b
  | _, None => false
  end.

Definition member_object (o : JsonObject) (field : string) : result PreparedInstallError JsonObject :=
  found ← transpose_map package_object (object_get o field);
  ok_or found PreparedInvalidPackage.

Definition prepared_package_objects (package lockfile : JsonObject) (lifecycle_scripts_allowed : bool) :
    result PreparedInstallError unit :=
  package_name ← package_string package "name";
  package_version ← package_string package "version";
  scripts ← transpose_map package_object (object_get package "scripts");
  let has_lifecycle_scripts :=
    is_some_and (λ scripts, existsb (λ name, is_some (object_get scripts name)) LIFECYCLE_SCRIPTS) scripts in
  if negb (eqb has_lifecycle_scripts lifecycle_scripts_allowed) then Err PreparedInvalidPackage
  else if option_lt (v ← object_get lockfile "lockfileVersion"; as_u64 v) (Some 2)
  then Err PreparedInvalidPackage
  else
    packages ← member_object lockfile "packages";
    root ← member_object packages "";
    root_name ← package_string root "name";
    if negb (eqb root_name package_name) then Err PreparedInvalidPackage
    else
      root_version ← package_string root "version";
      if negb (eqb root_version package_version) then Err PreparedInvalidPackage
      else
        validate_matching_dependency_maps package root;;
        if 256 <? Z.max 0 (zlen packages - 1) then Err PreparedInvalidPackage
        else for_each package_entry packages.

Definition read_json_object (p : path) : act Disk PreparedInstallError JsonObject :=
  content ← read_regular_file p;
  value ← pure (ok_or (value_from_slice content) PreparedInvalidPackage);
  pure (ok_or (as_object value) PreparedInvalidPackage).

Definition prepared_validate_package (plugin_root : path) (lifecycle_scripts_allowed : bool) :
    act Disk PreparedInstallError unit :=
  package ← read_json_object (plugin_root ++ ["package.json"]);
  lockfile ← read_json_object (plugin_root ++ ["package-lock.json"]);
  pure (prepared_package_objects package lockfile lifecycle_scripts_allowed).
End package.

(** *** The installation *)

Section install.
Context {K : Codec} {U : UrlLib} {B : Encoding} {L : RepositoryLib} {J : StagingJson}.
Context (plugin_data : path).

Definition validate_risk_grant (prepared : PreparedMetadata) (expected_reason : option string) (now : time) :
    act Disk PreparedInstallError unit :=
  match prepared_allow_lifecycle_scripts prepared, prepared_risk_grant_id prepared with
  | false, None => mret tt
  | true, Some grant_id =>
      grant ← read_json_regular_file grant_from_slice (plugin_data ++ ["grants"; json_name grant_id]);
      if negb (eqb (mirror_schema_version grant) SCHEMA_VERSION)
         || negb (eqb (mirror_grant_id grant) grant_id)
         || negb (eqb (mirror_repository_id grant) (prepared_repository_id prepared))
         || negb (eqb (mirror_plugin_id grant) (prepared_plugin prepared))
         || negb (eqb (mirror_commit_sha grant) (prepared_commit_sha prepared))
         || negb (eqb (mirror_risk_kind grant) LIFECYCLE_RISK_KIND)
         || negb (eqb (Some (mirror_reason grant)) expected_reason)
         || (now <? mirror_granted_at grant)
      then throw PreparedRiskGrantMismatch
      else mret tt
  | _, _ => throw PreparedRiskGrantMismatch
  end.

(** The prepared operation as requested, and the snapshot it belongs to. *)
Definition load_prepared (requested_plugin_id : PluginId) (requested_operation_id : Uuid) :
    act Disk PreparedInstallError PreparedMetadata :=
  prepared ← read_json_regular_file prepared_from_slice
               (plugin_data ++ ["prepared"; json_name requested_operation_id]);
  if negb (eqb (prepared_schema_version prepared) SCHEMA_VERSION)
     || negb (eqb (prepared_id prepared) requested_operation_id)
     || negb (eqb (prepared_plugin prepared) requested_plugin_id)
  then throw IdentityMismatch
  else
    pure (validate_commit_sha (prepared_commit_sha prepared));;
    pure (validate_hash (prepared_manifest_hash prepared));;
    pure (validate_hash (prepared_source_hash prepared));;
    mret prepared.

Definition load_prepared_snapshot (prepared : PreparedMetadata) (now : time) :
    act Disk PreparedInstallError SnapshotPlugin :=
  let root := snapshot_root plugin_data (prepared_snapshot_id prepared) in
  require_directory root;;
  snapshot ← read_json_regular_file snapshot_from_slice (root ++ ["snapshot.json"]);
  if negb (eqb (snapshot_schema_version snapshot) SCHEMA_VERSION)
     || negb (eqb (snapshot_id snapshot) (prepared_snapshot_id prepared))
     || str_is_empty (trim (snapshot_repository_name snapshot))
     || negb (eqb (snapshot_repository_id snapshot) (prepared_repository_id prepared))
     || negb (eqb (snapshot_source_url snapshot) (prepared_source_url prepared))
     || negb (eqb (snapshot_commit_sha snapshot) (prepared_commit_sha prepared))
     || (now <? snapshot_created_at snapshot)
     || (snapshot_file_count snapshot =? 0)
     || (snapshot_extracted_bytes snapshot =? 0)
  then throw SnapshotMismatch
  else
    pure (validate_commit_sha (snapshot_commit_sha snapshot));;
    snapshot_plugin ← pure (ok_or (find (λ plugin, eqb (snapshot_plugin_id plugin) (prepared_plugin prepared))
                                     (snapshot_plugins snapshot)) SnapshotMismatch);
    if negb (eqb (snapshot_plugin_path snapshot_plugin) (prepared_plugin_path prepared))
       || negb (eqb (snapshot_manifest_hash snapshot_plugin) (prepared_manifest_hash prepared))
       || negb (eqb (snapshot_source_hash snapshot_plugin) (prepared_source_hash prepared))
    then throw SnapshotMismatch
    else mret snapshot_plugin.

(** The manifest in the plugin's directory. *)
Definition load_prepared_manifest (prepared : PreparedMetadata) (snapshot_plugin : SnapshotPlugin)
    (plugin_root : path) : act Disk PreparedInstallError PluginManifest :=
  manifest_bytes ← read_regular_file (plugin_root ++ ["audiodown-plugin.json"]);
  if negb (eqb (sha256_hex manifest_bytes) (prepared_manifest_hash prepared)) then throw HashMismatch
  else
    manifest ← pure (ok_or (plugin_manifest_from_slice manifest_bytes) PreparedInvalidManifest);
    if negb (eqb (PluginManifest_schema_version manifest) SCHEMA_VERSION)
       || negb (eqb (PluginManifest_id manifest) (prepared_plugin prepared))
       || negb (eqb (PluginManifest_name manifest) (snapshot_plugin_name snapshot_plugin))
       || negb (eqb (PluginManifest_version manifest) (snapshot_plugin_version snapshot_plugin))
       || negb (eqb (PluginManifest_plugin_type manifest) (snapshot_plugin_type snapshot_plugin))
       || negb (eqb (PluginManifest_credentials manifest) (snapshot_plugin_credentials snapshot_plugin))
       || negb (match RuntimeSpec_kind (PluginManifest_runtime manifest) with Nodejs => true end)
       || negb (eqb (RuntimeSpec_version (PluginManifest_runtime manifest)) "22")
    then throw PreparedInvalidManifest
    else mret manifest.

(** [now] and [later]: the two readings of the clock. *)
Definition validate_prepared_install (requested_plugin_id : PluginId) (requested_operation_id : Uuid)
    (now later : time) : act Disk PreparedInstallError ValidatedPreparedInstall :=
  prepared ← load_prepared requested_plugin_id requested_operation_id;
  snapshot_plugin ← load_prepared_snapshot prepared now;
  normalized_plugin_path ← pure (prepared_relative_path (prepared_plugin_path prepared));
  let repository_root := snapshot_root plugin_data (prepared_snapshot_id prepared) ++ ["repository"] in
  require_directory repository_root;;
  let plugin_root := resolve repository_root normalized_plugin_path in
  require_directory plugin_root;;
  validate_regular_tree plugin_root;;
  manifest ← load_prepared_manifest prepared snapshot_plugin plugin_root;
  runtime_entry ← pure (prepared_relative_path (RuntimeSpec_entry (PluginManifest_runtime manifest)));
  require_regular_file (resolve plugin_root runtime_entry);;
  source_hash ← prepared_hash_source_tree plugin_root;
  if negb (eqb source_hash (prepared_source_hash prepared)) then throw HashMismatch
  else
    let policy := BuildSpec_npm_lifecycle_scripts (PluginManifest_build manifest) in
    if negb (eqb (snapshot_requires_lifecycle_scripts snapshot_plugin) (LifecycleScriptPolicy_required policy))
       || negb (eqb (snapshot_lifecycle_script_reason snapshot_plugin) (trimmed_reason policy))
       || negb (eqb (prepared_allow_lifecycle_scripts prepared) (LifecycleScriptPolicy_required policy))
    then throw PreparedRiskGrantMismatch
    else
      prepared_validate_package plugin_root (prepared_allow_lifecycle_scripts prepared);;
      validate_risk_grant prepared (snapshot_lifecycle_script_reason snapshot_plugin) later;;
      mret (mkValidatedPreparedInstall (prepared_id prepared) (prepared_snapshot_id prepared)
              (prepared_plugin prepared) (prepared_repository_id prepared) (prepared_source_url prepared)
              (prepared_commit_sha prepared) (prepared_plugin_path prepared) plugin_root manifest
              (prepared_manifest_hash prepared) (prepared_source_hash prepared)
              (prepared_allow_lifecycle_scripts prepared) (prepared_risk_grant_id prepared)).
End install.

(** ** trusted_images.rs *)

Definition NODE22_BASE_TAG : string := "node:22-bookworm-slim".
Definition BUILDER_IMAGE : string := "audiodown/plugin-builder-node22:1.0".
Definition RUNTIME_IMAGE : string := "audiodown/plugin-runtime-node22:1.0".
Definition POLICY_VERSION : string := "1.0".

Definition TRUSTED_IMAGE_LABEL : string := "io.audiodown.trusted-image".
Definition IMAGE_KIND_LABEL : string := "io.audiodown.trusted-image-kind".
Definition BASE_DIGEST_LABEL : string := "io.audiodown.base-image-digest".
Definition SDK_HASH_LABEL : string := "io.audiodown.sdk-hash".
Definition ASSET_HASH_LABEL : string := "io.audiodown.asset-hash".
Definition POLICY_VERSION_LABEL : string := "io.audiodown.build-policy-version".

Inductive TrustedImageError :=
  UnexpectedBaseImage | InvalidDigest | RepoDigestMismatch | InvalidAttestation | LabelMismatch
| LockJson.

Record NodeImageLock := mkNodeImageLock { lock_image : string; lock_digest : string }.

Definition NodeImageLock_validate (self : NodeImageLock) : result TrustedImageError unit :=
  if negb (eqb (lock_image self) NODE22_BASE_TAG) then Err UnexpectedBaseImage
  else if negb (is_sha256_digest (lock_digest self)) then Err InvalidDigest
  else Ok tt.

(** [decoded]: what serde_json makes of the file. *)
Definition NodeImageLock_parse (decoded : option NodeImageLock) : result TrustedImageError NodeImageLock :=
  lock ← ok_or decoded LockJson;
  NodeImageLock_validate lock;;
  Ok lock.

Inductive TrustedImageKind := BuilderImage | RuntimeImage.
Definition TrustedImageKind_label_value (self : TrustedImageKind) : string :=
  match self with BuilderImage => "node22-builder" | RuntimeImage => "node22-runtime" end.

Definition pinned_base_reference (lock : NodeImageLock) : result TrustedImageError string :=
  NodeImageLock_validate lock;;
  Ok (lock_image lock +:+ "@" +:+ lock_digest lock).

Definition verify_repo_digests (lock : NodeImageLock) (repo_digests : list string) :
    result TrustedImageError unit :=
  NodeImageLock_validate lock;;
  expected ← pinned_base_reference lock;
  let repository := default (lock_image lock) (fst <$> split_once ":"%char (lock_image lock)) in
  let canonical := repository +:+ "@" +:+ lock_digest lock in
  if existsb (λ digest, eqb digest expected || eqb digest canonical) repo_digests
  then Ok tt
  else Err RepoDigestMismatch.

Definition trusted_image_labels (kind : TrustedImageKind) (base_digest sdk_hash asset_hash : string) :
    gmap string string :=
  list_to_map [
    (TRUSTED_IMAGE_LABEL, "true");
    (IMAGE_KIND_LABEL, TrustedImageKind_label_value kind);
    (BASE_DIGEST_LABEL, base_digest);
    (SDK_HASH_LABEL, sdk_hash);
    (ASSET_HASH_LABEL, asset_hash);
    (POLICY_VERSION_LABEL, POLICY_VERSION)].

Definition verify_trusted_image_labels (kind : TrustedImageKind)
    (base_digest sdk_hash asset_hash : string) (labels : gmap string string) :
    result TrustedImageError unit :=
  if negb (is_sha256_digest base_digest) || negb (is_lower_hex_sha256 sdk_hash)
     || negb (is_lower_hex_sha256 asset_hash)
  then Err InvalidAttestation
  else if forallb (λ e, eqb (labels !! e.1) (Some e.2))
            (map_to_list (trusted_image_labels kind base_digest sdk_hash asset_hash))
  then Ok tt
  else Err LabelMismatch.
