(* ===== verification/PreparedInstallProps.v ===== *)
(** * Properties of prepared installations

    The supervisor's checks of a package and its hash over a tree agree with the
    core's; what it accepts is what the core staged; and what the core staged is
    accepted. *)

From S2P Require Import Prelude Text Std Domain Foreign CredentialContract Database Stateful Fs.
From S2P Require Import ContainerPolicy InstallRecord PluginManager PluginArchive PluginRepository PluginRepositoryProps.
From S2P Require Import SnapshotStore PreparedInstall.

(** ** The two checks of a package *)

Section packages.
Context {U : UrlLib} {B : Encoding} {L : RepositoryLib}.

(** The supervisor's answer to the same question. *)
Definition in_supervisor {A} (r : result PluginManagerError A) : result PreparedInstallError A :=
  map_err (λ _, PreparedInvalidPackage) r.

Lemma in_supervisor_bind {A C} (r : result PluginManagerError A) (f : A → result PluginManagerError C) :
  in_supervisor (r ≫= f) = in_supervisor r ≫= λ a, in_supervisor (f a).
Proof. by destruct r. Qed.

Lemma in_supervisor_ok_or {A} (o : option A) e : in_supervisor (ok_or o e) = ok_or o PreparedInvalidPackage.
Proof. by destruct o. Qed.

Lemma in_supervisor_each {A} (f : A → result PluginManagerError unit) g l :
  (∀ a, g a = in_supervisor (f a)) → for_each g l = in_supervisor (for_each f l).
Proof.
  intros Hf. induction l as [|a l IH]; [done|]. cbn [for_each]. rewrite in_supervisor_bind, Hf, IH. done.
Qed.

Lemma bind_ext {E A C} (r : result E A) (f g : A → result E C) : (∀ a, f a = g a) → r ≫= f = r ≫= g.
Proof. intros H. destruct r; [apply H|done]. Qed.

Lemma package_string_core o field : package_string o field = in_supervisor (required_string o field).
Proof. unfold package_string, required_string. destruct (_ ≫= _); [|done]. by destruct (str_is_empty _). Qed.

Lemma package_object_core v : package_object v = in_supervisor (object_of v).
Proof. unfold package_object, object_of. by rewrite in_supervisor_ok_or. Qed.

Lemma specification_core value :
  (if negb (valid_dependency_specification value) then Err PreparedInvalidPackage else Ok tt)
  = in_supervisor (validate_dependency_specification value).
Proof.
  unfold valid_dependency_specification, validate_dependency_specification. cbn zeta.
  rewrite <- !negb_orb, negb_involutive. by destruct (_ || _).
Qed.

Lemma dependency_entries_core members m :
  package_dependency_entries members m = in_supervisor (dependency_entries members m).
Proof.
  revert m. induction members as [|[name value] members IH]; intros m; [done|].
  cbn [package_dependency_entries dependency_entries].
  destruct (str_is_empty name).
  - destruct (as_str value) as [s|]; [|done]. by destruct (negb _).
  - rewrite in_supervisor_bind, in_supervisor_ok_or. destruct (as_str value) as [s|]; [|done]. simpl.
    rewrite in_supervisor_bind, <- specification_core. destruct (negb _); [done|]. apply IH.
Qed.

Lemma dependency_map_core o field : package_dependency_map o field = in_supervisor (dependency_map o field).
Proof.
  unfold package_dependency_map, dependency_map. destruct (object_get o field) as [v|]; [|done].
  rewrite in_supervisor_bind, in_supervisor_ok_or. unfold package_object.
  apply bind_ext. intros members. apply dependency_entries_core.
Qed.

Lemma matching_maps_core package root :
  validate_matching_dependency_maps package root = in_supervisor (validate_root_dependencies package root).
Proof.
  apply in_supervisor_each. intros field. rewrite in_supervisor_bind, (dependency_map_core package).
  apply bind_ext. intros m. rewrite in_supervisor_bind, (dependency_map_core root).
  apply bind_ext. intros m'. by destruct (negb _).
Qed.

Lemma resolved_core entry : package_resolved entry = in_supervisor (validate_resolved entry).
Proof.
  unfold package_resolved, validate_resolved. rewrite in_supervisor_bind, package_string_core.
  apply bind_ext. intros s. rewrite in_supervisor_bind, in_supervisor_ok_or.
  apply bind_ext. intros url. by destruct (negb _).
Qed.

Lemma integrity_core entry : package_integrity entry = in_supervisor (validate_integrity entry).
Proof.
  unfold package_integrity, validate_integrity. rewrite in_supervisor_bind, package_string_core.
  apply bind_ext. intros s. rewrite in_supervisor_bind, in_supervisor_ok_or.
  apply bind_ext. intros encoded. destruct (contains_whitespace _); [done|].
  rewrite in_supervisor_bind, in_supervisor_ok_or. apply bind_ext. intros digest. by destruct (negb _).
Qed.

Lemma package_entry_core e : package_entry e = in_supervisor (validate_locked_package e).
Proof.
  destruct e as [p v]. unfold package_entry, validate_locked_package.
  destruct (str_is_empty p); [done|]. destruct (_ || _); [done|].
  rewrite in_supervisor_bind, package_object_core. apply bind_ext. intros entry. destruct (eqb _ _); [done|].
  rewrite in_supervisor_bind. unfold validate_dependency_maps.
  rewrite <- (in_supervisor_each _ (λ field, package_dependency_map entry field;; Ok tt)).
  - apply bind_ext. intros []. rewrite in_supervisor_bind, resolved_core. apply bind_ext. intros [].
    apply integrity_core.
  - intros field. rewrite in_supervisor_bind, dependency_map_core. by apply bind_ext.
Qed.

Lemma transpose_core o :
  transpose_map package_object o = in_supervisor (transpose_map object_of o).
Proof. destruct o as [v|]; [|done]. simpl. rewrite in_supervisor_bind, package_object_core. by apply bind_ext. Qed.

Lemma member_object_core o field : member_object o field = in_supervisor (required_object o field).
Proof.
  unfold member_object, required_object. rewrite in_supervisor_bind, transpose_core.
  apply bind_ext. intros found. by rewrite in_supervisor_ok_or.
Qed.

Lemma package_objects_core package lockfile scripts :
  prepared_package_objects package lockfile scripts
  = in_supervisor (validate_package_objects package lockfile scripts).
Proof.
  unfold prepared_package_objects, validate_package_objects. cbn zeta.
  rewrite in_supervisor_bind, (package_string_core package "name"). apply bind_ext. intros name.
  rewrite in_supervisor_bind, (package_string_core package "version"). apply bind_ext. intros version.
  rewrite in_supervisor_bind, transpose_core. apply bind_ext. intros found. destruct (negb _); [done|].
  rewrite in_supervisor_bind, in_supervisor_ok_or.
  destruct (object_get lockfile "lockfileVersion" ≫= as_u64) as [v|]; simpl; [|done].
  destruct (v <? 2); [done|]. rewrite in_supervisor_bind, (member_object_core lockfile). apply bind_ext. intros packages.
  rewrite in_supervisor_bind, (member_object_core packages). apply bind_ext. intros root.
  rewrite in_supervisor_bind, (package_string_core root "name"). apply bind_ext. intros root_name. destruct (negb _); [done|].
  rewrite in_supervisor_bind, (package_string_core root "version"). apply bind_ext. intros root_version. destruct (negb _); [done|].
  rewrite in_supervisor_bind, matching_maps_core. apply bind_ext. intros [].
  destruct (_ <? _); [done|]. by apply in_supervisor_each, package_entry_core.
Qed.

(** C26. The supervisor accepts exactly the packages the core accepts. *)
Theorem package_checks_agree package lockfile scripts :
  prepared_package_objects package lockfile scripts
  = in_supervisor (validate_package_objects package lockfile scripts).
Proof. apply package_objects_core. Qed.
End packages.

(** ** Runs without faults

    [settles m fs a]: on a disk that does not fail and holds [fs], [m] answers [a]
    and leaves the disk as it was. *)

Definition settles {E A} (m : act Disk E A) (fs : Fs) (a : A) : Prop :=
  ∀ d, disk_fs d = fs → disk_faults d = [] → m d = (Ok a, d).

Section settles.
Context {E : Type} (fs : Fs).

Lemma settles_ret {A} (a : A) : settles (mret a : act Disk E A) fs a.
Proof. done. Qed.
Lemma settles_pure {A} (r : result E A) a : r = Ok a → settles (pure r) fs a.
Proof. by intros ->. Qed.
Lemma settles_bind {A C} (m : act Disk E A) (f : A → act Disk E C) a c :
  settles m fs a → settles (f a) fs c → settles (m ≫= f) fs c.
Proof. intros Hm Hf d Hd Hq. unfold mbind, act_bind. rewrite (Hm d) by done. by apply Hf. Qed.
Lemma settles_map_errors {F A} (g : F → E) (m : act Disk F A) a :
  settles m fs a → settles (map_errors g m) fs a.
Proof. intros Hm d Hd Hq. unfold map_errors. by rewrite (Hm d). Qed.
Lemma settles_map {A C} (f : A → act Disk E C) l ys :
  Forall2 (λ x y, settles (f x) fs y) l ys → settles (act_map f l) fs ys.
Proof.
  induction 1 as [|x y l ys Hx _ IH]; [apply settles_ret|]. cbn [act_map].
  eapply settles_bind; [exact Hx|]. eapply settles_bind; [exact IH|]. apply settles_ret.
Qed.
Lemma settles_if {A} (b : bool) (m1 m2 : act Disk E A) a :
  b = false → settles m2 fs a → settles (if b then m1 else m2) fs a.
Proof. by intros ->. Qed.
End settles.

Lemma settles_syscall {A : Type} (fs : Fs) (f : Fs → result IoError (A * Fs)) a :
  f fs = Ok (a, fs) → settles (syscall f) fs a.
Proof.
  intros Hf d <- Hq. rewrite quiet_syscall by done. rewrite Hf. by destruct d.
Qed.

Lemma settles_same {E A : Type} (m : act Disk E A) fs a d r d' :
  settles m fs a → disk_fs d = fs → disk_faults d = [] → m d = (r, d') → r = Ok a ∧ d' = d.
Proof. intros Hm Hd Hq H. rewrite (Hm d) in H by done. by injection H as <- <-. Qed.

(** A successful call that only reads settles. *)
Lemma reads_settle {A : Type} (f : Fs → result IoError (A * Fs)) d a d' :
  disk_fs d' = disk_fs d → syscall f d = (Ok a, d') → settles (syscall f) (disk_fs d) a.
Proof. intros Hs H%syscall_Ok. apply settles_syscall. by rewrite Hs in H. Qed.

Lemma settles_read (fs : Fs) p content : fs !! p = Some (File content) → settles (fs_read p) fs content.
Proof. intros H. apply settles_syscall. by rewrite H. Qed.
Lemma settles_metadata (fs : Fs) p n : fs !! p = Some n → settles (fs_symlink_metadata p) fs n.
Proof. intros H. apply settles_syscall. by rewrite H. Qed.
Lemma settles_entries (fs : Fs) p : fs !! p = Some Dir → settles (fs_read_entries p) fs (children p fs).
Proof. intros H. apply settles_syscall. unfold is_dir. by rewrite H. Qed.
Lemma settles_read_dir (fs : Fs) p : fs !! p = Some Dir → settles (fs_read_dir p) fs (children p fs).*1.
Proof. intros H. apply settles_syscall. unfold is_dir. by rewrite H. Qed.

Lemma settles_regular_file (fs : Fs) p content :
  fs !! p = Some (File content) → settles (read_regular_file p) fs content.
Proof.
  intros H. unfold read_regular_file, require_regular_file, filesystem.
  eapply (settles_bind _ _ _ tt); [|by apply settles_map_errors, settles_read].
  eapply settles_bind; [by apply settles_map_errors, settles_metadata|]. by apply settles_if, settles_ret.
Qed.

Lemma settles_directory (fs : Fs) p : fs !! p = Some Dir → settles (require_directory p) fs tt.
Proof.
  intros H. unfold require_directory, filesystem.
  eapply settles_bind; [by apply settles_map_errors, settles_metadata|]. by apply settles_if, settles_ret.
Qed.

(** ** The two hashes *)

Lemma fs_read_dir_same p : moves same_fs (fs_read_dir p).
Proof.
  apply syscall_same_fs. intros fs a fs'. destruct (is_dir fs p); [naive_solver|]. destruct (is_some _); naive_solver.
Qed.

Lemma prepared_collect_same fuel root directory : moves same_fs (prepared_collect_files fuel root directory).
Proof.
  revert directory. induction fuel as [|fuel IH]; intros directory; cbn [prepared_collect_files]; unfold filesystem; moves.
  - apply fs_read_dir_same.
  - apply fs_symlink_metadata_same.
  - apply IH.
Qed.

Lemma Forall2_impl_in {A C} (P Q : A → C → Prop) l k :
  Forall2 P l k → (∀ x y, x ∈ l → P x y → Q x y) → Forall2 Q l k.
Proof.
  induction 1 as [|x y l k Hx _ IH]; intros H; constructor; [apply H; [by left|done]|].
  apply IH. intros x' y' Hin. apply H. by right.
Qed.

(** What the supervisor collects the core collects on the same tree, and conversely. *)
Lemma prepared_collect_core fuel root directory d files d' :
  prepared_collect_files fuel root directory d = (Ok files, d') →
  settles (collect_files fuel root directory) (disk_fs d) files.
Proof.
  revert directory d files d'. induction fuel as [|fuel IH]; intros directory d files d' H;
    cbn [prepared_collect_files] in H; [done|].
  apply act_bind_Ok in H as (names & d1 & Hn%map_errors_Ok & H).
  pose proof (moves_run _ _ _ _ _ (fs_read_dir_same _) Hn) as Hd1. unfold same_fs in Hd1.
  apply act_bind_Ok in H as (parts & d2 & Hm & [-> _]%act_ret_Ok).
  apply syscall_Ok in Hn. destruct (is_dir (disk_fs d) directory) eqn:Edir; [|by destruct (is_some _)].
  unfold is_dir in Edir. bool_prop. injection Hn as <- _.
  apply (act_map_Forall2 _ (λ s, disk_fs s = disk_fs d)) in Hm as [_ Hm]; [|intros name s <-|done].
  2:{ match goal with |- disk_fs (?m s).2 = _ => enough (moves same_fs m) as Hr by exact (Hr s) end.
      unfold filesystem. moves; [apply fs_symlink_metadata_same|apply prepared_collect_same]. }
  cbn [collect_files]. eapply settles_bind; [by apply settles_map_errors, settles_entries|].
  eapply settles_bind; [|apply settles_ret]. apply settles_map.
  rewrite Forall2_fmap_l in Hm. eapply Forall2_impl_in; [exact Hm|].
  intros [name n] part Hin (s1 & s2 & Hs & Hf). apply elem_of_children in Hin. simpl in *.
  apply act_bind_Ok in Hf as (n' & s3 & Hmeta%map_errors_Ok & Hf).
  pose proof (moves_run _ _ _ _ _ (fs_symlink_metadata_same _) Hmeta) as Hs3. unfold same_fs in Hs3.
  apply syscall_Ok in Hmeta. rewrite Hs, Hin in Hmeta. injection Hmeta as <- _.
  destruct (node_is_dir n).
  - apply IH in Hf. by rewrite Hs3, Hs in Hf.
  - apply act_bind_Ok in Hf as (relative & s4 & [Hr%ok_or_Ok _]%pure_Ok & [-> _]%act_ret_Ok).
    eapply settles_bind; [apply settles_pure; by rewrite Hr|]. apply settles_ret.
Qed.

Lemma core_collect_prepared fuel root directory d files d' :
  collect_files fuel root directory d = (Ok files, d') →
  settles (prepared_collect_files fuel root directory) (disk_fs d) files.
Proof.
  revert directory d files d'. induction fuel as [|fuel IH]; intros directory d files d' H;
    cbn [collect_files] in H; [done|].
  apply act_bind_Ok in H as (entries & d1 & (Edir & -> & Hd1)%map_errors_Ok%fs_read_entries_Ok & H).
  apply act_bind_Ok in H as (parts & d2 & Hm & [-> _]%act_ret_Ok).
  apply (act_map_Forall2 _ (λ s, disk_fs s = disk_fs d)) in Hm as [_ Hm];
    [|intros e s; apply collect_entry_same|done].
  cbn [prepared_collect_files]. eapply settles_bind; [by apply settles_map_errors, settles_read_dir|].
  eapply settles_bind; [|apply settles_ret]. apply settles_map.
  rewrite Forall2_fmap_l. eapply Forall2_impl_in; [exact Hm|].
  intros [name n] part Hin (s1 & s2 & Hs & Hf). apply elem_of_children in Hin. simpl in *.
  eapply settles_bind; [by apply settles_map_errors, settles_metadata|].
  destruct (node_is_dir n).
  - apply IH in Hf. by rewrite Hs in Hf.
  - apply act_bind_Ok in Hf as (relative & s4 & [Hr%ok_or_Ok _]%pure_Ok & [-> _]%act_ret_Ok).
    eapply settles_bind; [apply settles_pure; by rewrite Hr|]. apply settles_ret.
Qed.

(** A disk that holds [fs] and does not fail. *)
Definition calm (fs : Fs) : Disk := mkDisk fs [] (λ _, 0) O.

Lemma settles_calm {E A : Type} (m : act Disk E A) fs a : settles m fs a → m (calm fs) = (Ok a, calm fs).
Proof. intros H. by apply H. Qed.

Lemma settles_unique {E A : Type} (m : act Disk E A) fs a b : settles m fs a → settles m fs b → a = b.
Proof. intros Ha%settles_calm Hb%settles_calm. congruence. Qed.

Lemma prepared_files_core root d files d' :
  prepared_files root d = (Ok files, d') →
  settles (collect_files (S (fs_depth (disk_fs d))) root root) (disk_fs d) files ∧
  settles (prepared_files root) (disk_fs d) files.
Proof.
  unfold prepared_files. intros H%prepared_collect_core. split; [done|].
  apply settles_calm, core_collect_prepared in H. intros e He Hq. rewrite He. by apply H.
Qed.

Section hash.
Context {U : UrlLib} {B : Encoding} {L : RepositoryLib}.

Lemma read_regular_file_Ok p d content d' :
  read_regular_file p d = (Ok content, d') → disk_fs d !! p = Some (File content) ∧ disk_fs d' = disk_fs d.
Proof.
  unfold read_regular_file, require_regular_file, filesystem. intros H.
  apply act_bind_Ok in H as ([] & d1 & H1 & H). apply map_errors_Ok in H.
  apply act_bind_Ok in H1 as (n & d2 & H2%map_errors_Ok & H1).
  pose proof (moves_run _ _ _ _ _ (fs_symlink_metadata_same _) H2) as E2. unfold same_fs in E2.
  pose proof (moves_run _ _ _ _ _ (fs_read_same _) H) as E1. unfold same_fs in E1.
  destruct (negb _); [done|]. apply act_ret_Ok in H1 as [_ ->].
  apply syscall_Ok in H. rewrite E2 in *. split; [|congruence].
  destruct (disk_fs d !! p) as [[]|]; by simplify_eq.
Qed.

Lemma read_regular_file_same p : moves same_fs (read_regular_file p).
Proof.
  unfold read_regular_file, require_regular_file, filesystem.
  moves; [apply fs_symlink_metadata_same|apply fs_read_same].
Qed.

(** The supervisor's hash: the files collected, sorted and read. *)
Lemma prepared_hash_Ok root d hash d' :
  prepared_hash_source_tree root d = (Ok hash, d') →
  ∃ collected files, settles (prepared_files root) (disk_fs d) collected ∧
    settles (collect_files (S (fs_depth (disk_fs d))) root root) (disk_fs d) collected ∧
    Forall2 (λ (file : string * path) f, f.1 = file.1 ∧ disk_fs d !! file.2 = Some (File f.2))
      (sort_by by_path collected) files ∧
    hash = hex (sha256 (frames files)).
Proof.
  unfold prepared_hash_source_tree. intros H. apply act_bind_Ok in H as (collected & d1 & Hc & H).
  pose proof (moves_run _ _ _ _ _ (prepared_collect_same _ _ _) Hc) as E1. unfold same_fs in E1.
  apply prepared_files_core in Hc as [Hcore Hprep].
  apply act_bind_Ok in H as (parts & d2 & Hm & [-> _]%act_ret_Ok).
  apply (act_map_Forall2 _ (λ s, disk_fs s = disk_fs d)) in Hm as [_ Hm]; [|intros file s <-|done].
  2:{ unfold mbind, act_bind. pose proof (read_regular_file_same file.2 s) as Hr. unfold same_fs in Hr.
      by destruct (read_regular_file _ s) as [[]]. }
  assert (∃ files, concat parts = frames files ∧
    Forall2 (λ (file : string * path) f, f.1 = file.1 ∧ disk_fs d !! file.2 = Some (File f.2))
      (sort_by by_path collected) files) as (files & -> & Hf).
  { clear -Hm. induction Hm as [|[rel p] frame l parts (s1 & s2 & Hs & Hf) _ (files & Hc & IH)]; [by exists []|].
    apply act_bind_Ok in Hf as (content & s3 & [Hr _]%read_regular_file_Ok & [-> _]%act_ret_Ok).
    rewrite Hs in Hr. exists ((rel, content) :: files). split; [|by constructor].
    unfold frames in *. simpl. by rewrite Hc. }
  by exists collected, files.
Qed.

Lemma settles_prepared_hash root fs collected files :
  settles (prepared_files root) fs collected →
  Forall2 (λ (file : string * path) f, f.1 = file.1 ∧ fs !! file.2 = Some (File f.2))
    (sort_by by_path collected) files →
  settles (prepared_hash_source_tree root) fs (hex (sha256 (frames files))).
Proof.
  intros Hc Hf. unfold prepared_hash_source_tree. eapply settles_bind; [exact Hc|].
  eapply (settles_bind _ _ _ ((λ file, hash_frame file.1 file.2) <$> files)); [|apply settles_ret].
  apply settles_map. rewrite Forall2_fmap_r. eapply Forall2_impl; [exact Hf|].
  intros [rel p] [rel' content] [Hrel Hp]. simpl in *. subst rel'.
  eapply settles_bind; [by apply settles_regular_file|]. apply settles_ret.
Qed.

Lemma files_determined (fs : Fs) (l : list (string * path)) (files files' : list (string * list byte)) :
  Forall2 (λ (file : string * path) f, f.1 = file.1 ∧ fs !! file.2 = Some (File f.2)) l files →
  Forall2 (λ (file : string * path) f, f.1 = file.1 ∧ fs !! file.2 = Some (File f.2)) l files' →
  files = files'.
Proof.
  intros H. revert files'. induction H as [|x [r c] l files [H1 H2] _ IH]; intros files' H';
    inversion H' as [|? [r' c'] ? ? [H3 H4]]; subst; [done|]. simpl in *. rewrite H2 in H4. simplify_eq.
  f_equal. by apply IH.
Qed.

(** The supervisor computes the hash the core has computed over the same files: it
    does so on a disk that does not fail, and whenever it computes one at all. *)
Theorem hash_checks_agree root d hash d' :
  hash_source_tree root d = (Ok hash, d') →
  settles (prepared_hash_source_tree root) (disk_fs d) hash ∧
  ∀ e hash' e', disk_fs e = disk_fs d → prepared_hash_source_tree root e = (Ok hash', e') → hash' = hash.
Proof.
  intros H. unfold hash_source_tree in H.
  apply act_bind_Ok in H as (collected & d1 & Hcol & H). pose proof Hcol as Hd1.
  apply (moves_run same_fs) in Hd1; [|apply collect_files_same].
  apply act_bind_Ok in H as (parts & d2 & Hm & [-> _]%act_ret_Ok).
  apply (act_map_Forall2 _ (λ s, disk_fs s = disk_fs d)) in Hm as [_ Hm]; [|intros file s <-|done].
  2:{ unfold mbind, act_bind.
      pose proof (moves_map_errors same_fs (λ _, InvalidPluginManifest) _ (fs_read_same file.2) s) as Hr.
      by destruct (map_errors _ _ s) as [[]]. }
  apply read_frames_Ok in Hm as (files & -> & Hfiles).
  apply core_collect_prepared in Hcol.
  assert (settles (prepared_files root) (disk_fs d) collected) as Hprep.
  { intros e He Hq. unfold prepared_files. rewrite He. by apply Hcol. }
  split; [by eapply settles_prepared_hash|]. intros e hash' e' He Hh.
  apply prepared_hash_Ok in Hh as (collected' & files' & Hc' & _ & Hf' & ->). rewrite He in *.
  rewrite (settles_unique _ _ _ _ Hc' Hprep) in Hf'. by rewrite (files_determined _ _ _ _ Hf' Hfiles).
Qed.
End hash.

(** ** What the store writes *)

Section store.
Context {K : Codec} {U : UrlLib} {B : Encoding} {L : RepositoryLib} {J : StagingJson}.

Lemma set_mode_same p : moves same_fs (set_mode p).
Proof.
  unfold set_mode, snapshot_io. moves. apply syscall_same_fs. intros fs a fs'. destruct (is_some _); naive_solver.
Qed.
Lemma fs_open_same p : moves same_fs (fs_open p).
Proof. apply syscall_same_fs. intros fs a fs'. destruct (fs !! p) as [[]|]; naive_solver. Qed.
Lemma fs_sync_same p : moves same_fs (fs_sync p).
Proof. apply syscall_same_fs. intros fs a fs'. destruct (is_some _); naive_solver. Qed.
Lemma staging_sync_same p : moves same_fs (staging_sync_directory p).
Proof. unfold staging_sync_directory, snapshot_io. moves; [apply fs_open_same|apply fs_sync_same]. Qed.

Lemma secure_tree_same root : moves same_fs (secure_tree root).
Proof.
  assert (∀ directory entries pending, moves same_fs (secure_entries directory entries pending)) as He.
  { intros directory entries. induction entries as [|[name n] entries IH]; intros pending; cbn [secure_entries]; moves.
    - apply set_mode_same.
    - apply IH. }
  assert (∀ fuel pending, moves same_fs (secure_loop fuel pending)) as Hl.
  { intros fuel. induction fuel as [|fuel IH]; intros [|directory pending]; cbn [secure_loop]; unfold snapshot_io; moves.
    - apply fs_read_entries_same.
    - apply He.
    - apply IH. }
  unfold secure_tree. moves; [apply set_mode_same|]. intros d. apply Hl.
Qed.

(** Making a directory and those above it. *)
Lemma create_all_Ok p d d' :
  create_secure_directory_all p d = (Ok tt, d') →
  (∀ k v, disk_fs d !! k = Some v → disk_fs d' !! k = Some v) ∧
  (∀ k, ¬ above p k → disk_fs d' !! k = disk_fs d !! k).
Proof.
  unfold create_secure_directory_all, snapshot_io. intros H.
  apply act_bind_Ok in H as ([] & d1 & H1%map_errors_Ok & H).
  pose proof (moves_run _ _ _ _ _ (set_mode_same _) H) as E. unfold same_fs in E. rewrite E. split.
  - intros k v Hk. apply (fs_create_dir_all_keeps p) in Hk. by rewrite H1 in Hk.
  - intros k Hk. apply (moves_run (changes_only (above p))) in H1.
    + by destruct (H1 k).
    + apply fs_create_dir_all_changes. intros k' r ->. by exists r.
Qed.

(** A file is written whole, and nothing but the directories above it besides. *)
Lemma atomic_write_json_Ok directory name serialized d d' :
  atomic_write_json directory name serialized d = (Ok tt, d') →
  (∃ content, serialized = Some content ∧ disk_fs d' !! (directory ++ [name]) = Some (File (content ++ newline))) ∧
  (∀ k, k ≠ directory ++ [name] → ¬ above directory k → disk_fs d' !! k = disk_fs d !! k) ∧
  ∀ k v, k ≠ directory ++ [name] → disk_fs d !! k = Some v → disk_fs d' !! k = Some v.
Proof.
  unfold atomic_write_json, snapshot_io. intros H. apply act_bind_Ok in H as ([] & d1 & [Hkeep Hall]%create_all_Ok & H).
  apply on_error_Ok in H. set (temporary := directory ++ ["." +:+ name +:+ ".tmp"]) in H.
  apply act_bind_Ok in H as ([] & d2 & [Hnone E2]%map_errors_Ok%fs_create_new_Ok & H).
  apply act_bind_Ok in H as (content & ? & [Hser%ok_or_Ok ->]%pure_Ok & H).
  apply act_bind_Ok in H as ([] & d3 & Ha%map_errors_Ok%syscall_Ok & H).
  apply act_bind_Ok in H as ([] & d4 & Hb%map_errors_Ok%syscall_Ok & H).
  apply act_bind_Ok in H as ([] & d5 & E5%map_errors_Ok%fs_sync_Ok & H).
  apply act_bind_Ok in H as ([] & d6 & Hr%map_errors_Ok & H).
  pose proof (moves_run _ _ _ _ _ (staging_sync_same _) H) as E6. unfold same_fs in E6.
  rewrite E2, lookup_insert_eq in Ha. injection Ha as E3. simpl in E3.
  rewrite <- E3, lookup_insert_eq in Hb. injection Hb as E4.
  assert (disk_fs d5 !! temporary = Some (File (content ++ newline))) as Ht
    by (rewrite E5, <- E4, lookup_insert_eq; done).
  apply (rename_file_Ok _ _ (content ++ newline)) in Hr; [|done]. rewrite E6, Hr.
  assert (∀ k, k ≠ directory ++ [name] →
    <[directory ++ [name] := File (content ++ newline)]> (delete temporary (disk_fs d5)) !! k = disk_fs d1 !! k) as Hk.
  { intros k Hk. rewrite lookup_insert_ne by done.
    destruct (decide (k = temporary)) as [->|Hkt]; [by rewrite lookup_delete_eq|].
    by rewrite lookup_delete_ne, E5, <- E4, lookup_insert_ne, lookup_insert_ne, lookup_insert_ne by done. }
  split_and!.
  - exists content. by rewrite lookup_insert_eq.
  - intros k Hne Habove. by rewrite Hk, Hall.
  - intros k v Hne Hv. rewrite Hk by done. by apply Hkeep.
Qed.

Lemma not_above_app p x r : ¬ above p (p ++ x :: r).
Proof. apply above_not_below. Qed.

Lemma create_secure_directory_Ok p d d' :
  create_secure_directory p d = (Ok tt, d') →
  disk_fs d !! p = None ∧ disk_fs d' = <[p := Dir]> (disk_fs d).
Proof.
  unfold create_secure_directory, snapshot_io. intros H.
  apply act_bind_Ok in H as ([] & d1 & Hc%map_errors_Ok%syscall_Ok & H).
  pose proof (moves_run _ _ _ _ _ (set_mode_same _) H) as E. unfold same_fs in E.
  destruct (disk_fs d !! p); [done|]. simpl in Hc. destruct (negb _); [done|]. injection Hc as Hc. split; [done|congruence].
Qed.

Definition apart (p q : path) : Prop := below p q = None ∧ below q p = None.

Lemma apart_app p q r r' : apart p q → p ++ r ≠ q ++ r'.
Proof.
  intros [H1 H2] E. revert q H1 H2 E. induction p as [|x p IH]; intros q H1 H2 E; [done|].
  destruct q as [|y q]; [done|]. simpl in *. injection E as -> E. rewrite decide_True in * by done. by eapply IH.
Qed.

Lemma apart_above p q r : apart p q → ¬ above p (q ++ r).
Proof. intros Ha [r' E]. rewrite <- (app_nil_r p), <- app_assoc in E. by eapply apart_app in E. Qed.

Lemma apart_siblings (p : path) x y r r' : x ≠ y → apart (p ++ x :: r) (p ++ y :: r').
Proof.
  intros Hne. split; apply eq_None_not_Some; intros [s E%below_Some]; rewrite <- app_assoc in E;
    apply (inj (app p)) in E; simpl in E; congruence.
Qed.

Lemma apart_inner p q r : apart p q → apart p (q ++ r).
Proof.
  intros Ha. split; apply eq_None_not_Some; intros [s E%below_Some].
  - symmetry in E. by eapply apart_app in E.
  - rewrite <- app_assoc, <- (app_nil_r p) in E. by eapply apart_app in E.
Qed.

Lemma apart_sym p q : apart p q → apart q p.
Proof. intros [? ?]. by split. Qed.

(** Renaming a directory onto a place where nothing is. *)
Lemma rename_fresh_Ok p q d d' :
  (∀ r, disk_fs d !! (q ++ r) = None) → disk_fs d !! p = Some Dir → apart p q →
  fs_rename p q d = (Ok tt, d') →
  (∀ r, disk_fs d' !! (q ++ r) = disk_fs d !! (p ++ r)) ∧
  ∀ k, below p k = None → below q k = None → disk_fs d' !! k = disk_fs d !! k.
Proof.
  intros Hq Hp [H1 H2] H. apply rename_dir_Ok in H as (Hm & _ & Ho); [done|..|done|done].
  intros x r [v Hv]. by rewrite Hq in Hv.
Qed.

Lemma temporary_name (u : string) : "." +:+ u +:+ ".tmp" ≠ u.
Proof.
  intros E. apply (f_equal bytes) in E. rewrite !bytes_app in E. apply (f_equal length) in E.
  rewrite !length_app in E. simpl in E. lia.
Qed.

Definition snapshot_metadata (id : Uuid) (source : GitHubRepositoryRef) (commit_sha : string)
    (extracted : ExtractedSnapshot) (validated : ValidatedRepository) (now : time) : SnapshotMetadata :=
  mkSnapshotMetadata SCHEMA_VERSION id (validated_repository_id validated)
    (validated_repository_name validated) (github_canonical_url source) commit_sha now
    (extracted_file_count extracted) (extracted_byte_count extracted)
    (SnapshotPlugin_from <$> validated_plugins validated).

(** A snapshot as it is on disk. *)
Record snapshot_on_disk (plugin_data : path) (id : Uuid) (metadata : SnapshotMetadata)
    (files : path → option node) (fs : Fs) : Prop := {
  on_disk_metadata : ∃ content, snapshot_to_vec metadata = Some content ∧
    fs !! (snapshot_root plugin_data id ++ ["snapshot.json"]) = Some (File (content ++ newline));
  on_disk_root : fs !! snapshot_root plugin_data id = Some Dir;
  on_disk_files : ∀ r, fs !! (snapshot_root plugin_data id ++ "repository" :: r) = files r;
}.

(** The block of [create] in the temporary directory. *)
Lemma create_block_Ok plugin_data temporary id metadata source_root d d2 d3 d4 d5 d6 :
  let q := snapshot_root plugin_data id in
  (∀ x r, disk_fs d !! (temporary ++ x :: r) = None) → rooted q (disk_fs d) →
  disk_fs d !! temporary = Some Dir → disk_fs d !! source_root = Some Dir →
  apart source_root temporary → apart source_root q → apart temporary q →
  fs_rename source_root (temporary ++ ["repository"]) d = (Ok tt, d2) →
  disk_fs d3 = disk_fs d2 →
  atomic_write_json temporary "snapshot.json" (snapshot_to_vec metadata) d3 = (Ok tt, d4) →
  disk_fs d5 = disk_fs d4 → fs_rename temporary q d5 = (Ok tt, d6) →
  snapshot_on_disk plugin_data id metadata (λ r, disk_fs d !! (source_root ++ r)) (disk_fs d6).
Proof.
  intros q Hempty Hrq Hdir Hsrc Hat Haq Htq H2 E3 H4 E5 H6.
  apply rename_fresh_Ok in H2 as [Hin Hout]; [| |done|by apply apart_inner].
  2:{ intros r. rewrite <- app_assoc. apply Hempty. }
  apply atomic_write_json_Ok in H4 as [(content & Hser & Hfile) [Hother Hkeep]]. rewrite E3 in Hother, Hkeep.
  assert (∀ r, disk_fs d4 !! (temporary ++ "repository" :: r) = disk_fs d !! (source_root ++ r)) as Hrepo.
  { intros r. rewrite Hother; [|intros E%(inj (app temporary)); done|apply not_above_app].
    rewrite <- Hin, <- app_assoc. done. }
  assert (disk_fs d4 !! temporary = Some Dir) as Hdir4.
  { assert (∀ x, temporary ≠ temporary ++ [x]) as Hne.
    { intros x E. apply (f_equal length) in E. rewrite length_app in E. simpl in E. lia. }
    apply Hkeep; [apply Hne|]. rewrite Hout; [done|apply Hat|]. apply eq_None_not_Some. intros [r E%below_Some].
    apply (f_equal length) in E. rewrite !length_app in E. simpl in E. lia. }
  apply rename_dir_Ok in H6 as (Hm & _ & _).
  - rewrite E5 in Hm. split; fold q.
    + exists content. split; [done|]. by rewrite Hm.
    + rewrite <- (app_nil_r q), Hm, app_nil_r. done.
    + intros r. by rewrite Hm.
  - rewrite E5. apply (rooted_same _ (disk_fs d)); [|done]. intros r.
    rewrite Hother, Hout; [done|..].
    + apply (apart_inner _ _ r Haq).
    + apply (apart_inner _ _ r (apart_sym _ _ (apart_inner _ _ ["repository"] (apart_sym _ _ Htq)))).
    + intros E. symmetry in E. by eapply apart_app in E.
    + by apply apart_above.
  - by rewrite E5.
  - apply Htq.
Qed.

(** What [create] leaves on disk: the moved repository and its description. *)
Lemma create_Ok plugin_data source commit_sha extracted validated now d preview d' :
  tree (disk_fs d) → disk_fs d !! repository_root extracted = Some Dir →
  apart (repository_root extracted) (staging_root plugin_data) →
  create plugin_data source commit_sha extracted validated now d = (Ok preview, d') →
  preview = mkRepositoryPreview (preview_snapshot_id preview) (validated_repository_id validated)
    (validated_repository_name validated) (github_canonical_url source) commit_sha
    (PluginPreview_from <$> validated_plugins validated) ∧
  snapshot_on_disk plugin_data (preview_snapshot_id preview)
    (snapshot_metadata (preview_snapshot_id preview) source commit_sha extracted validated now)
    (λ r, disk_fs d !! (repository_root extracted ++ r)) (disk_fs d').
Proof.
  intros Htree Hsrc Hapart H. unfold create, snapshot_io in H. cbn zeta in H.
  apply act_bind_Ok in H as (id & d1 & Hid%query_inv & H). injection Hid as <- <-.
  apply act_bind_Ok in H as ([] & d2 & [Hkeep Hall]%create_all_Ok & H). simpl in Hkeep, Hall.
  set (id := disk_uuids d (disk_drawn d)) in *. set (u := uuid_to_string id) in *.
  set (temporary := staging_root plugin_data ++ ["." +:+ u +:+ ".tmp"]) in H.
  apply act_bind_Ok in H as ([] & d3 & [Hnone E3]%create_secure_directory_Ok & H).
  apply on_error_Ok in H.
  apply act_bind_Ok in H as ([] & d4 & H4%map_errors_Ok & H).
  apply act_bind_Ok in H as ([] & d5 & H5 & H). apply (moves_run same_fs) in H5; [|apply secure_tree_same].
  apply act_bind_Ok in H as ([] & d6 & H6 & H).
  apply act_bind_Ok in H as ([] & d7 & H7 & H). apply (moves_run same_fs) in H7; [|apply staging_sync_same].
  apply act_bind_Ok in H as ([] & d8 & H8%map_errors_Ok & H).
  apply act_bind_Ok in H as ([] & d9 & H9 & [-> ->]%act_ret_Ok). apply (moves_run same_fs) in H9; [|apply staging_sync_same].
  split; [done|]. unfold same_fs in *. simpl. rewrite H9.
  assert (∀ x r, disk_fs d2 !! (staging_root plugin_data ++ x :: r) = disk_fs d !! (staging_root plugin_data ++ x :: r)) as H2.
  { intros x r. apply Hall, not_above_app. }
  assert (apart (repository_root extracted) temporary) as Hat by (by apply apart_inner).
  assert (apart (repository_root extracted) (snapshot_root plugin_data id)) as Haq by (by apply apart_inner).
  assert (apart temporary (snapshot_root plugin_data id)) as Htq by (apply apart_siblings, temporary_name).
  assert (∀ r, disk_fs d3 !! (repository_root extracted ++ r) = disk_fs d !! (repository_root extracted ++ r)) as Hfiles.
  { intros r. rewrite E3, lookup_insert_ne, Hall; [done|by apply apart_above, apart_sym|].
    intros E. rewrite <- (app_nil_r temporary) in E. symmetry in E. by eapply apart_app in E. }
  eapply (create_block_Ok _ _ _ _ _ d3) in H8 as [H1 H1' H1'']; [split; [done..|]| | | | |done..|exact H4|exact H5|exact H6|exact H7].
  - intros r. by rewrite H1'', Hfiles.
  - intros x r. rewrite E3, lookup_insert_ne.
    + unfold temporary. rewrite <- app_assoc. simpl. rewrite H2. apply eq_None_not_Some. intros Hs.
      destruct (tree_rooted temporary (disk_fs d) Htree x r) as [[v Hv] _].
      { unfold temporary. by rewrite <- app_assoc. }
      unfold temporary in Hnone, Hv. rewrite H2 in Hnone. congruence.
    + intros E. apply (f_equal length) in E. rewrite length_app in E. simpl in E. lia.
  - apply (rooted_same _ (disk_fs d)); [|by apply tree_rooted]. intros r. unfold snapshot_root. rewrite <- app_assoc. simpl.
    rewrite E3, lookup_insert_ne, H2; [done|]. intros E. apply (inj (app (staging_root plugin_data))) in E.
    injection E as E _. by apply temporary_name in E.
  - by rewrite E3, lookup_insert_eq.
  - rewrite <- (app_nil_r (repository_root extracted)), Hfiles, app_nil_r. done.
Qed.
End store.

(** ** A tree that was hashed once can be hashed where it was moved *)

Lemma Forall_exists_Forall2 {A C} (P : A → C → Prop) (l : list A) :
  (∀ x, x ∈ l → ∃ y, P x y) → ∃ ys, Forall2 P l ys.
Proof.
  induction l as [|x l IH]; intros H; [by exists []|].
  destruct (H x) as [y Hy]; [by left|]. destruct IH as [ys Hys]; [intros x' ?; apply H; by right|].
  exists (y :: ys). by constructor.
Qed.

Lemma collect_settles fuel (root s : path) fs :
  (∀ r content, fs !! (root ++ r) = Some (File content) → is_Some (relative_text root (root ++ r))) →
  fs !! (root ++ s) = Some Dir → (1 ≤ fuel)%nat → (fs_depth fs < fuel + length (root ++ s))%nat →
  ∃ files, settles (collect_files fuel root (root ++ s)) fs files.
Proof.
  intros Hutf. revert s. induction fuel as [|fuel IH]; intros s Hdir H1 Hd; [lia|].
  destruct (Forall_exists_Forall2 (λ (e : string * node) part, settles
    (let p := (root ++ s) ++ [e.1] in
     if node_is_dir e.2 then collect_files fuel root p
     else relative ← pure (ok_or (relative_text root p) InvalidPluginManifest); mret [(relative, p)]) fs part)
    (children (root ++ s) fs)) as [parts Hparts].
  { intros [name n] Hin%elem_of_children. simpl. rewrite <- app_assoc in *.
    assert (length (root ++ s ++ [name]) ≤ fs_depth fs)%nat as Hl by (apply fs_depth_le; by eexists).
    rewrite !length_app in *. simpl in *. destruct n as [content|]; simpl.
    - destruct (Hutf _ _ Hin) as [relative Hr]. exists [(relative, root ++ s ++ [name])].
      eapply settles_bind; [apply settles_pure; by rewrite Hr|]. apply settles_ret.
    - apply IH; [done|lia|]. rewrite !length_app. simpl. lia. }
  exists (concat parts). cbn [collect_files].
  eapply settles_bind; [by apply settles_map_errors, settles_entries|].
  eapply settles_bind; [by apply settles_map|]. apply settles_ret.
Qed.

Section moved.
Context {U : UrlLib} {B : Encoding} {L : RepositoryLib}.

Lemma moved_hash (root root' : path) (fs fs' : Fs) files :
  posix_below root fs → source_files root fs files → fs !! root = Some Dir →
  (∀ r, fs' !! (root' ++ r) = fs !! (root ++ r)) →
  settles (prepared_hash_source_tree root') fs' (hex (sha256 (frames files))).
Proof.
  intros Hp Hs Hdir Hsame. pose proof (posix_below_same _ _ _ _ Hsame Hp) as Hp'.
  assert (fs' !! (root' ++ []) = Some Dir) as Hdir' by (by rewrite Hsame, app_nil_r).
  destruct (collect_settles (S (fs_depth fs')) root' [] fs') as [collected Hc]; [|done|lia|lia|].
  { intros r content Hr. rewrite Hsame in Hr. apply (source_utf8 _ _ _ Hs) in Hr. unfold relative_text in *.
    by rewrite below_app in *. }
  rewrite app_nil_r in Hc. pose proof Hc as Hcalm%settles_calm.
  pose proof (core_collect_prepared _ _ _ _ _ _ Hcalm) as Hprep. simpl in Hprep.
  destruct (Forall_exists_Forall2 (λ (file : string * path) (f : string * list byte),
    f.1 = file.1 ∧ fs' !! file.2 = Some (File f.2)) (sort_by by_path collected)) as [files' Hfiles].
  { intros [rel p] Hin%elem_of_sort_by. apply collect_files_Ok in Hcalm as (_ & Hsound & _); [|apply Hp'].
    destruct (Hsound _ Hin) as (r & content & _ & Hc' & _). by exists (rel, content). }
  assert (source_files root' fs' files') as Hs' by (by eapply (sorted_files_read _ (calm fs'))).
  assert (files' = files) as <-.
  { symmetry. apply (source_files_unique root root' fs fs'); [done..|]. intros r content. by rewrite Hsame. }
  apply (settles_prepared_hash _ _ collected); [|done].
  intros e He Hq. unfold prepared_files. rewrite He. by apply Hprep.
Qed.
End moved.
