(* ===== verification/StagedInstall.v ===== *)
(** * From the core's staging to the supervisor's acceptance

    What the core has validated, staged and prepared the supervisor accepts, and
    what the supervisor accepts is on disk as it is described. *)

From S2P Require Import Prelude Text Std Domain Foreign CredentialContract Database Stateful Fs.
From S2P Require Import ContainerPolicy InstallRecord PluginManager PluginArchive PluginRepository PluginRepositoryProps.
From S2P Require Import SnapshotStore PreparedInstall PreparedInstallProps.

(** ** What serde_json reads back *)

(** A plugin whose identifier and credentials were read from a manifest. *)
Definition plugin_from_manifest {U : UrlLib} {L : RepositoryLib} (p : SnapshotPlugin) : Prop :=
  ∃ content manifest, plugin_manifest_from_slice content = Some manifest ∧
    snapshot_plugin_id p = PluginManifest_id manifest ∧
    snapshot_plugin_credentials p = PluginManifest_credentials manifest.

(** Values that fit their types, with times RFC 3339 can write. *)
Definition snapshot_storable {U : UrlLib} {L : RepositoryLib} (m : SnapshotMetadata) : Prop :=
  uuid_value (snapshot_id m) ∧ rfc3339_time (snapshot_created_at m) ∧
  0 ≤ snapshot_file_count m < 2 ^ 64 ∧ 0 ≤ snapshot_extracted_bytes m < 2 ^ 64 ∧
  Forall plugin_from_manifest (snapshot_plugins m).
Definition prepared_storable {U : UrlLib} {L : RepositoryLib} (m : PreparedMetadata) : Prop :=
  uuid_value (prepared_id m) ∧ uuid_value (prepared_snapshot_id m) ∧
  (∀ id, prepared_risk_grant_id m = Some id → uuid_value id) ∧
  ∃ content manifest, plugin_manifest_from_slice content = Some manifest ∧
    prepared_plugin m = PluginManifest_id manifest.
Definition mirror_storable {U : UrlLib} {L : RepositoryLib} (m : GrantMirror) : Prop :=
  uuid_value (mirror_grant_id m) ∧ rfc3339_time (mirror_granted_at m) ∧
  ∃ content manifest, plugin_manifest_from_slice content = Some manifest ∧
    mirror_plugin_id m = PluginManifest_id manifest.

(** serde_json reads back what it has written, a final newline or not. *)
Class StagingJsonLaws {U : UrlLib} {L : RepositoryLib} (J : StagingJson) : Prop := {
  snapshot_roundtrip m content : snapshot_storable m →
    snapshot_to_vec m = Some content → snapshot_from_slice (content ++ newline) = Some m;
  prepared_roundtrip m content : prepared_storable m →
    prepared_to_vec m = Some content → prepared_from_slice (content ++ newline) = Some m;
  grant_roundtrip m content : mirror_storable m →
    grant_to_vec m = Some content → grant_from_slice (content ++ newline) = Some m;
}.

(** ** Paths and hashes that both sides accept *)

Lemma prepared_path_core value text buf :
  normalize_relative_path value = Ok (text, buf) → prepared_relative_path value = Ok value.
Proof.
  intros H. destruct (normalize_relative_path_Ok _ _ _ H) as (-> & names & Hp & Hne & _ & E).
  unfold normalize_relative_path in H. result_step. apply bind_Ok in H as ([] & Hs & _).
  unfold prepared_relative_path. bool_prop.
  rewrite (proj2 (negb_false_iff _)) by (by apply bool_decide_eq_true).
  repeat match goal with H : ?b = false |- context [?b] => rewrite H end. cbn [orb].
  replace (is_absolute value) with (starts_with value "/") by done.
  repeat match goal with H : ?b = false |- context [?b] => rewrite H end. cbn [orb].
  assert (existsb (λ component, negb (is_normal component)) (components value) = false) as ->.
  { rewrite E, components_collect by done. clear. induction names; [done|]. simpl. done. }
  assert (existsb (λ segment, str_contains segment ":"%char) (split "/"%char value) = false) as ->; [|done].
  clear -Hs. induction (split "/"%char value) as [|x l IH]; [done|]. cbn [check_segments for_each] in Hs.
  apply bind_Ok in Hs as ([] & Hx & Hs). result_step. bool_prop. simpl.
  apply orb_false_intro; [done|]. by apply IH.
Qed.

Lemma hex_digit_lower n : 0 ≤ n < 16 → is_ascii_digit (hex_digit n) || in_range 97 102 (hex_digit n) = true.
Proof.
  intros H. assert (∀ k, (k < 16)%nat → is_ascii_digit (hex_digit (Z.of_nat k)) || in_range 97 102 (hex_digit (Z.of_nat k)) = true) as Hk.
  { intros k Hk. do 16 (destruct k as [|k]; [done|]). lia. }
  specialize (Hk (Z.to_nat n)). rewrite Z2Nat.id in Hk by lia. apply Hk. lia.
Qed.

Lemma hex_byte_lower byte : Forall (λ c, is_ascii_digit c || in_range 97 102 c = true) (hex_byte byte).
Proof.
  assert (0 ≤ code byte < 256) as H.
  { unfold code. pose proof (N_ascii_bounded byte). lia. }
  repeat constructor; apply hex_digit_lower; [|apply Z.mod_pos_bound; lia].
  split; [apply Z.div_pos; lia|apply Z.div_lt_upper_bound; lia].
Qed.

Lemma hex_lower l n : zlen l = n → is_lower_hex (hex l) (2 * n) = true.
Proof.
  intros <-. unfold is_lower_hex, hex. apply andb_true_intro. split.
  - apply Z.eqb_eq. unfold str_len, zlen. rewrite <- length_bytes, bytes_str. induction l as [|x l IH]; [done|].
    rewrite fmap_cons. cbn [concat]. rewrite length_app. cbn [length hex_byte] in *. lia.
  - unfold str_all. rewrite bytes_str. apply forallb_forall. intros x Hx%list_elem_of_In. revert x Hx.
    apply Forall_forall. induction l as [|x l IH]; [constructor|]. rewrite fmap_cons. cbn [concat].
    apply Forall_app. split; [apply hex_byte_lower|apply IH].
Qed.

(** ** Preparing an installation *)

Section staged.
Context {K : Codec} {U : UrlLib} {B : Encoding} {L : RepositoryLib} {J : StagingJson}.
Context `{!StagingJsonLaws J}.
Context (plugin_data : path).

(** The snapshot that was stored is the one that is loaded. *)
Lemma load_snapshot_Ok id metadata files d found d' :
  snapshot_on_disk plugin_data id metadata files (disk_fs d) → snapshot_storable metadata →
  load_snapshot plugin_data id d = (Ok found, d') → found = metadata ∧ disk_fs d' = disk_fs d.
Proof.
  intros [(content & Hser & Hfile) Hroot _] Hst H. unfold load_snapshot, snapshot_io in H.
  apply act_bind_Ok in H as (n & d1 & H1%map_errors_Ok & H).
  apply (moves_run same_fs) in H1; [|apply fs_symlink_metadata_same]. act_step.
  apply act_bind_Ok in H as (n' & d2 & H2%map_errors_Ok & H).
  apply (moves_run same_fs) in H2; [|apply fs_symlink_metadata_same]. act_step.
  apply act_bind_Ok in H as (read & d3 & H3%map_errors_Ok & H). pose proof H3 as E3.
  apply (moves_run same_fs) in E3; [|apply fs_read_same]. unfold same_fs in *.
  apply syscall_Ok in H3. rewrite H2, H1, Hfile in H3. injection H3 as <- _.
  apply act_bind_Ok in H as (m & ? & [Hm%ok_or_Ok ->]%pure_Ok & H). act_step.
  apply act_ret_Ok in H as [-> ->]. rewrite (snapshot_roundtrip metadata) in Hm by done.
  split; [by injection Hm|congruence].
Qed.

(** What the core leaves for the supervisor. *)
Record prepared_on_disk (op : PreparedOperation) (id : Uuid) (metadata : SnapshotMetadata)
    (plugin : SnapshotPlugin) (grant : option LifecycleRiskGrant) (fs : Fs) : Prop := {
  on_disk_operation : ∃ content,
    prepared_to_vec (prepared_metadata (prepared_operation_id op) metadata id (prepared_plugin_id op) plugin grant)
      = Some content ∧
    fs !! (plugin_data ++ ["prepared"; json_name (prepared_operation_id op)]) = Some (File (content ++ newline));
  on_disk_grant g : grant = Some g → ∃ content, grant_to_vec (GrantMirror_from g) = Some content ∧
    fs !! (plugin_data ++ ["grants"; json_name (grant_id g)]) = Some (File (content ++ newline));
}.

Lemma mirror_grant_Ok grant d mirrored d' :
  mirror_grant plugin_data grant d = (Ok mirrored, d') →
  (∀ g, grant = Some g → ∃ content, grant_to_vec (GrantMirror_from g) = Some content ∧
    disk_fs d' !! (plugin_data ++ ["grants"; json_name (grant_id g)]) = Some (File (content ++ newline))) ∧
  ∀ r, disk_fs d' !! (plugin_data ++ "staging" :: r) = disk_fs d !! (plugin_data ++ "staging" :: r).
Proof.
  destruct grant as [g|]; cbn [mirror_grant]; intros H; [|by apply act_ret_Ok in H as [_ ->]].
  apply act_bind_Ok in H as ([] & d1 & [_ H1]%create_all_Ok & H).
  apply act_bind_Ok in H as ([] & d2 & [(content & Hs & Hf) [H2 _]]%atomic_write_json_Ok & [_ ->]%act_ret_Ok).
  rewrite <- app_assoc in Hf. split; [intros g' [= <-]; by exists content|]. intros r.
  assert (apart (plugin_data ++ ["grants"]) (plugin_data ++ "staging" :: r)) as Ha by (by apply apart_siblings).
  rewrite H2, H1; [done|..].
  - rewrite <- (app_nil_r (_ ++ _ :: r)). by apply apart_above.
  - rewrite <- (app_nil_r (_ ++ _ :: r)). intros E. symmetry in E. by eapply apart_app in E.
  - rewrite <- (app_nil_r (_ ++ _ :: r)). by apply apart_above.
Qed.

Lemma prepare_install_Ok id plugin_id grant d op d' :
  prepare_install plugin_data id plugin_id grant d = (Ok op, d') →
  prepared_plugin_id op = plugin_id ∧
  ∃ metadata plugin d1, load_snapshot plugin_data id d = (Ok metadata, d1) ∧
    find_plugin metadata plugin_id = Some plugin ∧ validate_grant metadata plugin grant = Ok tt ∧
    prepared_on_disk op id metadata plugin grant (disk_fs d') ∧
    ∀ r, disk_fs d' !! (plugin_data ++ "staging" :: r) = disk_fs d1 !! (plugin_data ++ "staging" :: r).
Proof.
  unfold prepare_install. cbn zeta. intros H.
  apply act_bind_Ok in H as (metadata & d1 & Hload & H).
  apply act_bind_Ok in H as (plugin & ? & [Hfind%ok_or_Ok ->]%pure_Ok & H).
  apply act_bind_Ok in H as ([] & ? & [Hgrant ->]%pure_Ok & H).
  apply act_bind_Ok in H as (op_id & d2 & Hid%query_inv & H). injection Hid as <- <-.
  apply act_bind_Ok in H as ([] & d3 & [Hkeep Hother]%create_all_Ok & H).
  apply act_bind_Ok in H as (mirrored & d4 & [Hm Hst]%mirror_grant_Ok & H).
  apply act_bind_Ok in H as ([] & d5 & [(content & Hs & Hf) [Hw Hk]]%on_error_Ok%atomic_write_json_Ok & [-> ->]%act_ret_Ok).
  rewrite <- app_assoc in Hf. cbn [prepared_operation_id prepared_plugin_id].
  split; [done|]. exists metadata, plugin, d1. split_and!; [done..| |].
  - split; cbn [prepared_operation_id prepared_plugin_id]; [by exists content|]. intros g (c & Hc & Hg)%Hm.
    exists c. split; [done|]. apply Hk; [|done]. rewrite <- app_assoc. by intros ?%(inj (app plugin_data)).
  - intros r. simpl in Hother.
    assert (apart (plugin_data ++ ["prepared"]) (plugin_data ++ "staging" :: r)) as Ha by (by apply apart_siblings).
    rewrite Hw, Hst, Hother; [done|..].
    + rewrite <- (app_nil_r (_ ++ _ :: r)). by apply apart_above.
    + rewrite <- (app_nil_r (_ ++ _ :: r)). intros E. symmetry in E. by eapply apart_app in E.
    + rewrite <- (app_nil_r (_ ++ _ :: r)). by apply apart_above.
Qed.

(** ** The supervisor's checks, one by one *)

Lemma settles_json {T} (decode : list byte → option T) fs p content value :
  fs !! p = Some (File content) → decode content = Some value →
  settles (read_json_regular_file decode p) fs value.
Proof.
  intros Hf Hd. unfold read_json_regular_file. eapply settles_bind; [by apply settles_regular_file|].
  apply settles_pure. by rewrite Hd.
Qed.

Lemma eqb_refl_neg {A} `{EqDecision A} (a : A) : negb (eqb a a) = false.
Proof. apply negb_false_iff. by apply bool_decide_eq_true. Qed.

Lemma settles_load_prepared fs prepared content :
  fs !! (plugin_data ++ ["prepared"; json_name (prepared_id prepared)]) = Some (File content) →
  prepared_from_slice content = Some prepared → prepared_schema_version prepared = SCHEMA_VERSION →
  is_lower_hex (prepared_commit_sha prepared) 40 = true → is_lower_hex (prepared_manifest_hash prepared) 64 = true →
  is_lower_hex (prepared_source_hash prepared) 64 = true →
  settles (load_prepared plugin_data (prepared_plugin prepared) (prepared_id prepared)) fs prepared.
Proof.
  intros Hf Hd Hs H1 H2 H3. unfold load_prepared. eapply settles_bind; [by eapply settles_json|].
  apply settles_if; [by rewrite Hs, !eqb_refl_neg|].
  unfold validate_commit_sha, validate_hash. rewrite H1, H2, H3. by repeat (eapply settles_bind; [apply settles_ret|]).
Qed.

Lemma settles_load_snapshot fs prepared metadata plugin files now :
  snapshot_on_disk plugin_data (prepared_snapshot_id prepared) metadata files fs → snapshot_storable metadata →
  snapshot_schema_version metadata = SCHEMA_VERSION → snapshot_id metadata = prepared_snapshot_id prepared →
  str_is_empty (trim (snapshot_repository_name metadata)) = false →
  snapshot_repository_id metadata = prepared_repository_id prepared →
  snapshot_source_url metadata = prepared_source_url prepared →
  snapshot_commit_sha metadata = prepared_commit_sha prepared →
  snapshot_created_at metadata ≤ now → snapshot_file_count metadata ≠ 0 → snapshot_extracted_bytes metadata ≠ 0 →
  is_lower_hex (snapshot_commit_sha metadata) 40 = true →
  find_plugin metadata (prepared_plugin prepared) = Some plugin →
  snapshot_plugin_path plugin = prepared_plugin_path prepared →
  snapshot_manifest_hash plugin = prepared_manifest_hash prepared →
  snapshot_source_hash plugin = prepared_source_hash prepared →
  settles (load_prepared_snapshot plugin_data prepared now) fs plugin.
Proof.
  intros [(content & Hser & Hfile) Hroot _] Hst E1 E2 Hname E3 E4 E5 Hnow Hc Hb Hsha Hfind E6 E7 E8.
  unfold load_prepared_snapshot. eapply settles_bind; [by apply settles_directory|].
  eapply settles_bind; [eapply settles_json; [exact Hfile|by apply (snapshot_roundtrip metadata)]|].
  apply settles_if.
  { rewrite E1, E2, Hname, E3, E4, E5, !eqb_refl_neg. simpl.
    rewrite (proj2 (Z.ltb_ge _ _)), (proj2 (Z.eqb_neq _ _)), (proj2 (Z.eqb_neq _ _)) by done. done. }
  unfold validate_commit_sha. rewrite Hsha. eapply settles_bind; [apply settles_ret|].
  eapply settles_bind; [apply settles_pure; unfold find_plugin in Hfind; by rewrite Hfind|].
  apply settles_if; [by rewrite E6, E7, E8, !eqb_refl_neg|]. apply settles_ret.
Qed.

Lemma settles_load_manifest fs prepared plugin root content manifest :
  fs !! (root ++ ["audiodown-plugin.json"]) = Some (File content) →
  plugin_manifest_from_slice content = Some manifest → hex (sha256 content) = prepared_manifest_hash prepared →
  PluginManifest_schema_version manifest = SCHEMA_VERSION → PluginManifest_id manifest = prepared_plugin prepared →
  PluginManifest_name manifest = snapshot_plugin_name plugin →
  PluginManifest_version manifest = snapshot_plugin_version plugin →
  PluginManifest_plugin_type manifest = snapshot_plugin_type plugin →
  PluginManifest_credentials manifest = snapshot_plugin_credentials plugin →
  RuntimeSpec_version (PluginManifest_runtime manifest) = "22" →
  settles (load_prepared_manifest prepared plugin root) fs manifest.
Proof.
  intros Hf Hm Hh E1 E2 E3 E4 E5 E6 E7. unfold load_prepared_manifest, InstallRecord.sha256_hex.
  eapply settles_bind; [by apply settles_regular_file|]. apply settles_if; [by rewrite Hh, eqb_refl_neg|].
  eapply settles_bind; [apply settles_pure; by rewrite Hm|].
  apply settles_if; [|apply settles_ret]. rewrite E1, E2, E3, E4, E5, E6, E7, !eqb_refl_neg.
  by destruct (RuntimeSpec_kind _).
Qed.

Lemma settles_object fs p o : object_at fs p o → settles (read_json_object p) fs o.
Proof.
  intros (content & value & Hf & Hv & Ho). unfold read_json_object.
  eapply settles_bind; [by apply settles_regular_file|].
  eapply settles_bind; [apply settles_pure; by rewrite Hv|]. apply settles_pure. by rewrite Ho.
Qed.

Lemma settles_package fs root package lockfile required :
  object_at fs (root ++ ["package.json"]) package → object_at fs (root ++ ["package-lock.json"]) lockfile →
  prepared_package_objects package lockfile required = Ok tt →
  settles (prepared_validate_package root required) fs tt.
Proof.
  intros H1 H2 H. unfold prepared_validate_package. eapply settles_bind; [by apply settles_object|].
  eapply settles_bind; [by apply settles_object|]. by apply settles_pure.
Qed.

Lemma settles_risk_grant fs op id metadata plugin grant later :
  prepared_on_disk op id metadata plugin grant fs → validate_grant metadata plugin grant = Ok tt →
  snapshot_plugin_id plugin = prepared_plugin_id op →
  (∀ g, grant = Some g → mirror_storable (GrantMirror_from g) ∧ grant_granted_at g ≤ later) →
  settles (validate_risk_grant plugin_data
             (prepared_metadata (prepared_operation_id op) metadata id (prepared_plugin_id op) plugin grant)
             (snapshot_lifecycle_script_reason plugin) later) fs tt.
Proof.
  intros [_ Hdisk] Hv Hid Hg. unfold validate_risk_grant, validate_grant in *. cbn -[json_name].
  destruct (snapshot_requires_lifecycle_scripts plugin), grant as [g|]; try done.
  destruct (Hg g) as [Hst Hlater]; [done|]. destruct (Hdisk g) as (content & Hser & Hfile); [done|].
  destruct (_ && _) eqn:Hb in Hv; [|done]. bool_prop.
  eapply settles_bind; [eapply settles_json; [exact Hfile|by apply (grant_roundtrip (GrantMirror_from g))]|].
  apply settles_if; [|apply settles_ret]. cbn -[eqb].
  repeat match goal with H : _ = _ |- _ => rewrite H end.
  rewrite (proj2 (Z.ltb_ge _ _)) by done. by rewrite !eqb_refl_neg.
Qed.

(** The installation a prepared operation describes. *)
Definition described (prepared : PreparedMetadata) (manifest : PluginManifest) (root : path) :
    ValidatedPreparedInstall :=
  mkValidatedPreparedInstall (prepared_id prepared) (prepared_snapshot_id prepared)
    (prepared_plugin prepared) (prepared_repository_id prepared) (prepared_source_url prepared)
    (prepared_commit_sha prepared) (prepared_plugin_path prepared) root manifest
    (prepared_manifest_hash prepared) (prepared_source_hash prepared)
    (prepared_allow_lifecycle_scripts prepared) (prepared_risk_grant_id prepared).

Lemma settles_validate fs prepared plugin manifest names entry ec now later :
  let policy := BuildSpec_npm_lifecycle_scripts (PluginManifest_build manifest) in
  let repository := snapshot_root plugin_data (prepared_snapshot_id prepared) ++ ["repository"] in
  settles (load_prepared plugin_data (prepared_plugin prepared) (prepared_id prepared)) fs prepared →
  settles (load_prepared_snapshot plugin_data prepared now) fs plugin →
  Forall plain names → prepared_plugin_path prepared = collect_path names →
  prepared_relative_path (collect_path names) = Ok (collect_path names) →
  fs !! repository = Some Dir → fs !! (repository ++ names) = Some Dir →
  settles (load_prepared_manifest prepared plugin (repository ++ names)) fs manifest →
  Forall plain entry → RuntimeSpec_entry (PluginManifest_runtime manifest) = collect_path entry →
  prepared_relative_path (collect_path entry) = Ok (collect_path entry) →
  fs !! ((repository ++ names) ++ entry) = Some (File ec) →
  settles (prepared_hash_source_tree (repository ++ names)) fs (prepared_source_hash prepared) →
  snapshot_requires_lifecycle_scripts plugin = LifecycleScriptPolicy_required policy →
  snapshot_lifecycle_script_reason plugin = trimmed_reason policy →
  prepared_allow_lifecycle_scripts prepared = LifecycleScriptPolicy_required policy →
  settles (prepared_validate_package (repository ++ names) (prepared_allow_lifecycle_scripts prepared)) fs tt →
  settles (validate_risk_grant plugin_data prepared (snapshot_lifecycle_script_reason plugin) later) fs tt →
  settles (validate_prepared_install plugin_data (prepared_plugin prepared) (prepared_id prepared) now later) fs
    (described prepared manifest (repository ++ names)).
Proof.
  intros policy repository Hl Hs Hn Hp Hrel Hrepo Hroot Hm He Een Erel Hef Hh E1 E2 E3 Hpack Hgrant.
  pose proof Hh as (collected & _ & Hfiles & _)%settles_calm%prepared_hash_Ok. simpl in Hfiles.
  unfold validate_prepared_install. eapply settles_bind; [exact Hl|]. eapply settles_bind; [exact Hs|].
  rewrite Hp. eapply settles_bind; [by apply settles_pure|]. cbn zeta. fold repository.
  eapply settles_bind; [by apply settles_directory|].
  rewrite resolve_collect by done. eapply settles_bind; [by apply settles_directory|].
  eapply settles_bind; [eapply settles_bind; [exact Hfiles|apply settles_ret]|].
  eapply settles_bind; [exact Hm|]. rewrite Een. eapply settles_bind; [by apply settles_pure|].
  rewrite resolve_collect by done. eapply settles_bind.
  { unfold require_regular_file, filesystem. eapply settles_bind; [by apply settles_map_errors, settles_metadata|].
    by apply settles_if, settles_ret. }
  eapply settles_bind; [exact Hh|]. apply settles_if; [apply eqb_refl_neg|]. fold policy.
  rewrite E1, E2, E3. apply settles_if; [by rewrite !eqb_refl_neg|]. rewrite <- E2, <- E3.
  eapply settles_bind; [exact Hpack|]. eapply settles_bind; [exact Hgrant|]. unfold described. rewrite Hp. apply settles_ret.
Qed.

Lemma snapshot_kept (id : Uuid) (metadata : SnapshotMetadata) (files : path → option node) (fs fs' : Fs) :
  (∀ r, fs' !! (plugin_data ++ "staging" :: r) = fs !! (plugin_data ++ "staging" :: r)) →
  snapshot_on_disk plugin_data id metadata files fs → snapshot_on_disk plugin_data id metadata files fs'.
Proof.
  intros Hk [(content & Hs & Hf) Hr Hfiles]. unfold snapshot_root, staging_root in *.
  split; [exists content; split; [done|]| |intros r; rewrite <- Hfiles];
    unfold snapshot_root, staging_root; rewrite <- !app_assoc in *; simpl in *; by rewrite Hk.
Qed.

Lemma find_staged id source commit_sha extracted validated now plugin_id plugin :
  find_plugin (snapshot_metadata id source commit_sha extracted validated now) plugin_id = Some plugin →
  ∃ p, p ∈ validated_plugins validated ∧ plugin = SnapshotPlugin_from p ∧
    PluginManifest_id (validated_manifest p) = plugin_id.
Proof.
  unfold find_plugin. intros [Hin Hid]%find_some. simpl in Hin. bool_prop.
  apply list_elem_of_In, list_elem_of_fmap in Hin as (p & -> & Hp). by exists p.
Qed.

(** A plugin that was validated where the archive was unpacked, and is now part of
    a snapshot, is accepted. *)
Lemma accepted_on_disk root fs0 fs p names op id source commit_sha extracted validated grant created now later :
  let metadata := snapshot_metadata id source commit_sha extracted validated created in
  (∀ l, zlen (sha256 l) = 32) → posix_below root fs0 → fs0 !! root = Some Dir →
  validated_ok root fs0 p names → p ∈ validated_plugins validated →
  str_is_empty (trim (validated_repository_name validated)) = false →
  snapshot_on_disk plugin_data id metadata (λ r, fs0 !! (root ++ r)) fs → snapshot_storable metadata →
  prepared_on_disk op id metadata (SnapshotPlugin_from p) grant fs →
  uuid_value (prepared_operation_id op) → prepared_plugin_id op = PluginManifest_id (validated_manifest p) →
  find_plugin metadata (prepared_plugin_id op) = Some (SnapshotPlugin_from p) →
  validate_grant metadata (SnapshotPlugin_from p) grant = Ok tt →
  (∀ g, grant = Some g → uuid_value (grant_id g) ∧ rfc3339_time (grant_granted_at g) ∧ grant_granted_at g ≤ later) →
  is_lower_hex commit_sha 40 = true → created ≤ now →
  extracted_file_count extracted ≠ 0 → extracted_byte_count extracted ≠ 0 →
  settles (validate_prepared_install plugin_data (prepared_plugin_id op) (prepared_operation_id op) now later) fs
    (described (prepared_metadata (prepared_operation_id op) metadata id (prepared_plugin_id op) (SnapshotPlugin_from p) grant)
       (validated_manifest p) ((snapshot_root plugin_data id ++ ["repository"]) ++ names)).
Proof.
  intros metadata Hsha Hposix Hdir Hok Hin Hname Hsnap Hst Hprep Hop Hid Hfind Hgrant Hg Hcommit Hnow Hc Hb.
  set (plugin := SnapshotPlugin_from p) in *.
  set (prepared := prepared_metadata _ _ _ _ _ _).
  destruct (ok_manifest _ _ _ _ Hok) as (content & Hmf & Hmp & Hmh).
  destruct (ok_entry _ _ _ _ Hok) as (entry & ec & Hen & _ & Hee & Hne & Hef).
  destruct (ok_hash _ _ _ _ Hok) as (files & Hhash & Hfiles).
  destruct (ok_package _ _ _ _ Hok) as (package & lockfile & Hp1 & Hp2 & Hpack).
  destruct (ok_policy _ _ _ _ Hok) as [Hreq Hreason]. destruct (ok_fields _ _ _ _ Hok) as [Hschema Hruntime].
  assert (∀ r, fs !! ((snapshot_root plugin_data id ++ ["repository"]) ++ r) = fs0 !! (root ++ r)) as Hmoved.
  { intros r. rewrite <- app_assoc. apply (on_disk_files _ _ _ _ _ Hsnap). }
  assert (∀ r, fs !! (((snapshot_root plugin_data id ++ ["repository"]) ++ names) ++ r) = fs0 !! ((root ++ names) ++ r)) as Hmoved'.
  { intros r. rewrite <- !app_assoc. rewrite <- Hmoved. by rewrite <- !app_assoc. }
  assert (∀ p o, object_at fs0 (root ++ names ++ [p]) o →
    object_at fs (((snapshot_root plugin_data id ++ ["repository"]) ++ names) ++ [p]) o) as Hobject.
  { intros x o. unfold object_at. rewrite Hmoved'. by rewrite <- app_assoc. }
  assert (is_lower_hex (validated_manifest_hash p) 64 = true ∧ is_lower_hex (validated_source_hash p) 64 = true) as [Hh1 Hh2].
  { rewrite Hmh, Hhash. split; apply (hex_lower _ 32), Hsha. }
  assert (∀ g, grant = Some g → grant_plugin_id g = prepared_plugin_id op) as Hgp.
  { intros g ->. unfold validate_grant in Hgrant. destruct (snapshot_requires_lifecycle_scripts plugin); [|done].
    destruct (_ && _) eqn:E in Hgrant; [|done]. bool_prop. by rewrite Hid. }
  destruct (on_disk_operation _ _ _ _ _ _ Hprep) as (pc & Hpser & Hpfile).
  change (prepared_plugin_id op) with (prepared_plugin prepared) at 1.
  change (prepared_operation_id op) with (prepared_id prepared) at 1.
  apply (settles_validate fs prepared plugin _ _ entry ec); try done.
  - apply (settles_load_prepared _ _ (pc ++ newline)); try done. apply prepared_roundtrip; [|done].
    split_and!; [done|apply Hst|intros gid (g & -> & ->)%fmap_Some; by apply Hg|by exists content, (validated_manifest p)].
  - apply (settles_load_snapshot _ _ metadata _ (λ r, fs0 !! (root ++ r))); try done.
  - apply Hok.
  - apply Hok.
  - eapply prepared_path_core. rewrite <- (ok_path _ _ _ _ Hok). apply Hok.
  - change (snapshot_root plugin_data (prepared_snapshot_id prepared)) with (snapshot_root plugin_data id).
    rewrite <- (app_nil_r (_ ++ _)), Hmoved, app_nil_r. done.
  - change (snapshot_root plugin_data (prepared_snapshot_id prepared)) with (snapshot_root plugin_data id).
    rewrite Hmoved. apply Hok.
  - apply (settles_load_manifest _ _ _ _ content); try done. by rewrite Hmoved', <- app_assoc.
  - by eapply prepared_path_core.
  - by rewrite Hmoved', <- app_assoc.
  - change (prepared_source_hash prepared) with (validated_source_hash p). rewrite Hhash.
    apply (moved_hash (root ++ names) _ fs0); [by apply posix_below_inner|done|apply Hok|exact Hmoved'].
  - apply (settles_package _ _ package lockfile); [by apply Hobject..|].
    change (prepared_allow_lifecycle_scripts prepared) with (validated_requires_lifecycle_scripts p).
    by rewrite package_objects_core, Hpack.
  - eapply settles_risk_grant; [done..|]. intros g Eg. destruct (Hg g Eg) as (Hu & Hr & Hl).
    split; [|done]. split_and!; [done..|]. exists content, (validated_manifest p). split; [done|]. rewrite <- Hid. by apply Hgp.
Qed.

Lemma validated_storable root fs id source commit_sha extracted validated created :
  (∀ p, p ∈ validated_plugins validated → ∃ names, validated_ok root fs p names) →
  uuid_value id → rfc3339_time created →
  0 < extracted_file_count extracted < 2 ^ 64 → 0 < extracted_byte_count extracted < 2 ^ 64 →
  snapshot_storable (snapshot_metadata id source commit_sha extracted validated created).
Proof.
  intros Hall Hu Hr Hc Hb. unfold snapshot_storable. simpl.
  do 4 (split; [done || lia|]).
  apply Forall_fmap, Forall_forall. intros p Hp. destruct (Hall p Hp) as [names Hok].
  destruct (ok_manifest _ _ _ _ Hok) as (content & _ & Hm & _). by exists content, (validated_manifest p).
Qed.

Lemma validated_root root core api limits d repository d' :
  tree (disk_fs d) → validate_repository root core api limits d = (Ok repository, d') → disk_fs d !! root = Some Dir.
Proof.
  intros Htree H. unfold validate_repository in H. apply act_bind_Ok in H as (content & d1 & Hr%map_errors_Ok%syscall_Ok & _).
  apply (Htree _ "audiodown-repository.json"). by destruct (disk_fs d !! (root ++ _)).
Qed.

(** C14. Core and supervisor together: a plugin of a repository the core has validated,
    staged as a snapshot and prepared for installation, with a grant where it needs
    one, is accepted by the supervisor on a disk that does not fail: nothing the
    core lets through is stuck there.  The supervisor then builds the plugin the
    core validated, from the same manifest and sources. *)
Theorem staged_install_accepted source commit_sha extracted core api limits created now later
    grant plugin_id d0 validated d1 preview d2 op d3 :
  let root := repository_root extracted in
  (∀ l, zlen (sha256 l) = 32) → tree (disk_fs d0) → posix_below root (disk_fs d0) →
  apart root (staging_root plugin_data) →
  validate_repository root core api limits d0 = (Ok validated, d1) →
  create plugin_data source commit_sha extracted validated created d1 = (Ok preview, d2) →
  prepare_install plugin_data (preview_snapshot_id preview) plugin_id grant d2 = (Ok op, d3) →
  is_lower_hex commit_sha 40 = true →
  0 < extracted_file_count extracted < 2 ^ 64 → 0 < extracted_byte_count extracted < 2 ^ 64 →
  uuid_value (preview_snapshot_id preview) → uuid_value (prepared_operation_id op) →
  rfc3339_time created → created ≤ now →
  (∀ g, grant = Some g → uuid_value (grant_id g) ∧ rfc3339_time (grant_granted_at g) ∧ grant_granted_at g ≤ later) →
  ∃ p names install, p ∈ validated_plugins validated ∧ PluginManifest_id (validated_manifest p) = plugin_id ∧
    settles (validate_prepared_install plugin_data plugin_id (prepared_operation_id op) now later) (disk_fs d3) install ∧
    install_manifest install = validated_manifest p ∧ install_source_hash install = validated_source_hash p ∧
    install_commit_sha install = commit_sha ∧ install_risk_grant_id install = grant_id <$> grant ∧
    install_plugin_root install = snapshot_root plugin_data (preview_snapshot_id preview) ++ "repository" :: names ∧
    ∀ r, disk_fs d3 !! (install_plugin_root install ++ r) = disk_fs d0 !! (root ++ names ++ r).
Proof.
  intros root Hsha Htree Hposix Hapart Hval Hcreate Hprep Hcommit Hc Hb Hu Hop Hr Hnow Hg.
  pose proof (validated_root _ _ _ _ _ _ _ Htree Hval) as Hdir.
  apply validate_repository_Ok in Hval as (E1 & Hname & _ & _ & _ & Hall); [|done].
  apply prepare_install_Ok in Hprep as (Hpid & found & plugin & d2' & Hload & Hfind & Hgrant & Hdisk & Hkept).
  apply create_Ok in Hcreate as [_ Hsnap]; [|by rewrite E1..|done]. rewrite E1 in Hsnap.
  set (id := preview_snapshot_id preview) in *. set (metadata := snapshot_metadata id _ _ _ _ _) in Hsnap.
  assert (snapshot_storable metadata) as Hst by (by eapply validated_storable).
  destruct (load_snapshot_Ok _ _ _ _ _ _ Hsnap Hst Hload) as [-> E2]. rewrite E2 in Hkept.
  apply (snapshot_kept _ _ _ _ _ Hkept) in Hsnap. pose proof Hfind as (p & Hp & -> & Hid)%find_staged.
  destruct (Hall p Hp) as [names Hok]. rewrite <- Hpid in Hfind, Hid |- *.
  pose proof (accepted_on_disk root (disk_fs d0) (disk_fs d3) p names op id source commit_sha extracted validated
    grant created now later) as Hacc.
  exists p, names. eexists. split; [done|]. split; [done|]. split; [apply Hacc; try done; lia|]. split_and!; [done..| |].
  - cbn. by rewrite <- app_assoc.
  - intros r. cbn [described install_plugin_root]. rewrite <- !app_assoc. apply (on_disk_files _ _ _ _ _ Hsnap).
Qed.

(** ** What is accepted *)

Lemma read_json_Ok {T} (decode : list byte → option T) p d value d' :
  read_json_regular_file decode p d = (Ok value, d') →
  disk_fs d' = disk_fs d ∧ ∃ content, disk_fs d !! p = Some (File content) ∧ decode content = Some value.
Proof.
  unfold read_json_regular_file. intros H.
  apply act_bind_Ok in H as (content & d1 & [Hf E]%read_regular_file_Ok & [Hd%ok_or_Ok ->]%pure_Ok). eauto.
Qed.

Lemma require_directory_Ok p d d' :
  require_directory p d = (Ok tt, d') → disk_fs d' = disk_fs d ∧ disk_fs d !! p = Some Dir.
Proof.
  unfold require_directory, filesystem. intros H. apply act_bind_Ok in H as (n & d1 & Hm%map_errors_Ok & H).
  pose proof (moves_run _ _ _ _ _ (fs_symlink_metadata_same _) Hm) as E. apply syscall_Ok in Hm.
  act_step. apply act_ret_Ok in H as [_ ->]. split; [done|].
  destruct (disk_fs d !! p) as [[]|]; by simplify_eq.
Qed.

Lemma require_regular_file_Ok p d d' :
  require_regular_file p d = (Ok tt, d') → disk_fs d' = disk_fs d ∧ ∃ content, disk_fs d !! p = Some (File content).
Proof.
  unfold require_regular_file, filesystem. intros H. apply act_bind_Ok in H as (n & d1 & Hm%map_errors_Ok & H).
  pose proof (moves_run _ _ _ _ _ (fs_symlink_metadata_same _) Hm) as E. apply syscall_Ok in Hm.
  act_step. apply act_ret_Ok in H as [_ ->]. split; [done|].
  destruct (disk_fs d !! p) as [[]|]; simplify_eq; eauto.
Qed.

Lemma prepared_package_Ok root required d d' :
  prepared_validate_package root required d = (Ok tt, d') →
  disk_fs d' = disk_fs d ∧ ∃ package lockfile,
    object_at (disk_fs d) (root ++ ["package.json"]) package ∧
    object_at (disk_fs d) (root ++ ["package-lock.json"]) lockfile ∧
    validate_package_objects package lockfile required = Ok tt.
Proof.
  assert (∀ p e o e', read_json_object p e = (Ok o, e') → disk_fs e' = disk_fs e ∧ object_at (disk_fs e) p o) as Ho.
  { intros p e o e' H. unfold read_json_object in H.
    apply act_bind_Ok in H as (content & e1 & [Hf E]%read_regular_file_Ok & H).
    apply act_bind_Ok in H as (value & ? & [Hv%ok_or_Ok ->]%pure_Ok & [Hv'%ok_or_Ok ->]%pure_Ok).
    split; [done|]. by exists content, value. }
  unfold prepared_validate_package. intros H. apply act_bind_Ok in H as (package & d1 & [E1 H1]%Ho & H).
  apply act_bind_Ok in H as (lockfile & d2 & [E2 H2]%Ho & [H ->]%pure_Ok). rewrite E1 in *.
  split; [done|]. exists package, lockfile. split_and!; [done..|]. rewrite package_objects_core in H.
  by destruct (validate_package_objects _ _ _) as [[]|].
Qed.

Lemma relative_names value v : prepared_relative_path value = Ok v →
  v = value ∧ ∃ names, Forall plain names ∧ components value = Normal <$> names.
Proof.
  unfold prepared_relative_path. intros H. do 2 result_step. injection H as <-. split; [done|]. bool_prop.
  assert (forallb is_normal (components value) = true) as (names & E)%normals.
  { apply forallb_forall. intros c Hc. destruct (is_normal c) eqn:E; [done|].
    match goal with H : existsb (λ component, negb _) _ = false |- _ => rewrite <- H end.
    apply existsb_exists. exists c. by rewrite E. }
  exists names. split; [|done]. apply Forall_forall. intros name Hin. apply (components_plain value).
  rewrite E. by apply list_elem_of_fmap_2.
Qed.

Lemma relative_resolves value v root : prepared_relative_path value = Ok v →
  ∃ names, Forall plain names ∧ resolve root v = root ++ names.
Proof.
  intros (-> & names & Hn & E)%relative_names. exists names. split; [done|].
  unfold resolve. rewrite E. apply descend_plain.
Qed.

Lemma load_prepared_Ok plugin_id id d prepared d' :
  load_prepared plugin_data plugin_id id d = (Ok prepared, d') →
  disk_fs d' = disk_fs d ∧ prepared_id prepared = id ∧ prepared_plugin prepared = plugin_id ∧
  is_lower_hex (prepared_commit_sha prepared) 40 = true ∧
  ∃ content, disk_fs d !! (plugin_data ++ ["prepared"; json_name id]) = Some (File content) ∧
    prepared_from_slice content = Some prepared.
Proof.
  unfold load_prepared. intros H. apply act_bind_Ok in H as (m & d1 & [E Hf]%read_json_Ok & H). act_step.
  apply act_bind_Ok in H as ([] & ? & [Hc ->]%pure_Ok & H). apply act_bind_Ok in H as ([] & ? & [_ ->]%pure_Ok & H).
  apply act_bind_Ok in H as ([] & ? & [_ ->]%pure_Ok & H). apply act_ret_Ok in H as [-> ->].
  unfold validate_commit_sha in Hc. result_step. bool_prop. done.
Qed.

(** The snapshot that an operation was prepared from, and its plugin. *)
Definition snapshot_names (fs : Fs) (prepared : PreparedMetadata) (now : time) (plugin : SnapshotPlugin) :
    Prop :=
  ∃ content snapshot,
    fs !! (snapshot_root plugin_data (prepared_snapshot_id prepared) ++ ["snapshot.json"])
      = Some (File content) ∧
    snapshot_from_slice content = Some snapshot ∧
    snapshot_id snapshot = prepared_snapshot_id prepared ∧
    snapshot_repository_id snapshot = prepared_repository_id prepared ∧
    snapshot_source_url snapshot = prepared_source_url prepared ∧
    snapshot_commit_sha snapshot = prepared_commit_sha prepared ∧ snapshot_created_at snapshot ≤ now ∧
    plugin ∈ snapshot_plugins snapshot ∧ snapshot_plugin_id plugin = prepared_plugin prepared ∧
    snapshot_plugin_path plugin = prepared_plugin_path prepared ∧
    snapshot_manifest_hash plugin = prepared_manifest_hash prepared ∧
    snapshot_source_hash plugin = prepared_source_hash prepared.

Lemma load_prepared_snapshot_Ok prepared now d plugin d' :
  load_prepared_snapshot plugin_data prepared now d = (Ok plugin, d') →
  disk_fs d' = disk_fs d ∧ snapshot_names (disk_fs d) prepared now plugin.
Proof.
  unfold load_prepared_snapshot. intros H.
  apply act_bind_Ok in H as ([] & d1 & [E1 _]%require_directory_Ok & H).
  apply act_bind_Ok in H as (m & d2 & (E2 & content & Hf & Hm)%read_json_Ok & H). act_step.
  apply act_bind_Ok in H as ([] & ? & [_ ->]%pure_Ok & H).
  apply act_bind_Ok in H as (p & ? & [[Hin Hp]%ok_or_Ok%find_some ->]%pure_Ok & H). act_step.
  apply act_ret_Ok in H as [-> ->]. bool_prop. split; [congruence|]. rewrite <- E1.
  exists content, m. apply list_elem_of_In in Hin. by split_and!.
Qed.

Lemma load_prepared_manifest_Ok prepared plugin root d manifest d' :
  load_prepared_manifest prepared plugin root d = (Ok manifest, d') →
  disk_fs d' = disk_fs d ∧ PluginManifest_id manifest = prepared_plugin prepared ∧
  ∃ content, disk_fs d !! (root ++ ["audiodown-plugin.json"]) = Some (File content) ∧
    plugin_manifest_from_slice content = Some manifest ∧ hex (sha256 content) = prepared_manifest_hash prepared.
Proof.
  unfold load_prepared_manifest. intros H.
  apply act_bind_Ok in H as (content & d1 & [Hf E]%read_regular_file_Ok & H). act_step.
  apply act_bind_Ok in H as (m & ? & [Hm%ok_or_Ok ->]%pure_Ok & H). act_step.
  apply act_ret_Ok in H as [-> ->]. bool_prop. split_and!; [done..|]. by exists content.
Qed.

(** The consent to lifecycle scripts as the supervisor found it. *)
Definition consented (fs : Fs) (install : ValidatedPreparedInstall) (later : time) : Prop :=
  ∃ id content grant, install_risk_grant_id install = Some id ∧
    fs !! (plugin_data ++ ["grants"; json_name id]) = Some (File content) ∧
    grant_from_slice content = Some grant ∧ mirror_grant_id grant = id ∧
    mirror_schema_version grant = SCHEMA_VERSION ∧ mirror_risk_kind grant = LIFECYCLE_RISK_KIND ∧
    mirror_plugin_id grant = install_plugin_id install ∧
    mirror_repository_id grant = install_repository_id install ∧
    mirror_commit_sha grant = install_commit_sha install ∧ mirror_granted_at grant ≤ later ∧
    trimmed_reason (BuildSpec_npm_lifecycle_scripts (PluginManifest_build (install_manifest install)))
      = Some (mirror_reason grant).

Lemma validate_risk_grant_Ok prepared manifest root later d d' :
  validate_risk_grant plugin_data prepared
    (trimmed_reason (BuildSpec_npm_lifecycle_scripts (PluginManifest_build manifest))) later d = (Ok tt, d') →
  disk_fs d' = disk_fs d ∧
  if prepared_allow_lifecycle_scripts prepared
  then consented (disk_fs d) (described prepared manifest root) later
  else prepared_risk_grant_id prepared = None.
Proof.
  unfold validate_risk_grant. intros H.
  destruct (prepared_allow_lifecycle_scripts prepared), (prepared_risk_grant_id prepared) as [id|] eqn:Eid; try done.
  2:{ by apply act_ret_Ok in H as [_ ->]. }
  apply act_bind_Ok in H as (grant & d1 & (E & content & Hf & Hg)%read_json_Ok & H). act_step.
  apply act_ret_Ok in H as [_ ->]. split; [done|]. bool_prop.
  exists id, content, grant. by split_and!.
Qed.

Lemma prepared_hash_settles root d hash d' :
  prepared_hash_source_tree root d = (Ok hash, d') →
  disk_fs d' = disk_fs d ∧ settles (prepared_hash_source_tree root) (disk_fs d) hash.
Proof.
  intros H. split.
  - apply (moves_run same_fs) in H; [done|]. unfold prepared_hash_source_tree. moves.
    + intros e. apply prepared_collect_same.
    + apply read_regular_file_same.
  - apply prepared_hash_Ok in H as (collected & files & Hc & _ & Hf & ->). by eapply settles_prepared_hash.
Qed.

(** The supervisor's view of an installation it has accepted, [names] leading from
    the snapshot to the plugin. *)
Record install_ok (fs : Fs) (install : ValidatedPreparedInstall) (now later : time) (names : path) : Prop := {
  install_requested : ∃ content prepared plugin,
    fs !! (plugin_data ++ ["prepared"; json_name (install_operation_id install)]) = Some (File content) ∧
    prepared_from_slice content = Some prepared ∧
    install = described prepared (install_manifest install) (install_plugin_root install) ∧
    snapshot_names fs prepared now plugin;
  install_names : Forall plain names;
  install_root : install_plugin_root install
    = snapshot_root plugin_data (install_snapshot_id install) ++ "repository" :: names;
  install_manifest_id : PluginManifest_id (install_manifest install) = install_plugin_id install;
  install_manifest_file : ∃ content,
    fs !! (install_plugin_root install ++ ["audiodown-plugin.json"]) = Some (File content) ∧
    plugin_manifest_from_slice content = Some (install_manifest install) ∧
    hex (sha256 content) = install_manifest_hash install;
  install_entry : ∃ entry content, Forall plain entry ∧
    resolve (install_plugin_root install) (RuntimeSpec_entry (PluginManifest_runtime (install_manifest install)))
      = install_plugin_root install ++ entry ∧
    fs !! (install_plugin_root install ++ entry) = Some (File content);
  install_hash : settles (prepared_hash_source_tree (install_plugin_root install)) fs (install_source_hash install);
  install_package : ∃ package lockfile,
    object_at fs (install_plugin_root install ++ ["package.json"]) package ∧
    object_at fs (install_plugin_root install ++ ["package-lock.json"]) lockfile ∧
    validate_package_objects package lockfile (install_allow_lifecycle_scripts install) = Ok tt;
  install_scripts : install_allow_lifecycle_scripts install
    = LifecycleScriptPolicy_required (BuildSpec_npm_lifecycle_scripts (PluginManifest_build (install_manifest install)));
  install_consent : if install_allow_lifecycle_scripts install then consented fs install later
                    else install_risk_grant_id install = None;
}.

(** C15. Whatever directories and regular files are on the disk and whichever system
    calls fail: an installation that the supervisor accepts is the one that was
    asked for, agrees with the prepared request and with the snapshot it names,
    lies below that snapshot, whatever path the core wrote down, has the manifest
    and the sources with the hashes recorded in both, and a package the core's own
    check accepts.  When its manifest asks for lifecycle scripts there is the
    user's grant for this plugin, repository and commit and the manifest's reason;
    when it does not, the request names no grant.  The check writes nothing. *)
Theorem prepared_install_sound plugin_id id now later d install d' :
  validate_prepared_install plugin_data plugin_id id now later d = (Ok install, d') →
  disk_fs d' = disk_fs d ∧ install_plugin_id install = plugin_id ∧ install_operation_id install = id ∧
  is_lower_hex (install_commit_sha install) 40 = true ∧
  ∃ names, install_ok (disk_fs d) install now later names.
Proof.
  unfold validate_prepared_install. intros H.
  apply act_bind_Ok in H as (prepared & d1 & (E1 & Hid & Hpid & Hsha & pc & Hpc & Hparse)%load_prepared_Ok & H).
  apply act_bind_Ok in H as (plugin & d2 & [E2 Hsnap]%load_prepared_snapshot_Ok & H).
  apply act_bind_Ok in H as (text & ? & [Hrel ->]%pure_Ok & H). cbn zeta in H.
  set (repository := snapshot_root _ _ ++ _) in H.
  destruct (relative_resolves _ _ repository Hrel) as (names & Hn & Er). rewrite Er in H.
  apply act_bind_Ok in H as ([] & d3 & [E3 _]%require_directory_Ok & H).
  apply act_bind_Ok in H as ([] & d4 & [E4 _]%require_directory_Ok & H).
  apply act_bind_Ok in H as ([] & d5 & Ht & H). apply (moves_run same_fs) in Ht.
  2:{ unfold validate_regular_tree. moves. intros e. apply prepared_collect_same. }
  apply act_bind_Ok in H as (manifest & d6 & (E6 & Hmid & Hm)%load_prepared_manifest_Ok & H).
  apply act_bind_Ok in H as (entry_text & ? & [Hen ->]%pure_Ok & H).
  destruct (relative_resolves _ _ (repository ++ names) Hen) as (entry & He & Ee).
  pose proof (proj1 (relative_names _ _ Hen)) as ->. rewrite Ee in H.
  apply act_bind_Ok in H as ([] & d7 & [E7 (ec & Hec)]%require_regular_file_Ok & H).
  apply act_bind_Ok in H as (hash & d8 & [E8 Hh]%prepared_hash_settles & H). act_step. act_step. bool_prop. subst hash.
  apply act_bind_Ok in H as ([] & d9 & [E9 Hp]%prepared_package_Ok & H).
  apply act_bind_Ok in H as ([] & d10 & Hg & H). apply act_ret_Ok in H as [-> ->].
  match goal with H : snapshot_lifecycle_script_reason plugin = _ |- _ => rewrite H in Hg end.
  apply (validate_risk_grant_Ok _ _ (repository ++ names)) in Hg as [E10 Hg]. unfold same_fs in Ht.
  rewrite E9, E8, E7, E6, Ht, E4, E3, E2, E1 in *. split_and!; try done.
  exists names. split; cbn; try done; [exists pc, prepared, plugin; rewrite Hid at 1; by split_and!
    |unfold repository; by rewrite <- app_assoc|by exists entry, ec].
Qed.
End staged.
