(* ===== verification/PluginBuild.v ===== *)
(** * Building plugins (audiodown-supervisor: builder.rs, docker_build.rs)

    A plugin is built from its prepared sources in a container that reaches the
    npm registry through a proxy container and nothing else; the output of the
    build is checked, normalized, copied into a container of the runtime image
    that is never started, and committed as the plugin's image.  The archives are
    functions, the build itself a program over the calls of [BuildCall]. *)

From stdpp Require Import pretty.
From S2P Require Import Prelude Text Std Domain Foreign CredentialContract Database Stateful SupervisorProtocol Fs.
From S2P Require Import InstallOperation Program ContainerPolicy SupervisorHost InstallRecord PluginManager PluginArchive PluginRepository.
From S2P Require Import SnapshotStore PreparedInstall.

(** ** builder.rs *)

Inductive BuildPolicyError :=
  GlobalBuildBusy | PluginBuildBusy | ConcurrencyStatePoisoned | BuildLogLimitExceeded
| PolicyUnsafeBuildOutput | PolicyBuildOutputLimitExceeded | PolicyInvalidImageMetadata.

Definition BUILD_LOG_LIMIT_BYTES : Z := 1024 * 1024.
Definition BUILD_OUTPUT_LIMIT_BYTES : Z := 256 * 1024 * 1024.
Definition BUILD_OUTPUT_FILE_LIMIT : Z := 32768.
Definition BUILD_OUTPUT_FILE_SIZE_LIMIT : Z := 64 * 1024 * 1024.
Definition BUILD_PROXY_IMAGE : string := "audiodown/supervisor:1.0.0-alpha.1".

(** [ContainerPolicy] of builder.rs; the timeout is in nanoseconds. *)
Record BuildContainerPolicy := mkBuildContainerPolicy {
  policy_image : string;
  policy_user : string;
  policy_networks : list string;
  policy_network_aliases : list string;
  policy_env : gmap string string;
  policy_command : list string;
  policy_cap_drop : list string;
  policy_security_opt : list string;
  policy_read_only_rootfs : bool;
  policy_tmpfs : gmap string string;
  policy_bind_mounts : list string;
  policy_devices : list string;
  policy_privileged : bool;
  policy_host_network : bool;
  policy_network_disabled : bool;
  policy_start_container : bool;
  policy_memory_bytes : Z;
  policy_nano_cpus : Z;
  policy_pids_limit : Z;
  policy_timeout : Z;
}.

Record BuildNetworkPolicy := mkBuildNetworkPolicy {
  network_name : string;
  network_driver : string;
  network_internal : bool;
}.
Record BuildNetworks := mkBuildNetworks {
  networks_internal : BuildNetworkPolicy;
  networks_egress : BuildNetworkPolicy;
}.

Definition internal_network (operation_id : string) : string :=
  "audiodown-build-" +:+ operation_id +:+ "-internal".
Definition egress_network (operation_id : string) : string :=
  "audiodown-build-" +:+ operation_id +:+ "-egress".

Definition build_networks (operation_id : string) : BuildNetworks :=
  mkBuildNetworks
    (mkBuildNetworkPolicy (internal_network operation_id) "bridge" true)
    (mkBuildNetworkPolicy (egress_network operation_id) "bridge" false).

Definition builder_policy (operation_id : string) : BuildContainerPolicy := {|
  policy_image := BUILDER_IMAGE;
  policy_user := "10001:10001";
  policy_networks := [network_name (networks_internal (build_networks operation_id))];
  policy_network_aliases := [];
  policy_env := list_to_map [
    ("HTTPS_PROXY", "http://audiodown-npm-proxy:18081");
    ("HTTP_PROXY", "http://audiodown-npm-proxy:18081");
    ("NO_PROXY", "");
    ("NODE_ENV", "production")];
  policy_command := ["node"; "/opt/audiodown/node22-build-runner.js"];
  policy_cap_drop := ["ALL"];
  policy_security_opt := ["no-new-privileges:true"];
  policy_read_only_rootfs := true;
  policy_tmpfs := {[ "/workspace" := "rw,nosuid,nodev,size=268435456,uid=10001,gid=10001,mode=0700" ]};
  policy_bind_mounts := [];
  policy_devices := [];
  policy_privileged := false;
  policy_host_network := false;
  policy_network_disabled := false;
  policy_start_container := true;
  policy_memory_bytes := 512 * 1024 * 1024;
  policy_nano_cpus := 1000000000;
  policy_pids_limit := 128;
  policy_timeout := 5 * 60 * 10 ^ 9 |}.

Definition proxy_policy (operation_id : string) : BuildContainerPolicy := {|
  policy_image := BUILD_PROXY_IMAGE;
  policy_user := "10002:10002";
  policy_networks := [network_name (networks_internal (build_networks operation_id));
                      network_name (networks_egress (build_networks operation_id))];
  policy_network_aliases := ["audiodown-npm-proxy"];
  policy_env := ∅;
  policy_command := ["audiodown-supervisor"; "build-proxy"];
  policy_cap_drop := ["ALL"];
  policy_security_opt := ["no-new-privileges:true"];
  policy_read_only_rootfs := true;
  policy_tmpfs := {[ "/tmp" := "rw,noexec,nosuid,nodev,size=16777216,uid=10002,gid=10002,mode=0700" ]};
  policy_bind_mounts := [];
  policy_devices := [];
  policy_privileged := false;
  policy_host_network := false;
  policy_network_disabled := false;
  policy_start_container := true;
  policy_memory_bytes := 128 * 1024 * 1024;
  policy_nano_cpus := 500000000;
  policy_pids_limit := 64;
  policy_timeout := 5 * 60 * 10 ^ 9 |}.

Definition assembler_policy : BuildContainerPolicy := {|
  policy_image := RUNTIME_IMAGE;
  policy_user := "0:0";
  policy_networks := [];
  policy_network_aliases := [];
  policy_env := ∅;
  policy_command := [];
  policy_cap_drop := ["ALL"];
  policy_security_opt := ["no-new-privileges:true"];
  policy_read_only_rootfs := false;
  policy_tmpfs := ∅;
  policy_bind_mounts := [];
  policy_devices := [];
  policy_privileged := false;
  policy_host_network := false;
  policy_network_disabled := true;
  policy_start_container := false;
  policy_memory_bytes := 0;
  policy_nano_cpus := 0;
  policy_pids_limit := 0;
  policy_timeout := 0 |}.

Definition npm_ci_command (allow_lifecycle_scripts : bool) : list string :=
  ["npm"; "ci"; "--omit=dev"]
  ++ (if negb allow_lifecycle_scripts then ["--ignore-scripts"] else [])
  ++ ["--no-audit"; "--no-fund"].

(** *** One build at a time *)

(** The mutex also knows whether a panic poisoned it. *)
Record BuildConcurrency := mkBuildConcurrency {
  global_permits : Z;
  active_plugins : gset string;
  active_poisoned : bool;
}.
Definition BuildConcurrency_new : BuildConcurrency := mkBuildConcurrency 1 ∅ false.

Definition try_acquire_global : act BuildConcurrency BuildPolicyError unit := λ s,
  if global_permits s <=? 0 then (Err GlobalBuildBusy, s)
  else (Ok tt, mkBuildConcurrency (global_permits s - 1) (active_plugins s) (active_poisoned s)).
Definition release_global (s : BuildConcurrency) : BuildConcurrency :=
  mkBuildConcurrency (global_permits s + 1) (active_plugins s) (active_poisoned s).

Definition reserve_plugin (plugin_id : string) : act BuildConcurrency BuildPolicyError unit := λ s,
  if active_poisoned s then (Err ConcurrencyStatePoisoned, s)
  else if decide (plugin_id ∈ active_plugins s) then (Err PluginBuildBusy, s)
  else (Ok tt, mkBuildConcurrency (global_permits s) ({[plugin_id]} ∪ active_plugins s) (active_poisoned s)).
(** [Drop for PluginReservation] *)
Definition drop_reservation (plugin_id : string) (s : BuildConcurrency) : BuildConcurrency :=
  if active_poisoned s then s
  else mkBuildConcurrency (global_permits s) (active_plugins s ∖ {[plugin_id]}) (active_poisoned s).

(** *** Logs *)

Record BuildLog := mkBuildLog { log_bytes : list byte; log_terminal : bool }.
Definition BuildLog_push (chunk : list byte) : act BuildLog BuildPolicyError unit := λ self,
  if log_terminal self then (Err BuildLogLimitExceeded, self)
  else
    let remaining := Z.max 0 (BUILD_LOG_LIMIT_BYTES - zlen (log_bytes self)) in
    if remaining <? zlen chunk
    then (Err BuildLogLimitExceeded, mkBuildLog (log_bytes self ++ take (Z.to_nat remaining) chunk) true)
    else (Ok tt, mkBuildLog (log_bytes self ++ chunk) false).

(** *** The output of a build *)

(** A [PathBuf] is its bytes; two are equal if their components are. *)
Inductive BuildOutputEntryKind :=
  | OutputDirectory | OutputFile | OutputSymlink (target : string) | OutputHardLink (target : string)
  | OutputDevice | OutputFifo | OutputOther.
Record BuildOutputEntry := mkBuildOutputEntry {
  output_path : string;
  output_kind : BuildOutputEntryKind;
  output_size : Z;
}.
Record NormalizedBuildOutputEntry := mkNormalizedBuildOutputEntry {
  normalized_path : string;
  normalized_kind : BuildOutputEntryKind;
  normalized_size : Z;
  normalized_uid : Z;
  normalized_gid : Z;
  normalized_mode : Z;
  normalized_mtime : Z;
  normalized_extended_metadata : list (string * list byte);
}.

Definition validate_output_path (p : string) : result BuildPolicyError unit :=
  if str_is_empty p || is_absolute p || str_contains p (chr 92)
     || existsb (λ component, negb (is_normal component)) (components p)
  then Err PolicyUnsafeBuildOutput
  else Ok tt.

(** The loop over the components of a link's target. *)
Fixpoint link_depth (depth : nat) (l : list Component) : option nat :=
  match l with
  | [] => Some depth
  | Normal _ :: l => link_depth (S depth) l
  | CurDir :: l => link_depth depth l
  | ParentDir :: l => match depth with S depth => link_depth depth l | O => None end
  | RootDir :: _ => None
  end.
Definition symlink_stays_inside (link_path target : string) : bool :=
  if str_is_empty target || is_absolute target || str_contains target (chr 92) then false
  else
    match link_depth (length (removelast (components link_path))) (components target) with
    | Some depth => (0 <? depth)%nat
    | None => false
    end.

(** [0o755], [0o644] and [0o777] *)
Definition mode_755 : Z := 7 * 64 + 5 * 8 + 5.
Definition mode_644 : Z := 6 * 64 + 4 * 8 + 4.
Definition mode_777 : Z := 7 * 64 + 7 * 8 + 7.
Definition mode_600 : Z := 6 * 64.

(** The mode of an entry and the total size with it. *)
Definition entry_mode (entry : BuildOutputEntry) (total_size : Z) : result BuildPolicyError (Z * Z) :=
  match output_kind entry with
  | OutputDirectory =>
      if negb (output_size entry =? 0) then Err PolicyUnsafeBuildOutput else Ok (mode_755, total_size)
  | OutputFile =>
      if BUILD_OUTPUT_FILE_SIZE_LIMIT <? output_size entry then Err PolicyBuildOutputLimitExceeded
      else
        total_size ← ok_or (checked_add total_size (output_size entry)) PolicyBuildOutputLimitExceeded;
        if BUILD_OUTPUT_LIMIT_BYTES <? total_size then Err PolicyBuildOutputLimitExceeded
        else Ok (mode_644, total_size)
  | OutputSymlink target =>
      if negb (output_size entry =? 0) || negb (symlink_stays_inside (output_path entry) target)
      then Err PolicyUnsafeBuildOutput
      else Ok (mode_777, total_size)
  | OutputHardLink _ | OutputDevice | OutputFifo | OutputOther => Err PolicyUnsafeBuildOutput
  end.

Fixpoint normalize_entries (entries : list BuildOutputEntry) (seen : list (list Component)) (total_size : Z) :
    result BuildPolicyError (list NormalizedBuildOutputEntry) :=
  match entries with
  | [] => Ok []
  | entry :: entries =>
      validate_output_path (output_path entry);;
      if decide (components (output_path entry) ∈ seen) then Err PolicyUnsafeBuildOutput
      else
        mode ← entry_mode entry total_size;
        normalized ← normalize_entries entries (components (output_path entry) :: seen) mode.2;
        Ok (mkNormalizedBuildOutputEntry (output_path entry) (output_kind entry) (output_size entry)
              0 0 mode.1 0 [] :: normalized)
  end.

(** [Path::cmp]: by components; [Normal] comes after the others. *)
Definition component_rank (c : Component) : Z :=
  match c with RootDir => 0 | CurDir => 1 | ParentDir => 2 | Normal _ => 3 end.
Definition component_cmp (a b : Component) : comparison :=
  match a, b with
  | Normal a, Normal b => String.compare a b
  | _, _ => Z.compare (component_rank a) (component_rank b)
  end.
Definition path_cmp : string → string → comparison := cmp_on components (lex_cmp component_cmp).

Definition normalize_build_output (entries : list BuildOutputEntry) :
    result BuildPolicyError (list NormalizedBuildOutputEntry) :=
  if BUILD_OUTPUT_FILE_LIMIT <? zlen entries then Err PolicyBuildOutputLimitExceeded
  else
    normalized ← normalize_entries entries [] 0;
    Ok (sort_by (cmp_on normalized_path path_cmp) normalized).

(** *** The image *)

Record FinalImageMetadata := mkFinalImageMetadata {
  final_installation_id : string;
  final_plugin_id : string;
  final_commit_sha : string;
  final_source_hash : string;
  final_manifest_hash : string;
  final_base_image_digest : string;
  final_sdk_hash : string;
}.

Definition final_image_labels (metadata : FinalImageMetadata) : result BuildPolicyError labels :=
  if str_is_empty (final_installation_id metadata)
     || str_is_empty (final_plugin_id metadata)
     || negb (is_lower_hex (final_commit_sha metadata) 40)
     || negb (is_lower_hex (final_source_hash metadata) 64)
     || negb (is_lower_hex (final_manifest_hash metadata) 64)
     || negb (is_some_and (λ digest, is_lower_hex digest 64)
                (strip_prefix (final_base_image_digest metadata) "sha256:"))
     || negb (is_lower_hex (final_sdk_hash metadata) 64)
  then Err PolicyInvalidImageMetadata
  else Ok (list_to_map [
    ("io.audiodown.managed", "true");
    ("io.audiodown.installation", final_installation_id metadata);
    ("io.audiodown.plugin-id", final_plugin_id metadata);
    ("io.audiodown.commit-sha", final_commit_sha metadata);
    ("io.audiodown.source-hash", final_source_hash metadata);
    ("io.audiodown.manifest-hash", final_manifest_hash metadata);
    ("io.audiodown.base-image-digest", final_base_image_digest metadata);
    ("io.audiodown.sdk-hash", final_sdk_hash metadata)]).

(** [&s[..12]]; the strings are longer. *)
Definition first_12 (s : string) : string := str (take 12 (bytes s)).

Section image.
Context {K : Codec} {B : Encoding}.

Definition managed_image_tag (plugin_id commit_sha source_hash : string) : result BuildPolicyError string :=
  if str_is_empty plugin_id || negb (is_lower_hex commit_sha 40) || negb (is_lower_hex source_hash 64)
  then Err PolicyInvalidImageMetadata
  else Ok ("audiodown/plugin-" +:+ first_12 (hex (sha256 (bytes plugin_id))) +:+ ":"
           +:+ first_12 commit_sha +:+ "-" +:+ first_12 source_hash).
End image.

(** ** docker_build.rs *)

Inductive DockerBuildError :=
  UnsafeBuildInput | UnsafeBuildOutput | BuildOutputLimitExceeded | TrustedImage | InvalidImageMetadata
| BuildArchiveIo | BuildTimeout.
Definition DockerBuildError_code (self : DockerBuildError) : string :=
  match self with
  | UnsafeBuildInput => "UNSAFE_BUILD_INPUT"
  | UnsafeBuildOutput => "UNSAFE_BUILD_OUTPUT"
  | BuildOutputLimitExceeded => "BUILD_OUTPUT_LIMIT_EXCEEDED"
  | TrustedImage => "TRUSTED_IMAGE_INVALID"
  | InvalidImageMetadata => "INVALID_IMAGE_METADATA"
  | BuildArchiveIo => "ARCHIVE_IO_FAILED"
  | BuildTimeout => "BUILD_TIMEOUT"
  end.

Definition SUPERVISOR_IMAGE : string := "audiodown/supervisor:1.0.0-alpha.1".

(** *** Names and configurations *)

Section configs.
Context {K : Codec}.

Record OperationResourceNames := mkOperationResourceNames {
  names_internal_network : string;
  names_egress_network : string;
  names_proxy_container : string;
  names_builder_container : string;
  names_assembler_container : string;
}.
Definition operation_resource_names (operation_id : Uuid) : OperationResourceNames :=
  let named suffix := "audiodown-build-" +:+ uuid_to_string operation_id +:+ suffix in
  mkOperationResourceNames (named "-internal") (named "-egress") (named "-proxy") (named "-builder")
    (named "-assembler").

Definition operation_resource_labels (operation_id : Uuid) (role : string) : labels :=
  list_to_map [
    ("io.audiodown.managed", "true");
    ("io.audiodown.resource-role", role);
    ("io.audiodown.operation-id", uuid_to_string operation_id)].

Definition build_host_config (policy : BuildContainerPolicy) : HostConfig := {|
  host_memory := policy_memory_bytes policy;
  host_memory_swap := policy_memory_bytes policy;
  host_nano_cpus := policy_nano_cpus policy;
  host_pids_limit := policy_pids_limit policy;
  host_binds := policy_bind_mounts policy;
  host_devices := [];
  host_network_mode := if policy_network_disabled policy then "none" else default "" (head (policy_networks policy));
  host_privileged := policy_privileged policy;
  host_publish_all_ports := false;
  host_readonly_rootfs := policy_read_only_rootfs policy;
  host_cap_add := [];
  host_cap_drop := policy_cap_drop policy;
  host_security_opt := policy_security_opt policy;
  host_tmpfs := policy_tmpfs policy;
  host_dns := [];
  host_init := true;
  host_auto_remove := false |}.

Definition bool_text (b : bool) : string := if b then "true" else "false".

(** What is left out of a [ContainerCreateBody] is empty or false. *)
Definition builder_container_config (operation_id : Uuid) (allow_lifecycle_scripts : bool) : ContainerCreateBody :=
  let policy := builder_policy (uuid_to_string operation_id) in {|
  body_image := policy_image policy;
  body_user := policy_user policy;
  body_working_dir := "/workspace";
  body_entrypoint := Some (policy_command policy);
  body_cmd := None;
  body_env := ["AUDIODOWN_ALLOW_LIFECYCLE_SCRIPTS=" +:+ bool_text allow_lifecycle_scripts;
               "HTTP_PROXY=http://audiodown-npm-proxy:18081";
               "HTTPS_PROXY=http://audiodown-npm-proxy:18081";
               "NODE_ENV=production";
               "NO_PROXY="];
  body_labels := operation_resource_labels operation_id "plugin-build";
  body_network_disabled := false;
  body_attach_stdout := false;
  body_attach_stderr := false;
  body_open_stdin := false;
  body_tty := false;
  body_host_config := build_host_config policy;
  body_endpoints := ∅ |}.

Definition proxy_container_config (operation_id : Uuid) : ContainerCreateBody :=
  let policy := proxy_policy (uuid_to_string operation_id) in {|
  body_image := SUPERVISOR_IMAGE;
  body_user := policy_user policy;
  body_working_dir := "";
  body_entrypoint := Some (policy_command policy);
  body_cmd := None;
  body_env := [];
  body_labels := operation_resource_labels operation_id "plugin-build-proxy";
  body_network_disabled := false;
  body_attach_stdout := false;
  body_attach_stderr := false;
  body_open_stdin := false;
  body_tty := false;
  body_host_config := build_host_config policy;
  body_endpoints := {[ names_internal_network (operation_resource_names operation_id) := ["audiodown-npm-proxy"] ]} |}.

Definition assembler_container_config (operation_id : Uuid) : ContainerCreateBody :=
  let policy := assembler_policy in {|
  body_image := policy_image policy;
  body_user := policy_user policy;
  body_working_dir := "";
  body_entrypoint := None;
  body_cmd := None;
  body_env := [];
  body_labels := ∅;
  body_network_disabled := true;
  body_attach_stdout := false;
  body_attach_stderr := false;
  body_open_stdin := false;
  body_tty := false;
  body_host_config := build_host_config policy;
  body_endpoints := ∅ |}.
End configs.

(** *** Archives *)

(** An entry that is appended to an archive. *)
Record TarOutput := mkTarOutput {
  tar_type : EntryType;
  tar_path : string;
  tar_mode : Z;
  tar_uid : Z;
  tar_gid : Z;
  tar_link : option string;
  tar_content : list byte;
}.

(** The tar crate: which entries and links a header can hold, and the bytes of an
    archive; reading one gives its entries with the name of a link. *)
Class TarLib := {
  tar_accepts : TarOutput → bool;
  link_accepts : string → bool;
  tar_finish : list TarOutput → option (list byte);
  output_entries : list byte → option (list (option (TarEntry * bool * option (option string))));
}.

Section archives.
Context {T : TarLib}.

Definition append (entry : TarOutput) (archive : list TarOutput) : result DockerBuildError (list TarOutput) :=
  if tar_accepts entry then Ok (archive ++ [entry]) else Err BuildArchiveIo.
Definition append_directory (p : string) (uid gid : Z) : list TarOutput → result DockerBuildError (list TarOutput) :=
  append (mkTarOutput EntryDirectory p mode_755 uid gid None []).
Definition append_file (p : string) (contents : list byte) (mode uid gid : Z) :
    list TarOutput → result DockerBuildError (list TarOutput) :=
  append (mkTarOutput EntryRegular p mode uid gid None contents).
Definition append_symlink (p target : string) (archive : list TarOutput) :
    result DockerBuildError (list TarOutput) :=
  if negb (link_accepts target) then Err UnsafeBuildOutput
  else append (mkTarOutput EntryOther p mode_777 0 0 (Some target) []) archive.
Definition finish (archive : list TarOutput) : result DockerBuildError (list byte) :=
  ok_or (tar_finish archive) BuildArchiveIo.

Definition unsafe_input {A} (m : act Disk IoError A) : act Disk DockerBuildError A :=
  map_errors (λ _, UnsafeBuildInput) m.

Definition build_require_directory (p : path) : act Disk DockerBuildError unit :=
  metadata ← unsafe_input (fs_symlink_metadata p);
  if negb (node_is_dir metadata) then throw UnsafeBuildInput else mret tt.

(** [Fs] has neither links nor special files, which the code refuses. *)
Fixpoint collect_source_entries (fuel : nat) (root directory : path) :
    act Disk DockerBuildError (list (string * path * bool)) :=
  match fuel with
  | O => throw UnsafeBuildInput
  | S fuel =>
      names ← unsafe_input (fs_read_dir directory);
      entries ← act_map (λ name,
                  let p := directory ++ [name] in
                  metadata ← unsafe_input (fs_symlink_metadata p);
                  relative ← pure (ok_or (relative_text root p) UnsafeBuildInput);
                  if node_is_dir metadata then
                    inner ← collect_source_entries fuel root p;
                    mret ((relative, p, true) :: inner)
                  else mret [(relative, p, false)]) names;
      mret (concat entries)
  end.

(** The entries appended after [input/]. *)
Fixpoint append_sources (paths : list (string * path * bool)) (archive : list TarOutput) :
    act Disk DockerBuildError (list TarOutput) :=
  match paths with
  | [] => mret archive
  | (relative, absolute, directory) :: paths =>
      archive ←
        (if (directory : bool) then pure (append_directory ("input/" +:+ relative +:+ "/") 10001 10001 archive)
         else
           content ← unsafe_input (fs_read absolute);
           pure (append_file ("input/" +:+ relative) content mode_644 10001 10001 archive));
      append_sources paths archive
  end.

Definition input_ready : list byte := bytes "ready" ++ newline.

(** The recursion descends at most as deep as the longest path. *)
Definition source_entries (root : path) : act Disk DockerBuildError (list (string * path * bool)) := λ d,
  collect_source_entries (S (fs_depth (disk_fs d))) root root d.
Definition build_source_archive (root : path) : act Disk DockerBuildError (list byte) :=
  build_require_directory root;;
  paths ← source_entries root;
  archive ← pure (append_directory "input/" 10001 10001 []);
  archive ← append_sources (sort_by (cmp_on (λ e, e.1.1) String.compare) paths) archive;
  archive ← pure (append_file "input/.input-ready" input_ready mode_600 10001 10001 archive);
  pure (finish archive).

(** *** The output *)

Definition component_text (c : Component) : string :=
  match c with RootDir => "/" | CurDir => "." | ParentDir => ".." | Normal name => name end.

Definition strip_output_prefix (p : string) : result DockerBuildError string :=
  match components p with
  | Normal value :: rest =>
      if eqb value "output" then Ok (collect_path (map component_text rest)) else Err UnsafeBuildOutput
  | _ => Err UnsafeBuildOutput
  end.

Definition build_validate_relative_path (p : string) : result DockerBuildError unit :=
  if is_absolute p || str_is_empty p || str_contains p (chr 92)
     || existsb (λ component, negb (is_normal component)) (components p)
  then Err UnsafeBuildOutput
  else Ok tt.

(** What kind of entry it is, its content, and the total size with it. *)
Definition read_output_entry (entry : TarEntry) (is_symlink : bool) (link_name : option (option string))
    (size total_size : Z) : result DockerBuildError (BuildOutputEntryKind * list byte * Z) :=
  if EntryType_is_dir (entry_type entry) then Ok (OutputDirectory, [], total_size)
  else if EntryType_is_file (entry_type entry) then
    if BUILD_OUTPUT_FILE_SIZE_LIMIT <? size then Err BuildOutputLimitExceeded
    else
      total_size ← ok_or (checked_add total_size size) BuildOutputLimitExceeded;
      if BUILD_OUTPUT_LIMIT_BYTES <? total_size then Err BuildOutputLimitExceeded
      else if entry_fails entry then Err UnsafeBuildOutput
      else Ok (OutputFile, entry_content entry, total_size)
  else if is_symlink then
    link_name ← ok_or link_name UnsafeBuildOutput;
    target ← ok_or link_name UnsafeBuildOutput;
    Ok (OutputSymlink target, [], total_size)
  else Err UnsafeBuildOutput.

(** The loop over the entries: [seen], [total_size] and [count]. *)
Fixpoint read_output (entries : list (option (TarEntry * bool * option (option string))))
    (seen : list (list Component)) (total_size count : Z) :
    result DockerBuildError (list (string * BuildOutputEntryKind * list byte)) :=
  match entries with
  | [] => Ok []
  | entry :: entries =>
      entry ← ok_or entry UnsafeBuildOutput;
      let '(entry, is_symlink, link_name) := entry in
      let count := count + 1 in
      if BUILD_OUTPUT_FILE_LIMIT <? count then Err BuildOutputLimitExceeded
      else
        p ← ok_or (entry_path entry) UnsafeBuildOutput;
        relative ← strip_output_prefix (str p);
        if str_is_empty relative then read_output entries seen total_size count
        else
          build_validate_relative_path relative;;
          if decide (components relative ∈ seen) then Err UnsafeBuildOutput
          else
            size ← ok_or (entry_size entry) UnsafeBuildOutput;
            read ← read_output_entry entry is_symlink link_name size total_size;
            let '(kind, contents, total_size) := read in
            map_err (λ _, UnsafeBuildOutput)
              (normalize_build_output [mkBuildOutputEntry relative kind size]);;
            rest ← read_output entries (components relative :: seen) total_size count;
            Ok ((relative, kind, contents) :: rest)
  end.

Definition append_output (entry : string * BuildOutputEntryKind * list byte) (archive : list TarOutput) :
    result DockerBuildError (list TarOutput) :=
  let '(p, kind, contents) := entry in
  path_text ← ok_or (from_utf8 (bytes p)) UnsafeBuildOutput;
  match kind with
  | OutputDirectory => append_directory (path_text +:+ "/") 0 0 archive
  | OutputFile => append_file path_text contents mode_644 0 0 archive
  | OutputSymlink target => append_symlink path_text target archive
  | _ => Err UnsafeBuildOutput
  end.
Fixpoint append_outputs (entries : list (string * BuildOutputEntryKind * list byte))
    (archive : list TarOutput) : result DockerBuildError (list TarOutput) :=
  match entries with
  | [] => Ok archive
  | entry :: entries =>
      archive ← append_output entry archive;
      append_outputs entries archive
  end.

Definition normalize_output_archive (input : list byte) : result DockerBuildError (list byte) :=
  if BUILD_OUTPUT_LIMIT_BYTES <? zlen input then Err BuildOutputLimitExceeded
  else
    entries ← ok_or (output_entries input) UnsafeBuildOutput;
    entries ← read_output entries [] 0 0;
    archive ← append_outputs (sort_by (cmp_on (λ e, e.1.1) path_cmp) entries) [];
    finish archive.

(** *** Where an archive ends *)

Definition BLOCK : Z := 512.
Definition checked_mul (a b : Z) : option Z := if a * b <=? usize_max then Some (a * b) else None.
(** [bytes.get(first..last)] *)
Definition get_range (l : list byte) (first last : Z) : option (list byte) :=
  if (last <? first) || (zlen l <? last) then None
  else Some (take (Z.to_nat (last - first)) (drop (Z.to_nat first) l)).
Definition all_zero (l : list byte) : bool := forallb (λ b, code b =? 0) l.

Definition is_padding (b : byte) : bool := (code b =? 0) || (code b =? 32).
(** [trim_matches(['\0', ' '])] *)
Definition trim_padding (l : list byte) : list byte :=
  rev (drop_while is_padding (rev (drop_while is_padding l))).
(** [usize::from_str_radix(text, 8)] of a text that is not empty *)
Fixpoint octal_digits (acc : Z) (l : list byte) : option Z :=
  match l with
  | [] => Some acc
  | x :: l =>
      if in_range 48 55 x
      then let acc := acc * 8 + (code x - 48) in
           if acc <=? usize_max then octal_digits acc l else None
      else None
  end.
Definition from_octal (l : list byte) : option Z :=
  match l with
  | [] => None
  | x :: l => if (code x =? 43) && negb (eqb l []) then octal_digits 0 l else octal_digits 0 (x :: l)
  end.

(** The padded size of the content, from the header. *)
Definition padded_size (header : list byte) : option Z :=
  size_field ← get_range header 124 136;
  _ ← from_utf8 size_field;
  let size_text := trim_padding size_field in
  size ← (if eqb size_text [] then Some 0 else from_octal size_text);
  rounded ← checked_add size (BLOCK - 1);
  checked_mul (rounded / BLOCK) BLOCK.

(** The loop: [offset] grows by a block at least. *)
Fixpoint tar_length_from (fuel : nat) (l : list byte) (offset : Z) : option Z :=
  match fuel with
  | O => None
  | S fuel =>
      header_end ← checked_add offset BLOCK;
      header ← get_range l offset header_end;
      if all_zero header then
        terminator_end ← checked_add header_end BLOCK;
        second ← get_range l header_end terminator_end;
        if all_zero second then Some terminator_end else None
      else
        padded ← padded_size header;
        offset ← checked_add header_end padded;
        tar_length_from fuel l offset
  end.
Definition complete_tar_length (l : list byte) : option Z := tar_length_from (S (length l)) l 0.

(** [read] of [download_exec_archive]: the loop over the chunks of the output. *)
Fixpoint read_archive (limit : Z) (content : list byte) (chunks : list (result DockerError LogOutput)) :
    result DockerBuildError (list byte) :=
  match chunks with
  | [] => Err BuildArchiveIo
  | Err _ :: _ => Err BuildArchiveIo
  | Ok (StdErr _) :: _ | Ok (StdIn _) :: _ => Err BuildArchiveIo
  | Ok (StdOut data) :: chunks | Ok (Console data) :: chunks =>
      if limit <? Z.min usize_max (zlen content + zlen data) then Err BuildOutputLimitExceeded
      else
        let content := content ++ data in
        match complete_tar_length content with
        | Some complete => Ok (take (Z.to_nat complete) content)
        | None => read_archive limit content chunks
        end
  end.
End archives.

(** *** The images that are trusted *)

Section trusted.
Context {K : Codec} {B : Encoding} {T : TarLib}.
(** [include_str!] and [include_bytes!]: the lock file as serde_json reads it,
    and the other files by their path in the repository. *)
Variable lock_file : option NodeImageLock.
Variable include_bytes : string → list byte.

Definition embedded_sdk_files : list (string * list byte) :=
  map (λ relative, (relative, include_bytes ("plugin-sdk/node/" +:+ relative)))
    ["package-lock.json"; "package.json"; "src/content.js"; "src/index.js"; "src/logger.js"; "src/rpc.js";
     "test/content.test.js"; "test/sdk.test.js"].

Fixpoint append_files (prefix : string) (files : list (string * list byte)) (archive : list TarOutput) :
    result DockerBuildError (list TarOutput) :=
  match files with
  | [] => Ok archive
  | (relative, contents) :: files =>
      archive ← append_file (prefix +:+ relative) contents mode_644 0 0 archive;
      append_files prefix files archive
  end.

Definition trusted_context (files : list (string * list byte)) : result DockerBuildError (list byte) :=
  archive ← append_files "" files [];
  finish archive.

Definition runtime_context (sdk_files : list (string * list byte)) : result DockerBuildError (list byte) :=
  archive ← append_file "Dockerfile" (include_bytes "docker/plugin-runtime/node22-runtime.Dockerfile")
              mode_644 0 0 [];
  archive ← append_directory "plugin-sdk/" 0 0 archive;
  archive ← append_directory "plugin-sdk/node/" 0 0 archive;
  archive ← append_directory "plugin-sdk/node/src/" 0 0 archive;
  archive ← append_directory "plugin-sdk/node/test/" 0 0 archive;
  archive ← append_files "plugin-sdk/node/" sdk_files archive;
  finish archive.

Definition hash_embedded_files (files : list (string * list byte)) : string :=
  hex (sha256 (concat (map (λ '(relative, contents),
    be_bytes 8 (str_len relative) ++ bytes relative ++ be_bytes 8 (zlen contents) ++ contents) files))).
Definition hash_bytes (content : list byte) : string := hex (sha256 content).

Record TrustedImageInputs := mkTrustedImageInputs {
  trusted_pinned_base_reference : string;
  trusted_base_image_digest : string;
  trusted_sdk_hash : string;
  trusted_builder_asset_hash : string;
  trusted_runtime_asset_hash : string;
  trusted_builder_context : list byte;
  trusted_runtime_context : list byte;
}.

Definition trusted_image_inputs : result DockerBuildError TrustedImageInputs :=
  lock ← map_err (λ _, TrustedImage) (NodeImageLock_parse lock_file);
  pinned ← map_err (λ _, TrustedImage) (pinned_base_reference lock);
  builder_context ← trusted_context
    [("Dockerfile", include_bytes "docker/plugin-runtime/node22-builder.Dockerfile");
     ("docker/plugin-runtime/node22-build-runner.js",
      include_bytes "docker/plugin-runtime/node22-build-runner.js")];
  runtime ← runtime_context embedded_sdk_files;
  Ok (mkTrustedImageInputs pinned (lock_digest lock) (hash_embedded_files embedded_sdk_files)
        (hash_bytes builder_context) (hash_bytes runtime) builder_context runtime).

(** *** The image of a plugin *)

Record ManagedImageInput := mkManagedImageInput {
  image_installation_id : string;
  image_operation_id : Uuid;
  image_plugin_id : string;
  image_commit_sha : string;
  image_source_hash : string;
  image_manifest_hash : string;
  image_base_image_digest : string;
  image_sdk_hash : string;
}.
Record ManagedImagePlan := mkManagedImagePlan { plan_tag : string; plan_labels : labels }.

Definition managed_image_plan (input : ManagedImageInput) : result DockerBuildError ManagedImagePlan :=
  tag ← map_err (λ _, InvalidImageMetadata)
          (managed_image_tag (image_plugin_id input) (image_commit_sha input) (image_source_hash input));
  labels ← map_err (λ _, InvalidImageMetadata)
          (final_image_labels (mkFinalImageMetadata (image_installation_id input) (image_plugin_id input)
             (image_commit_sha input) (image_source_hash input) (image_manifest_hash input)
             (image_base_image_digest input) (image_sdk_hash input)));
  Ok (mkManagedImagePlan tag
        (<["io.audiodown.operation-id" := uuid_to_string (image_operation_id input)]> labels)).
End trusted.

(** ** The build *)

Record BuildExec := mkBuildExec {
  build_exec_attach_stdin : bool;
  build_exec_attach_output : bool;
  build_exec_cmd : list string;
  build_exec_user : string;
}.
(** The options and the context of [Docker::build_image]. *)
Record BuildImageRequest := mkBuildImageRequest {
  image_build_dockerfile : string;
  image_build_tag : string;
  image_build_pull : bool;
  image_build_nocache : bool;
  image_build_rm : bool;
  image_build_forcerm : bool;
  image_build_network_mode : string;
  image_build_args : labels;
  image_build_labels : labels;
  image_build_context : list byte;
}.
(** The options and the configuration of [Docker::commit_container]. *)
Record CommitRequest := mkCommitRequest {
  commit_container : string;
  commit_repo : string;
  commit_tag : string;
  commit_pause : bool;
  commit_user : string;
  commit_working_dir : string;
  commit_env : list string;
  commit_labels : labels;
}.
Record ImageInspect := mkImageInspect {
  inspected_labels : option labels;
  inspected_repo_digests : option (list string);
}.
Record BuildStatus := mkBuildStatus { status_state : string; status_code : option string }.

Class BuildJson := { status_from_slice : list byte → option BuildStatus }.

Inductive BuildCall :=
  (* the disk: prepared_install.rs, [build_source_archive], [fs::read] *)
  | ValidatePreparedInstall (plugin_id : PluginId) (operation_id : Uuid)
  | BuildSourceArchive (root : path)
  | BuildReadFile (p : path)
  (* [BuildConcurrency]; the guards are dropped explicitly *)
  | ReservePlugin (plugin_id : string)
  | DropReservation (plugin_id : string)
  | AcquireGlobal
  | ReleaseGlobal
  (* Docker *)
  | BuildInspectImage (image : string)
  | BuildImage (request : BuildImageRequest)
  | BuildCreateNetwork (request : NetworkCreateRequest)
  | BuildConnectNetwork (network container : string)
  | BuildCreateContainer (name : string) (body : ContainerCreateBody)
  | BuildStartContainer (id : string)
  | BuildStopContainer (id : string)
  | BuildCreateExec (container : string) (exec : BuildExec)
  | BuildStartExec (exec : string) (detach : bool)
  | BuildExecInput (exec : string) (input : list byte)
  | BuildExecOutput (exec : string)
  | BuildInspectExec (exec : string)
  | BuildContainerLogs (container : string)
  | BuildUpload (container destination : string) (archive : list byte)
  | BuildCommit (request : CommitRequest)
  | BuildRemoveImage (image : string)
  | BuildRemoveContainer (container : string)
  | BuildRemoveNetwork (network : string)
  (* timers *)
  | BuildSleep (millis : Z)
  | BuildExpired (seconds : Z).

(** An item of the stream of [build_image] reports an error or not. *)
Definition build_answer (c : BuildCall) : Type :=
  match c with
  | ValidatePreparedInstall _ _ => result PreparedInstallError ValidatedPreparedInstall
  | BuildSourceArchive _ => result DockerBuildError (list byte)
  | BuildReadFile _ => result IoError (list byte)
  | ReservePlugin _ | AcquireGlobal => result BuildPolicyError unit
  | DropReservation _ | ReleaseGlobal => unit
  | BuildInspectImage _ => result DockerError ImageInspect
  | BuildImage _ => list (result DockerError bool)
  | BuildCreateNetwork _ | BuildConnectNetwork _ _ | BuildStartContainer _ | BuildStopContainer _
  | BuildUpload _ _ _ | BuildRemoveImage _ | BuildRemoveContainer _ | BuildRemoveNetwork _ =>
      result DockerError unit
  | BuildCreateContainer _ _ | BuildCreateExec _ _ | BuildCommit _ => result DockerError string
  | BuildStartExec _ _ => result DockerError StartExecResults
  | BuildExecInput _ _ => result IoError unit
  | BuildExecOutput _ | BuildContainerLogs _ => list (result DockerError LogOutput)
  | BuildInspectExec _ => result DockerError ExecInspect
  | BuildSleep _ => unit
  | BuildExpired _ => bool
  end.
Abbreviation btask := (prog build_answer).

Definition quoted (s : string) : string := String (chr 34) (s +:+ String (chr 34) EmptyString).
Definition upload_script : string :=
  "head -c " +:+ quoted "$1" +:+ " > /workspace/source.tar"
  +:+ " && tar -xf /workspace/source.tar -C /workspace"
  +:+ " && rm -f /workspace/source.tar".
Definition wait_script : string :=
  "attempt=0;"
  +:+ " while [ " +:+ quoted "$attempt" +:+ " -lt 3000 ]; do"
  +:+ " test -f /workspace/status.json && exit 0;"
  +:+ " attempt=$((attempt + 1)); sleep 0.1;"
  +:+ " done;"
  +:+ " exit 1".

Section build.
Context {K : Codec} {B : Encoding} {T : TarLib} {J : BuildJson}.
Variable plugin_data : path.
Variable adapter_installation_id : string.
Variable lock_file : option NodeImageLock.
Variable include_bytes : string → list byte.

Abbreviation build_task A := (btask (result BuildAdapterError A)).

(** [BuildAdapterError::new] *)
Definition BuildAdapterError_new (code : string) : BuildAdapterError := mkBuildAdapterError code [].
(** [.map_err(|_| BuildAdapterError::new(code))] *)
Definition or_code {E A} (code : string) (p : btask (result E A)) : build_task A :=
  prog_map_err (λ _, BuildAdapterError_new code) p.
(** [.map_err(|_| BuildAdapterError::with_logs(code, logs))] *)
Definition or_logs {E A} (code : string) (logs : list PluginBuildLog) (p : btask (result E A)) :
    build_task A :=
  prog_map_err (λ _, mkBuildAdapterError code logs) p.
(** [.map_err(|error| BuildAdapterError::new(error.code()))] *)
Definition by_code {A} (p : btask (result DockerBuildError A)) : build_task A :=
  prog_map_err (λ error, BuildAdapterError_new (DockerBuildError_code error)) p.
Definition or_archive_io {E A} (p : btask (result E A)) : btask (result DockerBuildError A) :=
  prog_map_err (λ _, BuildArchiveIo) p.

(** *** Images *)

Definition trusted_kinds (trusted : TrustedImageInputs) :
    list (TrustedImageKind * string * list byte * string) :=
  [(BuilderImage, BUILDER_IMAGE, trusted_builder_context trusted, trusted_builder_asset_hash trusted);
   (RuntimeImage, RUNTIME_IMAGE, trusted_runtime_context trusted, trusted_runtime_asset_hash trusted)].

Definition attested (trusted : TrustedImageInputs) (kind : TrustedImageKind) (asset_hash : string)
    (labels : labels) : bool :=
  is_ok (verify_trusted_image_labels kind (trusted_base_image_digest trusted) (trusted_sdk_hash trusted)
           asset_hash labels).

Definition image_build_request (trusted : TrustedImageInputs) (kind : TrustedImageKind) (image : string)
    (context : list byte) (asset_hash : string) : BuildImageRequest := {|
  image_build_dockerfile := "Dockerfile";
  image_build_tag := image;
  image_build_pull := true;
  image_build_nocache := true;
  image_build_rm := true;
  image_build_forcerm := true;
  image_build_network_mode := "none";
  image_build_args := list_to_map [
    ("BASE_IMAGE_DIGEST", trusted_base_image_digest trusted);
    ("SDK_HASH", trusted_sdk_hash trusted);
    ("POLICY_VERSION", POLICY_VERSION)];
  image_build_labels := trusted_image_labels kind (trusted_base_image_digest trusted)
                          (trusted_sdk_hash trusted) asset_hash;
  image_build_context := context |}.

(** [while let Some(item) = stream.next().await]: neither an error nor an item
    that reports one. *)
Definition image_built (items : list (result DockerError bool)) : bool :=
  forallb (λ item, match item with Ok error => negb error | Err _ => false end) items.

Definition ensure_trusted_image (trusted : TrustedImageInputs)
    (expected : TrustedImageKind * string * list byte * string) : build_task unit :=
  let '(kind, image, context, asset_hash) := expected in
  found ← call (BuildInspectImage image);
  let valid :=
    match found with
    | Ok inspect => is_some_and (attested trusted kind asset_hash) (inspected_labels inspect)
    | Err _ => false
    end in
  if valid then Ret (Ok tt)
  else
    items ← call (BuildImage (image_build_request trusted kind image context asset_hash));
    if negb (image_built items) then Ret (Err (BuildAdapterError_new "TRUSTED_IMAGE_BUILD_FAILED"))
    else
      inspect ←? or_code "TRUSTED_IMAGE_BUILD_FAILED" (call (BuildInspectImage image));
      labels ←? Ret (ok_or (inspected_labels inspect)
                       (BuildAdapterError_new "TRUSTED_IMAGE_ATTESTATION_FAILED"));
      if attested trusted kind asset_hash labels then Ret (Ok tt)
      else Ret (Err (BuildAdapterError_new "TRUSTED_IMAGE_ATTESTATION_FAILED")).

Definition ensure_trusted_images (trusted : TrustedImageInputs) : build_task unit :=
  prog_each (ensure_trusted_image trusted) (trusted_kinds trusted) ;;?
  base ←? or_code "BASE_IMAGE_DIGEST_FAILED"
            (call (BuildInspectImage (trusted_pinned_base_reference trusted)));
  Ret (map_err (λ _, BuildAdapterError_new "BASE_IMAGE_DIGEST_FAILED")
         (verify_repo_digests (mkNodeImageLock "node:22-bookworm-slim" (trusted_base_image_digest trusted))
            (default [] (inspected_repo_digests base)))).

Definition verify_managed_image (image_id : string) (expected : labels) : build_task unit :=
  inspect ←? or_code "IMAGE_ATTESTATION_FAILED" (call (BuildInspectImage image_id));
  found ←? Ret (ok_or (inspected_labels inspect) (BuildAdapterError_new "IMAGE_ATTESTATION_FAILED"));
  if forallb (λ e, eqb (found !! e.1) (Some e.2)) (map_to_list expected) then Ret (Ok tt)
  else Ret (Err (BuildAdapterError_new "IMAGE_ATTESTATION_FAILED")).

(** *** The containers of a build *)

Definition build_network_request (name : string) (internal : bool) : NetworkCreateRequest :=
  mkNetworkCreateRequest name "bridge" internal false false false ∅ ∅.

Definition create_build_networks (names : OperationResourceNames) : build_task unit :=
  or_code "BUILD_NETWORK_CREATE_FAILED"
    (call (BuildCreateNetwork (build_network_request (names_internal_network names) true))) ;;?
  or_code "BUILD_NETWORK_CREATE_FAILED"
    (call (BuildCreateNetwork (build_network_request (names_egress_network names) false))).

Definition upload_exec (source : list byte) : BuildExec :=
  mkBuildExec true true ["sh"; "-c"; upload_script; "audiodown-upload"; pretty (zlen source)]
    "10001:10001".

(** [for _ in 0..100] *)
Fixpoint await_upload (turns : nat) (exec : string) : build_task unit :=
  match turns with
  | O => Ret (Err (BuildAdapterError_new "BUILD_INPUT_UPLOAD_FAILED"))
  | S turns =>
      inspected ←? or_code "BUILD_INPUT_UPLOAD_FAILED" (call (BuildInspectExec exec));
      if eqb (exec_running inspected) (Some false)
      then if eqb (exec_exit_code inspected) (Some 0) then Ret (Ok tt)
           else Ret (Err (BuildAdapterError_new "BUILD_INPUT_UPLOAD_FAILED"))
      else _ ← call (BuildSleep 50); await_upload turns exec
  end.

Definition upload_source (builder_id : string) (source : list byte) : build_task unit :=
  exec ←? or_code "BUILD_INPUT_UPLOAD_FAILED" (call (BuildCreateExec builder_id (upload_exec source)));
  started ←? or_code "BUILD_INPUT_UPLOAD_FAILED" (call (BuildStartExec exec false));
  match started with
  | Detached => Ret (Err (BuildAdapterError_new "BUILD_INPUT_UPLOAD_FAILED"))
  | Attached =>
      or_code "BUILD_INPUT_UPLOAD_FAILED" (call (BuildExecInput exec source)) ;;?
      await_upload 100 exec
  end.

Definition archive_exec (entry : string) : BuildExec :=
  mkBuildExec false true ["tar"; "-cf"; "-"; "-C"; "/workspace"; entry] "10001:10001".

Definition download_exec_archive (container_id entry : string) (limit : Z) :
    btask (result DockerBuildError (list byte)) :=
  exec ←? or_archive_io (call (BuildCreateExec container_id (archive_exec entry)));
  started ←? or_archive_io (call (BuildStartExec exec false));
  match started with
  | Detached => Ret (Err BuildArchiveIo)
  | Attached =>
      read ← prog_timeout (BuildExpired 60) id
               (chunks ← call (BuildExecOutput exec); Ret (read_archive limit [] chunks));
      Ret (default (Err BuildTimeout) read)
  end.

Definition wait_exec : BuildExec :=
  mkBuildExec false false ["sh"; "-c"; wait_script] "10001:10001".

(** The loop of [wait]; after 3001 turns of 100 ms the timer has fired. *)
Fixpoint await_status (turns : nat) (exec : string) : btask (result DockerBuildError unit) :=
  match turns with
  | O => Ret (Err BuildTimeout)
  | S turns =>
      inspected ←? or_archive_io (call (BuildInspectExec exec));
      if eqb (exec_running inspected) (Some false)
      then if eqb (exec_exit_code inspected) (Some 0) then Ret (Ok tt) else Ret (Err BuildTimeout)
      else _ ← call (BuildSleep 100); await_status turns exec
  end.

Definition parse_status (content : list byte) : result DockerBuildError BuildStatus :=
  entries ← ok_or (output_entries content) BuildArchiveIo;
  entry ← ok_or (head entries) BuildArchiveIo;
  entry ← ok_or entry BuildArchiveIo;
  if entry_fails entry.1.1 then Err BuildArchiveIo
  else ok_or (status_from_slice (entry_content entry.1.1)) BuildArchiveIo.
Definition read_status (builder_id : string) : btask (result DockerBuildError BuildStatus) :=
  content ←? download_exec_archive builder_id "status.json" (1024 * 1024);
  Ret (parse_status content).

Definition wait_for_build_status (builder_id : string) : btask (result DockerBuildError BuildStatus) :=
  exec ←? or_archive_io (call (BuildCreateExec builder_id wait_exec));
  started ←? or_archive_io (call (BuildStartExec exec true));
  match started with
  | Attached => Ret (Err BuildArchiveIo)
  | Detached =>
      waited ← prog_timeout (BuildExpired (5 * 60)) id (await_status (Z.to_nat 3001) exec);
      match default (Err BuildTimeout) waited with
      | Err error => Ret (Err error)
      | Ok _ =>
          read ← prog_timeout (BuildExpired 10) id (read_status builder_id);
          Ret (default (Err BuildTimeout) read)
      end
  end.

Definition download_output (builder_id : string) : build_task (list byte) :=
  by_code (download_exec_archive builder_id "output" (BUILD_OUTPUT_LIMIT_BYTES + 1024 * 1024)).

(** [for line in String::from_utf8_lossy(&bytes).lines()] *)
Definition push_lines (stream : PluginBuildLogStream) (content : list byte) (logs : list PluginBuildLog) :
    list PluginBuildLog :=
  fold_left (λ logs line, logs ++ [mkPluginBuildLog (zlen logs) stream line])
    (lines (from_utf8_lossy content)) logs.

(** [while let Some(chunk) = stream.next().await] *)
Fixpoint collect_logs (builder_id : string) (chunks : list (result DockerError LogOutput))
    (logs : list PluginBuildLog) (total : Z) : build_task (list PluginBuildLog) :=
  match chunks with
  | [] => Ret (Ok logs)
  | Err _ :: _ => Ret (Err (BuildAdapterError_new "BUILD_LOG_READ_FAILED"))
  | Ok chunk :: chunks =>
      let push stream content :=
        let total := Z.min usize_max (total + zlen content) in
        if BUILD_LOG_LIMIT_BYTES <? total then
          _ ← call (BuildStopContainer builder_id);
          Ret (Err (mkBuildAdapterError "BUILD_LOG_LIMIT_EXCEEDED"
                      (logs ++ [mkPluginBuildLog (zlen logs) System "BUILD_LOG_LIMIT_EXCEEDED"])))
        else collect_logs builder_id chunks (push_lines stream content logs) total in
      match chunk with
      | StdErr message => push Stderr message
      | StdOut message | Console message => push Stdout message
      | StdIn _ => collect_logs builder_id chunks logs total
      end
  end.
Definition collect_build_logs (builder_id : string) : build_task (list PluginBuildLog) :=
  chunks ← call (BuildContainerLogs builder_id);
  collect_logs builder_id chunks [] 0.

(** *** [execute_build], in parts *)

(** From the networks to the logs of a build that completed. *)
Definition run_builder (request : BuildRequest) (prepared : ValidatedPreparedInstall) (source : list byte) :
    build_task (string * list PluginBuildLog) :=
  let operation_id := build_operation_id request in
  let names := operation_resource_names operation_id in
  create_build_networks names ;;?
  proxy ←? or_code "PROXY_CREATE_FAILED"
             (call (BuildCreateContainer (names_proxy_container names) (proxy_container_config operation_id)));
  or_code "PROXY_NETWORK_FAILED" (call (BuildConnectNetwork (names_egress_network names) proxy)) ;;?
  builder ←? or_code "BUILDER_CREATE_FAILED"
               (call (BuildCreateContainer (names_builder_container names)
                  (builder_container_config operation_id (install_allow_lifecycle_scripts prepared))));
  or_code "PROXY_START_FAILED" (call (BuildStartContainer proxy)) ;;?
  or_code "BUILDER_START_FAILED" (call (BuildStartContainer builder)) ;;?
  upload_source builder source ;;?
  status_result ← wait_for_build_status builder;
  build_logs ←? collect_build_logs builder;
  match status_result with
  | Err error => Ret (Err (mkBuildAdapterError (DockerBuildError_code error) build_logs))
  | Ok status =>
      if negb (eqb (status_state status) "completed")
      then Ret (Err (mkBuildAdapterError (default "NPM_CI_FAILED" (status_code status)) build_logs))
      else Ret (Ok (builder, build_logs))
  end.

Definition commit_request (container repository tag : string) (labels : labels) : CommitRequest :=
  mkCommitRequest container repository tag true "10002:10002" "/plugin"
    ["AUDIODOWN_NODE_SDK_PATH=/sdk/src/index.js"; "NODE_ENV=production"] labels.

(** From the download of the output to the image. *)
Definition assemble (request : BuildRequest) (plan : ManagedImagePlan) (builder : string)
    (build_logs : list PluginBuildLog) : build_task string :=
  let operation_id := build_operation_id request in
  let names := operation_resource_names operation_id in
  output_archive ←? download_output builder;
  normalized ←? Ret (map_err (λ error, mkBuildAdapterError (DockerBuildError_code error) build_logs)
                       (normalize_output_archive output_archive));
  assembler ←? or_logs "ASSEMBLER_CREATE_FAILED" build_logs
                 (call (BuildCreateContainer (names_assembler_container names)
                    (assembler_container_config operation_id)));
  or_logs "ASSEMBLER_UPLOAD_FAILED" build_logs (call (BuildUpload assembler "/plugin" normalized)) ;;?
  repository_tag ←? Ret (ok_or (rsplit_once ":"%char (plan_tag plan))
                           (BuildAdapterError_new "INVALID_IMAGE_METADATA"));
  let '(repository, tag) := repository_tag in
  image_id ←? or_logs "IMAGE_COMMIT_FAILED" build_logs
                (call (BuildCommit (commit_request assembler repository tag (plan_labels plan))));
  if str_is_empty image_id then Ret (Err (BuildAdapterError_new "IMAGE_COMMIT_FAILED"))
  else
    verify_managed_image image_id (plan_labels plan) ;;?
    Ret (Ok image_id).

(** What [managed_image_plan] is asked for. *)
Definition image_input (request : BuildRequest) (prepared : ValidatedPreparedInstall)
    (trusted : TrustedImageInputs) : ManagedImageInput :=
  mkManagedImageInput (build_installation_id request) (build_operation_id request)
    (PluginId_as_str (build_plugin_id request)) (install_commit_sha prepared) (install_source_hash prepared)
    (install_manifest_hash prepared) (trusted_base_image_digest trusted) (trusted_sdk_hash trusted).

(** With both guards held. *)
Definition build_prepared (request : BuildRequest) (prepared : ValidatedPreparedInstall) :
    build_task BuildOutput :=
  source ←? by_code (call (BuildSourceArchive (install_plugin_root prepared)));
  trusted ←? by_code (Ret (trusted_image_inputs lock_file include_bytes));
  ensure_trusted_images trusted ;;?
  plan ←? by_code (Ret (managed_image_plan (image_input request prepared trusted)));
  built ←? run_builder request prepared source;
  image_id ←? assemble request plan built.1 built.2;
  manifest ←? or_code "MANIFEST_READ_FAILED"
                (call (BuildReadFile (install_plugin_root prepared ++ ["audiodown-plugin.json"])));
  Ret (Ok (mkBuildOutput
    (mkPluginInstallArtifact image_id (install_repository_id prepared) (install_commit_sha prepared)
       (install_source_hash prepared) (install_manifest_hash prepared))
    manifest (trusted_base_image_digest trusted) (trusted_sdk_hash trusted) built.2)).

Definition execute_build (request : BuildRequest) : build_task BuildOutput :=
  let plugin_id := PluginId_as_str (build_plugin_id request) in
  prepared ←? or_code "INVALID_PREPARED_INSTALL"
                (call (ValidatePreparedInstall (build_plugin_id request) (build_operation_id request)));
  or_code "BUILD_BUSY" (call (ReservePlugin plugin_id)) ;;?
  result ← (or_code "BUILD_BUSY" (call AcquireGlobal) ;;?
            result ← build_prepared request prepared;
            _ ← call ReleaseGlobal;
            Ret result);
  _ ← call (DropReservation plugin_id);
  Ret result.

(** *** [InstallBuildAdapter] *)

(** What the calls answer is not looked at. *)
Definition cleanup_temporary_resources (operation_id : Uuid) : build_task unit :=
  let names := operation_resource_names operation_id in
  _ ← call (BuildRemoveContainer (names_builder_container names));
  _ ← call (BuildRemoveContainer (names_assembler_container names));
  _ ← call (BuildRemoveContainer (names_proxy_container names));
  _ ← call (BuildRemoveNetwork (names_internal_network names));
  _ ← call (BuildRemoveNetwork (names_egress_network names));
  Ret (Ok tt).

Definition build (request : BuildRequest) : build_task BuildOutput :=
  if negb (eqb (build_installation_id request) adapter_installation_id)
     || negb (eqb (build_prepared_request request)
                (plugin_data ++ ["prepared"; json_file (build_operation_id request)]))
  then Ret (Err (BuildAdapterError_new "INVALID_BUILD_REQUEST"))
  else
    result ← execute_build request;
    cleanup ← cleanup_temporary_resources (build_operation_id request);
    match result, cleanup with
    | Ok output, Ok _ => Ret (Ok output)
    | Err error, _ => Ret (Err error)
    | Ok _, Err error => Ret (Err error)
    end.

Definition build_remove_image (image_id : string) : build_task unit :=
  or_code "DOCKER_IMAGE_REMOVE_FAILED" (call (BuildRemoveImage image_id)).
End build.
