(* ===== verification/PluginBuildProps.v ===== *)
(** * What building a plugin keeps to

    The rules of a build over the history of its calls: which containers it
    creates, what it starts, what goes into them and what becomes an image; and
    that whatever happens the guards are dropped and the resources removed. *)

From S2P Require Import Prelude Text Std Domain Foreign CredentialContract Database Stateful SupervisorProtocol Fs.
From S2P Require Import InstallOperation Program ContainerPolicy SupervisorHost InstallRecord PluginManager PluginArchive PluginRepository.
From S2P Require Import SnapshotStore PreparedInstall PluginBuild.

(** ** Histories *)

(** A call with its answer; the last one comes first. *)
Local Abbreviation event := {c : BuildCall & build_answer c}.
Local Abbreviation history := (list event).

Definition answered (h : history) (c : BuildCall) (r : build_answer c) : Prop := existT c r ∈ h.

Definition is_guard (c : BuildCall) : bool :=
  match c with
  | ReservePlugin _ | DropReservation _ | AcquireGlobal | ReleaseGlobal => true
  | _ => false
  end.

(** The guards that are held. *)
Fixpoint holds_plugin (h : history) : option string :=
  match h with
  | [] => None
  | existT (ReservePlugin plugin_id) r :: h => if is_ok r then Some plugin_id else holds_plugin h
  | existT (DropReservation _) _ :: _ => None
  | _ :: h => holds_plugin h
  end.
Fixpoint holds_global (h : history) : bool :=
  match h with
  | [] => false
  | existT AcquireGlobal r :: h => is_ok r || holds_global h
  | existT ReleaseGlobal _ :: _ => false
  | _ :: h => holds_global h
  end.

(** [h'] continues [h] with calls that leave the guards alone. *)
Definition extends (h h' : history) : Prop :=
  ∃ k : history, h' = k ++ h ∧ ∀ e, e ∈ k → is_guard (projT1 e) = false.

Global Instance extends_preorder : PreOrder extends.
Proof.
  split.
  - intros h. exists []. split; [done|]. intros e He. by apply elem_of_nil in He.
  - intros h1 h2 h3 (k & -> & Hk) (k' & -> & Hk'). exists (k' ++ k). split; [by rewrite app_assoc|].
    intros e [He|He]%elem_of_app; auto.
Qed.

Lemma extends_cons h h' (e : event) : is_guard (projT1 e) = false → extends h h' → extends h (e :: h').
Proof.
  intros He Hh. etransitivity; [done|]. exists [e]. split; [done|].
  by intros x ->%list_elem_of_singleton.
Qed.

Lemma extends_answered h h' c r : extends h h' → answered h c r → answered h' c r.
Proof. intros (k & -> & _) Hr. apply elem_of_app. by right. Qed.

Lemma extends_sub h h' : extends h h' → h ⊆ h'.
Proof. intros (k & -> & _). set_solver. Qed.

Lemma extends_holds h h' :
  extends h h' → holds_plugin h' = holds_plugin h ∧ holds_global h' = holds_global h.
Proof.
  intros (k & -> & Hk). induction k as [|[c r] k IH]; [done|].
  destruct IH as [IHp IHg]; [intros e He; apply Hk; set_solver|].
  assert (is_guard c = false) as Hc by (apply (Hk (existT c r)); set_solver).
  by destruct c.
Qed.

Lemma answered_here h c r : answered (existT c r :: h) c r.
Proof. by left. Qed.
Lemma answered_there h c r (e : event) : answered h c r → answered (e :: h) c r.
Proof. by right. Qed.

(** ** The rules *)

(** What no container of a build has. *)
Record build_confined (body : ContainerCreateBody) : Prop := {
  bconf_unprivileged : host_privileged (body_host_config body) = false;
  bconf_capabilities : host_cap_add (body_host_config body) = [] ∧
    host_cap_drop (body_host_config body) = ["ALL"] ∧
    host_security_opt (body_host_config body) = ["no-new-privileges:true"];
  bconf_binds : host_binds (body_host_config body) = [] ∧ host_devices (body_host_config body) = [];
  bconf_ports : host_publish_all_ports (body_host_config body) = false;
}.

(** A container that is started, its networks at creation among [networks]. *)
Record runs_confined (networks : list string) (body : ContainerCreateBody) : Prop := {
  rconf_confined : build_confined body;
  rconf_user : ¬ starts_with (body_user body) "0" = true ∧ ¬ starts_with (body_user body) "root" = true ∧
    body_user body ≠ "";
  rconf_read_only : host_readonly_rootfs (body_host_config body) = true;
  rconf_network : host_network_mode (body_host_config body) ∈ networks ∧
    ∀ network, network ∈ dom (body_endpoints body) → network ∈ networks;
  rconf_limits : 0 < host_memory (body_host_config body) ∧
    host_memory_swap (body_host_config body) = host_memory (body_host_config body) ∧
    0 < host_nano_cpus (body_host_config body) ∧ 0 < host_pids_limit (body_host_config body);
}.

Section rules.
Context {K : Codec} {U : UrlLib} {B : Encoding} {L : RepositoryLib} {S : StagingJson} {T : TarLib} {J : BuildJson}.
Context (plugin_data : path) (adapter_installation_id : string).
Context (lock_file : option NodeImageLock) (include_bytes : string → list byte).
Context (request : BuildRequest).

Abbreviation operation_id := (build_operation_id request).
Abbreviation names := (operation_resource_names (build_operation_id request)).
Abbreviation plugin_name := (PluginId_as_str (build_plugin_id request)).

(** The prepared installation that was validated for the request. *)
Definition prepared_in (h : history) (prepared : ValidatedPreparedInstall) : Prop :=
  answered h (ValidatePreparedInstall (build_plugin_id request) operation_id) (Ok prepared).

(** Both guards are held: no other build runs. *)
Definition exclusive (h : history) : Prop :=
  holds_plugin h = Some plugin_name ∧ holds_global h = true.

(** Docker answered the labels of the trusted image. *)
Definition image_attested (h : history) (trusted : TrustedImageInputs)
    (expected : TrustedImageKind * string * list byte * string) : Prop :=
  let '(kind, image, _, asset_hash) := expected in
  ∃ inspect found, answered h (BuildInspectImage image) (Ok inspect) ∧ inspected_labels inspect = Some found ∧
    verify_trusted_image_labels kind (trusted_base_image_digest trusted) (trusted_sdk_hash trusted)
      asset_hash found = Ok tt.
Definition images_attested (h : history) (trusted : TrustedImageInputs) : Prop :=
  trusted_image_inputs lock_file include_bytes = Ok trusted ∧
  Forall (image_attested h trusted) (trusted_kinds trusted) ∧
  ∃ base, answered h (BuildInspectImage (trusted_pinned_base_reference trusted)) (Ok base) ∧
    verify_repo_digests (mkNodeImageLock NODE22_BASE_TAG (trusted_base_image_digest trusted))
      (default [] (inspected_repo_digests base)) = Ok tt.

(** The containers, by the name they were created with. *)
Definition created (h : history) (name id : string) : Prop :=
  ∃ body, answered h (BuildCreateContainer name body) (Ok id).

(** The archive [content] is the normalized output of the builder. *)
Definition built_output (h : history) (content : list byte) : Prop :=
  ∃ builder exec chunks output,
    created h (names_builder_container names) builder ∧
    answered h (BuildCreateExec builder (archive_exec "output")) (Ok exec) ∧
    answered h (BuildExecOutput exec) chunks ∧
    read_archive (BUILD_OUTPUT_LIMIT_BYTES + 1024 * 1024) [] chunks = Ok output ∧
    normalize_output_archive output = Ok content.

(** The container of a name, and the networks it may be in when it is created. *)
Definition container_allowed (h : history) (name : string) (body : ContainerCreateBody) : Prop :=
  name = names_proxy_container names ∧ runs_confined [names_internal_network names] body
    ∧ body_image body = SUPERVISOR_IMAGE ∨
  name = names_builder_container names ∧ runs_confined [names_internal_network names] body
    ∧ body_image body = BUILDER_IMAGE
    ∧ (∃ prepared, prepared_in h prepared ∧
        ("AUDIODOWN_ALLOW_LIFECYCLE_SCRIPTS=true" ∈ body_env body → install_allow_lifecycle_scripts prepared = true)) ∨
  name = names_assembler_container names ∧ build_confined body ∧ body_network_disabled body = true
    ∧ host_network_mode (body_host_config body) = "none" ∧ body_image body = RUNTIME_IMAGE.

Definition build_allowed (h : history) (c : BuildCall) : Prop :=
  match c with
  | ValidatePreparedInstall plugin_id id => plugin_id = build_plugin_id request ∧ id = operation_id ∧ h = []
  | ReservePlugin plugin_id => plugin_id = plugin_name ∧ holds_plugin h = None ∧ holds_global h = false
  | AcquireGlobal => holds_plugin h = Some plugin_name ∧ holds_global h = false
  | ReleaseGlobal => exclusive h
  | DropReservation plugin_id => plugin_id = plugin_name ∧ holds_plugin h = Some plugin_name ∧ holds_global h = false
  | BuildSourceArchive root => exclusive h ∧ ∃ prepared, prepared_in h prepared ∧ root = install_plugin_root prepared
  | BuildReadFile p =>
      exclusive h ∧ ∃ prepared, prepared_in h prepared ∧
        p = install_plugin_root prepared ++ ["audiodown-plugin.json"]
  | BuildInspectImage _ => exclusive h
  | BuildImage image =>
      exclusive h ∧ image_build_network_mode image = "none" ∧ image_build_tag image ∈ [BUILDER_IMAGE; RUNTIME_IMAGE] ∧
      ∃ trusted, trusted_image_inputs lock_file include_bytes = Ok trusted ∧
        image_build_context image ∈ [trusted_builder_context trusted; trusted_runtime_context trusted]
  | BuildCreateNetwork network =>
      exclusive h ∧ create_attachable network = false ∧
      (create_network_name network = names_internal_network names ∧ create_internal network = true ∨
       create_network_name network = names_egress_network names)
  | BuildCreateContainer name body =>
      exclusive h ∧ (∃ trusted, images_attested h trusted) ∧ container_allowed h name body
  | BuildConnectNetwork network container =>
      exclusive h ∧ network = names_egress_network names ∧ created h (names_proxy_container names) container
  | BuildStartContainer container =>
      exclusive h ∧ (created h (names_proxy_container names) container ∨
                     created h (names_builder_container names) container)
  | BuildStopContainer container => exclusive h ∧ created h (names_builder_container names) container
  | BuildCreateExec container exec =>
      exclusive h ∧ created h (names_builder_container names) container ∧ build_exec_user exec = "10001:10001"
  | BuildStartExec exec _ | BuildExecOutput exec | BuildInspectExec exec =>
      exclusive h ∧ ∃ container options, answered h (BuildCreateExec container options) (Ok exec)
  | BuildExecInput exec input =>
      exclusive h ∧ (∃ container options, answered h (BuildCreateExec container options) (Ok exec)) ∧
      ∃ prepared, prepared_in h prepared ∧
        answered h (BuildSourceArchive (install_plugin_root prepared)) (Ok input)
  | BuildContainerLogs container => exclusive h ∧ created h (names_builder_container names) container
  | BuildUpload container destination content =>
      exclusive h ∧ created h (names_assembler_container names) container ∧ destination = "/plugin" ∧
      built_output h content
  | BuildCommit commit =>
      exclusive h ∧ created h (names_assembler_container names) (commit_container commit) ∧
      commit_user commit = "10002:10002" ∧
      (∃ content, answered h (BuildUpload (commit_container commit) "/plugin" content) (Ok tt)) ∧
      ∃ prepared trusted plan, prepared_in h prepared ∧ images_attested h trusted ∧
        managed_image_plan (image_input request prepared trusted) = Ok plan ∧
        commit_labels commit = plan_labels plan
  | BuildRemoveContainer container =>
      holds_plugin h = None ∧ holds_global h = false ∧
      container ∈ [names_builder_container names; names_assembler_container names; names_proxy_container names]
  | BuildRemoveNetwork network =>
      holds_plugin h = None ∧ holds_global h = false ∧
      network ∈ [names_internal_network names; names_egress_network names]
  | BuildRemoveImage _ => False
  | BuildSleep _ | BuildExpired _ => True
  end.

Definition is_timer (c : BuildCall) : bool :=
  match c with BuildSleep _ | BuildExpired _ => true | _ => false end.

(** What the disk answers is what the code of prepared_install.rs and
    [build_source_archive] return. *)
Definition build_possible (c : BuildCall) : build_answer c → Prop :=
  match c with
  | ValidatePreparedInstall plugin_id id => λ r,
      ∃ now later d, (validate_prepared_install plugin_data plugin_id id now later d).1 = r
  | BuildSourceArchive root => λ r, ∃ d, (build_source_archive root d).1 = r
  | _ => λ _, True
  end.

Definition build_protocol : protocol build_answer history := mkProtocol
  build_allowed (λ _, build_possible) (λ h c r, if is_timer c then h else existT c r :: h).

(** ** Facts last *)

Abbreviation bp := build_protocol.

Lemma extends_exclusive h h' : extends h h' → exclusive h → exclusive h'.
Proof. unfold exclusive. by intros [-> ->]%extends_holds. Qed.
Lemma extends_created h h' name id : extends h h' → created h name id → created h' name id.
Proof. intros He (body & Hb). exists body. by eapply extends_answered. Qed.
Lemma extends_prepared h h' prepared : extends h h' → prepared_in h prepared → prepared_in h' prepared.
Proof. apply extends_answered. Qed.
Lemma sub_attested h h' trusted expected :
  h ⊆ h' → image_attested h trusted expected → image_attested h' trusted expected.
Proof.
  destruct expected as [[[kind image] context] asset_hash]. intros He (inspect & found & Hi & Hf).
  exists inspect, found. split; [by apply He|done].
Qed.
Lemma sub_images h h' trusted : h ⊆ h' → images_attested h trusted → images_attested h' trusted.
Proof.
  intros He (Ht & Hi & base & Hb & Hd). split; [done|]. split.
  - eapply Forall_impl; [done|]. intros x. by apply sub_attested.
  - exists base. split; [by apply He|done].
Qed.
Lemma extends_images h h' trusted : extends h h' → images_attested h trusted → images_attested h' trusted.
Proof. intros He. by apply sub_images, extends_sub. Qed.
End rules.


(** [extends _ _] along the history, and facts of an earlier history. *)
Ltac ext :=
  cbv beta in *;
  repeat first
    [ reflexivity | eassumption
    | apply extends_cons; [reflexivity|]
    | match goal with H : extends ?h1 ?h2 |- extends _ ?h2 => transitivity h1; [|exact H] end ].
Ltac earlier :=
  match goal with
  | H : exclusive _ ?h |- exclusive _ ?h' => apply (extends_exclusive _ h h'); [by ext|exact H]
  | H : created ?h ?name ?id |- created ?h' _ _ => apply (extends_created h h' name id); [by ext|exact H]
  | H : prepared_in _ ?h ?p |- prepared_in _ ?h' _ => apply (extends_prepared _ h h' p); [by ext|exact H]
  | H : images_attested _ _ ?h ?t |- images_attested _ _ ?h' _ => apply (extends_images _ _ h h' t); [by ext|exact H]
  | H : answered ?h ?c ?r |- answered ?h' _ _ => apply (extends_answered h h' c r); [by ext|exact H]
  end.
(** A step of a build: the rule of a call is left to prove. *)
Ltac bstep :=
  unfold or_code, or_logs, by_code, or_archive_io;
  repeat (wp_step; cbn [allowed next possible build_protocol is_timer build_allowed build_possible]).
Create HintDb history.
#[export] Hint Resolve answered_here answered_there : history.
#[export] Hint Extern 0 (extends _ _) => by ext : history.
#[export] Hint Extern 1 (exclusive _ _) => earlier : history.
#[export] Hint Extern 1 (created _ _ _) => earlier : history.
#[export] Hint Extern 1 (prepared_in _ _ _) => earlier : history.
#[export] Hint Extern 1 (images_attested _ _ _ _) => earlier : history.
#[export] Hint Extern 1 (answered _ _ _) => earlier : history.

Section parts.
Context {K : Codec} {U : UrlLib} {B : Encoding} {L : RepositoryLib} {S : StagingJson} {T : TarLib} {J : BuildJson}.
Context (plugin_data : path) (adapter_installation_id : string).
Context (lock_file : option NodeImageLock) (include_bytes : string → list byte).
Context (request : BuildRequest).

Abbreviation operation_id := (build_operation_id request).
Abbreviation names := (operation_resource_names (build_operation_id request)).
Abbreviation rules := (build_protocol plugin_data lock_file include_bytes request).

(** ** The containers *)

Lemma proxy_confined :
  runs_confined [names_internal_network names] (proxy_container_config operation_id).
Proof.
  split; [by split|by split_and!|done| |done]. split; [by left|].
  intros network. simpl. rewrite dom_singleton. set_solver.
Qed.
Lemma builder_confined allow :
  runs_confined [names_internal_network names] (builder_container_config operation_id allow).
Proof.
  split; [by split|by split_and!|done| |done]. split; [by left|]. intros network. simpl. set_solver.
Qed.
Lemma assembler_confined : build_confined (assembler_container_config operation_id).
Proof. by split. Qed.

Lemma builder_scripts allow :
  "AUDIODOWN_ALLOW_LIFECYCLE_SCRIPTS=true" ∈ body_env (builder_container_config operation_id allow) →
  allow = true.
Proof. destruct allow; [done|]. simpl. rewrite !elem_of_cons, elem_of_nil. naive_solver. Qed.

(** ** Parts of the build *)

Lemma timeout_calls {A} N seconds (p : btask A) :
  N (BuildExpired seconds) = true → all_calls N p → all_calls N (prog_timeout (BuildExpired seconds) id p).
Proof.
  intros HN. unfold all_calls. induction p as [a|c k IH]; [done|]. intros [Hc Hk]. split; [done|].
  intros r _. destruct (id r); [done|]. split; [done|]. intros x Hx. split; [done|].
  intros r' _. destruct (id r'); [done|]. by apply IH, (Hk x).
Qed.

Lemma await_status_calls turns exec : all_calls (λ c, negb (is_guard c)) (await_status turns exec).
Proof.
  induction turns as [|turns IH]; cbn [await_status]; [done|]. unfold or_archive_io.
  apply calls_try; [by apply calls_map_err, calls_call|]. intros inspected.
  destruct (eqb _ _); [by destruct (eqb _ _)|]. by apply calls_bind; [apply calls_call|].
Qed.

Lemma read_status_calls builder : all_calls (λ c, negb (is_guard c)) (read_status builder).
Proof.
  unfold read_status, download_exec_archive, or_archive_io. apply calls_try; [|done].
  apply calls_try; [by apply calls_map_err, calls_call|]. intros exec.
  apply calls_try; [by apply calls_map_err, calls_call|]. intros [|]; [|done].
  apply calls_bind; [|done]. by apply timeout_calls.
Qed.

Section running.
Context (h0 : history) (builder : string).
Hypothesis Hx : exclusive request h0.
Hypothesis Hb : created h0 (names_builder_container names) builder.

Lemma await_upload_wp turns exec container options h :
  extends h0 h → answered h (BuildCreateExec container options) (Ok exec) →
  wp rules (await_upload turns exec) (λ _ h', extends h0 h') h.
Proof.
  revert h. induction turns as [|turns IH]; intros h Hh He; cbn [await_upload]; bstep; try by ext.
  - split; eauto with history.
  - apply IH; eauto with history.
Qed.

Lemma upload_source_wp prepared source h :
  extends h0 h → prepared_in request h prepared →
  answered h (BuildSourceArchive (install_plugin_root prepared)) (Ok source) →
  wp rules (upload_source builder source) (λ _ h', extends h0 h') h.
Proof.
  intros Hh Hp Hs. unfold upload_source. bstep; try by ext.
  - split_and!; eauto with history.
  - split; eauto 6 with history.
  - split_and!; eauto 7 with history.
  - eapply await_upload_wp; eauto 6 with history.
Qed.

Lemma download_wp entry limit h :
  extends h0 h →
  wp rules (download_exec_archive builder entry limit)
    (λ r h', extends h0 h' ∧ ∀ content, r = Ok content →
       ∃ exec chunks, answered h' (BuildCreateExec builder (archive_exec entry)) (Ok exec) ∧
         answered h' (BuildExecOutput exec) chunks ∧ read_archive limit [] chunks = Ok content) h.
Proof.
  intros Hh. unfold download_exec_archive. bstep; try (split; [by ext|done]).
  - split_and!; eauto with history.
  - split; eauto 6 with history.
  - cbn [prog_timeout mbind prog_mbind prog_bind call]. split; [done|]. intros expired _. cbn.
    destruct expired; [split; [by ext|done]|]. split; [split; eauto 7 with history|]. intros chunks _. cbn.
    split; [done|]. intros expired _. destruct expired; (split; [by ext|]); [done|]. cbn.
    intros content Hc. exists r, chunks. split_and!; eauto with history.
Qed.

Lemma read_status_wp h : extends h0 h → wp rules (read_status builder) (λ _ h', extends h0 h') h.
Proof.
  intros Hh. unfold read_status. wp_step. eapply wp_mono, download_wp; [|done].
  intros [content|error] h' [Hh' _]; bstep; by ext.
Qed.

Lemma await_status_wp turns exec container options h :
  extends h0 h → answered h (BuildCreateExec container options) (Ok exec) →
  wp rules (await_status turns exec) (λ _ h', extends h0 h') h.
Proof.
  revert h. induction turns as [|turns IH]; intros h Hh He; cbn [await_status]; bstep; try by ext.
  - split; eauto with history.
  - apply IH; eauto with history.
Qed.

(** What is dropped half way has left the guards alone. *)
Lemma timeout_wp {A} seconds (p : btask A) h :
  extends h0 h → all_calls (λ c, negb (is_guard c)) p → wp rules p (λ _ h', extends h0 h') h →
  wp rules (prog_timeout (BuildExpired seconds) id p) (λ _ h', extends h0 h') h.
Proof.
  intros Hh Hc Hp. eapply wp_mono; [|apply (wp_timeout_keeps rules (BuildExpired seconds) id
    (λ c, negb (is_guard c)) (λ h', extends h0 h') p (λ _ h', extends h0 h') h)]; [by intros r h' [Hh' _]|done| |done..].
  intros h' c r Hn%negb_true_iff Hh'. cbn. destruct (is_timer c); [done|by apply extends_cons].
Qed.

Lemma wait_for_build_status_wp h :
  extends h0 h → wp rules (wait_for_build_status builder) (λ _ h', extends h0 h') h.
Proof.
  intros Hh. unfold wait_for_build_status. bstep; try by ext.
  - split_and!; eauto with history.
  - split; eauto 6 with history.
  - eapply wp_mono, timeout_wp; [|by ext|apply await_status_calls|eapply await_status_wp; eauto 6 with history].
    intros waited h' Hh'. cbv beta in *. destruct (default _ waited) as [[]|error]; [|done]. wp_step.
    eapply wp_mono, timeout_wp; [|done|apply read_status_calls|by apply read_status_wp].
    done.
Qed.

Lemma collect_logs_wp chunks logs total h :
  extends h0 h → wp rules (collect_logs builder chunks logs total) (λ _ h', extends h0 h') h.
Proof.
  revert logs total. induction chunks as [|[chunk|error] chunks IH]; intros logs total Hh; cbn [collect_logs]; try done.
  destruct chunk; try (by apply IH); bstep; try (by ext); eauto with history. all: split; eauto with history.
Qed.
Lemma collect_build_logs_wp h :
  extends h0 h → wp rules (collect_build_logs builder) (λ _ h', extends h0 h') h.
Proof.
  intros Hh. unfold collect_build_logs. bstep; [split; eauto with history|].
  apply collect_logs_wp. by ext.
Qed.
End running.

(** ** Images *)

Lemma attested_Ok trusted kind asset_hash found :
  attested trusted kind asset_hash found = true →
  verify_trusted_image_labels kind (trusted_base_image_digest trusted) (trusted_sdk_hash trusted) asset_hash
    found = Ok tt.
Proof. unfold attested. by destruct (verify_trusted_image_labels _ _ _ _ _) as [[]|]. Qed.

Lemma ensure_trusted_image_wp trusted expected h :
  exclusive request h → trusted_image_inputs lock_file include_bytes = Ok trusted →
  expected ∈ trusted_kinds trusted →
  wp rules (ensure_trusted_image trusted expected)
    (λ r h', extends h h' ∧ (r = Ok tt → image_attested h' trusted expected)) h.
Proof.
  intros Hx Ht Hin. destruct expected as [[[kind image] context] asset_hash]. unfold ensure_trusted_image.
  wp_step. refine (wp_call _ (BuildInspectImage image) _ _ _ _); [done|]. intros found _. cbn [next build_protocol is_timer]. cbv zeta.
  match goal with |- wp _ (if ?valid then _ else _) _ _ => destruct valid eqn:Hv end.
  - destruct found as [inspect|]; [|done]. destruct (inspected_labels inspect) as [l|] eqn:Hf; [|done].
    split; [by ext|]. intros _. exists inspect, l. split_and!; eauto using attested_Ok with history.
  - bstep; try (split; [by ext|done]).
    + split_and!; [eauto with history|done| |].
      * unfold trusted_kinds in Hin. set_solver.
      * exists trusted. split; [done|]. unfold trusted_kinds in Hin. set_solver.
    + eauto with history.
    + destruct (inspected_labels r0) as [l|] eqn:Hf; cbn [ok_or]; [|split; [by ext|done]].
      bstep; (split; [by ext|]); [|done]. intros _. exists r0, l. split_and!; eauto using attested_Ok with history.
Qed.

Lemma ensure_each_wp trusted l h :
  exclusive request h → trusted_image_inputs lock_file include_bytes = Ok trusted →
  l ⊆ trusted_kinds trusted →
  wp rules (prog_each (ensure_trusted_image trusted) l)
    (λ r h', extends h h' ∧ (r = Ok tt → Forall (image_attested h' trusted) l)) h.
Proof.
  intros Hx Ht. revert h Hx. induction l as [|x l IH]; intros h Hx Hl; cbn [prog_each].
  - split; [by ext|]. by constructor.
  - wp_step. eapply wp_mono, ensure_trusted_image_wp; [|done..|set_solver].
    intros [[]|e] h' [Hh' Ha]; [|split; [done|by intros [=]]].
    eapply wp_mono, IH; [|eauto with history|set_solver]. intros r h2 [Hh2 Hr]. split; [by ext|].
    intros ->. constructor; [|by apply Hr]. eapply sub_attested, Ha; [by apply extends_sub|done].
Qed.

Lemma ensure_trusted_images_wp trusted h :
  exclusive request h → trusted_image_inputs lock_file include_bytes = Ok trusted →
  wp rules (ensure_trusted_images trusted)
    (λ r h', extends h h' ∧ (r = Ok tt → images_attested lock_file include_bytes h' trusted)) h.
Proof.
  intros Hx Ht. unfold ensure_trusted_images. wp_step. eapply wp_mono, ensure_each_wp; [|done..].
  intros [[]|e] h' [Hh' Ha]; [|split; [done|by intros [=]]]. specialize (Ha eq_refl).
  bstep; try (split; [by ext|done]); [eauto with history|]. split; [by ext|]. intros Hv.
  split; [done|]. split.
  - eapply Forall_impl; [exact Ha|]. intros x. apply sub_attested, extends_sub. by ext.
  - exists r. split; [by left|]. by destruct (verify_repo_digests _ _) as [[]|].
Qed.

Lemma verify_managed_image_wp image expected h :
  exclusive request h →
  wp rules (verify_managed_image image expected)
    (λ r h', extends h h' ∧ (r = Ok tt → ∃ inspect found,
       answered h' (BuildInspectImage image) (Ok inspect) ∧ inspected_labels inspect = Some found ∧
       expected ⊆ found)) h.
Proof.
  intros Hx. unfold verify_managed_image. bstep; try (split; [by ext|done]); [done|].
  destruct (inspected_labels r) as [found|] eqn:Hf; cbn [ok_or]; [|split; [by ext|done]].
  bstep; (split; [by ext|]); [|done]. intros _. exists r, found. split_and!; [by left|done|].
  apply map_subseteq_spec. intros key value Hk. rewrite forallb_forall in Heqb.
  apply eqb_eq, (Heqb (key, value)), list_elem_of_In, elem_of_map_to_list, Hk.
Qed.

(** ** The builder *)

Lemma create_networks_wp h :
  exclusive request h → wp rules (create_build_networks names) (λ _ h', extends h h') h.
Proof.
  intros Hx. unfold create_build_networks. bstep; try by ext.
  - split_and!; [done|done|by left].
  - split_and!; [eauto with history|done|by right].
Qed.

Lemma run_builder_wp prepared trusted source h :
  exclusive request h → prepared_in request h prepared → images_attested lock_file include_bytes h trusted →
  answered h (BuildSourceArchive (install_plugin_root prepared)) (Ok source) →
  wp rules (run_builder request prepared source)
    (λ r h', extends h h' ∧ ∀ built, r = Ok built → created h' (names_builder_container names) built.1) h.
Proof.
  intros Hx Hp Ha Hs. unfold run_builder. cbv zeta. wp_step.
  eapply wp_mono, create_networks_wp; [|done]. intros [[]|e] h1 Hh1; [|by split].
  bstep; try (split; [by ext|done]).
  - split_and!; [eauto with history..|]. left. split_and!; [done|apply proxy_confined|done].
  - split_and!; [eauto with history|done|]. eexists. by left.
  - split_and!; [eauto with history..|]. right; left. split_and!; [done|apply builder_confined|done|].
    exists prepared. split; [eauto with history|apply builder_scripts].
  - split; [eauto with history|]. left. eexists. eauto with history.
  - split; [eauto with history|]. right. eexists. eauto with history.
  - assert (exclusive request h1) as Hx1 by eauto with history.
    match goal with |- wp _ _ _ ?h' => set (h2 := h'); assert (extends h1 h2) as Hh2 by (subst h2; by ext);
      assert (created h2 (names_builder_container names) r1) as Hb by (eexists; subst h2; eauto with history) end.
    clearbody h2. assert (exclusive request h2) as Hx2 by eauto with history.
    eapply wp_mono; [|eapply (upload_source_wp h2 r1 Hx2 Hb); eauto with history].
    intros [[]|e] h3 Hh3; [|split; [by ext|done]]. wp_step.
    eapply wp_mono; [|by apply (wait_for_build_status_wp h2 r1 Hx2 Hb)]. intros status h4 Hh4. wp_step.
    eapply wp_mono; [|by apply (collect_build_logs_wp h2 r1 Hx2 Hb)].
    intros [logs|e] h5 Hh5; [|split; [by ext|done]].
    bstep; (split; [by ext|]); try done. intros built [= <-]. simpl. eauto with history.
Qed.

(** ** The image *)

(** [image] was committed with the plan's labels and carries them. *)
Definition image_committed (h : history) (plan : ManagedImagePlan) (image : string) : Prop :=
  image ≠ "" ∧
  (∃ commit, answered h (BuildCommit commit) (Ok image) ∧ commit_labels commit = plan_labels plan) ∧
  ∃ inspect found, answered h (BuildInspectImage image) (Ok inspect) ∧
    inspected_labels inspect = Some found ∧ plan_labels plan ⊆ found.

Lemma assemble_wp prepared trusted plan builder logs h :
  exclusive request h → prepared_in request h prepared → images_attested lock_file include_bytes h trusted →
  managed_image_plan (image_input request prepared trusted) = Ok plan →
  created h (names_builder_container names) builder →
  wp rules (assemble request plan builder logs)
    (λ r h', extends h h' ∧ ∀ image, r = Ok image → image_committed h' plan image) h.
Proof.
  intros Hx Hp Ha Hplan Hb. unfold assemble, download_output. cbv zeta. bstep.
  eapply wp_mono; [|by apply (download_wp h builder Hx Hb)].
  intros [output|e] h1 [Hh1 Ho]; [|split; [done|by intros ? [=]]].
  destruct (Ho output eq_refl) as (exec & chunks & He & Hc & Hread). cbn [map_err].
  bstep. destruct (normalize_output_archive output) as [normalized|e] eqn:Hn; cbn [map_err];
    [|split; [by ext|done]].
  bstep; try (split; [by ext|done]).
  - split_and!; [eauto with history..|]. right; right. split_and!; (done || apply assembler_confined).
  - split_and!; [eauto with history|eexists; eauto with history|done|].
    exists builder, exec, chunks, output. split_and!; eauto with history.
  - destruct (rsplit_once _ _) as [[repository tag]|]; cbn [ok_or]; [|split; [by ext|done]].
    bstep; try (split; [by ext|done]).
    + split_and!; [eauto with history|eexists; eauto with history|done|exists normalized; destruct r0; by left|].
      exists prepared, trusted, plan. split_and!; eauto with history.
    + eapply wp_mono, verify_managed_image_wp; [|eauto 7 with history].
      intros [[]|e] h2 [Hh2 Hv]; bstep; (split; [by ext|]); [|done]. intros image [= <-].
      split_and!; [by intros ->| |by apply Hv]. eexists. split; [eapply extends_answered; [exact Hh2|by left]|done].
Qed.

(** What a build that succeeds returns. *)
Definition image_of (h : history) (prepared : ValidatedPreparedInstall) (output : BuildOutput) : Prop :=
  ∃ trusted plan,
    images_attested lock_file include_bytes h trusted ∧
    managed_image_plan (image_input request prepared trusted) = Ok plan ∧
    image_committed h plan (artifact_image_id (output_artifact output)) ∧
    artifact_repository_id (output_artifact output) = install_repository_id prepared ∧
    artifact_commit_sha (output_artifact output) = install_commit_sha prepared ∧
    artifact_source_hash (output_artifact output) = install_source_hash prepared ∧
    artifact_manifest_hash (output_artifact output) = install_manifest_hash prepared ∧
    output_base_image_digest output = trusted_base_image_digest trusted ∧
    output_sdk_hash output = trusted_sdk_hash trusted.

Lemma sub_committed h h' plan image :
  h ⊆ h' → image_committed h plan image → image_committed h' plan image.
Proof.
  intros He (Hi & (commit & Hc & ?) & inspect & found & Hf & ?). split; [done|]. split.
  - exists commit. split; [by apply He|done].
  - exists inspect, found. split; [by apply He|done].
Qed.
Lemma sub_image_of h h' prepared output :
  h ⊆ h' → image_of h prepared output → image_of h' prepared output.
Proof.
  intros He (trusted & plan & Ha & Hp & Hc & ?). exists trusted, plan.
  split_and!; [by eapply sub_images|done|by eapply sub_committed|naive_solver..].
Qed.

Lemma build_prepared_wp prepared h :
  exclusive request h → prepared_in request h prepared →
  wp rules (build_prepared lock_file include_bytes request prepared)
    (λ r h', extends h h' ∧ ∀ output, r = Ok output → image_of h' prepared output) h.
Proof.
  intros Hx Hp. unfold build_prepared. bstep; try (split; [by ext|done]); [split; eauto with history|].
  destruct (trusted_image_inputs _ _) as [trusted|e] eqn:Ht; cbn [map_err]; [|split; [by ext|done]].
  bstep. eapply wp_mono, ensure_trusted_images_wp; [|eauto with history|done].
  intros [[]|e] h1 [Hh1 Ha]; [|split; [by ext|done]]. specialize (Ha eq_refl). bstep.
  destruct (managed_image_plan _) as [plan|e] eqn:Hplan; cbn [map_err]; [|split; [by ext|done]].
  bstep. eapply wp_mono, (run_builder_wp prepared trusted); [|eauto with history..|].
  2: eapply extends_answered; [exact Hh1|by left].
  intros [built|e] h2 [Hh2 Hb]; [|split; [by ext|done]]. specialize (Hb built eq_refl). bstep.
  eapply wp_mono, (assemble_wp prepared trusted); [|eauto with history..].
  intros [image|e] h3 [Hh3 Hi]; [|split; [by ext|done]]. specialize (Hi image eq_refl).
  bstep; try (split; [by ext|done]); [split; eauto 6 with history|].
  split; [by ext|]. intros output [= <-]. exists trusted, plan.
  split_and!; [eauto with history|done| |done..]. eapply sub_committed, Hi. apply extends_sub. by ext.
Qed.

(** ** The guards *)

(** Nothing is held any more. *)
Definition released (h : history) : Prop := holds_plugin h = None ∧ holds_global h = false.

(** The prepared installation that was read from the disk. *)
Definition prepared_on_disk (prepared : ValidatedPreparedInstall) : Prop :=
  ∃ now later d,
    (validate_prepared_install plugin_data (build_plugin_id request) operation_id now later d).1 = Ok prepared.

Lemma execute_build_wp :
  wp rules (execute_build lock_file include_bytes request)
    (λ r h, released h ∧ ∀ output, r = Ok output → ∃ prepared,
       prepared_on_disk prepared ∧ prepared_in request h prepared ∧ image_of h prepared output) [].
Proof.
  unfold execute_build. cbv zeta. bstep; try done.
  eapply wp_mono, build_prepared_wp; [|done|by right; right; left].
  intros result h [Hh Ho]. destruct (extends_holds _ _ Hh) as [Hp Hg]. cbn in Hp, Hg.
  bstep; [done|by split_and!|]. split; [done|]. intros output ->. exists r.
  split; [by destruct Hr as (now & later & d & Hd); exists now, later, d|]. split.
  - right; right. eapply extends_answered; [exact Hh|]. by right; right; left.
  - eapply sub_image_of, Ho; [|done]. set_solver.
Qed.

(** Removal of everything the build may have created was the last thing tried. *)
Definition cleaned_up (h : history) : Prop :=
  ∃ r1 r2 r3 r4 r5 h0, h =
    [existT (BuildRemoveNetwork (names_egress_network names)) r5;
     existT (BuildRemoveNetwork (names_internal_network names)) r4;
     existT (BuildRemoveContainer (names_proxy_container names)) r3;
     existT (BuildRemoveContainer (names_assembler_container names)) r2;
     existT (BuildRemoveContainer (names_builder_container names)) r1] ++ h0.

Lemma build_cleanup_wp h :
  released h →
  wp rules (cleanup_temporary_resources operation_id)
    (λ r h', r = Ok tt ∧ cleaned_up h' ∧ released h' ∧ h ⊆ h') h.
Proof.
  intros [Hp Hg]. unfold cleanup_temporary_resources.
  split; [split_and!; [done..|set_solver]|]. intros r1 _.
  split; [split_and!; [done..|set_solver]|]. intros r2 _.
  split; [split_and!; [done..|set_solver]|]. intros r3 _.
  split; [split_and!; [done..|set_solver]|]. intros r4 _.
  split; [split_and!; [done..|set_solver]|]. intros r5 _.
  split; [done|]. split; [by exists r1, r2, r3, r4, r5, h|]. split; [by split|]. cbn. set_solver.
Qed.

(** A build returns nothing but this. *)
Definition build_returns (r : result BuildAdapterError BuildOutput) (h : history) : Prop :=
  (h = [] ∧ r = Err (BuildAdapterError_new "INVALID_BUILD_REQUEST") ∨ cleaned_up h) ∧
  released h ∧
  ∀ output, r = Ok output → build_installation_id request = adapter_installation_id ∧
    ∃ prepared, prepared_on_disk prepared ∧ prepared_in request h prepared ∧ image_of h prepared output.

Lemma build_wp :
  wp rules (build plugin_data adapter_installation_id lock_file include_bytes request) build_returns [].
Proof.
  unfold build. destruct (_ || _) eqn:Hreq; [split; [by left|by split]|].
  bool_prop.
  wp_step. eapply wp_mono, execute_build_wp. intros result h [Hh Ho].
  wp_step. eapply wp_mono, build_cleanup_wp; [|done]. intros cleanup h' (-> & Hc & Hr & Hs).
  assert (build_returns result h') as Hresult; [|destruct result; exact Hresult].
  split; [by right|]. split; [done|]. intros output ->. split; [done|].
  destruct (Ho output eq_refl) as (prepared & Hd & Hp & Hi). exists prepared.
  split; [done|]. split; [by apply Hs|by eapply sub_image_of].
Qed.

(** C16. A build keeps to the rules whatever Docker answers: it acts only for the
    request's own operation, with both guards held and after both trusted images and
    the base image were attested; the builder and the proxy run unprivileged,
    without capabilities, mounts or root, the builder with the internal network
    only; lifecycle scripts run only if the prepared installation allows them; the
    builder is fed the archive of the prepared sources and nothing else; what is
    uploaded for the image is the normalized output of that builder, the container
    it goes into is never started, and the image carries the labels of the plan. However
    it ends, both guards are released and removal of every container and network was
    tried last; a success names an image that was committed from the prepared
    installation on disk and that Docker showed to carry the plan's labels. *)
Theorem build_keeps_rules :
  wp rules (build plugin_data adapter_installation_id lock_file include_bytes request) build_returns [].
Proof. apply build_wp. Qed.
End parts.

(** ** Builds side by side *)

(** A protocol that knows less follows from one that knows more. *)
Lemma wp_forget {C : Type} {answer : C → Type} {G G' A} (P : protocol answer G) (P' : protocol answer G')
    (f : G → G') (p : prog answer A) (Q : A → G → Prop) g :
  (∀ g c, allowed P g c → allowed P' (f g) c) →
  (∀ g c r, possible P' (f g) c r → possible P g c r) →
  (∀ g c r, next P' (f g) c r = f (next P g c r)) →
  wp P p Q g → wp P' p (λ _ _, True) (f g).
Proof.
  intros Ha Hp Hn. revert g. induction p as [a|c k IH]; intros g; [done|]. intros [Hc Hk].
  split; [by apply Ha|]. intros r Hr. rewrite Hn. apply IH. by apply Hk, Hp.
Qed.

(** The calls that work on a build; the rest is the guards, the clean-up and time. *)
Definition works (c : BuildCall) : bool :=
  match c with
  | ValidatePreparedInstall _ _ | ReservePlugin _ | DropReservation _ | AcquireGlobal | ReleaseGlobal
  | BuildRemoveContainer _ | BuildRemoveNetwork _ | BuildRemoveImage _ | BuildSleep _ | BuildExpired _ => false
  | _ => true
  end.

Section tasks.
Context {K : Codec} {U : UrlLib} {B : Encoding} {L : RepositoryLib} {S : StagingJson} {T : TarLib} {J : BuildJson}.
Context (plugin_data : path) (adapter_installation_id : string).
Context (lock_file : option NodeImageLock) (include_bytes : string → list byte).

(** What the guards alone say of a task: the plugin it reserved, and whether it has
    the permit. *)
Definition guard_allowed (g : option string * bool) (c : BuildCall) : Prop :=
  match c with
  | ReservePlugin _ => g.1 = None ∧ g.2 = false
  | AcquireGlobal => g.2 = false
  | ReleaseGlobal => g.2 = true
  | DropReservation plugin_id => g.1 = Some plugin_id ∧ g.2 = false
  | _ => works c = true → g.2 = true
  end.
Definition guard_next (g : option string * bool) (c : BuildCall) : build_answer c → option string * bool :=
  match c with
  | ReservePlugin plugin_id => λ r : result BuildPolicyError unit,
      if is_ok r then (Some plugin_id, g.2) else g
  | DropReservation _ => λ _, (None, g.2)
  | AcquireGlobal => λ r : result BuildPolicyError unit, (g.1, is_ok r || g.2)
  | ReleaseGlobal => λ _, (g.1, false)
  | _ => λ _, g
  end.
Definition guard_protocol : protocol build_answer (option string * bool) :=
  mkProtocol guard_allowed (λ _, build_possible plugin_data) guard_next.

Definition guards (h : history) : option string * bool := (holds_plugin h, holds_global h).

Lemma build_guards request :
  wp guard_protocol (build plugin_data adapter_installation_id lock_file include_bytes request) (λ _ _, True)
    (None, false).
Proof.
  apply (wp_forget (build_protocol plugin_data lock_file include_bytes request) guard_protocol guards _
    (build_returns plugin_data adapter_installation_id lock_file include_bytes request) []);
    [..|apply build_wp].
  - intros h c Ha. destruct c; cbn in *; unfold exclusive in Ha; naive_solver.
  - done.
  - intros h c r. unfold guards. destruct c; cbn; try done; by destruct (is_ok r).
Qed.

(** The guards in memory; the other calls leave it alone. *)
Inductive build_sem : ∀ c, BuildConcurrency → build_answer c → BuildConcurrency → Prop :=
| sem_reserve plugin_id m r m' :
    reserve_plugin plugin_id m = (r, m') → build_sem (ReservePlugin plugin_id) m r m'
| sem_drop plugin_id m : build_sem (DropReservation plugin_id) m tt (drop_reservation plugin_id m)
| sem_acquire m r m' : try_acquire_global m = (r, m') → build_sem AcquireGlobal m r m'
| sem_release m : build_sem ReleaseGlobal m tt (release_global m)
| sem_elsewhere c m r : is_guard c = false → build_possible plugin_data c r → build_sem c m r m.

Definition build_tasks (p : btask unit) : Prop :=
  ∃ request, p = (_ ← build plugin_data adapter_installation_id lock_file include_bytes request; Ret tt).

(** The permit as a lock of which there is one. *)
Definition permit_of (g : option string * bool) : option unit := if g.2 then Some tt else None.
Definition permits_taken (m : BuildConcurrency) : gset unit := if global_permits m =? 0 then {[tt]} else ∅.

Record guards_hold (m : BuildConcurrency) (gs : list (option string * bool)) : Prop := {
  gh_sound : active_poisoned m = false ∧ (global_permits m = 0 ∨ global_permits m = 1);
  gh_permit : locks_inv permit_of (permits_taken m) gs;
  gh_plugins : locks_inv fst (active_plugins m) gs;
}.

Lemma reserve_holds plugin_id m r m' gs i g :
  reserve_plugin plugin_id m = (r, m') → gs !! i = Some g → guards_hold m gs →
  guards_hold m' (<[i := guard_next g (ReservePlugin plugin_id) r]> gs).
Proof.
  intros Hm Hi [[Hp Hn] Hl Ha]. unfold reserve_plugin in Hm. rewrite Hp in Hm. cbn [guard_next].
  case_decide as Hin; simplify_eq; cbn [is_ok]; [by rewrite list_insert_id|].
  split; [done|by eapply locks_keep|by apply locks_take].
Qed.

Lemma drop_holds plugin_id m gs i g :
  g.1 = Some plugin_id → gs !! i = Some g → guards_hold m gs →
  guards_hold (drop_reservation plugin_id m) (<[i := (None, g.2)]> gs).
Proof.
  intros Hg Hi [[Hp Hn] Hl Ha]. unfold drop_reservation. rewrite Hp.
  split; [done|by eapply locks_keep|by eapply locks_release].
Qed.

Lemma acquire_holds m r m' gs i g :
  g.2 = false → try_acquire_global m = (r, m') → gs !! i = Some g → guards_hold m gs →
  guards_hold m' (<[i := (g.1, is_ok r || g.2)]> gs).
Proof.
  intros Hg Hm Hi [[Hp Hn] Hl Ha]. unfold try_acquire_global in Hm. rewrite Hg.
  destruct (global_permits m <=? 0) eqn:Hle; simplify_eq; cbn [is_ok orb].
  - rewrite list_insert_id; [done|]. destruct g; simpl in *; by subst.
  - destruct Hn as [Hn|Hn]; [by rewrite Hn in Hle|]. split; [by rewrite Hn; split; [|left]| |by eapply locks_keep].
    unfold permits_taken in *. cbn. rewrite Hn in *. cbn in *.
    replace ({[tt]} : gset unit) with ({[tt]} ∪ ∅ : gset unit) by set_solver. by apply locks_take.
Qed.

Lemma release_holds m gs i g :
  g.2 = true → gs !! i = Some g → guards_hold m gs →
  guards_hold (release_global m) (<[i := (g.1, false)]> gs).
Proof.
  intros Hg Hi [[Hp Hn] Hl Ha]. assert (permit_of g = Some tt) as Hpermit by (unfold permit_of; by rewrite Hg).
  pose proof (lock_held _ _ _ Hl i g tt Hi Hpermit) as Htaken. unfold permits_taken in *.
  destruct Hn as [Hn|Hn]; rewrite Hn in *; cbn in *; [|set_solver].
  split; [split; [done|right; cbn; lia]| |by eapply locks_keep]. unfold permits_taken. cbn. rewrite Hn. cbn.
  replace (∅ : gset unit) with ({[tt]} ∖ {[tt]} : gset unit) by set_solver. by eapply locks_release.
Qed.

Lemma guards_step m gs i g c r m' :
  guards_hold m gs → gs !! i = Some g → guard_allowed g c → build_sem c m r m' →
  build_possible plugin_data c r ∧ guards_hold m' (<[i := guard_next g c r]> gs).
Proof.
  intros HI Hi Ha Hsem. revert Ha.
  destruct Hsem as [plugin_id m r m' Hm|plugin_id m|m r m' Hm|m|c m r Hc Hr]; intros Ha; cbn in Ha.
  - split; [done|by apply (reserve_holds plugin_id m)].
  - split; [done|by apply drop_holds; [destruct Ha|..]].
  - split; [done|by apply (acquire_holds m)].
  - split; [done|by apply release_holds].
  - split; [done|]. replace (guard_next g c r) with g by (by destruct c). by rewrite list_insert_id.
Qed.

(** C17. With any number of builds of one adapter side by side, interleaved in any way and
    whatever the host answers, at most one of them works at any time: reads the
    sources, makes images, networks and containers, or runs something in one. *)
Theorem builds_exclusive ps m :
  rtc (pool_step build_sem build_tasks) ([], BuildConcurrency_new) (ps, m) →
  ∀ i j h h' c c' k k', ps !! i = Some (h, Vis c k) → ps !! j = Some (h', Vis c' k') →
    works c = true → works c' = true → i = j.
Proof.
  intros Hrun. destruct (pool_invariant build_sem build_tasks guard_protocol (None, false) guards_hold
    (λ _ _, True)) with (s := BuildConcurrency_new) (ps' := ps) (s' := m) as [Hps [_ Hl _]]; [..|done|].
  - intros p (request & ->). wp_step. eapply wp_mono, build_guards. done.
  - intros s gs [Hs Hl Ha]. by split; [|apply locks_spawn..].
  - intros s gs i g c r s'. by apply guards_step.
  - split; [by split; [|right]|by split|by split].
  - intros i j h h' c c' k k' Hi Hj Hc Hc'.
    assert (∀ i h c k, ps !! i = Some (h, Vis c k) → works c = true →
      permit_of (ghost guard_protocol (None, false) h) = Some tt) as Hheld.
    { intros n h1 c1 k1 Hn Hw. destruct (Forall_lookup_1 _ _ _ _ Hps Hn) as [Ha _].
      assert ((ghost guard_protocol (None, false) h1).2 = true) as Hg
        by (destruct c1; try done; exact (Ha eq_refl)).
      unfold permit_of. by rewrite Hg. }
    assert (∀ i h p, ps !! i = Some (h, p) →
      ((ghost guard_protocol (None, false) ∘ fst) <$> ps) !! i = Some (ghost guard_protocol (None, false) h)) as Hg.
    { intros n h1 p Hn. rewrite list_lookup_fmap. by setoid_rewrite Hn. }
    by eapply (lock_unique _ _ _ Hl i j); [eapply Hg|eapply Hg|eapply Hheld|eapply Hheld].
Qed.
End tasks.

(** ** The output of a build *)

Global Instance component_cmp_preorder : CmpPreorder component_cmp.
Proof.
  split.
  - intros [| | |x] [| | |y]; try done. apply (cmp_flip String.compare).
  - intros [| | |x] [| | |y] [| | |z]; try done. apply (cmp_le_trans String.compare).
Qed.
Global Instance component_cmp_strict : CmpStrict component_cmp.
Proof. intros [| | |x] [| | |y]; try done. simpl. by intros ->%(cmp_eq String.compare). Qed.
Global Instance path_cmp_preorder : CmpPreorder path_cmp.
Proof. apply cmp_on_preorder, lex_cmp_preorder, component_cmp_preorder. Qed.

(** A link by the names on the way: where it leads if no name on the way is a
    link itself; [None] above the top. *)
Fixpoint follow (place : list string) (l : list Component) : option (list string) :=
  match l with
  | [] => Some place
  | Normal name :: l => follow (place ++ [name]) l
  | CurDir :: l => follow place l
  | ParentDir :: l => match place with [] => None | _ => follow (removelast place) l end
  | RootDir :: _ => None
  end.

Lemma link_depth_follow l place depth :
  link_depth (length place) l = Some depth → ∃ inside, follow place l = Some inside ∧ length inside = depth.
Proof.
  revert place. induction l as [|[| | |name] l IH]; intros place; cbn [link_depth follow]; try done.
  - intros [= <-]. by exists place.
  - apply IH.
  - destruct place as [|x place] using rev_ind; [done|]. rewrite length_app, Nat.add_comm, removelast_last.
    intros H. destruct (place ++ [x]) eqn:E; [by apply app_nil in E as [_ ?]|]. by apply IH.
  - intros H. apply IH. by rewrite length_app, Nat.add_comm.
Qed.

Lemma removelast_fmap {A B} (f : A → B) l : removelast (f <$> l) = f <$> removelast l.
Proof. induction l as [|x [|y l] IH]; [done..|]. cbn. f_equal. apply IH. Qed.

Lemma stays_inside_follow link target names :
  components link = Normal <$> names → symlink_stays_inside link target = true →
  ∃ inside, follow (removelast names) (components target) = Some inside ∧ inside ≠ [].
Proof.
  intros Hl. unfold symlink_stays_inside. rewrite Hl, removelast_fmap, length_fmap.
  destruct (_ || _); [done|]. destruct (link_depth _ _) as [depth|] eqn:Hd; [|done].
  intros Hpos%Nat.ltb_lt. apply link_depth_follow in Hd as (inside & Hf & Hlen). exists inside.
  split; [done|]. intros ->. simpl in Hlen. lia.
Qed.

Local Abbreviation output := (string * BuildOutputEntryKind * list byte)%type.

(** The entry of the archive that is uploaded. *)
Definition output_tar (entry : output) : TarOutput :=
  let '(p, kind, contents) := entry in
  match kind with
  | OutputDirectory => mkTarOutput EntryDirectory (p +:+ "/") mode_755 0 0 None []
  | OutputSymlink target => mkTarOutput EntryOther p mode_777 0 0 (Some target) []
  | _ => mkTarOutput EntryRegular p mode_644 0 0 None contents
  end.

Record entry_safe (entry : output) : Prop := {
  (** plain names below the top *)
  safe_names : ∃ names, components entry.1.1 = Normal <$> names;
  safe_relative : is_absolute entry.1.1 = false ∧ str_contains entry.1.1 (chr 92) = false;
  (** a directory, a file, or a link that leads to a name below the top *)
  safe_kind : match entry.1.2 with
    | OutputDirectory | OutputFile => True
    | OutputSymlink target => ∃ names inside, components entry.1.1 = Normal <$> names ∧
        follow (removelast names) (components target) = Some inside ∧ inside ≠ []
    | _ => False
    end;
}.

Section output.
Context {T : TarLib}.

Lemma relative_path_safe p u :
  build_validate_relative_path p = Ok u →
  is_absolute p = false ∧ str_contains p (chr 92) = false ∧ ∃ names, components p = Normal <$> names.
Proof.
  unfold build_validate_relative_path. destruct (_ || _) eqn:H; [done|]. intros _. bool_prop.
  split_and!; [done..|]. apply normals, forallb_forall. intros c Hc. apply negb_false_iff.
  destruct (negb (is_normal c)) eqn:Hn; [|done].
  assert (existsb (λ component, negb (is_normal component)) (components p) = true) as He; [|congruence].
  apply existsb_exists. by exists c.
Qed.

Lemma normalize_one_Ok entry l :
  normalize_build_output [entry] = Ok l → ∃ mode, entry_mode entry 0 = Ok mode.
Proof.
  unfold normalize_build_output. intros H. simplify_result. unfold normalize_entries in *.
  simplify_result. eauto.
Qed.

Lemma mode_kind_safe p kind size mode names :
  components p = Normal <$> names → entry_mode (mkBuildOutputEntry p kind size) 0 = Ok mode →
  match kind with
  | OutputDirectory | OutputFile => True
  | OutputSymlink target => ∃ names inside, components p = Normal <$> names ∧
      follow (removelast names) (components target) = Some inside ∧ inside ≠ []
  | _ => False
  end.
Proof.
  intros Hp. unfold entry_mode. cbn [output_kind output_size output_path]. destruct kind; try done.
  destruct (_ || _) eqn:Ho; [done|]. intros _. bool_prop.
  destruct (stays_inside_follow p target names) as (inside & ?); [done..|]. by exists names, inside.
Qed.

(** What the loop has read. *)
Lemma read_output_Ok entries seen total count l :
  read_output entries seen total count = Ok l → count ≤ BUILD_OUTPUT_FILE_LIMIT →
  Forall entry_safe l ∧ count + zlen l ≤ BUILD_OUTPUT_FILE_LIMIT ∧
  NoDup ((λ e, components e.1.1) <$> l) ∧ (∀ e, e ∈ l → components e.1.1 ∉ seen).
Proof.
  revert seen total count l. induction entries as [|entry entries IH]; intros seen total count l H Hc.
  - injection H as <-. split_and!; [done|unfold zlen; simpl; lia|constructor|set_solver].
  - cbn [read_output] in H. destruct entry as [[[entry is_symlink] link_name]|]; [|done].
    cbn [ok_or mbind result_bind] in H. destruct (_ <? _) eqn:Hlimit; [done|]. apply Z.ltb_ge in Hlimit.
    destruct (entry_path entry) as [p|]; [|done]. cbn [ok_or mbind result_bind] in H.
    destruct (strip_output_prefix _) as [relative|]; [|done]. cbn [mbind result_bind] in H.
    destruct (str_is_empty relative).
    + destruct (IH _ _ _ _ H) as (? & ? & ? & ?); [done|]. split_and!; [done|lia|done..].
    + simplify_result. destruct x1 as [[kind contents] total']. simplify_result.
      destruct (relative_path_safe _ _ H0) as (Ha & Hb & names & Hn).
      destruct (normalize_one_Ok _ _ ltac:(eassumption)) as [mode Hm].
      match goal with H : read_output entries _ _ _ = Ok _ |- _ => apply IH in H as (Hs & Hl & Hd & Hi); [|done] end.
      split_and!.
      * constructor; [|done]. split; [by exists names|done|by eapply mode_kind_safe].
      * unfold zlen in *. simpl. lia.
      * constructor; [|done]. intros (e & He & Hin)%list_elem_of_fmap. apply (Hi e Hin). rewrite <- He. by left.
      * intros e [->|Hin]%elem_of_cons; [done|]. intros Hse. apply (Hi e Hin). by right.
Qed.

Lemma from_utf8_str l s : from_utf8 l = Some s → s = str l.
Proof. unfold from_utf8. by destruct (utf8_valid _ _); intros [= <-]. Qed.

Lemma append_outputs_Ok entries archive archive' :
  append_outputs entries archive = Ok archive' →
  archive' = archive ++ map output_tar entries ∧
  Forall (λ e, from_utf8 (bytes e.1.1) = Some e.1.1) entries.
Proof.
  revert archive. induction entries as [|[[p kind] contents] entries IH]; intros archive H; cbn [append_outputs] in H.
  - injection H as <-. by rewrite app_nil_r.
  - destruct (append_output _ _) as [next|] eqn:Hn; [|done]. apply IH in H as [-> Hf].
    unfold append_output in Hn. destruct (from_utf8 (bytes p)) as [text|] eqn:Ht; [|done].
    pose proof (from_utf8_str _ _ Ht) as ->. rewrite str_bytes in *. cbn [ok_or mbind result_bind] in Hn.
    assert (next = archive ++ [output_tar (p, kind, contents)]) as ->.
    { destruct kind; try done; unfold append_directory, append_file, append_symlink, append in Hn;
        repeat case_match; by simplify_eq. }
    split; [by rewrite <- app_assoc|by constructor].
Qed.

Lemma sorted_strict (entries : list output) :
  NoDup ((λ e, components e.1.1) <$> entries) →
  StronglySorted (cmp_le (cmp_on (λ e, e.1.1) path_cmp)) entries →
  StronglySorted (cmp_lt (cmp_on (λ e, e.1.1) path_cmp)) entries.
Proof.
  intros Hd. induction 1 as [|x l Hl IH Hx]; [constructor|]. apply NoDup_cons in Hd as [Hn Hd].
  constructor; [by apply IH|]. apply Forall_forall. intros y Hy.
  pose proof (proj1 (Forall_forall _ _) Hx y Hy) as Hxy. cbv beta in Hxy. unfold cmp_lt, cmp_le, cmp_on in *.
  destruct (path_cmp x.1.1 y.1.1) eqn:E; [|done..]. unfold path_cmp, cmp_on in E.
  apply (cmp_eq (lex_cmp component_cmp)) in E. destruct Hn. rewrite E. apply list_elem_of_fmap. by exists y.
Qed.

(** C18. What is uploaded for an image is a sound archive: at most 32768 entries
    owned by root, each a directory, a file or a link with a relative UTF-8 path of
    plain names; no path occurs twice, and they are in the order of their components, so
    that a directory comes before what it holds; a link leads, by the names on
    its way, to a place below the top. *)
Theorem normalized_output_safe input content :
  normalize_output_archive input = Ok content →
  ∃ entries, tar_finish (map output_tar entries) = Some content ∧ zlen input ≤ BUILD_OUTPUT_LIMIT_BYTES ∧
    zlen entries ≤ BUILD_OUTPUT_FILE_LIMIT ∧ Forall entry_safe entries ∧
    Forall (λ e, from_utf8 (bytes e.1.1) = Some e.1.1) entries ∧
    StronglySorted (cmp_lt (cmp_on (λ e, e.1.1) path_cmp)) entries.
Proof.
  unfold normalize_output_archive, finish. intros H. simplify_result.
  match goal with H : read_output _ _ _ _ = Ok ?l |- _ =>
    apply read_output_Ok in H as (Hs & Hl & Hd & _); [|done]; set (sorted := sort_by (cmp_on (λ e, e.1.1) path_cmp) l) in *;
    assert (sorted ≡ₚ l) as Hp by apply sort_by_perm end.
  match goal with H : append_outputs _ _ = Ok _ |- _ => apply append_outputs_Ok in H as [-> Hu] end.
  exists sorted. split_and!; [done|by apply Z.ltb_ge| | |done|].
  - unfold zlen in *. rewrite Hp. lia.
  - by rewrite Hp.
  - apply sorted_strict; [by rewrite Hp|]. apply sort_by_sorted, cmp_on_preorder, path_cmp_preorder.
Qed.
End output.

(** ** Where an archive ends *)

Lemma get_range_length l first last x : 0 ≤ first → get_range l first last = Some x → last ≤ zlen l.
Proof. unfold get_range. destruct (_ || _) eqn:H; [done|]. intros _ _. bool_prop. lia. Qed.

(** Two strings of bytes that agree on the first [n]. *)
Lemma get_range_agree l l' n first last :
  take n l = take n l' → Z.of_nat n ≤ zlen l → Z.of_nat n ≤ zlen l' → 0 ≤ first → last ≤ Z.of_nat n →
  get_range l first last = get_range l' first last.
Proof.
  intros Hn Hl Hl' Hf Hlast. unfold get_range.
  replace (zlen l <? last) with false by (symmetry; apply Z.ltb_ge; lia).
  replace (zlen l' <? last) with false by (symmetry; apply Z.ltb_ge; lia).
  destruct (last <? first) eqn:Hlf; [done|]. apply Z.ltb_ge in Hlf. cbn [orb]. f_equal.
  rewrite !take_drop_commute. f_equal.
  replace (Z.to_nat first + Z.to_nat (last - first))%nat with (Z.to_nat last) by lia.
  assert (∀ k : list byte, take (Z.to_nat last) k = take (Z.to_nat last) (take n k)) as Ht.
  { intros k. rewrite take_take. f_equal. lia. }
  by rewrite (Ht l), (Ht l'), Hn.
Qed.

Lemma build_checked_add a b c : checked_add a b = Some c → c = a + b.
Proof. unfold checked_add. by destruct (_ <=? _); intros [= <-]. Qed.

Lemma octal_digits_nonneg l acc n : 0 ≤ acc → octal_digits acc l = Some n → 0 ≤ n.
Proof.
  revert acc. induction l as [|x l IH]; intros acc Hacc; cbn [octal_digits]; [by intros [= <-]|].
  destruct (in_range 48 55 x) eqn:Hx; [|done]. destruct (_ <=? _); [|done].
  apply IH. unfold in_range in Hx. bool_prop. lia.
Qed.

Lemma padded_size_nonneg header n : padded_size header = Some n → 0 ≤ n.
Proof.
  unfold padded_size. destruct (get_range _ _ _) as [field|]; [|done]. cbn [mbind option_bind].
  destruct (from_utf8 _); [|done]. cbn [mbind option_bind].
  destruct (if eqb _ _ then _ else _) as [size|] eqn:Hs; [|done]. cbn [mbind option_bind].
  destruct (checked_add _ _) as [rounded|] eqn:Hr; [|done]. cbn [mbind option_bind].
  apply build_checked_add in Hr as ->. unfold checked_mul. destruct (_ <=? _); [|done]. intros [= <-].
  assert (0 ≤ size) as Hsize.
  { destruct (eqb _ _); [by injection Hs as <-|]. unfold from_octal in Hs. repeat case_match; try done;
      by eapply octal_digits_nonneg in Hs. }
  unfold BLOCK. apply Z.mul_nonneg_nonneg; [|lia]. apply Z.div_pos; lia.
Qed.

(** One turn of the loop. *)
Lemma tar_length_step fuel l offset n :
  0 ≤ offset → tar_length_from (S fuel) l offset = Some n →
  ∃ header, get_range l offset (offset + BLOCK) = Some header ∧ checked_add offset BLOCK = Some (offset + BLOCK) ∧
    (all_zero header = true ∧ checked_add (offset + BLOCK) BLOCK = Some n ∧
     (∃ second, get_range l (offset + BLOCK) n = Some second ∧ all_zero second = true) ∨
     all_zero header = false ∧ ∃ padded next, padded_size header = Some padded ∧
       checked_add (offset + BLOCK) padded = Some next ∧ offset + BLOCK ≤ next ∧ tar_length_from fuel l next = Some n).
Proof.
  intros Ho. cbn [tar_length_from]. destruct (checked_add offset BLOCK) as [header_end|] eqn:He; [|done].
  cbn [mbind option_bind]. pose proof (build_checked_add _ _ _ He) as ->.
  destruct (get_range _ _ _) as [header|] eqn:Hh; [|done]. cbn [mbind option_bind]. intros H.
  exists header. split; [done|]. split; [done|]. destruct (all_zero header) eqn:Hz; [left|right].
  - destruct (checked_add (offset + BLOCK) BLOCK) as [last|] eqn:Hl; [|done]. cbn [mbind option_bind] in H.
    destruct (get_range l _ last) as [second|] eqn:Hs; [|done]. cbn [mbind option_bind] in H.
    destruct (all_zero second) eqn:Hsz; [|done]. injection H as <-. eauto.
  - destruct (padded_size header) as [padded|] eqn:Hp; [|done]. cbn [mbind option_bind] in H.
    destruct (checked_add (offset + BLOCK) padded) as [next|] eqn:Hn; [|done]. cbn [mbind option_bind] in H.
    split; [done|]. exists padded, next. split_and!; [done..| |done].
    apply build_checked_add in Hn as ->. apply padded_size_nonneg in Hp. lia.
Qed.

Lemma tar_length_bound fuel l offset n :
  0 ≤ offset → tar_length_from fuel l offset = Some n → offset + BLOCK ≤ n ≤ zlen l.
Proof.
  revert offset. induction fuel as [|fuel IH]; intros offset Ho H; [done|].
  apply tar_length_step in H as (header & Hh & _ & [(_ & Hn & second & Hs & _)|(_ & padded & next & _ & _ & Hle & H)]); [| |done].
  - apply build_checked_add in Hn as ->. apply get_range_length in Hs; unfold BLOCK in *; lia.
  - apply IH in H; unfold BLOCK in *; lia.
Qed.

(** The end depends on the bytes before it only. *)
Lemma tar_length_agree fuel fuel' l l' offset n :
  0 ≤ offset → tar_length_from fuel l offset = Some n →
  take (Z.to_nat n) l = take (Z.to_nat n) l' → n ≤ zlen l' → zlen l' - offset < Z.of_nat fuel' →
  tar_length_from fuel' l' offset = Some n.
Proof.
  revert fuel' offset. induction fuel as [|fuel IH]; intros fuel' offset Ho H Ht Hl' Hf; [done|].
  pose proof (tar_length_bound _ _ _ _ Ho H) as Hb. unfold BLOCK in Hb.
  assert (∀ first last, 0 ≤ first → last ≤ n → get_range l' first last = get_range l first last) as Hg.
  { intros first last Hfirst Hlast. symmetry. apply (get_range_agree _ _ (Z.to_nat n)); (done || lia). }
  destruct fuel' as [|fuel']; [lia|]. cbn [tar_length_from].
  apply tar_length_step in H as (header & Hh & He & Hcase); [|done]. rewrite He. cbn [mbind option_bind].
  rewrite Hg, Hh by (unfold BLOCK; lia). cbn [mbind option_bind].
  destruct Hcase as [(-> & Hn & second & Hs & Hz)|(-> & padded & next & Hp & Hn & Hle & H)].
  - rewrite Hn. cbn [mbind option_bind]. rewrite Hg, Hs by (unfold BLOCK; lia). cbn [mbind option_bind]. by rewrite Hz.
  - rewrite Hp. cbn [mbind option_bind]. rewrite Hn. cbn [mbind option_bind]. unfold BLOCK in Hle.
    apply IH; [lia|done..|lia].
Qed.

Lemma complete_bound l n : complete_tar_length l = Some n → 0 < n ≤ zlen l.
Proof. intros H%tar_length_bound; [|done]. unfold BLOCK in H. lia. Qed.

Lemma complete_app l k n : complete_tar_length l = Some n → complete_tar_length (l ++ k) = Some n.
Proof.
  intros H. pose proof (complete_bound _ _ H) as Hb. unfold zlen in Hb.
  eapply tar_length_agree; [done|exact H|..]; unfold zlen; rewrite ?length_app; [|lia..].
  rewrite take_app_le; [done|lia].
Qed.

Lemma complete_take l n : complete_tar_length l = Some n → complete_tar_length (take (Z.to_nat n) l) = Some n.
Proof.
  intros H. pose proof (complete_bound _ _ H) as Hb. unfold zlen in Hb.
  eapply tar_length_agree; [done|exact H|..]; unfold zlen; rewrite ?length_take; [|lia..].
  by rewrite take_take, Nat.min_id.
Qed.

(** The bytes of a chunk of standard output. *)
Definition output_bytes (chunk : result DockerError LogOutput) : option (list byte) :=
  match chunk with Ok (StdOut data) | Ok (Console data) => Some data | _ => None end.

(** What standard output holds up to the first chunk of another kind. *)
Fixpoint leading_output (chunks : list (result DockerError LogOutput)) : list byte :=
  match chunks with
  | [] => []
  | chunk :: chunks =>
      match output_bytes chunk with Some data => data ++ leading_output chunks | None => [] end
  end.

(** The outcome of reading an archive out of the bytes [all]. *)
Definition archive_outcome (limit : Z) (all : list byte) (r : result DockerBuildError (list byte)) : Prop :=
  match r with
  | Ok archive => ∃ n, complete_tar_length all = Some n ∧ archive = take (Z.to_nat n) all ∧
      zlen archive ≤ limit
  | Err BuildOutputLimitExceeded => limit < zlen all
  | Err e => e = BuildArchiveIo ∧ complete_tar_length all = None
  end.

Lemma read_archive_from limit chunks content :
  limit < usize_max → complete_tar_length content = None →
  archive_outcome limit (content ++ leading_output chunks) (read_archive limit content chunks).
Proof.
  intros Hmax. revert content. induction chunks as [|chunk chunks IH]; intros content Hnone.
  { simpl. by rewrite app_nil_r. }
  assert (∀ data, archive_outcome limit (content ++ data ++ leading_output chunks)
    (if limit <? Z.min usize_max (zlen content + zlen data) then Err BuildOutputLimitExceeded
     else match complete_tar_length (content ++ data) with
          | Some n => Ok (take (Z.to_nat n) (content ++ data))
          | None => read_archive limit (content ++ data) chunks
          end)) as Hdata.
  { intros data. rewrite app_assoc.
    destruct (limit <? _) eqn:Hl; bool_prop.
    { cbn [archive_outcome]. unfold zlen in *. rewrite !length_app. lia. }
    destruct (complete_tar_length (content ++ data)) as [n|] eqn:Hn; [|by apply IH].
    exists n. split; [by apply complete_app|]. pose proof (complete_bound _ _ Hn) as Hb.
    unfold zlen in *. rewrite (take_app_le (content ++ data)) by lia. split; [done|].
    rewrite length_take. rewrite length_app in *. lia. }
  destruct chunk as [[message|message|message|message]|]; cbn [read_archive leading_output output_bytes];
    try apply Hdata; simpl; by rewrite app_nil_r.
Qed.

(** C19. The archive that an exec in the builder writes is read the same however its
    output is cut into chunks, as far as the limit allows.  Whatever chunks arrive,
    an archive that is returned is the first one in the bytes of standard output,
    taken together up to the first chunk of another kind, and within the limit; the
    limit is only reported when those bytes exceed it (whether it is then depends
    on the cut, since a chunk counts as a whole); and any other failure is an
    incomplete archive.  So if the bytes are within the limit, the result is what
    one look at all of them gives. *)
Theorem archive_read_whole limit chunks :
  limit < usize_max →
  archive_outcome limit (leading_output chunks) (read_archive limit [] chunks).
Proof. intros Hmax. by apply (read_archive_from limit chunks []). Qed.
