(* ===== verification/BuildProxy.v ===== *)
(** * The proxy of plugin builds (audiodown-supervisor: build_proxy.rs)

    A process in its own container through which the builder reaches the npm
    registry: it answers [CONNECT registry.npmjs.org:443] with a tunnel to a global
    address of that name, and counts the bytes of each tunnel and of all.  The two
    directions of every tunnel are tasks that share the counters. *)

From S2P Require Import Prelude Text Std Foreign CredentialContract Policy Fs Program.

Definition REGISTRY_HOST : string := "registry.npmjs.org".
Definition REGISTRY_AUTHORITY : string := "registry.npmjs.org:443".

(** The timeout is in nanoseconds. *)
Record ProxyLimits := mkProxyLimits {
  max_header_bytes : Z;
  max_tunnels : Z;
  max_tunnel_bytes : Z;
  max_total_bytes : Z;
  idle_timeout : Z;
}.
Definition ProxyLimits_default : ProxyLimits :=
  mkProxyLimits (16 * 1024) 32 (64 * 1024 * 1024) (256 * 1024 * 1024) (60 * 10 ^ 9).

Inductive BuildProxyError :=
  BuildProxyIo | InvalidRequest | HeaderTooLarge | TooManyTunnels | RegistryResolveFailed | RegistryConnectFailed
| TunnelByteLimitExceeded | AggregateByteLimitExceeded | IdleTimeout.
Global Instance BuildProxyError_eq_dec : EqDecision BuildProxyError.
Proof. solve_decision. Defined.

(** ** Addresses *)

Definition ipv4_is_documentation (a : Ipv4Addr) : bool :=
  ((o0 a =? 192) && (o1 a =? 0) && (o2 a =? 2))
  || ((o0 a =? 198) && (o1 a =? 51) && (o2 a =? 100))
  || ((o0 a =? 203) && (o1 a =? 0) && (o2 a =? 113)).

Definition is_global_v4 (a : Ipv4Addr) : bool :=
  negb (ipv4_is_private a)
  && negb (ipv4_is_loopback a)
  && negb (ipv4_is_link_local a)
  && negb (ipv4_is_broadcast a)
  && negb (ipv4_is_documentation a)
  && negb (ipv4_is_unspecified a)
  && negb (ipv4_is_multicast a)
  && negb (o0 a =? 0)
  && negb ((o0 a =? 100) && ((64 <=? o1 a) && (o1 a <=? 127)))
  && negb ((o0 a =? 192) && (o1 a =? 0) && (o2 a =? 0))
  && negb ((o0 a =? 198) && ((o1 a =? 18) || (o1 a =? 19)))
  && (o0 a <? 240).

Definition to_ipv4_mapped (a : Ipv6Addr) : option Ipv4Addr :=
  if eqb (take 6 (segments a)) [0; 0; 0; 0; 0; 65535]
  then Some (mkIpv4Addr (s6 a / 256) (s6 a mod 256) (s7 a / 256) (s7 a mod 256))
  else None.

Definition is_global_v6 (a : Ipv6Addr) : bool :=
  match to_ipv4_mapped a with
  | Some mapped => is_global_v4 mapped
  | None => (Z.land (s0 a) 0xe000 =? 0x2000) && negb ((s0 a =? 0x2001) && (s1 a =? 0x0db8))
  end.

Definition is_global (a : IpAddr) : bool :=
  match a with V4 a => is_global_v4 a | V6 a => is_global_v6 a end.

(** ** Requests *)

Inductive TunnelCall :=
  (* the semaphore of the tunnels *)
  | TryAcquireTunnel
  | ReleaseTunnel
  (* the client: a byte or the end *)
  | ClientRead
  | ClientWrite (content : list byte)
  | RegistryResolve (host : string)
  | RegistryConnect (address : IpAddr) (port : Z)
  (* the tunnel, below *)
  | Transfer.
Definition tunnel_answer (c : TunnelCall) : Type :=
  match c with
  | TryAcquireTunnel => bool
  | ReleaseTunnel => unit
  | ClientRead => result IoError (option byte)
  | ClientWrite _ => result IoError unit
  | RegistryResolve _ => result IoError (list IpAddr)
  | RegistryConnect _ _ => result IoError unit
  | Transfer => result BuildProxyError unit
  end.
Abbreviation tunnel_task A := (prog tunnel_answer (result BuildProxyError A)).

Definition crlf : list byte := [chr 13; chr 10].
Definition header_end (header : list byte) : bool :=
  eqb (drop (length header - 4) header) (crlf ++ crlf).

Record ParsedRequest := mkParsedRequest {
  request_method : string;
  request_authority : string;
  request_version : string;
}.

Definition parse_request (header : list byte) : result BuildProxyError ParsedRequest :=
  header ← ok_or (from_utf8 header) InvalidRequest;
  request_line ← ok_or (head (split2 (chr 13) (chr 10) header)) InvalidRequest;
  match split " "%char request_line with
  | [method; authority; version] =>
      if str_is_empty method || str_is_empty authority || str_is_empty version then Err InvalidRequest
      else Ok (mkParsedRequest method authority version)
  | _ => Err InvalidRequest
  end.

(** The loop of [read_request]: each turn reads a byte, and there are at most
    [max_header_bytes] of them. *)
Fixpoint read_header (turns : nat) (max_header_bytes : Z) (header : list byte) : tunnel_task (list byte) :=
  if header_end header then Ret (Ok header)
  else
    match turns with
    | O => Ret (Err HeaderTooLarge)
    | S turns =>
        read ←? prog_map_err (λ _, BuildProxyIo) (call ClientRead);
        match read with
        | None => Ret (Err InvalidRequest)
        | Some byte =>
            let header := header ++ [byte] in
            if max_header_bytes <? zlen header then Ret (Err HeaderTooLarge)
            else read_header turns max_header_bytes header
        end
    end.
Definition read_request (max_header_bytes : Z) : tunnel_task ParsedRequest :=
  header ←? read_header (S (Z.to_nat max_header_bytes)) max_header_bytes [];
  Ret (parse_request header).

(** [write_all(..).map_err(BuildProxyError::Io)] *)
Definition client_write (content : list byte) : tunnel_task unit :=
  prog_map_err (λ _, BuildProxyIo) (call (ClientWrite content)).
Definition write_status (status : string) : tunnel_task unit :=
  client_write (bytes ("HTTP/1.1 " +:+ status) ++ crlf ++ bytes "Connection: close" ++ crlf ++ crlf).

(** Between the permit and its release. *)
Definition handle_request (limits : ProxyLimits) : tunnel_task unit :=
  read ← read_request (max_header_bytes limits);
  match read with
  | Err HeaderTooLarge =>
      write_status "431 Request Header Fields Too Large" ;;?
      Ret (Err HeaderTooLarge)
  | Err error => Ret (Err error)
  | Ok request =>
      if negb (eqb (request_method request) "CONNECT")
         || negb (eqb (request_authority request) REGISTRY_AUTHORITY)
         || negb (eqb (request_version request) "HTTP/1.1")
      then write_status "405 Method Not Allowed"
      else
        addresses ←? prog_map_err (λ _, RegistryResolveFailed) (call (RegistryResolve REGISTRY_HOST));
        match addresses with
        | [] => write_status "403 Forbidden"
        | address :: _ =>
            if existsb (λ address, negb (is_global address)) addresses then write_status "403 Forbidden"
            else
              connected ← (call (RegistryConnect address 443) : prog tunnel_answer (result IoError unit));
              match connected with
              | Err _ =>
                  write_status "502 Bad Gateway" ;;?
                  Ret (Err RegistryConnectFailed)
              | Ok _ =>
                  client_write (bytes "HTTP/1.1 200 Connection Established" ++ crlf ++ crlf) ;;?
                  call Transfer
              end
        end
  end.

Definition handle_stream (limits : ProxyLimits) : tunnel_task unit :=
  permit ← call TryAcquireTunnel;
  if negb permit then
    write_status "503 Service Unavailable" ;;?
    Ret (Err TooManyTunnels)
  else
    result ← handle_request limits;
    _ ← call ReleaseTunnel;
    Ret result.

(** ** [serve] *)

Inductive ServeEvent :=
  | FatalReceived (error : option BuildProxyError)
  | Accepted (stream : result IoError unit).
(** A turn of the loop: the process ends, or a connection is handled or not. *)
Definition serve_turn (event : ServeEvent) : result BuildProxyError bool :=
  match event with
  | FatalReceived (Some error) => Err error
  | FatalReceived None => Ok false
  | Accepted (Err _) => Err BuildProxyIo
  | Accepted (Ok _) => Ok true
  end.
(** What a connection reports when it is done. *)
Definition serve_report (outcome : result BuildProxyError unit) : option BuildProxyError :=
  match outcome with
  | Err AggregateByteLimitExceeded => Some AggregateByteLimitExceeded
  | _ => None
  end.

(** ** Tunnels *)

(** One direction of a tunnel; [fetch_add] answers the counter before. *)
Inductive CopyCall :=
  | CopyRead (tunnel : nat)
  | AddTunnel (tunnel : nat) (read : Z)
  | AddTotal (read : Z)
  | CopyWrite (tunnel : nat) (content : list byte)
  | CopyShutdown
  | CopyActivity.
Definition copy_answer (c : CopyCall) : Type :=
  match c with
  | CopyRead _ => result IoError (list byte)
  | AddTunnel _ _ | AddTotal _ => Z
  | CopyWrite _ _ | CopyShutdown => result IoError unit
  | CopyActivity => unit
  end.

Definition COPY_BUFFER : Z := 16 * 1024.
Definition u64_add (a b : Z) : Z := (a + b) mod 2 ^ 64.

(** [select!] and [try_join!] drop a direction when the other failed or the tunnel
    was idle too long: after any number of [turns]. *)
Fixpoint copy_limited (turns : nat) (limits : ProxyLimits) (tunnel : nat) :
    prog copy_answer (result BuildProxyError unit) :=
  match turns with
  | O => Ret (Err IdleTimeout)
  | S turns =>
      content ←? prog_map_err (λ _, BuildProxyIo) (call (CopyRead tunnel));
      if zlen content =? 0 then
        prog_map_err (λ _, BuildProxyIo) (call CopyShutdown) ;;?
        Ret (Ok tt)
      else
        let read := zlen content in
        before ← call (AddTunnel tunnel read);
        if max_tunnel_bytes limits <? u64_add before read then Ret (Err TunnelByteLimitExceeded)
        else
          before ← call (AddTotal read);
          if max_total_bytes limits <? u64_add before read then Ret (Err AggregateByteLimitExceeded)
          else
            prog_map_err (λ _, BuildProxyIo) (call (CopyWrite tunnel content)) ;;?
            _ ← call CopyActivity;
            copy_limited turns limits tunnel
  end.

(** The counters, and how many bytes were passed on: in each tunnel and in all. *)
Record ProxyMemory := mkProxyMemory {
  tunnel_bytes : nat → Z;
  total_bytes : Z;
  tunnel_sent : nat → Z;
  total_sent : Z;
}.
Definition proxy_memory0 : ProxyMemory := mkProxyMemory (λ _, 0) 0 (λ _, 0) 0.

Definition bump (tunnel : nat) (n : Z) (f : nat → Z) : nat → Z :=
  λ t, if (t =? tunnel)%nat then n else f t.

Inductive copy_sem : ∀ c, ProxyMemory → copy_answer c → ProxyMemory → Prop :=
| sem_read tunnel m r :
    (∀ content, r = Ok content → zlen content ≤ COPY_BUFFER) → copy_sem (CopyRead tunnel) m r m
| sem_tunnel tunnel read m :
    copy_sem (AddTunnel tunnel read) m (tunnel_bytes m tunnel)
      (mkProxyMemory (bump tunnel (u64_add (tunnel_bytes m tunnel) read) (tunnel_bytes m)) (total_bytes m)
         (tunnel_sent m) (total_sent m))
| sem_total read m :
    copy_sem (AddTotal read) m (total_bytes m)
      (mkProxyMemory (tunnel_bytes m) (u64_add (total_bytes m) read) (tunnel_sent m) (total_sent m))
(** a write that fails may have passed on part of the content *)
| sem_write tunnel content m r sent :
    0 ≤ sent ≤ zlen content →
    copy_sem (CopyWrite tunnel content) m r
      (mkProxyMemory (tunnel_bytes m) (total_bytes m)
         (bump tunnel (tunnel_sent m tunnel + sent) (tunnel_sent m)) (total_sent m + sent))
| sem_shutdown m r : copy_sem CopyShutdown m r m
| sem_activity m r : copy_sem CopyActivity m r m.

(** The directions of the tunnels. *)
Definition copy_task (limits : ProxyLimits) (p : prog copy_answer unit) : Prop :=
  ∃ turns tunnel, p = (_ ← copy_limited turns limits tunnel; Ret tt).

(** ** The two address filters *)

Lemma unspecified_zero a : ipv4_is_unspecified a = true → (o0 a =? 0) = true.
Proof. unfold ipv4_is_unspecified, octets. intros [= Ha _ _ _]%eqb_eq. by apply Z.eqb_eq. Qed.
Lemma broadcast_high a : ipv4_is_broadcast a = true → (o0 a <? 240) = false.
Proof. unfold ipv4_is_broadcast, octets. intros [= Ha _ _ _]%eqb_eq. apply Z.ltb_ge. lia. Qed.

Ltac split_bit g :=
  destruct g; cbn [negb]; rewrite ?andb_false_r, ?orb_true_r, ?andb_true_r, ?orb_false_r; cbn [negb andb orb];
  [by rewrite ?andb_false_r, ?orb_true_r|].
Lemma global_v4 a : is_global_v4 a = is_global_ipv4 a.
Proof.
  unfold is_global_v4, is_global_ipv4, ipv4_is_documentation, ipv4_is_link_local, ipv4_is_loopback.
  pose proof (unspecified_zero a) as Hu. pose proof (broadcast_high a) as Hb.
  rewrite Z.geb_leb, (Z.leb_antisym (o0 a) 240), andb_orb_distrib_r.
  destruct (ipv4_is_unspecified a); [rewrite Hu by done; simpl; by rewrite ?andb_false_r|]. clear Hu.
  destruct (ipv4_is_broadcast a); [rewrite Hb by done; simpl; by rewrite ?andb_false_r, ?orb_true_r|]. clear Hb.
  split_bit (ipv4_is_private a). split_bit (ipv4_is_multicast a). split_bit (o0 a =? 127). split_bit (o0 a =? 0).
  split_bit ((o0 a =? 169) && (o1 a =? 254)). split_bit ((o0 a =? 100) && ((64 <=? o1 a) && (o1 a <=? 127))).
  split_bit ((o0 a =? 192) && (o1 a =? 0) && (o2 a =? 0)). split_bit ((o0 a =? 192) && (o1 a =? 0) && (o2 a =? 2)).
  split_bit ((o0 a =? 198) && (o1 a =? 18)). split_bit ((o0 a =? 198) && (o1 a =? 19)).
  split_bit ((o0 a =? 198) && (o1 a =? 51) && (o2 a =? 100)). split_bit ((o0 a =? 203) && (o1 a =? 0) && (o2 a =? 113)).
  by destruct (o0 a <? 240).
Qed.

(** The addresses the two filters judge differently: IPv4-compatible addresses,
    and the blocks 2001::/23, 2002::/16 and 3fff::/20. *)
Definition filters_differ (a : IpAddr) : bool :=
  match a with
  | V4 _ => false
  | V6 a =>
      eqb (take 6 (segments a)) [0; 0; 0; 0; 0; 0]
        && is_global_ipv4 (mkIpv4Addr (s6 a / 256) (s6 a mod 256) (s7 a / 256) (s7 a mod 256))
      || (s0 a =? 0x2001) && (Z.land (s1 a) 0xfe00 =? 0)
      || (s0 a =? 0x2002)
      || (s0 a =? 0x3fff) && (Z.land (s1 a) 0xf000 =? 0)
  end.

Lemma segments_six a0 a1 a2 a3 a4 a5 x :
  eqb [a0; a1; a2; a3; a4; a5] [0; 0; 0; 0; 0; x] = eqb [a0; a1; a2; a3; a4] [0; 0; 0; 0; 0] && (a5 =? x).
Proof. apply eq_true_iff_eq. rewrite andb_true_iff, !eqb_eq, Z.eqb_eq. naive_solver. Qed.

Lemma global_v6 a : is_global_v6 a = xorb (is_global_ipv6 a) (filters_differ (V6 a)).
Proof.
  unfold is_global_v6, is_global_ipv6, to_ipv4, to_ipv4_mapped, filters_differ.
  destruct a as [a0 a1 a2 a3 a4 a5 a6 a7]. cbn [take segments s0 s1 s2 s3 s4 s5 s6 s7].
  rewrite !segments_six. destruct (eqb [a0; a1; a2; a3; a4] [0; 0; 0; 0; 0]) eqn:E5; cbn [andb orb].
  - apply eqb_eq in E5 as [= -> -> -> -> ->]. change (0 =? 8193) with false. change (0 =? 8194) with false.
    change (0 =? 16383) with false. change (Z.land 0 57344 =? 8192) with false. cbn [andb orb negb].
    destruct (Z.eqb_spec a5 65535) as [->|Hne].
    + cbn. by rewrite global_v4, xorb_false_r.
    + rewrite orb_false_r. destruct (a5 =? 0); cbn [andb orb xorb]; [|done].
      by destruct (is_global_ipv4 _).
  - destruct (Z.eqb_spec a0 8193) as [->|H1]; [|destruct (Z.eqb_spec a0 8194) as [->|H2];
      [|destruct (Z.eqb_spec a0 16383) as [->|H3]]]; cbn [andb orb negb xorb]; rewrite ?orb_false_r.
    + change (Z.land 8193 57344 =? 8192) with true. cbn [andb].
      destruct (Z.eqb_spec a1 3512) as [->|Hd]; [done|]. rewrite orb_false_r. by destruct (Z.land a1 65024 =? 0).
    + done.
    + change (Z.land 16383 57344 =? 8192) with true. cbn [andb]. by destruct (Z.land a1 61440 =? 0).
    + by destruct (Z.land a0 57344 =? 8192).
Qed.

(** The filter of the build proxy and the one of the plugin proxy were written
    apart; they agree on every IPv4 address and on every IPv6 address outside the
    blocks of [filters_differ], where they disagree. *)
Theorem global_filters a : is_global a = xorb (is_global_address a) (filters_differ a).
Proof. destruct a as [a|a]; [|apply global_v6]. cbn. by rewrite global_v4, xorb_false_r. Qed.

(** ** Connections *)

(** What a connection knows: its permit, what the client sent, what the registry's
    name resolved to, and whether the registry is connected. *)
Record TunnelGhost := mkTunnelGhost {
  tg_permit : bool;
  tg_read : list byte;
  tg_resolved : list IpAddr;
  tg_connected : bool;
}.
Definition tunnel_ghost0 : TunnelGhost := mkTunnelGhost false [] [] false.

Definition tunnel_allowed (limits : ProxyLimits) (g : TunnelGhost) (c : TunnelCall) : Prop :=
  match c with
  | TryAcquireTunnel => tg_permit g = false
  | ReleaseTunnel => tg_permit g = true
  | ClientRead => tg_permit g = true ∧ tg_connected g = false ∧ header_end (tg_read g) = false ∧
      zlen (tg_read g) ≤ Z.max 0 (max_header_bytes limits)
  | ClientWrite content => is_prefix (bytes "HTTP/1.1 200") content = true → tg_connected g = true
  | RegistryResolve host => tg_permit g = true ∧ host = REGISTRY_HOST ∧
      parse_request (tg_read g) = Ok (mkParsedRequest "CONNECT" REGISTRY_AUTHORITY "HTTP/1.1")
  | RegistryConnect address port => tg_permit g = true ∧ tg_connected g = false ∧ port = 443 ∧
      address ∈ tg_resolved g ∧ Forall (λ a, is_global a = true) (tg_resolved g)
  | Transfer => tg_permit g = true ∧ tg_connected g = true
  end.
Definition tunnel_next (g : TunnelGhost) (c : TunnelCall) : tunnel_answer c → TunnelGhost :=
  match c with
  | TryAcquireTunnel => λ r : bool, mkTunnelGhost r (tg_read g) (tg_resolved g) (tg_connected g)
  | ReleaseTunnel => λ _, mkTunnelGhost false (tg_read g) (tg_resolved g) (tg_connected g)
  | ClientRead => λ r : result IoError (option byte),
      match r with
      | Ok (Some b) => mkTunnelGhost (tg_permit g) (tg_read g ++ [b]) (tg_resolved g) (tg_connected g)
      | _ => g
      end
  | RegistryResolve _ => λ r : result IoError (list IpAddr),
      match r with
      | Ok addresses => mkTunnelGhost (tg_permit g) (tg_read g) addresses (tg_connected g)
      | Err _ => g
      end
  | RegistryConnect _ _ => λ r : result IoError unit,
      match r with
      | Ok _ => mkTunnelGhost (tg_permit g) (tg_read g) (tg_resolved g) true
      | Err _ => g
      end
  | _ => λ _, g
  end.
Definition tunnel_protocol (limits : ProxyLimits) : protocol tunnel_answer TunnelGhost :=
  mkProtocol (tunnel_allowed limits) (λ _ _ _, True) tunnel_next.

Lemma read_header_wp limits turns header :
  zlen header ≤ Z.max 0 (max_header_bytes limits) →
  wp (tunnel_protocol limits) (read_header turns (max_header_bytes limits) header)
    (λ r g, ∃ read, g = mkTunnelGhost true read [] false ∧ ∀ header, r = Ok header → header = read)
    (mkTunnelGhost true header [] false).
Proof.
  revert header. induction turns as [|turns IH]; intros header Hl; cbn [read_header];
    (destruct (header_end header) eqn:He; [exists header; split; [done|by intros ? [= <-]]|]).
  - exists header. by split.
  - repeat wp_step; try (eexists; by split).
    match goal with H : (_ <? _) = false |- _ => apply Z.ltb_ge in H end. apply IH. lia.
Qed.

Lemma all_global addresses :
  existsb (λ address, negb (is_global address)) addresses = false → Forall (λ a, is_global a = true) addresses.
Proof.
  induction addresses as [|a l IH]; simpl; [done|]. intros [Ha%negb_false_iff Hl]%orb_false_iff.
  constructor; [done|by apply IH].
Qed.

(** A write that promises no tunnel. *)
Lemma client_write_wp limits content g (Q : result BuildProxyError unit → TunnelGhost → Prop) :
  (is_prefix (bytes "HTTP/1.1 200") content = true → tg_connected g = true) → (∀ r, Q r g) →
  wp (tunnel_protocol limits) (client_write content) Q g.
Proof. intros Hc HQ. unfold client_write. repeat wp_step; [done|apply HQ..]. Qed.

Lemma handle_request_wp limits :
  wp (tunnel_protocol limits) (handle_request limits) (λ _ g, tg_permit g = true)
    (mkTunnelGhost true [] [] false).
Proof.
  unfold handle_request, read_request, write_status. wp_step. wp_step.
  eapply wp_mono, read_header_wp; [|unfold zlen; simpl; lia]. intros r g (read & -> & Hr).
  assert (∀ e, wp (tunnel_protocol limits)
    match e with
    | HeaderTooLarge => write_status "431 Request Header Fields Too Large" ;;? Ret (Err HeaderTooLarge)
    | _ => Ret (Err e)
    end (λ (_ : result BuildProxyError unit) g, tg_permit g = true) (mkTunnelGhost true read [] false)) as Herr.
  { intros e. destruct e; try done. wp_step. by apply client_write_wp; [|intros [[]|]]. }
  destruct r as [header|e]; [|apply Herr]. rewrite (Hr _ eq_refl). wp_step.
  destruct (parse_request read) as [request|e] eqn:Hp; [|apply Herr].
  destruct (_ || _) eqn:Hreq; [by apply client_write_wp|].
  assert (request = mkParsedRequest "CONNECT" REGISTRY_AUTHORITY "HTTP/1.1") as ->.
  { destruct request. bool_prop. simpl in *. by subst. }
  wp_step. wp_step. wp_step; [done| |done].
  destruct r as [|address addresses]; [by apply client_write_wp|].
  destruct (existsb _ _) eqn:Hg; [by apply client_write_wp|]. apply all_global in Hg.
  wp_step. wp_step; [split_and!; [done..|by left|done]| |].
  - wp_step. apply client_write_wp; [done|]. intros [[]|]; [|done]. by wp_step.
  - wp_step. by apply client_write_wp; [|intros [[]|]].
Qed.

(** C20. A connection to the build proxy keeps to this whatever the client and the
    network do: it reads at most the header limit and one byte, and only with a permit;
    it resolves the registry's name only after a [CONNECT] request for the registry
    in HTTP/1.1, connects only to port 443 of one of the addresses it resolved to, if
    all of them are global, says 200 and copies only when connected; and the permit is
    returned however it ends. *)
Theorem tunnel_keeps_rules limits :
  wp (tunnel_protocol limits) (handle_stream limits) (λ _ g, tg_permit g = false) tunnel_ghost0.
Proof.
  unfold handle_stream. wp_step. wp_step; [done|]. destruct r; cbn [negb].
  - wp_step. eapply wp_mono, handle_request_wp. intros r g Hg. by repeat wp_step.
  - wp_step. by apply client_write_wp; [|intros [[]|]].
Qed.

(** ** The counters *)

(** Where a direction of a tunnel stands with the bytes it has read: not counted,
    counted in the tunnel, counted in all and on their way; or it has stopped at a
    limit. *)
Inductive CopyState :=
  | CopyIdle
  | CopyHas (tunnel : nat) (read : Z)
  | CopyCounted (tunnel : nat) (read : Z)
  | CopyCleared (tunnel : nat) (read : Z)
  | CopyStopped.

Section counters.
Context (limits : ProxyLimits).

Definition copy_allowed (g : CopyState) (c : CopyCall) : Prop :=
  match c with
  | CopyRead _ => g = CopyIdle
  | AddTunnel tunnel read => g = CopyHas tunnel read ∧ 0 ≤ read ≤ COPY_BUFFER
  | AddTotal read => (∃ tunnel, g = CopyCounted tunnel read) ∧ 0 ≤ read ≤ COPY_BUFFER
  | CopyWrite tunnel content => g = CopyCleared tunnel (zlen content)
  | CopyShutdown | CopyActivity => True
  end.
Definition copy_possible (c : CopyCall) : copy_answer c → Prop :=
  match c with
  | CopyRead _ => λ r : result IoError (list byte), ∀ content, r = Ok content → zlen content ≤ COPY_BUFFER
  | _ => λ _, True
  end.
Definition copy_next (g : CopyState) (c : CopyCall) : copy_answer c → CopyState :=
  match c with
  | CopyRead tunnel => λ r : result IoError (list byte),
      match r with Ok content => CopyHas tunnel (zlen content) | Err _ => CopyIdle end
  | AddTunnel tunnel read => λ before : Z,
      if max_tunnel_bytes limits <? u64_add before read then CopyStopped else CopyCounted tunnel read
  | AddTotal read => λ before : Z,
      match g with
      | CopyCounted tunnel _ =>
          if max_total_bytes limits <? u64_add before read then CopyStopped else CopyCleared tunnel read
      | _ => CopyStopped
      end
  | CopyWrite _ _ => λ _, CopyIdle
  | CopyShutdown | CopyActivity => λ _, g
  end.
Definition copy_protocol : protocol copy_answer CopyState :=
  mkProtocol copy_allowed (λ _, copy_possible) copy_next.

Lemma copy_limited_wp turns tunnel :
  wp copy_protocol (copy_limited turns limits tunnel) (λ _ _, True) CopyIdle.
Proof.
  induction turns as [|turns IH]; cbn [copy_limited]; [done|].
  wp_step. wp_step. wp_step; [done| |done]. pose proof (Hr r eq_refl) as Hlen. cbn [next copy_protocol copy_next].
  destruct (zlen r =? 0); [by repeat wp_step|].
  wp_step. wp_step; [split; [done|unfold zlen in *; lia]|]. cbn [next copy_protocol copy_next].
  destruct (max_tunnel_bytes limits <? _); [done|].
  wp_step. wp_step; [split; [by exists tunnel|unfold zlen in *; lia]|]. cbn [next copy_protocol copy_next].
  destruct (max_total_bytes limits <? _); [done|].
  wp_step. wp_step. wp_step; [done| |done]. cbn [next copy_protocol copy_next]. by repeat wp_step.
Qed.

(** *** Sums over the directions *)

Lemma sum_insert {A} (f : A → Z) l i x y :
  l !! i = Some x → sum_list_with_Z f (<[i := y]> l) = sum_list_with_Z f l - f x + f y.
Proof.
  revert i. induction l as [|z l IH]; intros [|i] H; simplify_eq/=; [lia|]. rewrite IH by done. lia.
Qed.
Lemma sum_snoc {A} (f : A → Z) l x : sum_list_with_Z f (l ++ [x]) = sum_list_with_Z f l + f x.
Proof. induction l as [|y l IH]; simpl; [lia|]. rewrite IH. lia. Qed.
Lemma sum_below {A} (f : A → Z) l i x :
  (∀ x, f x ≤ 1) → l !! i = Some x → f x = 0 → sum_list_with_Z f l ≤ zlen l - 1.
Proof.
  intros Hf. assert (∀ l, sum_list_with_Z f l ≤ zlen l) as Hl.
  { intros k. induction k as [|y k IH]; unfold zlen in *; simpl; [lia|]. specialize (Hf y). lia. }
  revert i. induction l as [|y l IH]; intros [|i] H Hx; simplify_eq/=.
  - specialize (Hl l). unfold zlen in *. simpl. lia.
  - specialize (IH i H Hx). specialize (Hf y). unfold zlen in *. simpl. lia.
Qed.

(** Bytes on their way, in all and in a tunnel; the directions that stopped. *)
Definition cleared (g : CopyState) : Z := match g with CopyCleared _ read => read | _ => 0 end.
Definition counted (tunnel : nat) (g : CopyState) : Z :=
  match g with
  | CopyCounted t read | CopyCleared t read => if (t =? tunnel)%nat then read else 0
  | _ => 0
  end.
Definition stopped (g : CopyState) : Z := match g with CopyStopped => 1 | _ => 0 end.

Definition copy_wf (g : CopyState) : Prop :=
  match g with CopyHas _ read | CopyCounted _ read | CopyCleared _ read => 0 ≤ read | _ => True end.

Lemma sum_nonneg (f : CopyState → Z) gs :
  (∀ g, copy_wf g → 0 ≤ f g) → Forall copy_wf gs → 0 ≤ sum_list_with_Z f gs.
Proof. intros Hf. induction 1 as [|g gs Hg Hgs IH]; simpl; [lia|]. specialize (Hf g Hg). lia. Qed.
Lemma cleared_nonneg g : copy_wf g → 0 ≤ cleared g.
Proof. destruct g; simpl; lia. Qed.
Lemma counted_nonneg t g : copy_wf g → 0 ≤ counted t g.
Proof. destruct g; simpl; try lia; intros; destruct (_ =? _)%nat; lia. Qed.

(** A counter is at least what was passed on and what is on its way, which keep
    to the limit; it exceeds the limit by a buffer for each direction that stopped. *)
Record counter_inv (counter sent pending limit halted : Z) : Prop := {
  ctr_counter : 0 ≤ counter;
  ctr_covers : sent + pending ≤ counter;
  ctr_limit : sent + pending ≤ limit;
  ctr_over : counter ≤ limit + COPY_BUFFER * halted;
  ctr_halted : 0 ≤ halted;
}.

(** Counting within the limit, counting beyond it, and passing on. *)
Lemma counter_add counter sent pending limit halted read :
  0 ≤ read ≤ COPY_BUFFER → counter_inv counter sent pending limit halted →
  limit + COPY_BUFFER * (halted + 1) < 2 ^ 64 →
  u64_add counter read = counter + read ∧
  (counter + read ≤ limit → counter_inv (counter + read) sent (pending + read) limit halted) ∧
  counter_inv (counter + read) sent pending limit (halted + 1).
Proof.
  intros Hr [H1 H2 H3 H4 H5] Hmax. unfold u64_add. rewrite Z.mod_small by (unfold COPY_BUFFER in *; lia).
  split; [done|]. split; [intros Hl|]; constructor; unfold COPY_BUFFER in *; lia.
Qed.
Lemma counter_less counter sent pending pending' limit halted halted' :
  pending' ≤ pending → halted ≤ halted' →
  counter_inv counter sent pending limit halted → counter_inv counter sent pending' limit halted'.
Proof. intros Hp Hh [H1 H2 H3 H4 H5]. constructor; unfold COPY_BUFFER in *; lia. Qed.
Lemma counter_pass counter sent pending limit halted read part :
  0 ≤ part ≤ read → counter_inv counter sent pending limit halted →
  counter_inv counter (sent + part) (pending - read) limit halted.
Proof. intros Hp [H1 H2 H3 H4 H5]. constructor; lia. Qed.

Record proxy_holds (m : ProxyMemory) (gs : list CopyState) : Prop := {
  prx_wf : Forall copy_wf gs;
  prx_total : counter_inv (total_bytes m) (total_sent m) (sum_list_with_Z cleared gs) (max_total_bytes limits)
    (sum_list_with_Z stopped gs);
  prx_tunnel t : counter_inv (tunnel_bytes m t) (tunnel_sent m t) (sum_list_with_Z (counted t) gs)
    (max_tunnel_bytes limits) (sum_list_with_Z stopped gs);
}.

Context (n : Z).
Hypothesis Htotal : max_total_bytes limits + COPY_BUFFER * n < 2 ^ 64.
Hypothesis Htunnel : max_tunnel_bytes limits + COPY_BUFFER * n < 2 ^ 64.

(** A direction takes a step that changes neither its place in the sums nor the
    memory. *)
Lemma proxy_keep m gs i g g' :
  gs !! i = Some g → copy_wf g' → cleared g' = cleared g → (∀ t, counted t g' = counted t g) →
  stopped g' = stopped g → proxy_holds m gs → proxy_holds m (<[i := g']> gs).
Proof.
  intros Hi Hw Hc Ht Hs [H1 H2 H3]. split; [by apply Forall_insert|..].
  - by rewrite !(sum_insert _ _ _ _ _ Hi), Hc, Hs, !Z.sub_add.
  - intros t. by rewrite !(sum_insert _ _ _ _ _ Hi), Ht, Hs, !Z.sub_add.
Qed.

Lemma stopped_room gs i g : gs !! i = Some g → stopped g = 0 → zlen gs ≤ n → sum_list_with_Z stopped gs + 1 ≤ n.
Proof.
  intros Hi Hg Hn. assert (sum_list_with_Z stopped gs ≤ zlen gs - 1); [|lia].
  by eapply sum_below; [|done..]; intros []; simpl; lia.
Qed.

Lemma add_tunnel_holds m gs i tunnel read :
  zlen gs ≤ n → gs !! i = Some (CopyHas tunnel read) → 0 ≤ read ≤ COPY_BUFFER → proxy_holds m gs →
  proxy_holds
    (mkProxyMemory (bump tunnel (u64_add (tunnel_bytes m tunnel) read) (tunnel_bytes m)) (total_bytes m)
       (tunnel_sent m) (total_sent m))
    (<[i := copy_next (CopyHas tunnel read) (AddTunnel tunnel read) (tunnel_bytes m tunnel)]> gs).
Proof.
  intros Hn Hi Hr [H1 H2 H3]. pose proof (stopped_room gs i _ Hi eq_refl Hn) as Hroom.
  destruct (counter_add _ _ _ _ _ read Hr (H3 tunnel) ltac:(unfold COPY_BUFFER in *; lia)) as (Hadd & Hin & Hover).
  cbn [copy_next]. rewrite Hadd. destruct (_ <? _) eqn:Hlt.
  - split; [by apply Forall_insert|..]; cbn; rewrite !(sum_insert _ _ _ _ _ Hi); cbn.
    + eapply counter_less; [..|exact H2]; lia.
    + intros t. rewrite !(sum_insert _ _ _ _ _ Hi). cbn. unfold bump. destruct (Nat.eqb_spec t tunnel) as [->|Hne].
      * eapply counter_less; [..|exact Hover]; lia.
      * eapply counter_less; [..|exact (H3 t)]; lia.
  - apply Z.ltb_ge in Hlt. split; [apply Forall_insert; [done|cbn; lia]|..]; cbn; rewrite !(sum_insert _ _ _ _ _ Hi); cbn.
    + eapply counter_less; [..|exact H2]; lia.
    + intros t. rewrite !(sum_insert _ _ _ _ _ Hi). cbn. unfold bump. rewrite (Nat.eqb_sym tunnel t).
      destruct (Nat.eqb_spec t tunnel) as [->|Hne].
      * eapply counter_less; [..|exact (Hin Hlt)]; lia.
      * eapply counter_less; [..|exact (H3 t)]; lia.
Qed.

Lemma add_total_holds m gs i tunnel read :
  zlen gs ≤ n → gs !! i = Some (CopyCounted tunnel read) → 0 ≤ read ≤ COPY_BUFFER → proxy_holds m gs →
  proxy_holds (mkProxyMemory (tunnel_bytes m) (u64_add (total_bytes m) read) (tunnel_sent m) (total_sent m))
    (<[i := copy_next (CopyCounted tunnel read) (AddTotal read) (total_bytes m)]> gs).
Proof.
  intros Hn Hi Hr [H1 H2 H3]. pose proof (stopped_room gs i _ Hi eq_refl Hn) as Hroom.
  destruct (counter_add _ _ _ _ _ read Hr H2 ltac:(unfold COPY_BUFFER in *; lia)) as (Hadd & Hin & Hover).
  cbn [copy_next]. rewrite Hadd. destruct (_ <? _) eqn:Hlt.
  - split; [by apply Forall_insert|..]; cbn.
    + rewrite !(sum_insert _ _ _ _ _ Hi). cbn. eapply counter_less; [..|exact Hover]; lia.
    + intros t. rewrite !(sum_insert _ _ _ _ _ Hi). cbn. eapply counter_less; [..|exact (H3 t)]; [|lia].
      destruct (_ =? _)%nat; lia.
  - apply Z.ltb_ge in Hlt. split; [apply Forall_insert; [done|cbn; lia]|..]; cbn.
    + rewrite !(sum_insert _ _ _ _ _ Hi). cbn. eapply counter_less; [..|exact (Hin Hlt)]; lia.
    + intros t. rewrite !(sum_insert _ _ _ _ _ Hi). cbn. eapply counter_less; [..|exact (H3 t)]; lia.
Qed.

Lemma write_holds m gs i tunnel (content : list byte) sent :
  gs !! i = Some (CopyCleared tunnel (zlen content)) → 0 ≤ sent ≤ zlen content → proxy_holds m gs →
  proxy_holds
    (mkProxyMemory (tunnel_bytes m) (total_bytes m)
       (bump tunnel (tunnel_sent m tunnel + sent) (tunnel_sent m)) (total_sent m + sent))
    (<[i := CopyIdle]> gs).
Proof.
  intros Hi Hs [H1 H2 H3]. split; [by apply Forall_insert|..]; cbn.
  - rewrite !(sum_insert _ _ _ _ _ Hi). cbn. rewrite Z.add_0_r, Z.sub_0_r, Z.add_0_r. by apply counter_pass.
  - intros t. rewrite !(sum_insert _ _ _ _ _ Hi). cbn. rewrite Z.add_0_r, Z.sub_0_r, Z.add_0_r. unfold bump.
    rewrite (Nat.eqb_sym tunnel t). destruct (Nat.eqb_spec t tunnel) as [->|Hne]; [by apply counter_pass|].
    by rewrite Z.sub_0_r.
Qed.

Definition proxy_inv (m : ProxyMemory) (gs : list CopyState) : Prop := zlen gs ≤ n → proxy_holds m gs.

Lemma proxy_step m gs i g c r m' :
  proxy_inv m gs → gs !! i = Some g → copy_allowed g c → copy_sem c m r m' →
  copy_possible c r ∧ proxy_inv m' (<[i := copy_next g c r]> gs).
Proof.
  intros HI Hi Ha Hsem. revert Ha. unfold proxy_inv, zlen in *. rewrite length_insert.
  destruct Hsem as [tunnel m r Hr|tunnel read m|read m|tunnel content m r sent Hs|m r|m r]; intros Ha; cbn in Ha.
  - subst g. split; [done|]. intros Hn. eapply proxy_keep; [exact Hi|..|by apply HI]; cbn; destruct r; try done.
    unfold zlen. simpl. lia.
  - destruct Ha as [-> Hr]. split; [done|]. intros Hn. by apply add_tunnel_holds; [..|apply HI].
  - destruct Ha as [(tunnel & ->) Hr]. split; [done|]. intros Hn. by apply add_total_holds; [..|apply HI].
  - subst g. split; [done|]. intros Hn. apply (write_holds m gs i tunnel content sent); [done|done|by apply HI].
  - split; [done|]. intros Hn. rewrite list_insert_id by done. by apply HI.
  - split; [done|]. intros Hn. rewrite list_insert_id by done. by apply HI.
Qed.
End counters.

(** C21. However the two directions of any number of tunnels interleave, the proxy
    passes on at most [max_tunnel_bytes] bytes in a tunnel, both directions together,
    and at most [max_total_bytes] in all, although counting and passing on are
    separate steps and the counters are 64-bit words that wrap around. The counters
    are big enough for [zlen ps] directions: for the default limits, 2^49 of them. *)
Theorem tunnels_bounded limits ps m :
  max_total_bytes limits + COPY_BUFFER * zlen ps < 2 ^ 64 →
  max_tunnel_bytes limits + COPY_BUFFER * zlen ps < 2 ^ 64 →
  0 ≤ max_total_bytes limits → 0 ≤ max_tunnel_bytes limits →
  rtc (pool_step copy_sem (copy_task limits)) ([], proxy_memory0) (ps, m) →
  total_sent m ≤ max_total_bytes limits ∧ ∀ tunnel, tunnel_sent m tunnel ≤ max_tunnel_bytes limits.
Proof.
  intros Htotal Htunnel Hm1 Hm2 Hrun.
  destruct (pool_invariant copy_sem (copy_task limits) (copy_protocol limits) CopyIdle
    (proxy_inv limits (zlen ps)) (λ _ _, True)) with (s := proxy_memory0) (ps' := ps) (s' := m) as [_ HI].
  - intros p (turns & tunnel & ->). wp_step. eapply wp_mono, copy_limited_wp. done.
  - intros s gs HI Hn. unfold zlen in *. rewrite length_app in Hn. simpl in Hn.
    destruct HI as [H1 H2 H3]; [unfold zlen; lia|]. split; [by apply Forall_app; split; [|constructor]|..].
    + by rewrite !sum_snoc, !Z.add_0_r.
    + intros t. by rewrite !sum_snoc, !Z.add_0_r.
  - intros s gs i g c r s'. by apply proxy_step.
  - intros _. split; [constructor|..]; cbn; intros; constructor; lia.
  - done.
  - destruct HI as [Hw [_ _ Ht _ _] Hs]; [unfold zlen; by rewrite length_fmap|]. split.
    + pose proof (sum_nonneg cleared _ cleared_nonneg Hw). lia.
    + intros tunnel. destruct (Hs tunnel) as [_ _ Hl _ _].
      pose proof (sum_nonneg (counted tunnel) _ (counted_nonneg tunnel) Hw). lia.
Qed.
