(* ===== verification/Concrete.v ===== *)
(** * Concrete instances of the third-party interfaces

    One small executable instance of every interface to code outside the
    repository, with its laws.  They show that the laws can hold together and are
    what the witnesses evaluate; no property is about them. *)

From S2P Require Import Prelude Text Domain ContentContract Foreign CredentialContract Cursor Dedup.
From S2P Require Import Router Std Policy HttpProxy CredentialSecret CookieJar CredentialProxy.
From S2P Require Import Crypto Stateful Vault Database SqliteVault VaultProps ProxyGateway.
From S2P Require Import ProxyGatewayProps ProxyBackend.

(** ** base64 and SHA-256: the bytes followed by filler *)

Definition toy_encode (l : list byte) : string :=
  str (l ++ replicate ((length l + 2) / 3) "="%char).
Definition toy_decode (s : string) : option (list byte) :=
  Some (take (String.length s - (String.length s + 2) / 4) (bytes s)).

Definition toy_encoding : Encoding := {|
  b64_encode := toy_encode; b64_decode := toy_decode; sha256 := take 32 |}.

Lemma toy_encoding_laws : EncodingLaws toy_encoding.
Proof.
  split; intros l; simpl; unfold toy_decode, toy_encode.
  - f_equal. rewrite <- length_bytes, bytes_str, length_app, length_replicate.
    set (n := length l).
    replace (n + (n + 2) / 3 - (n + (n + 2) / 3 + 2) / 4)%nat with n.
    { apply take_app_length. }
    assert (∃ q r, n = (3 * q + r)%nat ∧ (r < 3)%nat) as (q & r & -> & Hr).
    { exists (n / 3)%nat, (n mod 3)%nat. split; [apply Nat.div_mod; lia|].
      apply Nat.mod_upper_bound. lia. }
    destruct r as [|[|[|r]]]; [| | |lia].
    + replace ((3 * q + 0 + 2) / 3)%nat with q
        by (apply (Nat.div_unique _ _ _ 2); lia).
      replace ((3 * q + 0 + q + 2) / 4)%nat with q
        by (apply (Nat.div_unique _ _ _ 2); lia). lia.
    + replace ((3 * q + 1 + 2) / 3)%nat with (S q)
        by (apply (Nat.div_unique _ _ _ 0); lia).
      replace ((3 * q + 1 + S q + 2) / 4)%nat with (S q)
        by (apply (Nat.div_unique _ _ _ 0); lia). lia.
    + replace ((3 * q + 2 + 2) / 3)%nat with (S q)
        by (apply (Nat.div_unique _ _ _ 1); lia).
      replace ((3 * q + 2 + S q + 2) / 4)%nat with (S q)
        by (apply (Nat.div_unique _ _ _ 1); lia). lia.
  - rewrite str_len_bytes, bytes_str. unfold zlen.
    rewrite length_app, length_replicate, Nat2Z.inj_add, Nat2Z.inj_div, Nat2Z.inj_add.
    Z.to_euclidean_division_equations. lia.
Qed.

(** ** JSON: the bits of stdpp's encodings *)

Fixpoint bits_of (p : positive) : list byte :=
  match p with
  | xH => []
  | xO p => "0"%char :: bits_of p
  | xI p => "1"%char :: bits_of p
  end.
Fixpoint of_bits (l : list byte) : positive :=
  match l with
  | [] => xH
  | c :: l => if eqb c "0"%char then xO (of_bits l) else xI (of_bits l)
  end.
Lemma of_bits_of p : of_bits (bits_of p) = p.
Proof. by induction p as [p IH|p IH|]; simpl; rewrite ?IH. Qed.

Global Instance SourceCursor_countable : Countable SourceCursor :=
  inj_countable' (λ s, (SourceCursor_platform_id s, SourceCursor_plugin_id s, SourceCursor_cursor s))
    (λ '(a, b, c), mkSourceCursor a b c) (λ '(mkSourceCursor _ _ _), eq_refl).
Global Instance CursorEnvelope_eq_dec : EqDecision CursorEnvelope.
Proof. solve_decision. Defined.
Global Instance CursorEnvelope_countable : Countable CursorEnvelope :=
  inj_countable' (λ e, (CursorEnvelope_version e, CursorEnvelope_fingerprint e,
                        CursorEnvelope_sources e))
    (λ '(a, b, c), mkCursorEnvelope a b c) (λ '(mkCursorEnvelope _ _ _), eq_refl).

Definition toy_fingerprint (f : BindingFingerprint) : list byte :=
  bits_of (encode (match fp_operation f with OpSearch => true | OpDiscover => false end,
                   fp_query f, fp_platform_id f, fp_plugin_id f)).

Definition toy_cursor_json : CursorJson := {|
  fingerprint_to_vec := λ f, Some (toy_fingerprint f);
  envelope_to_vec := λ e, Some (bits_of (encode e));
  envelope_from_slice := λ b, decode (of_bits b) |}.

Lemma toy_cursor_json_laws : CursorJsonLaws toy_cursor_json.
Proof.
  intros e b Hvec _ _. simpl in *. injection Hvec as <-. by rewrite of_bits_of, decode_encode.
Qed.

Inductive toy_value :=
| VSearchRequest (r : SearchRequest)
| VDiscoverRequest (r : DiscoverRequest)
| VCategoriesRequest
| VSearchResult (r : SearchResult)
| VDiscoverResult (r : DiscoverResult)
| VCategoriesResult (r : CategoriesResult)
| VErrorData (d : PluginErrorData).

Definition toy_content_json : ContentJson := {|
  Value := toy_value;
  search_request_to_value := λ r, Some (VSearchRequest r);
  discover_request_to_value := λ r, Some (VDiscoverRequest r);
  categories_request_to_value := λ _, Some VCategoriesRequest;
  search_result_from_value := λ v, match v with VSearchResult r => Some r | _ => None end;
  discover_result_from_value := λ v, match v with VDiscoverResult r => Some r | _ => None end;
  categories_result_from_value :=
    λ v, match v with VCategoriesResult r => Some r | _ => None end;
  error_data_from_value := λ v, match v with VErrorData d => Some d | _ => None end |}.

(** ** URLs: [scheme://host/path] *)

Record toy_url := mkToyUrl { toy_scheme : string; toy_host : string; toy_path : string }.
Global Instance toy_url_eq_dec : EqDecision toy_url.
Proof. solve_decision. Defined.

Definition toy_url_str (u : toy_url) : string :=
  toy_scheme u +:+ "://" +:+ toy_host u +:+ toy_path u.

Definition toy_url_rest (scheme : string) (rest : string) : option toy_url :=
  match split_once "/"%char rest with
  | Some (host, path) =>
      if str_is_empty host then None
      else Some (mkToyUrl scheme host ("/" +:+ path))
  | None => if str_is_empty rest then None else Some (mkToyUrl scheme rest "/")
  end.

Definition toy_url_parse (s : string) : option toy_url :=
  match strip_prefix s "https://", strip_prefix s "http://" with
  | Some rest, _ => toy_url_rest "https" rest
  | _, Some rest => toy_url_rest "http" rest
  | _, _ => None
  end.

Definition toy_url_join (u : toy_url) (s : string) : option toy_url :=
  if starts_with s "/" then Some (mkToyUrl (toy_scheme u) (toy_host u) s)
  else toy_url_parse s.

Definition toy_url_lib : UrlLib := {|
  Url := toy_url;
  Url_eq_dec := _;
  Url_parse := toy_url_parse;
  Url_as_str := toy_url_str;
  Url_scheme := toy_scheme;
  Url_username := λ _, "";
  Url_password := λ _, None;
  Url_host := λ u, Some (HostDomain (toy_host u));
  Url_host_str := λ u, Some (toy_host u);
  Url_path := toy_path;
  Url_query := λ _, None;
  Url_fragment := λ _, None;
  Url_port_or_known_default := λ u, Some (if eqb (toy_scheme u) "https" then 443 else 80);
  Url_origin := λ u, toy_scheme u +:+ "://" +:+ toy_host u;
  Url_join := toy_url_join |}.

(** ** Header maps: association lists *)

Definition visible_ascii (c : ascii) : bool := in_range 32 126 c || (code c =? 9).

Definition toy_headers : HeaderLib := {|
  HeaderValue := list byte;
  HeaderValue_as_bytes := id;
  HeaderValue_to_str := λ v, if forallb visible_ascii v then Some (str v) else None;
  HeaderValue_from_str := λ s, if str_all visible_ascii s then Some (bytes s) else None;
  HeaderMap := list (string * list byte);
  HeaderMap_new := [];
  HeaderMap_iter := id;
  HeaderMap_len := zlen;
  HeaderMap_keys := λ m, m.*1;
  HeaderMap_contains_key := λ m n, list_contains m.*1 n;
  HeaderMap_get_all := λ m n, (List.filter (λ e, eqb e.1 n) m).*2;
  HeaderMap_append := λ m n v, m ++ [(n, v)];
  HeaderMap_insert := λ m n v, (n, v) :: List.filter (λ e, negb (eqb e.1 n)) m |}.

Lemma toy_headers_laws : HeaderLaws toy_headers.
Proof.
  split; simpl; try done.
  - intros m n v. apply Permutation_sym, Permutation_cons_append.
  - intros m n. apply list_contains_elem.
  - intros v s Hs. case_match; [|done]. injection Hs as <-. by rewrite bytes_str.
  - intros s v Hs. case_match; [|done]. by injection Hs as <-.
Qed.

Definition toy_gzip : Gzip := {| gz_read := λ l limit, Some (take (Z.to_nat limit) l) |}.

(** ** A world: a resolver table and a list of scripted transport answers *)

Section toy_world.
Existing Instances toy_url_lib toy_headers.

Record toy_state := mkToyState {
  toy_resolver : StaticResolver;
  toy_script : list (result TransportError TransportResponse);
}.

Definition toy_world : World toy_state := {|
  requests_try_acquire := λ w, (true, w);
  deadline_elapsed := λ w, (false, w);
  semaphore_closed := λ w, (false, w);
  lock_poisoned := λ w, (false, w);
  join_failed := λ w, (false, w);
  world_resolver := λ w host,
    let '(answer, resolver) := resolve (toy_resolver w) host in
    (answer, mkToyState resolver (toy_script w));
  transport_execute := λ _ _ w,
    match toy_script w with
    | [] => (Err mkTransportError, w)
    | answer :: script => (answer, mkToyState (toy_resolver w) script)
    end |}.
End toy_world.

(** ** Secret payloads, again as bits *)

Global Instance CookiePayload_eq_dec : EqDecision CookiePayload.
Proof. solve_decision. Defined.
Global Instance CookiePayload_countable : Countable CookiePayload :=
  inj_countable'
    (λ c, (CookiePayload_name c, CookiePayload_value c, CookiePayload_host c, CookiePayload_path c,
           CookiePayload_secure c, CookiePayload_http_only c, CookiePayload_expires_at c))
    (λ '(a, b, c, d, e, f, g), mkCookiePayload a b c d e f g)
    (λ '(mkCookiePayload _ _ _ _ _ _ _), eq_refl).
Global Instance SecretPayload_eq_dec : EqDecision SecretPayload.
Proof. solve_decision. Defined.
Global Instance SecretPayload_countable : Countable SecretPayload.
Proof.
  refine (inj_countable'
    (λ p, match p with
          | PayloadCookie v cookies => inl (v, cookies)
          | PayloadToken v scheme value => inr (v, scheme, value)
          end)
    (λ x, match x with
          | inl (v, cookies) => PayloadCookie v cookies
          | inr (v, scheme, value) => PayloadToken v scheme value
          end) _).
  by intros [].
Defined.

Definition toy_secret_json : SecretJson := {|
  secret_to_vec := λ p, Some (bits_of (encode p));
  secret_from_slice := λ b, decode (of_bits b) |}.

Lemma toy_secret_json_laws : SecretJsonLaws toy_secret_json.
Proof. intros p b [= <-]. simpl. by rewrite of_bits_of, decode_encode. Qed.

(** ** Cookies: the first pair of the header, sent back to its host *)

Record toy_cookie := mkToyCookie {
  toy_cookie_name : string; toy_cookie_value : string; toy_cookie_host : string }.

Definition toy_raw_parse (s : string) : option (string * string) :=
  let front := match split_once ";"%char s with Some (front, _) => front | None => s end in
  split_once "="%char front.

Section toy_env.
Existing Instances toy_url_lib toy_headers toy_world.

Definition toy_cookie_lib : CookieLib := {|
  RawCookie := string * string;
  RawCookie_parse := toy_raw_parse;
  RawCookie_name := fst;
  RawCookie_value := snd;
  RawCookie_value_trimmed := λ raw, trim raw.2;
  RawCookie_domain := λ _, None;
  CookieDomain := string;
  CookieDomain_cmp := String.compare;
  CookieDomain_matches := λ host (url : @Url toy_url_lib), eqb host (toy_host url);
  StoredCookie := toy_cookie;
  StoredCookie_name := toy_cookie_name;
  StoredCookie_value := toy_cookie_value;
  StoredCookie_path := λ _, "/";
  StoredCookie_domain := toy_cookie_host;
  StoredCookie_secure := λ _, Some true;
  StoredCookie_http_only := λ _, Some true;
  StoredCookie_expires := λ _, None;
  CookieStore := list toy_cookie;
  CookieStore_default := [];
  CookieStore_insert_raw := λ _ raw (url : @Url toy_url_lib) store,
    (Ok tt, mkToyCookie raw.1 raw.2 (toy_host url) ::
            List.filter (λ c, negb (eqb (toy_cookie_name c) raw.1)) store);
  CookieStore_iter_unexpired := λ _ store, store;
  CookieStore_matches := λ _ store (url : @Url toy_url_lib),
    List.filter (λ c, eqb (toy_cookie_host c) (toy_host url)) store;
  psl_suffix := λ _, None;
  from_timestamp := λ seconds, Some (seconds * second) |}.
Existing Instance toy_cookie_lib.

(** ** An environment of the credential proxy: fixed clock and ports, and a
    script of what the other tasks do *)

Record toy_env_state := mkToyEnvState {
  env_http : toy_state;
  env_time : Clock;
  env_uuids : list Uuid;
  env_opened : result CredentialPortError (option OpenedCredential);
  env_replaced : result CredentialPortError CredentialMetadata;
  env_grant : result CredentialPortError (option ActiveGrantSnapshot);
  env_others : list (TemporaryCookieJars → TemporaryCookieJars);
}.

Definition set_http (w : toy_env_state) (http : toy_state) : toy_env_state :=
  mkToyEnvState http (env_time w) (env_uuids w) (env_opened w) (env_replaced w) (env_grant w)
    (env_others w).
Definition set_others (w : toy_env_state)
    (others : list (TemporaryCookieJars → TemporaryCookieJars)) : toy_env_state :=
  mkToyEnvState (env_http w) (env_time w) (env_uuids w) (env_opened w) (env_replaced w)
    (env_grant w) others.
Definition http_call {A} (f : toy_state → A * toy_state) (w : toy_env_state) :
    A * toy_env_state := let '(a, http) := f (env_http w) in (a, set_http w http).

Definition toy_env_world : World toy_env_state := {|
  requests_try_acquire := http_call requests_try_acquire;
  deadline_elapsed := http_call deadline_elapsed;
  semaphore_closed := http_call semaphore_closed;
  lock_poisoned := http_call lock_poisoned;
  join_failed := http_call join_failed;
  world_resolver := λ w host, http_call (λ http, resolve http host) w;
  transport_execute := λ target request, http_call (transport_execute target request) |}.

Definition toy_env : CredentialEnv toy_env_state := {|
  env_world := toy_env_world;
  env_clock := λ w, (env_time w, w);
  env_draws := λ w, (env_uuids w, w);
  open_current := λ _ w, (env_opened w, w);
  replace_cookie := λ _ _ w, (env_replaced w, w);
  active_grant := λ _ _ _ w, (env_grant w, w);
  other_tasks := λ jars w,
    match env_others w with
    | [] => (jars, w)
    | task :: others => (task jars, set_others w others)
    end |}.
End toy_env.

(** * Concrete instances of the interfaces of the core

    Column encodings, the cipher, the clocks and randomness, and the wire
    format: small executable instances with their laws, for the witnesses. *)

(** ** Column encodings: bits, and two JSON documents, a manifest and its
    credentials *)

Definition toy_text {T} `{Countable T} (x : T) : string := str (bits_of (encode x)).
Definition toy_parse {T} `{Countable T} (s : string) : option T := decode (of_bits (bytes s)).
Lemma toy_parse_text {T} `{Countable T} (x : T) : toy_parse (toy_text x) = Some x.
Proof. unfold toy_parse, toy_text. by rewrite bytes_str, of_bits_of, decode_encode. Qed.

(** Times of four-digit years only. *)
Definition toy_parse_time (s : string) : option time :=
  t ← toy_parse s;
  if (-62167219200 * 10 ^ 9 <=? t) && (t <? 253402300800 * 10 ^ 9) then Some t else None.
Lemma toy_parse_time_text t : rfc3339_time t → toy_parse_time (toy_text t) = Some t.
Proof.
  intros [Hl Hu]. unfold toy_parse_time. rewrite toy_parse_text. cbn [mbind option_bind].
  apply Z.leb_le in Hl as ->. by apply Z.ltb_lt in Hu as ->.
Qed.
Lemma toy_parse_time_years t : is_Some (toy_parse_time (toy_text t)) → rfc3339_time t.
Proof.
  unfold toy_parse_time. rewrite toy_parse_text. cbn [mbind option_bind].
  destruct (_ && _) eqn:E; [|by intros [? ?]]. bool_prop. done.
Qed.

Inductive toy_json := JsonManifest | JsonCredentials.

Definition toy_codec (manifest : PluginManifest) : Codec := {|
  uuid_to_string := toy_text;
  uuid_parse_str := toy_parse;
  to_rfc3339 := toy_text;
  parse_from_rfc3339 := toy_parse_time;
  Json := toy_json;
  json_to_string := λ v,
    Some match v with JsonManifest => "manifest" | JsonCredentials => "credentials" end;
  json_from_str := λ s,
    if eqb s "manifest" then Some JsonManifest
    else if eqb s "credentials" then Some JsonCredentials else None;
  json_get := λ v key,
    match v with
    | JsonManifest => if eqb key "credentials" then Some JsonCredentials else None
    | JsonCredentials => None
    end;
  declarations_from_value := λ v,
    match v with
    | JsonCredentials => Some (PluginManifest_credentials manifest)
    | JsonManifest => None
    end;
  manifest_from_value := λ v,
    match v with JsonManifest => Some manifest | JsonCredentials => None end |}.

Lemma toy_codec_laws manifest : CodecLaws (toy_codec manifest).
Proof.
  split; simpl; intros.
  - apply toy_parse_text.
  - by apply toy_parse_time_text.
  - by apply toy_parse_time_years.
  - by destruct v; simplify_eq/=.
Qed.

(** ** The cipher: the message and a constant tag *)

Definition toy_tag : list byte := replicate 16 "t"%char.
Definition toy_aead : Aead := {|
  aead_encrypt := λ _ _ _ message, Some (message ++ toy_tag);
  aead_decrypt := λ _ _ _ ciphertext,
    let n := (length ciphertext - 16)%nat in
    if decide (drop n ciphertext = toy_tag) then Some (take n ciphertext) else None |}.

Lemma toy_aead_laws : AeadLaws toy_aead.
Proof.
  split; simpl.
  - intros _ _ _ ciphertext message. split.
    + intros Hd. case_decide as Ht; [|done]. injection Hd as <-. rewrite <- Ht at 1.
      by rewrite take_drop.
    + intros [= <-]. rewrite length_app. simpl. replace (length message + 16 - 16)%nat with (length message) by lia.
      by rewrite drop_app_length, take_app_length, decide_True.
  - intros _ _ _ message ciphertext [= <-]. unfold zlen. rewrite length_app. simpl.
    unfold AUTHENTICATION_TAG_BYTES. lia.
Qed.

(** ** Clocks and randomness: fixed values *)

Definition toy_runtime (T : Type) : VaultRuntime T := {|
  vault_utc_now := λ w, (0, w);
  new_v4 := λ w, (11, w);
  draw_nonce := λ w, (Some (replicate 12 "n"%char), w) |}.

Lemma toy_runtime_laws T : VaultRuntimeLaws (toy_runtime T).
Proof. split; simpl; [done|done|]. by intros _ nonce [= <-]. Qed.

Section toy_core.
Existing Instances toy_url_lib toy_headers toy_cookie_lib toy_world.

Definition toy_core_runtime : CoreRuntime toy_state := {|
  core_world := toy_world;
  core_vault := toy_runtime toy_state;
  core_clock := λ w, (mkClock 0 0, w);
  core_draws := λ w, ([1; 2], w);
  core_jar_tasks := λ jars w, (jars, w) |}.
End toy_core.

(** ** The wire format: members as bits, responses without escapes *)

Global Instance WireMembers_eq_dec : EqDecision WireMembers.
Proof. unfold EqDecision, Decision, RequiredNullable. solve_decision. Defined.
Global Instance WireMembers_countable : Countable WireMembers :=
  inj_countable'
    (λ m, (members_token m, members_request_id m, members_method m, members_url m,
           members_headers m, members_body_base64 m, members_cookie_jar_session_id m,
           members_credential_scope m))
    (λ '(a, b, c, d, e, f, g, h), mkWireMembers a b c d e f g h)
    (λ '(mkWireMembers _ _ _ _ _ _ _ _), eq_refl).

Definition toy_std_encode (l : list byte) : string :=
  str (l ++ replicate (Z.to_nat ((zlen l + 2) / 3 * 4) - length l) "="%char).

Definition toy_wire : WireLib := {|
  wire_from_slice := λ b, decode (of_bits b);
  wire_chunks := λ r, Some [bytes (default "" (WireResponse_body_base64 r));
    match WireResponse_error r with
    | Some e => bytes (WireError_code e) ++ bytes (WireError_summary e)
    | None => []
    end];
  std_encode := toy_std_encode;
  std_decode := λ _, None;
  HeaderName_from_bytes := Some;
  hash_iter := map_to_list |}.

Lemma toy_wire_laws : WireLaws (B := toy_encoding) (H := toy_headers) toy_wire.
Proof.
  split.
  - by intros s n [= <-].
  - done.
  - intros l. simpl. unfold toy_std_encode. rewrite str_len_bytes, bytes_str. unfold zlen.
    rewrite length_app, length_replicate. Z.to_euclidean_division_equations. lia.
  - intros status headers l b0 b [= <-] [= <-]. rewrite app_nil_r, (str_len_bytes (std_encode l)).
    done.
  - intros status code summary b _ [= <-]. rewrite app_nil_r. unfold zlen.
    rewrite length_app, !length_bytes. unfold str_len. lia.
Qed.
