(* ===== verification/Witnesses.v ===== *)
(** * Witnesses

    For every property with hypotheses, one concrete input at which they hold,
    evaluated on the instances of [Concrete]. *)

From stdpp Require Import pretty.
From S2P Require Import Prelude Text Std Domain ContentContract Foreign CredentialContract.
From S2P Require Import Cursor Dedup Router RouterFacts Policy PolicyFacts HttpProxy HttpFacts.
From S2P Require Import Concrete.

Existing Instances toy_encoding toy_encoding_laws toy_cursor_json toy_cursor_json_laws
  toy_content_json toy_url_lib toy_headers toy_headers_laws toy_gzip toy_world.

(** ** Content: two platforms, one of them with a fallback plugin *)

Definition demo_plugin (id platform : string) (default : bool) : ContentCandidate := {|
  candidate_plugin_id := mkPluginId id;
  candidate_plugin_name := id;
  candidate_plugin_version := "1.0.0";
  candidate_platform_id := platform;
  candidate_priority := 10;
  candidate_is_default := default;
  candidate_search_enabled := true;
  candidate_discover_enabled := true;
  candidate_capabilities := [MSearch; MDiscover; MCategories];
|}.

Definition demo_candidates : list ContentCandidate :=
  [demo_plugin "b-second" "b" false; demo_plugin "b-first" "b" true; demo_plugin "a-one" "a" true].

Definition demo_item (id : string) : ContentItem :=
  mkContentItem RTAlbum id None "Title" None None.

(** [b-first] is unavailable, the others answer with one item and a cursor. *)
Definition demo_invoke (request_id : string) (c : ContentCandidate) (m : ContentMethod)
    (v : Value) : result ContentInvokeError (JsonRpcResponse Value) :=
  if eqb (PluginId_as_str (candidate_plugin_id c)) "b-first" then Err InvokeUnavailable
  else Ok (mkJsonRpcResponse "2.0" request_id
             (Some (VSearchResult (mkSearchResult [demo_item "item"] (Some "next")))) None).

Definition demo_list (candidates : list ContentCandidate) (k : ContentRouteKind) :
    result ContentServiceError (list ContentCandidate) := Ok candidates.

Definition demo_search (cursor : option string) : SearchAggregationInput :=
  mkSearchAggregationInput "r1" "query" 20 (mkContentFilters None None) cursor.

(** The platform calls complete in reverse order. *)
Lemma reverse_completes {A} : completes (@rev (nat * A)).
Proof. intros l. symmetry. apply Permutation_rev. Qed.

Lemma demo_search_Ok :
  is_ok (search demo_invoke (demo_list demo_candidates) (@rev _) (demo_search None)) = true.
Proof. vm_compute. reflexivity. Qed.

Lemma aggregation_completion_independent_witness :
  search demo_invoke (demo_list demo_candidates) (@rev _) (demo_search None) =
  search demo_invoke (demo_list demo_candidates) id (demo_search None).
Proof.
  apply (aggregation_completion_independent demo_invoke (demo_list demo_candidates)
    (@rev _) (@rev _) (@rev _)); apply reverse_completes.
Defined.

Lemma search_sound_witness :
  ∃ out, search demo_invoke (demo_list demo_candidates) (@rev _) (demo_search None) = Ok out ∧
    ∀ f, f ∈ AggregatedSearchResult_failures out →
      ∃ c, c ∈ demo_candidates ∧ ContentFailure_source f = ContentSource_from c.
Proof.
  destruct (search demo_invoke (demo_list demo_candidates) (@rev _) (demo_search None))
    as [out|e] eqn:E.
  - exists out. split; [reflexivity|].
    destruct (search_sound demo_invoke (demo_list demo_candidates) (@rev _) (demo_search None)
      out demo_candidates reverse_completes eq_refl E) as (_ & Hf & _ & _).
    intros f Hin. destruct (Hf f Hin) as (c & Hc & _ & Hs). exists c. split; assumption.
  - exfalso. pose proof demo_search_Ok as H. rewrite E in H. discriminate H.
Defined.

Lemma search_continues_witness :
  ∃ out encoded sources groups,
    search demo_invoke (demo_list demo_candidates) (@rev _) (demo_search None) = Ok out ∧
    AggregatedSearchResult_next_cursor out = Some encoded ∧ sources_ok sources ∧
    decode_cursor encoded (search_binding (demo_search (Some encoded))) = Ok sources ∧
    prepare_groups (search_selected demo_candidates (demo_search (Some encoded))) (Some encoded)
      (search_binding (demo_search (Some encoded))) = Ok (groups, false).
Proof.
  destruct (search demo_invoke (demo_list demo_candidates) (@rev _) (demo_search None))
    as [out|e] eqn:E.
  - destruct (AggregatedSearchResult_next_cursor out) as [encoded|] eqn:Hn.
    + destruct (search_continues demo_invoke (demo_list demo_candidates) (@rev _)
        (demo_search None) out demo_candidates encoded (demo_search (Some encoded)))
        as (groups0 & allow & offers & sources & groups & _ & _ & _ & Hok & Hd & Hp & _);
        [apply reverse_completes|reflexivity| |exact E|exact Hn|reflexivity..|].
      { repeat constructor. }
      exists out, encoded, sources, groups.
      split; [reflexivity|]. split; [exact Hn|]. split; [exact Hok|]. split; [exact Hd|exact Hp].
    + exfalso. revert E. vm_compute. intros [= <-]. discriminate Hn.
  - exfalso. pose proof demo_search_Ok as H. rewrite E in H. discriminate H.
Defined.

(** 33 platforms. *)
Definition many_candidates : list ContentCandidate :=
  (λ i : nat, demo_plugin (String.append "p" (pretty i)) (String.append "p" (pretty i)) true)
    <$> seq 0 33.

Definition answering (request_id : string) (c : ContentCandidate) (m : ContentMethod)
    (v : Value) : result ContentInvokeError (JsonRpcResponse Value) :=
  Ok (mkJsonRpcResponse "2.0" request_id
        (Some (VSearchResult (mkSearchResult [demo_item "item"] (Some "next")))) None).

Lemma search_too_many_sources_witness :
  search answering (demo_list many_candidates) id (demo_search None) =
  Err (CursorError TooManySources).
Proof.
  apply (search_too_many_sources answering (demo_list many_candidates) id (demo_search None)
    many_candidates).
  - intros l. reflexivity.
  - reflexivity.
  - reflexivity.
  - intros r. reflexivity.
  - intros c params _. exists (mkSearchResult [demo_item "item"] (Some "next")).
    split; vm_compute; reflexivity.
  - vm_compute. repeat constructor.
Defined.

(** ** Cursors *)

Definition demo_binding (query : string) : ContentCursorBinding :=
  mkContentCursorBinding OpSearch (Some query) (mkContentFilters None None).
Definition demo_sources : list SourceCursor := [mkSourceCursor "a" (mkPluginId "a-one") "next"].

Lemma cursor_roundtrip_witness :
  ∃ encoded, encode_cursor (demo_binding "q") demo_sources = Ok (Some encoded) ∧
    decode_cursor encoded (demo_binding "q") = Ok demo_sources.
Proof.
  destruct (encode_cursor (demo_binding "q") demo_sources) as [[encoded|]|e] eqn:E;
    [|vm_compute in E; discriminate E..].
  destruct (request_fingerprint (demo_binding "q")) as [fp|e'] eqn:F;
    [|vm_compute in F; discriminate F].
  exists encoded. split; [reflexivity|].
  rewrite (cursor_roundtrip (demo_binding "q") (demo_binding "q") demo_sources encoded fp E
    ltac:(repeat constructor) F).
  rewrite F. destruct (decide _) as [_|H]; [reflexivity|destruct H; reflexivity].
Defined.

Definition demo_encoded : string :=
  match encode_cursor (demo_binding "q") demo_sources with
  | Ok (Some encoded) => encoded
  | _ => ""
  end.
Lemma demo_decoded : decode_cursor demo_encoded (demo_binding "q") = Ok demo_sources.
Proof. vm_compute. reflexivity. Qed.

Lemma decode_cursor_sound_witness :
  decode_cursor demo_encoded (demo_binding "q") = Ok demo_sources ∧ sources_ok demo_sources.
Proof.
  split; [exact demo_decoded|].
  exact (proj1 (decode_cursor_sound demo_encoded (demo_binding "q") demo_sources demo_decoded)).
Defined.

Lemma encode_cursor_fits_witness :
  encode_cursor (demo_binding "q") demo_sources ≠ Err EncodedTooLarge.
Proof. apply (encode_cursor_fits (demo_binding "q") demo_sources). Defined.

(** ** Policy: one wildcard pattern, a resolver with a public address *)

Definition demo_manifest : PluginManifest := {|
  PluginManifest_schema_version := "1";
  PluginManifest_id := mkPluginId "demo";
  PluginManifest_name := "Demo";
  PluginManifest_version := "1.0.0";
  PluginManifest_plugin_type := Content;
  PluginManifest_runtime := mkRuntimeSpec Nodejs "22" "index.js";
  PluginManifest_compatibility := mkCompatibilitySpec "1" "1";
  PluginManifest_platform := mkPlatformSpec "demo" "Demo";
  PluginManifest_capabilities := [];
  PluginManifest_network := mkNetworkPolicy ["*.Example.com"];
  PluginManifest_credentials := mkCredentialDeclarations [] [] [];
  PluginManifest_build := mkBuildSpec (mkLifecycleScriptPolicy false None);
|}.

Definition demo_policy : ProxyPolicy := ProxyPolicy_production demo_manifest.
Definition demo_address : IpAddr := V4 (mkIpv4Addr 93 184 216 34).
Definition demo_resolver : StaticResolver :=
  StaticResolver_new [("api.example.com", [demo_address; demo_address])].
Definition demo_target : PinnedTarget :=
  mkPinnedTarget (mkToyUrl "https" "api.example.com" "/v1") "api.example.com" 443 [demo_address].

Lemma host_pattern_spec_witness :
  HostPattern_matches (HostPattern_parse "*.Example.com") "api.example.com" = true.
Proof.
  apply (host_pattern_spec "*.Example.com" "api.example.com"); [vm_compute; reflexivity|].
  right. exists "api", "example.com". repeat split; vm_compute; reflexivity.
Defined.

Lemma is_global_address_spec_witness :
  is_global_address (V4 (mkIpv4Addr 172 31 255 255)) = false ∧
  is_global_address (V4 (mkIpv4Addr 172 32 0 0)) = true.
Proof.
  split.
  - rewrite (is_global_address_spec (V4 (mkIpv4Addr 172 31 255 255)));
      [vm_compute; reflexivity|]. apply (bool_decide_unpack _). vm_compute. exact I.
  - rewrite (is_global_address_spec (V4 (mkIpv4Addr 172 32 0 0)));
      [vm_compute; reflexivity|]. apply (bool_decide_unpack _). vm_compute. exact I.
Defined.

Lemma authorize_url_production_witness :
  Url_scheme (PinnedTarget_url demo_target) = "https" ∧
  NoDup (PinnedTarget_addresses demo_target).
Proof.
  destruct (authorize_url_production demo_manifest "https://api.example.com/v1" demo_resolver
    demo_target) as (_ & Hs & _ & _ & _ & _ & _ & _ & _ & Hn & _); [vm_compute; reflexivity|].
  split; assumption.
Defined.

(** A developer policy that maps a host to the loopback address. *)
Definition demo_fixture : result ProxyPolicyError ProxyPolicy :=
  with_fixture_mapping (ProxyPolicy_developer demo_manifest) "fixture.example.com"
    (V4 (mkIpv4Addr 127 0 0 1)).

Lemma authorize_url_built_witness :
  ∃ policy target, demo_fixture = Ok policy ∧
    (authorize_url policy "http://fixture.example.com/" demo_resolver).1 = Ok target ∧
    target_ok policy target.
Proof.
  destruct demo_fixture as [policy|e] eqn:E; [|vm_compute in E; discriminate E].
  destruct (authorize_url policy "http://fixture.example.com/" demo_resolver).1
    as [target|e] eqn:A.
  - exists policy, target. split; [reflexivity|]. split; [exact A|].
    apply (authorize_url_built policy "http://fixture.example.com/" demo_resolver target);
      [|exact A].
    eapply built_mapping; [|exact E]. constructor.
  - exfalso. revert A. vm_compute in E. injection E as <-. vm_compute. discriminate.
Defined.

Definition demo_target2 : PinnedTarget :=
  mkPinnedTarget (mkToyUrl "https" "api.example.com" "/v2") "api.example.com" 443 [demo_address].

Lemma authorize_redirect_pinned_witness :
  ∃ target, (authorize_redirect demo_policy demo_target "https://api.example.com/v2"
               demo_resolver).1 = Ok target ∧
    PinnedTarget_addresses target = PinnedTarget_addresses demo_target.
Proof.
  exists demo_target2.
  split; [vm_compute; reflexivity|].
  apply (authorize_redirect_pinned demo_policy "https://api.example.com/v1" demo_resolver
    demo_target "https://api.example.com/v2" demo_resolver);
    [constructor|vm_compute; reflexivity..].
Defined.

(** ** HTTP: one redirect, then an answer *)

Definition demo_request : ProxyRequest :=
  mkProxyRequest "GET" "https://api.example.com/v1" [("accept", bytes "text/html")] [].

Definition demo_state : toy_state := mkToyState demo_resolver [
  Ok (mkTransportResponse 302 [("location", bytes "/v2")] []);
  Ok (mkTransportResponse 200 [("content-type", bytes "text/plain"); ("set-cookie", bytes "a=b")]
        (bytes "hello"))].

Definition demo_exchange : Exchange toy_state := mkExchange demo_state [].

Lemma http_loop_terminates_witness :
  is_Some (http_loop (K := NoopHttpHopHook) http_fuel demo_policy demo_request demo_target
             demo_target 0 demo_exchange).
Proof.
  apply (http_loop_terminates (K := NoopHttpHopHook) demo_policy demo_request
    "https://api.example.com/v1" demo_state demo_target demo_exchange);
    [constructor|vm_compute; reflexivity].
Defined.

Definition demo_run : result HttpProxyError ProxyResponse * Exchange toy_state :=
  execute_with_hook (K := NoopHttpHopHook) demo_policy demo_request demo_exchange.
Definition demo_response : ProxyResponse :=
  mkProxyResponse 200 [("content-type", bytes "text/plain")] (bytes "hello").

Lemma demo_run_Ok : demo_run.1 = Ok demo_response.
Proof. vm_compute. reflexivity. Qed.
Lemma demo_run_sent : length (exchange_sent demo_run.2) = 2%nat.
Proof. vm_compute. reflexivity. Qed.
Lemma demo_run_eq :
  execute_with_hook (K := NoopHttpHopHook) demo_policy demo_request demo_exchange =
  (demo_run.1, demo_run.2).
Proof. unfold demo_run. apply surjective_pairing. Qed.
Lemma demo_execute_eq :
  execute demo_policy demo_request demo_exchange = (demo_run.1, demo_run.2).
Proof. unfold execute. apply demo_run_eq. Qed.
Lemma demo_run_Ok_eq :
  execute_with_hook (K := NoopHttpHopHook) demo_policy demo_request demo_exchange =
  (Ok demo_response, demo_run.2).
Proof. rewrite demo_run_eq. by rewrite demo_run_Ok. Qed.

Lemma execute_with_hook_sends_witness :
  length (exchange_sent demo_run.2) = 2%nat ∧ zlen (exchange_sent demo_run.2) ≤ 6.
Proof.
  split; [exact demo_run_sent|].
  destruct (execute_with_hook_sends (K := NoopHttpHopHook) demo_policy demo_request
    demo_exchange demo_run.1 demo_run.2 (built_production _) demo_run_eq)
    as (calls & Hs & Hlen & _).
  rewrite Hs. exact Hlen.
Defined.

Lemma execute_with_hook_response_witness :
  demo_run.1 = Ok demo_response ∧
  ∀ name value, (name, value) ∈ HeaderMap_iter (ProxyResponse_headers demo_response) →
    allowed_response_header name = true.
Proof.
  split; [exact demo_run_Ok|].
  destruct (execute_with_hook_response (K := NoopHttpHopHook) demo_policy demo_request
    demo_exchange demo_response demo_run.2 (built_production _) demo_run_Ok_eq)
    as (Hall & _).
  exact Hall.
Defined.

Lemma execute_no_credentials_witness :
  length (exchange_sent demo_run.2) = 2%nat ∧
  ∀ target sent, (target, sent) ∈ exchange_sent demo_run.2 →
    sent = base_request demo_request target.
Proof.
  split; [exact demo_run_sent|].
  destruct (execute_no_credentials demo_policy demo_request demo_exchange demo_run.1 demo_run.2
    (built_production _) demo_execute_eq) as (calls & Hs & Hall).
  intros target sent Hin. rewrite Hs in Hin. exact (proj1 (Hall target sent Hin)).
Defined.

Definition demo_send (host : string) (addresses : list (IpAddr * Z)) (r : TransportRequest) :
    result TransportError (StatusCode * HeaderMap *
                           list (result TransportError (list byte))) :=
  Ok (200, [], [Ok (bytes "ab"); Ok (bytes "c")]).

Lemma ReqwestTransport_pinned_witness :
  ReqwestTransport_execute demo_send demo_target (base_request demo_request demo_target) =
    Ok (mkTransportResponse 200 [] (bytes "abc")) ∧
  TransportRequest_url (base_request demo_request demo_target) = "https://api.example.com/v1".
Proof.
  assert (ReqwestTransport_execute demo_send demo_target (base_request demo_request demo_target)
    = Ok (mkTransportResponse 200 [] (bytes "abc"))) as E by (vm_compute; reflexivity).
  split; [exact E|].
  exact (proj1 (ReqwestTransport_pinned demo_send demo_target
    (base_request demo_request demo_target) (mkTransportResponse 200 [] (bytes "abc")) E)).
Defined.
