(* ===== verification/CredentialWitnesses.v ===== *)
(** * Witnesses of the credential properties

    For every property of the secrets, the cookie jars and the credential proxy
    that has hypotheses, one concrete input at which they hold. *)

From S2P Require Import Prelude Text Std Domain Foreign CredentialContract Policy.
From S2P Require Import PolicyFacts HttpProxy HttpFacts CredentialSecret CookieJar.
From S2P Require Import CookieJarFacts CookieJarProps CredentialProxy CredentialProxyFacts.
From S2P Require Import CredentialProxyProps Concrete.

Existing Instances toy_url_lib toy_headers toy_headers_laws toy_gzip toy_world toy_secret_json
  toy_secret_json_laws toy_cookie_lib toy_env.

(** ** Two plugins of one platform, one origin, one cookie *)

Definition demo_scope : CredentialScope := mkCredentialScope "account.cookies".
Definition demo_origin : CredentialTargetOrigin :=
  mkCredentialTargetOrigin "https://api.example.com".
Definition demo_declaration : CredentialScopeDeclaration :=
  mkCredentialScopeDeclaration demo_scope [demo_origin].

Definition manifest_of (type : PluginType) (credentials : CredentialDeclarations) :
    PluginManifest := {|
  PluginManifest_schema_version := "1";
  PluginManifest_id := mkPluginId "demo";
  PluginManifest_name := "Demo";
  PluginManifest_version := "1.0.0";
  PluginManifest_plugin_type := type;
  PluginManifest_runtime := mkRuntimeSpec Nodejs "22" "index.js";
  PluginManifest_compatibility := mkCompatibilitySpec "1" "1";
  PluginManifest_platform := mkPlatformSpec "demo" "Demo";
  PluginManifest_capabilities := [];
  PluginManifest_network := mkNetworkPolicy ["*.example.com"];
  PluginManifest_credentials := credentials;
  PluginManifest_build := mkBuildSpec (mkLifecycleScriptPolicy false None);
|}.

Definition demo_hash : string := str (replicate 64 "0"%char).
Definition provider : InstalledPluginContext :=
  mkInstalledPluginContext (mkPluginId "demo") demo_hash
    (manifest_of Credential (mkCredentialDeclarations [demo_declaration] [] [])).
Definition consumer : InstalledPluginContext :=
  mkInstalledPluginContext (mkPluginId "demo") demo_hash
    (manifest_of Content (mkCredentialDeclarations [] [demo_declaration] [])).

Definition proxy_policy : ProxyPolicy := ProxyPolicy_production (context_manifest consumer).

Definition demo_cookie : CookieSecretRecord :=
  mkCookieSecretRecord "sid" "s3cret" "api.example.com" "/" true true None.
Definition demo_secret : CookieCredentialSecret := mkCookieCredentialSecret [demo_cookie].

Definition demo_metadata (kind : CredentialKind) : CredentialMetadata := {|
  CredentialMetadata_id := mkCredentialId 9;
  CredentialMetadata_kind := kind;
  CredentialMetadata_platform_id := "demo";
  CredentialMetadata_scope := demo_scope;
  CredentialMetadata_ownership := Retained;
  CredentialMetadata_target_origins := [demo_origin];
  CredentialMetadata_account_id_hint := None;
  CredentialMetadata_display_name := None;
  CredentialMetadata_status := Active;
  CredentialMetadata_safe_error_summary := None;
  CredentialMetadata_expires_at := None;
  CredentialMetadata_status_checked_at := None;
  CredentialMetadata_created_at := 0;
  CredentialMetadata_updated_at := 0;
  CredentialMetadata_revision := 3;
|}.

Definition demo_grant : ActiveGrantSnapshot :=
  mkActiveGrantSnapshot (mkPluginId "demo") demo_hash (mkCredentialId 9) demo_scope [demo_origin].

(** ** A refresh session *)

Definition demo_id : CookieJarSessionId := mkCookieJarSessionId 7.
Definition refresh_binding : CookieJarBinding :=
  mkCookieJarBinding (mkPluginId "demo") (Some demo_hash) "demo" demo_scope [demo_origin]
    (PurposeRefresh (mkCredentialId 9) 3).
Definition demo_session : CookieJarSession :=
  mkCookieJarSession refresh_binding (60 * second)
    [mkToyCookie "sid" "s3cret" "api.example.com"] SessionActive.
Definition demo_jars : TemporaryCookieJars := mkTemporaryCookieJars {[demo_id := demo_session]} false.
Definition at_time (t : time) : Clock := mkClock t t.

Definition demo_env (kind : CredentialKind) (secret : CredentialSecret)
    (others : list (TemporaryCookieJars → TemporaryCookieJars)) : toy_env_state := {|
  env_http := mkToyState
    (StaticResolver_new [("api.example.com", [V4 (mkIpv4Addr 93 184 216 34)])])
    [Ok (mkTransportResponse 200 [("content-type", bytes "text/plain")] (bytes "hello"))];
  env_time := at_time 0;
  env_uuids := [1; 2];
  env_opened := Ok (Some (mkOpenedCredential (demo_metadata kind) (mkCredentialSecretGuard secret)));
  env_replaced := Ok (demo_metadata Cookie);
  env_grant := Ok (Some demo_grant);
  env_others := others;
|}.
Definition demo_proxy (kind : CredentialKind) (secret : CredentialSecret)
    (others : list (TemporaryCookieJars → TemporaryCookieJars)) : ProxyState toy_env_state :=
  mkProxyState demo_jars None (demo_env kind secret others).
Definition token_proxy : ProxyState toy_env_state :=
  demo_proxy Token (SecretToken (mkTokenCredentialSecret "tok3n")) [].
Definition cookie_proxy (others : list (TemporaryCookieJars → TemporaryCookieJars)) :
    ProxyState toy_env_state := demo_proxy Cookie (SecretCookie demo_secret) others.

Definition plugin_request (session : option CookieJarSessionId)
    (credential : option CredentialSelection) : CredentialProxyRequest :=
  mkCredentialProxyRequest (mkProxyRequest "GET" "https://api.example.com/v1" [] []) session
    credential.
Definition demo_selection : CredentialSelection :=
  mkCredentialSelection (mkCredentialId 9) demo_scope.

Definition token_run := proxy_execute proxy_policy consumer
  (plugin_request None (Some demo_selection)) token_proxy.
Definition jar_run := proxy_execute proxy_policy provider
  (plugin_request (Some demo_id) None) (cookie_proxy []).
Definition proxy_answer : ProxyResponse :=
  mkProxyResponse 200 [("content-type", bytes "text/plain")] (bytes "hello").

(** The token goes out once, and the answer comes back. *)
Lemma token_run_Ok : token_run.1 = Ok proxy_answer.
Proof. vm_compute. reflexivity. Qed.
Lemma token_run_sent :
  (TransportRequest_headers ∘ snd) <$> exchange_sent token_run.2 =
    [[("authorization", bytes "Bearer tok3n")]].
Proof. vm_compute. reflexivity. Qed.
Lemma jar_run_Ok : jar_run.1 = Ok proxy_answer.
Proof. vm_compute. reflexivity. Qed.
Lemma jar_run_sent :
  (TransportRequest_headers ∘ snd) <$> exchange_sent jar_run.2 =
    [[("cookie", bytes "sid=s3cret")]].
Proof. vm_compute. reflexivity. Qed.

Lemma token_run_eq :
  proxy_execute proxy_policy consumer (plugin_request None (Some demo_selection)) token_proxy =
  (Ok proxy_answer, token_run.2).
Proof. rewrite <- token_run_Ok. apply surjective_pairing. Qed.
Lemma jar_run_eq :
  proxy_execute proxy_policy provider (plugin_request (Some demo_id) None) (cookie_proxy []) =
  (Ok proxy_answer, jar_run.2).
Proof. rewrite <- jar_run_Ok. apply surjective_pairing. Qed.

Lemma credential_sent_authorized_witness :
  length (exchange_sent token_run.2) = 1%nat ∧
  ∀ target sent, (target, sent) ∈ exchange_sent token_run.2 →
    ∃ s' state, hooked_reachable consumer (ModeCredential demo_selection) (fresh token_proxy) s' ∧
      credential_hop s' consumer demo_selection target
      (base_request (proxy_request (plugin_request None (Some demo_selection))) target) state sent.
Proof.
  split; [pose proof (f_equal length token_run_sent) as Hl; rewrite length_fmap in Hl; exact Hl|].
  destruct (credential_sent_authorized proxy_policy consumer
    (plugin_request None (Some demo_selection)) token_proxy (Ok proxy_answer) token_run.2
    demo_selection (built_production _) eq_refl token_run_eq) as [_ Hall].
  intros target sent Hin. apply (Hall target sent Hin).
Defined.

Lemma jar_sent_bound_witness :
  length (exchange_sent jar_run.2) = 1%nat ∧ zlen (exchange_sent jar_run.2) ≤ 6.
Proof.
  split; [pose proof (f_equal length jar_run_sent) as Hl; rewrite length_fmap in Hl; exact Hl|].
  apply (jar_sent_bound proxy_policy provider (plugin_request (Some demo_id) None)
    (cookie_proxy []) (Ok proxy_answer) jar_run.2 demo_id (built_production _) eq_refl jar_run_eq).
Defined.

Lemma no_direct_reflection_witness :
  ∃ target sent s' state, last (exchange_sent token_run.2) = Some (target, sent) ∧
    hooked_reachable consumer (ModeCredential demo_selection) (fresh token_proxy) s' ∧
    credential_hop s' consumer demo_selection target
      (base_request (proxy_request (plugin_request None (Some demo_selection))) target) state sent ∧
    not_reflected state proxy_answer.
Proof.
  exact (no_direct_reflection proxy_policy consumer (plugin_request None (Some demo_selection))
    token_proxy proxy_answer token_run.2 (built_production _) token_run_eq).
Defined.

(** ** Stored cookies *)

Definition demo_url : @Url toy_url_lib := mkToyUrl "https" "api.example.com" "/v1".
Definition demo_header : @HeaderValue toy_headers := bytes "sid=s3cret".

Lemma stored_header_Ok :
  stored_cookie_header 0 demo_secret demo_url =
  Ok (Some demo_header).
Proof. vm_compute. reflexivity. Qed.

Lemma stored_cookie_header_spec_witness :
  ∃ host cookies, Url_host_str demo_url = Some host ∧
    Forall (belongs_to 0 host demo_url) cookies ∧
    HeaderValue_as_bytes demo_header = bytes (String.concat "; " (cookie_pairs
      ((λ c, (CookieSecretRecord_name c, CookieSecretRecord_value c)) <$> cookies))).
Proof.
  destruct (stored_cookie_header_spec 0 demo_secret demo_url
    (Some demo_header) stored_header_Ok)
    as (host & cookies & Hh & _ & _ & Hall & _ & Hv & _).
  exists host, cookies. split; [exact Hh|]. split; [exact Hall|exact Hv].
Defined.

(** ** Secrets *)

Definition encoded_secret : list byte :=
  match encode_cookie demo_secret with Ok b => b | Err _ => [] end.
Lemma encoded_secret_Ok : encode_cookie demo_secret = Ok encoded_secret.
Proof. reflexivity. Qed.
Lemma decoded_secret_Ok :
  decode_secret Cookie encoded_secret = Ok (mkCredentialSecretGuard (SecretCookie demo_secret)).
Proof. vm_compute. reflexivity. Qed.

Lemma decode_secret_sound_witness : cookie_secret_ok demo_secret.
Proof.
  exact (decode_secret_sound Cookie encoded_secret
    (mkCredentialSecretGuard (SecretCookie demo_secret)) decoded_secret_Ok).
Defined.

Lemma demo_secret_ok : cookie_secret_ok demo_secret.
Proof.
  destruct (CookieCredentialSecret_new [demo_cookie]) as [secret|e] eqn:Hn;
    [|by vm_compute in Hn].
  apply CookieCredentialSecret_new_Ok in Hn as (_ & Hlen & Hd). split; [done|]. split; [|done].
  repeat constructor; vm_compute; try done.
Qed.

Lemma secret_payload_roundtrip_witness :
  decode_secret Cookie encoded_secret = Ok (mkCredentialSecretGuard (SecretCookie demo_secret)) ∧
  decode_secret Token encoded_secret = Err SecretKindMismatch.
Proof.
  exact (proj1 secret_payload_roundtrip demo_secret encoded_secret demo_secret_ok
    encoded_secret_Ok).
Defined.

(** ** Jars *)

Definition login_binding : CookieJarBinding :=
  match CookieJarBinding_login (mkPluginId "demo") "demo" demo_scope [demo_origin] with
  | Ok b => b
  | Err _ => refresh_binding
  end.
Lemma login_binding_ok : constructed login_binding.
Proof.
  exists (mkPluginId "demo"), "demo", demo_scope, [demo_origin], login_binding.
  split; [left; vm_compute; reflexivity|by left].
Qed.

Definition login_op : JarOp := OpCreate [1] login_binding (60 * second).

Lemma jar_reachable_bounded_witness :
  size (jars_sessions (run_op (at_time 5) login_op TemporaryCookieJars_new)) = 1%nat ∧
  Z.of_nat (size (jars_sessions (run_op (at_time 5) login_op TemporaryCookieJars_new))) ≤ 64.
Proof.
  split; [vm_compute; reflexivity|].
  apply (jar_reachable_bounded 5 [at_time 5] (run_op (at_time 5) login_op TemporaryCookieJars_new)).
  apply (reach_step 0 [] TemporaryCookieJars_new (at_time 5) login_op);
    [apply reach_new|simpl; lia|exact login_binding_ok].
Defined.

Lemma jar_frame_witness :
  jars_sessions (run_op (at_time 5) login_op demo_jars) !! demo_id = Some demo_session.
Proof.
  apply (jar_frame (at_time 5) login_op demo_jars demo_id demo_session);
    [apply lookup_singleton_eq|vm_compute; reflexivity..].
Defined.

Definition begun : result CookieJarError RefreshCommitSnapshot * TemporaryCookieJars :=
  begin_refresh_commit (at_time 0) demo_id refresh_binding [demo_origin] demo_jars.
Definition demo_snapshot : RefreshCommitSnapshot :=
  mkRefreshCommitSnapshot (mkCredentialId 9) 3 [demo_origin] demo_secret.
Lemma begun_snapshot : begun.1 = Ok demo_snapshot.
Proof. vm_compute. reflexivity. Qed.
Lemma begun_Ok :
  begin_refresh_commit (at_time 0) demo_id refresh_binding [demo_origin] demo_jars =
  (Ok demo_snapshot, begun.2).
Proof. rewrite <- begun_snapshot. apply surjective_pairing. Qed.

Lemma refresh_commit_exclusive_witness :
  begun.1 = Ok demo_snapshot ∧ finish_refresh demo_id true begun.2 = (Ok tt, demo_jars).
Proof.
  split; [exact begun_snapshot|].
  destruct (refresh_commit_exclusive (at_time 0) demo_id refresh_binding [demo_origin] demo_jars
    demo_snapshot begun.2 begun_Ok) as (x & _ & _ & Hf & _).
  exact Hf.
Defined.

Lemma jar_create_spec_witness :
  ∃ id, jars_sessions demo_jars !! id = None ∧
    (jar_create (at_time 5) (seqZ 1 64) login_binding (60 * second) demo_jars).1 = Ok id.
Proof.
  pose proof (jar_create_spec (at_time 5) (seqZ 1 64) login_binding (60 * second) demo_jars
    eq_refl (NoDup_seqZ 1 64) ltac:(vm_compute; lia)) as Hc.
  cbv zeta in Hc.
  destruct Hc as (id & Hid & Hc). exists id. rewrite Hc. split; [|reflexivity].
  destruct (jars_sessions demo_jars !! id) as [x|] eqn:Hx; [|reflexivity].
  exfalso. unfold demo_jars in Hx. simpl in Hx.
  apply lookup_singleton_Some in Hx as [<- <-]. apply map_lookup_filter_None in Hid as [Hid|Hid].
  - unfold demo_jars in Hid. simpl in Hid. rewrite lookup_singleton_eq in Hid. discriminate Hid.
  - apply (Hid demo_session); [apply lookup_singleton_eq|vm_compute; reflexivity].
Defined.

Lemma jar_cookie_header_bound_witness :
  (jar_cookie_header (at_time 0) demo_id refresh_binding demo_url demo_jars).1 =
    Ok (Some demo_header) ∧ zlen (HeaderValue_as_bytes demo_header) ≤ 16 * 1024.
Proof.
  assert ((jar_cookie_header (at_time 0) demo_id refresh_binding demo_url demo_jars).1 =
    Ok (Some demo_header)) as Hh by (vm_compute; reflexivity).
  split; [exact Hh|].
  exact (jar_cookie_header_bound (at_time 0) demo_id refresh_binding demo_url demo_jars
    demo_header Hh).
Defined.

Definition expiring_cookie : CookieSecretRecord :=
  mkCookieSecretRecord "sid" "s3cret" "api.example.com" "/" true true (Some 1).

Lemma create_seeded_last_second_witness :
  (create_seeded (at_time 0) [1] refresh_binding (60 * second)
     (mkCookieCredentialSecret [expiring_cookie; demo_cookie]) demo_jars).1 = Err JarExpired ∧
  is_ok (create_seeded (mkClock 0 1) [1] refresh_binding (60 * second)
     (mkCookieCredentialSecret [expiring_cookie; demo_cookie]) demo_jars).1 = true.
Proof.
  destruct (create_seeded_last_second (at_time 0) [1] refresh_binding (60 * second)
    expiring_cookie [demo_cookie] demo_jars (mkToyUrl "https" "api.example.com" "/" : @Url toy_url_lib) 1)
    as [H1 H2]; [reflexivity|vm_compute; split; reflexivity| |reflexivity..|].
  { vm_compute. left. }
  rewrite H1. split; [reflexivity|]. cbv zeta in H2. simpl in H2. rewrite H2.
  vm_compute. reflexivity.
Defined.

(** ** Refresh commits *)

Definition demo_update : ValidatedCredentialUpdate :=
  mkValidatedCredentialUpdate [demo_origin] None None Active None None None.

Definition committed := commit_refresh provider demo_id demo_update (cookie_proxy []).
Lemma committed_answer : committed.1 = Ok (demo_metadata Cookie).
Proof. vm_compute. reflexivity. Qed.
Lemma committed_Ok :
  commit_refresh provider demo_id demo_update (cookie_proxy []) =
  (Ok (demo_metadata Cookie), committed.2).
Proof. rewrite <- committed_answer. apply surjective_pairing. Qed.

Lemma commit_refresh_scoped_witness :
  committed.1 = Ok (demo_metadata Cookie) ∧
  jars_sessions (ps_jars committed.2) !! demo_id = None.
Proof.
  split; [exact committed_answer|].
  destruct (commit_refresh_scoped provider demo_id demo_update (cookie_proxy [])
    (demo_metadata Cookie) committed.2 committed_Ok) as (b & snap & _ & _ & _ & _ & _ & Hnone).
  exact Hnone.
Defined.

(** A run of the commit in which the other tasks, after the two uses of the jars
    before the vault is asked, do [others]. *)
Definition quiet (jars : TemporaryCookieJars) : TemporaryCookieJars := jars.
Definition busy_proxy (others : list (TemporaryCookieJars → TemporaryCookieJars)) :
    ProxyState toy_env_state := cookie_proxy (quiet :: quiet :: others).
Definition busy_env (others : list (TemporaryCookieJars → TemporaryCookieJars)) : toy_env_state :=
  demo_env Cookie (SecretCookie demo_secret) others.

Lemma busy_binding others :
  proxy_binding provider demo_id (busy_proxy others) =
  (Ok refresh_binding, mkProxyState demo_jars None (busy_env (quiet :: others))).
Proof.
  assert (jar_binding (at_time 0) demo_id demo_jars = (Ok refresh_binding, demo_jars)) as Hb.
  { rewrite jar_binding_call. unfold session_call. cbn [demo_jars jars_poisoned jars_sessions].
    by rewrite lookup_singleton_eq. }
  assert (validate_jar_binding provider refresh_binding = Ok tt) as Hv
    by (vm_compute; reflexivity).
  unfold proxy_binding, mbind, Svc_bind, svc_env, svc_jar, svc_lift, env_call, jar_call.
  change (ps_jars (busy_proxy others)) with demo_jars. cbn [env_clock]. simpl.
  unfold quiet at 1. rewrite Hb. cbn [map_err]. by rewrite Hv.
Qed.

Lemma busy_commit others :
  commit_run provider demo_id demo_update (busy_proxy others) refresh_binding demo_snapshot
    (Ok (demo_metadata Cookie)) demo_jars begun.2 (busy_env others).
Proof.
  exists (mkProxyState demo_jars None (busy_env (quiet :: others))), demo_declaration, (at_time 0),
    (busy_env (quiet :: others)), (busy_env others).
  split; [apply busy_binding|]. split; [vm_compute; reflexivity|]. split; [reflexivity|].
  split; [reflexivity|]. split; [exact begun_Ok|reflexivity].
Qed.

Lemma commit_refresh_outcome_witness :
  (commit_refresh provider demo_id demo_update (busy_proxy [quiet])).1 = Ok (demo_metadata Cookie).
Proof.
  apply (commit_refresh_outcome provider demo_id demo_update (busy_proxy [quiet]) refresh_binding
    demo_snapshot (Ok (demo_metadata Cookie)) demo_jars begun.2 (busy_env [quiet]) (busy_env []));
    [apply busy_commit|reflexivity].
Defined.

(** Another login, after the session has expired. *)
Definition other_login (jars : TemporaryCookieJars) : TemporaryCookieJars :=
  (jar_create (at_time (61 * second)) [1] login_binding (60 * second) jars).2.

Lemma commit_refresh_lost_session_witness :
  (commit_refresh provider demo_id demo_update (busy_proxy [other_login])).1 =
  Err ProxyJarNotFound.
Proof.
  apply (commit_refresh_lost_session provider demo_id demo_update (busy_proxy [other_login])
    refresh_binding demo_snapshot (demo_metadata Cookie) demo_jars begun.2
    (busy_env [other_login]) (at_time (61 * second)) [1] login_binding (60 * second)
    (busy_env [])).
  - apply busy_commit.
  - reflexivity.
  - vm_compute. discriminate.
  - apply (bool_decide_unpack _). vm_compute. exact I.
  - intros x Hx.
    assert (jars_sessions begun.2 !! demo_id = Some (with_state demo_session SessionCommitting))
      as Hb by (vm_compute; reflexivity).
    rewrite Hb in Hx. injection Hx as <-. vm_compute. discriminate.
Defined.
