(* ===== verification/StorageWitnesses.v ===== *)
(** * Witnesses of the storage, vault and gateway properties *)

From S2P Require Import Prelude Text Domain Foreign CredentialContract Std Policy PolicyFacts.
From S2P Require Import HttpProxy HttpFacts CredentialSecret CookieJar CredentialProxy Crypto.
From S2P Require Import Stateful Vault Database CredentialStore CredentialStoreFacts.
From S2P Require Import CredentialStoreProps PluginStore StorageOps StorageHistory GrantProps.
From S2P Require Import SqliteVault VaultProps ProxyGateway ProxyGatewayProps ProxyBackend.
From S2P Require Import ProxyBackendProps Concrete.

(** ** A content plugin, a credential it declares, and a grant *)

Definition store_scope : CredentialScope := mkCredentialScope "demo.account".
Definition store_origin : CredentialTargetOrigin :=
  mkCredentialTargetOrigin "https://api.example.com".
Definition store_manifest : PluginManifest := {|
  PluginManifest_schema_version := "1";
  PluginManifest_id := mkPluginId "demo";
  PluginManifest_name := "Demo";
  PluginManifest_version := "1.0.0";
  PluginManifest_plugin_type := Content;
  PluginManifest_runtime := mkRuntimeSpec Nodejs "22" "index.js";
  PluginManifest_compatibility := mkCompatibilitySpec "1" "1";
  PluginManifest_platform := mkPlatformSpec "demo" "Demo";
  PluginManifest_capabilities := [];
  PluginManifest_network := mkNetworkPolicy ["*.example.com"];
  PluginManifest_credentials := mkCredentialDeclarations []
    [mkCredentialScopeDeclaration store_scope [store_origin]] [];
  PluginManifest_build := mkBuildSpec (mkLifecycleScriptPolicy false None);
|}.
Definition store_codec : Codec := toy_codec store_manifest.
Definition store_hash : string := str (replicate 64 "0"%char).

Definition store_codec_laws : CodecLaws store_codec := toy_codec_laws store_manifest.
Definition store_runtime_laws : VaultRuntimeLaws (core_vault (CoreRuntime := toy_core_runtime)) :=
  toy_runtime_laws toy_state.
Existing Instances toy_url_lib toy_headers toy_headers_laws toy_gzip toy_encoding toy_cookie_lib
  toy_secret_json toy_secret_json_laws store_codec store_codec_laws toy_aead toy_aead_laws
  toy_core_runtime store_runtime_laws toy_wire toy_wire_laws.

Definition store_plugin : PluginRecord := {|
  PluginRecord_plugin_id := mkPluginId "demo";
  PluginRecord_plugin_type := Content;
  PluginRecord_platform_id := "demo";
  PluginRecord_name := "Demo";
  PluginRecord_version := "1.0.0";
  PluginRecord_protocol_version := "1";
  PluginRecord_source_kind := "local";
  PluginRecord_source_ref := "demo";
  PluginRecord_commit_sha := None;
  PluginRecord_repository_id := None;
  PluginRecord_manifest_json := JsonManifest : @Json store_codec;
  PluginRecord_manifest_hash := store_hash;
  PluginRecord_source_hash := None;
  PluginRecord_image_id := None;
  PluginRecord_status := Healthy;
  PluginRecord_run_mode := OnDemand;
  PluginRecord_priority := 1;
  PluginRecord_enabled := true;
  PluginRecord_last_error := None;
  PluginRecord_install_operation_id := None;
  PluginRecord_last_used_at := None;
  PluginRecord_installed_at := 0;
  PluginRecord_updated_at := 0;
|}.

Definition store_key : MasterKey := mkMasterKey (replicate 32 "k"%char).
Definition store_secret : SecretInput := InputToken (mkTokenCredentialSecret "tok3n").

Definition create_request : CredentialCreateRequest :=
  mkCredentialCreateRequest "demo" store_scope None [store_origin] None None None.
Definition store_grant (id : CredentialId) : CredentialScopeGrantRecord :=
  mkCredentialScopeGrantRecord 5 (mkPluginId "demo") store_hash id store_scope [store_origin] 0 None.

(** The plugin is stored, then the credential is created through the vault. *)
Definition plugin_store : Store := run_ops [OpUpsertPlugin store_plugin] (quiet db_empty).
Definition http_state : toy_state := mkToyState
  (StaticResolver_new [("api.example.com", [V4 (mkIpv4Addr 93 184 216 34)])])
  [Ok (mkTransportResponse 200 [("content-type", bytes "text/plain")] (bytes "hello"))].
Definition core_start : CoreState toy_state := mkCoreState plugin_store [] http_state.
Definition created := vault_create store_key create_request Token store_secret core_start.

Definition created_id : CredentialId := mkCredentialId 11.
Lemma created_Ok : stored_id <$> created.1 = Ok created_id.
Proof. vm_compute. reflexivity. Qed.

Definition created_record : StoredCredential := Eval vm_compute in
  match created.1 with
  | Ok record => record
  | Err _ => mkStoredCredential (metadata_with_status (record_to_stored (mkCredentialRecord created_id
      Token "" store_scope None 1 1 [] [] [] Active None None None None None 1 0 0)) Active)
      created_id Token "" store_scope None [] None None Active None None None 0 0 1
      (mkEncryptedEnvelope 1 1 [] [])
  end.
Lemma created_eq :
  vault_create store_key create_request Token store_secret core_start = (Ok created_record, created.2).
Proof.
  assert (created.1 = Ok created_record) as <- by (vm_compute; reflexivity).
  apply surjective_pairing.
Qed.

Lemma create_request_typed : create_typed create_request.
Proof.
  split; [vm_compute; reflexivity|done|]. apply Forall_singleton. vm_compute. reflexivity.
Qed.
Lemma create_request_dated : dated (CredentialCreateRequest_expires_at create_request).
Proof. done. Qed.
Lemma store_secret_ok : input_ok store_secret.
Proof. vm_compute. split; discriminate. Qed.

Lemma vault_create_opens_witness :
  ∃ r, record_id r = created_id ∧ credential_at (core_db created.2) r ∧
    open_record store_key (record_to_stored r) = Ok (guard_of store_secret).
Proof.
  destruct (vault_create_opens store_key create_request store_secret core_start created_record
    created.2 create_request_typed create_request_dated store_secret_ok created_eq) as (r & Hid & Hr & _ & _ & _ & _ & Ho).
  exists r. split; [rewrite Hid; vm_compute; reflexivity|]. split; [exact Hr|exact Ho].
Defined.

(** ** The stored record *)

Definition store_record : CredentialRecord := record_of_stored created_record.
Lemma store_record_typed : record_typed store_record.
Proof.
  assert (record_target_origins store_record = [store_origin]) as Horigins
    by (vm_compute; reflexivity).
  assert (record_expires_at store_record = None ∧ record_status_checked_at store_record = Some 0)
    as [Hexpires Hchecked] by (vm_compute; split; reflexivity).
  split.
  - split; vm_compute; [split|]; discriminate || reflexivity.
  - vm_compute. reflexivity.
  - by vm_compute.
  - vm_compute. split; discriminate || reflexivity.
  - vm_compute. split; discriminate || reflexivity.
  - vm_compute. reflexivity.
  - rewrite Horigins. apply Forall_singleton. vm_compute. reflexivity.
  - rewrite Hexpires, Hchecked. split_and!; [vm_compute; split; discriminate || reflexivity..|done|].
    intros t [= <-]. vm_compute. split; discriminate || reflexivity.
  - vm_compute. discriminate.
Qed.

Definition ops : list StorageOp :=
  [OpUpsertPlugin store_plugin; OpInsertCredential store_record; OpCreateGrant (store_grant created_id)].
Definition full_store : Store := run_ops ops (quiet db_empty).

Lemma ops_typed : Forall op_typed ops.
Proof.
  constructor; [done|]. constructor; [exact store_record_typed|]. constructor; [done|constructor].
Qed.
Lemma empty_credentials_ok : credentials_ok db_empty.
Proof. by intros t row Hrow. Qed.
Lemma created_id_value : uuid_value (CredentialId_as_uuid created_id).
Proof. by vm_compute. Qed.
Lemma full_credentials_ok : credentials_ok (store_db full_store).
Proof. apply run_ops_credentials_ok; [exact ops_typed|exact empty_credentials_ok]. Qed.
Lemma plugin_credentials_ok : credentials_ok (store_db plugin_store).
Proof. apply run_ops_credentials_ok; [by repeat constructor|exact empty_credentials_ok]. Qed.

Lemma get_first db r :
  credentials_ok db → (get created_id (quiet db)).1 = Ok (Some r) →
  get created_id (quiet db) = (Ok (Some r), quiet db).
Proof.
  intros Hok Hg. destruct (get created_id (quiet db)) as [res s] eqn:E. simpl in Hg. subst res.
  pose proof E as (_ & Hid & Hat & Hmax)%get_cases; [|done|exact created_id_value].
  rewrite <- E, <- Hid. by apply get_quiet.
Qed.
Lemma stored_in_full :
  get created_id (quiet (store_db full_store)) = (Ok (Some store_record), quiet (store_db full_store)).
Proof. apply get_first; [exact full_credentials_ok|]. vm_compute. reflexivity. Qed.

Lemma stored_credentials_readable_witness :
  ∃ r, record_id r = created_id ∧ credential_at (store_db full_store) r ∧
    (record_revision r ≤ i64_max → get created_id (quiet (store_db full_store)) =
      (Ok (Some r), quiet (store_db full_store))).
Proof.
  destruct (stored_credentials_readable ops (quiet db_empty) created_id ops_typed
    empty_credentials_ok created_id_value) as [[[Hnone _]|(r & Hid & Hat & Hget & _)] _].
  - exfalso. change (db_credentials (store_db full_store) !! id_text created_id = None) in Hnone.
    revert Hnone. vm_compute. discriminate.
  - exists r. split; [exact Hid|]. split; [exact Hat|exact Hget].
Defined.

Lemma insert_store :
  insert store_record plugin_store = (Ok tt, (insert store_record plugin_store).2).
Proof.
  assert ((insert store_record plugin_store).1 = Ok tt) as <- by (vm_compute; reflexivity).
  apply surjective_pairing.
Qed.
Lemma insert_get_witness :
  ∃ origins, origins ≡ₚ record_target_origins store_record ∧
    (get created_id (quiet (store_db (insert store_record plugin_store).2))).1 =
      Ok (Some (with_target_origins store_record origins)).
Proof.
  destruct (insert_get store_record plugin_store (insert store_record plugin_store).2
    store_record_typed insert_store) as (origins & Hp & Hg & _).
  exists origins. split; [exact Hp|]. exact (f_equal fst Hg).
Defined.

Lemma update_store :
  update store_record full_store = (Ok 2, (update store_record full_store).2).
Proof.
  assert ((update store_record full_store).1 = Ok 2) as <- by (vm_compute; reflexivity).
  apply surjective_pairing.
Qed.
Lemma update_compare_and_swap_witness :
  ∃ old, credential_at (store_db full_store) old ∧ record_id old = created_id ∧
    record_revision old = 1.
Proof.
  destruct (update_compare_and_swap store_record full_store (Ok 2) (update store_record full_store).2
    full_credentials_ok store_record_typed update_store)
    as (_ & old & origins & Hold & Hid & Hrev & _).
  exists old. split; [exact Hold|]. split; [exact Hid|exact Hrev].
Defined.

Lemma same_revision_same_record_witness :
  record_revision store_record ≤ record_revision store_record.
Proof.
  apply (same_revision_same_record created_id [OpDeletePlugin (mkPluginId "demo")] full_store
    store_record store_record).
  - constructor; [done|constructor].
  - constructor; [by intros []|constructor].
  - exact full_credentials_ok.
  - exact created_id_value.
  - exact stored_in_full.
  - apply get_first; [|vm_compute; reflexivity].
    apply run_ops_credentials_ok; [constructor; [done|constructor]|exact full_credentials_ok].
Defined.

(** ** Grants *)

Lemma store_grant_typed : grant_typed (store_grant created_id).
Proof.
  split; try by vm_compute.
  - apply Forall_singleton. vm_compute. reflexivity.
Qed.

Definition ungranted_store : Store :=
  run_ops [OpUpsertPlugin store_plugin; OpInsertCredential store_record] (quiet db_empty).
Lemma ungranted_credentials_ok : credentials_ok (store_db ungranted_store).
Proof.
  apply run_ops_credentials_ok; [|exact empty_credentials_ok].
  constructor; [done|]. constructor; [exact store_record_typed|constructor].
Qed.
Lemma ungranted_wf : db_wf (store_db ungranted_store).
Proof. apply run_ops_wf. exact db_wf_empty. Qed.

Definition granted := create_grant (store_grant created_id) ungranted_store.
Lemma granted_Ok : create_grant (store_grant created_id) ungranted_store = (Ok tt, granted.2).
Proof.
  assert (granted.1 = Ok tt) as <- by (vm_compute; reflexivity). apply surjective_pairing.
Qed.
Lemma create_grant_active_witness :
  ∃ origins, origins ≡ₚ [store_origin] ∧
    (CredentialStore.active_grant (mkPluginId "demo") created_id store_scope
       (quiet (store_db granted.2))).1 = Ok (Some (with_grant_origins (store_grant created_id) origins)).
Proof.
  destruct (create_grant_active (store_grant created_id) ungranted_store granted.2 ungranted_wf
    ungranted_credentials_ok store_grant_typed granted_Ok) as (origins & Hp & Hg & _).
  exists origins. split; [exact Hp|]. exact (f_equal fst Hg).
Defined.

Definition queried := CredentialStore.active_grant (mkPluginId "demo") created_id store_scope full_store.
Lemma queried_Ok :
  CredentialStore.active_grant (mkPluginId "demo") created_id store_scope full_store =
  (Ok (Some (store_grant created_id)), queried.2).
Proof.
  assert (queried.1 = Ok (Some (store_grant created_id))) as <- by (vm_compute; reflexivity).
  apply surjective_pairing.
Qed.
Lemma active_grant_sound_witness :
  ∃ r, record_id r = created_id ∧ credential_at (store_db full_store) r ∧
    grant_in_force (store_db full_store) (mkPluginId "demo") r store_scope (store_grant created_id).
Proof.
  exact (active_grant_sound (mkPluginId "demo") created_id store_scope full_store
    (store_grant created_id) queried.2 full_credentials_ok created_id_value queried_Ok).
Defined.

(** ** The vault over the database *)

(** Another task disables the plugin between the reads. *)
Definition other_op : StorageOp := OpUpdateSettings 0 (mkPluginId "demo") false OnDemand 1.
Definition core_full (others : list (list StorageOp)) : CoreState toy_state :=
  mkCoreState full_store others http_state.
Definition opening := sqlite_open_current store_key created_id (core_full [[]; [other_op]]).
Definition opened_demo : OpenedCredential :=
  mkOpenedCredential (record_metadata store_record) (guard_of store_secret).
Lemma opening_Ok :
  sqlite_open_current store_key created_id (core_full [[]; [other_op]]) =
  (Ok (Some opened_demo), opening.2).
Proof.
  assert (opening.1 = Ok (Some opened_demo)) as <- by (vm_compute; reflexivity).
  apply surjective_pairing.
Qed.
Lemma core_full_ok others :
  Forall (Forall (λ op, op_typed op ∧ ¬ creates op created_id)) others →
  core_ok created_id (core_full others).
Proof. intros Ho. split; [exact full_credentials_ok|exact Ho]. Qed.
Lemma other_op_ok : Forall (λ op, op_typed op ∧ ¬ creates op created_id) [other_op].
Proof. constructor; [|constructor]. split; [done|]. by intros []. Qed.

Lemma open_current_coherent_witness :
  ∃ r, record_id r = created_id ∧ credential_at (core_db opening.2) r ∧
    open_record store_key (record_to_stored r) = Ok (guard_of store_secret).
Proof.
  destruct (open_current_coherent store_key created_id (core_full [[]; [other_op]]) opened_demo
    opening.2 created_id_value) as (r & Hid & Hat & _ & Ho & _).
  - apply core_full_ok. constructor; [constructor|]. constructor; [exact other_op_ok|constructor].
  - exact opening_Ok.
  - exists r. split; [exact Hid|]. split; [exact Hat|exact Ho].
Defined.

Definition new_secret : SecretInput := InputToken (mkTokenCredentialSecret "fresh").
Definition update_request : CredentialUpdateRequest :=
  mkCredentialUpdateRequest created_id 1 [store_origin] None (Some "me") Active None None (Some 0).
Definition updating := vault_update store_key update_request Token new_secret (core_full [[other_op]]).
Definition updated_record : StoredCredential := Eval vm_compute in
  match updating.1 with Ok record => record | Err _ => created_record end.
Lemma updating_Ok :
  vault_update store_key update_request Token new_secret (core_full [[other_op]]) =
  (Ok updated_record, updating.2).
Proof.
  assert (updating.1 = Ok updated_record) as <- by (vm_compute; reflexivity).
  apply surjective_pairing.
Qed.
Lemma update_request_typed : update_typed update_request.
Proof.
  split; [by vm_compute| |split; [done|]].
  - apply Forall_singleton. vm_compute. reflexivity.
  - intros t [= <-]. by vm_compute.
Qed.
Lemma new_secret_ok : input_ok new_secret.
Proof. vm_compute. split; discriminate. Qed.
Lemma vault_update_opens_witness :
  stored_revision updated_record = 2 ∧
  ∃ r, credential_at (core_db updating.2) r ∧ record_revision r = 2 ∧
    open_record store_key (record_to_stored r) = Ok (guard_of new_secret).
Proof.
  destruct (vault_update_opens store_key update_request new_secret (core_full [[other_op]])
    updated_record updating.2 update_request_typed new_secret_ok) as (Hrev & db & old & r & H).
  - apply core_full_ok. constructor; [exact other_op_ok|constructor].
  - exact updating_Ok.
  - destruct H as (_ & _ & _ & _ & Hat & _ & Hr & _ & _ & _ & _ & Ho).
    split; [exact Hrev|]. exists r. split; [exact Hat|]. split; [exact Hr|exact Ho].
Defined.

(** * Witnesses of the gateway, backend and envelope properties *)

(** ** Envelopes *)

Definition demo_context : EncryptionContext := EncryptionContext_new created_id store_scope 1.
Lemma associated_data_injective_witness : demo_context = demo_context.
Proof. apply associated_data_injective; [by vm_compute|by vm_compute|reflexivity]. Defined.

Lemma sealed_roundtrip_witness :
  ∃ envelope, encrypt store_key demo_context (bytes "x") (Some (replicate 12 "n"%char)) = Ok envelope ∧
    decrypt store_key demo_context envelope = Ok (bytes "x").
Proof.
  destruct (sealed_roundtrip store_key demo_context) as [Hopen _].
  eexists. split; [vm_compute; reflexivity|].
  eapply (Hopen (bytes "x") (Some (replicate 12 "n"%char))). vm_compute. reflexivity.
Defined.

(** ** The registry: registered, replaced, another plugin *)

Definition registry_ops : list RegistryOp :=
  [Register (Some (bytes "one")) 1 (mkPluginId "demo");
   Register (Some (bytes "two")) 2 (mkPluginId "demo");
   Register (Some (bytes "three")) 3 (mkPluginId "other")].
Definition empty_registry : ProxyTokenRegistry := mkProxyTokenRegistry 2 ∅ ∅ false.
Definition demo_registry : ProxyTokenRegistry := registry_run registry_ops empty_registry.
Definition demo_token : string := b64_encode (bytes "two").
Definition demo_runtime : AuthenticatedRuntime :=
  mkAuthenticatedRuntime (mkPluginId "demo") (mkRuntimeGeneration 2).

Lemma registry_refines_sessions_witness :
  registry_len demo_registry = 2 ∧ authenticate demo_registry demo_token = Ok demo_runtime.
Proof.
  destruct (registry_refines_sessions 2 empty_registry registry_ops) as (Hlen & _ & Hauth).
  - reflexivity.
  - lia.
  - vm_compute. repeat constructor; rewrite ?elem_of_cons, ?elem_of_nil; naive_solver.
  - split; [exact Hlen|]. apply Hauth. split; [discriminate|]. split; [by vm_compute|].
    split; [reflexivity|]. exists demo_token. by split.
Defined.

(** ** Answers and dispatch *)

Lemma answers_fit_witness :
  ∃ b, encode_response invalid_request = b ++ [newline] ∧ zlen b ≤ MAX_PROXY_FRAME_BYTES.
Proof. exact (proj1 answers_fit invalid_request). Defined.

Definition demo_members : WireMembers :=
  mkWireMembers (Some (Some demo_token)) "r1" "GET" "https://api.example.com/v1"
    [("Accept", "text/plain")] (Some None) (Some None) (Some (Some "demo.account")).
Definition demo_frame : list byte := bits_of (encode demo_members).
Definition backend_start : BackendState toy_state := mkBackendState ∅ false (core_full []).

Existing Instance SqliteCoreProxyBackend.
Definition dispatched := dispatch_frame (D := SqliteCoreProxyBackend store_key) demo_frame demo_registry backend_start.
Lemma dispatched_status : WireResponse_status dispatched.1 = 200.
Proof. vm_compute. reflexivity. Qed.

Lemma backend_called_authenticated_witness :
  ∃ token runtime request, authenticate demo_registry token = Ok runtime ∧
    core_request_ok request ∧
    dispatched.2 = (backend_execute (CoreProxyBackend := SqliteCoreProxyBackend store_key) runtime
                      request backend_start).2.
Proof.
  destruct (backend_called_authenticated (D := SqliteCoreProxyBackend store_key) demo_frame
    demo_registry backend_start dispatched.1 dispatched.2 (surjective_pairing _))
    as [[_ Hr]|(wire & token & runtime & request & _ & _ & Ha & _ & Hok & Hw)].
  - exfalso. pose proof dispatched_status as Hs. destruct Hr as [Hr|Hr]; rewrite Hr in Hs; discriminate.
  - exists token, runtime, request. split; [exact Ha|]. split; [exact Hok|exact Hw].
Defined.

(** ** The backend: the token of the database goes out *)

Definition demo_core_request : CoreProxyRequest :=
  mkCoreProxyRequest "r1" "GET" "https://api.example.com/v1" [] [] None (Some store_scope).
Definition backend_run := execute_traced store_key demo_runtime demo_core_request backend_start.
Lemma backend_sent :
  (TransportRequest_headers ∘ snd) <$> backend_run.1.2 = [[("authorization", bytes "Bearer tok3n")]].
Proof. vm_compute. reflexivity. Qed.
Lemma backend_run_eq :
  execute_traced store_key demo_runtime demo_core_request backend_start =
  (backend_run.1.1, backend_run.1.2, backend_run.2).
Proof. fold backend_run. by destruct backend_run as [[? ?] ?]. Qed.

(** The manifest every hash stands for here: that of the stored plugin. *)
Definition demo_published (_ : PluginId) (_ : string) : PluginManifest :=
  match (load_plugin (runtime_plugin_id demo_runtime) (backend_core backend_start)).1 with
  | Ok plugin => context_manifest plugin
  | Err _ => store_manifest
  end.

Lemma backend_credential_use_witness :
  length backend_run.1.2 = 1%nat ∧ zlen backend_run.1.2 ≤ 6.
Proof.
  split; [pose proof (f_equal length backend_sent) as Hl; rewrite length_fmap in Hl; exact Hl|].
  assert (services_ok demo_published backend_start) as Hs by (intros key service Hk; discriminate Hk).
  assert (loads_published demo_published (runtime_plugin_id demo_runtime) backend_start) as Hp
    by (intros plugin c Hl; unfold manifest_published, demo_published; by rewrite Hl).
  exact (proj1 (proj2 (backend_credential_use store_key demo_published demo_runtime
    demo_core_request backend_start store_scope backend_run.1.1 backend_run.1.2 backend_run.2
    Hp Hs eq_refl backend_run_eq))).
Defined.
