(* ===== verification/InstallWitnesses.v ===== *)
(** * Witnesses for the install operations

    A concrete root directory, JSON encoding and build adapter, and one plugin
    taken from [begin] to [finalize]; the theorems apply to what these runs
    compute. *)

From S2P Require Import Prelude Text Domain Stateful Database SupervisorProtocol Fs.
From S2P Require Import InstallOperation InstallOperationProps InstallFiles InstallRecovery.
From S2P Require Import Concrete.

(** ** Encodings *)

Global Instance PluginInstallOperationState_countable : Countable PluginInstallOperationState.
Proof.
  refine (inj_countable
    (λ s, match s with Accepted => 0%nat | Building => 1%nat | Built => 2%nat
                     | Finalized => 3%nat | Failed => 4%nat | Aborted => 5%nat end)
    (λ n, [Accepted; Building; Built; Finalized; Failed; Aborted] !! n) _). by intros [].
Defined.
Global Instance PluginInstallArtifact_countable : Countable PluginInstallArtifact :=
  inj_countable' (λ a, (artifact_image_id a, artifact_repository_id a, artifact_commit_sha a,
                        artifact_source_hash a, artifact_manifest_hash a))
    (λ '(a, b, c, d, e), mkPluginInstallArtifact a b c d e)
    (λ '(mkPluginInstallArtifact _ _ _ _ _), eq_refl).
Global Instance PluginBuildLogStream_countable : Countable PluginBuildLogStream.
Proof.
  refine (inj_countable (λ s, match s with Stdout => 0%nat | Stderr => 1%nat | System => 2%nat end)
    (λ n, [Stdout; Stderr; System] !! n) _). by intros [].
Defined.
Global Instance PluginBuildLog_countable : Countable PluginBuildLog :=
  inj_countable' (λ l, (build_log_sequence l, build_log_stream l, build_log_message l))
    (λ '(a, b, c), mkPluginBuildLog a b c) (λ '(mkPluginBuildLog _ _ _), eq_refl).
Global Instance PluginInstallOperation_countable : Countable PluginInstallOperation :=
  inj_countable' (λ o, (operation_id o, operation_plugin_id o, operation_state o,
                        operation_artifact o, operation_build_logs o, operation_error_code o,
                        operation_acknowledged o))
    (λ '(a, b, c, d, e, f, g), mkPluginInstallOperation a b c d e f g)
    (λ '(mkPluginInstallOperation _ _ _ _ _ _ _), eq_refl).
Global Instance StoredOperation_countable : Countable StoredOperation :=
  inj_countable' (λ s, (stored_installation_id s, stored_operation s, stored_created_at s,
                        stored_updated_at s, stored_sequence s))
    (λ '(a, b, c, d, e), mkStoredOperation a b c d e) (λ '(mkStoredOperation _ _ _ _ _), eq_refl).
Global Instance RunMode_countable : Countable RunMode :=
  inj_countable' (λ m, match m with OnDemand => true | Always => false end)
    (λ b : bool, if b then OnDemand else Always)
    (λ m, match m with OnDemand => eq_refl | Always => eq_refl end).
Global Instance InstallAttestation_countable : Countable InstallAttestation :=
  inj_countable' (λ a, (attestation_installation_id a, attestation_operation_id a,
      attestation_plugin_id a, attestation_image_id a, attestation_source_kind a,
      attestation_repository_id a, attestation_commit_sha a, attestation_source_hash a,
      attestation_manifest_hash a, attestation_base_image_digest a, attestation_sdk_hash a,
      (attestation_memory_bytes a, attestation_nano_cpus a, attestation_pids_limit a,
       attestation_run_mode a)))
    (λ '(a, b, c, d, e, f, g, h, i, j, k, (l, m, n, o)),
       mkInstallAttestation a b c d e f g h i j k l m n o)
    (λ '(mkInstallAttestation _ _ _ _ _ _ _ _ _ _ _ _ _ _ _), eq_refl).

(** A UUID is its bits after a letter, and a prepared request is the text of
    its grant's id. *)
Definition sup_codec : Codec := {|
  uuid_to_string := λ u, "u" +:+ toy_text u;
  uuid_parse_str := λ s, match s with String "u" s => toy_parse s | _ => None end;
  to_rfc3339 := toy_text;
  parse_from_rfc3339 := toy_parse_time;
  Json := string;
  json_to_string := Some;
  json_from_str := Some;
  json_get := λ v key, if eqb key "riskGrantId" then Some v else None;
  declarations_from_value := λ _, None;
  manifest_from_value := λ _, None |}.

Existing Instance sup_codec.
Lemma sup_codec_laws : CodecLaws sup_codec.
Proof.
  split; simpl; [intros u _; apply toy_parse_text|apply toy_parse_time_text
    |apply toy_parse_time_years|].
  by intros v s [= ->].
Qed.

Definition sup_json : OperationJson (K := sup_codec) := {|
  operation_to_vec_pretty := λ s, Some (bits_of (encode s));
  operation_from_slice := λ b, decode (of_bits b);
  attestation_to_vec_pretty := λ a, Some (bits_of (encode a));
  attestation_from_slice := λ b, decode (of_bits b);
  json_from_slice := λ b, Some (str b : @Json sup_codec);
  json_as_str := λ v : @Json sup_codec, Some v |}.

Lemma sup_json_laws : OperationJsonLaws (K := sup_codec) sup_json.
Proof.
  split; simpl; [|..|done].
  - intros stored content _ [= <-]. by rewrite of_bits_of, decode_encode.
  - intros a content [= <-]. by rewrite of_bits_of, decode_encode.
Qed.

Existing Instances sup_codec_laws sup_json sup_json_laws.

(** ** The adapter: its state is the list of images *)

Definition toy_artifact : PluginInstallArtifact :=
  mkPluginInstallArtifact "sha256:1" "author/plugin" "c0ffee" "5ource" "manife5t".

Definition toy_adapter : InstallBuildAdapter (list string) := {|
  adapter_build := λ _ images,
    (Ok (mkBuildOutput toy_artifact (bytes "{}") "sha256:base" "sdk" [mkPluginBuildLog 1 System "done"]),
     "sha256:1" :: images);
  adapter_remove_image := λ image images,
    (Ok tt, List.filter (λ i, negb (eqb i image)) images);
  adapter_cleanup := λ _ images, (Ok tt, images) |}.
Existing Instance toy_adapter.

Definition sup_root : path := ["data"].
Definition sup_plugin : PluginId := mkPluginId "plugin".
Definition empty_disk (faults : list bool) : Disk :=
  mkDisk {[ [] := Dir ]} faults (λ n, 100 + Z.of_nat n) 0%nat.

Definition opened : Ops (list string) := (open sup_root "home" 0 (empty_disk []) []).2.

(** The core has prepared the request and mirrored the grant. *)
Definition prepared : Ops (list string) :=
  mkOps (ops_state opened)
    (set_fs (<[["data"; "grants"] := Dir]>
             (<[["data"; "grants"; json_file 7] := File (bytes "grant")]>
             (<[prepared_request (paths sup_root sup_plugin 1) := File (bytes (uuid_to_string 7))]>
             (<[mirrored_grant (paths sup_root sup_plugin 1) := File (bytes "grant")]>
                (disk_fs (ops_disk opened)))))) (ops_disk opened))
    (ops_adapter opened).
Definition accepted : Ops (list string) := (begin_locked sup_root "home" sup_plugin 1 1 prepared).2.
Definition built : Ops (list string) := run_build sup_root "home" sup_plugin 1 (λ n, 2 + Z.of_nat n) accepted.
Definition finalized : Ops (list string) := (finalize sup_root "home" sup_plugin 1 5 built).2.

(** The first [finalize] fails in writing the record, and is tried again. *)
Definition with_faults (faults : list bool) (o : Ops (list string)) : Ops (list string) :=
  let d := ops_disk o in
  mkOps (ops_state o) (mkDisk (disk_fs d) faults (disk_uuids d) (disk_drawn d)) (ops_adapter o).
Definition unrecorded : Ops (list string) :=
  (finalize sup_root "home" sup_plugin 1 5 (with_faults (replicate 9 false ++ [true]) built)).2.
Definition retried : Ops (list string) := (finalize sup_root "home" sup_plugin 1 6 unrecorded).2.

(** The supervisor is killed while the image is built, and restarted. *)
Definition building : Ops (list string) :=
  (set_state sup_root sup_plugin 1 Building None 2 accepted).2.
Definition reopened : Ops (list string) := (open sup_root "home" 9 (ops_disk building) []).2.

(** The plugin's image is built a second time, and the task fails. *)
Definition failed : Ops (list string) :=
  (set_failed sup_root sup_plugin 1 "BUILD_FAILED" [] 3 building).2.

Definition record_of (o : Ops (list string)) : StoredOperation :=
  default (mkStoredOperation "" (mkPluginInstallOperation 0 sup_plugin Accepted None [] None false) 0 0 0)
    (operations (ops_state o) !! 1).

Lemma record_of_eq (o : Ops (list string)) :
  is_some (operations (ops_state o) !! 1) = true →
  operations (ops_state o) !! 1 = Some (record_of o).
Proof. unfold record_of. by destruct (operations _ !! 1). Qed.

Lemma record_of_Some (o : Ops (list string)) stored :
  operations (ops_state o) !! 1 = Some stored → record_of o = stored.
Proof. unfold record_of. by intros ->. Qed.

Lemma run_Ok {E B} (m : result E B * Ops (list string)) :
  is_ok m.1 = true → ∃ b, m = (Ok b, m.2).
Proof. destruct m as [[b|e] o]; [by eexists|done]. Qed.

Lemma tree_by_entries (fs : Fs) :
  forallb (λ e, eqb e.1 [] || is_dir fs (parent e.1)) (map_to_list fs) = true → tree fs.
Proof.
  rewrite forallb_forall. intros Hall k x [v Hv].
  specialize (Hall (k ++ [x], v)). rewrite <- list_elem_of_In, elem_of_map_to_list in Hall.
  specialize (Hall Hv). unfold is_dir, parent in Hall. simpl in Hall. rewrite removelast_last in Hall.
  apply orb_true_iff in Hall as [H|H]; bool_prop; [by destruct k|done].
Qed.

Lemma built_sections : rtc (critical (W := list string) sup_root "home") OperationState_default (ops_state built).
Proof.
  assert (rtc (critical (W := list string) sup_root "home") (ops_state prepared) (ops_state built)) as H.
  { transitivity (ops_state accepted); [apply rtc_once, critical_begin|].
    pose proof (call_sections sup_root "home" (CallBuild sup_plugin 1 (λ n, 2 + Z.of_nat n)) accepted) as H.
    unfold sections in H. cbn [run_call] in H. fold built in H. exact H. }
  assert (ops_state prepared = OperationState_default) as <- by (vm_compute; reflexivity). done.
Qed.

Lemma built_wf : ops_wf (ops_state built).
Proof. eapply sections_wf, ops_wf_default. exact built_sections. Qed.

(** ** The witnesses *)

Lemma operations_bounded_witness :
  ops_wf (ops_state built) ∧
  list_operations (list_ops "home" built) = [operation_summary (stored_operation (record_of built))] ∧
  ∀ c, rtc (critical (W := list string) sup_root "home") OperationState_default (ops_state (run_call sup_root "home" c built)).
Proof.
  destruct (operations_bounded sup_root "home" OperationState_default built ops_wf_default built_sections)
    as (Hwf & _ & Hcalls).
  split_and!; [exact Hwf|vm_compute; reflexivity|exact Hcalls].
Defined.

Lemma finalize_installs_witness :
  operation_state (stored_operation (record_of finalized)) = Finalized ∧
  disk_fs (ops_disk finalized) !! prepared_request (paths sup_root sup_plugin 1) = None ∧
  disk_fs (ops_disk built) !! ["data"; "grants"; json_file 7] = Some (File (bytes "grant")) ∧
  disk_fs (ops_disk finalized) !! ["data"; "grants"; json_file 7] = None ∧
  ∀ r, disk_fs (ops_disk finalized) !! (installed_dir (paths sup_root sup_plugin 1) ++ r) =
       disk_fs (ops_disk built) !! (candidate_dir (paths sup_root sup_plugin 1) ++ r).
Proof.
  destruct (run_Ok (finalize sup_root "home" sup_plugin 1 5 built)) as [op E]; [vm_compute; reflexivity|].
  destruct (finalize_installs sup_root "home" sup_plugin 1 5 built op finalized built_wf) as
    (stored & artifact & a & Hs & Hop & _ & Hst & _ & _ & _ & Hprep & _ & Hgrant & Hold);
    [apply tree_by_entries; vm_compute; reflexivity|exact E|].
  split_and!; [|exact Hprep|apply (bool_decide_eq_true_1 _); vm_compute; reflexivity|..].
  - rewrite (record_of_Some _ _ Hs), Hop. exact Hst.
  - apply (Hgrant (bytes (uuid_to_string 7)) 7);
      [apply (bool_decide_eq_true_1 _); vm_compute; reflexivity
      |apply (bool_decide_eq_true_1 _); vm_compute; reflexivity|].
    assert (disk_faults (ops_disk built) = []) as -> by (vm_compute; reflexivity). apply not_elem_of_nil.
  - intros k. destruct (Hold (record_of built)) as [_ Hmove];
      [apply record_of_eq; vm_compute; reflexivity|vm_compute; reflexivity|].
    assert (disk_fs (ops_disk built) !! installed_dir (paths sup_root sup_plugin 1) = None) as Hn
      by (vm_compute; reflexivity).
    exact (proj1 (Hmove Hn k)).
Defined.

(** Memory says finalized, the file still says built. *)
Lemma finalize_retry_unrecorded_witness :
  operation_state (stored_operation (record_of retried)) = Finalized ∧
  disk_fs (ops_disk retried) !! operation_record_path sup_root 1 =
    File <$> operation_to_vec_pretty (record_of built).
Proof.
  destruct (run_Ok (finalize sup_root "home" sup_plugin 1 6 unrecorded)) as [op E]; [vm_compute; reflexivity|].
  destruct (finalize_retry_unrecorded sup_root "home" sup_plugin 1 6 unrecorded (record_of unrecorded)
    op retried) as (_ & Hs & Hfiles);
    [apply record_of_eq; vm_compute; reflexivity|vm_compute; reflexivity|exact E|].
  split.
  - unfold record_of. rewrite Hs. vm_compute. reflexivity.
  - unfold operation_record_path. rewrite Hfiles. apply (bool_decide_eq_true_1 _). vm_compute. reflexivity.
Defined.

Lemma abort_finished_refused_witness :
  ∃ e o', abort sup_root "home" sup_plugin 1 7 failed = (Err e, o') ∧ untouched failed o'.
Proof.
  apply (abort_finished_refused sup_root "home" sup_plugin 1 7 failed (record_of failed)).
  - apply record_of_eq. vm_compute. reflexivity.
  - left. vm_compute. reflexivity.
Defined.

Lemma building_run : rtc (recorded_step sup_root "home") prepared building.
Proof.
  transitivity accepted; apply rtc_once.
  - destruct (run_Ok (begin_locked sup_root "home" sup_plugin 1 1 prepared)) as [op E];
      [vm_compute; reflexivity|].
    refine (recorded_begin _ _ sup_plugin 1 1 _ op _ _ _ E); split; vm_compute; done.
  - destruct (run_Ok (set_state sup_root sup_plugin 1 Building None 2 accepted)) as [op E];
      [vm_compute; reflexivity|].
    refine (recorded_state _ _ sup_plugin 1 Building None 2 _ op _ _ E); split; vm_compute; done.
Qed.

Lemma prepared_fresh : fresh_root sup_root prepared.
Proof.
  split; [vm_compute; reflexivity|]. intros name _.
  destruct (disk_fs (ops_disk prepared) !! (sup_root ++ ["operations"; name])) as [v|] eqn:E; [|done].
  exfalso. apply elem_of_map_to_list, list_elem_of_In in E. revert E. vm_compute.
  intros H. repeat destruct H as [H|H]; try done.
Qed.

Lemma restart_recovers_witness :
  operations (ops_state reopened) !! 1 = Some (restarted 9 (record_of building)) ∧
  operation_state (stored_operation (restarted 9 (record_of building))) = Failed ∧
  operations (ops_state reopened) !! 2 = None.
Proof.
  destruct (run_Ok (open sup_root "home" 9 (ops_disk building) [])) as [[] E]; [vm_compute; reflexivity|].
  pose proof (restart_recovers sup_root "home" 9 (ops_disk building) [] prepared building reopened
    prepared_fresh building_run (λ name, eq_refl) E) as H.
  split_and!; [|vm_compute; reflexivity|].
  - etransitivity; [exact (H 1)|vm_compute; reflexivity].
  - etransitivity; [exact (H 2)|vm_compute; reflexivity].
Defined.
