(* ===== verification/RepositoryWitnesses.v ===== *)
(** * Witnesses for repositories, snapshots, prepared installations and builds

    A small archive with one plugin that runs lifecycle scripts, taken from its
    extraction to the supervisor's acceptance and the start of its build. *)

From S2P Require Import Prelude Text Std Domain Foreign CredentialContract Policy PolicyFacts Database.
From S2P Require Import Stateful Fs Program Redaction InstallOperation ContainerPolicy SupervisorHost InstallRecord PluginManager PluginArchive PluginRepository PluginRepositoryProps.
From S2P Require Import SnapshotStore PreparedInstall PreparedInstallProps StagedInstall PluginBuild PluginBuildProps.
From S2P Require Import Concrete InstallWitnesses.

(** ** Instances *)

Global Instance PluginType_countable : Countable PluginType :=
  inj_countable' (λ t, match t with Content => true | Credential => false end)
    (λ b : bool, if b then Content else Credential)
    (λ t, match t with Content => eq_refl | Credential => eq_refl end).
Global Instance CredentialScope_countable : Countable CredentialScope :=
  inj_countable' CredentialScope_as_str mkCredentialScope (λ '(mkCredentialScope _), eq_refl).
Global Instance CredentialTargetOrigin_countable : Countable CredentialTargetOrigin :=
  inj_countable' CredentialTargetOrigin_as_str mkCredentialTargetOrigin
    (λ '(mkCredentialTargetOrigin _), eq_refl).
Global Instance CredentialScopeDeclaration_countable : Countable CredentialScopeDeclaration :=
  inj_countable' (λ d, (CredentialScopeDeclaration_scope d, CredentialScopeDeclaration_target_origins d))
    (λ '(a, b), mkCredentialScopeDeclaration a b) (λ '(mkCredentialScopeDeclaration _ _), eq_refl).
Global Instance CredentialDeclarations_countable : Countable CredentialDeclarations :=
  inj_countable' (λ d, (CredentialDeclarations_provided_scopes d, CredentialDeclarations_required_scopes d,
                        CredentialDeclarations_optional_scopes d))
    (λ '(a, b, c), mkCredentialDeclarations a b c) (λ '(mkCredentialDeclarations _ _ _), eq_refl).
Global Instance SnapshotPlugin_eq_dec : EqDecision SnapshotPlugin.
Proof. solve_decision. Defined.
Global Instance SnapshotPlugin_countable : Countable SnapshotPlugin :=
  inj_countable' (λ p, (snapshot_plugin_id p, snapshot_plugin_name p, snapshot_plugin_version p,
                        snapshot_plugin_type p, snapshot_plugin_credentials p, snapshot_plugin_path p,
                        snapshot_manifest_hash p, snapshot_source_hash p,
                        snapshot_requires_lifecycle_scripts p, snapshot_lifecycle_script_reason p))
    (λ '(a, b, c, d, e, f, g, h, i, j), mkSnapshotPlugin a b c d e f g h i j)
    (λ '(mkSnapshotPlugin _ _ _ _ _ _ _ _ _ _), eq_refl).
Global Instance SnapshotMetadata_eq_dec : EqDecision SnapshotMetadata.
Proof. solve_decision. Defined.
Global Instance SnapshotMetadata_countable : Countable SnapshotMetadata :=
  inj_countable' (λ m, (snapshot_schema_version m, snapshot_id m, snapshot_repository_id m,
                        snapshot_repository_name m, snapshot_source_url m, snapshot_commit_sha m,
                        snapshot_created_at m, snapshot_file_count m, snapshot_extracted_bytes m,
                        snapshot_plugins m))
    (λ '(a, b, c, d, e, f, g, h, i, j), mkSnapshotMetadata a b c d e f g h i j)
    (λ '(mkSnapshotMetadata _ _ _ _ _ _ _ _ _ _), eq_refl).
Global Instance PreparedMetadata_eq_dec : EqDecision PreparedMetadata.
Proof. solve_decision. Defined.
Global Instance PreparedMetadata_countable : Countable PreparedMetadata :=
  inj_countable' (λ m, (prepared_schema_version m, prepared_id m, prepared_snapshot_id m, prepared_plugin m,
                        prepared_repository_id m, prepared_source_url m, prepared_commit_sha m,
                        prepared_plugin_path m, prepared_manifest_hash m, prepared_source_hash m,
                        prepared_allow_lifecycle_scripts m, prepared_risk_grant_id m))
    (λ '(a, b, c, d, e, f, g, h, i, j, k, l), mkPreparedMetadata a b c d e f g h i j k l)
    (λ '(mkPreparedMetadata _ _ _ _ _ _ _ _ _ _ _ _), eq_refl).
Global Instance GrantMirror_eq_dec : EqDecision GrantMirror.
Proof. solve_decision. Defined.
Global Instance GrantMirror_countable : Countable GrantMirror :=
  inj_countable' (λ m, (mirror_schema_version m, mirror_grant_id m, mirror_repository_id m, mirror_plugin_id m,
                        mirror_commit_sha m, mirror_risk_kind m, mirror_reason m, mirror_granted_at m))
    (λ '(a, b, c, d, e, f, g, h), mkGrantMirror a b c d e f g h)
    (λ '(mkGrantMirror _ _ _ _ _ _ _ _), eq_refl).

(** A file is the bits of its value and the final newline. *)
Definition line_decode {T} `{Countable T} (b : list byte) : option T := decode (of_bits (removelast b)).
Lemma line_decode_encode {T} `{Countable T} (x : T) : line_decode (bits_of (encode x) ++ newline) = Some x.
Proof. unfold line_decode, newline. by rewrite removelast_last, of_bits_of, decode_encode. Qed.

Definition repo_json : StagingJson := {|
  snapshot_to_vec := λ m, Some (bits_of (encode m));
  snapshot_from_slice := line_decode;
  cleanup_from_slice := λ b, snapshot_created_at <$> line_decode b;
  prepared_to_vec := λ m, Some (bits_of (encode m));
  prepared_from_slice := line_decode;
  grant_to_vec := λ m, Some (bits_of (encode m));
  grant_from_slice := line_decode |}.

(** Thirty-two bytes of what is hashed. *)
Definition repo_encoding : Encoding := {|
  b64_encode := toy_encode; b64_decode := toy_decode;
  sha256 := λ l, take 32 (l ++ replicate 32 (chr 0)) |}.

Definition repo_manifest : PluginManifest :=
  mkPluginManifest "1.0" (mkPluginId "com.example.plugin") "Plugin" "1.2.3" Content
    (mkRuntimeSpec Nodejs "22" "dist/index.js") (mkCompatibilitySpec "1" "1")
    (mkPlatformSpec "example" "Example") ["content.search"] (mkNetworkPolicy ["*.example.com"])
    (mkCredentialDeclarations []
       [mkCredentialScopeDeclaration (mkCredentialScope "example.account")
          [mkCredentialTargetOrigin "https://api.example.com"]] [])
    (mkBuildSpec (mkLifecycleScriptPolicy true (Some " builds a binary "))).
Definition repo_index : RepositoryIndex :=
  mkRepositoryIndex "1.0" (mkRepositoryMetadata "example" "Example") [mkRepositoryPluginRef "plugins/one"].
Definition repo_package : JsonObject :=
  [("name", Str "plugin"); ("scripts", Object [("postinstall", Str "node-gyp")]); ("version", Str "1.2.3")].
Definition repo_lockfile : JsonObject :=
  [("lockfileVersion", Num (Some 3));
   ("packages", Object [("", Object [("name", Str "plugin"); ("version", Str "1.2.3")])])].

Definition when {T} (content : list byte) (text : string) (value : T) : option T :=
  if eqb content (bytes text) then Some value else None.

Definition repo_lib : RepositoryLib (U := toy_url_lib) := {|
  index_from_slice := λ b, when b "index" repo_index;
  plugin_manifest_from_slice := λ b, when b "manifest" repo_manifest;
  value_from_slice := λ b,
    match when b "package" (Object repo_package) with
    | Some v => Some v
    | None => when b "lockfile" (Object repo_lockfile)
    end;
  repository_response_from_slice := λ b, Some (Some (str b));
  commit_response_from_slice := λ b, Some (str b);
  VersionReq := unit;
  VersionReq_parse := λ _, Some tt;
  VersionReq_matches := λ _ _, true;
  Url_port := λ _, None;
  Url_path_segments := λ u : @Url toy_url_lib, Some (split "/"%char (toy_path u));
  Url_set_path := λ (u : @Url toy_url_lib) p, mkToyUrl (toy_scheme u) (toy_host u) p;
  Url_extend := λ u _, Some u;
  standard_decode := λ s, Some (bytes s) |}.
Existing Instances sup_codec toy_url_lib repo_encoding repo_lib repo_json.

Lemma repo_json_laws : StagingJsonLaws repo_json.
Proof. split; intros m content _ [= <-]; apply line_decode_encode. Qed.
Existing Instance repo_json_laws.

(** ** An archive and its extraction *)

Definition repo_entry (p text : string) : option TarEntry :=
  Some (mkTarEntry EntryRegular (Some (bytes p)) (Some (str_len text)) (bytes text) false).
Definition repo_entries : list (option TarEntry) :=
  [Some (mkTarEntry EntryDirectory (Some (bytes "repo-1")) (Some 0) [] false);
   repo_entry "repo-1/audiodown-repository.json" "index";
   repo_entry "repo-1/plugins/one/audiodown-plugin.json" "manifest";
   repo_entry "repo-1/plugins/one/package.json" "package";
   repo_entry "repo-1/plugins/one/package-lock.json" "lockfile";
   repo_entry "repo-1/plugins/one/dist/index.js" "run()"].
Definition escaping_entries : list (option TarEntry) :=
  [repo_entry "repo-1/a" "a"; repo_entry "repo-1/../b" "b"].

Definition repo_archive : ArchiveLib := {|
  tar_entries := λ b,
    match when b "archive" repo_entries with
    | Some entries => Some entries
    | None => when b "escaping" escaping_entries
    end |}.
Existing Instance repo_archive.

Definition repo_data : path := ["data"].
Definition repo_incoming : path := ["data"; "incoming"].
Definition disk_of (archive : string) : Disk :=
  mkDisk (list_to_map [([], Dir); (["data"], Dir); (["data"; "incoming"], Dir);
                       (["data"; "incoming"; "snapshot.tar.gz"], File (bytes archive))])
    [] (λ n, 100 + Z.of_nat n) O.
Definition archive_at : path := ["data"; "incoming"; "snapshot.tar.gz"].

Definition extracting (archive : string) : result PluginManagerError ExtractedSnapshot * Disk :=
  extract_snapshot_blocking archive_at repo_incoming SnapshotLimits_default (disk_of archive).
Definition repo_extracted : ExtractedSnapshot :=
  mkExtractedSnapshot ["data"; "incoming"; "repository"] 5 33.

Lemma Ok_eta {E A S : Type} (x : result E A * S) a : x.1 = Ok a → x = (Ok a, x.2).
Proof. destruct x. by intros [= ->]. Qed.
Lemma Err_eta {E A S : Type} (x : result E A * S) e : x.1 = Err e → x = (Err e, x.2).
Proof. destruct x. by intros [= ->]. Qed.

Lemma extracted_run : extracting "archive" = (Ok repo_extracted, (extracting "archive").2).
Proof. apply Ok_eta. vm_compute. reflexivity. Qed.

Lemma extract_exact_witness :
  ∃ content entries,
    disk_fs (disk_of "archive") !! archive_at = Some (File content) ∧
    zlen content ≤ max_compressed_bytes SnapshotLimits_default ∧
    tar_entries content = Some entries ∧ within_limits SnapshotLimits_default (archive_files entries) ∧
    (∃ top, Forall (below_root top) entries) ∧ NoDup (omap folded_path entries) ∧
    holds_files (repo_incoming ++ ["repository"]) (disk_fs (extracting "archive").2) (archive_files entries) ∧
    repo_extracted = mkExtractedSnapshot (repo_incoming ++ ["repository"]) (zlen (archive_files entries))
                       (total_bytes (archive_files entries)).
Proof.
  apply (extract_exact archive_at repo_incoming SnapshotLimits_default (disk_of "archive")).
  - apply tree_by_entries. vm_compute. reflexivity.
  - vm_compute. discriminate.
  - vm_compute. discriminate.
  - reflexivity.
  - exact extracted_run.
Defined.

Lemma extract_failure_witness :
  (∀ r, disk_fs (extracting "escaping").2 !! (repo_incoming ++ "repository" :: r)
        = disk_fs (disk_of "escaping") !! (repo_incoming ++ "repository" :: r)) ∧
  ∀ r, disk_fs (extracting "escaping").2 !! (repo_incoming ++ "repository.tmp" :: r) = None.
Proof.
  destruct (extract_failure archive_at repo_incoming SnapshotLimits_default (disk_of "escaping")
    ArchivePathEscape (extracting "escaping").2) as [H1 H2].
  - apply tree_by_entries. vm_compute. reflexivity.
  - apply Err_eta. vm_compute. reflexivity.
  - split; [exact H1|]. apply H2; [reflexivity|]. intros r. apply not_elem_of_list_to_map_1.
    cbn. rewrite !not_elem_of_cons. split_and!; try discriminate. apply not_elem_of_nil.
Defined.

(** ** A download *)

Definition repo_response : ArchiveResponse :=
  mkArchiveResponse true (Some 4) [Some (bytes "arch"); Some (bytes "ive")].
Definition repo_http : GitHubHttp (U := toy_url_lib) unit := {|
  http_get := λ _ w, (Some repo_response, w) |}.
Existing Instance repo_http.
Definition repo_url : @Url toy_url_lib := mkToyUrl "https" "codeload.github.com" "/archive".
Definition downloading : result PluginManagerError path * (Disk * unit) :=
  download_archive (W := unit) repo_url repo_incoming (disk_of "", tt).

Lemma download_bounded_witness :
  ∃ response content, http_get repo_url tt = (Some response, downloading.2.2) ∧ response_success response = true ∧
    response_bytes (response_chunks response) = Some content ∧
    archive_at = repo_incoming ++ ["snapshot.tar.gz"] ∧
    disk_fs downloading.2.1 !! archive_at = Some (File content) ∧ zlen content ≤ MAX_ARCHIVE_BYTES.
Proof.
  apply (download_bounded repo_url repo_incoming (disk_of "") tt). vm_compute. reflexivity.
Defined.

Lemma installed_pattern_matches_witness :
  HostPattern_matches (HostPattern_parse "*.example.com") "api.example.com" = true.
Proof.
  apply (installed_pattern_matches "*.example.com" "api.example.com"); [vm_compute; reflexivity..|].
  split; [vm_compute; reflexivity|]. intros suffix [= <-]. vm_compute. reflexivity.
Defined.

(** ** The extracted repository *)

Definition entry_posix (root : path) (e : path * node) : bool :=
  match below root e.1 with
  | Some r =>
      forallb (λ name, negb (eqb name "") && negb (existsb (eqb "/"%char) (bytes name))) r
      && (zlen (join_bytes "/"%char (bytes <$> r)) <? 2 ^ 64)
      && match e.2 with File content => zlen content <? 2 ^ 64 | Dir => true end
  | None => true
  end.
Lemma posix_by_entries (root : path) (fs : Fs) :
  tree fs → forallb (entry_posix root) (map_to_list fs) = true → posix_below root fs.
Proof.
  intros Htree Hall. rewrite forallb_forall in Hall.
  assert (∀ r v, fs !! (root ++ r) = Some v → entry_posix root (root ++ r, v) = true) as Hat.
  { intros r v Hv. apply Hall, list_elem_of_In, elem_of_map_to_list, Hv. }
  unfold entry_posix in Hat. simpl in Hat. split; [by apply tree_tree_below|..].
  - intros r [v Hv]. apply Hat in Hv. rewrite below_app in Hv. bool_prop. apply Forall_forall. intros name Hin.
    match goal with H : forallb _ r = true |- _ => rewrite forallb_forall in H; specialize (H name) end.
    match goal with H : In name r → _ |- _ => specialize (H (proj1 (list_elem_of_In _ _) Hin)) end. bool_prop.
    split; [done|]. intros Hs. match goal with H : existsb _ _ = false |- _ => rewrite (proj2 (existsb_exists _ _)) in H end;
      [done|]. exists "/"%char. split; [by apply list_elem_of_In|done].
  - intros r [v Hv]. apply Hat in Hv. rewrite below_app in Hv. bool_prop. lia.
  - intros r content Hv. apply Hat in Hv. rewrite below_app in Hv. bool_prop. lia.
Qed.

(** The value of a run that succeeds. *)
Definition value_of {E A S : Type} (fallback : A) (x : result E A * S) : A :=
  match x.1 with Ok a => a | Err _ => fallback end.
Lemma value_of_Ok {E A S : Type} (fallback : A) (x : result E A * S) :
  is_ok x.1 = true → x = (Ok (value_of fallback x), x.2).
Proof. by destruct x as [[]]. Qed.

Definition disk1 : Disk := (extracting "archive").2.
Definition repo_root : path := repository_root repo_extracted.
Definition v1 : Version := mkVersion 1 0 0 "" "".

Lemma disk1_tree : tree (disk_fs disk1).
Proof. apply tree_by_entries. vm_compute. reflexivity. Qed.
Lemma disk1_posix : posix_below repo_root (disk_fs disk1).
Proof. apply posix_by_entries; [exact disk1_tree|]. vm_compute. reflexivity. Qed.

Definition validating : result PluginManagerError ValidatedRepository * Disk :=
  validate_repository repo_root v1 v1 SnapshotLimits_default disk1.
Definition repo_validated : ValidatedRepository := value_of (mkValidatedRepository "" "" []) validating.
Lemma validating_Ok : validating = (Ok repo_validated, validating.2).
Proof. apply value_of_Ok. vm_compute. reflexivity. Qed.

Lemma repository_validated_witness :
  map (λ p, PluginId_as_str (PluginManifest_id (validated_manifest p))) (validated_plugins repo_validated)
    = ["com.example.plugin"] ∧
  ∀ p, p ∈ validated_plugins repo_validated → ∃ names, validated_ok repo_root (disk_fs disk1) p names.
Proof.
  split; [vm_compute; reflexivity|].
  destruct (repository_validated repo_root v1 v1 SnapshotLimits_default disk1 repo_validated validating.2
    disk1_posix validating_Ok) as (_ & _ & _ & _ & H). exact H.
Defined.

Definition plugin_at : path := repo_root ++ ["plugins"; "one"].
Definition hashing : result PluginManagerError string * Disk := hash_source_tree plugin_at disk1.
Definition repo_hash : string := value_of "" hashing.
Lemma hashing_Ok : hash_source_tree plugin_at disk1 = (Ok repo_hash, hashing.2).
Proof. apply (value_of_Ok "" hashing). vm_compute. reflexivity. Qed.

Lemma hash_checks_agree_witness :
  settles (prepared_hash_source_tree plugin_at) (disk_fs disk1) repo_hash ∧
  ∀ e hash' e', disk_fs e = disk_fs disk1 → prepared_hash_source_tree plugin_at e = (Ok hash', e') → hash' = repo_hash.
Proof. exact (hash_checks_agree plugin_at disk1 repo_hash hashing.2 hashing_Ok). Defined.

(** The same tree with one byte changed. *)
Definition disk1' : Disk :=
  mkDisk (<[plugin_at ++ ["dist"; "index.js"] := File (bytes "ran()")]> (disk_fs disk1)) [] (λ _, 0) O.
Definition hashing' : result PluginManagerError string * Disk := hash_source_tree plugin_at disk1'.
Lemma hashing'_Ok : hash_source_tree plugin_at disk1' = (Ok (value_of "" hashing'), hashing'.2).
Proof. apply (value_of_Ok "" hashing'). vm_compute. reflexivity. Qed.

Lemma source_hash_determines_witness :
  ∃ input1 input2, repo_hash = hex (sha256 input1) ∧ value_of "" hashing' = hex (sha256 input2) ∧ input1 ≠ input2.
Proof.
  destruct (source_hash_determines plugin_at plugin_at disk1 disk1' repo_hash (value_of "" hashing')
    hashing.2 hashing'.2) as (i1 & i2 & H1 & H2 & H3).
  - apply posix_below_inner, disk1_posix.
  - apply posix_by_entries; [apply tree_by_entries|]; vm_compute; reflexivity.
  - exact hashing_Ok.
  - exact hashing'_Ok.
  - exists i1, i2. split; [exact H1|]. split; [exact H2|]. intros E. rewrite H3 in E.
    pose proof (proj2 (E ["dist"; "index.js"] (bytes "ran()")) ltac:(vm_compute; reflexivity)) as H.
    vm_compute in H. discriminate.
Defined.

(** ** Staging, preparing and accepting *)

Definition repo_commit : string := "0123456789abcdef0123456789abcdef01234567".
Definition repo_source : GitHubRepositoryRef :=
  mkGitHubRepositoryRef "owner" "repo" "https://github.com/owner/repo".
Definition repo_plugin : PluginId := mkPluginId "com.example.plugin".
Definition repo_grant : LifecycleRiskGrant :=
  mkLifecycleRiskGrant 7 "example" repo_plugin repo_commit LIFECYCLE_RISK_KIND "builds a binary" 1500.

Definition creating : result PluginManagerError RepositoryPreview * Disk :=
  create repo_data repo_source repo_commit repo_extracted repo_validated 1000 validating.2.
Definition repo_preview : RepositoryPreview := value_of (mkRepositoryPreview 0 "" "" "" "" []) creating.
Lemma creating_Ok : creating = (Ok repo_preview, creating.2).
Proof. apply value_of_Ok. vm_compute. reflexivity. Qed.

Definition preparing : result PluginManagerError PreparedOperation * Disk :=
  prepare_install repo_data (preview_snapshot_id repo_preview) repo_plugin (Some repo_grant) creating.2.
Definition repo_operation : PreparedOperation := value_of (mkPreparedOperation 0 repo_plugin) preparing.
Lemma preparing_Ok : preparing = (Ok repo_operation, preparing.2).
Proof. apply value_of_Ok. vm_compute. reflexivity. Qed.

Lemma repo_sha256 l : zlen (sha256 l) = 32.
Proof. unfold zlen. cbn [sha256 repo_encoding]. rewrite length_take, length_app, length_replicate. lia. Qed.

Lemma small_uuid n : bool_decide (0 ≤ n < 2 ^ 128) = true → uuid_value n.
Proof. apply bool_decide_eq_true. Qed.
Lemma year_1970 t : bool_decide (-62167219200 * 10 ^ 9 ≤ t < 253402300800 * 10 ^ 9) = true → rfc3339_time t.
Proof. apply bool_decide_eq_true. Qed.

Lemma staged_install_accepted_witness :
  ∃ install,
    settles (validate_prepared_install repo_data repo_plugin (prepared_operation_id repo_operation) 2000 2001)
      (disk_fs preparing.2) install ∧
    install_manifest install = repo_manifest ∧ install_risk_grant_id install = Some 7.
Proof.
  destruct (staged_install_accepted repo_data repo_source repo_commit repo_extracted v1 v1 SnapshotLimits_default
    1000 2000 2001 (Some repo_grant) repo_plugin disk1 repo_validated validating.2 repo_preview creating.2
    repo_operation preparing.2) as (p & names & install & Hp & _ & Hs & Hm & _ & _ & Hg & _).
  - exact repo_sha256.
  - exact disk1_tree.
  - exact disk1_posix.
  - split; reflexivity.
  - exact validating_Ok.
  - exact creating_Ok.
  - exact preparing_Ok.
  - vm_compute. reflexivity.
  - apply (bool_decide_unpack _). vm_compute. exact I.
  - apply (bool_decide_unpack _). vm_compute. exact I.
  - apply small_uuid. vm_compute. reflexivity.
  - apply small_uuid. vm_compute. reflexivity.
  - apply year_1970. vm_compute. reflexivity.
  - apply (bool_decide_unpack _). vm_compute. exact I.
  - intros g [= <-]. split; [apply small_uuid; vm_compute; reflexivity|].
    split; [apply year_1970; vm_compute; reflexivity|]. apply (bool_decide_unpack _). vm_compute. exact I.
  - exists install. split; [exact Hs|]. split; [|exact Hg]. rewrite Hm.
    apply list_elem_of_lookup in Hp as [[|n] Hp]; vm_compute in Hp; [|discriminate].
    injection Hp as <-. reflexivity.
Defined.

Definition accepting : result PreparedInstallError ValidatedPreparedInstall * Disk :=
  validate_prepared_install repo_data repo_plugin (prepared_operation_id repo_operation) 2000 2001 preparing.2.
Definition no_install : ValidatedPreparedInstall :=
  mkValidatedPreparedInstall 0 0 repo_plugin "" "" "" "" [] repo_manifest "" "" false None.
Definition repo_install : ValidatedPreparedInstall := value_of no_install accepting.
Lemma accepting_Ok :
  validate_prepared_install repo_data repo_plugin (prepared_operation_id repo_operation) 2000 2001 preparing.2
  = (Ok repo_install, accepting.2).
Proof. apply (value_of_Ok no_install accepting). vm_compute. reflexivity. Qed.

Lemma prepared_install_sound_witness :
  install_plugin_root repo_install = ["data"; "staging"; uuid_to_string 100; "repository"; "plugins"; "one"] ∧
  ∃ names, install_ok repo_data (disk_fs preparing.2) repo_install 2000 2001 names.
Proof.
  split; [vm_compute; reflexivity|].
  destruct (prepared_install_sound repo_data repo_plugin (prepared_operation_id repo_operation) 2000 2001
    preparing.2 repo_install accepting.2 accepting_Ok) as (_ & _ & _ & _ & H). exact H.
Defined.

(** ** Builds *)

(** An archive of the toy library holds the paths of its entries; reading gives a
    directory, a file and a link, in another order. *)
Definition toy_file (p : string) (t : EntryType) (content : list byte) : TarEntry :=
  mkTarEntry t (Some (bytes p)) (Some (zlen content)) content false.
Definition toy_tar : TarLib := {|
  tar_accepts := λ _, true;
  link_accepts := λ _, true;
  tar_finish := λ l, Some (concat (map (λ e, bytes (tar_path e)) l));
  output_entries := λ _, Some
    [Some (toy_file "output/" EntryDirectory [], false, Some None);
     Some (toy_file "output/lib/b.js" EntryRegular (bytes "x"), false, Some None);
     Some (toy_file "output/lib/a.js" EntryOther [], true, Some (Some "../lib/b.js"));
     Some (toy_file "output/lib" EntryDirectory [], false, Some None)] |}.

Lemma normalized_output_safe_witness :
  ∃ content, normalize_output_archive (T := toy_tar) (bytes "tar") = Ok content ∧
  ∃ entries, tar_finish (TarLib := toy_tar) (map output_tar entries) = Some content ∧
    zlen (bytes "tar") ≤ BUILD_OUTPUT_LIMIT_BYTES ∧
    zlen entries ≤ BUILD_OUTPUT_FILE_LIMIT ∧ Forall entry_safe entries ∧
    Forall (λ e, from_utf8 (bytes e.1.1) = Some e.1.1) entries ∧
    StronglySorted (cmp_lt (cmp_on (λ e, e.1.1) path_cmp)) entries.
Proof.
  exists (bytes "lib/lib/a.jslib/b.js").
  assert (normalize_output_archive (T := toy_tar) (bytes "tar") = Ok (bytes "lib/lib/a.jslib/b.js")) as H
    by (vm_compute; reflexivity).
  split; [exact H|]. exact (normalized_output_safe (T := toy_tar) _ _ H).
Defined.

(** A real archive of one file of two bytes, in two chunks. *)
Definition zeros (n : nat) : list byte := repeat (chr 0) n.
Definition toy_header : list byte :=
  bytes "a.txt" ++ zeros 119 ++ bytes "00000000002 " ++ zeros 376.
Definition toy_archive : list byte := toy_header ++ bytes "ok" ++ zeros 510 ++ zeros 1024.
Definition toy_chunks : list (result DockerError LogOutput) :=
  [Ok (StdOut (take 700 toy_archive)); Ok (Console (drop 700 toy_archive ++ bytes "more")); Ok (StdErr [])].

Lemma archive_read_whole_witness :
  4096 < usize_max ∧ read_archive 4096 [] toy_chunks = Ok toy_archive ∧
  ∃ n, complete_tar_length (leading_output toy_chunks) = Some n ∧
    toy_archive = take (Z.to_nat n) (leading_output toy_chunks).
Proof.
  assert (read_archive 4096 [] toy_chunks = Ok toy_archive) as E by (vm_compute; reflexivity).
  pose proof (archive_read_whole 4096 toy_chunks eq_refl) as H. rewrite E in H.
  destruct H as (n & Hn & Ha & _). split; [done|]. split; [exact E|]. by exists n.
Defined.

Definition toy_build_json : BuildJson := {| status_from_slice := λ _, None |}.
Lemma repo_operation_id : prepared_operation_id repo_operation = 101.
Proof. vm_compute. reflexivity. Qed.
Lemma repo_accepted :
  (validate_prepared_install repo_data repo_plugin 101 2000 2001 preparing.2).1 = Ok repo_install.
Proof. rewrite <- repo_operation_id. exact (f_equal fst accepting_Ok). Qed.

Definition repo_request : BuildRequest :=
  mkBuildRequest "installation" 101 repo_plugin [] ["data"; "prepared"; json_file 101] [].

(** A build that has both guards and is about to read its sources. *)
Lemma builds_exclusive_witness :
  ∃ ps m,
    rtc (pool_step (build_sem (T := toy_tar) repo_data)
      (build_tasks (T := toy_tar) (J := toy_build_json) repo_data "installation" None (λ _, [])))
      ([], BuildConcurrency_new) (ps, m) ∧
    (∃ h c k, ps !! 0%nat = Some (h, Vis c k) ∧ works c = true) ∧
    ∀ i j h h' c c' k k', ps !! i = Some (h, Vis c k) → ps !! j = Some (h', Vis c' k') →
      works c = true → works c' = true → i = j.
Proof.
  assert (∃ ps m,
    rtc (pool_step (build_sem (T := toy_tar) repo_data)
      (build_tasks (T := toy_tar) (J := toy_build_json) repo_data "installation" None (λ _, [])))
      ([], BuildConcurrency_new) (ps, m) ∧
    (∃ h c k, ps !! 0%nat = Some (h, Vis c k) ∧ works c = true)) as (ps & m & Hrun & Hw).
  { eexists _, _. split.
    - eapply rtc_l; [apply pool_spawn; by exists repo_request|].
      eapply rtc_l; [eapply pool_call with (i := 0%nat); [reflexivity|]|].
      { apply (sem_elsewhere (T := toy_tar) repo_data (ValidatePreparedInstall repo_plugin 101) _ (Ok repo_install)); [reflexivity|].
        exists 2000, 2001, preparing.2. exact repo_accepted. }
      eapply rtc_l; [eapply pool_call with (i := 0%nat); [reflexivity|]; apply sem_reserve; reflexivity|].
      eapply rtc_l; [eapply pool_call with (i := 0%nat); [reflexivity|]; apply sem_acquire; reflexivity|].
      apply rtc_refl.
    - eexists _, _, _. split; [reflexivity|]. reflexivity. }
  exists ps, m. split; [exact Hrun|]. split; [exact Hw|].
  exact (builds_exclusive (T := toy_tar) (J := toy_build_json) repo_data "installation" None (λ _, []) ps m Hrun).
Defined.
