(* ===== verification/SupervisorWitnesses.v ===== *)
(** * Witnesses for the plugin manager and the supervisor

    A pool of two tasks, an installation with the service's timing, and runs
    against the supervisor of InstallWitnesses.v. *)

From S2P Require Import Prelude Text Std Domain ContentContract Foreign CredentialContract Stateful.
From S2P Require Import BuildProxy.
From S2P Require Import Database CredentialStore CredentialStoreFacts PluginStore ProxyGateway.
From S2P Require Import SupervisorProtocol Fs InstallOperation InstallOperationProps InstallFiles.
From S2P Require Import Program Redaction PluginManager PluginManagerTasks PluginManagerInstall.
From S2P Require Import PluginManagerFaults StoreAdapter StoreAdapterProps RuntimeAdapter.
From S2P Require Import RuntimeAdapterProps ContainerPolicy SupervisorHost InstallRecord Docker.
From S2P Require Import SupervisorServer SupervisorConfined SupervisorTasks StorageWitnesses.
From S2P Require Import InstallWitnesses.

Existing Instances sup_codec sup_json toy_adapter.

Definition sup_protocol_json : ProtocolJson (K := sup_codec) := {|
  search_request_from_value := λ _, None;
  discover_request_from_value := λ _, None;
  categories_request_from_value := λ _, None;
  album_request_from_value := λ _, None;
  tracks_request_from_value := λ _, None;
  rpc_response_to_vec := λ _, Some [];
  json_object_len := λ _, None;
  json_is_array := λ _, false |}.
Definition sup_manager_lib : ManagerLib (K := sup_codec) := {|
  manifest_to_value := λ _, Some ("manifest" : @Json sup_codec);
  json_null := ("null" : @Json sup_codec);
  Number := Z;
  json_value := λ v : @Json sup_codec, Str (v : string);
  value_json := λ v, match v with Str text => text | _ => "" end : @Json sup_codec;
  manager_regex := {| replace_all := λ _ input _, input |} |}.
Existing Instances sup_protocol_json sup_manager_lib.

(** ** Two tasks *)

Definition demo_poll : Z := DEFAULT_INSTALL_POLL_INTERVAL.
Definition demo_timeout : Z := DEFAULT_INSTALL_WAIT_TIMEOUT.

Definition uninstalling : prog answer unit := discard (uninstall sup_plugin).
Definition stopping : prog answer unit := discard (stop sup_plugin).

(** The first task has the lock, the second has not begun. *)
Definition locked_uninstalling : bool → prog answer unit :=
  match uninstalling with Vis (TryOperationLock _) k => k | _ => λ _, Ret tt end.
Definition two_tasks : manager_pool :=
  <[0%nat := ([existT (TryOperationLock sup_plugin) true], locked_uninstalling true)]>
    [([], uninstalling); ([], stopping)].
Definition locked_memory : Memory := (try_operation_lock sup_plugin memory0).2.

Lemma two_tasks_reachable :
  rtc (pool_step manager_sem (manager_task demo_poll demo_timeout)) ([], memory0)
    (two_tasks, locked_memory).
Proof.
  eapply rtc_l; [apply pool_spawn, (TaskUninstall _ _ sup_plugin)|].
  eapply rtc_l; [apply pool_spawn, (TaskStop _ _ sup_plugin)|].
  eapply rtc_l; [|apply rtc_refl].
  apply (pool_call _ _ [([], uninstalling); ([], stopping)] memory0 0 []
    (TryOperationLock sup_plugin) locked_uninstalling true locked_memory); reflexivity.
Qed.

(** The task that holds the lock asks for the calls in flight; nobody else
    manages the plugin. *)
Lemma manager_tasks_exclusive_witness :
  (∃ h k, two_tasks !! 0%nat = Some (h, Vis (HasActiveCalls sup_plugin) k)) ∧
  (∃ h k, two_tasks !! 1%nat = Some (h, Vis (TryOperationLock sup_plugin) k)) ∧
  automatic_start_failure_count sup_plugin locked_memory ≤ 3.
Proof.
  destruct (manager_tasks_exclusive demo_poll demo_timeout two_tasks locked_memory two_tasks_reachable)
    as (_ & _ & _ & Hfail); [vm_compute; discriminate|].
  split_and!; [do 2 eexists; reflexivity..|apply Hfail].
Defined.

(** ** An installation with the default timing *)

Definition demo_install : InstallPluginCommand :=
  mkInstallPluginCommand 5 sup_plugin (mkLifecycleRiskInput false None).

Lemma install_ends_witness :
  wp clocked (install DEFAULT_INSTALL_POLL_INTERVAL DEFAULT_INSTALL_WAIT_TIMEOUT demo_install)
    (λ _ _, True) 0.
Proof. apply install_ends; vm_compute; [reflexivity|discriminate]. Defined.

(** ** The other ports: empty answers *)

Definition demo_record : InstallPluginRecord :=
  mkInstallPluginRecord 0 sup_plugin Content "platform" "Plugin" "1.0.0" "1.0" "https://example.org"
    "c0ffee" "author/plugin" ("manifest" : @Json sup_codec) "manife5t" "5ource" (Some "sha256:1")
    Healthy OnDemand 100 true None None None 0 0.
Definition demo_state (status : PluginStatus) : PluginRuntimeState (@Json sup_codec) :=
  mkPluginRuntimeState sup_plugin status None [].

Definition demo_rest (c : ManagerCall) (d : unit) : answer c * unit :=
  (match c return answer c with
   | StorePersistRiskGrant _ | StoreInsertInstalling _ | StoreRollbackInstall _ _
   | StorePersistBuildLog _ | StoreSavePlugin _ | StoreDeletePlugin _ | StorePersistRuntimeLog _
   | StoreTouch _ _ | StorePersistContentCallLog _ => Ok tt
   | StoreCompleteInstall _ _ => Ok demo_record
   | StoreListInstallRecords => Ok []
   | StoreGetPlugin _ => Ok None
   | RuntimeStart _ | RuntimeInspect _ => Ok (demo_state Healthy)
   | RuntimeStop _ => Ok (demo_state Stopped)
   | RuntimeInvoke _ _ _ | RuntimeRemove _ | BeginInstall _ _ | InstallStatus _ _
   | FinalizeInstall _ _ | AbortInstall _ _ | AcknowledgeInstall _ _ | ListInstallOperations
   | SnapshotLoadPlugin _ _ _ | SnapshotPrepareInstall _ _ _ => Err PluginRuntimeUnavailable
   | Authorize _ => Err DeveloperModeRequired
   | TryOperationLock _ => true
   | HasActiveCalls _ | TimerExpired => false
   | ReleaseOperationLock _ | ContentStartupLock _ | ReleaseStartupLock _ | BeginActiveCall _
   | EndActiveCall _ | ResetFailures _ | Sleep _ | OutOfFuel => tt
   | FailureCount _ | IncrementFailures _ | InstantNow => 0
   | PluginManager.UtcNow => 0
   | PluginManager.NewUuid => 7
   end, d).

Definition demo_manifest : PluginManifest :=
  let m := store_manifest in
  mkPluginManifest (PluginManifest_schema_version m) sup_plugin (PluginManifest_name m)
    (PluginManifest_version m) (PluginManifest_plugin_type m) (PluginManifest_runtime m)
    (PluginManifest_compatibility m) (PluginManifest_platform m) (PluginManifest_capabilities m)
    (PluginManifest_network m) (PluginManifest_credentials m) (PluginManifest_build m).
Definition demo_staged : StagedPlugin :=
  mkStagedPlugin 5 "author/plugin" "https://example.org" "c0ffee" "." demo_manifest "manife5t"
    "5ource" false None.

Lemma failed_builds_stay_witness :
  (let '(r, (o', _)) := run (with_supervisor sup_root "home" demo_rest 8)
     (reconcile_listed sup_plugin 1 None) (failed, tt) in
   is_ok r = false ∧ operations (ops_state o') !! 1 = Some (record_of failed)) ∧
  (let '(r, (o', _)) := run (with_supervisor sup_root "home" demo_rest 8)
     (wait_until_built demo_poll demo_timeout 3 demo_staged 1 (stored_operation (record_of failed)) 0 [])
     (failed, tt) in
   r = Err RuntimeUnavailable ∧ operations (ops_state o') !! 1 = Some (record_of failed)).
Proof.
  apply (failed_builds_stay sup_root "home" demo_rest 8 sup_plugin 1 failed (record_of failed) None tt
    demo_poll demo_timeout 2 demo_staged 0).
  - apply record_of_eq. vm_compute. reflexivity.
  - vm_compute. reflexivity.
  - reflexivity.
Defined.

Definition demo_uninspectable (c : ManagerCall) (s : list InstallPluginRecord * bool) :
    answer c * (list InstallPluginRecord * bool) :=
  match uninspectable demo_record (demo_state Healthy) (demo_state Stopped) 9 c s with
  | Some r => r
  | None => ((demo_rest c tt).1, s)
  end.

Lemma settings_failure_leaves_healthy_witness :
  run demo_uninspectable
    (update_settings (mkUpdatePluginSettingsCommand sup_plugin true Always 100)) ([], true) =
  (Err ManagementUnavailable, ([set_error (Some FAILED_ACTION) 9 demo_record], false)).
Proof.
  apply (settings_failure_leaves_healthy demo_record (demo_state Healthy) (demo_state Stopped) 9
    demo_uninspectable sup_plugin 100); try reflexivity; [|lia].
  intros c s r Hr. unfold demo_uninspectable. by rewrite Hr.
Defined.

(** * Witnesses for the adapters of the plugin manager

    An installation on an empty database, a plugin that is saved and loaded, and
    a pool in which a runtime is being started. *)

Existing Instances sup_codec sup_codec_laws sup_protocol_json sup_manager_lib.

(** Two letters for each byte. *)
Definition letters (b : byte) : list byte :=
  [chr (97 + code b / 16); chr (97 + code b mod 16)].
Definition letter_encoding : Encoding := {|
  b64_encode := λ l, str (mjoin (letters <$> l));
  b64_decode := λ _, None;
  sha256 := λ l, l |}.
Definition sup_adapter_json : AdapterJson (K := sup_codec) := {|
  build_log_context := λ _, ("context" : @Json sup_codec);
  call_log_context := λ _ _ _, ("context" : @Json sup_codec);
  uuid_new_v5 := λ l, zlen l;
  u64_to_string := λ n, uuid_to_string n |}.
Existing Instances letter_encoding sup_adapter_json.

Lemma succeeded {S E T} (m : result E T * S) : is_ok m.1 = true → ∃ b, m = (Ok b, m.2).
Proof. destruct m as [[b|e] s]; [by eexists|done]. Qed.

(** ** The store *)

(** The state is that after saving, the record that of the plugin. *)
Definition demo_saved : Store := (sqlite_save_plugin demo_record (Database.quiet db_empty)).2.

Lemma saved_plugin_loads_witness :
  ∃ s, sqlite_get_plugin (record_plugin_id demo_record) demo_saved = (Ok (Some (reloaded demo_record 0)), s).
Proof.
  assert (sqlite_save_plugin demo_record (Database.quiet db_empty) = (Ok tt, demo_saved)) as Hsave
    by (vm_compute; reflexivity).
  destruct (saved_plugin_loads demo_record (Database.quiet db_empty) demo_saved) as [_ Hload]; [|exact Hsave|].
  - split; [vm_compute; reflexivity|discriminate|discriminate|..]; split; vm_compute; congruence.
  - destruct (succeeded (sqlite_get_plugin (record_plugin_id demo_record) demo_saved)) as [found E]; [vm_compute; reflexivity|].
    destruct (Hload found _ E) as (at_ & Hfound & Hat). exists (sqlite_get_plugin (record_plugin_id demo_record) demo_saved).2.
    rewrite E, Hfound. vm_compute in Hat. rewrite Hat. reflexivity.
Defined.

Definition demo_operation (state : PluginInstallOperationState) (acknowledged : bool) :
    PluginInstallOperation :=
  mkPluginInstallOperation 1 sup_plugin state
    (Some (mkPluginInstallArtifact "sha256:1" "author/plugin" "c0ffee" "5ource" "manife5t")) [] None
    acknowledged.

(** A supervisor that has built the plugin when it is asked. *)
Definition demo_ports (c : ManagerCall) (d : unit) : answer c * unit :=
  (match c return answer c with
   | SnapshotLoadPlugin _ plugin_id _ =>
       if eqb plugin_id sup_plugin then Ok demo_staged else Err SnapshotNotFound
   | SnapshotPrepareInstall _ _ _ => Ok (mkPreparedOperation 1 sup_plugin)
   | BeginInstall _ _ | InstallStatus _ _ => Ok (demo_operation Built false)
   | FinalizeInstall _ _ => Ok (demo_operation Finalized false)
   | AcknowledgeInstall _ _ => Ok (demo_operation Finalized true)
   | c => (demo_rest c d).1
   end, d).

Definition demo_installed :
    result InstallError InstallPluginRecord * (Store * unit * history (answer := answer)) :=
  run (remembering demo_ports (λ _, 5) (λ _, 6)) (install demo_poll demo_timeout demo_install)
    (Database.quiet db_empty, tt, []).

Lemma install_stored_witness :
  is_ok demo_installed.1 = true ∧
  completed demo_install demo_staged demo_installed.2.2 (store_db demo_installed.2.1.1).
Proof.
  split; [vm_compute; reflexivity|]. destruct (succeeded demo_installed) as [record E]; [vm_compute; reflexivity|].
  refine (proj1 (install_stored demo_ports (λ _, 5) (λ _, 6) demo_install demo_staged _ _
    demo_poll demo_timeout (Database.quiet db_empty) tt record demo_installed.2.1.1
    demo_installed.2.1.2 demo_installed.2.2 _)).
  - intros snapshot_id plugin_id now d loaded. simpl. destruct (eqb plugin_id sup_plugin) eqn:Ep; [|done].
    intros [= <-]. bool_prop. subst plugin_id. split; reflexivity.
  - reflexivity.
  - rewrite <- !surjective_pairing. exact E.
Defined.

(** ** A runtime that is being started *)

Lemma letters_safe b : chr 0 ∉ letters b.
Proof.
  unfold letters. intros [H|[H|H%elem_of_nil]%elem_of_cons]%elem_of_cons; [..|done];
    destruct b as [[] [] [] [] [] [] [] []]; vm_compute in H; discriminate.
Qed.

Lemma token_text (l : list ascii) :
  chr 0 ∉ l → zlen l = 64 → ProxyToken_new (str l) = Ok (mkProxyToken (str l)).
Proof.
  intros Hsafe%list_contains_not_elem Hlen. unfold ProxyToken_new, str_contains.
  rewrite str_len_bytes, bytes_str, Hlen, Hsafe. destruct (str_is_empty _) eqn:E; [|reflexivity].
  apply str_is_empty_true, (f_equal bytes) in E. rewrite bytes_str in E. by subst l.
Qed.

Lemma letter_tokens : tokens_acceptable.
Proof.
  intros drawn Hlen. apply token_text.
  - intros (l & Hin & (b & -> & _)%list_elem_of_fmap)%list_elem_of_join. by apply (letters_safe b).
  - transitivity (2 * zlen drawn); [|lia]. clear Hlen. induction drawn as [|b l IH]; [done|].
    unfold zlen in *. unfold byte in *. simpl.
    rewrite !Nat2Z.inj_succ. etransitivity; [do 2 apply f_equal; exact IH|lia].
Qed.

Definition drawn32 : list byte := replicate 32 (chr 7).

Ltac next_call tac := eapply rtc_l; [eapply (pool_call _ _ _ _ 0%nat); [reflexivity|tac]|].

Lemma starting_reachable : ∃ (ps : runtime_pool) m h token k,
  rtc (pool_step runtime_sem runtime_task) ([], runtime0 4) (ps, m) ∧
  ps !! 0%nat = Some (h, Vis (ClientStartWithProxy sup_plugin token) k).
Proof.
  do 5 eexists. split.
  - eapply rtc_l; [apply pool_spawn, (RuntimeTaskStart sup_plugin)|]. cbn [app].
    next_call ltac:(instantiate (2 := tt); reflexivity).
    next_call ltac:(split; reflexivity).
    next_call ltac:(exists (Some drawn32), 9, (register (Some drawn32) 9 sup_plugin (runtime_registry (runtime0 4))).2;
      split; [by intros ? [= <-]|split; reflexivity]).
    next_call ltac:(reflexivity).
    apply rtc_refl.
  - reflexivity.
Qed.

Lemma runtime_tokens_tracked_witness : ∃ (ps : runtime_pool) m h token k generation,
  ps !! 0%nat = Some (h, Vis (ClientStartWithProxy sup_plugin token) k) ∧
  generations m !! sup_plugin = Some generation ∧
  by_plugin (runtime_registry m) !! sup_plugin =
    Some (generation, token_digest (proxy_token_value token)).
Proof.
  destruct starting_reachable as (ps & m & h & token & k & Hrun & Hpending).
  destruct (runtime_tokens_tracked 4 ps m letter_tokens Hrun) as (_ & Hstart & _).
  destruct (Hstart _ _ _ _ _ Hpending) as (generation & Hg & He). by exists ps, m, h, token, k, generation.
Defined.

(** * Witnesses for the supervisor's server

    A request that is sent twice, and a connection that is about to remove the
    container of the plugin it was asked to stop. *)

Existing Instances sup_codec sup_json sup_protocol_json letter_encoding.

Definition sup_docker_json : DockerJson (K := sup_codec) := {|
  json_object := λ fields, (String.concat "," fields.*1 : @Json sup_codec);
  json_string := λ s, (s : @Json sup_codec);
  rpc_request_to_string := λ _ _ _, None;
  rpc_response_from_str := λ _, None |}.
Definition sup_record_json : RecordJson := {|
  managed_record_from_slice := λ _, None;
  legacy_record_from_slice := λ _, None;
  manifest_from_slice := λ _, None |}.

Definition core_token : string := "core".
Definition stop_request (nonce : string) : SupervisorRequest :=
  mkSupervisorRequest "1" core_token 1000 nonce PluginStop
    (Some (ParamsPlugin (mkPluginRequest sup_plugin))).

Definition sup_server_lib : ServerLib (K := sup_codec) := {|
  json_bool := λ b, ((if b then "true" else "false") : @Json sup_codec);
  json_option_string := λ s, (default "null" s : @Json sup_codec);
  status_to_value := λ _, ("status" : @Json sup_codec);
  logs_to_value := λ _, ("logs" : @Json sup_codec);
  operation_to_value := λ _, Err "unsupported";
  operation_list_to_value := λ _, Err "unsupported";
  rpc_result_to_value := λ _, Err "unsupported";
  removed_to_value := λ _, Err "unsupported";
  request_from_slice := λ content, Ok (stop_request (str content));
  response_to_vec := λ _, Some [];
  protocol_error_to_string := λ _, "protocol";
  auth_error_to_string := λ _, "auth";
  docker_error_to_string := λ _, "docker";
  record_error_to_string := λ _, "record";
  operation_error_to_string := λ _, "operation" |}.
Existing Instances sup_docker_json sup_record_json sup_server_lib.

(** ** The same request, forty seconds later *)

Definition second : Z := 10 ^ 9.
Definition resent : list (SupervisorRequest * AuthClocks) :=
  [(stop_request "n", mkAuthClocks 990 (λ _, 5 * second) (5 * second));
   (stop_request "other", mkAuthClocks 1010 (λ _, 25 * second) (25 * second));
   (stop_request "n", mkAuthClocks 1030 (λ _, 45 * second) (45 * second))].

Lemma resent_clocks : clocks_ok resent.
Proof.
  split.
  - intros i a Hi. apply list_elem_of_lookup_2 in Hi.
    repeat (apply elem_of_cons in Hi as [->|Hi]; [vm_compute; by split|]). by apply elem_of_nil in Hi.
  - intros i j a b Hij Ha Hb. destruct i as [|[|[|i]]]; destruct j as [|[|[|j]]];
      try done; try lia; simpl in *; simplify_eq; simpl;
      (split; [intros _ _; unfold second; lia|intros _; unfold second; lia]).
Qed.

Lemma no_replay_witness :
  validate_all core_token ∅ resent !! 0%nat = Some (Ok tt) ∧
  validate_all core_token ∅ resent !! 2%nat ≠ Some (Ok tt).
Proof.
  assert (validate_all core_token ∅ resent !! 0%nat = Some (Ok tt)) as H0 by (vm_compute; reflexivity).
  split; [exact H0|].
  refine (no_replay core_token ∅ resent 0 2 _ _ resent_clocks _ eq_refl eq_refl _ _ _ H0);
    [lia|reflexivity|reflexivity|split; vm_compute; done].
Defined.

(** ** Stopping a plugin *)

Definition no_scripts : Scripts := mkScripts "bootstrap" "handshake" "rpc" "publish".
Definition demo_gateway : GatewayRuntimeConfig := mkGatewayRuntimeConfig "gateway" "proxy".
Definition demo_labels : labels := list_to_map [
  ("io.audiodown.managed", "true"); ("io.audiodown.installation", "here");
  ("io.audiodown.plugin-id", PluginId_as_str sup_plugin); ("io.audiodown.resource", "plugin")].

Abbreviation demo_sem := (supervisor_sem core_token).
Abbreviation demo_task := (connection_task no_scripts "/data" "here" demo_gateway).

Lemma stopping_reachable : ∃ (ps : supervisor_pool) m h k,
  rtc (pool_step demo_sem demo_task) ([], supervisor_memory0) (ps, m) ∧
  ps !! 0%nat = Some (h, Vis (RemoveContainer "c1") k).
Proof.
  do 4 eexists. split.
  - eapply rtc_l; [apply pool_spawn, ConnectionTask|]. cbn [app].
    next_call ltac:(instantiate (2 := Ok (Some "n"%char)); reflexivity).
    next_call ltac:(instantiate (2 := Ok None); reflexivity).
    next_call ltac:(exists (mkAuthClocks 990 (λ _, 0) 0); eexists; split; vm_compute; reflexivity).
    next_call ltac:(instantiate (2 := Ok tt); reflexivity).
    next_call ltac:(instantiate (2 := tt); split; [vm_compute; done|reflexivity]).
    next_call ltac:(instantiate (2 := Ok [mkContainerSummary (Some "c1") (Some demo_labels)]); reflexivity).
    apply rtc_refl.
  - reflexivity.
Qed.

Lemma supervisor_keeps_rules_witness : ∃ (ps : supervisor_pool) m h k found,
  ps !! 0%nat = Some (h, Vis (RemoveContainer "c1") k) ∧
  rtc (pool_step demo_sem demo_task) ([], supervisor_memory0) (ps, m) ∧
  ("c1", found) ∈ w_listed (ghost (supervised "/data" "here" demo_gateway) watch0 h).
Proof.
  destruct stopping_reachable as (ps & m & h & k & Hrun & Hpending).
  destruct (supervisor_keeps_rules no_scripts "/data" "here" core_token demo_gateway ps m Hrun)
    as (Hallowed & _ & _).
  destruct (Hallowed _ _ _ _ Hpending) as (p & resource & found & _ & Hin & _).
  by exists ps, m, h, k, found.
Defined.

(** ** The build proxy *)

(** One direction of a tunnel that passes on two bytes. *)
Lemma tunnels_bounded_witness :
  ∃ m, total_sent m = 2 ∧ total_sent m ≤ max_total_bytes ProxyLimits_default ∧
    ∀ tunnel, tunnel_sent m tunnel ≤ max_tunnel_bytes ProxyLimits_default.
Proof.
  eexists. split; [|eapply (tunnels_bounded ProxyLimits_default); cycle 4].
  2: { eapply rtc_l; [apply pool_spawn; by exists 2%nat, 7%nat|].
       eapply rtc_l; [eapply pool_call with (i := 0%nat); [reflexivity|]; apply (sem_read 7 _ (Ok (bytes "ok")));
         intros content [= <-]; vm_compute; discriminate|].
       eapply rtc_l; [eapply pool_call with (i := 0%nat); [reflexivity|]; apply sem_tunnel|].
       eapply rtc_l; [eapply pool_call with (i := 0%nat); [reflexivity|]; apply sem_total|].
       eapply rtc_l; [eapply pool_call with (i := 0%nat); [reflexivity|];
         apply (sem_write _ _ _ (Ok tt) 2); vm_compute; split; discriminate|].
       apply rtc_refl. }
  all: vm_compute; (reflexivity || discriminate).
Defined.
